(* ===== verification/_CoqProject ===== *)
-Q . S2P
Prelude.v
Kvm.v
ScriptHost.v
Cpuid.v
Virtine.v
Cache.v
SpinLock.v
Binding.v
Debug.v
GuestSys.v
GuestIO.v
Pass.v
TypeFinder.v
Emit.v
Compile.v
RunPass.v
VirtineCall.v
CMem.v
CSearch.v
CCopy.v
CType.v
CNum.v
CSort.v
CSpan.v
CWide.v
CExit.v
CBigWords.v
CBig.v
CBigConv.v
CDtoa.v
HeapLogic.v
Allocator.v
Malloc.v
MallocLocal.v
MallocInv.v
MallocFree.v
MallocAlloc.v
MallocSearch.v
MallocFirst.v
MallocSafe.v
MallocResize.v
MallocAlign.v
MallocRuns.v
CTree.v
