(* ===== verification/Prelude.v ===== *)
(** * Wasp: virtines, their hypervisor, compiler pass and guest library

    Wasp runs single functions of a C program in virtual machines of their own
    ("virtines").  A compiler pass (pass/) cuts a function annotated with [virtine]
    (include/virtine.h) out of the program, compiles it into a raw image and leaves a
    stub that packs the arguments and calls [wasp_run_virtine] (src/binding.cpp).  The
    binding takes a virtual machine from a pool (src/Cache.cpp), copies the arguments
    to guest address 0, runs it through KVM (src/Virtine.cpp), serves its hypercalls
    under a whitelist, copies the arguments back and returns the machine to the pool.
    Inside, the function runs on newlib with a system-call layer of its own
    (libc/newlib/libc/sys/virtine) and newlib's C library.

    ** Files

    - [Prelude]: this file.  Machine integers as [Z] with the wrap-around written out
      ([u64], [s32], ...), the error monad [M] (state passing, [Fault], C++ exceptions,
      abort, loop bound reached), tactics, list lemmas.
    - [Kvm]: the kernel as the class [Host]: a state, the system calls and ioctls Wasp
      issues, and the laws [HostLaws] it relies on (setting registers of one VCPU changes
      no other, KVM_RUN changes only its own VCPU and its own memory, fresh descriptors).
      [ScriptHost] is an instance of both, a kernel whose guests follow a script; the
      concrete runs of the examples are on it.
    - [Cpuid]: filter_cpuid of src/Virtine.cpp.
    - [Virtine]: struct Virtine (include/wasp/Virtine.h, src/Virtine.cpp).  [world] is all
      the C++ code can touch; one definition per method.
    - [Cache]: struct Cache (include/wasp/Cache.h, src/Cache.cpp): the pool, the shared
      reset state, get, put, ensure, and a step relation of clients and running guests.
    - [SpinLock]: the lock of Cache.cpp and the bodies of get, put and ensure as atomic
      steps of threads that interleave freely.
    - [Binding]: src/binding.cpp: the table of caches, the whitelist, every hypercall, the
      run loop, [wasp_run_virtine].  The host's system calls are the class [HostOS]; each
      call is logged, so that theorems can speak about what a guest caused.
    - [Debug]: hexdump and dump_trapframe of src/binding.cpp and the copy in pass/pass.cpp:
      the text they print.
    - [GuestSys]: syscalls.c and crt0.c, the guest's side of the hypercall interface.
      [GuestIO]: the two sides together.
    - [Pass]: pass/pass.cpp and pass/VirtineCompiler.cpp: which functions become virtines,
      dead-code removal, the stub and the image's main function.
    - [Emit]: the instructions compileFunction and create_main emit, as a builder monad, with
      an interpreter; [Compile]: the command runner (pass/command.cpp) and
      VirtineCompiler::compile over files and processes; [RunPass]: runOnModule, which puts
      [Pass], [Emit] and [Compile] together.
    - [TypeFinder]: the type analysis of pass/VirtineCompiler.cpp (TypeFinder, run_analysis).
    - [VirtineCall]: a call from end to end: the stub of [Emit], the binding, the pool, the
      snapshot and the machine, on the bytes of the argument structure.
    - [CMem]: flat memory, words in it, bounded loops with their total-correctness rule
      ([loop_total], tactic [run_loop]), the zero-byte test on words.
    - [CSearch], [CCopy], [CSpan], [CWide]: newlib's string functions in the word-at-a-time
      form that is compiled for the guest, and the wide-character ones
      (libc/newlib/libc/string); [CType]: the class table (ctype); [CNum]: numbers and
      text (stdlib/strto*.c, wcsto*.c, ato*.c, utoa.c, itoa.c); [CSort]: qsort and bsearch
      (search).
    - [CExit]: exit handlers (stdlib/__atexit.c, __call_atexit.c, atexit.c, on_exit.c,
      cxa_atexit.c, cxa_finalize.c, exit.c, quick_exit.c): the table of handlers, with
      handlers that are programs themselves.
    - [CBigWords], [CBig]: multiple-precision integers (stdlib/mprec.c): the loops over
      words, and the objects with their free lists and the cache of powers of five, in a
      store; [CBigConv]: their conversions from and to text and doubles; [CDtoa]: quorem and
      the digits of a double (stdlib/dtoa.c).
    - [HeapLogic]: a separation logic for the guest's memory, as a BI of the Iris proof
      mode, with a weakest precondition for the monad [M].
    - [Allocator]: what malloc and free promise a client, as the class [Allocator], and the
      step relation of clients that use it.
    - [Malloc]: stdlib/mallocr.c, statement by statement: chunks, bins, the top, malloc,
      free, realloc, memalign, calloc, mallinfo.  [MallocLocal]: on a part of the memory
      each call does the same or faults.  [MallocInv]: the heap invariant (chunks
      tile the heap, the boundary tags agree, the bins link exactly the free chunks);
      [MallocFree], [MallocAlloc], [MallocSearch], [MallocFirst]: free, splitting and
      extending, the searches of malloc, its first call; [MallocSafe]: the instance of
      [Allocator]; [MallocResize], [MallocAlign]: realloc and calloc, memalign;
      [MallocRuns]: programs that use them all.
    - [CTree]: search trees (search/tsearch.c, tfind.c, tdelete.c, tdestroy.c, twalk.c), a
      client of [Allocator].

    ** What the theorems show

    - Isolation ([Binding]): every host system call a guest causes, in finished and
      unfinished runs, is whitelisted ([whitelist_enforced]); whatever a guest does, other
      memory blocks, virtines and VCPUs stay as they are, exit after exit, until the guest
      makes one of three whitelisted calls that leave its memory: a snapshot longer than
      it, a path that does not end in it, a read or write whose length wraps the range
      check ([guest_isolation], [escapes]); for all register values the handler implements
      an abstract handler on registers, guest memory and host state, these cases included
      ([hypercall_refines]); a denied call changes nothing ([hypercall_denied]); read() and
      write() of the guest are those of the host on guest memory ([guest_io_correct]).
    - Calls ([VirtineCall], [Binding], [Pass], [Emit]): a call of a virtine, from the stub
      through the pool, the boot with its snapshot (or the snapshot of an earlier call) and
      the machine and back, is a call of the function ([virtine_call_correct]), and the
      image's main function is type-safe ([image_type_safe]); arguments go in and come back
      ([run_virtine_arguments]); running the emitted stub, whose call runs the emitted main
      function, is calling the function when pointers do not alias
      ([emitted_stub_equivalent], through [stub_equivalent]) and is not when they do
      ([stub_aliased]).
    - The pass ([RunPass], [Compile], [Pass]): every virtine becomes a stub with its image,
      made from the module before any stub was put in, and nothing else changes
      ([runOnModule_correct]); dead-code removal terminates and keeps what main needs
      ([dead_code_spec]); the configuration named in an attribute is the one used
      ([virtine_cfg_roundtrip]); a long function name makes the temporary files named after
      the virtine coincide and the image lose the function ([compile_long_name]).
    - Reuse ([Virtine], [Cache]): a reset restores registers and regions and a saved state
      survives whatever the guest does ([reset_restores], [snapshot_restore]); in every
      reachable state of a pool, get() hands out a virtine in its initial state and no two
      virtines share anything ([reachable_get_clean], [reachable_isolated]); what put()
      does not clear is stated too ([put_get_retains]); a snapshot of one virtine is the
      start of all ([Binding.snapshot_shared]).
    - Threads ([SpinLock]): mutual exclusion, exclusive ownership of virtines, entry within
      two steps of a waiting thread when the lock is free, and the loss of the lock after
      an exception.
    - Operations and errors ([Virtine], [Cache], [GuestSys], [Cpuid]): functional
      behaviour on every branch of construction, allocation, loading, range checks,
      ensure(), sbrk, open, the CPUID view.
    - The allocator ([Allocator], [MallocSafe], [MallocRuns]): whatever a program does with
      its blocks, malloc, free, realloc, calloc and memalign do not fault, as long as the
      memory reaches the 4 MB that sbrk gives out, and do not run out of steps, whatever
      the memory ([allocator_total]; [malloc_beyond_memory] is a fault with less); the blocks in use never overlap, are aligned
      ([malloc_blocks_safe]) and keep their contents ([allocator_keeps_blocks]), which
      realloc carries over ([realloc_contents]); null is returned only when the bins and
      sbrk are exhausted ([malloc_null_exhausted]); after everything is freed the memory
      can be had again ([malloc_after_free_all]).
    - Search trees ([CTree]): tsearch, tfind and tdelete implement a table kept in order
      ([search_tree_refines]); twalk and tdestroy reach every node ([search_tree_traversals]).
    - Exit ([CExit]): the table of handlers implements a stack for every program, whatever
      the handlers do ([exit_refines]); exit calls each of up to 32 handlers once, the last
      first ([exit_order]), and further registrations fail ([exit_order_limit]).
    - Multiple precision ([CBig], [CBigConv], [CDtoa]): the arithmetic is that of the
      integers and touches nothing else that is in use ([bigint_arithmetic]); the cache of
      powers of five stays right ([pow5mult_cached]); a double and its integer convert into
      each other exactly ([double_roundtrip]), as does text ([s2b_exact]); the digits dtoa
      gives are the quotient it has set up, correctly rounded ([dtoa_digits_rounded]).
    - Analyses and output ([TypeFinder], [Debug]): the type analysis ends on cyclic graphs
      and finds the largest integer reached; a dump shows every byte of its buffer.
    - The C library: each function terminates and computes what its specification says on
      every input, with every store accounted for; the conversions between numbers and
      text invert each other, and read the longest numeral but for a 0x without digits
      ([conversions_correct], [bare_0x_rejected]); qsort sorts every array of less than 2^31
      bytes under every ordering, and [vecswap_truncates] shows what the limit comes from.

    ** Bounds

    Loops of the code are structural recursions on a [fuel] argument, and every theorem
    about a result states how much is enough: the number of iterations the code makes (a
    string's length, the size of the array, the count asked for, for malloc a 32nd of the
    heap: [eheap <= 32 * fuel], since a chunk has at least 32 bytes, for pow5mult the bits
    of the exponent).  Objects of [CBig] have at most 2^30 words, so that their sizes fit an
    int.  Arrays that qsort sorts have less than 2^31 bytes.
    The theorems about the allocator are about runs that start with a malloc that the heap
    can serve, in a memory that reaches the limit of sbrk (4 MB, [boots]); [malloc_first_too_big]
    shows what happens when the first request is too big.  [exit_order] is about handlers
    that do not register handlers or call exit ([quiet_handlers]); [exit_refines] is about
    all.
    [virtine_call_correct] assumes of the compiled image what pass/rt/boot64.asm and the
    emitted main function are to do: [boots_image], from the entry to the snapshot
    hypercall, and [runs_image], from there to the exit, each in at most [exits] KVM_RUNs;
    twice [exits] is enough fuel.  With snapshots it assumes that at most one virtine is in
    the pool before the first call.
    A guest may run for ever and the kernel may refuse a request, so the theorems about a
    whole call of a virtine (its arguments, the filtered system calls), about a miss of the
    cache and about the size ensure() reaches speak of calls that finish, next to the
    theorems about each exit and each operation, which give the result outright; the
    theorems about the run loop are about [rtc] of its step, of any length, and hold of
    unfinished runs as well.  Integers have the width of the C types; pointers are block
    and offset in the hypervisor, and plain addresses in the guest.

    ** Not modelled

    The kernel, the host's system calls, the comparison function of qsort and the
    assembly routine __hypercall are parameters, as are the external tools the pass runs
    (llc, nasm, gcc, ld, objcopy) and of LLVM how a module prints and how it names a new
    symbol; calloc is a parameter of [CBig].  A step that faults has no state, so the log
    of the system calls ends with the step before.  Functions made into virtines are
    bodies that load and store the cells of their pointer arguments ([Pass.body]): they have
    no globals, arrays or calls.  A thread whose allocate() throws goes no further
    ([SpinLock]).  Boot code and linker scripts (assembly) are
    left out, the tests and benchmarks, and the rest of newlib: stdio, locales, iconv, time,
    the environment, hash tables, the mathematics library, other targets.  Of dtoa, what
    precedes the quotient (the estimate of the exponent and the short cuts in
    floating-point arithmetic, for which the rounding of the processor would have to be
    modelled) and the shortest digits are left out, and of mprec.c the two functions that
    only divide or multiply doubles.  The guest's library is modelled for its build: x86-64,
    no multibyte support, no locale information, optimised for speed, IEEE doubles.

    ** Order of the development

    The hypervisor, its pool and its binding come first, then the pass, then what the guest
    runs on: the system-call layer, memory, strings and numbers, the allocator.  What would
    come next are the environment, the hash tables (hsearch) and stdio, which rest on the
    allocator and the conversions that are here. *)

From stdpp Require Export base numbers list gmap strings.
From Stdlib Require Export ZArith Lia.

Declare Scope wasp_scope.
Delimit Scope wasp_scope with wasp.
Open Scope Z_scope.

(** ** Machine integers

    A [w]-bit integer is a [Z]; conversions write the wrap-around out. *)

Definition uwrap (w x : Z) : Z := x mod 2 ^ w.
Definition swrap (w x : Z) : Z := (x + 2 ^ (w - 1)) mod 2 ^ w - 2 ^ (w - 1).

Abbreviation u8 := (uwrap 8).
Abbreviation u32 := (uwrap 32).
Abbreviation u64 := (uwrap 64).
Abbreviation s8 := (swrap 8).
Abbreviation s32 := (swrap 32).
Abbreviation s64 := (swrap 64).

Definition in_u (w x : Z) : Prop := 0 <= x < 2 ^ w.
Definition in_s (w x : Z) : Prop := - 2 ^ (w - 1) <= x < 2 ^ (w - 1).

Definition byte_ok (b : Z) : Prop := 0 <= b < 256.

(** ** Results of fallible code *)

Inductive err : Type :=
| Fault                    (* an access outside a live block, or a null pointer *)
| Thrown (msg : string)    (* a C++ exception *)
| Aborted                  (* abort() *)
| OutOfFuel.               (* the bound on a loop of the model was reached *)

Inductive res (A : Type) : Type :=
| Ok (a : A)
| Err (e : err).
Arguments Ok {A} _.
Arguments Err {A} _.

#[export] Instance err_eq_dec : EqDecision err.
Proof. solve_decision. Defined.

Definition of_option {A} (o : option A) : res A :=
  match o with Some a => Ok a | None => Err Fault end.

(** State and errors: a computation over the store [W]. *)
Definition M (W A : Type) : Type := W -> res (A * W).

#[export] Instance M_ret W : MRet (M W) := fun A a w => Ok (a, w).
#[export] Instance M_bind W : MBind (M W) := fun A B f m w =>
  match m w with
  | Ok (a, w') => f a w'
  | Err e => Err e
  end.

Definition get_st {W} : M W W := fun w => Ok (w, w).
Definition put_st {W} (w : W) : M W unit := fun _ => Ok (tt, w).
Definition gets {W A} (f : W -> A) : M W A := fun w => Ok (f w, w).
Definition modify {W} (f : W -> W) : M W unit := fun w => Ok (tt, f w).
Definition fail_with {W A} (e : err) : M W A := fun _ => Err e.
Definition lift_opt {W A} (o : option A) : M W A := fun w =>
  match o with Some a => Ok (a, w) | None => Err Fault end.

(** ** Tactics *)

(** Case analysis on the scrutinee of a [match] in the goal or in a hypothesis. *)
Ltac destr_match :=
  match goal with
  | |- context [match ?x with _ => _ end] => destruct x eqn:?
  | H : context [match ?x with _ => _ end] |- _ => destruct x eqn:?
  end.

Ltac zbool :=
  repeat match goal with
  | H : (_ && _)%bool = true |- _ => apply andb_true_iff in H; destruct H
  | H : (_ && _)%bool = false |- _ => apply andb_false_iff in H
  | H : (_ || _)%bool = false |- _ => apply orb_false_iff in H; destruct H
  | H : (_ || _)%bool = true |- _ => apply orb_true_iff in H
  | H : negb _ = true |- _ => apply negb_true_iff in H
  | H : negb _ = false |- _ => apply negb_false_iff in H
  | H : (_ =? _) = true |- _ => apply Z.eqb_eq in H
  | H : (_ =? _) = false |- _ => apply Z.eqb_neq in H
  | H : (_ <? _) = true |- _ => apply Z.ltb_lt in H
  | H : (_ <? _) = false |- _ => apply Z.ltb_ge in H
  | H : (_ <=? _) = true |- _ => apply Z.leb_le in H
  | H : (_ <=? _) = false |- _ => apply Z.leb_gt in H
  end.

(** Unfold the monadic plumbing of a computation applied to a store. *)
Ltac unfold_M :=
  unfold mbind, mret, M_bind, M_ret, get_st, put_st, gets, modify, fail_with,
    lift_opt in *; cbn beta iota in *.

(** Replace the boolean test of the goal by the value the context decides. *)
Ltac zdecide :=
  repeat match goal with
  | |- context [?a =? ?b] =>
      first [ replace (a =? b) with true by (symmetry; apply Z.eqb_eq; lia)
            | replace (a =? b) with false by (symmetry; apply Z.eqb_neq; lia) ]
  | |- context [?a <? ?b] =>
      first [ replace (a <? b) with true by (symmetry; apply Z.ltb_lt; lia)
            | replace (a <? b) with false by (symmetry; apply Z.ltb_ge; lia) ]
  | |- context [?a <=? ?b] =>
      first [ replace (a <=? b) with true by (symmetry; apply Z.leb_le; lia)
            | replace (a <=? b) with false by (symmetry; apply Z.leb_gt; lia) ]
  end.

(** ** Machine integers: lemmas *)

Create HintDb wasp.

Lemma uwrap_small w x : in_u w x -> uwrap w x = x.
Proof. intros H. apply Z.mod_small. exact H. Qed.

Lemma uwrap_range w x : 0 <= w -> in_u w (uwrap w x).
Proof. intros H. apply Z.mod_pos_bound. lia. Qed.

Lemma uwrap_idemp w x : uwrap w (uwrap w x) = uwrap w x.
Proof. apply Zmod_mod. Qed.

Lemma uwrap_add_l w x y : uwrap w (uwrap w x + y) = uwrap w (x + y).
Proof. apply Zplus_mod_idemp_l. Qed.

Lemma uwrap_add_r w x y : uwrap w (x + uwrap w y) = uwrap w (x + y).
Proof. apply Zplus_mod_idemp_r. Qed.

Lemma pow_pred_double w : 0 < w -> 2 ^ w = 2 * 2 ^ (w - 1).
Proof. intros H. rewrite <- Z.pow_succ_r by lia. f_equal. lia. Qed.

Lemma swrap_range w x : 0 < w -> in_s w (swrap w x).
Proof.
  intros H. unfold in_s, swrap. pose proof (pow_pred_double w H).
  pose proof (Z.mod_pos_bound (x + 2 ^ (w - 1)) (2 ^ w) ltac:(lia)). lia.
Qed.

Lemma swrap_small w x : 0 < w -> in_s w x -> swrap w x = x.
Proof.
  unfold in_s, swrap. intros Hw H. pose proof (pow_pred_double w Hw).
  rewrite Z.mod_small; lia.
Qed.

Lemma uwrap_swrap w x : 0 < w -> uwrap w (swrap w x) = uwrap w x.
Proof.
  intros Hw. unfold uwrap, swrap.
  rewrite Zminus_mod_idemp_l. f_equal. lia.
Qed.

Lemma swrap_uwrap w x : 0 < w -> swrap w (uwrap w x) = swrap w x.
Proof. intros Hw. unfold uwrap, swrap. by rewrite Zplus_mod_idemp_l. Qed.

#[export] Hint Resolve uwrap_range swrap_range : wasp.

(** ** Byte buffers

    A live block of host memory is the list of its bytes.  Reading or writing
    a range succeeds exactly when the range lies inside the block. *)

Definition blen {A} (l : list A) : Z := Z.of_nat (length l).

Definition in_block {A} (off len : Z) (l : list A) : bool :=
  (0 <=? off) && (0 <=? len) && (off + len <=? blen l).

Definition slice {A} (off len : Z) (l : list A) : option (list A) :=
  if in_block off len l
  then Some (take (Z.to_nat len) (drop (Z.to_nat off) l))
  else None.

Definition splice {A} (off : Z) (bs l : list A) : option (list A) :=
  if in_block off (blen bs) l
  then Some (take (Z.to_nat off) l ++ bs ++ drop (Z.to_nat off + length bs) l)
  else None.

Lemma blen_nonneg {A} (l : list A) : 0 <= blen l.
Proof. unfold blen. lia. Qed.

Lemma in_block_iff {A} off len (l : list A) :
  in_block off len l = true <-> 0 <= off /\ 0 <= len /\ off + len <= blen l.
Proof. unfold in_block. rewrite !andb_true_iff, !Z.leb_le. tauto. Qed.

Lemma slice_Some {A} off len (l bs : list A) :
  slice off len l = Some bs <->
  (0 <= off /\ 0 <= len /\ off + len <= blen l) /\
  bs = take (Z.to_nat len) (drop (Z.to_nat off) l).
Proof.
  unfold slice. destruct (in_block off len l) eqn:E.
  - apply in_block_iff in E. intuition congruence.
  - split; [done|]. intros [H _]. apply in_block_iff in H. congruence.
Qed.

Lemma splice_Some {A} off (bs l l' : list A) :
  splice off bs l = Some l' <->
  (0 <= off /\ off + blen bs <= blen l) /\
  l' = take (Z.to_nat off) l ++ bs ++ drop (Z.to_nat off + length bs) l.
Proof.
  unfold splice. destruct (in_block off (blen bs) l) eqn:E.
  - apply in_block_iff in E. intuition congruence.
  - split; [done|]. intros [H _]. pose proof (blen_nonneg bs).
    assert (in_block off (blen bs) l = true) by (apply in_block_iff; lia). congruence.
Qed.

Lemma slice_is_Some {A} off len (l : list A) :
  0 <= off -> 0 <= len -> off + len <= blen l ->
  slice off len l = Some (take (Z.to_nat len) (drop (Z.to_nat off) l)).
Proof. intros. apply slice_Some. auto. Qed.

Lemma splice_is_Some {A} off (bs l : list A) :
  0 <= off -> off + blen bs <= blen l ->
  splice off bs l = Some (take (Z.to_nat off) l ++ bs ++ drop (Z.to_nat off + length bs) l).
Proof. intros. apply splice_Some. auto. Qed.

Lemma slice_length {A} off len (l bs : list A) :
  slice off len l = Some bs -> blen bs = len.
Proof.
  intros [H ->]%slice_Some. unfold blen in *.
  rewrite length_take, length_drop. lia.
Qed.

Lemma splice_length {A} off (bs l l' : list A) :
  splice off bs l = Some l' -> blen l' = blen l.
Proof.
  intros [H ->]%splice_Some. unfold blen in *.
  rewrite !length_app, length_take, length_drop. lia.
Qed.

(** What a byte of the block is after a range was overwritten. *)
Lemma splice_lookup {A} off (bs l l' : list A) (i : nat) :
  splice off bs l = Some l' ->
  l' !! i = if decide (off <= Z.of_nat i < off + blen bs)
            then bs !! (i - Z.to_nat off)%nat else l !! i.
Proof.
  intros [H ->]%splice_Some. unfold blen in *.
  case_decide as Hd.
  - rewrite lookup_app_r by (rewrite length_take; lia).
    rewrite length_take, lookup_app_l by lia. f_equal. lia.
  - destruct (decide (Z.of_nat i < off)).
    + rewrite lookup_app_l by (rewrite length_take; lia).
      by rewrite lookup_take_lt by lia.
    + rewrite lookup_app_r by (rewrite length_take; lia).
      rewrite lookup_app_r by (rewrite length_take; lia).
      rewrite lookup_drop, length_take. f_equal. lia.
Qed.

Lemma slice_lookup {A} off len (l bs : list A) (i : nat) :
  slice off len l = Some bs -> Z.of_nat i < len ->
  bs !! i = l !! (Z.to_nat off + i)%nat.
Proof.
  intros [H ->]%slice_Some Hi. rewrite lookup_take_lt by lia.
  by rewrite lookup_drop.
Qed.

Lemma slice_splice_same {A} off (bs l l' : list A) :
  splice off bs l = Some l' -> slice off (blen bs) l' = Some bs.
Proof.
  intros Hs. pose proof (splice_length _ _ _ _ Hs) as Hl.
  pose proof Hs as [Hb ->]%splice_Some.
  rewrite slice_is_Some by (try apply blen_nonneg; lia). f_equal. unfold blen in *.
  rewrite drop_app_ge by (rewrite length_take; lia).
  rewrite length_take. replace (_ - _)%nat with 0%nat by lia.
  rewrite drop_0, take_app_le by lia. by rewrite take_ge by lia.
Qed.

(** Two ranges that do not overlap. *)
Definition disjoint_ranges (o1 n1 o2 n2 : Z) : Prop := o1 + n1 <= o2 \/ o2 + n2 <= o1.

Lemma slice_splice_disjoint {A} off (bs l l' : list A) o n :
  splice off bs l = Some l' -> disjoint_ranges off (blen bs) o n ->
  slice o n l' = slice o n l.
Proof.
  intros Hs Hd. unfold slice, in_block. rewrite (splice_length _ _ _ _ Hs).
  destr_match; [|done]. zbool. f_equal. apply list_eq. intros i.
  destruct (decide (Z.of_nat i < n)).
  - rewrite !lookup_take_lt, !lookup_drop by lia.
    rewrite (splice_lookup _ _ _ _ _ Hs). case_decide; [|done].
    unfold disjoint_ranges in Hd. lia.
  - rewrite !lookup_take_ge by lia. done.
Qed.

(** Overwriting a range with what it already holds changes nothing. *)
Lemma splice_slice_id {A} off len (l bs : list A) :
  slice off len l = Some bs -> splice off bs l = Some l.
Proof.
  intros Hs. pose proof (slice_length _ _ _ _ Hs) as Hl.
  pose proof Hs as [Hb _]%slice_Some.
  destruct (splice off bs l) as [l'|] eqn:E.
  - f_equal. apply list_eq. intros i. rewrite (splice_lookup _ _ _ _ _ E).
    case_decide; [|done]. rewrite (slice_lookup _ _ _ _ _ Hs) by lia. f_equal. lia.
  - rewrite splice_is_Some in E; [done|lia|lia].
Qed.
