(* ===== verification/Kvm.v ===== *)
(** The host that Wasp runs on, as its sources see it: the register file of a
    virtual CPU (kvm_regs of linux/kvm.h), the CPUID entries, and the system
    calls and ioctls the hypervisor issues.  The kernel is not part of the
    repository, so it is the class [Host], with what Wasp relies on as the laws
    of [HostLaws]; every definition of the hypervisor takes it as an argument. *)

From S2P Require Import Prelude.

(** ** Data of the KVM interface *)

(** struct kvm_regs, used in the sources as [wasp::VirtineRegisters]. *)
Record kvm_regs : Type := Regs {
  rax : Z; rbx : Z; rcx : Z; rdx : Z;
  rsi : Z; rdi : Z; rsp : Z; rbp : Z;
  r8 : Z; r9 : Z; r10 : Z; r11 : Z;
  r12 : Z; r13 : Z; r14 : Z; r15 : Z;
  rip : Z; rflags : Z
}.

#[export] Instance kvm_regs_eq_dec : EqDecision kvm_regs.
Proof. solve_decision. Defined.

Definition zero_regs : kvm_regs := Regs 0 0 0 0 0 0 0 0 0 0 0 0 0 0 0 0 0 0.

Definition set_rax (v : Z) (r : kvm_regs) : kvm_regs :=
  Regs v (rbx r) (rcx r) (rdx r) (rsi r) (rdi r) (rsp r) (rbp r) (r8 r) (r9 r)
    (r10 r) (r11 r) (r12 r) (r13 r) (r14 r) (r15 r) (rip r) (rflags r).
Definition set_rip (v : Z) (r : kvm_regs) : kvm_regs :=
  Regs (rax r) (rbx r) (rcx r) (rdx r) (rsi r) (rdi r) (rsp r) (rbp r) (r8 r) (r9 r)
    (r10 r) (r11 r) (r12 r) (r13 r) (r14 r) (r15 r) v (rflags r).
Definition set_rsp (v : Z) (r : kvm_regs) : kvm_regs :=
  Regs (rax r) (rbx r) (rcx r) (rdx r) (rsi r) (rdi r) v (rbp r) (r8 r) (r9 r)
    (r10 r) (r11 r) (r12 r) (r13 r) (r14 r) (r15 r) (rip r) (rflags r).
Definition set_rflags (v : Z) (r : kvm_regs) : kvm_regs :=
  Regs (rax r) (rbx r) (rcx r) (rdx r) (rsi r) (rdi r) (rsp r) (rbp r) (r8 r) (r9 r)
    (r10 r) (r11 r) (r12 r) (r13 r) (r14 r) (r15 r) (rip r) v.

(** struct kvm_cpuid_entry2 *)
Record cpuid_entry : Type := CpuidEntry {
  ce_function : Z; ce_index : Z; ce_flags : Z;
  ce_eax : Z; ce_ebx : Z; ce_ecx : Z; ce_edx : Z
}.

(** What one KVM_RUN leaves behind: the ioctl's result, errno, and the
    exit_reason and io.port fields of the shared kvm_run page. *)
Record run_result : Type := RunResult {
  rr_err : Z; rr_errno : Z; rr_exit : Z; rr_port : Z
}.

Definition KVM_EXIT_UNKNOWN : Z := 0.
Definition KVM_EXIT_IO : Z := 2.
Definition KVM_EXIT_HLT : Z := 5.
Definition KVM_EXIT_MMIO : Z := 6.
Definition KVM_EXIT_SHUTDOWN : Z := 8.
Definition KVM_EXIT_FAIL_ENTRY : Z := 9.
Definition KVM_EXIT_INTR : Z := 10.
Definition KVM_EXIT_INTERNAL_ERROR : Z := 17.
Definition EPERM : Z := 1.
Definition EINTR : Z := 4.
Definition EAGAIN : Z := 11.
Definition ENOMEM : Z := 12.
Definition ENOSYS : Z := 38.

(** Host memory: live blocks (from mmap or malloc) named by a block id. *)
Abbreviation heap := (gmap Z (list Z)).

Inductive ptr : Type :=
| NULL
| Ptr (b : Z) (off : Z).

#[export] Instance ptr_eq_dec : EqDecision ptr.
Proof. solve_decision. Defined.

(** ** The kernel as an interface *)

Class Host : Type := {
  kst : Type;                                  (* the kernel's own state *)
  sregs : Type;                                (* struct kvm_sregs *)
  fpu : Type;                                  (* struct kvm_fpu *)
  set_cs_base : Z -> sregs -> sregs;           (* sregs.cs.base = v *)

  k_open_kvm : kst -> Z * kst;                 (* open("/dev/kvm", O_RDWR) *)
  k_api_version : kst -> Z -> Z;               (* KVM_GET_API_VERSION *)
  k_check_user_memory : kst -> Z -> Z;         (* KVM_CHECK_EXTENSION *)
  k_create_vm : kst -> Z -> Z * kst;           (* KVM_CREATE_VM *)
  k_create_vcpu : kst -> Z -> Z * kst;         (* KVM_CREATE_VCPU *)
  k_supported_cpuid : kst -> Z -> Z -> option (list cpuid_entry);
  k_set_cpuid2 : kst -> Z -> list cpuid_entry -> Z * kst;
  k_close : kst -> Z -> kst;

  (* the register file of an open VCPU, read and written group by group *)
  k_cpu : kst -> Z -> option (kvm_regs * sregs * fpu);
  k_set_regs : kst -> Z -> kvm_regs -> kst;    (* KVM_SET_REGS *)
  k_set_sregs : kst -> Z -> sregs -> kst;      (* KVM_SET_SREGS *)
  k_set_fpu : kst -> Z -> fpu -> kst;          (* KVM_SET_FPU *)

  k_set_memory : kst -> Z -> Z -> ptr -> kst;  (* KVM_SET_USER_MEMORY_REGION, slot 0 *)
  k_vm_of : kst -> Z -> option Z;              (* the VM a VCPU belongs to *)
  k_map : kst -> Z -> option Z;                (* the block mapped into a VM *)
  k_run : kst -> Z -> heap -> run_result * kst * heap; (* KVM_RUN *)

  k_mmap_ok : kst -> Z -> bool;                (* does an anonymous mmap succeed *)
  k_file : kst -> string -> option (list Z);   (* a readable file's contents *)
  cpuid0 : Z * Z * Z                           (* ebx, ecx, edx of cpuid leaf 0 *)
}.

(** The block a VCPU executes in. *)
Definition k_ram `{Host} (k : kst) (fd : Z) : option Z :=
  match k_vm_of k fd with Some vm => k_map k vm | None => None end.

Definition same_cpus `{Host} (k k' : kst) : Prop := forall fd, k_cpu k' fd = k_cpu k fd.
Definition same_vms `{Host} (k k' : kst) : Prop :=
  (forall fd, k_vm_of k' fd = k_vm_of k fd) /\ (forall vm, k_map k' vm = k_map k vm).

(** What the hypervisor relies on: setting one register group of a VCPU sets
    exactly that; descriptors handed out are new; mapping memory concerns one VM;
    and running a VCPU touches its own registers and its own memory block only. *)
Class HostLaws `{H : Host} : Prop := {
  law_set_regs : forall k fd r fd',
    k_cpu (k_set_regs k fd r) fd' =
    if decide (fd' = fd)
    then match k_cpu k fd with Some (_, s, f) => Some (r, s, f) | None => None end
    else k_cpu k fd';
  law_set_sregs : forall k fd s fd',
    k_cpu (k_set_sregs k fd s) fd' =
    if decide (fd' = fd)
    then match k_cpu k fd with Some (r, _, f) => Some (r, s, f) | None => None end
    else k_cpu k fd';
  law_set_fpu : forall k fd f fd',
    k_cpu (k_set_fpu k fd f) fd' =
    if decide (fd' = fd)
    then match k_cpu k fd with Some (r, s, _) => Some (r, s, f) | None => None end
    else k_cpu k fd';
  law_set_regs_vms : forall k fd r, same_vms k (k_set_regs k fd r);
  law_set_sregs_vms : forall k fd s, same_vms k (k_set_sregs k fd s);
  law_set_fpu_vms : forall k fd f, same_vms k (k_set_fpu k fd f);
  law_set_cpuid2 : forall k fd l,
    same_cpus k (k_set_cpuid2 k fd l).2 /\ same_vms k (k_set_cpuid2 k fd l).2;
  law_open_kvm : forall k, same_cpus k (k_open_kvm k).2 /\ same_vms k (k_open_kvm k).2;
  law_create_vm : forall k fd,
    same_cpus k (k_create_vm k fd).2 /\ same_vms k (k_create_vm k fd).2 /\
    (0 <= (k_create_vm k fd).1 -> forall fd', k_vm_of k fd' <> Some (k_create_vm k fd).1);
  law_create_vcpu : forall k vm fd', fd' <> (k_create_vcpu k vm).1 ->
    k_cpu (k_create_vcpu k vm).2 fd' = k_cpu k fd' /\
    k_vm_of (k_create_vcpu k vm).2 fd' = k_vm_of k fd';
  law_create_vcpu_map : forall k vm vm', k_map (k_create_vcpu k vm).2 vm' = k_map k vm';
  law_create_vcpu_new : forall k vm, 0 <= (k_create_vcpu k vm).1 ->
    0 <= vm /\ k_cpu k (k_create_vcpu k vm).1 = None /\
    is_Some (k_cpu (k_create_vcpu k vm).2 (k_create_vcpu k vm).1) /\
    k_vm_of (k_create_vcpu k vm).2 (k_create_vcpu k vm).1 = Some vm;
  law_cpu_fd : forall k fd, fd < 0 -> k_cpu k fd = None;
  law_set_memory : forall k vm sz b off,
    same_cpus k (k_set_memory k vm sz (Ptr b off)) /\
    (forall fd, k_vm_of (k_set_memory k vm sz (Ptr b off)) fd = k_vm_of k fd) /\
    (forall vm', k_map (k_set_memory k vm sz (Ptr b off)) vm' =
                 if decide (vm' = vm) then Some b else k_map k vm');
  law_run_cpu : forall k fd h rr k' h', k_run k fd h = (rr, k', h') ->
    same_vms k k' /\
    (forall fd', fd' <> fd -> k_cpu k' fd' = k_cpu k fd') /\
    (is_Some (k_cpu k fd) -> is_Some (k_cpu k' fd));
  law_run_heap : forall k fd h rr k' h', k_run k fd h = (rr, k', h') ->
    (forall b, k_ram k fd <> Some b -> h' !! b = h !! b) /\
    (forall b l, h !! b = Some l -> exists l', h' !! b = Some l' /\ length l' = length l)
}.
