(* ===== verification/ScriptHost.v ===== *)
(** A concrete host: a kernel whose guests follow a script.  Each entry of the
    script says how one KVM_RUN ends and what the guest did before it (to its
    registers and to its memory).  It satisfies [HostLaws], so the theorems that
    assume them are about something, and it is the host the examples run on. *)

From S2P Require Import Prelude Kvm.

Record guest_step : Type := GuestStep {
  gs_result : run_result;
  gs_regs : kvm_regs -> kvm_regs;
  gs_write : Z * list Z              (* address and bytes the guest stored *)
}.

Record script_kernel : Type := ScriptKernel {
  sk_next : Z;                                (* next descriptor *)
  sk_cpus : gmap Z (kvm_regs * Z * Z);
  sk_vm_of : gmap Z Z;                        (* VCPU descriptor to VM descriptor *)
  sk_map : gmap Z Z;                          (* VM descriptor to memory block *)
  sk_script : list guest_step
}.

Definition sk_ram (k : script_kernel) (fd : Z) : option Z :=
  match sk_vm_of k !! fd with Some vm => sk_map k !! vm | None => None end.

Definition sk_update (f : kvm_regs * Z * Z -> kvm_regs * Z * Z) (k : script_kernel) (fd : Z)
  : script_kernel :=
  ScriptKernel (sk_next k) (alter f fd (sk_cpus k)) (sk_vm_of k) (sk_map k) (sk_script k).

Definition guest_store (wr : Z * list Z) (ram : list Z) : list Z :=
  match splice wr.1 wr.2 ram with Some ram' => ram' | None => ram end.

Definition sk_run (k : script_kernel) (fd : Z) (h : heap) : run_result * script_kernel * heap :=
  match sk_script k with
  | [] => (RunResult 0 0 KVM_EXIT_IO 0xFA, k, h)
  | st :: rest =>
      (gs_result st,
       ScriptKernel (sk_next k) (alter (fun '(r, s, f) => (gs_regs st r, s, f)) fd (sk_cpus k))
         (sk_vm_of k) (sk_map k) rest,
       match sk_ram k fd with
       | Some b => alter (guest_store (gs_write st)) b h
       | None => h
       end)
  end.

Definition sk_create_vcpu (k : script_kernel) (vm : Z) : Z * script_kernel :=
  if sk_next k <? 0 then (-1, k) else
  match sk_cpus k !! sk_next k with
  | Some _ => (-1, k)
  | None => if vm <? 0 then (-1, k) else
            (sk_next k,
             ScriptKernel (sk_next k + 1) (<[sk_next k := (zero_regs, 7, 8)]> (sk_cpus k))
               (<[sk_next k := vm]> (sk_vm_of k)) (sk_map k) (sk_script k))
  end.

Definition sk_cpu (k : script_kernel) (fd : Z) : option (kvm_regs * Z * Z) :=
  if fd <? 0 then None else sk_cpus k !! fd.

(** A VM descriptor no VCPU already refers to. *)
Definition sk_create_vm (k : script_kernel) : Z * script_kernel :=
  if decide (map_Forall (fun _ vm => vm <> sk_next k) (sk_vm_of k))
  then (sk_next k, ScriptKernel (sk_next k + 1) (sk_cpus k) (sk_vm_of k) (sk_map k) (sk_script k))
  else (-1, k).

#[export] Instance script_host : Host := {|
  kst := script_kernel;
  sregs := Z;
  fpu := Z;
  set_cs_base := fun v s => s + v;
  k_open_kvm := fun k => (3, k);
  k_api_version := fun _ _ => 12;
  k_check_user_memory := fun _ _ => 1;
  k_create_vm := fun k _ => sk_create_vm k;
  k_create_vcpu := sk_create_vcpu;
  k_supported_cpuid := fun _ _ _ => Some [CpuidEntry 0 0 0 1 2 3 4];
  k_set_cpuid2 := fun k _ _ => (0, k);
  k_close := fun k fd => ScriptKernel (sk_next k) (delete fd (sk_cpus k)) (sk_vm_of k)
                           (sk_map k) (sk_script k);
  k_cpu := sk_cpu;
  k_set_regs := fun k fd r => sk_update (fun '(_, s, f) => (r, s, f)) k fd;
  k_set_sregs := fun k fd s => sk_update (fun '(r, _, f) => (r, s, f)) k fd;
  k_set_fpu := fun k fd f => sk_update (fun '(r, s, _) => (r, s, f)) k fd;
  k_set_memory := fun k vm _ p =>
    match p with
    | Ptr b _ => ScriptKernel (sk_next k) (sk_cpus k) (sk_vm_of k) (<[vm := b]> (sk_map k))
                   (sk_script k)
    | NULL => k
    end;
  k_vm_of := fun k fd => sk_vm_of k !! fd;
  k_map := fun k vm => sk_map k !! vm;
  k_run := sk_run;
  k_mmap_ok := fun _ sz => sz <=? 2 ^ 20;
  k_file := fun _ path => if String.eqb path "virtine.bin" then Some [0xE6; 0xFA] else None;
  cpuid0 := (0x756e6547, 0x6c65746e, 0x49656e69)
|}.

Lemma lookup_alter_if {A} (f : A -> A) (m : gmap Z A) i j :
  alter f i m !! j = if decide (j = i) then f <$> m !! i else m !! j.
Proof.
  case_decide as E; [subst; by rewrite lookup_alter_eq|by rewrite lookup_alter_ne].
Qed.

Lemma guest_store_length wr ram : length (guest_store wr ram) = length ram.
Proof.
  unfold guest_store. destr_match; [|done].
  apply splice_length in Heqo. unfold blen in Heqo. lia.
Qed.

Lemma sk_update_cpu f k fd fd' :
  sk_cpu (sk_update f k fd) fd' =
  if decide (fd' = fd) then f <$> sk_cpu k fd else sk_cpu k fd'.
Proof.
  unfold sk_cpu, sk_update. cbn. rewrite lookup_alter_if.
  case_decide as E; [subst|]; by destruct (_ <? 0).
Qed.

#[export] Instance script_laws : HostLaws.
Proof.
  split.
  1-3: intros k fd x fd'; cbn; rewrite sk_update_cpu; case_decide; [|done];
       by destruct (sk_cpu k fd) as [[[??]?]|].
  1-4: done.
  1: done.
  - intros k fd. cbn. unfold sk_create_vm. case_decide as E; cbn; [|split; [done|split; [done|lia]]].
    split; [done|]. split; [done|]. intros _ fd' Hfd. by specialize (E _ _ Hfd).
  - intros k vm fd'. cbn. unfold sk_create_vcpu, sk_cpu.
    destruct (sk_next k <? 0); [done|]. destruct (sk_cpus k !! sk_next k) eqn:E; [done|].
    destruct (vm <? 0); [done|]. cbn. intros Hne. by rewrite !lookup_insert_ne.
  - intros k vm vm'. cbn. unfold sk_create_vcpu. by repeat destr_match.
  - intros k vm Hge. cbn in *. unfold sk_create_vcpu, sk_cpu in *.
    destruct (Z.ltb_spec (sk_next k) 0) as [|Hn]; [cbn in Hge; lia|].
    destruct (sk_cpus k !! sk_next k) eqn:E; [cbn in Hge; lia|].
    destruct (Z.ltb_spec vm 0) as [|Hv]; [cbn in Hge; lia|]. cbn. zdecide.
    rewrite !lookup_insert_eq. by eauto.
  - intros k fd Hfd. cbn. unfold sk_cpu. by zdecide.
  - intros k vm sz b off. split; [done|]. split; [done|]. intros vm'. cbn.
    case_decide as E; [subst; apply lookup_insert_eq|by rewrite lookup_insert_ne].
  - intros k fd h rr k' h'. cbn. unfold sk_run. destruct (sk_script k) as [|st rest];
      intros Hr; simplify_eq; [done|].
    split; [done|]. unfold sk_cpu; cbn. split.
    + intros fd' Hne. destruct (fd' <? 0); [done|]. rewrite lookup_alter_if. by case_decide.
    + destruct (fd <? 0); [by intros []|]. intros [c Hc]. rewrite lookup_alter_eq, Hc. by eexists.
  - intros k fd h rr k' h' Hr. cbn in Hr. unfold sk_run in Hr.
    change (k_ram k fd) with (sk_ram k fd). destruct (sk_script k) as [|st rest]; simplify_eq.
    + split; [done|eauto].
    + destruct (sk_ram k fd) as [b'|]; [|split; [done|eauto]]. split.
      * intros b Hb. rewrite lookup_alter_ne by congruence. done.
      * intros b l Hl. rewrite lookup_alter_if. case_decide as E; [|eauto].
        subst b'. rewrite Hl. eexists. split; [done|]. apply guest_store_length.
Qed.

(** The kernel right after boot, with a script for its guests. *)
Definition booted (script : list guest_step) : script_kernel :=
  ScriptKernel 4 ∅ ∅ ∅ script.
