(* ===== verification/Cpuid.v ===== *)
(** The CPUID filter of src/Virtine.cpp: which of the host's CPUID leaves the
    guest sees, and with which bits changed. *)

From S2P Require Import Prelude Kvm.

(** ** Operations *)

(** The fields of union cpuid10_eax that the code reads. *)
Definition version_id (eax : Z) : Z := Z.land eax 0xFF.
Definition num_counters (eax : Z) : Z := Z.land (Z.shiftr eax 8) 0xFF.

(** [~(1 << 3)] converted to the 32-bit field it masks. *)
Definition not_epb : Z := u32 (Z.lnot (Z.shiftl 1 3)).

(** host_cpuid on leaf 0, its int results stored into the unsigned fields. *)
Definition host_cpuid (vendor : Z * Z * Z) : Z * Z * Z :=
  let '(b, c, d) := vendor in (u32 b, u32 c, u32 d).

(** One iteration of the loop of filter_cpuid. *)
Definition filter_entry (vendor : Z * Z * Z) (e : cpuid_entry) : cpuid_entry :=
  let 'CpuidEntry f i fl a b c d := e in
  if f =? 0 then
    let '(b', c', d') := host_cpuid vendor in CpuidEntry f i fl a b' c' d'
  else if f =? 1 then
    let c1 := if i =? 0 then Z.lor c (Z.shiftl 1 31) else c in
    let c2 := if i =? 0 then Z.lor c1 (Z.shiftl 1 24) else c1 in
    CpuidEntry f i fl a b c2 d
  else if f =? 6 then CpuidEntry f i fl a b (Z.land c not_epb) d
  else if f =? 10 then
    let a' := if negb (a =? 0)
              then (if negb (version_id a =? 2) || (num_counters a =? 0) then 0 else a)
              else a in
    CpuidEntry f i fl a' b c d
  else e.

Definition filter_cpuid (vendor : Z * Z * Z) (entries : list cpuid_entry)
  : list cpuid_entry := map (filter_entry vendor) entries.

(** ** What the filter promises, leaf by leaf *)

Definition entry_ok (e : cpuid_entry) : Prop :=
  in_u 32 (ce_eax e) /\ in_u 32 (ce_ebx e) /\ in_u 32 (ce_ecx e) /\ in_u 32 (ce_edx e).

(** The guest's view of a leaf, bit by bit. *)
Definition guest_view (vendor : Z * Z * Z) (e e' : cpuid_entry) : Prop :=
  ce_function e' = ce_function e /\ ce_index e' = ce_index e /\ ce_flags e' = ce_flags e /\
  (* ebx and edx change on the vendor leaf only, eax on the PMU leaf only *)
  (ce_function e <> 0 -> ce_ebx e' = ce_ebx e /\ ce_edx e' = ce_edx e) /\
  (ce_function e <> 10 -> ce_eax e' = ce_eax e) /\
  (ce_function e = 0 -> (ce_ebx e', ce_ecx e', ce_edx e') = host_cpuid vendor) /\
  (ce_function e = 1 -> forall n, 0 <= n ->
     Z.testbit (ce_ecx e') n =
       ((ce_index e =? 0) && ((n =? 31) || (n =? 24)) || Z.testbit (ce_ecx e) n)%bool) /\
  (ce_function e = 6 -> forall n, 0 <= n < 32 ->
     Z.testbit (ce_ecx e') n = (negb (n =? 3) && Z.testbit (ce_ecx e) n)%bool) /\
  (ce_function e = 10 ->
     ce_eax e' = if (version_id (ce_eax e) =? 2) && negb (num_counters (ce_eax e) =? 0)
                 then ce_eax e else 0) /\
  (ce_function e <> 0 -> ce_function e <> 1 -> ce_function e <> 6 -> ce_ecx e' = ce_ecx e).

Lemma not_epb_testbit n : 0 <= n < 32 -> Z.testbit not_epb n = negb (n =? 3).
Proof.
  intros H. unfold not_epb, uwrap.
  rewrite Z.mod_pow2_bits_low, Z.lnot_spec, Z.shiftl_spec by lia. f_equal.
  destruct (Z.eqb_spec n 3) as [->|Hn]; [done|].
  destruct (Z.testbit 1 (n - 3)) eqn:E; [|done].
  destruct (decide (n - 3 < 0)); [rewrite Z.testbit_neg_r in E by lia; done|].
  rewrite (Z.bits_above_log2 1) in E by (cbn; lia). done.
Qed.

Lemma testbit_one_shift k n : 0 <= k -> 0 <= n -> Z.testbit (Z.shiftl 1 k) n = (n =? k).
Proof.
  intros Hk Hn. rewrite Z.shiftl_1_l. destruct (Z.eqb_spec n k) as [->|Hne].
  - by apply Z.pow2_bits_true.
  - by apply Z.pow2_bits_false.
Qed.

Lemma filter_entry_view vendor e : entry_ok e -> guest_view vendor e (filter_entry vendor e).
Proof.
  intros (Ha & _ & _ & _). destruct e as [f i fl a b c d]; cbn in Ha.
  unfold filter_entry. destruct (host_cpuid vendor) as [[vb vc] vd] eqn:Hv.
  destruct (Z.eqb_spec f 0) as [->|H0];
    [|destruct (Z.eqb_spec f 1) as [->|H1];
      [|destruct (Z.eqb_spec f 6) as [->|H6];
        [|destruct (Z.eqb_spec f 10) as [->|H10]]]];
    unfold guest_view; cbn; rewrite ?Hv; repeat split; try done; try lia.
  - intros _ n Hn. destruct (i =? 0); [|done].
    rewrite !Z.lor_spec, !testbit_one_shift by lia.
    destruct (n =? 31), (n =? 24), (Z.testbit c n); done.
  - intros _ n Hn. rewrite Z.land_spec, not_epb_testbit by lia. apply andb_comm.
  - intros _. destruct (Z.eqb_spec a 0) as [->|Hna]; cbn; [done|].
    destruct (version_id a =? 2), (num_counters a =? 0); done.
Qed.

(** C18: filter_cpuid keeps the number and order of the CPUID leaves; each leaf
    the guest sees agrees with the host's except that leaf 0 carries the host
    vendor, leaf 1 (index 0) additionally advertises bits 31 (hypervisor) and 24
    (TSC deadline timer), leaf 6 has bit 3 (EPB) cleared, and the PMU leaf 10 is
    disabled (eax = 0) unless it reports version 2 with at least one counter. *)
Theorem filter_cpuid_view vendor entries :
  Forall entry_ok entries ->
  Forall2 (guest_view vendor) entries (filter_cpuid vendor entries).
Proof.
  intros H. unfold filter_cpuid. induction H as [|e es He _ IH]; constructor; [|done].
  by apply filter_entry_view.
Qed.

Lemma filter_cpuid_view_witness :
  Forall2 (guest_view (1, 2, -1)) [CpuidEntry 1 0 0 5 6 0 7; CpuidEntry 10 0 0 0x301 0 0 0]
    [CpuidEntry 1 0 0 5 6 0x81000000 7; CpuidEntry 10 0 0 0 0 0 0].
Proof.
  apply (filter_cpuid_view (1, 2, -1)
           [CpuidEntry 1 0 0 5 6 0 7; CpuidEntry 10 0 0 0x301 0 0 0]).
  repeat constructor; cbn; unfold in_u; lia.
Defined.
