(* ===== verification/Virtine.v ===== *)
(** The virtual machine object of include/wasp/Virtine.h and src/Virtine.cpp.

    A [world] is everything the hypervisor's C++ code can touch: the kernel, the
    host heap, the C++ objects (virtines and reset states, both reached through
    pointers and shared) and the output it prints.  Methods are computations of
    the monad [M world]; [this] is the name of the object in the world. *)

From S2P Require Import Prelude Kvm ScriptHost Cpuid.

(** ** Data *)

Inductive ExitReason : Type :=
| Unknown | Crashed | Interrupted | Halted | HyperCall | Exited.

#[export] Instance ExitReason_eq_dec : EqDecision ExitReason.
Proof. solve_decision. Defined.

Record ResetMemory : Type := MkResetMemory {
  rm_data : ptr;       (* data to load *)
  rm_address : Z;      (* where in the virtine to load this *)
  rm_size : Z          (* the size of the data *)
}.

Section Virtine.
Context `{Hst : Host}.

Record ResetState : Type := MkResetState {
  rs_regs : kvm_regs;
  rs_sregs : sregs;
  rs_fpu : fpu;
  rs_regions : list ResetMemory
}.

(** The fields of class Virtine.  [m_mem] is a block of the heap, [m_reset_mask]
    names a reset state of the world; the kvm_run page is read through
    [run_result], so [m_run] needs no field. *)
Record Virtine : Type := MkVirtine {
  m_mem : option Z;
  m_memsz : Z;
  m_kvmfd : Z;
  m_vmfd : Z;
  m_cpufd : Z;
  m_reset : option ResetState;      (* None: not yet written by the constructor *)
  m_reset_mask : option Z
}.

Record world : Type := World {
  w_k : kst;
  w_g_kvmfd : Z;
  w_heap : heap;
  w_next : Z;                       (* the next free block id *)
  w_virtines : gmap Z Virtine;
  w_nextv : Z;
  w_resets : gmap Z ResetState;
  w_nextr : Z;
  w_out : list string
}.

Definition with_k (k : kst) (w : world) : world :=
  World k (w_g_kvmfd w) (w_heap w) (w_next w) (w_virtines w) (w_nextv w)
    (w_resets w) (w_nextr w) (w_out w).
Definition with_g_kvmfd (fd : Z) (w : world) : world :=
  World (w_k w) fd (w_heap w) (w_next w) (w_virtines w) (w_nextv w)
    (w_resets w) (w_nextr w) (w_out w).
Definition with_heap (h : heap) (w : world) : world :=
  World (w_k w) (w_g_kvmfd w) h (w_next w) (w_virtines w) (w_nextv w)
    (w_resets w) (w_nextr w) (w_out w).
Definition with_virtines (v : gmap Z Virtine) (w : world) : world :=
  World (w_k w) (w_g_kvmfd w) (w_heap w) (w_next w) v (w_nextv w)
    (w_resets w) (w_nextr w) (w_out w).
Definition with_resets (r : gmap Z ResetState) (w : world) : world :=
  World (w_k w) (w_g_kvmfd w) (w_heap w) (w_next w) (w_virtines w) (w_nextv w)
    r (w_nextr w) (w_out w).
Definition with_out (o : list string) (w : world) : world :=
  World (w_k w) (w_g_kvmfd w) (w_heap w) (w_next w) (w_virtines w) (w_nextv w)
    (w_resets w) (w_nextr w) o.

Definition with_mem (mem : option Z) (memsz : Z) (v : Virtine) : Virtine :=
  MkVirtine mem memsz (m_kvmfd v) (m_vmfd v) (m_cpufd v) (m_reset v) (m_reset_mask v).
Definition with_reset (r : ResetState) (v : Virtine) : Virtine :=
  MkVirtine (m_mem v) (m_memsz v) (m_kvmfd v) (m_vmfd v) (m_cpufd v) (Some r) (m_reset_mask v).
Definition with_mask (m : option Z) (v : Virtine) : Virtine :=
  MkVirtine (m_mem v) (m_memsz v) (m_kvmfd v) (m_vmfd v) (m_cpufd v) (m_reset v) m.

(** ** Host memory *)

(** A fresh block holding [bytes] (malloc, mmap, new). *)
Definition alloc_block (bytes : list Z) : M world Z := fun w =>
  let b := w_next w in
  Ok (b, World (w_k w) (w_g_kvmfd w) (<[b := bytes]> (w_heap w)) (b + 1) (w_virtines w)
           (w_nextv w) (w_resets w) (w_nextr w) (w_out w)).

Definition free_block (b : Z) : M world unit :=
  modify (fun w => with_heap (delete b (w_heap w)) w).

(** Read and write [n] bytes at a pointer; a zero-length access touches nothing. *)
Definition read_bytes (p : ptr) (n : Z) : M world (list Z) := fun w =>
  if n =? 0 then Ok ([], w) else
  match p with
  | NULL => Err Fault
  | Ptr b off =>
      match w_heap w !! b with
      | Some l => match slice off n l with Some bs => Ok (bs, w) | None => Err Fault end
      | None => Err Fault
      end
  end.

Definition write_bytes (p : ptr) (bs : list Z) : M world unit := fun w =>
  if blen bs =? 0 then Ok (tt, w) else
  match p with
  | NULL => Err Fault
  | Ptr b off =>
      match w_heap w !! b with
      | Some l => match splice off bs l with
                  | Some l' => Ok (tt, with_heap (<[b := l']> (w_heap w)) w)
                  | None => Err Fault
                  end
      | None => Err Fault
      end
  end.

Definition memcpy (dst src : ptr) (n : Z) : M world unit :=
  bs ← read_bytes src n; write_bytes dst bs.

(** ** Objects *)

Definition get_virtine (this : Z) : M world Virtine := fun w =>
  match w_virtines w !! this with Some v => Ok (v, w) | None => Err Fault end.
Definition put_virtine (this : Z) (v : Virtine) : M world unit :=
  modify (fun w => with_virtines (<[this := v]> (w_virtines w)) w).

(** ** Registers *)

Definition cpu_of (this : Z) : M world (kvm_regs * sregs * fpu) := fun w =>
  match w_virtines w !! this with
  | Some v => match k_cpu (w_k w) (m_cpufd v) with
              | Some c => Ok (c, w)
              | None => Err Fault
              end
  | None => Err Fault
  end.

Definition read_regs (this : Z) : M world kvm_regs := c ← cpu_of this; mret (c.1.1).
Definition read_sregs (this : Z) : M world sregs := c ← cpu_of this; mret (c.1.2).
Definition read_fpu (this : Z) : M world fpu := c ← cpu_of this; mret (c.2).

Definition write_regs (this : Z) (r : kvm_regs) : M world unit :=
  v ← get_virtine this; modify (fun w => with_k (k_set_regs (w_k w) (m_cpufd v) r) w).
Definition write_sregs (this : Z) (s : sregs) : M world unit :=
  v ← get_virtine this; modify (fun w => with_k (k_set_sregs (w_k w) (m_cpufd v) s) w).
Definition write_fpu (this : Z) (f : fpu) : M world unit :=
  v ← get_virtine this; modify (fun w => with_k (k_set_fpu (w_k w) (m_cpufd v) f) w).

(** ** Guest addresses *)

(** [addr > m_memsz] compares an off_t with a size_t, hence unsigned. *)
Definition translate (v : Virtine) (addr : Z) : ptr :=
  if m_memsz v <? u64 addr then NULL
  else match m_mem v with
       | Some b => Ptr b addr
       | None => NULL
       end.

Definition validate_length (v : Virtine) (addr len : Z) : bool :=
  negb (m_memsz v <? u64 (addr + len)).

(** ** Reset state *)

(** rst(): the mask when there is one, the virtine's own state otherwise. *)
Definition get_rst (this : Z) : M world ResetState := fun w =>
  match w_virtines w !! this with
  | Some v =>
      match m_reset_mask v with
      | Some r => match w_resets w !! r with Some s => Ok (s, w) | None => Err Fault end
      | None => match m_reset v with Some s => Ok (s, w) | None => Err Fault end
      end
  | None => Err Fault
  end.

Definition put_rst (this : Z) (s : ResetState) : M world unit := fun w =>
  match w_virtines w !! this with
  | Some v =>
      match m_reset_mask v with
      | Some r => Ok (tt, with_resets (<[r := s]> (w_resets w)) w)
      | None => Ok (tt, with_virtines (<[this := with_reset s v]> (w_virtines w)) w)
      end
  | None => Err Fault
  end.

Definition set_reset_mask (this : Z) (mask : option Z) : M world unit :=
  v ← get_virtine this; put_virtine this (with_mask mask v).

(** save_reset_state(regions&&) *)
Definition save_reset_state_regions (this : Z) (regions : list ResetMemory) : M world unit :=
  r ← read_regs this;
  s ← read_sregs this;
  f ← read_fpu this;
  put_rst this (MkResetState r s f regions).

(** save_reset_state(void): the same, clearing the regions *)
Definition save_reset_state (this : Z) : M world unit :=
  r ← read_regs this;
  s ← read_sregs this;
  f ← read_fpu this;
  put_rst this (MkResetState r s f []).

Fixpoint copy_regions (v : Virtine) (rs : list ResetMemory) : M world unit :=
  match rs with
  | [] => mret tt
  | r :: rs =>
      memcpy (translate v (rm_address r)) (rm_data r) (rm_size r);;
      copy_regions v rs
  end.

Definition reset (this : Z) : M world bool :=
  s ← get_rst this;
  write_regs this (rs_regs s);;
  write_sregs this (rs_sregs s);;
  write_fpu this (rs_fpu s);;
  v ← get_virtine this;
  copy_regions v (rs_regions s);;
  mret true.

(** ** Memory of a virtine *)

Definition set_unowned_memory (this : Z) (memsz : Z) (mem : ptr) : M world bool :=
  v ← get_virtine this;
  modify (fun w => with_k (k_set_memory (w_k w) (m_vmfd v) memsz mem) w);;
  mret true.

Definition allocate_memory (this : Z) (memsz : Z) : M world bool :=
  if memsz =? 0 then fail_with (Thrown "zero memory size does not make sense")
  else if negb (Z.land memsz 0xFFF =? 0)
  then fail_with (Thrown "virtine memory sizes must be page-aligned")
  else
    w ← get_st;
    if negb (k_mmap_ok (w_k w) memsz) then mret false
    else
      new_addr ← alloc_block (replicate (Z.to_nat memsz) 0);
      v ← get_virtine this;
      modify (fun w => with_k (k_set_memory (w_k w) (m_vmfd v) memsz (Ptr new_addr 0)) w);;
      match m_mem v with Some old => free_block old | None => mret tt end;;
      put_virtine this (with_mem (Some new_addr) memsz v);;
      mret true.

(** ** Loading an image *)

Definition load_binary (this : Z) (path : string) (rip_ : Z) : M world bool :=
  w ← get_st;
  match k_file (w_k w) path with
  | None => mret false
  | Some content =>
      v ← get_virtine this;
      write_bytes (translate v rip_) content;;
      regs ← read_regs this;
      write_regs this (set_rip (u64 rip_) regs);;
      mret true
  end.

Definition load_raw (this : Z) (bin : ptr) (size rip_ : Z) : M world bool :=
  v ← get_virtine this;
  if m_memsz v <? u64 (rip_ + size) then mret false
  else
    memcpy (translate v rip_) bin size;;
    regs ← read_regs this;
    write_regs this (set_rip (u64 rip_) regs);;
    mret true.

(** ** Running *)

(** run() after the KVM_RUN ioctl returned: the classification of the exit. *)
Definition classify_exit (rr : run_result) : ExitReason :=
  if (rr_err rr <? 0) && (negb (rr_errno rr =? EINTR) && negb (rr_errno rr =? EAGAIN))
  then Crashed
  else
    let stat := rr_exit rr in
    if stat =? KVM_EXIT_IO then
      if rr_port rr =? 0xFA then Exited else HyperCall
    else if stat =? KVM_EXIT_HLT then Halted
    else if stat =? KVM_EXIT_INTR then Interrupted
    else if (stat =? KVM_EXIT_SHUTDOWN) || (stat =? KVM_EXIT_INTERNAL_ERROR) ||
            (stat =? KVM_EXIT_FAIL_ENTRY) || (stat =? KVM_EXIT_MMIO) then Crashed
    else Unknown.

Definition run (this : Z) : M world ExitReason :=
  v ← get_virtine this;
  w ← get_st;
  let '(rr, k', h') := k_run (w_k w) (m_cpufd v) (w_heap w) in
  put_st (with_heap h' (with_k k' w));;
  mret (classify_exit rr).

(** ** Construction and destruction *)

(** new wasp::Virtine(): the object's fields as declared, before the body runs. *)
Definition fresh_virtine (v : Virtine) : M world Z := fun w =>
  let this := w_nextv w in
  Ok (this, World (w_k w) (w_g_kvmfd w) (w_heap w) (w_next w)
              (<[this := v]> (w_virtines w)) (this + 1) (w_resets w) (w_nextr w) (w_out w)).

Definition in_kernel {A} (f : kst -> A * kst) : M world A := fun w =>
  let '(a, k') := f (w_k w) in Ok (a, with_k k' w).

Definition ensure_kvmfd : M world Z :=
  w ← get_st;
  if w_g_kvmfd w =? -1 then
    fd ← in_kernel k_open_kvm;
    modify (with_g_kvmfd fd);;
    if fd =? -1 then fail_with (Thrown "unable to open /dev/kvm") else mret fd
  else mret (w_g_kvmfd w).

Definition sanity_check (kvmfd : Z) : M world unit :=
  w ← get_st;
  let ret := k_api_version (w_k w) kvmfd in
  if ret =? -1 then fail_with (Thrown "KVM_GET_API_VERSION")
  else if negb (ret =? 12)
  then fail_with (Thrown "KVM_GET_API_VERSION returned invalid version")
  else
    let ret := k_check_user_memory (w_k w) kvmfd in
    if ret =? -1 then fail_with (Thrown "KVM_CHECK_EXTENSION")
    else if ret =? 0
    then fail_with (Thrown "Required extension KVM_CAP_USER_MEM not available")
    else mret tt.

Definition MAX_KVM_CPUID_ENTRIES : Z := 100.

Definition setup_cpuid (kvmfd cpufd : Z) : M world unit :=
  w ← get_st;
  match k_supported_cpuid (w_k w) kvmfd MAX_KVM_CPUID_ENTRIES with
  | None => fail_with (Thrown "KVM_GET_SUPPORTED_CPUID failed")
  | Some entries =>
      cpuid_err ← in_kernel (fun k => k_set_cpuid2 k cpufd (filter_cpuid cpuid0 entries));
      if negb (cpuid_err =? 0) then fail_with (Thrown "KVM_SET_CPUID2 failed") else mret tt
  end.

(** Virtine::Virtine() *)
Definition new_virtine : M world Z :=
  kvmfd ← ensure_kvmfd;
  sanity_check kvmfd;;
  vmfd ← in_kernel (fun k => k_create_vm k kvmfd);
  cpufd ← in_kernel (fun k => k_create_vcpu k vmfd);
  setup_cpuid kvmfd cpufd;;
  this ← fresh_virtine (MkVirtine None 0 kvmfd vmfd cpufd None None);
  write_regs this (set_rflags 0x2 zero_regs);;
  s ← read_sregs this;
  write_sregs this (set_cs_base 0 s);;
  regs ← read_regs this;
  write_regs this (set_rip 0x8000 (set_rsp 0x8000 regs));;
  save_reset_state this;;
  mret this.

(** Virtine::~Virtine() *)
Definition delete_virtine (this : Z) : M world unit :=
  v ← get_virtine this;
  modify (fun w => with_k (k_close (k_close (w_k w) (m_cpufd v)) (m_vmfd v)) w);;
  match m_mem v with Some b => free_block b | None => mret tt end;;
  modify (fun w => with_virtines (delete this (w_virtines w)) w).

(** ** Specifications *)

(** A virtine that can run: its VCPU is open with registers [c], and its memory
    is the live block [b] with contents [ram], sized below 2^63 as any mapping is. *)
Record live (w : world) (this : Z) (v : Virtine) (c : kvm_regs * sregs * fpu)
    (b : Z) (ram : list Z) : Prop := Live {
  live_obj : w_virtines w !! this = Some v;
  live_cpu : k_cpu (w_k w) (m_cpufd v) = Some c;
  live_mem : m_mem v = Some b;
  live_heap : w_heap w !! b = Some ram;
  live_size : m_memsz v = blen ram;
  live_max : blen ram < 2 ^ 63
}.

(** The bytes a region of a reset state would load. *)
Definition region_bytes (h : heap) (r : ResetMemory) : option (list Z) :=
  if rm_size r =? 0 then Some [] else
  match rm_data r with
  | NULL => None
  | Ptr b off => match h !! b with Some l => slice off (rm_size r) l | None => None end
  end.

(** RAM after the regions were copied over it, in order. *)
Fixpoint overlay (h : heap) (rs : list ResetMemory) (ram : list Z) : option (list Z) :=
  match rs with
  | [] => Some ram
  | r :: rs =>
      match region_bytes h r with
      | Some [] => overlay h rs ram
      | Some bs => match splice (rm_address r) bs ram with
                   | Some ram' => overlay h rs ram'
                   | None => None
                   end
      | None => None
      end
  end.

(** The saved data is not itself stored in the virtine's memory block. *)
Definition sources_apart (b : Z) (rs : list ResetMemory) : Prop :=
  Forall (fun r => match rm_data r with Ptr b' _ => b' <> b | NULL => True end) rs.

(** ** Computing with the world *)

Lemma with_heap_same (w : world) b l :
  w_heap w !! b = Some l -> with_heap (<[b := l]> (w_heap w)) w = w.
Proof. intros H. rewrite insert_id by done. by destruct w. Qed.

Lemma get_virtine_eq w this v :
  w_virtines w !! this = Some v -> get_virtine this w = Ok (v, w).
Proof. intros H. unfold get_virtine. by rewrite H. Qed.

Lemma cpu_of_eq w this v c :
  w_virtines w !! this = Some v -> k_cpu (w_k w) (m_cpufd v) = Some c ->
  cpu_of this w = Ok (c, w).
Proof. intros H Hc. unfold cpu_of. by rewrite H, Hc. Qed.

Lemma read_regs_eq w this v r s f :
  w_virtines w !! this = Some v -> k_cpu (w_k w) (m_cpufd v) = Some (r, s, f) ->
  read_regs this w = Ok (r, w).
Proof. intros H Hc. unfold read_regs. unfold_M. by rewrite (cpu_of_eq _ _ _ _ H Hc). Qed.

Lemma read_sregs_eq w this v r s f :
  w_virtines w !! this = Some v -> k_cpu (w_k w) (m_cpufd v) = Some (r, s, f) ->
  read_sregs this w = Ok (s, w).
Proof. intros H Hc. unfold read_sregs. unfold_M. by rewrite (cpu_of_eq _ _ _ _ H Hc). Qed.

Lemma read_fpu_eq w this v r s f :
  w_virtines w !! this = Some v -> k_cpu (w_k w) (m_cpufd v) = Some (r, s, f) ->
  read_fpu this w = Ok (f, w).
Proof. intros H Hc. unfold read_fpu. unfold_M. by rewrite (cpu_of_eq _ _ _ _ H Hc). Qed.

Lemma write_regs_eq w this v r :
  w_virtines w !! this = Some v ->
  write_regs this r w = Ok (tt, with_k (k_set_regs (w_k w) (m_cpufd v) r) w).
Proof. intros H. unfold write_regs. unfold_M. by rewrite (get_virtine_eq _ _ _ H). Qed.

Lemma write_sregs_eq w this v s :
  w_virtines w !! this = Some v ->
  write_sregs this s w = Ok (tt, with_k (k_set_sregs (w_k w) (m_cpufd v) s) w).
Proof. intros H. unfold write_sregs. unfold_M. by rewrite (get_virtine_eq _ _ _ H). Qed.

Lemma write_fpu_eq w this v f :
  w_virtines w !! this = Some v ->
  write_fpu this f w = Ok (tt, with_k (k_set_fpu (w_k w) (m_cpufd v) f) w).
Proof. intros H. unfold write_fpu. unfold_M. by rewrite (get_virtine_eq _ _ _ H). Qed.

Lemma bind_ok {A B} (m : M world A) (f : A -> M world B) w a w' :
  m w = Ok (a, w') -> (m ≫= f) w = f a w'.
Proof. intros H. unfold_M. by rewrite H. Qed.

Lemma bind_inv {A B} (m : M world A) (f : A -> M world B) w b w' :
  (m ≫= f) w = Ok (b, w') -> exists a w1, m w = Ok (a, w1) /\ f a w1 = Ok (b, w').
Proof. unfold_M. intros H. destruct (m w) as [[a w1]|]; [by eauto|done]. Qed.

Lemma write_bytes_eq w b off bs l l' :
  w_heap w !! b = Some l -> splice off bs l = Some l' ->
  write_bytes (Ptr b off) bs w = Ok (tt, with_heap (<[b := l']> (w_heap w)) w).
Proof.
  intros H Hs. unfold write_bytes. rewrite H, Hs.
  destruct (Z.eqb_spec (blen bs) 0) as [E|E]; [|done].
  pose proof Hs as [Hb ->]%splice_Some. unfold blen in E.
  destruct bs; [|cbn in E; lia]. cbn. rewrite Nat.add_0_r, take_drop.
  by rewrite with_heap_same.
Qed.

Lemma read_bytes_eq w r bs :
  region_bytes (w_heap w) r = Some bs -> read_bytes (rm_data r) (rm_size r) w = Ok (bs, w).
Proof.
  unfold region_bytes, read_bytes. intros H. destr_match; [by simplify_eq|].
  destruct (rm_data r); [done|]. destruct (w_heap w !! b); [|done]. by rewrite H.
Qed.

(** ** Address translation *)

Lemma translate_in_range v b addr :
  m_mem v = Some b -> 0 <= addr <= m_memsz v -> m_memsz v < 2 ^ 63 ->
  translate v addr = Ptr b addr.
Proof.
  intros Hm Ha Hs. unfold translate. rewrite uwrap_small by (unfold in_u; lia).
  by zdecide; rewrite Hm.
Qed.

Lemma translate_null_iff v b addr :
  m_mem v = Some b -> 0 <= m_memsz v < 2 ^ 63 -> in_s 64 addr ->
  translate v addr <> NULL <-> 0 <= addr <= m_memsz v.
Proof.
  intros Hm Hs Ha. unfold in_s in Ha. unfold translate. rewrite Hm.
  assert (u64 addr = if addr <? 0 then addr + 2 ^ 64 else addr) as ->.
  { unfold uwrap. destruct (Z.ltb_spec addr 0); [|apply Z.mod_small; lia].
    rewrite <- (Z.mod_add addr 1) by lia. apply Z.mod_small. lia. }
  destruct (Z.ltb_spec addr 0); destr_match; zbool; split; try done; lia.
Qed.

Lemma validate_length_iff v addr len :
  0 <= m_memsz v < 2 ^ 63 -> 0 <= addr <= m_memsz v -> in_u 64 len ->
  validate_length v addr len = true <->
  addr + len <= m_memsz v \/ 2 ^ 64 <= addr + len.
Proof.
  intros Hs Ha Hl. unfold in_u in Hl. unfold validate_length.
  rewrite negb_true_iff, Z.ltb_ge. unfold uwrap.
  destruct (Z.lt_ge_cases (addr + len) (2 ^ 64)).
  - rewrite Z.mod_small by lia. lia.
  - rewrite <- (Z.mod_add _ (-1)) by lia. rewrite Z.mod_small by lia. lia.
Qed.

(** C10: the two checks the hypercall handler makes before it touches guest
    memory, translate and validate_length, both succeed exactly when the address
    lies inside (or one past) the virtine's memory and the range either fits or
    is so long that address plus length wraps around 2^64. *)
Theorem guest_range_check (v : Virtine) (b addr len : Z) :
  m_mem v = Some b -> 0 <= m_memsz v < 2 ^ 63 -> in_s 64 addr -> in_u 64 len ->
  (validate_length v addr len = true /\ translate v addr <> NULL) <->
  (0 <= addr <= m_memsz v /\ (addr + len <= m_memsz v \/ 2 ^ 64 <= addr + len)).
Proof.
  intros Hm Hs Ha Hl. rewrite (translate_null_iff _ _ _ Hm Hs Ha).
  split; intros [H1 H2].
  - split; [done|]. by apply validate_length_iff in H1.
  - split; [|done]. by apply validate_length_iff.
Qed.

(** ** Reset *)

Lemma region_bytes_insert h b l r :
  match rm_data r with Ptr b' _ => b' <> b | NULL => True end ->
  region_bytes (<[b := l]> h) r = region_bytes h r.
Proof.
  intros Hr. unfold region_bytes. destruct (rm_data r); [done|].
  by rewrite lookup_insert_ne.
Qed.

Lemma overlay_insert h b l rs : forall ram,
  sources_apart b rs -> overlay (<[b := l]> h) rs ram = overlay h rs ram.
Proof.
  induction rs as [|r rs IH]; intros ram Hap; [done|].
  inversion_clear Hap as [|? ? Hr Hrs]. cbn. rewrite region_bytes_insert by done.
  repeat destr_match; auto.
Qed.

Lemma overlay_length h rs : forall ram ram',
  overlay h rs ram = Some ram' -> blen ram' = blen ram.
Proof.
  induction rs as [|r rs IH]; intros ram ram' H; cbn in H; [by simplify_eq|].
  destruct (region_bytes h r) as [[|x bs]|]; [by eapply IH| |done].
  destruct (splice _ _ ram) eqn:Es; [|done].
  rewrite (IH _ _ H). by eapply splice_length.
Qed.

(** A live virtine stays live when only its memory's contents change. *)
Lemma live_with_ram w this v c b ram ram' :
  live w this v c b ram -> blen ram' = blen ram ->
  live (with_heap (<[b := ram']> (w_heap w)) w) this v c b ram'.
Proof.
  intros L Hl. split; cbn; try apply L; rewrite ?Hl; try apply L.
  apply lookup_insert_eq.
Qed.

Lemma copy_regions_eq rs : forall w this v c b ram ram',
  live w this v c b ram -> sources_apart b rs ->
  overlay (w_heap w) rs ram = Some ram' ->
  copy_regions v rs w = Ok (tt, with_heap (<[b := ram']> (w_heap w)) w).
Proof.
  induction rs as [|r rs IH]; intros w this v c b ram ram' L Hap Ho; cbn in Ho |- *.
  - simplify_eq. by rewrite with_heap_same by apply L.
  - inversion_clear Hap as [|? ? Hr Hrs].
    destruct (region_bytes (w_heap w) r) as [bs|] eqn:Eb; [|done].
    unfold memcpy. unfold_M. rewrite (read_bytes_eq _ _ _ Eb).
    destruct bs as [|x bs]; [eapply IH; eauto|].
    destruct (splice (rm_address r) (x :: bs) ram) as [ram1|] eqn:Es; [|done].
    pose proof Es as [Hrange _]%splice_Some.
    rewrite (translate_in_range v b)
      by (try apply L; rewrite ?(live_size _ _ _ _ _ _ L);
          pose proof (blen_nonneg (x :: bs)); pose proof (live_max _ _ _ _ _ _ L); lia).
    rewrite (write_bytes_eq _ _ _ _ _ _ (live_heap _ _ _ _ _ _ L) Es).
    pose proof (splice_length _ _ _ _ Es) as Hlen.
    erewrite IH; [|by eapply live_with_ram|done|cbn; by rewrite overlay_insert].
    cbn. by rewrite insert_insert_eq.
Qed.

Context {Hlaws : HostLaws}.

#[export] Instance same_vms_preorder : PreOrder same_vms.
Proof.
  split; [done|]. intros k1 k2 k3 [H1 H2] [H3 H4].
  split; intros; rewrite ?H3, ?H4; auto.
Qed.

(** The kernel after all three register groups of a VCPU were written. *)
Definition set_cpu (k : kst) (fd : Z) (s : ResetState) : kst :=
  k_set_fpu (k_set_sregs (k_set_regs k fd (rs_regs s)) fd (rs_sregs s)) fd (rs_fpu s).

Lemma set_cpu_spec k fd s fd' :
  k_cpu (set_cpu k fd s) fd' =
  if decide (fd' = fd)
  then match k_cpu k fd with
       | Some _ => Some (rs_regs s, rs_sregs s, rs_fpu s) | None => None end
  else k_cpu k fd'.
Proof.
  unfold set_cpu. rewrite law_set_fpu, !law_set_sregs, !law_set_regs.
  destruct (decide (fd' = fd)) as [->|]; [|done].
  rewrite !decide_True by done. by destruct (k_cpu k fd) as [[[??]?]|].
Qed.

Lemma reset_eq w this v c b ram s ram' :
  live w this v c b ram -> get_rst this w = Ok (s, w) ->
  sources_apart b (rs_regions s) -> overlay (w_heap w) (rs_regions s) ram = Some ram' ->
  reset this w =
    Ok (true, with_heap (<[b := ram']> (w_heap w)) (with_k (set_cpu (w_k w) (m_cpufd v) s) w)).
Proof.
  intros L Hr Hap Ho. unfold reset. rewrite (bind_ok _ _ _ _ _ Hr).
  rewrite (bind_ok _ _ _ _ _ (write_regs_eq w this v _ (live_obj _ _ _ _ _ _ L))).
  erewrite bind_ok by (apply write_sregs_eq; apply L).
  erewrite bind_ok by (apply write_fpu_eq; apply L).
  erewrite bind_ok by (apply get_virtine_eq; apply L). cbn [w_k with_k].
  fold (set_cpu (w_k w) (m_cpufd v) s).
  erewrite bind_ok.
  2:{ eapply copy_regions_eq with (c := (rs_regs s, rs_sregs s, rs_fpu s)); [|done|exact Ho].
      split; cbn; try apply L. rewrite set_cpu_spec, decide_True by done.
      by rewrite (live_cpu _ _ _ _ _ _ L). }
  done.
Qed.

Lemma reset_live w this v c b ram s ram' :
  live w this v c b ram -> overlay (w_heap w) (rs_regions s) ram = Some ram' ->
  live (with_heap (<[b := ram']> (w_heap w)) (with_k (set_cpu (w_k w) (m_cpufd v) s) w))
    this v (rs_regs s, rs_sregs s, rs_fpu s) b ram'.
Proof.
  intros L Ho.
  apply (live_with_ram (with_k _ w) this v _ b ram); [|by eapply overlay_length].
  split; cbn; try apply L. rewrite set_cpu_spec, decide_True by done.
  by rewrite (live_cpu _ _ _ _ _ _ L).
Qed.

(** Reset() on a live virtine whose regions are in range succeeds, puts the
    saved register file back, makes the memory the saved regions laid over what
    was there, and leaves every other VCPU, block and object as it was. *)
Theorem reset_restores w this v c b ram s ram' :
  live w this v c b ram -> get_rst this w = Ok (s, w) ->
  sources_apart b (rs_regions s) -> overlay (w_heap w) (rs_regions s) ram = Some ram' ->
  exists w', reset this w = Ok (true, w') /\
    live w' this v (rs_regs s, rs_sregs s, rs_fpu s) b ram' /\
    (forall fd, fd <> m_cpufd v -> k_cpu (w_k w') fd = k_cpu (w_k w) fd) /\
    (forall b', b' <> b -> w_heap w' !! b' = w_heap w !! b') /\
    w_virtines w' = w_virtines w /\ w_resets w' = w_resets w.
Proof.
  intros L Hr Hap Ho. eexists. split; [by eapply reset_eq|].
  split; [|split; [|split; [|done]]].
  - by eapply reset_live.
  - intros fd Hfd. cbn. by rewrite set_cpu_spec, decide_False by done.
  - intros b' Hb. cbn. by rewrite lookup_insert_ne by done.
Qed.

(** ** Snapshots *)

(** save_reset_state records the registers the VCPU has, in the mask when the
    virtine has one (so that every virtine sharing it sees the snapshot). *)
Lemma save_reset_state_regions_eq w this v r s f regions :
  w_virtines w !! this = Some v -> k_cpu (w_k w) (m_cpufd v) = Some (r, s, f) ->
  save_reset_state_regions this regions w = put_rst this (MkResetState r s f regions) w.
Proof.
  intros Hv Hc. unfold save_reset_state_regions.
  rewrite (bind_ok _ _ _ _ _ (read_regs_eq _ _ _ _ _ _ Hv Hc)).
  rewrite (bind_ok _ _ _ _ _ (read_sregs_eq _ _ _ _ _ _ Hv Hc)).
  by rewrite (bind_ok _ _ _ _ _ (read_fpu_eq _ _ _ _ _ _ Hv Hc)).
Qed.

Lemma get_put_rst w this s w1 :
  put_rst this s w = Ok (tt, w1) -> get_rst this w1 = Ok (s, w1).
Proof.
  unfold put_rst, get_rst. intros H. destruct (w_virtines w !! this) as [v|] eqn:Ev; [|done].
  destruct (m_reset_mask v) as [r|] eqn:Em; simplify_eq; cbn.
  - by rewrite Ev, Em, lookup_insert_eq.
  - rewrite lookup_insert_eq. cbn. by rewrite Em.
Qed.

(** C11: a snapshot survives whatever the guest does afterwards. When the state
    of a live virtine is saved with regions, and in a later world the virtine is
    still live, reads the same reset state, and holds any registers and any
    memory, then reset() brings back exactly the registers of the moment of the
    snapshot and overlays the saved regions. *)
Theorem snapshot_restore w this v r s f b ram regions w1 st w2 c2 ram2 ram' :
  live w this v (r, s, f) b ram ->
  save_reset_state_regions this regions w = Ok (tt, w1) ->
  get_rst this w1 = Ok (st, w1) -> get_rst this w2 = Ok (st, w2) ->
  live w2 this v c2 b ram2 ->
  sources_apart b regions -> overlay (w_heap w2) regions ram2 = Some ram' ->
  exists w3, reset this w2 = Ok (true, w3) /\ live w3 this v (r, s, f) b ram'.
Proof.
  intros L Hs Hg1 Hg2 L2 Hap Ho.
  rewrite (save_reset_state_regions_eq _ _ _ _ _ _ _ (live_obj _ _ _ _ _ _ L)
             (live_cpu _ _ _ _ _ _ L)) in Hs.
  rewrite (get_put_rst _ _ _ _ Hs) in Hg1. injection Hg1 as <-.
  eexists. split; [by eapply reset_eq|]. by eapply (reset_live _ _ _ _ _ _ (MkResetState _ _ _ _)).
Qed.

(** ** Loading *)

(** Load_raw refuses an image that does not fit and then changes nothing;
    an image that fits is copied to its address, the instruction pointer is set
    to it, and nothing else changes. *)
Theorem load_raw_spec w this v r s f b ram bin size addr bs :
  live w this v (r, s, f) b ram ->
  region_bytes (w_heap w) (MkResetMemory bin addr size) = Some bs ->
  blen bs = size -> 0 <= addr -> addr + size < 2 ^ 64 ->
  (blen ram < addr + size -> load_raw this bin size addr w = Ok (false, w)) /\
  (addr + size <= blen ram ->
   exists ram', splice addr bs ram = Some ram' /\
     load_raw this bin size addr w =
       Ok (true, with_k (k_set_regs (w_k w) (m_cpufd v) (set_rip addr r))
                   (with_heap (<[b := ram']> (w_heap w)) w))).
Proof.
  intros L Hb Hl Ha Hw. pose proof (live_size _ _ _ _ _ _ L) as Hsz.
  pose proof (live_max _ _ _ _ _ _ L) as Hmax. pose proof (blen_nonneg bs).
  unfold load_raw. erewrite bind_ok by (apply get_virtine_eq; apply L).
  rewrite (uwrap_small 64 (addr + size)) by (unfold in_u; lia).
  split; intros Hfit; zdecide; [done|].
  rewrite (uwrap_small 64 addr) by (unfold in_u; lia).
  eexists. split; [apply splice_is_Some; lia|].
  rewrite (translate_in_range v b) by (try apply L; lia).
  erewrite bind_ok.
  2:{ unfold memcpy. pose proof (read_bytes_eq _ _ _ Hb) as Hrd. cbn in Hrd.
      rewrite (bind_ok _ _ _ _ _ Hrd).
      eapply write_bytes_eq; [apply L|apply splice_is_Some; lia]. }
  erewrite bind_ok by (eapply read_regs_eq; apply L).
  erewrite bind_ok by (apply write_regs_eq; apply L). done.
Qed.

(** ** Allocating memory *)

(** Block ids in use are below the next one. *)
Definition fresh_ok (w : world) : Prop :=
  (forall b, is_Some (w_heap w !! b) -> b < w_next w) /\
  (forall i v b, w_virtines w !! i = Some v -> m_mem v = Some b -> b < w_next w).

Lemma page_aligned memsz : Z.land memsz 0xFFF = 0 <-> memsz mod 4096 = 0.
Proof. change 0xFFF with (Z.ones 12). by rewrite Z.land_ones by lia. Qed.

(** The world after a successful allocation. *)
Definition allocated (w : world) (this : Z) (v : Virtine) (memsz : Z) : world :=
  let h := <[w_next w := replicate (Z.to_nat memsz) 0]> (w_heap w) in
  World (k_set_memory (w_k w) (m_vmfd v) memsz (Ptr (w_next w) 0)) (w_g_kvmfd w)
    (match m_mem v with Some old => delete old h | None => h end) (w_next w + 1)
    (<[this := with_mem (Some (w_next w)) memsz v]> (w_virtines w)) (w_nextv w)
    (w_resets w) (w_nextr w) (w_out w).

Lemma allocate_memory_ok w this v memsz :
  w_virtines w !! this = Some v -> 0 < memsz -> memsz mod 4096 = 0 ->
  k_mmap_ok (w_k w) memsz = true ->
  allocate_memory this memsz w = Ok (true, allocated w this v memsz).
Proof.
  intros Hv Hm Ha Hk. unfold allocate_memory. zdecide.
  rewrite (proj2 (page_aligned memsz) Ha). cbn [negb Z.eqb].
  unfold_M. rewrite Hk. cbn [negb].
  unfold alloc_block, get_virtine, put_virtine, free_block. unfold_M. cbn [w_virtines].
  rewrite Hv. unfold allocated. by destruct (m_mem v).
Qed.

Lemma allocated_live w this v c memsz :
  fresh_ok w -> w_virtines w !! this = Some v -> k_cpu (w_k w) (m_cpufd v) = Some c ->
  0 < memsz < 2 ^ 63 ->
  live (allocated w this v memsz) this (with_mem (Some (w_next w)) memsz v) c (w_next w)
    (replicate (Z.to_nat memsz) 0).
Proof.
  intros [Hf1 Hf2] Hv Hc Hm.
  assert (Hl : blen (replicate (Z.to_nat memsz) 0) = memsz).
  { unfold blen. rewrite length_replicate. lia. }
  split; cbn; rewrite ?Hl; try done; try lia.
  - apply lookup_insert_eq.
  - by rewrite (proj1 (law_set_memory _ _ _ _ _)).
  - destruct (m_mem v) as [old|] eqn:Em; [|apply lookup_insert_eq].
    specialize (Hf2 _ _ _ Hv Em). rewrite lookup_delete_ne by lia. apply lookup_insert_eq.
Qed.

(** Allocate_memory rejects an empty or unaligned size with an exception,
    reports a failed mmap by false with nothing changed, and otherwise gives the
    virtine a zero-filled block of the requested size, frees the block it had
    before, and leaves the registers alone. *)
Theorem allocate_memory_spec w this v c memsz :
  fresh_ok w -> w_virtines w !! this = Some v -> k_cpu (w_k w) (m_cpufd v) = Some c ->
  0 <= memsz < 2 ^ 63 ->
  (memsz = 0 \/ memsz mod 4096 <> 0 -> exists msg, allocate_memory this memsz w = Err (Thrown msg)) /\
  (0 < memsz -> memsz mod 4096 = 0 -> k_mmap_ok (w_k w) memsz = false ->
   allocate_memory this memsz w = Ok (false, w)) /\
  (0 < memsz -> memsz mod 4096 = 0 -> k_mmap_ok (w_k w) memsz = true ->
   exists w', allocate_memory this memsz w = Ok (true, w') /\
     live w' this (with_mem (Some (w_next w)) memsz v) c (w_next w)
       (replicate (Z.to_nat memsz) 0) /\
     (forall old, m_mem v = Some old -> w_heap w' !! old = None) /\
     (forall b, b <> w_next w -> m_mem v <> Some b -> w_heap w' !! b = w_heap w !! b)).
Proof.
  intros Hf Hv Hc Hm. split; [|split].
  - intros [->|Ha]; unfold allocate_memory; [by eexists|].
    destruct (memsz =? 0); [by eexists|].
    destruct (Z.eqb_spec (Z.land memsz 0xFFF) 0) as [E|E]; [|by eexists].
    by apply page_aligned in E.
  - intros Hp Ha Hk. unfold allocate_memory. zdecide.
    rewrite (proj2 (page_aligned memsz) Ha). cbn [negb Z.eqb]. unfold_M. by rewrite Hk.
  - intros Hp Ha Hk. eexists. split; [by apply allocate_memory_ok|].
    split; [by apply allocated_live; try lia|]. destruct Hf as [_ Hf2].
    split; [intros old E|intros b Hb Hne]; cbn.
    + rewrite E. apply lookup_delete_eq.
    + destruct (m_mem v); rewrite ?lookup_delete_ne, lookup_insert_ne by congruence; done.
Qed.

(** ** Construction *)

(** The object and register file Virtine::Virtine() leaves. *)
Definition boot_regs : kvm_regs := set_rip 0x8000 (set_rsp 0x8000 (set_rflags 0x2 zero_regs)).

(** Everything of the world but the kernel is the same. *)
Definition same_but_kernel (w w' : world) : Prop := w' = with_k (w_k w') w.

Lemma setup_cpuid_frame kvmfd cpufd w w' :
  setup_cpuid kvmfd cpufd w = Ok (tt, w') ->
  same_cpus (w_k w) (w_k w') /\ same_vms (w_k w) (w_k w') /\ same_but_kernel w w'.
Proof.
  unfold setup_cpuid, in_kernel. unfold_M.
  destruct (k_supported_cpuid _ _ _) as [l|]; [|done].
  destruct (k_set_cpuid2 _ _ _) as [e k'] eqn:Ek. destr_match; [done|].
  intros [= <-]. cbn. apply (f_equal snd) in Ek. cbn in Ek. subst k'.
  destruct (law_set_cpuid2 (w_k w) cpufd (filter_cpuid cpuid0 l)). done.
Qed.

Lemma new_virtine_ok w kvmfd w0 vmfd k1 cpufd k2 w3 :
  ensure_kvmfd w = Ok (kvmfd, w0) -> sanity_check kvmfd w0 = Ok (tt, w0) ->
  k_create_vm (w_k w0) kvmfd = (vmfd, k1) -> k_create_vcpu k1 vmfd = (cpufd, k2) ->
  setup_cpuid kvmfd cpufd (with_k k2 w0) = Ok (tt, w3) ->
  is_Some (k_cpu k2 cpufd) ->
  exists s f w', new_virtine w = Ok (w_nextv w3, w') /\
    k_cpu (w_k w') cpufd = Some (boot_regs, s, f) /\
    (forall fd, fd <> cpufd -> k_cpu (w_k w') fd = k_cpu (w_k w3) fd) /\
    same_vms (w_k w3) (w_k w') /\
    w' = World (w_k w') (w_g_kvmfd w3) (w_heap w3) (w_next w3)
           (<[w_nextv w3 := MkVirtine None 0 kvmfd vmfd cpufd
                              (Some (MkResetState boot_regs s f [])) None]> (w_virtines w3))
           (w_nextv w3 + 1) (w_resets w3) (w_nextr w3) (w_out w3).
Proof.
  intros He Hs Hvm Hcp Hc Hfd. unfold new_virtine.
  rewrite (bind_ok _ _ _ _ _ He), (bind_ok _ _ _ _ _ Hs).
  erewrite bind_ok by (unfold in_kernel; rewrite Hvm; reflexivity).
  erewrite bind_ok by (unfold in_kernel; cbn [w_k with_k]; rewrite Hcp; reflexivity).
  change (with_k k2 (with_k k1 w0)) with (with_k k2 w0).
  rewrite (bind_ok _ _ _ _ _ Hc).
  assert (is_Some (k_cpu (w_k w3) cpufd)) as [[[r0 s0] f0] Hcpu]
    by (destruct (setup_cpuid_frame _ _ _ _ Hc) as [-> _]; done).
  erewrite bind_ok by (unfold fresh_virtine; reflexivity).
  set (v := MkVirtine None 0 kvmfd vmfd cpufd None None). set (this := w_nextv w3).
  set (wa := World _ _ _ _ _ _ _ _ _).
  assert (Hv : w_virtines wa !! this = Some v) by apply lookup_insert_eq.
  rewrite (bind_ok _ _ _ _ _ (write_regs_eq _ _ _ _ Hv)).
  set (wb := with_k _ wa).
  assert (Hb : k_cpu (w_k wb) cpufd = Some (set_rflags 0x2 zero_regs, s0, f0)).
  { cbn. rewrite law_set_regs, decide_True by done. by rewrite Hcpu. }
  rewrite (bind_ok _ _ _ _ _ (read_sregs_eq wb _ v _ _ _ Hv Hb)).
  rewrite (bind_ok _ _ _ _ _ (write_sregs_eq wb _ v _ Hv)). set (wc := with_k _ wb).
  assert (Hc' : k_cpu (w_k wc) cpufd = Some (set_rflags 0x2 zero_regs, set_cs_base 0 s0, f0)).
  { unfold wc. cbn [w_k with_k m_cpufd v]. rewrite law_set_sregs, decide_True by done.
    by rewrite Hb. }
  rewrite (bind_ok _ _ _ _ _ (read_regs_eq wc _ v _ _ _ Hv Hc')).
  rewrite (bind_ok _ _ _ _ _ (write_regs_eq wc _ v _ Hv)). set (wd := with_k _ wc).
  assert (Hd : k_cpu (w_k wd) cpufd = Some (boot_regs, set_cs_base 0 s0, f0)).
  { unfold wd. cbn [w_k with_k m_cpufd v]. rewrite law_set_regs, decide_True by done.
    by rewrite Hc'. }
  erewrite bind_ok.
  2:{ change (save_reset_state this wd) with (save_reset_state_regions this [] wd).
      rewrite (save_reset_state_regions_eq wd _ v _ _ _ _ Hv Hd).
      unfold put_rst. replace (w_virtines wd !! this) with (Some v) by done. reflexivity. }
  do 3 eexists. split; [reflexivity|]. split; [exact Hd|]. split; [|split].
  - intros fd Hne. cbn. rewrite law_set_regs, decide_False by done.
    rewrite law_set_sregs, decide_False by done. by rewrite law_set_regs, decide_False by done.
  - cbn. etransitivity; [apply law_set_regs_vms|]. etransitivity; [apply law_set_sregs_vms|].
    apply law_set_regs_vms.
  - cbn. by rewrite insert_insert_eq.
Qed.

Lemma ensure_kvmfd_frame w fd w0 :
  ensure_kvmfd w = Ok (fd, w0) ->
  same_cpus (w_k w) (w_k w0) /\ same_vms (w_k w) (w_k w0) /\
  w0 = with_g_kvmfd (w_g_kvmfd w0) (with_k (w_k w0) w).
Proof.
  unfold ensure_kvmfd, in_kernel. unfold_M. destruct (w_g_kvmfd w =? -1).
  - destruct (k_open_kvm (w_k w)) as [a k'] eqn:E. destr_match; [done|].
    intros [= -> <-]. cbn. pose proof (law_open_kvm (w_k w)) as [H1 H2].
    rewrite E in H1, H2. done.
  - intros [= _ <-]. split; [done|]. split; [done|]. by destruct w.
Qed.

Lemma sanity_check_frame fd w w' : sanity_check fd w = Ok (tt, w') -> w' = w.
Proof. unfold sanity_check. unfold_M. repeat destr_match; congruence. Qed.

(** What any successful construction did: a new object on a new VCPU of a new
    VM, everything else as before. *)
Lemma new_virtine_inv w this w' :
  new_virtine w = Ok (this, w') ->
  exists kvmfd vmfd cpufd s f, this = w_nextv w /\ k_cpu (w_k w) cpufd = None /\
    (forall fd, k_vm_of (w_k w) fd <> Some vmfd) /\
    k_cpu (w_k w') cpufd = Some (boot_regs, s, f) /\ k_vm_of (w_k w') cpufd = Some vmfd /\
    (forall fd, fd <> cpufd -> k_cpu (w_k w') fd = k_cpu (w_k w) fd /\
                               k_vm_of (w_k w') fd = k_vm_of (w_k w) fd) /\
    (forall vm, k_map (w_k w') vm = k_map (w_k w) vm) /\
    w' = World (w_k w') (w_g_kvmfd w') (w_heap w) (w_next w)
           (<[this := MkVirtine None 0 kvmfd vmfd cpufd
                        (Some (MkResetState boot_regs s f [])) None]> (w_virtines w))
           (w_nextv w + 1) (w_resets w) (w_nextr w) (w_out w).
Proof.
  intros Hn. pose proof Hn as Hn0. unfold new_virtine in Hn.
  apply bind_inv in Hn as (kvmfd & w0 & He & Hn).
  apply bind_inv in Hn as ([] & w1 & Hs & Hn).
  pose proof (sanity_check_frame _ _ _ Hs) as ->.
  unfold in_kernel in Hn. unfold mbind, M_bind in Hn.
  destruct (k_create_vm (w_k w0) kvmfd) as [vmfd k1] eqn:Evm.
  cbn [w_k with_k] in Hn. destruct (k_create_vcpu k1 vmfd) as [cpufd k2] eqn:Ecp.
  change (with_k k2 (with_k k1 w0)) with (with_k k2 w0) in Hn.
  destruct (setup_cpuid kvmfd cpufd (with_k k2 w0)) as [[[] w3]|] eqn:Ec; [|done].
  destruct (ensure_kvmfd_frame _ _ _ He) as (Ec0 & Ev0 & Ew0).
  destruct (setup_cpuid_frame _ _ _ _ Ec) as (Ec3 & Ev3 & Ew3).
  assert (Hcpu : is_Some (k_cpu k2 cpufd)).
  { unfold fresh_virtine, write_regs, get_virtine in Hn. unfold_M. cbn [w_virtines] in Hn.
    rewrite lookup_insert_eq in Hn. unfold read_sregs, cpu_of in Hn. unfold_M.
    cbn [w_virtines with_k w_k m_cpufd] in Hn. rewrite lookup_insert_eq in Hn.
    cbn [m_cpufd] in Hn. rewrite law_set_regs, decide_True in Hn by done.
    rewrite (Ec3 cpufd) in Hn. cbn in Hn. destruct (k_cpu k2 cpufd) as [[[??]?]|]; [by eexists|done]. }
  assert (Hpos : 0 <= cpufd).
  { destruct (Z.lt_ge_cases cpufd 0); [|lia].
    rewrite law_cpu_fd in Hcpu by done. by destruct Hcpu. }
  destruct (new_virtine_ok w kvmfd w0 vmfd k1 cpufd k2 w3 He Hs Evm Ecp Ec Hcpu)
    as (s & f & w2 & Hn1 & Hc2 & Ho2 & Hv2 & Hw2).
  rewrite Hn1 in Hn0. injection Hn0 as <- <-.
  pose proof (law_create_vm (w_k w0) kvmfd) as (Ac & [Av Am] & Anew). rewrite Evm in Ac, Av, Am, Anew.
  pose proof (law_create_vcpu k1 vmfd) as Bo. rewrite Ecp in Bo.
  pose proof (law_create_vcpu_new k1 vmfd) as Bn. rewrite Ecp in Bn.
  pose proof (law_create_vcpu_map k1 vmfd) as Bm. rewrite Ecp in Bm.
  destruct (Bn Hpos) as (Hvm & Bnone & _ & Bvm). destruct Ev0 as [Ev0 Em0], Ev3 as [Ev3 Em3].
  destruct Hv2 as [Hv2 Hm2]. cbn in *.
  assert (Enext : w_nextv w3 = w_nextv w).
  { rewrite Ew3. cbn. rewrite Ew0. done. }
  exists kvmfd, vmfd, cpufd, s, f. split; [done|].
  split; [rewrite <- Ec0, <- Ac; done|].
  split; [intros fd; rewrite <- Ev0; by apply Anew|].
  split; [done|]. split; [by rewrite Hv2, Ev3|].
  split; [intros fd Hne; rewrite Hv2, Ev3, Ho2, Ec3 by done; cbn;
          destruct (Bo fd Hne) as [-> ->]; by rewrite Av, Ev0, Ac, Ec0|].
  split; [intros vm; by rewrite Hm2, Em3, Bm, Am, Em0|].
  rewrite Hw2 at 1. rewrite Ew3, Ew0. cbn. f_equal. rewrite Hw2. cbn. by rewrite Ew3, Ew0.
Qed.

(** When /dev/kvm answers the version and extension queries as required and
    accepts the CPUID table, the constructor yields a new object whose VCPU
    starts at 0x8000 with the stack there too, the reserved flag bit set and all
    other general registers zero, whose reset state is exactly that register
    file with no memory regions, and which has no memory yet; the registers of
    every other VCPU are untouched. A kernel with another API version, or
    without user memory regions, makes it throw. *)
Theorem constructor_spec w kvmfd w0 :
  ensure_kvmfd w = Ok (kvmfd, w0) ->
  (forall vmfd k1 cpufd k2 w3, sanity_check kvmfd w0 = Ok (tt, w0) ->
     k_create_vm (w_k w0) kvmfd = (vmfd, k1) -> k_create_vcpu k1 vmfd = (cpufd, k2) ->
     setup_cpuid kvmfd cpufd (with_k k2 w0) = Ok (tt, w3) -> 0 <= cpufd ->
     exists this s f w' v, new_virtine w = Ok (this, w') /\
       w_virtines w' !! this = Some v /\ m_mem v = None /\ m_cpufd v = cpufd /\
       k_cpu (w_k w') cpufd = Some (boot_regs, s, f) /\
       get_rst this w' = Ok (MkResetState boot_regs s f [], w') /\
       (forall fd, fd <> cpufd -> k_cpu (w_k w') fd = k_cpu (w_k w0) fd)) /\
  (k_api_version (w_k w0) kvmfd <> 12 \/ k_check_user_memory (w_k w0) kvmfd <= 0 ->
   k_check_user_memory (w_k w0) kvmfd >= -1 ->
   exists msg, new_virtine w = Err (Thrown msg)).
Proof.
  intros He. split.
  - intros vmfd k1 cpufd k2 w3 Hs Hvm Hcp Hc Hfd.
    destruct (law_create_vcpu_new k1 vmfd) as (_ & _ & Hnew & _); [by rewrite Hcp|].
    rewrite Hcp in Hnew.
    destruct (new_virtine_ok w kvmfd w0 vmfd k1 cpufd k2 w3 He Hs Hvm Hcp Hc Hnew)
      as (s & f & w' & Hn & Hcpu & Hoth & _ & Hv).
    apply (f_equal w_virtines) in Hv. cbn in Hv.
    do 5 eexists. split; [exact Hn|]. rewrite Hv. split; [apply lookup_insert_eq|].
    split; [done|]. split; [done|]. split; [done|]. split.
    + unfold get_rst. rewrite Hv, lookup_insert_eq. done.
    + intros fd Hne. rewrite Hoth by done.
      destruct (setup_cpuid_frame _ _ _ _ Hc) as [-> _]. cbn.
      pose proof (law_create_vcpu k1 vmfd fd) as Hv1. rewrite Hcp in Hv1. cbn in Hv1.
      destruct (Hv1 Hne) as [-> _]. pose proof (law_create_vm (w_k w0) kvmfd) as [Hv2 _].
      rewrite Hvm in Hv2. apply Hv2.
  - intros Hbad Hge. unfold new_virtine. rewrite (bind_ok _ _ _ _ _ He).
    unfold sanity_check. unfold_M.
    destruct (Z.eqb_spec (k_api_version (w_k w0) kvmfd) (-1)); [by eexists|].
    destruct (Z.eqb_spec (k_api_version (w_k w0) kvmfd) 12); cbn [negb]; [|by eexists].
    destruct (Z.eqb_spec (k_check_user_memory (w_k w0) kvmfd) (-1)); [by eexists|].
    destruct (Z.eqb_spec (k_check_user_memory (w_k w0) kvmfd) 0); [by eexists|]. lia.
Qed.

End Virtine.

(** ** Examples on the scripted host *)

Definition demo_virtine : Virtine := MkVirtine (Some 1) 4 3 4 5 None (Some 9).

Definition demo_reset : ResetState := MkResetState boot_regs 1 2 [MkResetMemory (Ptr 2 0) 1 2].

Definition demo_world : world :=
  World (ScriptKernel 6 {[5 := (zero_regs, 7, 8)]} ∅ ∅ []) 3
    {[1 := [10; 20; 30; 40]; 2 := [7; 8]]} 3 {[0 := demo_virtine]} 1 {[9 := demo_reset]} 10 [].

Lemma demo_live : live demo_world 0 demo_virtine (zero_regs, 7, 8) 1 [10; 20; 30; 40].
Proof. split; try reflexivity; unfold blen; cbn; lia. Qed.

Lemma guest_range_check_witness :
  (validate_length demo_virtine 3 (2 ^ 64 - 2) = true /\ translate demo_virtine 3 <> NULL) <->
  (0 <= 3 <= 4 /\ (3 + (2 ^ 64 - 2) <= 4 \/ 2 ^ 64 <= 3 + (2 ^ 64 - 2))).
Proof.
  apply (guest_range_check (Hst := script_host) demo_virtine 1 3 (2 ^ 64 - 2));
    [reflexivity| | |]; unfold in_s, in_u; cbn; lia.
Defined.

Lemma reset_restores_witness :
  exists w', reset 0 demo_world = Ok (true, w') /\
    live w' 0 demo_virtine (boot_regs, 1, 2) 1 [10; 7; 8; 40].
Proof.
  destruct (reset_restores (Hst := script_host) demo_world 0 demo_virtine _ 1 _ demo_reset [10; 7; 8; 40] demo_live)
    as (w' & Hr & Hl & _); [reflexivity|by repeat constructor|reflexivity|].
  by exists w'.
Defined.

Definition demo_snapshot : ResetState :=
  MkResetState zero_regs 7 8 [MkResetMemory (Ptr 2 0) 0 2].

(** The same virtine after it ran to other registers and scribbled on its memory. *)
Definition demo_world2 : world :=
  World (ScriptKernel 6 {[5 := (boot_regs, 1, 1)]} ∅ ∅ []) 3
    {[1 := [0; 0; 0; 0]; 2 := [7; 8]]} 3 {[0 := demo_virtine]} 1
    {[9 := demo_snapshot]} 10 [].

Lemma snapshot_restore_witness :
  exists w3, reset 0 demo_world2 = Ok (true, w3) /\
    live w3 0 demo_virtine (zero_regs, 7, 8) 1 [7; 8; 0; 0].
Proof.
  apply (snapshot_restore (Hst := script_host) demo_world 0 demo_virtine zero_regs 7 8 1 _
           [MkResetMemory (Ptr 2 0) 0 2]
           (with_resets {[9 := demo_snapshot]} demo_world)
           demo_snapshot
           demo_world2 (boot_regs, 1, 1) [0; 0; 0; 0] [7; 8; 0; 0] demo_live);
    try reflexivity.
  - split; try reflexivity; unfold blen; cbn; lia.
  - by repeat constructor.
Defined.

Lemma load_raw_spec_witness :
  exists w', load_raw 0 (Ptr 2 0) 2 1 demo_world = Ok (true, w') /\
    w_heap w' !! 1 = Some [10; 7; 8; 40].
Proof.
  destruct (load_raw_spec (Hst := script_host) demo_world 0 demo_virtine zero_regs 7 8 1 _ (Ptr 2 0) 2 1 [7; 8]
              demo_live) as [_ Hfit]; try reflexivity; try lia.
  destruct Hfit as (ram' & Hs & Hl); [unfold blen; cbn; lia|].
  eexists. split; [exact Hl|]. cbn in Hs |- *. rewrite lookup_insert_eq. exact (eq_sym Hs).
Defined.

Lemma allocate_memory_spec_witness :
  exists w', allocate_memory 0 8192 demo_world = Ok (true, w') /\
    live w' 0 (with_mem (Some 3) 8192 demo_virtine) (zero_regs, 7, 8) 3
      (replicate (Z.to_nat 8192) 0).
Proof.
  destruct (allocate_memory_spec (Hst := script_host) demo_world 0 demo_virtine (zero_regs, 7, 8) 8192)
    as (_ & _ & H).
  - split; cbn.
    + intros b [l Hb]. destruct (decide (b = 1)) as [->|]; [lia|].
      rewrite lookup_insert_ne in Hb by done.
      apply lookup_singleton_Some in Hb as [<- _]. lia.
    + intros i v b Hi Hm. apply lookup_singleton_Some in Hi as [_ <-].
      cbn in Hm. injection Hm as <-. lia.
  - reflexivity.
  - reflexivity.
  - lia.
  - destruct H as (w' & Ha & Hl & _); [lia|reflexivity|reflexivity|]. by exists w'.
Defined.

Definition boot_world : world := World (booted []) (-1) ∅ 1 ∅ 1 ∅ 1 [].

Lemma constructor_spec_witness :
  exists this s f w', new_virtine boot_world = Ok (this, w') /\
    get_rst this w' = Ok (MkResetState boot_regs s f [], w').
Proof.
  destruct (constructor_spec (Hst := script_host) boot_world 3 (with_g_kvmfd 3 boot_world)) as [H _]; [reflexivity|].
  destruct (H 4 (ScriptKernel 5 ∅ ∅ ∅ []) 5
              (sk_create_vcpu (ScriptKernel 5 ∅ ∅ ∅ []) 4).2
              (with_k (Hst := script_host) (sk_create_vcpu (ScriptKernel 5 ∅ ∅ ∅ []) 4).2 (with_g_kvmfd 3 boot_world)))
    as (this & s & f & w' & v & Hn & _ & _ & _ & _ & Hr & _); try reflexivity; [lia|].
  by exists this, s, f, w'.
Defined.
