(* ===== verification/Cache.v ===== *)
(** The pool of virtines of include/wasp/Cache.h and src/Cache.cpp.

    A cache is a record passed through its operations; the virtines it pools and
    the reset state it shares with them live in the world (file Virtine).  The
    spin lock is modelled twice: here as the flag that every operation takes and
    gives back, and in file SpinLock as the instructions threads interleave. *)

From S2P Require Import Prelude Kvm ScriptHost Cpuid Virtine.

Section Cache.
Context `{Hst : Host}.

(** ** Data *)

Record Cache : Type := MkCache {
  c_memsz : Z;                      (* m_memsz *)
  c_locked : bool;                  (* locked *)
  c_pool : list Z;                  (* m_cache: the deque, front first *)
  c_tcms : list Z;                  (* m_tcms *)
  c_caches : gmap Z (list Z);       (* m_caches: per-thread deques *)
  c_reset : option Z;               (* m_reset *)
  c_binary : ptr;                   (* m_binary *)
  c_binary_size : option Z;         (* m_binary_size, unset until set_binary *)
  c_binary_start : option Z;        (* m_binary_start *)
  c_hits : Z;                       (* m_hits *)
  c_misses : Z                      (* m_misses *)
}.

(** Cache(size_t memsz) *)
Definition new_cache (memsz : Z) : Cache :=
  MkCache memsz false [] [] ∅ None NULL None None 0 0.

Definition with_locked (l : bool) (c : Cache) : Cache :=
  MkCache (c_memsz c) l (c_pool c) (c_tcms c) (c_caches c) (c_reset c) (c_binary c)
    (c_binary_size c) (c_binary_start c) (c_hits c) (c_misses c).
Definition with_pool (p : list Z) (c : Cache) : Cache :=
  MkCache (c_memsz c) (c_locked c) p (c_tcms c) (c_caches c) (c_reset c) (c_binary c)
    (c_binary_size c) (c_binary_start c) (c_hits c) (c_misses c).
Definition with_creset (r : option Z) (c : Cache) : Cache :=
  MkCache (c_memsz c) (c_locked c) (c_pool c) (c_tcms c) (c_caches c) r (c_binary c)
    (c_binary_size c) (c_binary_start c) (c_hits c) (c_misses c).
Definition with_counts (hits misses : Z) (c : Cache) : Cache :=
  MkCache (c_memsz c) (c_locked c) (c_pool c) (c_tcms c) (c_caches c) (c_reset c) (c_binary c)
    (c_binary_size c) (c_binary_start c) hits misses.

(** ** Locking: lock() spins for ever on a lock that is not released *)

Definition lock (c : Cache) : M world Cache :=
  if c_locked c then fail_with OutOfFuel else mret (with_locked true c).
Definition unlock (c : Cache) : Cache := with_locked false c.

(** ** Thread managers: the bodies after the leading return are dead code *)

(** get_cache() returns m_cache. *)
Definition get_cache (c : Cache) : list Z := c_pool c.
(** ThreadCacheManager::attach and Cache::detach return at once. *)
Definition tcm_attach (c : Cache) : Cache := c.
Definition detach (c : Cache) : Cache := c.
(** ~ThreadCacheManager: detach from every cache attached to. *)
Definition delete_tcm (caches : list Cache) : list Cache := map detach caches.

(** ** Operations *)

Definition set_binary (data : ptr) (size start : Z) (c : Cache) : Cache :=
  MkCache (c_memsz c) (c_locked c) (c_pool c) (c_tcms c) (c_caches c) (c_reset c) data
    (Some size) (Some start) (c_hits c) (c_misses c).

(** Cache::load_binary; a file that cannot be opened is reported and then read
    through the null stream. *)
Definition load_binary (path : string) (start : Z) (c : Cache) : M world Cache :=
  w ← get_st;
  match k_file (w_k w) path with
  | None =>
      modify (fun w => with_out (w_out w ++ ["wasp::Cache: binary could not be loaded."%string]) w);;
      fail_with Fault
  | Some content =>
      bin ← alloc_block content;
      mret (set_binary (Ptr bin 0) (blen content) start c)
  end.

(** new wasp::ResetState *)
Definition new_reset_state (s : ResetState) : M world Z := fun w =>
  let r := w_nextr w in
  Ok (r, World (w_k w) (w_g_kvmfd w) (w_heap w) (w_next w) (w_virtines w) (w_nextv w)
           (<[r := s]> (w_resets w)) (r + 1) (w_out w)).

(** The branch of allocate() that fills m_reset from the first virtine. *)
Definition init_reset (v : Z) (c : Cache) : M world Cache :=
  match c_reset c with
  | Some _ => mret c
  | None =>
      regs ← read_regs v;
      s ← read_sregs v;
      f ← read_fpu v;
      size ← lift_opt (c_binary_size c);
      start ← lift_opt (c_binary_start c);
      r ← new_reset_state (MkResetState regs s f [MkResetMemory (c_binary c) start size]);
      mret (with_creset (Some r) c)
  end.

Definition allocate (c : Cache) : M world (Z * Cache) :=
  v ← new_virtine;
  c ← init_reset v c;
  set_reset_mask v (c_reset c);;
  allocate_memory v (c_memsz c);;
  reset v;;
  mret (v, c).

Definition get (c : Cache) : M world (Z * Cache) :=
  c ← lock c;
  match get_cache c with
  | [] =>
      let c := with_counts (c_hits c) (u64 (c_misses c + 1)) c in
      '(v, c) ← allocate c;
      mret (v, unlock c)
  | v :: rest =>
      let c := with_counts (u64 (c_hits c + 1)) (c_misses c) c in
      mret (v, unlock (with_pool rest c))
  end.

(** The loop of ensure(): [cache.size() < count] compares as size_t. *)
Fixpoint ensure_loop (fuel : nat) (count : Z) (c : Cache) : M world Cache :=
  if blen (get_cache c) <? u64 count then
    match fuel with
    | O => fail_with OutOfFuel
    | S fuel =>
        '(v, c) ← allocate c;
        ensure_loop fuel count (with_pool (v :: get_cache c) c)
    end
  else mret c.

Definition ensure (fuel : nat) (count : Z) (c : Cache) : M world Cache :=
  c ← lock c;
  c ← ensure_loop fuel count c;
  mret (unlock c).

Definition put (v : Z) (c : Cache) : M world Cache :=
  reset v;;
  c ← lock c;
  mret (unlock (with_pool (get_cache c ++ [v]) c)).

(** size(): the per-thread deques are counted *)
Definition size (c : Cache) : M world (Z * Cache) :=
  c ← lock c;
  mret (map_fold (fun _ d total => u64 (total + blen d)) 0 (c_caches c), unlock c).

Definition hits (c : Cache) : Z := c_hits c.
Definition misses (c : Cache) : Z := c_misses c.

Fixpoint delete_all (vs : list Z) : M world unit :=
  match vs with
  | [] => mret tt
  | v :: vs => delete_virtine v;; delete_all vs
  end.

(** ~Cache, without the optional statistics: the virtines of the per-thread
    deques are deleted. *)
Definition delete_cache (c : Cache) : M world unit :=
  delete_all (concat (map snd (map_to_list (c_caches c)))).

(** ** The pool invariant *)

(** The image a cache loads into its virtines: region [img], stored in the host
    block [bb], with contents [bs]. *)
Section Image.
Context (img : ResetMemory) (bb : Z) (bs : list Z).

(** Virtine [vid] of the cache is live, resets to the cache's shared state [r],
    has the cache's memory size, and its VCPU executes in its own block. *)
Record vm_ok (w : world) (memsz r vid : Z) (v : Virtine) (cpu : kvm_regs * sregs * fpu)
    (b : Z) (ram : list Z) : Prop := VmOk {
  vo_live : live w vid v cpu b ram;
  vo_mask : m_reset_mask v = Some r;
  vo_memsz : m_memsz v = memsz;
  vo_apart : b <> bb;
  vo_vm : k_vm_of (w_k w) (m_cpufd v) = Some (m_vmfd v);
  vo_map : k_map (w_k w) (m_vmfd v) = Some b
}.

(** The registers are the reset state's and the image is in place. *)
Definition clean (w : world) (s : ResetState) (vid : Z) : Prop :=
  exists v b ram, live w vid v (rs_regs s, rs_sregs s, rs_fpu s) b ram /\
    slice (rm_address img) (rm_size img) ram = Some bs.

(** [out] lists the virtines handed out by get() and not yet put() back.  The image is
    the binary of the cache until there is a reset state, whose region it is then. *)
Record pool_inv (w : world) (c : Cache) (out : list Z) : Prop := PoolInv {
  pi_memsz : 0 < c_memsz c < 2 ^ 63 /\ c_memsz c mod 4096 = 0;
  pi_binary : c_reset c = None ->
              c_binary c = rm_data img /\ c_binary_size c = Some (rm_size img) /\
              c_binary_start c = Some (rm_address img);
  pi_image : region_bytes (w_heap w) img = Some bs /\ bs <> [] /\
             match rm_data img with Ptr b' _ => b' = bb | NULL => False end /\
             0 <= rm_address img /\ rm_address img + rm_size img <= c_memsz c;
  pi_fresh : fresh_ok w;
  pi_ids : (forall i, is_Some (w_virtines w !! i) -> i < w_nextv w) /\
           (forall r, is_Some (w_resets w !! r) -> r < w_nextr w);
  pi_nodup : NoDup (c_pool c ++ out);
  pi_sep : forall i j vi vj, i ∈ c_pool c ++ out -> j ∈ c_pool c ++ out -> i <> j ->
    w_virtines w !! i = Some vi -> w_virtines w !! j = Some vj ->
    m_cpufd vi <> m_cpufd vj /\ m_vmfd vi <> m_vmfd vj /\ m_mem vi <> m_mem vj;
  pi_reset : match c_reset c with
             | None => c_pool c ++ out = []
             | Some r => exists s, w_resets w !! r = Some s /\ rs_regions s = [img] /\
                 (forall vid, vid ∈ c_pool c ++ out -> exists v cpu b ram,
                    vm_ok w (c_memsz c) r vid v cpu b ram) /\
                 (forall vid, vid ∈ c_pool c -> clean w s vid)
             end
}.

(** A step that concerns one virtine: its registers and the contents of its
    memory block may change, and nothing else. *)
Record local_step (w w' : world) (v : Virtine) (b : Z) : Prop := LocalStep {
  ls_virtines : w_virtines w' = w_virtines w;
  ls_resets : w_resets w' = w_resets w;
  ls_next : w_next w' = w_next w;
  ls_nextv : w_nextv w' = w_nextv w;
  ls_nextr : w_nextr w' = w_nextr w;
  ls_cpu : forall fd, fd <> m_cpufd v -> k_cpu (w_k w') fd = k_cpu (w_k w) fd;
  ls_open : is_Some (k_cpu (w_k w) (m_cpufd v)) -> is_Some (k_cpu (w_k w') (m_cpufd v));
  ls_vms : same_vms (w_k w) (w_k w');
  ls_heap : forall b', b' <> b -> w_heap w' !! b' = w_heap w !! b';
  ls_ram : forall l, w_heap w !! b = Some l ->
    exists l', w_heap w' !! b = Some l' /\ length l' = length l
}.

Lemma vm_ok_local_other w w' v b memsz r vid vx cpu bx ram :
  local_step w w' v b -> m_cpufd vx <> m_cpufd v -> bx <> b ->
  vm_ok w memsz r vid vx cpu bx ram -> vm_ok w' memsz r vid vx cpu bx ram.
Proof.
  intros [] Hfd Hb [[] ? ? ? ? ?]. destruct ls_vms0 as [Hvm Hmap].
  split; try done; [|by rewrite Hvm|by rewrite Hmap].
  split; try done; [by rewrite ls_virtines0|by rewrite ls_cpu0|by rewrite ls_heap0].
Qed.

Lemma vm_ok_local_self w w' memsz r vid v cpu b ram :
  local_step w w' v b -> vm_ok w memsz r vid v cpu b ram ->
  exists cpu' ram', vm_ok w' memsz r vid v cpu' b ram'.
Proof.
  intros [] [L ? ? ? ? ?]. destruct ls_vms0 as [Hvm Hmap].
  destruct ls_open0 as [cpu' Hc]; [eexists; apply L|].
  destruct (ls_ram0 _ (live_heap _ _ _ _ _ _ L)) as (ram' & Hr & Hl).
  exists cpu', ram'. split; try done; [|by rewrite Hvm|by rewrite Hmap].
  destruct L. unfold blen in *. split; unfold blen; rewrite ?ls_virtines0, ?Hl; done.
Qed.

Lemma clean_local_other w w' v b s vid vx cpu bx ram memsz r :
  local_step w w' v b -> m_cpufd vx <> m_cpufd v -> bx <> b ->
  vm_ok w memsz r vid vx cpu bx ram -> clean w s vid -> clean w' s vid.
Proof.
  intros Hs Hfd Hb Hv (v1 & b1 & ram1 & L & Hsl).
  assert (v1 = vx) as -> by (destruct Hv as [[] _ _ _ _ _], L; congruence).
  assert (b1 = bx) as -> by (destruct Hv as [[] _ _ _ _ _], L; congruence).
  exists vx, bx, ram1. split; [|done]. destruct Hs, L.
  split; try done; [by rewrite ls_virtines0|by rewrite ls_cpu0|by rewrite ls_heap0].
Qed.

Lemma region_bytes_frame h h' b :
  match rm_data img with Ptr b' _ => b' = bb | NULL => False end -> b <> bb ->
  (forall b', b' <> b -> h' !! b' = h !! b') -> region_bytes h' img = region_bytes h img.
Proof.
  intros Hi Hb Hh. unfold region_bytes. destruct (rm_data img) as [|b' off]; [done|].
  subst b'. by rewrite Hh.
Qed.

Lemma fresh_ok_local w w' v b l :
  local_step w w' v b -> w_heap w !! b = Some l -> fresh_ok w -> fresh_ok w'.
Proof.
  intros [] Hl [H1 H2]. split.
  - intros b' Hb'. rewrite ls_next0. destruct (decide (b' = b)) as [->|Hne].
    + apply H1. by eexists.
    + rewrite ls_heap0 in Hb' by done. by apply H1.
  - intros i vi b'. rewrite ls_virtines0, ls_next0. apply H2.
Qed.

(** Whatever a handed-out virtine does, the pool stays as it was. *)
Lemma pool_inv_local w w' c out vid v b :
  pool_inv w c out -> vid ∈ out -> w_virtines w !! vid = Some v -> m_mem v = Some b ->
  local_step w w' v b -> pool_inv w' c out.
Proof.
  intros [] Hout Hv Hm Hs. destruct pi_image0 as (Him & Hne & Hbb & Hstart & Hfit).
  assert (Hin : vid ∈ c_pool c ++ out) by set_solver.
  destruct (c_reset c) as [r|] eqn:Er; [|by rewrite pi_reset0 in Hin; set_solver].
  destruct pi_reset0 as (s & Hr & Hreg & Hall & Hclean).
  destruct (Hall vid Hin) as (v1 & cpu & b1 & ram & Hok).
  assert (v1 = v) as -> by (destruct Hok as [[] _ _ _ _ _]; congruence).
  assert (b1 = b) as -> by (destruct Hok as [[] _ _ _ _ _]; congruence).
  assert (Hother : forall x, x ∈ c_pool c ++ out -> x <> vid ->
            exists vx cx bx rx, vm_ok w (c_memsz c) r x vx cx bx rx /\
              m_cpufd vx <> m_cpufd v /\ bx <> b).
  { intros x Hx Hxne. destruct (Hall x Hx) as (vx & cx & bx & rx & Hxok).
    exists vx, cx, bx, rx. split; [done|].
    pose proof (live_obj _ _ _ _ _ _ (vo_live _ _ _ _ _ _ _ _ Hxok)) as Hxo.
    pose proof (live_mem _ _ _ _ _ _ (vo_live _ _ _ _ _ _ _ _ Hxok)) as Hxm.
    destruct (pi_sep0 x vid vx v Hx Hin Hxne Hxo Hv) as (? & ? & Hbne). split; congruence. }
  split; try done; [by rewrite Er| | | | |].
  - rewrite (region_bytes_frame (w_heap w) (w_heap w') b); try done; [apply Hok|apply Hs].
  - eapply fresh_ok_local; [done| |done]. apply Hok.
  - destruct pi_ids0 as [H1 H2]. destruct Hs.
    rewrite ls_virtines0, ls_resets0, ls_nextv0, ls_nextr0. done.
  - by rewrite (ls_virtines _ _ _ _ Hs).
  - rewrite Er. exists s. split; [by rewrite (ls_resets _ _ _ _ Hs)|]. split; [done|]. split.
    + intros x Hx. destruct (decide (x = vid)) as [->|Hxne].
      * destruct (vm_ok_local_self _ _ _ _ _ _ _ _ _ Hs Hok) as (c' & ram' & ?). eauto 10.
      * destruct (Hother x Hx Hxne) as (vx & cx & bx & rx & Hxok & Hf & Hb).
        exists vx, cx, bx, rx. by eapply vm_ok_local_other.
    + intros x Hx. assert (Hxne : x <> vid).
      { intros ->. apply NoDup_app in pi_nodup0 as (_ & Hd & _). by apply (Hd vid). }
      destruct (Hother x ltac:(set_solver) Hxne) as (vx & cx & bx & rx & Hxok & Hf & Hb).
      eapply clean_local_other; eauto.
Qed.

Context {Hlaws : HostLaws}.

(** ** Steps of one virtine *)

Lemma run_local w memsz r vid v cpu b ram e w' :
  vm_ok w memsz r vid v cpu b ram -> run vid w = Ok (e, w') -> local_step w w' v b.
Proof.
  intros [L ? ? ? Hvm Hmap] Hr. unfold run in Hr.
  erewrite bind_ok in Hr by (apply get_virtine_eq; apply L). unfold_M.
  destruct (k_run (w_k w) (m_cpufd v) (w_heap w)) as [[rr k'] h'] eqn:E.
  injection Hr as _ <-.
  destruct (law_run_cpu _ _ _ _ _ _ E) as (Hsv & Hc & Ho).
  destruct (law_run_heap _ _ _ _ _ _ E) as (Hh & Hl).
  split; try done; cbn; [|by apply Hl].
  intros b' Hne. apply Hh. unfold k_ram. rewrite Hvm, Hmap. congruence.
Qed.

Lemma write_regs_local w memsz r vid v cpu b ram regs w' :
  vm_ok w memsz r vid v cpu b ram -> write_regs vid regs w = Ok (tt, w') -> local_step w w' v b.
Proof.
  intros [L ? ? ? ? ?] Hr. rewrite (write_regs_eq _ _ _ _ (live_obj _ _ _ _ _ _ L)) in Hr.
  injection Hr as <-. split; try done; cbn.
  - intros fd Hne. by rewrite law_set_regs, decide_False.
  - intros Ho. rewrite law_set_regs, decide_True by done.
    destruct Ho as [[[??]?] ->]. by eexists.
  - apply law_set_regs_vms.
  - eauto.
Qed.

Lemma write_ram_local w memsz r vid v cpu b ram off bs' w' :
  vm_ok w memsz r vid v cpu b ram -> write_bytes (Ptr b off) bs' w = Ok (tt, w') ->
  local_step w w' v b.
Proof.
  intros [L ? ? ? ? ?] Hr. unfold write_bytes in Hr.
  rewrite (live_heap _ _ _ _ _ _ L) in Hr.
  destruct (blen bs' =? 0); [injection Hr as <-; split; try done; eauto|].
  destruct (splice off bs' ram) as [ram'|] eqn:E; [|done]. injection Hr as <-.
  split; try done; cbn.
  - intros b' Hne. by rewrite lookup_insert_ne.
  - intros l Hl. rewrite (live_heap _ _ _ _ _ _ L) in Hl. injection Hl as <-.
    rewrite lookup_insert_eq. eexists. split; [done|].
    apply splice_length in E. unfold blen in E. lia.
Qed.

Lemma overlay_image h ram :
  region_bytes h img = Some bs -> bs <> [] ->
  overlay h [img] ram = splice (rm_address img) bs ram.
Proof.
  intros Hr Hne. cbn. rewrite Hr. destruct bs; [done|]. by destruct (splice _ _ _).
Qed.

Lemma image_size h : region_bytes h img = Some bs -> blen bs = rm_size img.
Proof.
  unfold region_bytes. destruct (Z.eqb_spec (rm_size img) 0) as [->|]; [by intros [= <-]|].
  destruct (rm_data img); [done|]. destruct (h !! b); [|done]. apply slice_length.
Qed.

(** A virtine of the cache can always be reset. *)
Lemma reset_succeeds w memsz r vid v cpu b ram s :
  vm_ok w memsz r vid v cpu b ram -> w_resets w !! r = Some s -> rs_regions s = [img] ->
  region_bytes (w_heap w) img = Some bs -> bs <> [] ->
  match rm_data img with Ptr b' _ => b' = bb | NULL => False end ->
  0 <= rm_address img -> rm_address img + rm_size img <= memsz ->
  exists w', reset vid w = Ok (true, w').
Proof.
  intros [L Hmask Hsz Hap Hvm Hmap] Hrs Hreg Him Hne Hbb H0 Hfit.
  pose proof (image_size _ Him) as Hbs. pose proof (live_size _ _ _ _ _ _ L) as Hlen.
  eexists. eapply (reset_eq _ _ _ _ _ _ s _ L).
  - unfold get_rst. by rewrite (live_obj _ _ _ _ _ _ L), Hmask, Hrs.
  - rewrite Hreg. repeat constructor. destruct (rm_data img); [done|congruence].
  - rewrite Hreg, overlay_image by done. apply splice_is_Some; lia.
Qed.

Lemma reset_cleans w memsz r vid v cpu b ram s x w' :
  vm_ok w memsz r vid v cpu b ram -> w_resets w !! r = Some s -> rs_regions s = [img] ->
  region_bytes (w_heap w) img = Some bs -> bs <> [] ->
  match rm_data img with Ptr b' _ => b' = bb | NULL => False end ->
  0 <= rm_address img -> rm_address img + rm_size img <= memsz ->
  reset vid w = Ok (x, w') ->
  local_step w w' v b /\ clean w' s vid /\
  exists ram', vm_ok w' memsz r vid v (rs_regs s, rs_sregs s, rs_fpu s) b ram' /\
    splice (rm_address img) bs ram = Some ram'.
Proof.
  intros [L Hmask Hsz Hap Hvm Hmap] Hrs Hreg Him Hne Hbb H0 Hfit Hr.
  assert (Hg : get_rst vid w = Ok (s, w)).
  { unfold get_rst. rewrite (live_obj _ _ _ _ _ _ L), Hmask, Hrs. done. }
  pose proof (image_size _ Him) as Hbs. pose proof (live_size _ _ _ _ _ _ L) as Hlen.
  destruct (splice (rm_address img) bs ram) as [ram'|] eqn:Es.
  2:{ rewrite splice_is_Some in Es; [done|lia|lia]. }
  assert (Ho : overlay (w_heap w) (rs_regions s) ram = Some ram').
  { by rewrite Hreg, overlay_image. }
  assert (Hsa : sources_apart b (rs_regions s)).
  { rewrite Hreg. repeat constructor. destruct (rm_data img); [done|congruence]. }
  rewrite (reset_eq _ _ _ _ _ _ _ _ L Hg Hsa Ho) in Hr. injection Hr as _ <-.
  set (w' := with_heap _ _).
  assert (L' : live w' vid v (rs_regs s, rs_sregs s, rs_fpu s) b ram').
  { apply (live_with_ram (with_k _ w) vid v _ b ram); [|by eapply splice_length].
    split; cbn; try apply L. rewrite set_cpu_spec, decide_True by done.
    by rewrite (live_cpu _ _ _ _ _ _ L). }
  assert (Hsame : same_vms (w_k w) (w_k w')).
  { cbn. unfold set_cpu. etransitivity; [apply law_set_regs_vms|].
    etransitivity; [apply law_set_sregs_vms|]. apply law_set_fpu_vms. }
  split; [|split].
  - split; try done; cbn.
    + intros fd Hfd. by rewrite set_cpu_spec, decide_False.
    + intros _. rewrite set_cpu_spec, decide_True by done.
      rewrite (live_cpu _ _ _ _ _ _ L). by eexists.
    + intros b' Hb'. by rewrite lookup_insert_ne.
    + intros l Hl. rewrite (live_heap _ _ _ _ _ _ L) in Hl. injection Hl as <-.
      rewrite lookup_insert_eq. eexists. split; [done|].
      apply splice_length in Es. unfold blen in Es. lia.
  - exists v, b, ram'. split; [done|]. rewrite <- Hbs. by eapply slice_splice_same.
  - exists ram'. split; [|done]. destruct Hsame as [Hv1 Hv2].
    split; try done; [by rewrite Hv1|by rewrite Hv2].
Qed.

(** ** Allocation *)

(** [w'] agrees with [w] on everything virtine [vx] with block [bx] consists of. *)
Record agrees (w w' : world) (x : Z) (vx : Virtine) (bx : Z) : Prop := Agrees {
  ag_obj : w_virtines w' !! x = w_virtines w !! x;
  ag_cpu : k_cpu (w_k w') (m_cpufd vx) = k_cpu (w_k w) (m_cpufd vx);
  ag_vm : k_vm_of (w_k w') (m_cpufd vx) = k_vm_of (w_k w) (m_cpufd vx);
  ag_map : k_map (w_k w') (m_vmfd vx) = k_map (w_k w) (m_vmfd vx);
  ag_heap : w_heap w' !! bx = w_heap w !! bx
}.

Lemma vm_ok_agrees w w' memsz r x vx cx bx rx :
  agrees w w' x vx bx -> vm_ok w memsz r x vx cx bx rx -> vm_ok w' memsz r x vx cx bx rx.
Proof.
  intros [] [[] ? ? ? ? ?]. split; try done; [split; try done|..]; congruence.
Qed.

Lemma clean_agrees w w' memsz r s x vx cx bx rx :
  agrees w w' x vx bx -> vm_ok w memsz r x vx cx bx rx -> clean w s x -> clean w' s x.
Proof.
  intros [] Hv (v1 & b1 & ram1 & L & Hsl).
  assert (v1 = vx) as -> by (destruct Hv as [[] _ _ _ _ _], L; congruence).
  assert (b1 = bx) as -> by (destruct Hv as [[] _ _ _ _ _], L; congruence).
  exists vx, bx, ram1. split; [|done]. destruct L. split; try done; congruence.
Qed.

(** What the part of allocate() before reset() does to the world: a new object
    [v] at [this], a new VCPU and VM, one new block. *)
Record grown (w w' : world) (this : Z) (v : Virtine) (memsz : Z) : Prop := Grown {
  gr_this : this = w_nextv w;
  gr_virtines : w_virtines w' = <[this := v]> (w_virtines w);
  gr_nextv : w_nextv w' = w_nextv w + 1;
  gr_heap : w_heap w' = <[w_next w := replicate (Z.to_nat memsz) 0]> (w_heap w);
  gr_next : w_next w' = w_next w + 1;
  gr_mem : m_mem v = Some (w_next w) /\ m_memsz v = memsz;
  gr_cpu_new : k_cpu (w_k w) (m_cpufd v) = None;
  gr_vm_new : forall fd, k_vm_of (w_k w) fd <> Some (m_vmfd v);
  gr_cpu : forall fd, fd <> m_cpufd v ->
    k_cpu (w_k w') fd = k_cpu (w_k w) fd /\ k_vm_of (w_k w') fd = k_vm_of (w_k w) fd;
  gr_vm : k_vm_of (w_k w') (m_cpufd v) = Some (m_vmfd v);
  gr_map : forall vm, k_map (w_k w') vm =
    if decide (vm = m_vmfd v) then Some (w_next w) else k_map (w_k w) vm;
  gr_boot : exists s f, k_cpu (w_k w') (m_cpufd v) = Some (boot_regs, s, f)
}.

Lemma grown_agrees w w' this v memsz c out r x vx cx bx rx :
  grown w w' this v memsz -> pool_inv w c out ->
  vm_ok w (c_memsz c) r x vx cx bx rx ->
  agrees w w' x vx bx /\ m_cpufd vx <> m_cpufd v /\ m_vmfd vx <> m_vmfd v /\ bx <> w_next w /\
  x <> this.
Proof.
  intros [] [] [[] ? ? ? ? ?].
  assert (x < w_nextv w) by (apply pi_ids0; by eexists).
  assert (bx < w_next w) by (apply pi_fresh0; by eexists).
  assert (Hfd : m_cpufd vx <> m_cpufd v) by congruence.
  assert (Hvm : m_vmfd vx <> m_vmfd v).
  { intros E. apply (gr_vm_new0 (m_cpufd vx)). congruence. }
  split; [|split; [done|split; [done|split; lia]]].
  destruct (gr_cpu0 _ Hfd) as [Ec Ev]. split; try done.
  - rewrite gr_virtines0, lookup_insert_ne by lia. done.
  - rewrite gr_map0, decide_False by done. done.
  - rewrite gr_heap0, lookup_insert_ne by lia. done.
Qed.

Lemma init_reset_inv w c v cpu this c' w' :
  w_virtines w !! this = Some v -> k_cpu (w_k w) (m_cpufd v) = Some cpu ->
  (c_reset c = None -> c_binary c = rm_data img /\ c_binary_size c = Some (rm_size img) /\
     c_binary_start c = Some (rm_address img)) -> init_reset this c w = Ok (c', w') ->
  match c_reset c with
  | Some _ => c' = c /\ w' = w
  | None => c' = with_creset (Some (w_nextr w)) c /\
      w' = World (w_k w) (w_g_kvmfd w) (w_heap w) (w_next w) (w_virtines w) (w_nextv w)
             (<[w_nextr w := MkResetState cpu.1.1 cpu.1.2 cpu.2 [img]]> (w_resets w))
             (w_nextr w + 1) (w_out w)
  end.
Proof.
  intros Hv Hc Hbin. destruct cpu as [[r s] f]. unfold init_reset.
  destruct (c_reset c); [by intros [= <- <-]|]. destruct (Hbin eq_refl) as (Hb & Hs & Ha).
  rewrite (bind_ok _ _ _ _ _ (read_regs_eq _ _ _ _ _ _ Hv Hc)).
  rewrite (bind_ok _ _ _ _ _ (read_sregs_eq _ _ _ _ _ _ Hv Hc)).
  rewrite (bind_ok _ _ _ _ _ (read_fpu_eq _ _ _ _ _ _ Hv Hc)).
  rewrite Hb, Hs, Ha. unfold new_reset_state. unfold_M. intros [= <- <-].
  split; [done|]. by destruct img.
Qed.

(** A virtine left without memory by a failed mmap cannot be reset. *)
Lemma reset_no_memory w this v r s x w' :
  w_virtines w !! this = Some v -> m_mem v = None -> m_reset_mask v = Some r ->
  w_resets w !! r = Some s -> rs_regions s = [img] ->
  region_bytes (w_heap w) img = Some bs -> bs <> [] -> reset this w <> Ok (x, w').
Proof.
  intros Hv Hm Hmask Hs Hreg Him Hne. unfold reset.
  erewrite bind_ok by (unfold get_rst; rewrite Hv, Hmask, Hs; reflexivity).
  erewrite bind_ok by by apply write_regs_eq.
  erewrite bind_ok by by apply write_sregs_eq.
  erewrite bind_ok by by apply write_fpu_eq.
  erewrite bind_ok by by apply get_virtine_eq.
  rewrite Hreg. cbn [copy_regions]. unfold memcpy.
  match goal with |- context [read_bytes _ _ ≫= ?k] => set (kk := k) end.
  unfold mbind at 1, M_bind at 1. cbv beta. unfold mbind at 1, M_bind at 1. cbv beta.
  unfold mbind at 1, M_bind at 1. cbv beta.
  rewrite (read_bytes_eq _ img bs) by exact Him. unfold kk.
  replace (translate v (rm_address img)) with NULL
    by (unfold translate; rewrite Hm; by destruct (_ <? _)).
  unfold write_bytes. pose proof (blen_nonneg bs).
  destruct (Z.eqb_spec (blen bs) 0) as [E|E]; [|done].
  unfold blen in E. destruct bs; [done|cbn in E; lia].
Qed.

Lemma with_creset_same c r : c_reset c = Some r -> c = with_creset (Some r) c.
Proof. intros E. destruct c. unfold with_creset. cbn in *. by subst. Qed.

(** The shared reset state after allocate(): the one the cache had, or a new one. *)
Definition reset_grown (w w' : world) (c : Cache) (r : Z) (s : ResetState) : Prop :=
  w_resets w' !! r = Some s /\ rs_regions s = [img] /\
  match c_reset c with
  | Some r0 => r = r0 /\ w_resets w' = w_resets w /\ w_nextr w' = w_nextr w
  | None => r = w_nextr w /\ w_resets w' = <[r := s]> (w_resets w) /\ w_nextr w' = w_nextr w + 1
  end.

Lemma allocate_grown w c out vid c' w' :
  pool_inv w c out -> allocate c w = Ok ((vid, c'), w') ->
  exists w4 v r s x, grown w w4 vid v (c_memsz c) /\ c' = with_creset (Some r) c /\
    m_reset_mask v = Some r /\ reset_grown w w4 c r s /\ reset vid w4 = Ok (x, w').
Proof.
  intros [] Ha. destruct pi_image0 as (Him & Hne & Hbb & Hadr & Hfit).
  unfold allocate in Ha. apply bind_inv in Ha as (this & w1 & Hn & Ha).
  destruct (new_virtine_inv _ _ _ Hn)
    as (kvmfd & vmfd & cpufd & sr & fp & -> & Hnone & Hvmn & Hcpu & Hvmof & Hoth & Hmap & Hw1).
  set (v1 := MkVirtine None 0 kvmfd vmfd cpufd (Some _) None) in *.
  assert (Hv1 : w_virtines w1 !! w_nextv w = Some v1) by (rewrite Hw1; apply lookup_insert_eq).
  apply bind_inv in Ha as (c1 & w2 & Hi & Ha).
  pose proof (init_reset_inv _ _ _ _ _ _ _ Hv1 Hcpu pi_binary0 Hi) as Hi'.
  assert (exists r s, c1 = with_creset (Some r) c /\ reset_grown w w2 c r s /\
            w_k w2 = w_k w1 /\ w_heap w2 = w_heap w /\ w_next w2 = w_next w /\
            w_virtines w2 = <[w_nextv w := v1]> (w_virtines w) /\ w_nextv w2 = w_nextv w + 1)
    as (r & s & -> & Hrg & Ek2 & Eh2 & En2 & Ev2 & Env2).
  { unfold reset_grown. destruct (c_reset c) as [r|] eqn:Er.
    - destruct Hi' as [-> ->]. destruct pi_reset0 as (s & Hs & Hreg & _).
      exists r, s. rewrite Hw1. cbn. split; [by apply with_creset_same|]. done.
    - destruct Hi' as [-> ->]. eexists _, _. cbn. rewrite Hw1. cbn.
      split; [reflexivity|]. split; [|done]. rewrite lookup_insert_eq. done. }
  cbn [c_reset with_creset c_memsz] in Ha.
  apply bind_inv in Ha as ([] & w3 & Hm & Ha).
  unfold set_reset_mask in Hm. erewrite bind_ok in Hm
    by (apply get_virtine_eq; rewrite Ev2; apply lookup_insert_eq).
  unfold put_virtine in Hm. unfold_M. injection Hm as <-.
  set (w3 := with_virtines _ w2) in *. set (v3 := with_mask (Some r) v1) in *.
  assert (Hv3 : w_virtines w3 !! w_nextv w = Some v3) by apply lookup_insert_eq.
  destruct (allocate_memory (w_nextv w) (c_memsz c) w3) as [[ok w4]|] eqn:Eam; [|done].
  destruct (reset (w_nextv w) w4) as [[x w5]|] eqn:Ers; [|done]. injection Ha as <- <- <-.
  destruct pi_memsz0 as [[Hm0 Hm1] Hal].
  destruct (k_mmap_ok (w_k w3) (c_memsz c)) eqn:Emm.
  2:{ exfalso. revert Eam. unfold allocate_memory. zdecide.
      rewrite (proj2 (page_aligned (c_memsz c)) Hal). cbn [negb Z.eqb]. unfold_M. rewrite Emm.
      intros [= _ <-]. destruct Hrg as (Hr1 & Hr2 & _).
      eapply (reset_no_memory w3 (w_nextv w) v3 r s x w5); try done. cbn. by rewrite Eh2. }
  rewrite (allocate_memory_ok _ _ _ _ Hv3 Hm0 Hal Emm) in Eam. injection Eam as _ <-.
  exists (allocated w3 (w_nextv w) v3 (c_memsz c)), (with_mem (Some (w_next w3)) (c_memsz c) v3), r, s, x.
  destruct (law_set_memory (w_k w3) (m_vmfd v3) (c_memsz c) (w_next w3) 0) as (Lc & Lv & Lm).
  split; [|done].
  split; cbn; rewrite ?Ev2, ?Eh2, ?En2, ?Env2, ?insert_insert_eq; try done.
  - intros fd Hfd. rewrite <- En2. specialize (Lc fd). specialize (Lv fd). cbn in Lc, Lv.
    rewrite Lc, Lv, Ek2. by apply Hoth.
  - rewrite <- En2. specialize (Lv cpufd). cbn in Lv. by rewrite Lv, Ek2.
  - intros vm. rewrite <- En2. specialize (Lm vm). cbn in Lm. rewrite Lm, Ek2, Hmap. done.
  - exists sr, fp. rewrite <- En2. specialize (Lc cpufd). cbn in Lc. by rewrite Lc, Ek2.
Qed.

Lemma grown_vm_ok w w4 vid v c out r :
  grown w w4 vid v (c_memsz c) -> pool_inv w c out -> m_reset_mask v = Some r ->
  exists cpu, vm_ok w4 (c_memsz c) r vid v cpu (w_next w) (replicate (Z.to_nat (c_memsz c)) 0).
Proof.
  intros [] [] Hm. destruct gr_boot0 as (sr & fp & Hboot), gr_mem0 as [Hm1 Hm2].
  destruct pi_memsz0 as [Hsz _]. destruct pi_image0 as (Him & Hne & Hbb & _).
  exists (boot_regs, sr, fp). split; try done.
  - split; try done; unfold blen; rewrite ?length_replicate; try lia.
    + rewrite gr_virtines0. apply lookup_insert_eq.
    + rewrite gr_heap0. apply lookup_insert_eq.
  - (* the image was there before the new block *)
    destruct (rm_data img) as [|b' off] eqn:Ed; [done|]. subst b'.
    unfold region_bytes in Him. rewrite Ed in Him.
    assert (Hin : is_Some (w_heap w !! bb)).
    { destruct (rm_size img =? 0); [|by destruct (w_heap w !! bb)]. congruence. }
    destruct pi_fresh0 as [Hf _]. specialize (Hf _ Hin). lia.
  - rewrite gr_map0, decide_True by done. done.
Qed.

(** After the new object exists but before it is reset, it counts as handed out. *)
Lemma grown_inv w w4 vid v c out r s :
  grown w w4 vid v (c_memsz c) -> pool_inv w c out -> m_reset_mask v = Some r ->
  reset_grown w w4 c r s -> pool_inv w4 (with_creset (Some r) c) (vid :: out).
Proof.
  intros G I Hm (Hr1 & Hr2 & Hr3). pose proof (grown_vm_ok _ _ _ _ _ _ _ G I Hm) as (cpu & Hvo).
  pose proof (fun x vx cx bx rx => grown_agrees w w4 vid v (c_memsz c) c out r x vx cx bx rx G I) as Hag.
  pose proof I as []. pose proof G as []. pose proof pi_image0 as (Him & Hne & Hbb & Hadr & Hfit).
  assert (Hall : forall x, x ∈ c_pool c ++ out -> exists vx cx bx rx,
             vm_ok w (c_memsz c) r x vx cx bx rx).
  { intros x Hx. destruct (c_reset c) as [r0|].
    - destruct Hr3 as [-> _], pi_reset0 as (s0 & _ & _ & H & _). by apply H.
    - rewrite pi_reset0 in Hx. set_solver. }
  assert (Hmem : forall x, x ∈ c_pool c ++ vid :: out <-> x = vid \/ x ∈ c_pool c ++ out)
    by set_solver.
  assert (Hvid : vid ∉ c_pool c ++ out).
  { intros Hx. destruct (Hall _ Hx) as (vx & cx & bx & rx & Hvx).
    by destruct (Hag _ _ _ _ _ Hvx) as (_ & _ & _ & _ & ?). }
  split; cbn [c_memsz c_binary c_binary_size c_binary_start c_pool c_reset with_creset]; try done.
  - rewrite (region_bytes_frame (w_heap w) (w_heap w4) (w_next w)); try done.
    + apply Hvo.
    + intros b' Hb'. by rewrite gr_heap0, lookup_insert_ne.
  - destruct pi_fresh0 as [Hf1 Hf2]. split.
    + intros b. rewrite gr_heap0, gr_next0. intros Hb. destruct (decide (b = w_next w)); [lia|].
      rewrite lookup_insert_ne in Hb by done. specialize (Hf1 _ Hb). lia.
    + intros i vi b. rewrite gr_virtines0, gr_next0. destruct (decide (i = vid)) as [->|].
      * rewrite lookup_insert_eq. intros [= <-] Hb. rewrite (proj1 gr_mem0) in Hb.
        injection Hb as <-. lia.
      * rewrite lookup_insert_ne by done. intros Hi Hb. specialize (Hf2 _ _ _ Hi Hb). lia.
  - destruct pi_ids0 as [H1 H2]. split.
    + intros i. rewrite gr_virtines0, gr_nextv0. destruct (decide (i = vid)); [lia|].
      rewrite lookup_insert_ne by done. intros Hi. specialize (H1 _ Hi). lia.
    + intros r'. destruct (c_reset c); [destruct Hr3 as (_ & -> & ->); apply H2|].
      destruct Hr3 as (-> & -> & ->). destruct (decide (r' = w_nextr w)); [lia|].
      rewrite lookup_insert_ne by done. intros Hi. specialize (H2 _ Hi). lia.
  - rewrite <- Permutation_middle. by constructor.
  - intros i j vi vj [->|Hi]%Hmem [->|Hj]%Hmem Hij Hvi Hvj; [done| | |].
    1: destruct (Hall _ Hj) as (vx & cx & bx & rx & Hvx).
    2: destruct (Hall _ Hi) as (vx & cx & bx & rx & Hvx).
    1-2: destruct (Hag _ _ _ _ _ Hvx) as ([] & ? & ? & ? & ?);
         pose proof (live_obj _ _ _ _ _ _ (vo_live _ _ _ _ _ _ _ _ Hvx)) as Ho;
         pose proof (live_mem _ _ _ _ _ _ (vo_live _ _ _ _ _ _ _ _ Hvx)) as Hmm;
         pose proof (live_obj _ _ _ _ _ _ (vo_live _ _ _ _ _ _ _ _ Hvo)) as Ho';
         destruct gr_mem0; simplify_eq; repeat split; congruence.
    rewrite gr_virtines0, lookup_insert_ne in Hvi by (intros <-; done).
    rewrite gr_virtines0, lookup_insert_ne in Hvj by (intros <-; done). eauto.
  - exists s. split; [done|]. split; [done|]. split.
    + intros x [->|Hx]%Hmem; [eauto 10|]. destruct (Hall _ Hx) as (vx & cx & bx & rx & Hvx).
      exists vx, cx, bx, rx. eapply vm_ok_agrees; [by eapply Hag|done].
    + intros x Hx. destruct (Hall x ltac:(set_solver)) as (vx & cx & bx & rx & Hvx).
      eapply clean_agrees; [by eapply Hag|done|].
      destruct (c_reset c) as [r0|].
      * destruct Hr3 as (-> & E & _), pi_reset0 as (s0 & Hs0 & _ & _ & Hc).
        rewrite E, Hs0 in Hr1. injection Hr1 as <-. by apply Hc.
      * apply app_eq_nil in pi_reset0 as [E _]. rewrite E in Hx. set_solver.
Qed.

(** The invariant depends on the pool only up to who is clean. *)
Lemma pool_inv_move w c out c' out' :
  pool_inv w c out -> c_memsz c' = c_memsz c -> c_binary c' = c_binary c ->
  c_binary_size c' = c_binary_size c -> c_binary_start c' = c_binary_start c ->
  c_reset c' = c_reset c -> c_pool c' ++ out' ≡ₚ c_pool c ++ out ->
  (forall r s vid, c_reset c = Some r -> w_resets w !! r = Some s ->
     vid ∈ c_pool c' -> vid ∉ c_pool c -> clean w s vid) ->
  pool_inv w c' out'.
Proof.
  intros [] E1 E2 E3 E4 E5 Hp Hc.
  assert (Hin : forall x, x ∈ c_pool c' ++ out' <-> x ∈ c_pool c ++ out) by (intros; by rewrite Hp).
  split; rewrite ?E1, ?E2, ?E3, ?E4, ?E5; try done.
  - by rewrite Hp.
  - intros i j vi vj Hi Hj. apply Hin in Hi, Hj. eauto.
  - destruct (c_reset c) as [r|].
    + destruct pi_reset0 as (s & Hs & Hreg & Hall & Hcl). exists s.
      split; [done|]. split; [done|]. split.
      * intros x Hx. apply Hall. by apply Hin.
      * intros x Hx. destruct (decide (x ∈ c_pool c)); [by apply Hcl|]. by eapply Hc.
    + apply Permutation_nil. by rewrite <- pi_reset0, Hp.
Qed.

(** A virtine fresh from allocate() is clean, and zero outside the image. *)
Lemma allocate_inv w c out vid c' w' :
  pool_inv w c out -> allocate c w = Ok ((vid, c'), w') ->
  exists r s v b ram, c' = with_creset (Some r) c /\ w_resets w' !! r = Some s /\
    pool_inv w' c' (vid :: out) /\ clean w' s vid /\ vid ∉ c_pool c ++ out /\
    vm_ok w' (c_memsz c) r vid v (rs_regs s, rs_sregs s, rs_fpu s) b ram /\
    splice (rm_address img) bs (replicate (Z.to_nat (c_memsz c)) 0) = Some ram.
Proof.
  intros I Ha. destruct (allocate_grown _ _ _ _ _ _ I Ha)
    as (w4 & v & r & s & x & G & -> & Hm & Hrg & Hr).
  pose proof (grown_inv _ _ _ _ _ _ _ _ G I Hm Hrg) as I4.
  destruct (grown_vm_ok _ _ _ _ _ _ _ G I Hm) as (cpu & Hvo).
  pose proof (pi_image _ _ _ I4) as (Him & Hne & Hbb & Hadr & Hfit). cbn in Hfit.
  destruct Hrg as (Hr1 & Hr2 & _).
  destruct (reset_cleans _ _ _ _ _ _ _ _ _ _ _ Hvo Hr1 Hr2 Him Hne Hbb Hadr Hfit Hr)
    as (Hls & Hcl & ram & Hvo' & Hsp).
  exists r, s, v, (w_next w), ram. split; [done|].
  split; [by rewrite (ls_resets _ _ _ _ Hls)|]. split; [|split; [done|split; [|done]]].
  - eapply (pool_inv_local w4 w' _ _ vid v (w_next w)); try done; [set_solver|apply Hvo|apply Hvo].
  - pose proof (pi_nodup _ _ _ I4) as Hnd. cbn in Hnd.
    rewrite <- Permutation_middle in Hnd. by inversion Hnd.
Qed.

Lemma get_inv w c out vid c' w' :
  pool_inv w c out -> get c w = Ok ((vid, c'), w') ->
  pool_inv w' c' (vid :: out) /\ c_locked c' = false /\ c_caches c' = c_caches c /\
  vid ∉ out /\ exists r s, c_reset c' = Some r /\ w_resets w' !! r = Some s /\ clean w' s vid.
Proof.
  intros I Hg. unfold get, lock, get_cache in Hg. unfold_M.
  destruct (c_locked c); [done|]. cbn [c_pool with_locked] in Hg.
  destruct (c_pool c) as [|x rest] eqn:Ep; cbn in Hg.
  - set (c1 := with_counts _ _ _) in Hg.
    assert (I1 : pool_inv w c1 out) by (eapply pool_inv_move; [exact I|done..|]; set_solver).
    destruct (allocate c1 w) as [[[v c2] w2]|] eqn:Ea; [|done]. injection Hg as <- <- <-.
    destruct (allocate_inv _ _ _ _ _ _ I1 Ea)
      as (r & s & v' & b & ram & -> & Hs & I2 & Hcl & Hnew & _).
    split; [|split; [done|split; [done|split; [set_solver|eauto 10]]]].
    eapply pool_inv_move; [exact I2|done..|]. set_solver.
  - injection Hg as <- <- <-.
    pose proof I as []. rewrite Ep in pi_nodup0.
    destruct (c_reset c) as [r|] eqn:Er; [|rewrite Ep in pi_reset0; done].
    destruct pi_reset0 as (s & Hs & _ & _ & Hcl).
    split; [|split; [done|split; [done|split]]].
    + eapply pool_inv_move; [exact I|done..| |]; cbn; rewrite ?Ep; [|set_solver].
      cbn. by rewrite <- Permutation_middle.
    + inversion_clear pi_nodup0. set_solver.
    + exists r, s. split; [done|]. split; [done|]. apply Hcl. rewrite Ep. set_solver.
Qed.

(** A block that is no virtine's memory is none of get()'s business. *)
Lemma get_frame w c out vid c' w' a l :
  pool_inv w c out -> get c w = Ok ((vid, c'), w') -> w_heap w !! a = Some l ->
  (forall i v, w_virtines w !! i = Some v -> m_mem v <> Some a) ->
  w_heap w' !! a = Some l /\ forall i v, w_virtines w' !! i = Some v -> m_mem v <> Some a.
Proof.
  intros I Hg Ha Hno. unfold get, lock, get_cache in Hg. unfold_M.
  destruct (c_locked c); [done|]. cbn [c_pool with_locked] in Hg.
  destruct (c_pool c) as [|x rest] eqn:Ep; cbn in Hg; [|injection Hg as <- <- <-; by eauto].
  set (c1 := with_counts _ _ _) in Hg.
  assert (I1 : pool_inv w c1 out) by (eapply pool_inv_move; [exact I|done..|]; set_solver).
  destruct (allocate c1 w) as [[[v c2] w2]|] eqn:Ea; [|done]. injection Hg as <- <- <-.
  destruct (allocate_grown _ _ _ _ _ _ I1 Ea) as (w4 & vo & r & s & x & G & -> & Hm & Hrg & Hr).
  pose proof (grown_inv _ _ _ _ _ _ _ _ G I1 Hm Hrg) as I4.
  destruct (grown_vm_ok _ _ _ _ _ _ _ G I1 Hm) as (cpu & Hvo).
  pose proof (pi_image _ _ _ I4) as (Him & Hne & Hbb & Hadr & Hfit). cbn in Hfit.
  destruct Hrg as (Hr1 & Hr2 & _).
  destruct (reset_cleans _ _ _ _ _ _ _ _ _ _ _ Hvo Hr1 Hr2 Him Hne Hbb Hadr Hfit Hr) as (Hls & _).
  assert (a < w_next w) by (apply (pi_fresh _ _ _ I); by eexists).
  split.
  - rewrite (ls_heap _ _ _ _ Hls) by lia. rewrite (gr_heap _ _ _ _ _ G).
    by rewrite lookup_insert_ne by lia.
  - rewrite (ls_virtines _ _ _ _ Hls), (gr_virtines _ _ _ _ _ G). intros i vi Hi.
    apply lookup_insert_Some in Hi as [[_ <-]|[_ Hi]]; [|by eapply Hno].
    rewrite (proj1 (gr_mem _ _ _ _ _ G)). intros [= E]. lia.
Qed.

(** What get() leaves in the pool. *)
Lemma get_rest w c out vid c' w' :
  pool_inv w c out -> get c w = Ok ((vid, c'), w') ->
  c_pool c' = tail (c_pool c) /\ c_memsz c' = c_memsz c /\
  (forall r, c_reset c = Some r -> c_reset c' = Some r).
Proof.
  intros I Hg. unfold get, lock, get_cache in Hg. unfold_M.
  destruct (c_locked c); [done|]. cbn [c_pool with_locked] in Hg.
  destruct (c_pool c) as [|x rest] eqn:Ep; cbn in Hg; [|injection Hg as <- <- <-; done].
  set (c1 := with_counts _ _ _) in Hg.
  assert (I1 : pool_inv w c1 out) by (eapply pool_inv_move; [exact I|done..|]; set_solver).
  destruct (allocate c1 w) as [[[v c2] w2]|] eqn:Ea; [|done]. injection Hg as <- <- <-.
  destruct (allocate_grown _ _ _ _ _ _ I1 Ea) as (w4 & vo & r & s & x & G & -> & Hm & (_ & _ & Hrg) & Hr).
  split; [done|]. split; [done|]. intros r0 E. cbn in Hrg. rewrite E in Hrg. by destruct Hrg as [-> _].
Qed.

Lemma put_inv w c out1 vid out2 c' w' :
  pool_inv w c (out1 ++ vid :: out2) -> put vid c w = Ok (c', w') ->
  pool_inv w' c' (out1 ++ out2) /\ c_locked c' = false /\ c_caches c' = c_caches c.
Proof.
  intros I Hp. unfold put in Hp. apply bind_inv in Hp as (x & w1 & Hr & Hp).
  pose proof I as []. pose proof pi_image0 as (Him & Hne & Hbb & Hadr & Hfit).
  assert (Hin : vid ∈ c_pool c ++ out1 ++ vid :: out2) by set_solver.
  destruct (c_reset c) as [r|] eqn:Er; [|rewrite pi_reset0 in Hin; set_solver].
  destruct pi_reset0 as (s & Hs & Hreg & Hall & Hcl).
  destruct (Hall _ Hin) as (v & cpu & b & ram & Hvo).
  destruct (reset_cleans _ _ _ _ _ _ _ _ _ _ _ Hvo Hs Hreg Him Hne Hbb Hadr Hfit Hr)
    as (Hls & Hclean & _).
  assert (I1 : pool_inv w1 c (out1 ++ vid :: out2)).
  { eapply (pool_inv_local w w1 _ _ vid v b); try done; [set_solver|apply Hvo|apply Hvo]. }
  unfold lock in Hp. unfold_M. destruct (c_locked c); [done|]. injection Hp as <- <-.
  split; [|done]. eapply pool_inv_move; [exact I1|done..| |]; cbn.
  - rewrite <- app_assoc. cbn. apply Permutation_app_head, Permutation_middle.
  - intros r' s' y Hr' Hs' Hy Hny. rewrite Er in Hr'. injection Hr' as <-.
    assert (y = vid) as -> by set_solver.
    rewrite (ls_resets _ _ _ _ Hls), Hs in Hs'. by injection Hs' as <-.
Qed.

Lemma ensure_loop_inv fuel : forall count w c out c' w',
  pool_inv w c out -> ensure_loop fuel count c w = Ok (c', w') ->
  pool_inv w' c' out /\ c_caches c' = c_caches c.
Proof.
  induction fuel as [|fuel IH]; intros count w c out c' w' I He; cbn in He;
    destruct (blen (get_cache c) <? u64 count); try done; try by injection He as <- <-.
  apply bind_inv in He as ([v c1] & w1 & Ha & He).
  destruct (allocate_inv _ _ _ _ _ _ I Ha)
    as (r & s & v' & b & ram & -> & Hs & I1 & Hcl & Hnew & _).
  apply (IH _ _ _ out) in He; [done|].
  eapply pool_inv_move; [exact I1|done..| |]; cbn.
  - by rewrite <- Permutation_middle.
  - intros r' s' y [= <-] Hs' Hy Hny. assert (y = v) as -> by set_solver. congruence.
Qed.

Lemma ensure_inv fuel count w c out c' w' :
  pool_inv w c out -> ensure fuel count c w = Ok (c', w') ->
  pool_inv w' c' out /\ c_locked c' = false /\ c_caches c' = c_caches c.
Proof.
  intros I He. unfold ensure, lock in He. unfold_M. destruct (c_locked c); [done|].
  destruct (ensure_loop fuel count (with_locked true c) w) as [[c1 w1]|] eqn:El; [|done].
  injection He as <- <-. apply (ensure_loop_inv _ _ _ _ out) in El as [I1 Hc].
  - split; [|done]. eapply pool_inv_move; [exact I1|done..|]. set_solver.
  - eapply pool_inv_move; [exact I|done..|]. set_solver.
Qed.

(** ** The cache in use

    The steps of a program that uses one cache: the cache's own operations, and
    what happens to a virtine between get() and put(): it runs, and the host
    writes its registers or its memory. *)

Inductive cache_step : world * Cache * list Z -> world * Cache * list Z -> Prop :=
| step_get w c out v c' w' :
    get c w = Ok ((v, c'), w') -> cache_step (w, c, out) (w', c', v :: out)
| step_put w c out1 v out2 c' w' :
    put v c w = Ok (c', w') -> cache_step (w, c, out1 ++ v :: out2) (w', c', out1 ++ out2)
| step_ensure w c out fuel count c' w' :
    ensure fuel count c w = Ok (c', w') -> cache_step (w, c, out) (w', c', out)
| step_run w c out v e w' :
    v ∈ out -> run v w = Ok (e, w') -> cache_step (w, c, out) (w', c, out)
| step_write_regs w c out v regs w' :
    v ∈ out -> write_regs v regs w = Ok (tt, w') -> cache_step (w, c, out) (w', c, out)
| step_write_ram w c out v vo addr bytes w' :
    v ∈ out -> w_virtines w !! v = Some vo -> 0 <= addr ->
    write_bytes (translate vo addr) bytes w = Ok (tt, w') -> cache_step (w, c, out) (w', c, out).

Definition cache_ok (st : world * Cache * list Z) : Prop :=
  let '(w, c, out) := st in
  pool_inv w c out /\ c_locked c = false /\ c_caches c = ∅.

Lemma pool_inv_out w c out v :
  pool_inv w c out -> v ∈ out ->
  exists r vo cpu b ram, vm_ok w (c_memsz c) r v vo cpu b ram.
Proof.
  intros [] Hv. destruct (c_reset c) as [r|].
  - destruct pi_reset0 as (s & _ & _ & Hall & _).
    destruct (Hall v ltac:(set_solver)) as (vo & cpu & b & ram & H). eauto 10.
  - apply app_eq_nil in pi_reset0 as [_ ->]. set_solver.
Qed.

Lemma local_ok w c out v vo b w' :
  cache_ok (w, c, out) -> v ∈ out -> w_virtines w !! v = Some vo -> m_mem vo = Some b ->
  local_step w w' vo b -> cache_ok (w', c, out).
Proof. intros (I & Hl & Hc) Hv Ho Hm Hs. split; [|done]. by eapply pool_inv_local. Qed.

Lemma cache_step_ok st st' : cache_step st st' -> cache_ok st -> cache_ok st'.
Proof.
  intros Hs Hok. destruct Hs as [w c out v c' w' Hg|w c out1 v out2 c' w' Hp
    |w c out fuel count c' w' He|w c out v e w' Hv Hr|w c out v regs w' Hv Hr
    |w c out v vo addr bytes w' Hv Ho Ha Hr].
  - destruct Hok as (I & Hl & Hc). destruct (get_inv _ _ _ _ _ _ I Hg) as (? & ? & ? & _).
    split; [done|]. split; congruence.
  - destruct Hok as (I & Hl & Hc). destruct (put_inv _ _ _ _ _ _ _ I Hp) as (? & ? & ?).
    split; [done|]. split; congruence.
  - destruct Hok as (I & Hl & Hc). destruct (ensure_inv _ _ _ _ _ _ _ I He) as (? & ? & ?).
    split; [done|]. split; congruence.
  - destruct (pool_inv_out _ _ _ _ (proj1 Hok) Hv) as (r & vo & cpu & b & ram & Hvo).
    eapply local_ok; [done..|apply Hvo|apply Hvo|by eapply run_local].
  - destruct (pool_inv_out _ _ _ _ (proj1 Hok) Hv) as (r & vo & cpu & b & ram & Hvo).
    eapply local_ok; [done..|apply Hvo|apply Hvo|by eapply write_regs_local].
  - destruct (pool_inv_out _ _ _ _ (proj1 Hok) Hv) as (r & vo' & cpu & b & ram & Hvo).
    assert (vo' = vo) as -> by (destruct Hvo as [[] _ _ _ _ _]; congruence).
    unfold translate in Hr. destruct (m_memsz vo <? u64 addr);
      [|rewrite (live_mem _ _ _ _ _ _ (vo_live _ _ _ _ _ _ _ _ Hvo)) in Hr].
    + assert (w' = w) as ->.
      { unfold write_bytes in Hr. destruct (blen bytes =? 0); congruence. }
      done.
    + eapply local_ok; [done..|apply Hvo|by eapply write_ram_local].
Qed.

Lemma reachable_ok st st' : rtc cache_step st st' -> cache_ok st -> cache_ok st'.
Proof. induction 1; [done|]. intros. eauto using cache_step_ok. Qed.

End Image.

Section CacheTheorems.
Context {Hlaws : HostLaws}.

(** C5: however a program mixes get(), put(), ensure(), running the virtines it
    holds and writing their registers and memory, the lock is free between two
    operations, get() succeeds without the kernel's help while the pool has a
    virtine, and what get() hands out is a virtine that nobody else holds and
    that is clean: its registers are those of the cache's reset state and the
    image is intact at its address. *)
Theorem reachable_get_clean img bb bs w0 c0 w c out :
  pool_inv img bb bs w0 c0 [] -> c_locked c0 = false -> c_caches c0 = ∅ ->
  rtc cache_step (w0, c0, []) (w, c, out) ->
  (forall v rest, c_pool c = v :: rest -> exists c', get c w = Ok ((v, c'), w)) /\
  (forall vid c' w', get c w = Ok ((vid, c'), w') ->
     vid ∉ out /\ exists r s, c_reset c' = Some r /\ w_resets w' !! r = Some s /\
       rs_regions s = [img] /\ clean img bs w' s vid).
Proof.
  intros I Hl Hc Hr.
  destruct (reachable_ok img bb bs _ _ Hr) as (I' & Hl' & _); [done|]. split.
  - intros v rest Hp. unfold get, lock, get_cache. rewrite Hl'. unfold_M. cbn. rewrite Hp. eauto.
  - intros vid c' w' Hg.
    destruct (get_inv img bb bs _ _ _ _ _ _ I' Hg) as (I2 & _ & _ & Hout & r & s & Hrs & Hs & Hcl).
    split; [done|]. exists r, s. destruct I2. rewrite Hrs in pi_reset0.
    destruct pi_reset0 as (s' & Hs' & Hreg & _). assert (s' = s) as -> by congruence. done.
Qed.

(** C6: two virtines of one cache, pooled or handed out, never share a VCPU, a
    VM or a memory block, so that a guest can reach no other guest's memory. *)
Theorem reachable_isolated img bb bs w0 c0 w c out i j vi vj :
  pool_inv img bb bs w0 c0 [] -> c_locked c0 = false -> c_caches c0 = ∅ ->
  rtc cache_step (w0, c0, []) (w, c, out) ->
  i ∈ c_pool c ++ out -> j ∈ c_pool c ++ out -> i <> j ->
  w_virtines w !! i = Some vi -> w_virtines w !! j = Some vj ->
  m_cpufd vi <> m_cpufd vj /\
  exists bi bj, k_ram (w_k w) (m_cpufd vi) = Some bi /\ m_mem vi = Some bi /\
                k_ram (w_k w) (m_cpufd vj) = Some bj /\ m_mem vj = Some bj /\ bi <> bj.
Proof.
  intros I Hl Hc Hr Hi Hj Hne Hvi Hvj.
  destruct (reachable_ok img bb bs _ _ Hr) as ([] & _ & _); [done|].
  destruct (pi_sep0 i j vi vj Hi Hj Hne Hvi Hvj) as (Hcpu & _ & Hmem). split; [done|].
  destruct (c_reset c) as [r|]; [|rewrite pi_reset0 in Hi; set_solver].
  destruct pi_reset0 as (s & _ & _ & Hall & _).
  destruct (Hall i Hi) as (vi' & ci & bi & ri & [[] _ _ _ Hvm1 Hmap1]).
  destruct (Hall j Hj) as (vj' & cj & bj & rj & [[] _ _ _ Hvm2 Hmap2]).
  assert (vi' = vi) as -> by congruence. assert (vj' = vj) as -> by congruence.
  exists bi, bj. unfold k_ram. rewrite Hvm1, Hmap1, Hvm2, Hmap2.
  repeat split; try done. congruence.
Qed.

(** What a virtine left in its memory outside the image is still there for
    the next user. Putting a virtine into an empty pool and getting it back
    succeeds, restores registers and image, and keeps every other byte of its
    memory. *)
Theorem put_get_retains img bb bs w c out vid v cpu b ram :
  pool_inv img bb bs w c (vid :: out) -> c_locked c = false -> c_pool c = [] ->
  live w vid v cpu b ram ->
  exists c1 w1 r s ram' c2, put vid c w = Ok (c1, w1) /\ get c1 w1 = Ok ((vid, c2), w1) /\
    c_reset c = Some r /\ w_resets w1 !! r = Some s /\
    live w1 vid v (rs_regs s, rs_sregs s, rs_fpu s) b ram' /\
    slice (rm_address img) (rm_size img) ram' = Some bs /\
    forall i : nat, ~ (rm_address img <= Z.of_nat i < rm_address img + rm_size img) ->
      ram' !! i = ram !! i.
Proof.
  intros I Hlk Hpool L. pose proof I as [].
  pose proof pi_image0 as (Him & Hne & Hbb & Hadr & Hfit).
  destruct (c_reset c) as [r|] eqn:Er; [|rewrite Hpool in pi_reset0; done].
  destruct pi_reset0 as (s & Hs & Hreg & Hall & _).
  destruct (Hall vid ltac:(set_solver)) as (v0 & cpu0 & b0 & ram0 & Hvo).
  destruct (reset_succeeds img bb bs _ _ _ _ _ _ _ _ _ Hvo Hs Hreg Him Hne Hbb Hadr Hfit)
    as [w1 Hr].
  destruct (reset_cleans img bb bs _ _ _ _ _ _ _ _ _ _ _ Hvo Hs Hreg Him Hne Hbb Hadr Hfit Hr)
    as (Hls & _ & ram' & Hvo' & Hsp).
  destruct Hvo as [L0 _ _ _ _ _].
  assert (v0 = v) as -> by (destruct L, L0; congruence).
  assert (b0 = b) as -> by (destruct L, L0; congruence).
  assert (ram0 = ram) as -> by (destruct L, L0; congruence).
  do 2 eexists. exists r, s, ram'. eexists. split.
  { unfold put. rewrite (bind_ok _ _ _ _ _ Hr). unfold lock, get_cache. rewrite Hlk. unfold_M.
    cbn. rewrite Hpool. reflexivity. }
  split; [unfold get, lock, get_cache; unfold_M; reflexivity|]. split; [done|].
  split; [by rewrite (ls_resets _ _ _ _ Hls)|]. split; [apply Hvo'|].
  pose proof (image_size img bs _ Him) as Hbs. split.
  - rewrite <- Hbs. by eapply slice_splice_same.
  - intros i Hi. rewrite (splice_lookup _ _ _ _ _ Hsp), Hbs. by rewrite decide_False.
Qed.

(** ** ensure() *)

Lemma allocate_pool c w v c' w' : allocate c w = Ok ((v, c'), w') -> c_pool c' = c_pool c.
Proof.
  intros Ha. unfold allocate in Ha. apply bind_inv in Ha as (x & w1 & _ & Ha).
  apply bind_inv in Ha as (c1 & w2 & Hi & Ha). apply bind_inv in Ha as (? & ? & _ & Ha).
  apply bind_inv in Ha as (? & ? & _ & Ha). apply bind_inv in Ha as (? & ? & _ & Ha).
  injection Ha as _ <- _. unfold init_reset in Hi. destruct (c_reset c); [by injection Hi as <- _|].
  do 5 apply bind_inv in Hi as (? & ? & _ & Hi). apply bind_inv in Hi as (? & ? & _ & Hi).
  by injection Hi as <- _.
Qed.

Lemma ensure_loop_size fuel : forall count c w c' w',
  ensure_loop fuel count c w = Ok (c', w') ->
  blen (c_pool c') = Z.max (blen (c_pool c)) (u64 count) /\
  u64 count <= blen (c_pool c) + Z.of_nat fuel.
Proof.
  induction fuel as [|fuel IH]; intros count c w c' w'; cbn [ensure_loop];
    destruct (Z.ltb_spec (blen (get_cache c)) (u64 count)) as [Hlt|Hge]; unfold get_cache in *.
  - done.
  - intros [= <- <-]. lia.
  - intros He. apply bind_inv in He as ([v c1] & w1 & Ha & He).
    apply IH in He. rewrite <- (allocate_pool _ _ _ _ _ Ha) in *. cbn in He.
    unfold blen in *. cbn [length] in He. lia.
  - intros [= <- <-]. lia.
Qed.

(** A computation that contains no unbounded loop: its only failures are faults
    and exceptions. *)
Definition no_hang {A} (m : M world A) : Prop := forall w, m w <> Err OutOfFuel.

Lemma no_hang_bind {A B} (m : M world A) (f : A -> M world B) :
  no_hang m -> (forall a, no_hang (f a)) -> no_hang (m ≫= f).
Proof.
  intros Hm Hf w. unfold_M. destruct (m w) as [[a w']|e] eqn:E; [apply Hf|].
  intros [= ->]. by apply (Hm w).
Qed.

Lemma write_bytes_no_hang p bytes : no_hang (write_bytes p bytes).
Proof. intros w. unfold write_bytes. by repeat destr_match. Qed.

Lemma copy_regions_no_hang v rs : no_hang (copy_regions v rs).
Proof.
  induction rs as [|r rs IH]; cbn; [done|].
  apply no_hang_bind; [|done]. unfold memcpy. apply no_hang_bind; [|intros; apply write_bytes_no_hang].
  intros w. unfold read_bytes. by repeat destr_match.
Qed.

Lemma get_virtine_no_hang i : no_hang (get_virtine i).
Proof. intros w. unfold get_virtine. by destr_match. Qed.

Lemma cpu_of_no_hang i : no_hang (cpu_of i).
Proof. intros w. unfold cpu_of. by repeat destr_match. Qed.

#[local] Hint Resolve no_hang_bind get_virtine_no_hang cpu_of_no_hang copy_regions_no_hang : nohang.
#[local] Hint Extern 1 (no_hang (mret _)) => (intros ?; done) : nohang.
#[local] Hint Extern 1 (no_hang (modify _)) => (intros ?; done) : nohang.
#[local] Hint Extern 1 (no_hang (fail_with (Thrown _))) => (intros ?; done) : nohang.
#[local] Hint Extern 1 (no_hang get_st) => (intros ?; done) : nohang.

Lemma reset_no_hang i : no_hang (reset i).
Proof.
  unfold reset, write_regs, write_sregs, write_fpu. apply no_hang_bind.
  - intros w. unfold get_rst. by repeat destr_match.
  - intros s. eauto 12 with nohang.
Qed.

Lemma allocate_memory_no_hang i sz : no_hang (allocate_memory i sz).
Proof.
  unfold allocate_memory, free_block, put_virtine.
  destruct (sz =? 0); [eauto with nohang|]. destr_match; [eauto with nohang|].
  apply no_hang_bind; [eauto with nohang|]. intros w. destr_match; [eauto with nohang|].
  apply no_hang_bind; [by intros ?|]. intros b. apply no_hang_bind; [eauto with nohang|].
  intros v. destruct (m_mem v); eauto 12 with nohang.
Qed.

Lemma save_reset_state_no_hang i : no_hang (save_reset_state i).
Proof.
  unfold save_reset_state, read_regs, read_sregs, read_fpu.
  repeat (apply no_hang_bind; [eauto with nohang|intros]).
  intros w. unfold put_rst. by repeat destr_match.
Qed.

Lemma in_kernel_no_hang {A} (f : kst -> A * kst) : no_hang (in_kernel f).
Proof. intros w. unfold in_kernel. by destruct (f (w_k w)). Qed.

Lemma new_virtine_no_hang : no_hang new_virtine.
Proof.
  unfold new_virtine, ensure_kvmfd, sanity_check, setup_cpuid, write_regs, write_sregs,
    read_sregs, read_regs.
  repeat first
    [ apply save_reset_state_no_hang | apply in_kernel_no_hang | apply no_hang_bind; [|intros]
    | progress eauto with nohang | destr_match | by intros ? ].
Qed.

Lemma allocate_no_hang c : no_hang (allocate c).
Proof.
  unfold allocate, init_reset, set_reset_mask, put_virtine, read_regs, read_sregs, read_fpu.
  repeat first
    [ apply new_virtine_no_hang | apply reset_no_hang | apply allocate_memory_no_hang
    | apply no_hang_bind; [|intros] | progress eauto with nohang | destr_match | by intros ? ].
  all: intros w; unfold lift_opt; by destr_match.
Qed.

Lemma ensure_loop_terminates fuel : forall count c w,
  u64 count <= blen (c_pool c) + Z.of_nat fuel -> ensure_loop fuel count c w <> Err OutOfFuel.
Proof.
  induction fuel as [|fuel IH]; intros count c w Hf; cbn [ensure_loop];
    destruct (Z.ltb_spec (blen (get_cache c)) (u64 count)) as [Hlt|Hge]; unfold get_cache in *;
    try done; [lia|].
  unfold_M. destruct (allocate c w) as [[[v c1] w1]|e] eqn:Ha.
  - apply IH. rewrite <- (allocate_pool _ _ _ _ _ Ha) in Hf. cbn. unfold blen in *. cbn [length]. lia.
  - intros [= ->]. by apply (allocate_no_hang c w).
Qed.

(** C17: ensure(count) with a non-negative count stops after at most [count]
    allocations, either because one of them failed or with a pool of at least
    that many virtines, and never shrinks the pool; with a negative count the
    comparison is unsigned, and it does not return within 2^63 allocations. *)
Theorem ensure_spec count c w :
  c_locked c = false ->
  (0 <= count < 2 ^ 31 ->
     (forall fuel c' w', ensure fuel count c w = Ok (c', w') ->
        blen (c_pool c') = Z.max (blen (c_pool c)) count) /\
     (forall fuel, count <= blen (c_pool c) + Z.of_nat fuel ->
        ensure fuel count c w <> Err OutOfFuel)) /\
  (- 2 ^ 31 <= count < 0 -> blen (c_pool c) < 2 ^ 62 ->
     forall fuel c' w', Z.of_nat fuel < 2 ^ 63 -> ensure fuel count c w <> Ok (c', w')).
Proof.
  intros Hl. unfold ensure, lock. rewrite Hl. unfold_M. split.
  - intros Hc. assert (Hu : u64 count = count) by (apply uwrap_small; unfold in_u; lia). split.
    + intros fuel c' w' He.
      destruct (ensure_loop fuel count (with_locked true c) w) as [[c1 w1]|] eqn:E; [|done].
      injection He as <- <-. apply ensure_loop_size in E as [E _]. cbn in E. by rewrite Hu in E.
    + intros fuel Hf.
      destruct (ensure_loop fuel count (with_locked true c) w) as [[c1 w1]|e] eqn:E; [done|].
      intros [= ->]. eapply ensure_loop_terminates; [|exact E]. cbn. lia.
  - intros Hc Hp fuel c' w' Hf He.
    destruct (ensure_loop fuel count (with_locked true c) w) as [[c1 w1]|] eqn:E; [|done].
    apply ensure_loop_size in E as [_ E]. cbn in E. revert E. unfold uwrap.
    rewrite <- (Z.mod_add count 1), Z.mod_small by lia. lia.
Qed.

(** ** Accounting *)

(** In every reachable state size() answers 0, however many virtines are
    pooled, and destroying the cache deletes none of them: both look at the
    per-thread deques, which get(), put() and ensure() never fill. *)
Theorem size_and_destructor_ignore_pool img bb bs w0 c0 w c out :
  pool_inv img bb bs w0 c0 [] -> c_locked c0 = false -> c_caches c0 = ∅ ->
  rtc cache_step (w0, c0, []) (w, c, out) ->
  (exists c', size c w = Ok ((0, c'), w)) /\ delete_cache c w = Ok (tt, w) /\
  (forall vid, vid ∈ c_pool c -> is_Some (w_virtines w !! vid)).
Proof.
  intros I Hl Hc Hr. destruct (reachable_ok img bb bs _ _ Hr) as ([] & Hl' & Hc'); [done|].
  split; [|split].
  - unfold size, lock. rewrite Hl'. unfold_M. cbn. rewrite Hc', map_fold_empty. eauto.
  - unfold delete_cache. rewrite Hc', map_to_list_empty. done.
  - intros vid Hv. destruct (c_reset c) as [r|].
    + destruct pi_reset0 as (s & _ & _ & Hall & _).
      destruct (Hall vid ltac:(set_solver)) as (v & cpu & b & ram & [[] _ _ _ _ _]). by eexists.
    + apply app_eq_nil in pi_reset0 as [E _]. rewrite E in Hv. set_solver.
Qed.

End CacheTheorems.
End Cache.

(** ** Examples on the scripted host *)

Definition demo_img : ResetMemory := MkResetMemory (Ptr 1 0) 0 2.
Definition demo_image_bytes : list Z := [0xE6; 0xFA].
Definition pool_world0 : world :=
  World (booted []) (-1) {[1 := demo_image_bytes]} 2 ∅ 1 ∅ 1 [].
Definition demo_cache : Cache := set_binary (Ptr 1 0) 2 0 (new_cache 4096).

Lemma demo_pool_inv : pool_inv demo_img 1 demo_image_bytes pool_world0 demo_cache [].
Proof.
  split.
  - cbn. split; [lia|reflexivity].
  - done.
  - split; [reflexivity|]. split; [done|]. split; [done|]. cbn. lia.
  - split; cbn; [|done]. intros b [l Hb]. apply lookup_singleton_Some in Hb as [<- _]. lia.
  - by split; intros i [? ?].
  - constructor.
  - intros i j vi vj Hi. cbn in Hi. set_solver.
  - done.
Qed.

Definition is_ok {A} (r : res A) : bool := match r with Ok _ => true | Err _ => false end.

Lemma reachable_get_clean_witness :
  exists vid c' w' s, get demo_cache pool_world0 = Ok ((vid, c'), w') /\
    clean demo_img demo_image_bytes w' s vid.
Proof.
  destruct (get demo_cache pool_world0) as [[[vid c'] w']|e] eqn:Hg.
  - destruct (reachable_get_clean (Hst := script_host) demo_img 1 demo_image_bytes pool_world0
      demo_cache pool_world0 demo_cache [] demo_pool_inv eq_refl eq_refl (rtc_refl _ _))
      as [_ H].
    destruct (H vid c' w' Hg) as (_ & r & s & _ & _ & _ & Hcl).
    exists vid, c', w', s. split; [reflexivity|exact Hcl].
  - exfalso. assert (H : is_ok (get demo_cache pool_world0) = true) by (vm_compute; reflexivity).
    rewrite Hg in H. discriminate.
Defined.

Definition demo_ensured : res (Cache * world) := ensure 2 2 demo_cache pool_world0.

(** The pool and the VCPU descriptors after ensure(2). *)
Definition demo_ids (r : res (Cache * world)) : option (list Z * option Z * option Z) :=
  match r with
  | Ok (c, w) => Some (c_pool c, m_cpufd <$> w_virtines w !! 1, m_cpufd <$> w_virtines w !! 2)
  | Err _ => None
  end.

Lemma demo_ids_eq : demo_ids demo_ensured = Some ([2; 1], Some 5, Some 7).
Proof. vm_compute. reflexivity. Qed.

Lemma reachable_isolated_witness :
  exists c w vi vj, demo_ensured = Ok (c, w) /\
    w_virtines w !! 1 = Some vi /\ w_virtines w !! 2 = Some vj /\ m_cpufd vi <> m_cpufd vj.
Proof.
  pose proof demo_ids_eq as Hids. unfold demo_ids in Hids.
  destruct demo_ensured as [[c w]|e] eqn:He; [|discriminate].
  injection Hids as Hpool H1 H2.
  destruct (w_virtines w !! 1) as [vi|] eqn:Ei; [|discriminate].
  destruct (w_virtines w !! 2) as [vj|] eqn:Ej; [|discriminate].
  assert (Hr : rtc cache_step (pool_world0, demo_cache, []) (w, c, []))
    by (eapply rtc_once, (step_ensure pool_world0 demo_cache [] 2 2); exact He).
  assert (Hi : 1 ∈ c_pool c ++ []) by (rewrite Hpool; apply list_elem_of_further, list_elem_of_here).
  assert (Hj : 2 ∈ c_pool c ++ []) by (rewrite Hpool; apply list_elem_of_here).
  exists c, w, vi, vj. split; [reflexivity|]. split; [exact Ei|]. split; [exact Ej|].
  exact (proj1 (reachable_isolated (Hst := script_host) demo_img 1 demo_image_bytes pool_world0
           demo_cache w c [] 1 2 vi vj demo_pool_inv eq_refl eq_refl Hr Hi Hj
           ltac:(lia) Ei Ej)).
Defined.

Lemma size_and_destructor_witness :
  exists c w c', demo_ensured = Ok (c, w) /\ c_pool c = [2; 1] /\
    size c w = Ok ((0, c'), w) /\ delete_cache c w = Ok (tt, w).
Proof.
  pose proof demo_ids_eq as Hids. unfold demo_ids in Hids.
  destruct demo_ensured as [[c w]|e] eqn:He; [|discriminate].
  injection Hids as Hpool _ _.
  destruct (size_and_destructor_ignore_pool (Hst := script_host) demo_img 1 demo_image_bytes
              pool_world0 demo_cache w c [] demo_pool_inv eq_refl eq_refl)
    as ((c' & Hsz) & Hd & _).
  - eapply rtc_once, (step_ensure pool_world0 demo_cache [] 2 2). exact He.
  - exists c, w, c'. split; [reflexivity|]. split; [exact Hpool|]. split; [exact Hsz|exact Hd].
Defined.

Lemma ensure_spec_witness :
  ensure 2 2 demo_cache pool_world0 <> Err OutOfFuel.
Proof.
  destruct (ensure_spec (Hst := script_host) 2 demo_cache pool_world0 eq_refl) as [H _].
  destruct H as [_ H]; [lia|]. apply H. cbn. unfold blen. cbn. lia.
Defined.

Lemma put_get_retains_witness :
  exists c w c1 w1 r s ram' c2 vid v b, get demo_cache pool_world0 = Ok ((vid, c), w) /\
    put vid c w = Ok (c1, w1) /\ get c1 w1 = Ok ((vid, c2), w1) /\
    c_reset c = Some r /\ live w1 vid v (rs_regs s, rs_sregs s, rs_fpu s) b ram'.
Proof.
  destruct (get demo_cache pool_world0) as [[[vid c] w]|e] eqn:Hg.
  2:{ exfalso. assert (H : is_ok (get demo_cache pool_world0) = true) by (vm_compute; reflexivity).
      rewrite Hg in H. discriminate. }
  assert (H : match get demo_cache pool_world0 with
              | Ok ((vid, c), w) => (negb (c_locked c) && bool_decide (c_pool c = []))%bool
              | Err _ => false end = true) by (vm_compute; reflexivity).
  rewrite Hg in H. apply andb_true_iff in H as [Hlk%negb_true_iff Hpool]. apply bool_decide_eq_true in Hpool.
  destruct (get_inv _ _ _ _ _ _ _ _ _ demo_pool_inv Hg) as (I & _).
  destruct (pool_inv_out _ _ _ _ _ _ vid I (list_elem_of_here _ _)) as (r0 & v & cpu & b & ram & Hvo).
  destruct (put_get_retains (Hst := script_host) demo_img 1 demo_image_bytes w c [] vid v cpu b ram
              I Hlk Hpool (vo_live _ _ _ _ _ _ _ _ _ Hvo))
    as (c1 & w1 & r & s & ram' & c2 & Hput & Hget & Hr & _ & Hl & _).
  exists c, w, c1, w1, r, s, ram', c2, vid, v, b.
  split; [reflexivity|]. split; [exact Hput|]. split; [exact Hget|]. split; [exact Hr|exact Hl].
Defined.
