(* ===== verification/SpinLock.v ===== *)
(** Threads sharing one cache: the spin lock of src/Cache.cpp and the bodies of
    get(), put() and ensure(), broken into the atomic accesses that threads can
    interleave.  File Cache shows what one operation does; this file shows that
    the operations of different threads do not mix. *)

From stdpp Require Import functions.
From S2P Require Import Prelude.

(** ** State *)

Inductive pool_op : Type :=
| OpGet
| OpPut (v : Z)
| OpEnsure (count : Z).

(** Where a thread is.  [TestSet] is about to execute the test-and-set of lock(),
    [Spin] the relaxed load of its inner loop; [Body] has entered the critical
    section and is about to look at the deque; [Threw] left it by an exception of
    allocate(), past the unlock(). *)
Inductive pc : Type :=
| Idle
| TestSet (o : pool_op)
| Spin (o : pool_op)
| Body (o : pool_op)
| GetAlloc
| GetFront
| GetPop (v : Z)
| EnsureAlloc (count : Z)
| EnsurePush (count v : Z)
| Unlock (ret : list Z)
| Threw.

Record shared : Type := Shared {
  locked : Z;             (* int locked *)
  pool : list Z;          (* m_cache *)
  fresh : Z;              (* the next virtine allocate() creates *)
  n_hits : Z;
  n_misses : Z
}.

(** A thread owns the virtines it was given and has not put back. *)
Record thread : Type := Thread { at_pc : pc; held : list Z }.

Definition set_locked (l : Z) (s : shared) : shared :=
  Shared l (pool s) (fresh s) (n_hits s) (n_misses s).
Definition set_pool (p : list Z) (s : shared) : shared :=
  Shared (locked s) p (fresh s) (n_hits s) (n_misses s).
Definition bump_fresh (s : shared) : shared :=
  Shared (locked s) (pool s) (fresh s + 1) (n_hits s) (n_misses s).
Definition count_hit (s : shared) : shared :=
  Shared (locked s) (pool s) (fresh s) (u64 (n_hits s + 1)) (n_misses s).
Definition count_miss (s : shared) : shared :=
  Shared (locked s) (pool s) (fresh s) (n_hits s) (u64 (n_misses s + 1)).

(** ** Atomic steps of one thread *)

(** lock(): the test-and-set of its outer loop. *)
Definition test_and_set (o : pool_op) (s : shared) : pc * shared :=
  (if locked s =? 0 then Body o else Spin o, set_locked 1 s).
(** lock(): the load of its inner loop. *)
Definition spin_load (o : pool_op) (s : shared) : pc :=
  if locked s =? 1 then Spin o else TestSet o.

(** Drop one occurrence: the caller of put() gives the virtine up. *)
Fixpoint remove_one (v : Z) (l : list Z) : list Z :=
  match l with
  | [] => []
  | x :: l => if x =? v then l else x :: remove_one v l
  end.

Inductive local_move : shared -> thread -> shared -> thread -> Prop :=
| mv_call_get s h : local_move s (Thread Idle h) s (Thread (TestSet OpGet) h)
| mv_call_put s h v : v ∈ h ->
    local_move s (Thread Idle h) s (Thread (TestSet (OpPut v)) (remove_one v h))
| mv_call_ensure s h n : local_move s (Thread Idle h) s (Thread (TestSet (OpEnsure n)) h)
| mv_test_and_set s h o p s' : test_and_set o s = (p, s') ->
    local_move s (Thread (TestSet o) h) s' (Thread p h)
| mv_spin s h o : local_move s (Thread (Spin o) h) s (Thread (spin_load o s) h)
| mv_get_miss s h : pool s = [] ->
    local_move s (Thread (Body OpGet) h) (count_miss s) (Thread GetAlloc h)
| mv_get_hit s h : pool s <> [] ->
    local_move s (Thread (Body OpGet) h) (count_hit s) (Thread GetFront h)
| mv_get_alloc s h :
    local_move s (Thread GetAlloc h) (bump_fresh s) (Thread (Unlock [fresh s]) h)
| mv_get_throw s h : local_move s (Thread GetAlloc h) s (Thread Threw h)
| mv_get_front s h v rest : pool s = v :: rest ->
    local_move s (Thread GetFront h) s (Thread (GetPop v) h)
| mv_get_pop s h v : local_move s (Thread (GetPop v) h)
    (set_pool (tail (pool s)) s) (Thread (Unlock [v]) h)
| mv_put s h v : local_move s (Thread (Body (OpPut v)) h)
    (set_pool (pool s ++ [v]) s) (Thread (Unlock []) h)
| mv_ensure_more s h n : blen (pool s) <? u64 n = true ->
    local_move s (Thread (Body (OpEnsure n)) h) s (Thread (EnsureAlloc n) h)
| mv_ensure_done s h n : blen (pool s) <? u64 n = false ->
    local_move s (Thread (Body (OpEnsure n)) h) s (Thread (Unlock []) h)
| mv_ensure_alloc s h n :
    local_move s (Thread (EnsureAlloc n) h) (bump_fresh s) (Thread (EnsurePush n (fresh s)) h)
| mv_ensure_throw s h n : local_move s (Thread (EnsureAlloc n) h) s (Thread Threw h)
| mv_ensure_push s h n v : local_move s (Thread (EnsurePush n v) h)
    (set_pool (v :: pool s) s) (Thread (Body (OpEnsure n)) h)
| mv_unlock s h r : local_move s (Thread (Unlock r) h)
    (set_locked 0 s) (Thread Idle (r ++ h)).

Abbreviation system := (shared * (Z -> thread))%type.

(** One thread of the system moves. *)
Inductive move : system -> system -> Prop :=
| move_thread t s s' f th' :
    local_move s (f t) s' th' -> move (s, f) (s', <[t := th']> f).

(** No thread in an operation, the lock free. *)
Definition initial (st : system) : Prop :=
  locked st.1 = 0 /\ NoDup (pool st.1) /\ (forall v, v ∈ pool st.1 -> v < fresh st.1) /\
  forall t, st.2 t = Thread Idle [].

(** ** Invariant *)

(** The thread is between its successful test-and-set and its unlock. *)
Definition holds (p : pc) : bool :=
  match p with Idle | TestSet _ | Spin _ => false | _ => true end.

(** The virtines no other thread may have. *)
Definition in_flight (p : pc) : list Z :=
  match p with
  | TestSet (OpPut v) | Spin (OpPut v) | Body (OpPut v) | EnsurePush _ v => [v]
  | Unlock r => r
  | _ => []
  end.
Definition owned (th : thread) : list Z := in_flight (at_pc th) ++ held th.

(** What a holder knows of the deque. *)
Definition knows (s : shared) (p : pc) : Prop :=
  match p with
  | GetFront => pool s <> []
  | GetPop v => head (pool s) = Some v
  | _ => True
  end.

Record lock_inv (st : system) : Prop := LockInv {
  li_word : locked st.1 = 0 \/ locked st.1 = 1;
  li_held : forall t, holds (at_pc (st.2 t)) = true -> locked st.1 = 1;
  li_some : locked st.1 = 1 -> exists t, holds (at_pc (st.2 t)) = true;
  li_mutex : forall t t', holds (at_pc (st.2 t)) = true ->
    holds (at_pc (st.2 t')) = true -> t = t';
  li_knows : forall t, knows st.1 (at_pc (st.2 t))
}.

Record own_inv (st : system) : Prop := OwnInv {
  oi_pool : NoDup (pool st.1);
  oi_fresh : forall v, v ∈ pool st.1 -> v < fresh st.1;
  oi_nodup : forall t, NoDup (owned (st.2 t));
  oi_apart : forall t t' v, v ∈ owned (st.2 t) -> v ∈ owned (st.2 t') -> t = t';
  oi_owned : forall t v, v ∈ owned (st.2 t) -> v < fresh st.1 /\ v ∉ pool st.1
}.

Lemma initial_inv st : initial st -> lock_inv st /\ own_inv st.
Proof.
  intros (Hl & Hp & Hf & Ht). split; split; intros *; rewrite ?Ht; cbn; try done.
  - by left.
  - by rewrite Hl.
  - apply Hf.
  - constructor.
  - set_solver.
  - set_solver.
Qed.

(** *** The lock word *)

(** How a step of one thread changes the lock. *)
Lemma local_move_lock s th s' th' :
  local_move s th s' th' ->
  (locked s' = locked s /\ holds (at_pc th') = holds (at_pc th)) \/
  (holds (at_pc th) = false /\ locked s' = 1 /\
   holds (at_pc th') = (locked s =? 0) /\ pool s' = pool s) \/
  (holds (at_pc th) = true /\ holds (at_pc th') = false /\ locked s' = 0).
Proof.
  intros Hm. destruct Hm as [| | | ? ? ? ? ? Ht | | | | | | | | | | | | | |]; cbn; auto.
  - right. left. unfold test_and_set in Ht. injection Ht as <- <-. by destruct (_ =? 0).
  - unfold spin_load. destruct (_ =? 1); auto.
Qed.

Lemma local_move_idle_pool s th s' th' :
  local_move s th s' th' -> holds (at_pc th) = false ->
  pool s' = pool s /\ fresh s' = fresh s.
Proof.
  intros Hm Hh. destruct Hm; cbn in *; try done.
  unfold test_and_set in H. by injection H as <- <-.
Qed.

Lemma local_move_knows s th s' th' :
  local_move s th s' th' -> knows s' (at_pc th').
Proof.
  intros Hm. destruct Hm; cbn; try done.
  - unfold test_and_set in H. injection H as <- <-. by destruct (_ =? 0).
  - unfold spin_load. by destruct (_ =? 1).
  - by rewrite H.
Qed.

Lemma move_lock_inv st st' : lock_inv st -> move st st' -> lock_inv st'.
Proof.
  intros [Hw Hh Hs Hx Hk] Hm. destruct Hm as [t s s' f th' Hm]. cbn [fst snd] in *.
  pose proof (local_move_lock _ _ _ _ Hm) as Hl.
  assert (Hne : forall u, u <> t -> (<[t := th']> f) u = f u) by (intros; by rewrite fn_lookup_insert_ne).
  assert (Heq : (<[t := th']> f) t = th') by apply fn_lookup_insert.
  assert (Hoth : forall u, u <> t -> holds (at_pc (f u)) = true -> holds (at_pc (f t)) = false).
  { intros u Hu Hhu. destruct (holds (at_pc (f t))) eqn:E; [|done]. destruct Hu. by apply Hx. }
  split; cbn [fst snd].
  - destruct Hl as [(-> & _)|[(_ & -> & _)|(_ & _ & ->)]]; auto.
  - intros u. destruct (decide (u = t)) as [->|Hu]; rewrite ?Heq, ?Hne by done.
    + destruct Hl as [(-> & ->)|[(_ & -> & _)|(_ & -> & _)]]; [apply Hh|done|done].
    + intros Hhu. pose proof (Hh _ Hhu) as E. destruct Hl as [(-> & _)|[(_ & -> & _)|(Ht & _)]]; auto.
  - intros E. destruct Hl as [(E' & E'')|[(E1 & _ & E3 & _)|(_ & _ & E')]]; [| |congruence].
    + rewrite E' in E. destruct (Hs E) as [u Hu]. exists u.
      destruct (decide (u = t)) as [->|Hut]; [by rewrite Heq, E''|by rewrite Hne].
    + destruct Hw as [Hw|Hw].
      * exists t. rewrite Heq, E3, Hw. done.
      * destruct (Hs Hw) as [u Hu]. exists u. rewrite Hne; [done|]. intros ->. congruence.
  - intros u u' Hu Hu'. destruct (decide (u = t)) as [->|Hut], (decide (u' = t)) as [->|Hut'];
      rewrite ?Heq, ?Hne in * by done; [done| | |by apply Hx].
    1: rename u' into x, Hut' into Hxt, Hu' into Hhx, Hu into Hht.
    2: rename u into x, Hut into Hxt, Hu into Hhx, Hu' into Hht.
    all: pose proof (Hoth _ Hxt Hhx) as E; pose proof (Hh _ Hhx) as E';
         destruct Hl as [(_ & E'')|[(_ & _ & E'' & _)|(E'' & _)]]; try congruence;
         rewrite E', Hht in E''; done.
  - intros u. destruct (decide (u = t)) as [->|Hut].
    + rewrite Heq. by eapply local_move_knows.
    + rewrite Hne by done. destruct (holds (at_pc (f u))) eqn:E.
      * destruct (local_move_idle_pool _ _ _ _ Hm (Hoth _ Hut E)) as [Hp _].
        specialize (Hk u). destruct (at_pc (f u)); cbn in *; try done; by rewrite Hp.
      * by destruct (at_pc (f u)).
Qed.

(** *** Ownership *)

Lemma remove_one_perm v l : v ∈ l -> l ≡ₚ v :: remove_one v l.
Proof.
  induction l as [|x l IH]; [set_solver|]. intros H. cbn.
  destruct (Z.eqb_spec x v) as [->|Hx]; [done|].
  rewrite IH at 1 by set_solver. apply Permutation_swap.
Qed.

(** The four ways a step moves virtines between a thread and the deque. *)
Inductive transfer (s s' : shared) (o o' : list Z) : Prop :=
| tr_none : o' ≡ₚ o -> pool s' = pool s -> fresh s' = fresh s -> transfer s s' o o'
| tr_new : o' ≡ₚ fresh s :: o -> pool s' = pool s -> fresh s' = fresh s + 1 -> transfer s s' o o'
| tr_take v : o' ≡ₚ v :: o -> pool s = v :: pool s' -> fresh s' = fresh s -> transfer s s' o o'
| tr_give v : o ≡ₚ v :: o' -> pool s' ≡ₚ v :: pool s -> fresh s' = fresh s -> transfer s s' o o'.

Lemma local_move_transfer s th s' th' :
  local_move s th s' th' -> knows s (at_pc th) -> transfer s s' (owned th) (owned th').
Proof.
  intros Hm Hk. destruct Hm as [| ? ? ? Hv | | ? ? ? ? ? Ht | | | | | | | | | | | | | |]; unfold owned; cbn in *;
    try (by apply tr_none).
  - apply tr_none; [|done..]. symmetry. by apply remove_one_perm.
  - unfold test_and_set in Ht. injection Ht as <- <-. apply tr_none; [|done..].
    destruct (_ =? 0); by destruct o.
  - unfold spin_load. apply tr_none; [|done..]. destruct (_ =? 1); by destruct o.
  - by apply tr_new.
  - apply tr_take with v; [done| |done]. cbn. destruct (pool s); [done|]. cbn in *. congruence.
  - apply tr_give with v; [done| |done]. cbn. by rewrite Permutation_app_comm.
  - by apply tr_new.
  - by apply tr_give with v.
Qed.

Lemma transfer_nodup s s' o o' :
  transfer s s' o o' -> NoDup (pool s) -> (forall v, v ∈ pool s -> v < fresh s) ->
  NoDup o -> (forall v, v ∈ o -> v < fresh s /\ v ∉ pool s) ->
  (NoDup (pool s') /\ (forall v, v ∈ pool s' -> v < fresh s')) /\
  (NoDup o' /\ (forall v, v ∈ o' -> v < fresh s' /\ v ∉ pool s')).
Proof.
  intros [Ho Hp Hf|Ho Hp Hf|v Ho Hp Hf|v Ho Hp Hf] Hnp Hlt Hno Hoo; rewrite ?Hf.
  - setoid_rewrite Ho. by rewrite Hp.
  - setoid_rewrite Ho. rewrite Hp, NoDup_cons.
    split; [split; [done|]; intros v Hv; specialize (Hlt v Hv); lia|]. split; [split; [|done]|].
    + intros H. apply Hoo in H. lia.
    + intros v [->|Hv]%elem_of_cons; [split; [lia|]; intros H; apply Hlt in H; lia|].
      apply Hoo in Hv. split; [lia|tauto].
  - setoid_rewrite Ho. rewrite Hp in *. apply NoDup_cons in Hnp as [Hv Hnp]. rewrite NoDup_cons.
    split; [split; [done|set_solver]|]. split; [split; [|done]|].
    + intros H. apply Hoo in H. set_solver.
    + intros x [->|Hx]%elem_of_cons; [set_solver|]. apply Hoo in Hx. set_solver.
  - setoid_rewrite Hp. rewrite Ho in Hno. setoid_rewrite Ho in Hoo.
    apply NoDup_cons in Hno as [Hv Hno]. rewrite NoDup_cons.
    pose proof (Hoo v ltac:(set_solver)) as [Hvf Hvp].
    split; [split; [by split|]|].
    + intros x [->|Hx]%elem_of_cons; auto.
    + split; [done|]. intros x Hx. pose proof (Hoo x ltac:(set_solver)). set_solver.
Qed.

(** What a transfer leaves of the claims of another thread. *)
Lemma transfer_apart s s' o o' x :
  transfer s s' o o' -> x ∉ o -> x < fresh s -> x ∉ pool s ->
  x ∉ o' /\ x < fresh s' /\ x ∉ pool s'.
Proof.
  intros [Ho Hp Hf|Ho Hp Hf|v Ho Hp Hf|v Ho Hp Hf] Hxo Hxf Hxp; rewrite ?Hf.
  - rewrite Ho, Hp. done.
  - rewrite Ho, Hp, not_elem_of_cons. repeat split; [lia|done|lia|done].
  - rewrite Ho, not_elem_of_cons. rewrite Hp, not_elem_of_cons in Hxp. tauto.
  - rewrite Hp, not_elem_of_cons. rewrite Ho, not_elem_of_cons in Hxo. tauto.
Qed.

Lemma move_own_inv st st' : lock_inv st -> own_inv st -> move st st' -> own_inv st'.
Proof.
  intros Hl [Hnp Hlt Hno Hap Hoo] Hm. destruct Hm as [t s s' f th' Hm]. cbn [fst snd] in *.
  pose proof (local_move_transfer _ _ _ _ Hm (li_knows _ Hl t)) as Ht.
  destruct (transfer_nodup _ _ _ _ Ht Hnp Hlt (Hno t) (Hoo t)) as [[Hnp' Hlt'] [Hno' Hoo']].
  assert (Heq : (<[t := th']> f) t = th') by apply fn_lookup_insert.
  assert (Hne : forall u, u <> t -> (<[t := th']> f) u = f u) by (intros; by rewrite fn_lookup_insert_ne).
  assert (Hother : forall u v, u <> t -> v ∈ owned (f u) ->
            v ∉ owned th' /\ v < fresh s' /\ v ∉ pool s').
  { intros u v Hu Hv. destruct (Hoo _ _ Hv). apply (transfer_apart _ _ _ _ _ Ht); [|done..].
    intros Hin. by destruct Hu; eapply Hap. }
  split; cbn [fst snd]; [done|done| | |].
  - intros u. destruct (decide (u = t)) as [->|Hu]; [by rewrite Heq|by rewrite Hne].
  - intros u u' v. destruct (decide (u = t)) as [->|Hu], (decide (u' = t)) as [->|Hu'];
      rewrite ?Heq, ?Hne by done; [done| | |by apply Hap]; intros H1 H2; exfalso.
    + exact (proj1 (Hother _ _ Hu' H2) H1).
    + exact (proj1 (Hother _ _ Hu H1) H2).
  - intros u v. destruct (decide (u = t)) as [->|Hu]; [rewrite Heq; auto|rewrite Hne by done].
    intros Hv. by apply (Hother _ _ Hu Hv).
Qed.

Lemma reachable_inv st st' : initial st -> rtc move st st' -> lock_inv st' /\ own_inv st'.
Proof.
  intros Hi Hr. apply initial_inv in Hi.
  induction Hr as [|x y z Hm _ IH]; [done|]. apply IH. destruct Hi as [Hl Ho].
  split; [by eapply move_lock_inv|by eapply move_own_inv].
Qed.

(** ** Theorems *)

(** C7: however the threads of a program interleave, at most one of them is
    between the test-and-set that let it into lock() and its unlock(), and the
    lock word is 1 exactly while there is one. *)
Theorem lock_mutual_exclusion st st' :
  initial st -> rtc move st st' ->
  (locked st'.1 = 1 <-> exists t, holds (at_pc (st'.2 t)) = true) /\
  (forall t t', holds (at_pc (st'.2 t)) = true -> holds (at_pc (st'.2 t')) = true -> t = t').
Proof.
  intros Hi Hr. destruct (reachable_inv _ _ Hi Hr) as [[Hw Hh Hs Hx _] _].
  split; [split; [done|intros [t Ht]; by eapply Hh]|done].
Qed.

(** C8: no virtine is ever owned by two threads, owned twice by one, or owned
    while it is in the deque, and the deque holds no virtine twice; so two
    concurrent get() calls never return the same virtine. *)
Theorem exclusive_ownership st st' :
  initial st -> rtc move st st' ->
  NoDup (pool st'.1) /\
  (forall t, NoDup (owned (st'.2 t))) /\
  (forall t v, v ∈ owned (st'.2 t) -> v ∉ pool st'.1) /\
  (forall t t' v, v ∈ owned (st'.2 t) -> v ∈ owned (st'.2 t') -> t = t').
Proof.
  intros Hi Hr. destruct (reachable_inv _ _ Hi Hr) as [_ []]. split_and!; auto.
  intros t v Hv. by apply oi_owned0 in Hv as [_ ?].
Qed.

(** A thread that threw never moves again, and keeps the others out. *)
Lemma threw_stays st st' t h :
  lock_inv st -> st.2 t = Thread Threw h -> rtc move st st' ->
  lock_inv st' /\ st'.2 t = Thread Threw h.
Proof.
  intros Hl Ht Hr. induction Hr as [|x y z Hm _ IH]; [done|]. apply IH; [by eapply move_lock_inv|].
  destruct Hm as [u s s' f th' Hm]. cbn in *. destruct (decide (u = t)) as [->|Hu].
  - rewrite Ht in Hm. inversion Hm.
  - by rewrite fn_lookup_insert_ne.
Qed.

(** One step of thread [t]. *)
Definition thread_move (t : Z) (st st' : system) : Prop :=
  exists th', local_move st.1 (st.2 t) st'.1 th' /\ st'.2 = <[t := th']> st.2.

Lemma thread_move_move st st' : move st st' <-> exists t, thread_move t st st'.
Proof.
  split.
  - intros [t s s' f th' H]. exists t, th'. done.
  - intros [t (th' & H & E)]. destruct st as [s f], st' as [s' f']. cbn in *. subst. by constructor.
Qed.

(** The steps from the place in lock() to the critical section when the lock is free. *)
Definition steps_to_enter (p : pc) : nat := match p with Spin _ => 2 | _ => 1 end.

(** The test-and-set of a free lock enters; the load of a free lock goes back to it. *)
Lemma enter_step t o h st st' :
  locked st.1 = 0 -> st.2 t = Thread (TestSet o) h -> thread_move t st st' ->
  st'.2 t = Thread (Body o) h.
Proof.
  intros Hfree Ht (th' & Hm & ->). rewrite Ht in Hm. rewrite fn_lookup_insert.
  inversion Hm; simplify_eq. unfold test_and_set in *. rewrite Hfree in *. by simplify_eq.
Qed.

Lemma respin_step t o h st st' :
  locked st.1 = 0 -> st.2 t = Thread (Spin o) h -> thread_move t st st' ->
  locked st'.1 = 0 /\ st'.2 t = Thread (TestSet o) h.
Proof.
  intros Hfree Ht (th' & Hm & ->). rewrite Ht in Hm. rewrite fn_lookup_insert.
  inversion Hm; simplify_eq. unfold spin_load. by rewrite Hfree.
Qed.

(** A thread in lock() can always take its step. *)
Lemma lock_steps t o h st :
  st.2 t = Thread (TestSet o) h \/ st.2 t = Thread (Spin o) h -> exists st', thread_move t st st'.
Proof.
  intros [Ht|Ht].
  - destruct (test_and_set o st.1) as [p s'] eqn:E.
    exists (s', <[t := Thread p h]> st.2), (Thread p h). rewrite Ht. split; [by constructor|done].
  - exists (st.1, <[t := Thread (spin_load o st.1) h]> st.2), (Thread (spin_load o st.1) h).
    rewrite Ht. split; [by constructor|done].
Qed.

(** C16: when nobody holds the lock, a thread waiting for it that takes its next
    steps enters its critical section, after one step when it is at the test-and-set
    and after two when it is in the inner loop; it can always take them.  But once
    allocate() has thrown inside an operation, the lock is never released and no other
    thread ever enters. *)
Theorem lock_progress st st' :
  initial st -> rtc move st st' ->
  (locked st'.1 = 0 -> forall t o h p, p = TestSet o \/ p = Spin o -> st'.2 t = Thread p h ->
     (exists st2, nsteps (thread_move t) (steps_to_enter p) st' st2) /\
     (forall st2, nsteps (thread_move t) (steps_to_enter p) st' st2 ->
        st2.2 t = Thread (Body o) h)) /\
  (forall t h, st'.2 t = Thread Threw h ->
     forall st2, rtc move st' st2 ->
       locked st2.1 = 1 /\ forall t', t' <> t -> holds (at_pc (st2.2 t')) = false).
Proof.
  intros Hi Hr. destruct (reachable_inv _ _ Hi Hr) as [Hl _]. split.
  - intros Hfree t o h p [-> | ->] Hp; cbn.
    + destruct (lock_steps t o h st' (or_introl Hp)) as [st1 H1].
      split; [exists st1; by apply nsteps_once|]. intros st2 H2%nsteps_once_inv.
      by eapply enter_step.
    + destruct (lock_steps t o h st' (or_intror Hp)) as [st1 H1].
      destruct (respin_step _ _ _ _ _ Hfree Hp H1) as [_ Ht1].
      destruct (lock_steps t o h st1 (or_introl Ht1)) as [st2 H2].
      split; [exists st2; by eapply nsteps_l, nsteps_once|].
      intros st3 H3. inversion H3 as [|? ? x ? Hx Hx3]; subst. apply nsteps_once_inv in Hx3.
      destruct (respin_step _ _ _ _ _ Hfree Hp Hx). by eapply enter_step.
  - intros t h Ht st2 Hr2. destruct (threw_stays _ _ _ _ Hl Ht Hr2) as [[Hw Hh Hs Hx _] Ht2].
    assert (holds (at_pc (st2.2 t)) = true) by (by rewrite Ht2). split; [by eapply Hh|].
    intros t' Hne. destruct (holds (at_pc (st2.2 t'))) eqn:E; [|done]. destruct Hne. by apply Hx.
Qed.

(** ** Examples: two threads call get() on a deque of one virtine *)

Definition demo_shared : shared := Shared 0 [5] 6 0 0.
Definition demo_threads : Z -> thread := fun _ => Thread Idle [].
Definition demo_system : system := (demo_shared, demo_threads).

Lemma demo_initial : initial demo_system.
Proof.
  split; [reflexivity|]. split; [|split; [|reflexivity]].
  - apply NoDup_singleton.
  - cbn. intros v Hv. apply list_elem_of_singleton in Hv. lia.
Qed.

(** Thread 1 has the lock, thread 2 found it taken. *)
Definition demo_contended : system :=
  (set_locked 1 (set_locked 1 demo_shared),
   <[2 := Thread (Spin OpGet) []]> (<[2 := Thread (TestSet OpGet) []]>
   (<[1 := Thread (Body OpGet) []]> (<[1 := Thread (TestSet OpGet) []]> demo_threads)))).

Lemma demo_contended_reachable : rtc move demo_system demo_contended.
Proof.
  eapply rtc_l; [apply (move_thread 1); apply mv_call_get|].
  eapply rtc_l; [apply (move_thread 1); by apply mv_test_and_set|].
  eapply rtc_l; [apply (move_thread 2); apply mv_call_get|].
  eapply rtc_l; [apply (move_thread 2); by apply mv_test_and_set|].
  apply rtc_refl.
Qed.

Lemma lock_mutual_exclusion_witness :
  holds (at_pc (demo_contended.2 1)) = true /\ forall t, t <> 1 ->
    holds (at_pc (demo_contended.2 t)) <> true.
Proof.
  split; [reflexivity|]. intros t Hne Ht. apply Hne.
  exact (proj2 (lock_mutual_exclusion _ _ demo_initial demo_contended_reachable) t 1 Ht eq_refl).
Defined.

(** Thread 1 has taken the virtine out and returned it to its caller. *)
Definition demo_taken : system :=
  (set_locked 0 (set_pool [] (count_hit (set_locked 1 demo_shared))),
   <[1 := Thread Idle [5]]> (<[1 := Thread (Unlock [5]) []]> (<[1 := Thread (GetPop 5) []]>
   (<[1 := Thread GetFront []]>
   (<[1 := Thread (Body OpGet) []]> (<[1 := Thread (TestSet OpGet) []]> demo_threads)))))).

Lemma demo_taken_reachable : rtc move demo_system demo_taken.
Proof.
  eapply rtc_l; [apply (move_thread 1); apply mv_call_get|].
  eapply rtc_l; [apply (move_thread 1); by apply mv_test_and_set|].
  eapply rtc_l; [apply (move_thread 1); by apply mv_get_hit|].
  eapply rtc_l; [apply (move_thread 1); by apply (mv_get_front _ _ 5 [])|].
  eapply rtc_l; [apply (move_thread 1); apply mv_get_pop|].
  eapply rtc_l; [apply (move_thread 1); apply mv_unlock|].
  apply rtc_refl.
Qed.

Lemma exclusive_ownership_witness :
  5 ∈ owned (demo_taken.2 1) /\ forall t, 5 ∈ owned (demo_taken.2 t) -> t = 1.
Proof.
  split; [apply list_elem_of_here|]. intros t Ht.
  destruct (exclusive_ownership _ _ demo_initial demo_taken_reachable) as (_ & _ & _ & H).
  exact (H t 1 5 Ht (list_elem_of_here _ _)).
Defined.

(** The system after thread 1 has called get() and nothing else has happened. *)
Definition demo_waiting : system :=
  (demo_shared, <[1 := Thread (TestSet OpGet) []]> demo_threads).

Lemma demo_waiting_reachable : rtc move demo_system demo_waiting.
Proof. apply rtc_once, (move_thread 1). apply mv_call_get. Qed.

Lemma lock_progress_witness :
  exists st2, nsteps (thread_move 1) 1 demo_waiting st2 /\ st2.2 1 = Thread (Body OpGet) [].
Proof.
  destruct (proj1 (lock_progress _ _ demo_initial demo_waiting_reachable) eq_refl
           1 OpGet [] (TestSet OpGet) (or_introl eq_refl) eq_refl) as [[st2 H] Ha].
  exists st2. split; [exact H|exact (Ha st2 H)].
Defined.
