(* ===== verification/Binding.v ===== *)
(** Calling a virtine: src/binding.cpp, with the constants of include/virtine.h.

    [wasp_run_virtine] is what the compiler pass makes of a call: it takes a
    virtine from the cache of the code it is to run, copies the arguments in, runs
    it, serves its hypercalls under a whitelist, copies the arguments out and puts
    the virtine back.  The host's system calls are the class [HostOS]; the
    model logs each of them, so that theorems can speak of what a guest caused. *)

From stdpp Require Import countable pretty.
From S2P Require Import Prelude Kvm ScriptHost Cpuid Virtine Cache.

(** ** Constants of virtine.h *)

Definition HCALL_exit : Z := 0.
Definition HCALL_close : Z := 1.
Definition HCALL_fstat : Z := 2.
Definition HCALL_link : Z := 3.
Definition HCALL_lseek : Z := 4.
Definition HCALL_open : Z := 5.
Definition HCALL_read : Z := 6.
Definition HCALL_sbrk : Z := 7.
Definition HCALL_times : Z := 8.
Definition HCALL_unlink : Z := 9.
Definition HCALL_write : Z := 10.
Definition HCALL_gettimeofday : Z := 11.
Definition HCALL_isatty : Z := 12.

Definition VIRTINE_ALLOW_ALL : Z := 2 ^ 64 - 1.
Definition VIRTINE_BLOCK_ALL : Z := 0.
Definition VIRTINE_ALLOW (nr : Z) : Z := Z.shiftl 1 nr.

(** struct virtine_config *)
Record virtine_config : Type := VirtineConfig { hypercall_whitelist : Z }.

(** ** The host's system calls *)

(** A buffer is passed as the kernel sees it: [None] for the null pointer.  The
    calls that fill a buffer return the bytes they stored at its start. *)
Class HostOS : Type := {
  ost : Type;
  os_close : ost -> Z -> Z * ost;
  os_open : ost -> option (list Z) -> Z -> Z -> Z * ost;
  os_read : ost -> Z -> bool -> Z -> Z * list Z * ost;
  os_write : ost -> Z -> option (list Z) -> Z -> Z * ost;
  os_fstat : ost -> Z -> bool -> Z * list Z * ost
}.

(** read() stores at most the bytes asked for, fstat() at most a struct stat, and
    neither stores through a null pointer. *)
Definition sizeof_stat : Z := 144.
Class HostOSLaws `{OS : HostOS} : Prop := {
  law_read : forall o fd n, 0 <= n -> blen (os_read o fd true n).1.2 <= n;
  law_read_null : forall o fd n, (os_read o fd false n).1.2 = [];
  law_fstat : forall o fd, blen (os_fstat o fd true).1.2 <= sizeof_stat;
  law_fstat_null : forall o fd, (os_fstat o fd false).1.2 = []
}.

(** One logged system call, by the hypercall that stands for it. *)
Inductive syscall : Type := Syscall (nr : Z) (fd : Z) (count : Z).
Definition syscall_nr (s : syscall) : Z := let 'Syscall nr _ _ := s in nr.

#[export] Instance ptr_countable : Countable ptr.
Proof.
  refine (inj_countable'
    (fun p => match p with NULL => None | Ptr b o => Some (b, o) end)
    (fun x => match x with None => NULL | Some (b, o) => Ptr b o end) _).
  by intros [].
Defined.

Section Binding.
Context `{Hst : Host} `{OS : HostOS}.
(** [whitelist >> nr] for a count that is not in the range of the type. *)
Context (ub_shift : Z -> Z -> Z).
(** WASP_NO_SNAPSHOT is unset *)
Context (g_use_snapshots : bool).

(** ** State *)

Record bworld : Type := BWorld {
  b_w : world;
  b_caches : gmap ptr Cache;        (* cached_virtines *)
  b_lock : bool;                    (* virtine_cache_lock *)
  b_os : ost;
  b_log : list syscall
}.

Definition with_w (x : world) (w : bworld) : bworld :=
  BWorld x (b_caches w) (b_lock w) (b_os w) (b_log w).
Definition with_bcaches (m : gmap ptr Cache) (w : bworld) : bworld :=
  BWorld (b_w w) m (b_lock w) (b_os w) (b_log w).
Definition with_block (l : bool) (w : bworld) : bworld :=
  BWorld (b_w w) (b_caches w) l (b_os w) (b_log w).
Definition with_os (o : ost) (s : syscall) (w : bworld) : bworld :=
  BWorld (b_w w) (b_caches w) (b_lock w) o (b_log w ++ [s]).

(** A computation of the hypervisor. *)
Definition hv {A} (c : M world A) : M bworld A := fun w =>
  match c (b_w w) with
  | Ok (a, x) => Ok (a, with_w x w)
  | Err e => Err e
  end.

(** std::mutex: locking one that is held does not return. *)
Definition mutex_lock : M bworld unit := fun w =>
  if b_lock w then Err OutOfFuel else Ok (tt, with_block true w).
Definition mutex_unlock : M bworld unit := modify (with_block false).

(** get_cache: find the cache of the code, or make one that loads it at 0x8000. *)
Definition binding_get_cache (code : ptr) (codesz memsz : Z) : M bworld Cache := fun w =>
  match b_caches w !! code with
  | Some c => Ok (c, w)
  | None =>
      let c := set_binary code codesz 0x8000 (new_cache memsz) in
      Ok (c, with_bcaches (<[code := c]> (b_caches w)) w)
  end.
Definition store_cache (code : ptr) (c : Cache) : M bworld unit :=
  modify (fun w => with_bcaches (<[code := c]> (b_caches w)) w).

(** ** Whitelist *)

Definition hypercall_allowed (nr whitelist : Z) : bool :=
  if nr =? 0xFF then true
  else if (0 <=? nr) && (nr <? 64)
  then negb (Z.land (Z.shiftr whitelist nr) 1 =? 0)
  else negb (Z.land (ub_shift whitelist nr) 1 =? 0).

(** The message for a call that is not whitelisted. *)
Definition denied_message (nr whitelist : Z) : list string :=
  [("Virtine tried to use non-whitelisted hypercall " +:+ pretty nr)%string;
   ("    Permitted hypercalls:" +:+
    String.concat "" (map (fun i => " " +:+ pretty i)
      (filter (fun i => hypercall_allowed i whitelist = true) (seqZ 0 64))))%string].

(** ** System calls with guest memory as the buffer *)

(** The kernel reads the path up to its NUL, at most PATH_MAX bytes. *)
Definition path_max : Z := 4096.
Fixpoint path_bytes (fuel : nat) (l : list Z) : option (list Z) :=
  match fuel, l with
  | O, _ => Some []
  | S _, [] => None
  | S fuel, c :: l =>
      if c =? 0 then Some [] else
      match path_bytes fuel l with Some p => Some (c :: p) | None => None end
  end.
Definition read_path (p : ptr) : M world (option (list Z)) := fun w =>
  match p with
  | NULL => Ok (None, w)
  | Ptr b off =>
      match w_heap w !! b with
      | Some l => if (0 <=? off) then
                    match path_bytes (Z.to_nat path_max) (drop (Z.to_nat off) l) with
                    | Some s => Ok (Some s, w)
                    | None => Err Fault
                    end
                  else Err Fault
      | None => Err Fault
      end
  end.

Definition read_buffer (p : ptr) (n : Z) : M world (option (list Z)) :=
  match p with
  | NULL => mret None
  | Ptr _ _ => bs ← read_bytes p n; mret (Some bs)
  end.

Definition not_null (p : ptr) : bool := match p with NULL => false | _ => true end.

(** A system call, logged. *)
Definition os_call {A} (s : syscall) (f : ost -> A * ost) : M bworld A := fun w =>
  let '(a, o) := f (b_os w) in Ok (a, with_os o s w).

Definition sys_close (fd : Z) : M bworld Z :=
  os_call (Syscall HCALL_close fd 0) (fun o => os_close o fd).
Definition sys_open (path : ptr) (flags mode : Z) : M bworld Z :=
  s ← hv (read_path path);
  os_call (Syscall HCALL_open flags mode) (fun o => os_open o s flags mode).
Definition sys_read (fd : Z) (buf : ptr) (n : Z) : M bworld Z :=
  x ← os_call (Syscall HCALL_read fd n) (fun o => os_read o fd (not_null buf) n);
  hv (write_bytes buf x.2);;
  mret x.1.
Definition sys_write (fd : Z) (buf : ptr) (n : Z) : M bworld Z :=
  s ← hv (read_buffer buf n);
  os_call (Syscall HCALL_write fd n) (fun o => os_write o fd s n).
Definition sys_fstat (fd : Z) (buf : ptr) : M bworld Z :=
  x ← os_call (Syscall HCALL_fstat fd 0) (fun o => os_fstat o fd (not_null buf));
  hv (write_bytes buf x.2);;
  mret x.1.

(** ** Hypercalls *)

(** case 0xFF: remember registers and the first [arg2] bytes of memory as the
    state the virtines of this cache start from. *)
Definition take_snapshot (code : ptr) (codesz memsz : Z) (vm : Z) (regs : kvm_regs)
    (arg2 : Z) : M bworld kvm_regs :=
  let regs := set_rip (u64 (rip regs + 2)) regs in
  hv (write_regs vm regs);;
  mutex_lock;;
  binding_get_cache code codesz memsz;;
  mutex_unlock;;
  v ← hv (get_virtine vm);
  let size := u64 arg2 in
  bytes ← hv (read_bytes (translate v 0) size);
  data ← hv (alloc_block bytes);
  hv (save_reset_state_regions vm [MkResetMemory (Ptr data 0) 0 size]);;
  mret regs.

(** The switch: the new registers, and whether the virtine is done. *)
Definition serve (code : ptr) (codesz memsz : Z) (vm : Z) (regs : kvm_regs)
    : M bworld (kvm_regs * bool) :=
  let nr := rdi regs in
  let arg1 := s64 (rsi regs) in
  let arg2 := s64 (rdx regs) in
  let arg3 := s64 (rcx regs) in
  v ← hv (get_virtine vm);
  if nr =? 0xFF then
    if g_use_snapshots then
      r ← take_snapshot code codesz memsz vm regs arg2; mret (r, false)
    else mret (regs, false)
  else if nr =? HCALL_exit then mret (regs, true)
  else if nr =? HCALL_close then
    r ← sys_close (s32 arg1); mret (set_rax (u64 r) regs, false)
  else if nr =? HCALL_open then
    if validate_length v arg1 256 then
      r ← sys_open (translate v arg1) (s32 arg2) (u32 arg3);
      mret (set_rax (u64 r) regs, false)
    else mret (regs, false)
  else if nr =? HCALL_read then
    if validate_length v arg2 (u64 arg3) then
      r ← sys_read (s32 arg1) (translate v arg2) (u64 arg3);
      mret (set_rax (u64 r) regs, false)
    else mret (regs, false)
  else if nr =? HCALL_write then
    if validate_length v arg2 (u64 arg3) then
      r ← sys_write (s32 arg1) (translate v arg2) (u64 arg3);
      mret (set_rax (u64 r) regs, false)
    else mret (regs, false)
  else if nr =? HCALL_fstat then
    if validate_length v arg2 sizeof_stat then
      r ← sys_fstat (s32 arg1) (translate v arg2);
      mret (set_rax (u64 r) regs, false)
    else mret (regs, false)
  else mret (set_rax (u64 (- ENOSYS)) regs, false).

(** One hypercall exit.  A call that is not allowed is reported; the register
    copy it sets is not written back. *)
Definition hypercall (code : ptr) (codesz memsz : Z) (whitelist : Z) (vm : Z)
    : M bworld bool :=
  regs ← hv (read_regs vm);
  let nr := s32 (rdi regs) in
  if hypercall_allowed nr whitelist then
    '(regs, done) ← serve code codesz memsz vm regs;
    hv (write_regs vm regs);;
    mret done
  else
    hv (modify (fun w => with_out (w_out w ++ denied_message nr whitelist) w));;
    mret false.

(** ** The run loop *)

(** One iteration: run until the next exit and deal with it. *)
Definition run_once (code : ptr) (codesz memsz : Z) (whitelist : Z) (vm : Z) : M bworld bool :=
  res ← hv (run vm);
  match res with
  | HyperCall => hypercall code codesz memsz whitelist vm
  | Crashed => hv (read_regs vm);; fail_with Aborted
  | Exited => mret true
  | _ => mret false
  end.

Fixpoint run_loop (fuel : nat) (code : ptr) (codesz memsz : Z) (whitelist : Z) (vm : Z)
    : M bworld unit :=
  match fuel with
  | O => fail_with OutOfFuel
  | S fuel =>
      done ← run_once code codesz memsz whitelist vm;
      if (done : bool) then mret tt else run_loop fuel code codesz memsz whitelist vm
  end.

Definition whitelist_of (vconfig : option virtine_config) : Z :=
  match vconfig with Some c => hypercall_whitelist c | None => VIRTINE_ALLOW_ALL end.

(** The virtine of a call, with the arguments in place. *)
Definition start_virtine (code : ptr) (codesz memsz : Z) (arg : ptr) (argsz : Z)
    : M bworld (Z * ptr) :=
  mutex_lock;;
  cache ← binding_get_cache code codesz memsz;
  mutex_unlock;;
  '(vm, cache) ← hv (get cache);
  store_cache code cache;;
  v ← hv (get_virtine vm);
  let arg_pos := translate v 0 in
  match arg with NULL => mret tt | _ => hv (memcpy arg_pos arg argsz) end;;
  (if g_use_snapshots then mret tt else
     regs ← hv (read_regs vm);
     hv (write_regs vm (set_rip 0x8000 (set_rsp 0x8000 regs))));;
  mret (vm, arg_pos).

(** Copy the arguments out and put the virtine back. *)
Definition finish_virtine (code : ptr) (codesz memsz : Z) (arg : ptr) (argsz : Z)
    (vm : Z) (arg_pos : ptr) : M bworld unit :=
  match arg with NULL => mret tt | _ => hv (memcpy arg arg_pos argsz) end;;
  mutex_lock;;
  cache ← binding_get_cache code codesz memsz;
  cache ← hv (put vm cache);
  store_cache code cache;;
  mutex_unlock.

Definition wasp_run_virtine (fuel : nat) (code : ptr) (codesz memsz : Z) (arg : ptr)
    (argsz : Z) (vconfig : option virtine_config) : M bworld unit :=
  '(vm, arg_pos) ← start_virtine code codesz memsz arg argsz;
  run_loop fuel code codesz memsz (whitelist_of vconfig) vm;;
  finish_virtine code codesz memsz arg argsz vm arg_pos.

(** One iteration of the loop that goes on. *)
Definition loop_step (code : ptr) (codesz memsz whitelist vm : Z) (w w' : bworld) : Prop :=
  run_once code codesz memsz whitelist vm w = Ok (false, w').

(** ** What a guest can cause: the log *)

(** [m] only makes system calls that satisfy [P]. *)
Definition only {A} (P : syscall -> Prop) (m : M bworld A) : Prop :=
  forall w a w', m w = Ok (a, w') ->
    exists evs, b_log w' = b_log w ++ evs /\ Forall P evs.

Lemma only_ret {A} P (a : A) : only P (mret a).
Proof. intros w x w' [= <- <-]. exists []. by rewrite app_nil_r. Qed.

Lemma only_fail {A} P e : only P (fail_with e : M bworld A).
Proof. by intros w x w'. Qed.

Lemma only_bind {A B} P (m : M bworld A) (k : A -> M bworld B) :
  only P m -> (forall a, only P (k a)) -> only P (m ≫= k).
Proof.
  intros Hm Hk w b w' H. unfold_M. destruct (m w) as [[a w1]|] eqn:E; [|done].
  destruct (Hm _ _ _ E) as (e1 & H1 & F1), (Hk _ _ _ _ H) as (e2 & H2 & F2).
  exists (e1 ++ e2). rewrite H2, H1, app_assoc. split; [done|]. by apply Forall_app.
Qed.

Lemma only_hv {A} P (c : M world A) : only P (hv c).
Proof.
  intros w a w' H. unfold hv in H. destruct (c (b_w w)) as [[x y]|]; [|done].
  injection H as <- <-. exists []. by rewrite app_nil_r.
Qed.

Lemma only_mutex_lock P : only P mutex_lock.
Proof.
  intros w a w' H. unfold mutex_lock in H. destruct (b_lock w); [done|].
  injection H as <- <-. exists []. by rewrite app_nil_r.
Qed.

Lemma only_mutex_unlock P : only P mutex_unlock.
Proof. intros w a w' [= <- <-]. exists []. by rewrite app_nil_r. Qed.

Lemma only_get_cache P code codesz memsz : only P (binding_get_cache code codesz memsz).
Proof.
  intros w a w' H. unfold binding_get_cache in H.
  destruct (b_caches w !! code); injection H as <- <-; exists []; by rewrite app_nil_r.
Qed.

Lemma only_store_cache P code c : only P (store_cache code c).
Proof. intros w a w' [= <- <-]. exists []. by rewrite app_nil_r. Qed.

Lemma only_os_call {A} (P : syscall -> Prop) s (f : ost -> A * ost) :
  P s -> only P (os_call s f).
Proof.
  intros HP w a w' H. unfold os_call in H. destruct (f (b_os w)) as [x o].
  injection H as <- <-. exists [s]. split; [done|]. by constructor.
Qed.
End Binding.

#[export] Hint Resolve only_ret only_fail only_hv only_mutex_lock only_mutex_unlock
  only_get_cache only_store_cache : wasp.

(** Follow the structure of a computation down to its system calls. *)
Ltac only_step :=
  match goal with
  | |- only _ (_ ≫= _) => apply only_bind; [|intros ?]
  | |- only _ (if ?b then _ else _) => destruct b eqn:?
  | |- only _ (match ?x with _ => _ end) => destruct x eqn:?
  | |- only _ (os_call _ _) => apply only_os_call
  | |- _ => progress auto with wasp
  end.

Section BindingTheorems.
Context `{Hst : Host} `{OS : HostOS}.
Context (ub_shift : Z -> Z -> Z) (g_use_snapshots : bool).

Lemma only_serve code codesz memsz vm regs :
  only (fun e => syscall_nr e = rdi regs /\ 0 <= rdi regs < 64)
    (serve g_use_snapshots code codesz memsz vm regs).
Proof.
  unfold serve, sys_close, sys_open, sys_read, sys_write, sys_fstat, take_snapshot.
  repeat only_step; zbool; cbn;
    repeat match goal with H : rdi regs = _ |- _ => rewrite H end;
    unfold HCALL_close, HCALL_open, HCALL_read, HCALL_write, HCALL_fstat; lia.
Qed.

Lemma land_one_testbit x n : 0 <= n ->
  negb (Z.land (Z.shiftr x n) 1 =? 0) = Z.testbit x n.
Proof.
  intros Hn. change 1 with (Z.ones 1). rewrite Z.land_ones, Z.pow_1_r by lia.
  rewrite <- Z.bit0_mod, Z.shiftr_spec by lia. rewrite Z.add_0_l.
  by destruct (Z.testbit x n).
Qed.

Lemma allowed_testbit nr wl : 0 <= nr < 64 ->
  hypercall_allowed ub_shift nr wl = Z.testbit wl nr.
Proof.
  intros Hn. unfold hypercall_allowed. zdecide. cbn [andb]. apply land_one_testbit. lia.
Qed.

Lemma only_hypercall code codesz memsz wl vm :
  only (fun e => Z.testbit wl (syscall_nr e) = true)
    (hypercall ub_shift g_use_snapshots code codesz memsz wl vm).
Proof.
  unfold hypercall. apply only_bind; [apply only_hv|]. intros regs.
  destruct (hypercall_allowed _ _ _) eqn:Hal; [|repeat only_step].
  apply only_bind; [|intros []; repeat only_step].
  intros w a w' H. destruct (only_serve _ _ _ _ _ _ _ _ H) as (evs & -> & Hf).
  exists evs. split; [done|]. eapply Forall_impl; [exact Hf|]. intros e [-> Hr].
  rewrite <- allowed_testbit by done.
  replace (rdi regs) with (s32 (rdi regs)) by (apply swrap_small; [|unfold in_s]; lia). done.
Qed.

Lemma only_run_once code codesz memsz wl vm :
  only (fun e => Z.testbit wl (syscall_nr e) = true)
    (run_once ub_shift g_use_snapshots code codesz memsz wl vm).
Proof. unfold run_once. repeat only_step. apply only_hypercall. Qed.

Lemma only_run_loop fuel code codesz memsz wl vm :
  only (fun e => Z.testbit wl (syscall_nr e) = true)
    (run_loop ub_shift g_use_snapshots fuel code codesz memsz wl vm).
Proof.
  induction fuel as [|fuel IH]; cbn; [apply only_fail|].
  apply only_bind; [apply only_run_once|]. intros []; auto with wasp.
Qed.

Lemma only_iterations code codesz memsz wl vm w w' :
  rtc (loop_step ub_shift g_use_snapshots code codesz memsz wl vm) w w' ->
  exists evs, b_log w' = b_log w ++ evs /\
    Forall (fun e => Z.testbit wl (syscall_nr e) = true) evs.
Proof.
  induction 1 as [w|w1 w2 w3 Hs _ (e2 & H2 & F2)]; [exists []; by rewrite app_nil_r|].
  destruct (only_run_once _ _ _ _ _ _ _ _ Hs) as (e1 & H1 & F1).
  exists (e1 ++ e2). rewrite H2, H1, app_assoc. split; [done|]. by apply Forall_app.
Qed.

(** C2: whatever the guest does, every system call made on its behalf, in a run
    that returns and after any number of exits of one that does not, is one whose
    bit is set in the whitelist; a virtine with the empty whitelist causes none. *)
Theorem whitelist_enforced code codesz memsz vconfig :
  (forall vm w w', rtc (loop_step ub_shift g_use_snapshots code codesz memsz
                    (whitelist_of vconfig) vm) w w' ->
     exists evs, b_log w' = b_log w ++ evs /\
       Forall (fun e => Z.testbit (whitelist_of vconfig) (syscall_nr e) = true) evs /\
       (whitelist_of vconfig = VIRTINE_BLOCK_ALL -> evs = [])) /\
  (forall fuel arg argsz w w',
     wasp_run_virtine ub_shift g_use_snapshots fuel code codesz memsz arg argsz vconfig w
       = Ok (tt, w') ->
     exists evs, b_log w' = b_log w ++ evs /\
       Forall (fun e => Z.testbit (whitelist_of vconfig) (syscall_nr e) = true) evs /\
       (whitelist_of vconfig = VIRTINE_BLOCK_ALL -> evs = [])).
Proof.
  assert (Hb : forall evs,
    Forall (fun e => Z.testbit (whitelist_of vconfig) (syscall_nr e) = true) evs ->
    whitelist_of vconfig = VIRTINE_BLOCK_ALL -> evs = []).
  { intros [|e evs] F E; [done|]. rewrite E in F. apply Forall_cons in F as [F _].
    unfold VIRTINE_BLOCK_ALL in F. by rewrite Z.bits_0 in F. }
  split.
  - intros vm w w' Hr. apply only_iterations in Hr as (evs & H & F). eauto 6.
  - intros fuel arg argsz w w' H.
    assert (Ho : only (fun e => Z.testbit (whitelist_of vconfig) (syscall_nr e) = true)
      (wasp_run_virtine ub_shift g_use_snapshots fuel code codesz memsz arg argsz vconfig)).
    { unfold wasp_run_virtine, start_virtine, finish_virtine.
      repeat only_step. apply only_run_loop. }
    destruct (Ho _ _ _ H) as (evs & E & F). eauto 6.
Qed.

(** ** What a hypercall does, seen from the guest *)

(** The abstract handler: a function of the guest's registers, its memory and the
    host's state, for whatever the registers hold.  The range check adds modulo
    2^64; an address beyond the memory becomes the null pointer, for which the
    kernel moves no bytes.  [None] is an access outside the guest's memory. *)
Definition spec_serve (o : ost) (r : kvm_regs) (ram : list Z)
    : option (kvm_regs * list Z * ost * bool) :=
  let checked a n := u64 (a + n) <=? blen ram in
  let address a := if u64 a <=? blen ram then Some (u64 a) else None in
  let present a := u64 a <=? blen ram in
  let result x ram o := Some (set_rax (u64 x) r, ram, o, false) in
  let store a data x o :=
    match address a with
    | None => result x ram o
    | Some a => match splice a data ram with Some ram => result x ram o | None => None end
    end in
  let stay := Some (r, ram, o, false) in
  let nr := rdi r in
  let fd := s32 (rsi r) in
  let n := u64 (rcx r) in
  if nr =? 0xFF then
    if negb g_use_snapshots then stay
    else if u64 (rdx r) <=? blen ram then Some (set_rip (u64 (rip r + 2)) r, ram, o, false)
    else None
  else if nr =? HCALL_exit then Some (r, ram, o, true)
  else if nr =? HCALL_close then let '(x, o) := os_close o fd in result x ram o
  else if nr =? HCALL_open then
    if checked (rsi r) 256 then
      match address (rsi r) with
      | None => let '(x, o) := os_open o None (s32 (rdx r)) (u32 (rcx r)) in result x ram o
      | Some a =>
          match path_bytes 4096 (drop (Z.to_nat a) ram) with
          | Some path => let '(x, o) := os_open o (Some path) (s32 (rdx r)) (u32 (rcx r)) in
                         result x ram o
          | None => None
          end
      end
    else stay
  else if nr =? HCALL_read then
    if checked (rdx r) n then
      let '(x, data, o) := os_read o fd (present (rdx r)) n in store (rdx r) data x o
    else stay
  else if nr =? HCALL_write then
    if checked (rdx r) n then
      match address (rdx r) with
      | None => let '(x, o) := os_write o fd None n in result x ram o
      | Some a =>
          match slice a n ram with
          | Some bytes => let '(x, o) := os_write o fd (Some bytes) n in result x ram o
          | None => None
          end
      end
    else stay
  else if nr =? HCALL_fstat then
    if checked (rdx r) sizeof_stat then
      let '(x, data, o) := os_fstat o fd (present (rdx r)) in store (rdx r) data x o
    else stay
  else result (- ENOSYS) ram o.

Definition spec_hypercall (whitelist : Z) (o : ost) (r : kvm_regs) (ram : list Z)
    : option (kvm_regs * list Z * ost * bool) :=
  if hypercall_allowed ub_shift (s32 (rdi r)) whitelist then spec_serve o r ram
  else Some (r, ram, o, false).

(** Everything but the virtine [vm], its VCPU and its memory is as before. *)
Record frame (w w' : world) (vm fd b : Z) : Prop := Frame {
  fr_next : w_next w <= w_next w';
  fr_heap : forall b', b' <> b -> b' < w_next w -> w_heap w' !! b' = w_heap w !! b';
  fr_virtines : forall u, u <> vm -> w_virtines w' !! u = w_virtines w !! u;
  fr_cpus : forall fd', fd' <> fd -> k_cpu (w_k w') fd' = k_cpu (w_k w) fd'
}.

Lemma frame_refl w vm fd b : frame w w vm fd b.
Proof. by split. Qed.

Lemma frame_trans w1 w2 w3 vm fd b :
  frame w1 w2 vm fd b -> frame w2 w3 vm fd b -> frame w1 w3 vm fd b.
Proof.
  intros [N1 H1 V1 C1] [N2 H2 V2 C2]. split; [lia| | |].
  - intros b' Hb Hlt. rewrite H2 by (lia || done). auto.
  - intros u Hu. rewrite V2 by done. auto.
  - intros fd' Hfd. rewrite C2 by done. auto.
Qed.

(** The state a hypercall of [vm] leaves. *)
Record after (w w' : bworld) (vm : Z) (v : Virtine) (c : kvm_regs * sregs * fpu)
    (b : Z) (ram : list Z) (o : ost) : Prop := After {
  af_virtine : Virtine;
  af_live : live (b_w w') vm af_virtine c b ram;
  af_same : m_cpufd af_virtine = m_cpufd v /\ m_vmfd af_virtine = m_vmfd v /\
            m_reset_mask af_virtine = m_reset_mask v;
  af_os : b_os w' = o;
  af_lock : b_lock w' = b_lock w;
  af_frame : frame (b_w w) (b_w w') vm (m_cpufd v) b
}.

Section Serve.
Context `{HL : !HostLaws} `{OSL : !HostOSLaws}.

Lemma bbind_ok {A B} (m : M bworld A) (f : A -> M bworld B) w a w' :
  m w = Ok (a, w') -> (m ≫= f) w = f a w'.
Proof. intros H. unfold_M. by rewrite H. Qed.

Lemma hv_ok {A} (c : M world A) w a x :
  c (b_w w) = Ok (a, x) -> hv c w = Ok (a, with_w x w).
Proof. intros H. unfold hv. by rewrite H. Qed.

Lemma with_w_id w : with_w (b_w w) w = w.
Proof. by destruct w. Qed.

Lemma hv_pure {A} (c : M world A) w a : c (b_w w) = Ok (a, b_w w) -> hv c w = Ok (a, w).
Proof. intros H. rewrite (hv_ok _ _ _ _ H). by rewrite with_w_id. Qed.

(** Writing the registers of a live virtine. *)
Lemma write_regs_live w vm v r s f b ram r' :
  live w vm v (r, s, f) b ram ->
  exists w', write_regs vm r' w = Ok (tt, w') /\ live w' vm v (r', s, f) b ram /\
    frame w w' vm (m_cpufd v) b.
Proof.
  intros L. eexists. split; [apply write_regs_eq, L|]. split.
  - split; cbn; try apply L. rewrite law_set_regs, decide_True by done.
    by rewrite (live_cpu _ _ _ _ _ _ L).
  - split; cbn; [done|done|done|]. intros fd' Hfd. by rewrite law_set_regs, decide_False.
Qed.

(** The pointer made of a guest address. *)
Definition guest_ptr (b : Z) (ram : list Z) (a : Z) : ptr :=
  if u64 a <=? blen ram then Ptr b (u64 a) else NULL.

Lemma u64_nonneg x : 0 <= u64 x.
Proof. pose proof (uwrap_range 64 x ltac:(lia)) as Hu. unfold in_u in Hu. lia. Qed.

Lemma guest_ptr_null b ram a : not_null (guest_ptr b ram a) = (u64 a <=? blen ram).
Proof. unfold guest_ptr. by destruct (u64 a <=? blen ram). Qed.

(** The range check, for the register values. *)
Lemma validate_args w vm v c b ram a n :
  live w vm v c b ram -> validate_length v (s64 a) n = (u64 (a + n) <=? blen ram).
Proof.
  intros L. unfold validate_length. rewrite <- uwrap_add_l, uwrap_swrap, uwrap_add_l by lia.
  rewrite (live_size _ _ _ _ _ _ L). by destruct (Z.ltb_spec (blen ram) (u64 (a + n))); zdecide.
Qed.

Lemma translate_args w vm v c b ram a :
  live w vm v c b ram ->
  translate v (s64 a) = guest_ptr b ram a.
Proof.
  intros L. unfold translate, guest_ptr. rewrite uwrap_swrap, (live_mem _ _ _ _ _ _ L) by lia.
  rewrite (live_size _ _ _ _ _ _ L). pose proof (live_max _ _ _ _ _ _ L).
  pose proof (uwrap_range 64 a ltac:(lia)) as Hu. unfold in_u in Hu.
  destruct (Z.leb_spec (u64 a) (blen ram)); zdecide; [|done].
  f_equal. rewrite <- swrap_uwrap by lia. apply swrap_small; [|unfold in_s]; lia.
Qed.

(** Storing bytes a system call returned. *)
Lemma store_live w vm v c b ram a data ram' :
  live w vm v c b ram -> splice a data ram = Some ram' ->
  exists w', write_bytes (Ptr b a) data w = Ok (tt, w') /\ live w' vm v c b ram' /\
    frame w w' vm (m_cpufd v) b.
Proof.
  intros L Hs. eexists. split; [eapply write_bytes_eq; [apply L|done]|]. split.
  - apply live_with_ram with ram; [done|]. by eapply splice_length.
  - split; cbn; [done| |done|done]. intros b' Hb _. by rewrite lookup_insert_ne.
Qed.

Lemma after_os w vm v c b ram o s :
  live (b_w w) vm v c b ram -> after w (with_os o s w) vm v c b ram o.
Proof. intros L. by exists v; try apply frame_refl. Qed.

(** A system call on behalf of [vm]: the result, the memory and the host state it
    gives, or an access outside the memory. *)
Definition call_gives (w : bworld) (vm : Z) (v : Virtine) (c : kvm_regs * sregs * fpu) (b : Z)
    (m : M bworld Z) (out : option (Z * list Z * ost)) : Prop :=
  match out with
  | Some (x, ram, o) => exists w', m w = Ok (x, w') /\ after w w' vm v c b ram o
  | None => m w = Err Fault
  end.

(** A call that fills a buffer in guest memory. *)
Lemma fill_gives w vm v c b ram a s (f : ost -> Z * list Z * ost) x data o :
  live (b_w w) vm v c b ram -> f (b_os w) = (x, data, o) ->
  ((u64 a <=? blen ram) = false -> data = []) ->
  call_gives w vm v c b
    (y ← os_call s f; hv (write_bytes (guest_ptr b ram a) y.2);; mret y.1)
    (if u64 a <=? blen ram then
       match splice (u64 a) data ram with Some ram' => Some (x, ram', o) | None => None end
     else Some (x, ram, o)).
Proof.
  intros L Hf Hnull. unfold guest_ptr, call_gives.
  destruct (u64 a <=? blen ram) eqn:Ha.
  2:{ rewrite (Hnull eq_refl) in Hf. eexists. split; [|by apply after_os].
      erewrite bbind_ok by (unfold os_call; by rewrite Hf). cbn. by erewrite bbind_ok by (by apply hv_pure). }
  destruct (splice _ data ram) as [ram'|] eqn:Hs.
  - destruct (store_live _ _ _ _ _ _ _ _ _ L Hs) as (x1 & Hw & L1 & F).
    exists (with_w x1 (with_os o s w)). split; [|by exists v].
    erewrite bbind_ok by (unfold os_call; by rewrite Hf). cbn.
    by erewrite bbind_ok by (apply hv_ok; exact Hw).
  - erewrite bbind_ok by (unfold os_call; by rewrite Hf). cbn. unfold_M. unfold hv. cbn.
    unfold write_bytes. rewrite (live_heap _ _ _ _ _ _ L), Hs.
    destruct (Z.eqb_spec (blen data) 0) as [E|]; [|done]. exfalso.
    assert (is_Some (splice (u64 a) data ram)) as [? ?]; [|congruence].
    eexists. apply splice_is_Some; [apply u64_nonneg|]. apply Z.leb_le in Ha. lia.
Qed.

Lemma sys_write_gives w vm v c b ram a n fd :
  live (b_w w) vm v c b ram -> 0 <= n ->
  call_gives w vm v c b (sys_write fd (guest_ptr b ram a) n)
    (if u64 a <=? blen ram then
       match slice (u64 a) n ram with
       | Some bytes => let '(x, o) := os_write (b_os w) fd (Some bytes) n in Some (x, ram, o)
       | None => None
       end
     else let '(x, o) := os_write (b_os w) fd None n in Some (x, ram, o)).
Proof.
  intros L Hn. unfold guest_ptr, sys_write.
  destruct (u64 a <=? blen ram) eqn:Ha.
  2:{ destruct (os_write _ _ _ _) as [x o] eqn:Ho. eexists. split; [|by apply after_os].
      erewrite bbind_ok by (by apply hv_pure). unfold os_call. by rewrite Ho. }
  assert (Hr : read_bytes (Ptr b (u64 a)) n (b_w w) =
    match slice (u64 a) n ram with Some bytes => Ok (bytes, b_w w) | None => Err Fault end).
  { unfold read_bytes. rewrite (live_heap _ _ _ _ _ _ L).
    destruct (Z.eqb_spec n 0) as [->|]; [|done]. apply Z.leb_le in Ha.
    by rewrite slice_is_Some by (lia || apply u64_nonneg). }
  destruct (slice _ n ram) as [bytes|].
  - destruct (os_write _ _ _ _) as [x o] eqn:Ho. eexists. split; [|by apply after_os].
    erewrite bbind_ok.
    2:{ apply hv_pure. cbn. erewrite bind_ok by exact Hr. reflexivity. }
    unfold os_call. by rewrite Ho.
  - cbn. unfold_M. unfold hv. cbn. by rewrite Hr.
Qed.

Lemma sys_open_gives w vm v c b ram a flags mode :
  live (b_w w) vm v c b ram ->
  call_gives w vm v c b (sys_open (guest_ptr b ram a) flags mode)
    (if u64 a <=? blen ram then
       match path_bytes 4096 (drop (Z.to_nat (u64 a)) ram) with
       | Some path => let '(x, o) := os_open (b_os w) (Some path) flags mode in Some (x, ram, o)
       | None => None
       end
     else let '(x, o) := os_open (b_os w) None flags mode in Some (x, ram, o)).
Proof.
  intros L. unfold guest_ptr, sys_open, read_path. change (Z.to_nat path_max) with 4096%nat.
  destruct (u64 a <=? blen ram) eqn:Ha.
  2:{ destruct (os_open _ _ _ _) as [x o] eqn:Ho. eexists. split; [|by apply after_os].
      erewrite bbind_ok by (by apply hv_pure). unfold os_call. by rewrite Ho. }
  pose proof (u64_nonneg a).
  destruct (path_bytes 4096 _) as [path|] eqn:E.
  - destruct (os_open _ _ _ _) as [x o] eqn:Eo. eexists. split; [|by apply after_os].
    erewrite bbind_ok.
    2:{ apply hv_pure. rewrite (live_heap _ _ _ _ _ _ L). zdecide. by rewrite E. }
    unfold os_call. by rewrite Eo.
  - unfold call_gives. unfold_M. unfold hv. rewrite (live_heap _ _ _ _ _ _ L). zdecide. by rewrite E.
Qed.

Lemma put_rst_live w vm v c b ram st :
  live w vm v c b ram ->
  exists w' v', put_rst vm st w = Ok (tt, w') /\ live w' vm v' c b ram /\
    (m_cpufd v' = m_cpufd v /\ m_vmfd v' = m_vmfd v /\ m_reset_mask v' = m_reset_mask v) /\
    frame w w' vm (m_cpufd v) b /\ w_heap w' = w_heap w.
Proof.
  intros L. unfold put_rst. rewrite (live_obj _ _ _ _ _ _ L).
  destruct (m_reset_mask v) eqn:Em.
  - eexists _, v. split; [done|]. split; [|split; [done|split; [|done]]]; split; cbn; try apply L; try done.
  - eexists _, (with_reset st v). split; [done|]. split; [|split; [done|split; [|done]]].
    + split; cbn; try apply L. apply lookup_insert_eq.
    + split; cbn; try done. intros u Hu. by rewrite lookup_insert_ne.
Qed.

Lemma alloc_live w vm v c b ram bytes :
  live w vm v c b ram -> fresh_ok w ->
  exists w', alloc_block bytes w = Ok (w_next w, w') /\ live w' vm v c b ram /\
    frame w w' vm (m_cpufd v) b /\ w_heap w' !! w_next w = Some bytes.
Proof.
  intros L [Hf _]. eexists. split; [done|]. cbn.
  assert (b < w_next w) by (apply Hf; eexists; apply L).
  split; [|split; [|apply lookup_insert_eq]].
  - split; cbn; try apply L. rewrite lookup_insert_ne by lia. apply L.
  - split; cbn; try done; [lia|]. intros b' _ Hb. by rewrite lookup_insert_ne by lia.
Qed.

(** Locking, looking the cache up and unlocking touch nothing a guest sees. *)
Lemma cache_lookup_eq code codesz memsz w :
  b_lock w = false ->
  exists w', (forall B (k : M bworld B),
    (mutex_lock;; binding_get_cache code codesz memsz;; mutex_unlock;; k) w = k w') /\
    b_w w' = b_w w /\ b_os w' = b_os w /\ b_lock w' = false.
Proof.
  intros Hl. unfold mutex_lock, mutex_unlock, binding_get_cache. unfold_M. rewrite Hl. cbn.
  destruct (b_caches w !! code); cbn; eexists; by split.
Qed.

Lemma read_ram_eq w vm v c b ram n :
  live w vm v c b ram -> 0 <= n ->
  read_bytes (translate v 0) n w =
    if n <=? blen ram then Ok (take (Z.to_nat n) ram, w) else Err Fault.
Proof.
  intros L Hn. pose proof (blen_nonneg ram). rewrite (translate_in_range v b); [|apply L|..].
  2-3: destruct L; lia.
  unfold read_bytes. rewrite (live_heap _ _ _ _ _ _ L).
  destruct (Z.eqb_spec n 0) as [->|Hz]; [by zdecide|].
  destruct (Z.leb_spec n (blen ram)).
  - by rewrite slice_is_Some by lia.
  - destruct (slice 0 n ram) eqn:E; [|done]. apply slice_Some in E. lia.
Qed.

(** The snapshot hypercall: within the memory, it records the registers (past the
    out instruction) and a copy of the first [size] bytes; beyond it, it reads
    outside the guest's memory. *)
Lemma take_snapshot_after code codesz memsz w vm v r s f b ram a :
  live (b_w w) vm v (r, s, f) b ram -> fresh_ok (b_w w) -> b_lock w = false ->
  let size := u64 a in
  if size <=? blen ram then
    exists w' d, let r' := set_rip (u64 (rip r + 2)) r in
      take_snapshot code codesz memsz vm r (s64 a) w = Ok (r', w') /\
      after w w' vm v (r', s, f) b ram (b_os w) /\
      get_rst vm (b_w w') = Ok (MkResetState r' s f [MkResetMemory (Ptr d 0) 0 size], b_w w') /\
      w_heap (b_w w') !! d = Some (take (Z.to_nat size) ram) /\ w_next (b_w w) <= d
  else take_snapshot code codesz memsz vm r (s64 a) w = Err Fault.
Proof.
  intros L Hf Hl size. set (r' := set_rip (u64 (rip r + 2)) r).
  destruct (write_regs_live _ _ _ _ _ _ _ _ r' L) as (x1 & Hw & L1 & F1).
  unfold take_snapshot. fold r'. rewrite uwrap_swrap by lia. fold size.
  rewrite (bbind_ok _ _ _ _ _ (hv_ok _ _ _ _ Hw)).
  destruct (cache_lookup_eq code codesz memsz (with_w x1 w) Hl) as (w2 & Hc & E1 & E2 & E3).
  rewrite Hc. cbn in E1, E2. erewrite bbind_ok by (apply hv_pure, get_virtine_eq; rewrite E1; apply L1).
  pose proof (read_ram_eq _ _ _ _ _ _ size L1 (u64_nonneg a)) as Hr. rewrite <- E1 in Hr.
  destruct (size <=? blen ram).
  2:{ unfold_M. unfold hv. by rewrite Hr. }
  erewrite bbind_ok by (apply hv_pure; exact Hr).
  rewrite <- E1 in L1.
  assert (Hf2 : fresh_ok (b_w w2)).
  { rewrite E1. unfold write_regs in Hw. unfold_M.
    rewrite (get_virtine_eq _ _ _ (live_obj _ _ _ _ _ _ L)) in Hw. by injection Hw as <-. }
  destruct (alloc_live _ _ _ _ _ _ (take (Z.to_nat size) ram) L1 Hf2) as (x3 & Ha & L3 & F3 & Hd).
  set (d := w_next (b_w w2)) in *.
  erewrite bbind_ok by (apply hv_ok; exact Ha).
  set (st := MkResetState r' s f [MkResetMemory (Ptr d 0) 0 size]).
  destruct (put_rst_live _ _ _ _ _ _ st L3) as (x4 & v4 & Hp & L4 & Hsame & F4 & Hh).
  erewrite bbind_ok.
  2:{ apply hv_ok. cbn. rewrite (save_reset_state_regions_eq _ _ _ _ _ _ _
        (live_obj _ _ _ _ _ _ L3) (live_cpu _ _ _ _ _ _ L3)). exact Hp. }
  eexists _, d. split; [reflexivity|]. split; [|split; [|split]].
  - apply (After _ _ _ _ _ _ _ _ v4); [exact L4|done|cbn; congruence|cbn; congruence|].
    cbn. eapply frame_trans; [exact F1|]. rewrite <- E1. by eapply frame_trans.
  - by apply (get_put_rst _ _ _ _ Hp).
  - cbn. by rewrite Hh.
  - unfold d. rewrite E1. apply F1.
Qed.

(** [serve] does what the abstract handler says. *)
Definition served (code : ptr) (codesz memsz : Z) (w : bworld) (vm : Z) (v : Virtine)
    (r : kvm_regs) (s : sregs) (f : fpu) (b : Z)
    (out : option (kvm_regs * list Z * ost * bool)) : Prop :=
  match out with
  | Some (r', ram', o', done) =>
      exists w' r1, serve g_use_snapshots code codesz memsz vm r w = Ok ((r', done), w') /\
        after w w' vm v (r1, s, f) b ram' o'
  | None => serve g_use_snapshots code codesz memsz vm r w = Err Fault
  end.

Lemma after_refl w vm v c b ram :
  live (b_w w) vm v c b ram -> after w w vm v c b ram (b_os w).
Proof. intros L. by exists v; try apply frame_refl. Qed.

(** Narrowing a register that was read as a long long. *)
Lemma s64_shift x : exists k, s64 x = x + k * 2 ^ 32.
Proof.
  unfold swrap. rewrite Z.mod_eq by lia. exists (- ((x + 2 ^ (64 - 1)) / 2 ^ 64) * 2 ^ 32).
  change (2 ^ 64) with (2 ^ 32 * 2 ^ 32). lia.
Qed.

Lemma s32_s64 x : s32 (s64 x) = s32 x.
Proof.
  destruct (s64_shift x) as [k ->]. unfold swrap. f_equal.
  replace (x + k * 2 ^ 32 + 2 ^ (32 - 1)) with (x + 2 ^ (32 - 1) + k * 2 ^ 32) by lia.
  apply Z_mod_plus_full.
Qed.

Lemma u32_s64 x : u32 (s64 x) = u32 x.
Proof. destruct (s64_shift x) as [k ->]. apply Z_mod_plus_full. Qed.

(** No bytes come through a null pointer. *)
Lemma read_null_empty o fd ok n x data o' :
  os_read o fd ok n = (x, data, o') -> ok = false -> data = [].
Proof. intros E ->. pose proof (law_read_null o fd n) as H. by rewrite E in H. Qed.

Lemma fstat_null_empty o fd ok x data o' :
  os_fstat o fd ok = (x, data, o') -> ok = false -> data = [].
Proof. intros E ->. pose proof (law_fstat_null o fd) as H. by rewrite E in H. Qed.

(** A handler that puts the result of a call in rax. *)
Lemma call_served code codesz memsz w vm v r s f b (m : M bworld Z) out :
  serve g_use_snapshots code codesz memsz vm r w =
    (x ← m; mret (set_rax (u64 x) r, false) : M bworld (kvm_regs * bool)) w ->
  call_gives w vm v (r, s, f) b m out ->
  served code codesz memsz w vm v r s f b
    (match out with Some (x, ram, o) => Some (set_rax (u64 x) r, ram, o, false) | None => None end).
Proof.
  intros E H. destruct out as [[[x ram] o]|]; cbn in *; rewrite E.
  - destruct H as (w' & H & A). exists w', r. split; [|done]. by rewrite (bbind_ok _ _ _ _ _ H).
  - unfold_M. by rewrite H.
Qed.

Lemma serve_refines code codesz memsz w vm v r s f b ram :
  live (b_w w) vm v (r, s, f) b ram -> fresh_ok (b_w w) -> b_lock w = false ->
  served code codesz memsz w vm v r s f b (spec_serve (b_os w) r ram).
Proof.
  intros L Hf Hl. pose proof (u64_nonneg (rcx r)) as Hn.
  eassert (Hsv : serve g_use_snapshots code codesz memsz vm r w = _).
  { unfold serve.
    rewrite (bbind_ok _ _ _ _ _ (hv_pure _ _ _ (get_virtine_eq _ _ _ (live_obj _ _ _ _ _ _ L)))).
    rewrite !(validate_args _ _ _ _ _ _ _ _ L), !(translate_args _ _ _ _ _ _ _ L).
    rewrite !s32_s64, !u32_s64, (uwrap_swrap 64 (rcx r)) by lia. reflexivity. }
  revert Hsv. unfold spec_serve.
  destruct (rdi r =? 0xFF).
  { unfold served. destruct g_use_snapshots; cbn [negb]; intros Hsv; [|eexists _, r; by eauto using after_refl].
    pose proof (take_snapshot_after code codesz memsz _ _ _ _ _ _ _ _ (rdx r) L Hf Hl) as Ht.
    cbv zeta in Ht. destruct (u64 (rdx r) <=? blen ram).
    - destruct Ht as (w' & d & Ht & Ha & _). eexists w', _. split; [|exact Ha].
      rewrite Hsv. by rewrite (bbind_ok _ _ _ _ _ Ht).
    - cbn. rewrite Hsv. unfold_M. by rewrite Ht. }
  destruct (rdi r =? HCALL_exit); [intros Hsv; eexists _, r; by eauto using after_refl|].
  destruct (rdi r =? HCALL_close).
  { intros Hsv. destruct (os_close _ _) as [x o] eqn:E. eexists _, r. split; [|by apply after_os].
    rewrite Hsv. by erewrite bbind_ok by (unfold sys_close, os_call; by rewrite E). }
  destruct (rdi r =? HCALL_open).
  { destruct (_ <=? blen ram); intros Hsv; [|eexists _, r; by eauto using after_refl].
    pose proof (call_served _ _ _ _ _ _ _ s f _ _ _ Hsv
      (sys_open_gives _ _ _ _ _ _ (rsi r) _ _ L)) as Hc.
    clear Hsv. by repeat (destr_match; simplify_eq). }
  destruct (rdi r =? HCALL_read).
  { destruct (u64 (_ + _) <=? blen ram); intros Hsv; [|eexists _, r; by eauto using after_refl].
    unfold sys_read in Hsv. rewrite guest_ptr_null in Hsv.
    destruct (os_read _ _ _ _) as [[x data] o] eqn:E.
    pose proof (call_served _ _ _ _ _ _ _ s f _ _ _ Hsv
      (fill_gives _ _ _ _ _ _ (rdx r) _ (fun o => os_read o _ _ _) _ _ _ L E
         (read_null_empty _ _ _ _ _ _ _ E))) as Hc.
    clear Hsv. by repeat (destr_match; simplify_eq). }
  destruct (rdi r =? HCALL_write).
  { destruct (u64 (_ + _) <=? blen ram); intros Hsv; [|eexists _, r; by eauto using after_refl].
    pose proof (call_served _ _ _ _ _ _ _ s f _ _ _ Hsv
      (sys_write_gives _ _ _ _ _ _ (rdx r) _ (s32 (rsi r)) L Hn)) as Hc.
    clear Hsv. by repeat (destr_match; simplify_eq). }
  destruct (rdi r =? HCALL_fstat); [|intros Hsv; eexists _, r; by eauto using after_refl].
  destruct (u64 (_ + _) <=? blen ram); intros Hsv; [|eexists _, r; by eauto using after_refl].
  unfold sys_fstat in Hsv. rewrite guest_ptr_null in Hsv.
  destruct (os_fstat _ _ _) as [[x data] o] eqn:E.
  pose proof (call_served _ _ _ _ _ _ _ s f _ _ _ Hsv
    (fill_gives _ _ _ _ _ _ (rdx r) _ (fun o => os_fstat o _ _) _ _ _ L E
       (fstat_null_empty _ _ _ _ _ _ E))) as Hc.
  clear Hsv. by repeat (destr_match; simplify_eq).
Qed.

Lemma after_write_regs w w1 vm v r s f b ram o r' :
  after w w1 vm v (r, s, f) b ram o ->
  exists w2, hv (write_regs vm r') w1 = Ok (tt, w2) /\ after w w2 vm v (r', s, f) b ram o.
Proof.
  intros [v1 L1 (Hc & Hv & Hm) Ho Hl F].
  destruct (write_regs_live _ _ _ _ _ _ _ _ r' L1) as (x & Hw & L2 & F2).
  eexists. split; [by apply hv_ok|]. exists v1; [exact L2|done|done|done|].
  rewrite Hc in F2. by eapply frame_trans.
Qed.

Lemma hypercall_ok code codesz memsz whitelist w vm v r s f b ram :
  live (b_w w) vm v (r, s, f) b ram -> fresh_ok (b_w w) -> b_lock w = false ->
  match spec_hypercall whitelist (b_os w) r ram with
  | Some (r', ram', o', done) =>
      exists w', hypercall ub_shift g_use_snapshots code codesz memsz whitelist vm w
                   = Ok (done, w') /\
        after w w' vm v (r', s, f) b ram' o'
  | None => hypercall ub_shift g_use_snapshots code codesz memsz whitelist vm w = Err Fault
  end.
Proof.
  intros L Hf Hl. unfold spec_hypercall, hypercall.
  erewrite bbind_ok by (apply hv_pure; eapply read_regs_eq; apply L).
  destruct (hypercall_allowed _ _ _).
  - pose proof (serve_refines code codesz memsz _ _ _ _ _ _ _ _ L Hf Hl) as Hs.
    destruct (spec_serve _ _ _) as [[[[r' ram'] o'] done]|]; cbn in Hs.
    + destruct Hs as (w1 & r1 & Hs & Ha). destruct (after_write_regs _ _ _ _ _ _ _ _ _ _ r' Ha)
        as (w2 & Hw & Ha2).
      exists w2. split; [|done]. rewrite (bbind_ok _ _ _ _ _ Hs). cbn.
      by rewrite (bbind_ok _ _ _ _ _ Hw).
    + unfold_M. by rewrite Hs.
  - eexists. split; [by erewrite bbind_ok by (by apply hv_ok)|].
    exists v; cbn; try done; split; cbn; try apply L; done.
Qed.

(** C4: a hypercall exit refines the abstract handler, whatever the guest put in its
    registers.  For a live virtine, the handler gives the registers, the memory, the
    host state and the decision to stop that the specification gives, touches no
    other virtine, VCPU or block, and faults exactly where the specification leaves
    the guest's memory: a snapshot larger than the memory, a path with no end in it,
    or a read or write whose length makes address plus length wrap around 2^64, so
    that the range check lets it through. *)
Theorem hypercall_refines code codesz memsz whitelist w vm v r s f b ram :
  live (b_w w) vm v (r, s, f) b ram -> fresh_ok (b_w w) -> b_lock w = false ->
  match spec_hypercall whitelist (b_os w) r ram with
  | Some (r', ram', o', done) =>
      exists w', hypercall ub_shift g_use_snapshots code codesz memsz whitelist vm w
                   = Ok (done, w') /\
        after w w' vm v (r', s, f) b ram' o'
  | None => hypercall ub_shift g_use_snapshots code codesz memsz whitelist vm w = Err Fault
  end.
Proof. apply hypercall_ok. Qed.

(** A hypercall that is not whitelisted changes nothing but the messages
    printed: in particular the guest's registers still hold what they held, so it
    does not see the -ENOSYS the handler meant for it. *)
Theorem hypercall_denied code codesz memsz whitelist w vm v r s f b ram :
  live (b_w w) vm v (r, s, f) b ram ->
  hypercall_allowed ub_shift (s32 (rdi r)) whitelist = false ->
  exists msg, hypercall ub_shift g_use_snapshots code codesz memsz whitelist vm w =
    Ok (false, with_w (with_out (w_out (b_w w) ++ msg) (b_w w)) w) /\
  k_cpu (w_k (with_out (w_out (b_w w) ++ msg) (b_w w))) (m_cpufd v) = Some (r, s, f).
Proof.
  intros L Hd. eexists. split; [|apply L]. unfold hypercall.
  erewrite bbind_ok by (apply hv_pure; eapply read_regs_eq; apply L). rewrite Hd.
  by erewrite bbind_ok by (by apply hv_ok).
Qed.

(** The saved prefix laid over another memory. *)
Lemma overlay_prefix h d n ram ram2 :
  h !! d = Some (take (Z.to_nat n) ram) -> 0 <= n <= blen ram -> n <= blen ram2 ->
  overlay h [MkResetMemory (Ptr d 0) 0 n] ram2 =
    Some (take (Z.to_nat n) ram ++ drop (Z.to_nat n) ram2).
Proof.
  intros Hd Hn Hn2. assert (Hlen : length (take (Z.to_nat n) ram) = Z.to_nat n)
    by (rewrite length_take; unfold blen in *; lia).
  cbn. unfold region_bytes. cbn. rewrite Hd.
  destruct (Z.eqb_spec n 0) as [->|Hz]; [done|].
  rewrite slice_is_Some by (unfold blen; lia).
  change (Z.to_nat 0) with 0%nat. rewrite drop_0, take_ge by lia.
  destruct (take (Z.to_nat n) ram) as [|x l] eqn:E; [cbn in Hlen; lia|].
  rewrite splice_is_Some by (unfold blen in *; lia).
  by change (Z.to_nat 0) with 0%nat; rewrite take_0, Nat.add_0_l, Hlen.
Qed.

(** C12: the snapshot hypercall of one virtine is what the next reset of every
    other virtine of its cache restores: after it, reset() on a virtine that
    shares the reset state gives it the registers of the snapshot (past the out
    instruction) and the first bytes of the memory of the virtine that took it. *)
Theorem snapshot_shared code codesz memsz whitelist w vm v r s f b ram m :
  g_use_snapshots = true ->
  live (b_w w) vm v (r, s, f) b ram -> fresh_ok (b_w w) -> b_lock w = false ->
  rdi r = 0xFF -> 0 <= rdx r <= blen ram -> m_reset_mask v = Some m ->
  exists w', hypercall ub_shift g_use_snapshots code codesz memsz whitelist vm w
               = Ok (false, w') /\
    forall u vu cu bu ramu, live (b_w w) u vu cu bu ramu ->
      u <> vm -> bu <> b -> m_cpufd vu <> m_cpufd v ->
      m_reset_mask vu = Some m -> rdx r <= blen ramu ->
      exists w2, reset u (b_w w') = Ok (true, w2) /\
        live w2 u vu (set_rip (u64 (rip r + 2)) r, s, f) bu
          (take (Z.to_nat (rdx r)) ram ++ drop (Z.to_nat (rdx r)) ramu).
Proof.
  intros Hsn L Hf Hl Hnr Hsz Hm. pose proof (live_max _ _ _ _ _ _ L) as Hmax.
  pose proof (take_snapshot_after code codesz memsz _ _ _ _ _ _ _ _ (rdx r) L Hf Hl) as Ht.
  cbv zeta in Ht. rewrite (uwrap_small 64) in Ht by (unfold in_u; lia).
  rewrite (proj2 (Z.leb_le _ _) (proj2 Hsz)) in Ht.
  destruct Ht as (w1 & d & Ht & [v1 L1 (Hc1 & _ & Hm1) Ho1 Hl1 F1] & Hg & Hd & Hnd).
  set (r' := set_rip (u64 (rip r + 2)) r) in *.
  pose proof (write_regs_eq (b_w w1) vm v1 r' (live_obj _ _ _ _ _ _ L1)) as Hw.
  eexists. split.
  - unfold hypercall. erewrite bbind_ok by (apply hv_pure; eapply read_regs_eq; apply L).
    assert (hypercall_allowed ub_shift (s32 (rdi r)) whitelist = true) as -> by (by rewrite Hnr).
    assert (Hs : serve g_use_snapshots code codesz memsz vm r w = Ok ((r', false), w1)).
    { unfold serve. erewrite bbind_ok by (apply hv_pure, get_virtine_eq, L).
      rewrite Hnr, Hsn. change (0xFF =? 0xFF) with true. cbv iota.
      by rewrite (bbind_ok _ _ _ _ _ Ht). }
    rewrite (bbind_ok _ _ _ _ _ Hs). cbv iota.
    by rewrite (bbind_ok _ _ _ _ _ (hv_ok _ _ _ _ Hw)).
  - intros u vu cu bu ramu Lu Hu Hbu Hcu Hmu Hfit. cbn.
    set (w2 := with_k _ _).
    assert (Hbn : bu < w_next (b_w w)) by (apply Hf; eexists; apply Lu).
    assert (Lu2 : live w2 u vu cu bu ramu).
    { split; cbn; try apply Lu.
      - rewrite (fr_virtines _ _ _ _ _ F1) by done. apply Lu.
      - rewrite law_set_regs, decide_False by congruence.
        rewrite (fr_cpus _ _ _ _ _ F1) by done. apply Lu.
      - rewrite (fr_heap _ _ _ _ _ F1) by done. apply Lu. }
    assert (Hg2 : get_rst u w2 = Ok (MkResetState r' s f [MkResetMemory (Ptr d 0) 0 (rdx r)], w2)).
    { unfold get_rst in *. rewrite (live_obj _ _ _ _ _ _ L1), Hm1, Hm in Hg.
      rewrite (live_obj _ _ _ _ _ _ Lu2), Hmu. cbn.
      destruct (w_resets (b_w w1) !! m); [|done]. congruence. }
    pose proof (overlay_prefix (w_heap w2) d (rdx r) ram ramu Hd Hsz Hfit) as Ho.
    assert (Hap : sources_apart bu [MkResetMemory (Ptr d 0) 0 (rdx r)]).
    { constructor; [cbn; lia|constructor]. }
    eexists. split; [exact (reset_eq _ _ _ _ _ _ _ _ Lu2 Hg2 Hap Ho)|].
    exact (reset_live _ _ _ _ _ _ (MkResetState _ _ _ _) _ Lu2 Ho).
Qed.
(** ** Isolation, whatever the guest passes *)

Section Isolation.
(** The virtine, its VCPU and VM descriptors, and its memory block. *)
Context (vm fd vmfd b : Z).

(** The virtine is live, executes in its own block, and blocks are numbered. *)
Record running (w : world) : Prop := Running {
  ru_fresh : fresh_ok w;
  ru_vm : k_vm_of (w_k w) fd = Some vmfd;
  ru_map : k_map (w_k w) vmfd = Some b;
  ru_live : exists v c ram, live w vm v c b ram /\ m_cpufd v = fd
}.

(** [m] keeps it running and touches nothing that is not its own. *)
Definition keeps {A} (m : M bworld A) : Prop := forall w a w',
  running (b_w w) -> m w = Ok (a, w') -> running (b_w w') /\ frame (b_w w) (b_w w') vm fd b.
Definition keeps_hv {A} (c : M world A) : Prop := forall w a w',
  running w -> c w = Ok (a, w') -> running w' /\ frame w w' vm fd b.

Lemma keeps_lift {A} (c : M world A) : keeps_hv c -> keeps (hv c).
Proof.
  intros H w a w' R E. unfold hv in E. destruct (c (b_w w)) as [[x y]|] eqn:Ec; [|done].
  injection E as <- <-. by eapply H.
Qed.

Lemma keeps_still {A} (m : M bworld A) :
  (forall w a w', m w = Ok (a, w') -> b_w w' = b_w w) -> keeps m.
Proof. intros H w a w' R E. rewrite (H _ _ _ E). split; [done|apply frame_refl]. Qed.

Lemma keeps_bind {A B} (m : M bworld A) (k : A -> M bworld B) :
  keeps m -> (forall a, keeps (k a)) -> keeps (m ≫= k).
Proof.
  intros Hm Hk w x w' R E. unfold_M. destruct (m w) as [[a w1]|] eqn:E1; [|done].
  destruct (Hm _ _ _ R E1) as [R1 F1], (Hk _ _ _ _ R1 E) as [R2 F2].
  split; [done|]. by eapply frame_trans.
Qed.

(** What is read of the object is that it has this block and this VCPU. *)
Lemma keeps_virtine {A} (k : Virtine -> M bworld A) :
  (forall v, m_mem v = Some b -> keeps (k v)) -> keeps (hv (get_virtine vm) ≫= k).
Proof.
  intros Hk w x w' R E. destruct (ru_live _ R) as (v & c & ram & L & _).
  erewrite bbind_ok in E by (apply hv_pure, get_virtine_eq, L).
  eapply Hk; [apply L|done|exact E].
Qed.

Lemma keeps_read_regs : keeps_hv (read_regs vm).
Proof.
  intros w a w' R E. unfold read_regs, cpu_of in E. unfold_M.
  repeat destr_match; simplify_eq. split; [done|apply frame_refl].
Qed.

Lemma keeps_write_regs r : keeps_hv (write_regs vm r).
Proof.
  intros w a w' R E. destruct (ru_live _ R) as (v & [[r0 s0] f0] & ram & L & Hfd).
  destruct (write_regs_live _ _ _ _ _ _ _ _ r L) as (w1 & Hw & L1 & F).
  rewrite E in Hw. injection Hw as _ <-.
  rewrite (write_regs_eq _ _ _ _ (live_obj _ _ _ _ _ _ L)) in E. injection E as _ <-.
  destruct (law_set_regs_vms (w_k w) (m_cpufd v) r) as [Hvm Hmap].
  split; [|by rewrite <- Hfd]. split; cbn; [apply R|rewrite Hvm|rewrite Hmap|]; try apply R.
  by eauto 6.
Qed.

Lemma keeps_write_bytes v x data : m_mem v = Some b -> keeps_hv (write_bytes (translate v x) data).
Proof.
  intros Hm w a w' R E. unfold translate, write_bytes in E. rewrite Hm in E.
  destruct (blen data =? 0); [simplify_eq; split; [done|apply frame_refl]|].
  destruct (m_memsz v <? u64 x); [done|].
  destruct (w_heap w !! b) as [l|] eqn:Hb; [|done].
  destruct (splice x data l) as [l'|] eqn:Hs; [|done]. injection E as <- <-.
  destruct (ru_live _ R) as (v0 & c & ram & L & Hfd).
  pose proof (live_heap _ _ _ _ _ _ L) as Hb'. rewrite Hb in Hb'. injection Hb' as ->.
  split; [split; cbn; try apply R|split; cbn; try done].
  - destruct (ru_fresh _ R) as [Hf1 Hf2]. split; [|done]. cbn. intros b' [y Hy].
    apply lookup_insert_Some in Hy as [[<- _]|[_ Hy]]; apply Hf1; by eexists.
  - exists v0, c, l'. split; [|done]. eapply live_with_ram; [done|]. by eapply splice_length.
  - intros b' Hne _. by rewrite lookup_insert_ne.
Qed.

Lemma keeps_alloc bytes : keeps_hv (alloc_block bytes).
Proof.
  intros w a w' R E. destruct (ru_live _ R) as (v & c & ram & L & Hfd).
  destruct (alloc_live _ _ _ _ _ _ bytes L (ru_fresh _ R)) as (w1 & Ha & L1 & F & _).
  rewrite E in Ha. injection Ha as _ <-. injection E as _ <-. rewrite Hfd in F.
  split; [|done]. split; cbn; try apply R; [|by eauto 6].
  destruct (ru_fresh _ R) as [Hf1 Hf2]. split; cbn.
  - intros b' [y Hy]. apply lookup_insert_Some in Hy as [[<- _]|[_ Hy]]; [lia|].
    assert (b' < w_next w) by (apply Hf1; by eexists). lia.
  - intros i v' b' Hi Hm'. specialize (Hf2 _ _ _ Hi Hm'). lia.
Qed.

Lemma keeps_save regions : keeps_hv (save_reset_state_regions vm regions).
Proof.
  intros w a w' R E. destruct (ru_live _ R) as (v & [[r s] f] & ram & L & Hfd).
  rewrite (save_reset_state_regions_eq _ _ _ _ _ _ _ (live_obj _ _ _ _ _ _ L)
             (live_cpu _ _ _ _ _ _ L)) in E.
  destruct (put_rst_live _ _ _ _ _ _ (MkResetState r s f regions) L)
    as (w1 & v1 & Hp & L1 & (Hc & _) & F & Hh).
  rewrite E in Hp. injection Hp as _ <-. rewrite Hfd in *. split; [|done].
  assert (Hk : w_k w' = w_k w /\ w_next w' = w_next w).
  { unfold put_rst in E. repeat destr_match; by simplify_eq. }
  destruct Hk as [Hk Hn]. split; rewrite ?Hk; try apply R; [|by eauto 6].
  destruct (ru_fresh _ R) as [Hf1 Hf2]. split; rewrite ?Hh, ?Hn; [done|].
  intros i vi bi Hi. destruct (decide (i = vm)) as [->|Hne].
  - rewrite (live_obj _ _ _ _ _ _ L1) in Hi. injection Hi as <-.
    rewrite (live_mem _ _ _ _ _ _ L1), <- (live_mem _ _ _ _ _ _ L). eapply Hf2, L.
  - rewrite (fr_virtines _ _ _ _ _ F) in Hi by done. by eapply Hf2.
Qed.

Lemma keeps_run : keeps_hv (run vm).
Proof.
  intros w a w' R E. destruct (ru_live _ R) as (v & c & ram & L & Hfd). unfold run in E.
  erewrite bind_ok in E by (apply get_virtine_eq, L). unfold_M. rewrite Hfd in E.
  destruct (k_run (w_k w) fd (w_heap w)) as [[rr k'] h'] eqn:Hr. injection E as _ <-.
  destruct (law_run_cpu _ _ _ _ _ _ Hr) as ([Hvm Hmap] & Hcpu & Hopen).
  destruct (law_run_heap _ _ _ _ _ _ Hr) as [Hoth Hsame].
  assert (Hram : k_ram (w_k w) fd = Some b).
  { unfold k_ram. rewrite (ru_vm _ R). apply R. }
  destruct Hopen as [c' Hc']; [eexists; rewrite <- Hfd; apply L|].
  destruct (Hsame _ _ (live_heap _ _ _ _ _ _ L)) as (ram' & Hr' & Hlen).
  destruct (ru_fresh _ R) as [Hf1 Hf2].
  split; [split; cbn|split; cbn]; try done.
  - split; [|done]. intros b' [y Hy]. destruct (decide (b' = b)) as [->|Hne].
    + apply Hf1. eexists. apply L.
    + cbn in Hy. rewrite Hoth in Hy by congruence. apply Hf1. by eexists.
  - rewrite Hvm. apply R.
  - rewrite Hmap. apply R.
  - exists v, c', ram'. split; [|done].
    split; cbn; try apply L; try done; unfold blen in *; [by rewrite Hfd|..];
      destruct L; unfold blen in *; lia.
  - intros b' Hne _. apply Hoth. congruence.
Qed.

Lemma keeps_cache_lock : keeps mutex_lock.
Proof. apply keeps_still. intros w a w' E. unfold mutex_lock in E. destr_match; by simplify_eq. Qed.
Lemma keeps_cache_unlock : keeps mutex_unlock.
Proof. apply keeps_still. intros w a w' E. by injection E as <- <-. Qed.
Lemma keeps_get_cache code codesz memsz : keeps (binding_get_cache code codesz memsz).
Proof.
  apply keeps_still. intros w a w' E. unfold binding_get_cache in E. destr_match; by simplify_eq.
Qed.
Lemma keeps_os_call {A} s (f : ost -> A * ost) : keeps (os_call s f).
Proof. apply keeps_still. intros w a w' E. unfold os_call in E. destr_match; by simplify_eq. Qed.
Lemma keeps_ret {A} (a : A) : keeps (mret a).
Proof. apply keeps_still. intros w x w' E. by injection E as <- <-. Qed.
Lemma keeps_fail {A} e : keeps (fail_with e : M bworld A).
Proof. by intros w a w'. Qed.
Lemma keeps_pure {A} (c : M world A) :
  (forall w a w', c w = Ok (a, w') -> w' = w) -> keeps_hv c.
Proof. intros H w a w' R E. rewrite (H _ _ _ E). split; [done|apply frame_refl]. Qed.
Lemma keeps_read_bytes p n : keeps_hv (read_bytes p n).
Proof. apply keeps_pure. intros w a w' E. unfold read_bytes in E. repeat destr_match; by simplify_eq. Qed.
Lemma keeps_read_path p : keeps_hv (read_path p).
Proof. apply keeps_pure. intros w a w' E. unfold read_path in E. repeat destr_match; by simplify_eq. Qed.
Lemma keeps_read_buffer p n : keeps_hv (read_buffer p n).
Proof.
  apply keeps_pure. intros w a w' E. unfold read_buffer, read_bytes in E. unfold_M.
  repeat destr_match; by simplify_eq.
Qed.
Lemma keeps_message f : keeps_hv (modify (fun w : world => with_out (f w) w)).
Proof.
  intros w a w' [? ? ? (v & c & ram & [] & ?)] E. unfold_M. injection E as _ <-.
  split; [|by split]. split; try done. exists v, c, ram. by split.
Qed.
End Isolation.

Ltac keeps_step :=
  match goal with
  | |- keeps _ _ _ _ (hv (get_virtine _) ≫= _) => apply keeps_virtine; intros ? ?
  | |- keeps _ _ _ _ (_ ≫= _) => apply keeps_bind; [|intros ?]
  | |- keeps _ _ _ _ (if ?b then _ else _) => destruct b eqn:?
  | |- keeps _ _ _ _ (match ?x with _ => _ end) => destruct x eqn:?
  | |- keeps _ _ _ _ (hv _) => apply keeps_lift
  | |- _ => first
      [ apply keeps_ret | apply keeps_fail | apply keeps_os_call | apply keeps_cache_lock
      | apply keeps_cache_unlock | apply keeps_get_cache | apply keeps_read_regs
      | apply keeps_write_regs | apply keeps_write_bytes; assumption | apply keeps_alloc
      | apply keeps_save | apply keeps_run | apply keeps_read_bytes | apply keeps_read_path
      | apply keeps_read_buffer | apply keeps_message ]
  end.

Lemma keeps_run_once vm fd vmfd b code codesz memsz whitelist :
  keeps vm fd vmfd b (run_once ub_shift g_use_snapshots code codesz memsz whitelist vm).
Proof.
  unfold run_once, hypercall, serve, sys_close, sys_open, sys_read, sys_write, sys_fstat,
    take_snapshot.
  repeat keeps_step.
Qed.

(** The hypercall arguments for which the handler reads or writes beyond the guest's
    memory: a snapshot of more bytes than there are, a path that passes the check of
    its first 256 bytes and has no end in the memory, and a buffer of read() or
    write() that starts inside and whose length wraps around 2^64. *)
Definition escapes (r : kvm_regs) (ram : list Z) : Prop :=
  (rdi r = 0xFF /\ g_use_snapshots = true /\ blen ram < u64 (rdx r)) \/
  (rdi r = HCALL_open /\ u64 (rsi r) + 256 <= blen ram /\
     path_bytes 4096 (drop (Z.to_nat (u64 (rsi r))) ram) = None) \/
  ((rdi r = HCALL_read \/ rdi r = HCALL_write) /\
     u64 (rdx r) <= blen ram /\ 2 ^ 64 <= u64 (rdx r) + u64 (rcx r)).

(** Address plus length, both below 2^64. *)
Lemma u64_sum a n : u64 (a + n) = u64 a + u64 n \/ 2 ^ 64 <= u64 a + u64 n.
Proof.
  pose proof (uwrap_range 64 a ltac:(lia)) as Ha. pose proof (uwrap_range 64 n ltac:(lia)) as Hn.
  unfold in_u in *. destruct (Z.lt_ge_cases (u64 a + u64 n) (2 ^ 64)); [left|by right].
  rewrite <- uwrap_add_l, <- uwrap_add_r. apply uwrap_small. unfold in_u. lia.
Qed.

(** Bytes that fit the length do not fit the memory: the length wrapped. *)
Lemma splice_wraps a n (data ram : list Z) :
  0 <= u64 n -> blen data <= u64 n -> u64 (a + u64 n) <= blen ram ->
  splice (u64 a) data ram = None -> 2 ^ 64 <= u64 a + u64 n.
Proof.
  intros Hn Hd Hc Hs. pose proof (u64_nonneg a).
  destruct (u64_sum a (u64 n)) as [E|E]; rewrite uwrap_idemp in E; [|done]. exfalso.
  rewrite splice_is_Some in Hs; [done|lia|lia].
Qed.

(** Only these leave the memory. *)
Lemma spec_serve_escapes o r ram :
  blen ram < 2 ^ 63 -> spec_serve o r ram = None -> escapes r ram.
Proof.
  intros Hmax. unfold spec_serve, escapes.
  pose proof (u64_nonneg (rsi r)). pose proof (u64_nonneg (rdx r)). pose proof (u64_nonneg (rcx r)).
  destruct (Z.eqb_spec (rdi r) 0xFF).
  { repeat destr_match; try done. zbool. intros _. left. split; [done|]. split; [by destruct g_use_snapshots|lia]. }
  destruct (rdi r =? HCALL_exit); [done|].
  destruct (rdi r =? HCALL_close); [by repeat destr_match|].
  destruct (Z.eqb_spec (rdi r) HCALL_open).
  { destruct (u64 (rsi r + 256) <=? blen ram) eqn:E1; [|done].
    destruct (u64 (rsi r) <=? blen ram) eqn:E2; [|by repeat destr_match].
    zbool. destruct (path_bytes _ _) eqn:E; [by repeat destr_match|]. intros _. right. left.
    destruct (u64_sum (rsi r) 256) as [E3|E3]; change (u64 256) with 256 in E3; repeat split; try done; lia. }
  destruct (Z.eqb_spec (rdi r) HCALL_read).
  { destruct (Z.leb_spec (u64 (rdx r + u64 (rcx r))) (blen ram)); [|done].
    destruct (os_read _ _ _ _) as [[x data] o'] eqn:E.
    destruct (Z.leb_spec (u64 (rdx r)) (blen ram)); [|done].
    destruct (splice _ _ _) eqn:Hs; [done|]. intros _. right. right. split; [by left|]. split; [done|].
    eapply splice_wraps; [done| |done|exact Hs].
    pose proof (law_read o (s32 (rsi r)) (u64 (rcx r)) ltac:(done)) as Hl. by rewrite E in Hl. }
  destruct (Z.eqb_spec (rdi r) HCALL_write).
  { destruct (Z.leb_spec (u64 (rdx r + u64 (rcx r))) (blen ram)); [|done].
    destruct (Z.leb_spec (u64 (rdx r)) (blen ram)); [|by repeat destr_match].
    destruct (slice _ _ _) eqn:Es; [by repeat destr_match|]. intros _. right. right.
    split; [by right|]. split; [done|].
    destruct (u64_sum (rdx r) (u64 (rcx r))) as [E|E]; rewrite uwrap_idemp in E; [|done].
    rewrite slice_is_Some in Es; [done|lia..]. }
  destruct (rdi r =? HCALL_fstat); [|done].
  destruct (Z.leb_spec (u64 (rdx r + sizeof_stat)) (blen ram)); [|done].
  destruct (os_fstat _ _ _) as [[x data] o'] eqn:E.
  destruct (Z.leb_spec (u64 (rdx r)) (blen ram)); [|done].
  destruct (splice _ _ _) eqn:Hs; [done|]. intros _. exfalso.
  assert (2 ^ 64 <= u64 (rdx r) + u64 sizeof_stat); [|change (u64 sizeof_stat) with 144 in *; lia].
  eapply splice_wraps; [done| |done|exact Hs].
  pose proof (law_fstat o (s32 (rsi r))) as Hl. by rewrite E in Hl.
Qed.

(** One exit of a running virtine: it goes on confined to its memory, or the process
    ends because KVM_RUN failed, or the guest asked for one of [escapes]. *)
Definition confined_step (code : ptr) (codesz memsz whitelist vm fd vmfd b : Z) (w : bworld) : Prop :=
  exists reason w1 v r s f ram,
    run vm (b_w w) = Ok (reason, w1) /\ live w1 vm v (r, s, f) b ram /\
    match run_once ub_shift g_use_snapshots code codesz memsz whitelist vm w with
    | Ok (_, w') => running vm fd vmfd b (b_w w') /\ b_lock w' = false /\ frame (b_w w) (b_w w') vm fd b
    | Err Fault => reason = HyperCall /\
        hypercall_allowed ub_shift (s32 (rdi r)) whitelist = true /\ escapes r ram
    | Err Aborted => reason = Crashed
    | Err _ => False
    end.

Lemma run_once_confined code codesz memsz whitelist vm fd vmfd b w :
  running vm fd vmfd b (b_w w) -> b_lock w = false ->
  confined_step code codesz memsz whitelist vm fd vmfd b w.
Proof.
  intros R Hl. destruct (ru_live _ _ _ _ _ R) as (v0 & c0 & ram0 & L0 & _).
  assert (exists reason w1, run vm (b_w w) = Ok (reason, w1)) as (reason & w1 & Hrun).
  { unfold run. erewrite bind_ok by (apply get_virtine_eq, L0). unfold_M. repeat destr_match; eauto. }
  destruct (keeps_run _ _ _ _ _ _ _ R Hrun) as [R1 F1].
  destruct (ru_live _ _ _ _ _ R1) as (v & [[r s] f] & ram & L & Hfd).
  exists reason, w1, v, r, s, f, ram. split; [done|]. split; [done|].
  pose proof (hypercall_ok code codesz memsz whitelist (with_w w1 w) vm v r s f b ram L
    (ru_fresh _ _ _ _ _ R1) Hl) as Hh.
  destruct (run_once _ _ _ _ _ _ _ w) as [[a w']|e] eqn:Ho.
  - destruct (keeps_run_once vm fd vmfd b _ _ _ _ _ _ _ R Ho) as [R' F']. split; [done|]. split; [|done].
    unfold run_once in Ho. rewrite (bbind_ok _ _ _ _ _ (hv_ok _ _ _ _ Hrun)) in Ho.
    destruct reason; try (by injection Ho as <- <-).
    + unfold_M. repeat destr_match; done.
    + cbv beta iota in Ho. destruct (spec_hypercall _ _ _ _) as [[[[r' ram'] o'] done]|]; [|congruence].
      destruct Hh as (w2 & Hh & [? ? ? ? Hlk ?]). rewrite Ho in Hh. simplify_eq. by rewrite Hlk.
  - unfold run_once in Ho. rewrite (bbind_ok _ _ _ _ _ (hv_ok _ _ _ _ Hrun)) in Ho.
    destruct reason; try done.
    + unfold_M. unfold hv in Ho. cbn in Ho.
      rewrite (read_regs_eq _ _ _ _ _ _ (live_obj _ _ _ _ _ _ L) (live_cpu _ _ _ _ _ _ L)) in Ho.
      by injection Ho as <-.
    + cbv beta iota in Ho. unfold spec_hypercall in Hh. destruct (hypercall_allowed _ _ _) eqn:Hal.
      2:{ destruct Hh as (? & ? & _). congruence. }
      destruct (spec_serve _ _ _) as [[[[r' ram'] o'] done]|] eqn:Hs.
      { destruct Hh as (? & ? & _). congruence. }
      rewrite Ho in Hh. injection Hh as ->. split; [done|]. split; [done|].
      eapply spec_serve_escapes; [apply L|exact Hs].
Qed.


(** ** Arguments *)

Lemma keeps_hv_bind vm fd vmfd b {A B} (m : M world A) (k : A -> M world B) :
  keeps_hv vm fd vmfd b m -> (forall a, keeps_hv vm fd vmfd b (k a)) ->
  keeps_hv vm fd vmfd b (m ≫= k).
Proof.
  intros Hm Hk w x w' R E. apply bind_inv in E as (a & w1 & E1 & E).
  destruct (Hm _ _ _ R E1) as [R1 F1], (Hk _ _ _ _ R1 E) as [R2 F2].
  split; [done|]. by eapply frame_trans.
Qed.

Lemma keeps_reset vm fd vmfd b : keeps_hv vm fd vmfd b (reset vm).
Proof.
  assert (Hcopy : forall v rs, m_mem v = Some b -> keeps_hv vm fd vmfd b (copy_regions v rs)).
  { intros v rs Hm. induction rs as [|r rs IH]; [by apply keeps_pure; intros ? ? ? [= _ <-]|].
    cbn. apply keeps_hv_bind; [|done]. apply keeps_hv_bind; [apply keeps_read_bytes|].
    intros bs. by apply keeps_write_bytes. }
  intros w x w' R E. unfold reset in E. apply bind_inv in E as (s & w1 & E1 & E).
  assert (w1 = w) as -> by (unfold get_rst in E1; repeat destr_match; by simplify_eq).
  destruct (ru_live _ _ _ _ _ R) as (v & c & ram & L & Hfd).
  rewrite (bind_ok _ _ _ _ _ (write_regs_eq w vm v _ (live_obj _ _ _ _ _ _ L))) in E.
  erewrite bind_ok in E by (apply write_sregs_eq; apply L).
  erewrite bind_ok in E by (apply write_fpu_eq; apply L).
  erewrite bind_ok in E by (apply get_virtine_eq; apply L). cbn [w_k with_k] in E.
  set (w2 := with_k (set_cpu (w_k w) (m_cpufd v) s) w).
  apply bind_inv in E as ([] & w3 & E2 & E). injection E as _ <-.
  destruct (law_set_regs_vms (w_k w) (m_cpufd v) (rs_regs s)) as [V1 M1].
  destruct (law_set_sregs_vms (k_set_regs (w_k w) (m_cpufd v) (rs_regs s)) (m_cpufd v) (rs_sregs s))
    as [V2 M2].
  destruct (law_set_fpu_vms (k_set_sregs (k_set_regs (w_k w) (m_cpufd v) (rs_regs s))
              (m_cpufd v) (rs_sregs s)) (m_cpufd v) (rs_fpu s)) as [V3 M3].
  assert (R2 : running vm fd vmfd b w2).
  { split; [apply R|unfold w2, set_cpu; cbn; rewrite V3, V2, V1; apply R
      |unfold w2, set_cpu; cbn; rewrite M3, M2, M1; apply R|].
    exists v, (rs_regs s, rs_sregs s, rs_fpu s), ram. split; [|done]. split; cbn; try apply L.
    rewrite set_cpu_spec, decide_True by done. by rewrite (live_cpu _ _ _ _ _ _ L). }
  assert (F2 : frame w w2 vm fd b).
  { split; try done. intros fd' Hne. cbn. by rewrite set_cpu_spec, decide_False by congruence. }
  destruct (Hcopy _ _ (live_mem _ _ _ _ _ _ L) _ _ _ R2 E2) as [R3 F3].
  split; [done|]. by eapply frame_trans.
Qed.

Lemma keeps_run_loop vm fd vmfd b fuel code codesz memsz whitelist :
  keeps vm fd vmfd b (run_loop ub_shift g_use_snapshots fuel code codesz memsz whitelist vm).
Proof.
  induction fuel as [|fuel IH]; cbn; [apply keeps_fail|].
  apply keeps_bind; [apply keeps_run_once|]. intros []; [apply keeps_ret|done].
Qed.

(** The memory of a virtine. *)
Definition ram_of (w : bworld) (vm : Z) : option (list Z) :=
  match w_virtines (b_w w) !! vm with
  | Some v => match m_mem v with Some b => w_heap (b_w w) !! b | None => None end
  | None => None
  end.

Lemma running_ram vm fd vmfd b w :
  running vm fd vmfd b (b_w w) -> exists ram, ram_of w vm = Some ram /\ w_heap (b_w w) !! b = Some ram.
Proof.
  intros [_ _ _ (v & c & ram & L & _)]. exists ram. unfold ram_of.
  by rewrite (live_obj _ _ _ _ _ _ L), (live_mem _ _ _ _ _ _ L), (live_heap _ _ _ _ _ _ L).
Qed.

Lemma memcpy_inv (dst src : Z) off1 off2 n (w : world) w' :
  0 < n -> memcpy (Ptr dst off1) (Ptr src off2) n w = Ok (tt, w') ->
  exists l bs l2 l2', w_heap w !! src = Some l /\ slice off2 n l = Some bs /\
    w_heap w !! dst = Some l2 /\ splice off1 bs l2 = Some l2' /\
    w' = with_heap (<[dst := l2']> (w_heap w)) w.
Proof.
  intros Hn H. apply bind_inv in H as (bs & w1 & H1 & H2).
  unfold read_bytes in H1. rewrite (proj2 (Z.eqb_neq n 0)) in H1 by lia.
  destruct (w_heap w !! src) as [l|] eqn:El; [|done].
  destruct (slice off2 n l) as [bs'|] eqn:Es; [|done]. injection H1 as <- <-.
  pose proof (slice_length _ _ _ _ Es). unfold write_bytes in H2.
  rewrite (proj2 (Z.eqb_neq _ 0)) in H2 by lia.
  destruct (w_heap w !! dst) as [l2|] eqn:E2; [|done].
  destruct (splice off1 bs' l2) as [l2'|] eqn:E3; [|done]. injection H2 as <-. by eauto 10.
Qed.

Lemma bbind_inv {A B} (m : M bworld A) (f : A -> M bworld B) w b w' :
  (m ≫= f) w = Ok (b, w') -> exists a w1, m w = Ok (a, w1) /\ f a w1 = Ok (b, w').
Proof. unfold_M. intros H. destruct (m w) as [[a w1]|]; [by eauto|done]. Qed.

Lemma hv_inv {A} (c : M world A) w a w' :
  hv c w = Ok (a, w') -> exists x, c (b_w w) = Ok (a, x) /\ w' = with_w x w.
Proof.
  unfold hv. intros H. destruct (c (b_w w)) as [[y x]|]; [|done]. injection H as <- <-. by eauto.
Qed.

(** start_virtine: a running virtine whose memory begins with the arguments. *)
Lemma start_virtine_inv img bb bs cache out code codesz memsz a off argsz w vm pos w1 host :
  b_caches w !! code = Some cache -> pool_inv img bb bs (b_w w) cache out ->
  0 < argsz -> w_heap (b_w w) !! a = Some host ->
  (forall i v, w_virtines (b_w w) !! i = Some v -> m_mem v <> Some a) ->
  start_virtine g_use_snapshots code codesz memsz (Ptr a off) argsz w = Ok ((vm, pos), w1) ->
  exists fd vmfd b ram1, running vm fd vmfd b (b_w w1) /\ pos = Ptr b 0 /\ b <> a /\
    w_heap (b_w w1) !! a = Some host /\ w_heap (b_w w1) !! b = Some ram1 /\
    slice off argsz host = Some (take (Z.to_nat argsz) ram1).
Proof.
  intros Hc I Hn Ha Hno H. unfold start_virtine, mutex_lock, mutex_unlock, binding_get_cache in H.
  unfold_M. destruct (b_lock w); [done|]. cbn in H. rewrite Hc in H. cbn in H.
  destruct (hv (get cache) _) as [[[vid c'] w2]|] eqn:Hg; [|done].
  apply hv_inv in Hg as (x & Hg & ->). cbn in Hg, H.
  destruct (get_inv _ _ _ _ _ _ _ _ _ I Hg) as (I2 & _).
  destruct (get_frame _ _ _ _ _ _ _ _ _ a host I Hg Ha Hno) as [Ha2 Hno2].
  destruct (pool_inv_out _ _ _ _ _ _ vid I2 (list_elem_of_here _ _)) as (r & v & cpu & b & ram & Hvo).
  pose proof (vo_live _ _ _ _ _ _ _ _ _ Hvo) as L. pose proof (live_max _ _ _ _ _ _ L).
  unfold store_cache in H. unfold_M. cbn in H.
  unfold hv at 1 in H. cbn in H. rewrite (get_virtine_eq _ _ _ (live_obj _ _ _ _ _ _ L)) in H. cbn in H.
  pose proof (blen_nonneg ram).
  rewrite (translate_in_range v b 0) in H by (destruct L; (done || lia)).
  destruct (hv (memcpy _ _ _) _) as [[[] w3]|] eqn:Hm; [|done].
  apply hv_inv in Hm as (y & Hm & ->). cbn in Hm.
  destruct (memcpy_inv _ _ _ _ _ _ _ Hn Hm) as (l & bs1 & l2 & l2' & E1 & E2 & E3 & E4 & ->).
  rewrite Ha2 in E1. injection E1 as <-. rewrite (live_heap _ _ _ _ _ _ L) in E3. injection E3 as <-.
  assert (Hba : b <> a).
  { intros ->. apply (Hno2 vid v); apply L. }
  set (w4 := with_heap (<[b := l2']> (w_heap x)) x) in *.
  assert (R4 : running vid (m_cpufd v) (m_vmfd v) b w4).
  { destruct (pi_fresh _ _ _ _ _ _ I2) as [Hf1 Hf2].
    split; cbn; [split; [|done]|apply Hvo|apply Hvo|].
    - cbn. intros b' [z Hz]. apply lookup_insert_Some in Hz as [[<- _]|[_ Hz]]; apply Hf1;
        [eexists; apply L|by eexists].
    - exists v, cpu, l2'. split; [|done]. eapply live_with_ram; [done|]. by eapply splice_length. }
  assert (Hsl : slice off argsz host = Some (take (Z.to_nat argsz) l2')).
  { rewrite E2. f_equal. pose proof (slice_length _ _ _ _ E2).
    apply splice_Some in E4 as [_ ->]. symmetry.
    change (Z.to_nat 0) with 0%nat. rewrite take_0, app_nil_l.
    rewrite take_app_le by (unfold blen in *; lia). apply take_ge. unfold blen in *; lia. }
  assert (Hfin : vm = vid -> pos = Ptr b 0 -> forall w6, running vid (m_cpufd v) (m_vmfd v) b (b_w w6) -> w_heap (b_w w6) = w_heap w4 ->
     exists fd vmfd b0 ram1, running vm fd vmfd b0 (b_w w6) /\ pos = Ptr b0 0 /\ b0 <> a /\
       w_heap (b_w w6) !! a = Some host /\ w_heap (b_w w6) !! b0 = Some ram1 /\
       slice off argsz host = Some (take (Z.to_nat argsz) ram1)).
  { intros -> -> w6 R6 Hh. eexists _, _, b, l2'. split; [exact R6|]. rewrite Hh. cbn.
    rewrite lookup_insert_ne, lookup_insert_eq by done. done. }
  destruct g_use_snapshots.
  - injection H as <- <- <-. by apply Hfin.
  - destruct (hv (read_regs vid) _) as [[regs w5]|] eqn:Hr; [|done].
    apply hv_inv in Hr as (z & Hr & ->). cbn in Hr, H.
    assert (z = w4) as ->.
    { unfold read_regs, cpu_of in Hr. unfold_M. repeat destr_match; by simplify_eq. }
    destruct (hv (write_regs vid _) _) as [[[] w6]|] eqn:Hw; [|done].
    apply hv_inv in Hw as (z & Hw & ->). cbn in Hw, H. injection H as <- <- <-.
    destruct (keeps_write_regs _ _ _ _ _ _ _ _ R4 Hw) as [R6 _].
    apply Hfin; try done. cbn.
    rewrite (write_regs_eq w4 _ v) in Hw by apply L. by injection Hw as <-.
Qed.

(** A call passes its arguments by value and result.  When wasp_run_virtine
    returns, the guest had started with the caller's argument block at address 0,
    the caller's block now holds the first bytes of the memory the guest left
    (and is otherwise unchanged), and the virtine is last in the pool. *)
Theorem run_virtine_arguments img bb bs cache out fuel code codesz memsz a off argsz vconfig w w' host :
  b_caches w !! code = Some cache -> pool_inv img bb bs (b_w w) cache out ->
  0 < argsz -> w_heap (b_w w) !! a = Some host ->
  (forall i v, w_virtines (b_w w) !! i = Some v -> m_mem v <> Some a) ->
  wasp_run_virtine ub_shift g_use_snapshots fuel code codesz memsz (Ptr a off) argsz vconfig w
    = Ok (tt, w') ->
  exists vm w1 w2 ram1 ram2,
    ram_of w1 vm = Some ram1 /\ slice off argsz host = Some (take (Z.to_nat argsz) ram1) /\
    run_loop ub_shift g_use_snapshots fuel code codesz memsz (whitelist_of vconfig) vm w1
      = Ok (tt, w2) /\
    ram_of w2 vm = Some ram2 /\
    w_heap (b_w w') !! a = splice off (take (Z.to_nat argsz) ram2) host /\
    exists c', b_caches w' !! code = Some c' /\ last (c_pool c') = Some vm.
Proof.
  intros Hc I Hn Ha Hno H. unfold wasp_run_virtine in H.
  apply bbind_inv in H as ([vm pos] & w1 & Hs & H).
  destruct (start_virtine_inv _ _ _ _ _ _ _ _ _ _ _ _ _ _ _ _ Hc I Hn Ha Hno Hs)
    as (fd & vmfd & b & ram1 & R1 & -> & Hba & Ha1 & Hb1 & Harg).
  apply bbind_inv in H as ([] & w2 & Hl & H).
  destruct (keeps_run_loop _ _ _ _ _ _ _ _ _ _ _ _ R1 Hl) as [R2 F2].
  destruct (running_ram _ _ _ _ _ R1) as (x & Hx & Hx'). rewrite Hb1 in Hx'. injection Hx' as <-.
  destruct (running_ram _ _ _ _ _ R2) as (ram2 & Hr2 & Hb2).
  assert (Ha2 : w_heap (b_w w2) !! a = Some host).
  { rewrite (fr_heap _ _ _ _ _ F2); [done|congruence|]. apply R1. by eexists. }
  exists vm, w1, w2, ram1, ram2. split; [done|]. split; [done|]. split; [done|]. split; [done|].
  unfold finish_virtine in H. apply bbind_inv in H as ([] & w3 & Hm & H).
  apply hv_inv in Hm as (y & Hm & ->).
  destruct (memcpy_inv _ _ _ _ _ _ _ Hn Hm) as (l & bs1 & l2 & l2' & E1 & E2 & E3 & E4 & ->).
  rewrite Hb2 in E1. injection E1 as <-. rewrite Ha2 in E3. injection E3 as <-.
  assert (bs1 = take (Z.to_nat argsz) ram2) as -> by (by apply slice_Some in E2 as [_ ->]).
  rewrite E4.
  set (w3 := with_heap _ _) in H.
  assert (R3 : running vm fd vmfd b w3).
  { destruct R2 as [[Hf1 Hf2] Rv Rm (v & c & ram & [] & Hfd)].
    split; [split; [|done]|done|done|].
    - cbn. intros b' [z Hz]. apply lookup_insert_Some in Hz as [[<- _]|[_ Hz]]; apply Hf1; by eexists.
    - exists v, c, ram. split; [|done]. split; cbn; try done. by rewrite lookup_insert_ne by congruence. }
  unfold mutex_lock, mutex_unlock, store_cache in H. unfold_M.
  destruct (b_lock (with_w w3 w2)); [done|].
  destruct (binding_get_cache code codesz memsz _) as [[c4 w4]|] eqn:Hgc; [|done].
  assert (b_w w4 = w3) as E5.
  { unfold binding_get_cache in Hgc. cbn in Hgc. destruct (b_caches w2 !! code); by injection Hgc as <- <-. }
  destruct (hv (put vm c4) w4) as [[c5 w5]|] eqn:Hp; [|done]. injection H as <-.
  apply hv_inv in Hp as (z & Hp & ->). rewrite E5 in Hp. cbn.
  unfold put in Hp. apply bind_inv in Hp as (d & w6 & Hr & Hp).
  unfold lock in Hp. unfold_M. destruct (c_locked c4); [done|]. injection Hp as <- <-.
  destruct (keeps_reset _ _ _ _ _ _ _ R3 Hr) as [_ F6]. split.
  - rewrite (fr_heap _ _ _ _ _ F6); [cbn; apply lookup_insert_eq|congruence|].
    apply (ru_fresh _ _ _ _ _ R3). cbn. rewrite lookup_insert_eq. by eexists.
  - eexists. split; [apply lookup_insert_eq|]. cbn. apply last_snoc.
Qed.
End Serve.
End BindingTheorems.

(** ** Examples *)

(** A host whose files are all empty but for a terminal that has said two bytes. *)
#[export] Instance quiet_os : HostOS := {|
  ost := unit;
  os_close := fun o _ => (0, o);
  os_open := fun o _ _ _ => (3, o);
  os_read := fun o _ ok n =>
    if ok then (Z.min 2 n, take (Z.to_nat n) [104; 105], o) else (-1, [], o);
  os_write := fun o _ s n => (match s with Some _ => n | None => -1 end, o);
  os_fstat := fun o _ ok => if ok then (0, replicate 144 0, o) else (-1, [], o)
|}.

#[export] Instance quiet_laws : HostOSLaws.
Proof.
  split; intros; cbn; try done. unfold blen. rewrite length_take. cbn. lia.
Qed.

(** Two virtines of one cache, the first stopped at a hypercall with registers [r]. *)
Definition pair_virtine (mem vmfd cpufd : Z) : Virtine :=
  MkVirtine (Some mem) 4 3 vmfd cpufd None (Some 9).
Definition pair_world (r : kvm_regs) : bworld :=
  BWorld
    (World (ScriptKernel 20 {[5 := (r, 7, 8); 15 := (zero_regs, 7, 8)]} {[5 := 4; 15 := 14]}
              {[4 := 1; 14 := 3]} []) 3
       {[1 := [10; 20; 30; 40]; 2 := [7; 8]; 3 := [1; 2; 3; 4]]} 4
       {[0 := pair_virtine 1 4 5; 1 := pair_virtine 3 14 15]} 2 {[9 := demo_reset]} 10 [])
    ∅ false tt [].

(** hypercall(nr, a1, a2, a3) as the guest leaves it in its registers. *)
Definition hcall_regs (nr a1 a2 a3 : Z) : kvm_regs :=
  Regs 99 0 a3 a2 a1 nr 0 0 0 0 0 0 0 0 0 0 0x8000 2.

Lemma pair_live r : live (b_w (pair_world r)) 0 (pair_virtine 1 4 5) (r, 7, 8) 1 [10; 20; 30; 40].
Proof. split; try reflexivity; unfold blen; cbn; lia. Qed.

Lemma pair_live2 r : live (b_w (pair_world r)) 1 (pair_virtine 3 14 15) (zero_regs, 7, 8) 3 [1; 2; 3; 4].
Proof. split; try reflexivity; unfold blen; cbn; lia. Qed.

Lemma pair_fresh r : fresh_ok (b_w (pair_world r)).
Proof.
  split.
  - intros b [l Hb]. cbn in *. repeat (apply lookup_insert_Some in Hb as [[<- _]|[_ Hb]]; [lia|]).
    apply lookup_singleton_Some in Hb as [<- _]. lia.
  - intros i v b Hi. cbn in *. apply lookup_insert_Some in Hi as [[_ <-]|[_ Hi]]; cbn.
    + intros [= <-]. lia.
    + apply lookup_singleton_Some in Hi as [_ <-]. cbn. intros [= <-]. lia.
Qed.

Definition no_shift (x n : Z) : Z := 0.

(** read(0, 1, 2) stores the two bytes at address 1 and returns 2. *)
Lemma hypercall_refines_witness :
  exists w', hypercall no_shift true (Ptr 2 0) 2 4 VIRTINE_ALLOW_ALL 0 (pair_world (hcall_regs 6 0 1 2))
               = Ok (false, w') /\
    after (pair_world (hcall_regs 6 0 1 2)) w' 0 (pair_virtine 1 4 5)
      (set_rax 2 (hcall_regs 6 0 1 2), 7, 8) 1 [10; 104; 105; 40] tt.
Proof.
  exact (hypercall_refines (Hst := script_host) (OS := quiet_os) no_shift true (Ptr 2 0) 2 4
    VIRTINE_ALLOW_ALL _ 0 _ _ _ _ _ _ (pair_live (hcall_regs 6 0 1 2))
    (pair_fresh _) eq_refl).
Defined.

Lemma hypercall_denied_witness :
  exists msg, hypercall no_shift true (Ptr 2 0) 2 4 (VIRTINE_ALLOW HCALL_exit) 0
      (pair_world (hcall_regs 6 0 1 2)) =
    Ok (false, with_w (with_out msg (b_w (pair_world (hcall_regs 6 0 1 2))))
                 (pair_world (hcall_regs 6 0 1 2))).
Proof.
  destruct (hypercall_denied (Hst := script_host) (OS := quiet_os) no_shift true (Ptr 2 0) 2 4
    (VIRTINE_ALLOW HCALL_exit) _ 0 _ _ _ _ _ _ (pair_live (hcall_regs 6 0 1 2)) eq_refl)
    as (msg & H & _).
  eexists. exact H.
Defined.

Lemma snapshot_shared_witness :
  exists w' w2, hypercall no_shift true (Ptr 2 0) 2 4 VIRTINE_BLOCK_ALL 0
                  (pair_world (hcall_regs 0xFF 0 3 0)) = Ok (false, w') /\
    reset 1 (b_w w') = Ok (true, w2) /\
    live w2 1 (pair_virtine 3 14 15) (set_rip 0x8002 (hcall_regs 0xFF 0 3 0), 7, 8) 3
      [10; 20; 30; 4].
Proof.
  destruct (snapshot_shared (Hst := script_host) (OS := quiet_os) no_shift true (Ptr 2 0) 2 4
    VIRTINE_BLOCK_ALL _ 0 _ _ _ _ _ _ 9 eq_refl (pair_live (hcall_regs 0xFF 0 3 0))
    (pair_fresh _) eq_refl eq_refl ltac:(unfold blen; cbn; lia) eq_refl) as (w' & Hh & Hr).
  destruct (Hr 1 _ _ _ _ (pair_live2 _) ltac:(lia) ltac:(lia) ltac:(cbn; lia) eq_refl
    ltac:(unfold blen; cbn; lia)) as (w2 & Hw & Hl).
  exists w', w2. split; [exact Hh|]. split; [exact Hw|exact Hl].
Defined.

Lemma pair_running r : running 0 5 4 1 (b_w (pair_world r)).
Proof. split; [apply pair_fresh|reflexivity|reflexivity|]. eexists _, _, _. by split; [apply pair_live|]. Qed.

(** The same two virtines; the guest of the first stores the bytes [1; 2] into its
    memory and asks for read(0, 1, 2). *)
Definition storing_world : bworld :=
  let w := pair_world zero_regs in
  BWorld
    (World (ScriptKernel 20 {[5 := (zero_regs, 7, 8); 15 := (zero_regs, 7, 8)]} {[5 := 4; 15 := 14]}
              {[4 := 1; 14 := 3]}
              [GuestStep (RunResult 0 0 KVM_EXIT_IO 0xFF) (fun _ => hcall_regs 6 0 1 2) (0, [1; 2])]) 3
       (w_heap (b_w w)) 4 (w_virtines (b_w w)) 2 {[9 := demo_reset]} 10 [])
    ∅ false tt [].

Lemma storing_running : running 0 5 4 1 (b_w storing_world).
Proof.
  split; [exact (pair_fresh zero_regs)|reflexivity|reflexivity|].
  eexists (pair_virtine 1 4 5), (zero_regs, 7, 8), [10; 20; 30; 40].
  split; [|done]. split; try reflexivity; unfold blen; cbn; lia.
Qed.

Definition storing_step : res (bool * bworld) :=
  run_once (Hst := script_host) (OS := quiet_os) no_shift true (Ptr 2 0) 2 4 VIRTINE_ALLOW_ALL 0
    storing_world.

Lemma storing_goes_on : match storing_step with Ok (false, _) => true | _ => false end = true.
Proof. vm_compute. reflexivity. Qed.


(** A call with a two-byte argument whose guest exits at once. *)
Definition call_world : bworld :=
  BWorld (World (booted []) (-1) {[1 := demo_image_bytes; 2 := [5; 6]]} 3 ∅ 1 ∅ 1 [])
    {[Ptr 1 0 := demo_cache]} false tt [].

Lemma call_pool_inv : pool_inv demo_img 1 demo_image_bytes (b_w call_world) demo_cache [].
Proof.
  split.
  - cbn. split; [lia|reflexivity].
  - done.
  - split; [reflexivity|]. split; [done|]. split; [done|]. cbn. lia.
  - split; cbn; [|done]. intros b [l Hb].
    apply lookup_insert_Some in Hb as [[<- _]|[_ Hb]]; [lia|].
    apply lookup_singleton_Some in Hb as [<- _]. lia.
  - by split; intros i [? ?].
  - constructor.
  - intros i j vi vj Hi. cbn in Hi. set_solver.
  - done.
Qed.

Definition demo_call : res (unit * bworld) :=
  wasp_run_virtine no_shift true 1 (Ptr 1 0) 2 4096 (Ptr 2 0) 2 None call_world.

Lemma demo_call_ok : is_ok demo_call = true.
Proof. vm_compute. reflexivity. Qed.

Lemma run_virtine_arguments_witness :
  exists w' vm w2 ram2, demo_call = Ok (tt, w') /\ ram_of w2 vm = Some ram2 /\
    w_heap (b_w w') !! 2 = splice 0 (take 2 ram2) [5; 6].
Proof.
  pose proof demo_call_ok as Hok. destruct demo_call as [[[] w']|e] eqn:E; [|discriminate].
  destruct (run_virtine_arguments (Hst := script_host) (OS := quiet_os) no_shift true demo_img 1
    demo_image_bytes demo_cache [] 1 (Ptr 1 0) 2 4096 2 0 2 None call_world w' [5; 6]
    eq_refl call_pool_inv ltac:(lia) eq_refl ltac:(cbn; intros i v Hi; discriminate) E)
    as (vm & w1 & w2 & ram1 & ram2 & _ & _ & _ & Hr & Ha & _).
  exists w', vm, w2, ram2. split; [reflexivity|]. split; [exact Hr|exact Ha].
Defined.

Lemma whitelist_enforced_witness :
  exists w', demo_call = Ok (tt, w') /\ exists evs, b_log w' = [] ++ evs.
Proof.
  pose proof demo_call_ok as Hok. destruct demo_call as [[[] w']|e] eqn:E; [|discriminate].
  destruct (proj2 (whitelist_enforced (Hst := script_host) (OS := quiet_os) no_shift true
    (Ptr 1 0) 2 4096 None) 1%nat (Ptr 2 0) 2 call_world w' E) as (evs & H & _).
  exists w'. split; [reflexivity|]. exists evs. exact H.
Defined.
