(* ===== verification/Debug.v ===== *)
(** Debug output: wasp::hexdump and dump_trapframe of src/binding.cpp, and the copy
    of hexdump in pass/pass.cpp.

    Text is a list of character codes.  The state is the colour set_color remembers
    and what was printed so far; reading a byte outside the buffer faults. *)

From Stdlib Require Import Ascii.
From stdpp Require Import pretty strings.
From S2P Require Import Prelude Kvm.

Abbreviation text := (list Z).

Definition code_of (c : ascii) : Z := Z.of_N (N_of_ascii c).
Definition str (s : string) : text := code_of <$> String.list_ascii_of_string s.

Record term : Type := Term { current_color : Z; printed : text }.
Abbreviation io := (M term).

Definition putt (t : text) : io unit := modify (fun s => Term (current_color s) (printed s ++ t)).

(** ** printf *)

Definition hex_digit (upper : bool) (d : Z) : Z :=
  if d <? 10 then 48 + d else (if upper then 55 else 87) + d.

(** The last [n] hexadecimal digits. *)
Fixpoint hexn (upper : bool) (n : nat) (v : Z) : text :=
  match n with
  | O => []
  | S n => hexn upper n (v / 16) ++ [hex_digit upper (v mod 16)]
  end.

Definition hex_digits (v : Z) : nat := if v <=? 0 then 0%nat else Z.to_nat (Z.log2 v / 4 + 1).

(** %.<prec>llx: at least [prec] digits *)
Definition print_hex (upper : bool) (prec : nat) (v : Z) : text :=
  hexn upper (Nat.max prec (hex_digits v)) v.

(** ** Colours *)

Definition C_RED : Z := 91.
Definition C_GREEN : Z := 92.
Definition C_YELLOW : Z := 93.
Definition C_MAGENTA : Z := 95.
Definition C_CYAN : Z := 96.
Definition C_RESET : Z := 0.
Definition C_GRAY : Z := 90.

(** The escape sequence of a colour. *)
Definition escape (code : Z) : text := [27; 91] ++ str (pretty code) ++ [109].

Definition set_color (code : Z) : io unit :=
  c ← gets current_color;
  if negb (code =? c) then
    putt (escape code);;
    modify (fun s => Term code (printed s))
  else mret tt.

(** The argument is a signed char. *)
Definition color_for (c : Z) : Z :=
  if (65 <=? c) && (c <=? 122) then C_YELLOW
  else if (33 <=? c) && (c <=? 126) then C_CYAN
  else if (c =? 10) || (c =? 13) then C_GREEN
  else if (c =? 7) || (c =? 8) || (c =? 27) || (c =? 12) || (c =? 10) || (c =? 13) then C_RED
  else if u8 c =? 255 then C_MAGENTA
  else C_GRAY.
Definition set_color_for (c : Z) : io unit := set_color (color_for c).

(** ** hexdump *)

Definition w : Z := 16.
Definition columns : list Z := seqZ 0 w.

Fixpoint for_each (l : list Z) (f : Z -> io unit) : io unit :=
  match l with
  | [] => mret tt
  | c :: l => f c;; for_each l f
  end.

(** has_validated, last_validated_page, is_valid *)
Abbreviation checked := (bool * Z * bool)%type.

Fixpoint validate (cols : list Z) (line : Z) (st : checked) : list bool * checked :=
  match cols with
  | [] => ([], st)
  | c :: cols =>
      let '(has_validated, last_page, is_valid) := st in
      let page := Z.shiftr (s64 (line + c)) 12 in
      let fresh := negb has_validated || negb (page =? last_page) in
      let is_valid := if fresh then true else is_valid in
      let '(valid, st) := validate cols line (if fresh then true else has_validated, page, is_valid) in
      (is_valid :: valid, st)
  end.

Definition is_ok (valid : list bool) (c : Z) : bool := default false (valid !! Z.to_nat c).
Definition byte_at (buf : list Z) (i : Z) : io Z := lift_opt (buf !! Z.to_nat i).

Definition hex_column (buf : list Z) (len i : Z) (valid : list bool) (c : Z) : io unit :=
  (if c mod 8 =? 0 then putt (str " ") else mret tt);;
  if negb (is_ok valid c) then set_color C_RED;; putt (str "?? ")
  else if len <=? u64 (i + c) then putt (str "   ")
  else
    b ← byte_at buf (i + c);
    set_color_for (s8 b);;
    putt (print_hex true 2 b ++ str " ").

Definition char_column (buf : list Z) (len i : Z) (valid : list bool) (c : Z) : io unit :=
  (if negb (c =? 0) && (c mod 8 =? 0) then set_color C_RESET;; putt (str " ") else mret tt);;
  if negb (is_ok valid c) then set_color C_RED;; putt (str "?")
  else if len <=? u64 (i + c) then putt (str " ")
  else
    b ← byte_at buf (i + c);
    set_color_for (s8 b);;
    putt [if (b <? 32) || (126 <? b) then 46 else b].

Definition dump_line (buf : list Z) (len : Z) (awidth : nat) (i : Z) (valid : list bool) : io unit :=
  set_color C_RESET;;
  putt (str "|");;
  set_color C_GRAY;;
  putt (print_hex false awidth i);;
  set_color C_RESET;;
  putt (str "|");;
  for_each columns (hex_column buf len i valid);;
  set_color C_RESET;;
  putt (str "|");;
  for_each columns (char_column buf len i valid);;
  set_color C_RESET;;
  putt (str "|" ++ [10]).

(** for (i = 0; i < len; i += w), for a buffer at address [addr] *)
Fixpoint dump_lines (fuel : nat) (addr : Z) (buf : list Z) (len : Z) (awidth : nat) (i : Z) (st : checked)
    : io unit :=
  if i <? len then
    match fuel with
    | O => fail_with OutOfFuel
    | S fuel =>
        let '(valid, st) := validate columns (addr + i) st in
        dump_line buf len awidth i valid;;
        dump_lines fuel addr buf len awidth (u64 (i + w)) st
    end
  else mret tt.

Definition hexdump (fuel : nat) (addr : Z) (buf : list Z) (len : Z) : io unit :=
  let awidth := if 0xFFFF <? len then 8%nat else 4%nat in
  dump_lines fuel addr buf len awidth 0 (false, 0, false).

(** ** dump_trapframe *)

Definition dump_reg (name : string) (v : Z) : text :=
  replicate (3 - String.length name) 32 ++ str name ++ str "=" ++ print_hex false 16 v ++ str " ".

Definition flag_mark (flags mask : Z) (mark : string) : text :=
  if Z.land flags mask =? 0 then str "-" else str mark.

Definition DF_MASK : Z := 0x400.
Definition CC_O : Z := 0x800.
Definition CC_S : Z := 0x80.
Definition CC_Z : Z := 0x40.
Definition CC_A : Z := 0x10.
Definition CC_P : Z := 0x4.
Definition CC_C : Z := 0x1.

Definition trapframe_text (r : kvm_regs) : text :=
  dump_reg "rax" (rax r) ++ dump_reg "rbx" (rbx r) ++ dump_reg "rcx" (rcx r) ++ dump_reg "rdx" (rdx r) ++ [10] ++
  dump_reg "rsi" (rsi r) ++ dump_reg "rdi" (rdi r) ++ dump_reg "rbp" (rbp r) ++ dump_reg "rsp" (rsp r) ++ [10] ++
  dump_reg "r8" (r8 r) ++ dump_reg "r9" (r9 r) ++ dump_reg "r10" (r10 r) ++ dump_reg "r11" (r11 r) ++ [10] ++
  dump_reg "r12" (r12 r) ++ dump_reg "r13" (r13 r) ++ dump_reg "r14" (r14 r) ++ dump_reg "r15" (r15 r) ++ [10] ++
  dump_reg "rip" (rip r) ++ dump_reg "flg" (rflags r) ++
  str " [" ++ flag_mark (rflags r) DF_MASK "D" ++ flag_mark (rflags r) CC_O "O" ++ flag_mark (rflags r) CC_S "S" ++
  flag_mark (rflags r) CC_Z "Z" ++ flag_mark (rflags r) CC_A "A" ++ flag_mark (rflags r) CC_P "P" ++
  flag_mark (rflags r) CC_C "C" ++ str "]" ++ [10].
Definition dump_trapframe (r : kvm_regs) : io unit := putt (trapframe_text r).

(** ** What a terminal shows *)

(** Escape sequences taken out. *)
Fixpoint strip (inside : bool) (t : text) : text :=
  match t with
  | [] => []
  | x :: t =>
      if inside then strip (negb (x =? 109)) t
      else if x =? 27 then strip true t else x :: strip false t
  end.

(** The text [t] shows as [p]. *)
Definition shows (t p : text) : Prop := forall t2, strip false (t ++ t2) = p ++ strip false t2.

Lemma shows_nil : shows [] [].
Proof. done. Qed.

Lemma shows_app t1 p1 t2 p2 : shows t1 p1 -> shows t2 p2 -> shows (t1 ++ t2) (p1 ++ p2).
Proof. intros H1 H2 t. by rewrite <- !app_assoc, H1, H2. Qed.

Definition plain (t : text) : Prop := Forall (fun x => x <> 27) t.

Lemma shows_plain t : plain t -> shows t t.
Proof.
  induction 1 as [|x t Hx _ IH]; [done|]. intros t2. cbn. zdecide. by rewrite IH.
Qed.

Lemma shows_escape code : code ∈ [0; 90; 91; 92; 93; 95; 96] -> shows (escape code) [].
Proof.
  intros H t2. repeat (apply elem_of_cons in H as [->|H]; [reflexivity|]). by apply elem_of_nil in H.
Qed.

(** The computation [c] shows [p], whatever the colour. *)
Definition prints (c : io unit) (p : text) : Prop :=
  forall s, exists t col, c s = Ok (tt, Term col (printed s ++ t)) /\ shows t p.

Lemma prints_ret : prints (mret tt) [].
Proof. intros [col out]. exists [], col. split; [unfold_M; by rewrite app_nil_r|apply shows_nil]. Qed.

Lemma prints_bind c1 c2 p1 p2 : prints c1 p1 -> prints c2 p2 -> prints (c1;; c2) (p1 ++ p2).
Proof.
  intros H1 H2 s. destruct (H1 s) as (t1 & col1 & E1 & S1).
  destruct (H2 (Term col1 (printed s ++ t1))) as (t2 & col2 & E2 & S2).
  exists (t1 ++ t2), col2. split; [|by apply shows_app]. unfold_M. rewrite E1. cbn beta iota.
  rewrite E2. cbn. by rewrite app_assoc.
Qed.

Lemma prints_putt t : plain t -> prints (putt t) t.
Proof. intros H s. exists t, (current_color s). split; [done|by apply shows_plain]. Qed.

Lemma prints_color code : code ∈ [0; 90; 91; 92; 93; 95; 96] -> prints (set_color code) [].
Proof.
  intros H [col out]. unfold set_color. unfold_M. cbn. destruct (code =? col) eqn:E; cbn.
  - exists [], col. split; [by rewrite app_nil_r|apply shows_nil].
  - exists (escape code), code. split; [done|by apply shows_escape].
Qed.

Lemma color_for_known c : color_for c ∈ [0; 90; 91; 92; 93; 95; 96].
Proof. unfold color_for. repeat case_match; set_solver. Qed.

Lemma hexn_range up n v : 0 <= v -> Forall (fun x => 48 <= x <= 102) (hexn up n v).
Proof.
  revert v. induction n as [|n IH]; intros v Hv; cbn; [constructor|].
  apply Forall_app. split; [apply IH; apply Z.div_pos; lia|]. constructor; [|constructor].
  unfold hex_digit. pose proof (Z.mod_pos_bound v 16 ltac:(lia)). destruct (_ <? 10) eqn:E; zbool; destruct up; lia.
Qed.

Lemma hexn_plain up n v : 0 <= v -> plain (hexn up n v).
Proof. intros H. eapply Forall_impl; [by apply hexn_range|]. cbn. lia. Qed.

Lemma print_hex_byte b : byte_ok b -> print_hex true 2 b = hexn true 2 b.
Proof.
  intros H. unfold print_hex, hex_digits. unfold byte_ok in H. destruct (b <=? 0) eqn:E; [done|]. zbool.
  assert (Z.log2 b < 8) by (apply Z.log2_lt_pow2; lia). assert (Z.log2 b / 4 < 2) by (apply Z.div_lt_upper_bound; lia).
  by replace (Nat.max 2 (Z.to_nat (Z.log2 b / 4 + 1))) with 2%nat by lia.
Qed.

(** *** The lines without colours *)

Section Dump.
Context (buf : list Z) (len : Z).

Definition hex_text (i c : Z) : text :=
  (if c mod 8 =? 0 then [32] else []) ++
  match buf !! Z.to_nat (i + c) with
  | Some b => hexn true 2 b ++ [32]
  | None => [32; 32; 32]
  end.

Definition char_text (i c : Z) : text :=
  (if negb (c =? 0) && (c mod 8 =? 0) then [32] else []) ++
  match buf !! Z.to_nat (i + c) with
  | Some b => [if (b <? 32) || (126 <? b) then 46 else b]
  | None => [32]
  end.

Definition line_text (awidth : nat) (i : Z) : text :=
  [124] ++ print_hex false awidth i ++ [124] ++ concat (hex_text i <$> columns) ++
  [124] ++ concat (char_text i <$> columns) ++ [124; 10].

(** The whole dump, from offset [i] on, with [n] lines. *)
Fixpoint dump_text (n : nat) (awidth : nat) (i : Z) : text :=
  match n with
  | O => []
  | S n => line_text awidth i ++ dump_text n awidth (i + 16)
  end.

Context (Hlen : len = blen buf) (Hbytes : Forall byte_ok buf) (Hmax : len < 2 ^ 63).

Lemma prints_for l f g : (forall c, c ∈ l -> prints (f c) (g c)) -> prints (for_each l f) (concat (g <$> l)).
Proof.
  induction l as [|c l IH]; intros H; cbn; [apply prints_ret|].
  apply prints_bind; [apply H; left|apply IH; intros c' Hc; apply H; by right].
Qed.

Definition all_valid : list bool := replicate 16 true.

Lemma all_valid_ok c : 0 <= c < 16 -> is_ok all_valid c = true.
Proof. intros H. unfold is_ok, all_valid. by rewrite lookup_replicate_2 by lia. Qed.

(** Inside the buffer a byte is read; outside none is. *)
Lemma column_byte i c : 0 <= i < 2 ^ 63 -> 0 <= c < 16 ->
  (exists b, (len <=? u64 (i + c)) = false /\ buf !! Z.to_nat (i + c) = Some b /\ byte_ok b) \/
  ((len <=? u64 (i + c)) = true /\ buf !! Z.to_nat (i + c) = None).
Proof.
  intros Hi Hc. rewrite uwrap_small by (unfold in_u; lia). unfold blen in Hlen.
  destruct (len <=? i + c) eqn:E; zbool; [right|left].
  - split; [done|]. apply lookup_ge_None. lia.
  - destruct (lookup_lt_is_Some_2 buf (Z.to_nat (i + c))) as [b Hb]; [lia|]. exists b.
    split; [done|]. split; [done|]. by eapply Forall_lookup_1.
Qed.

Lemma prints_hex_column i c : 0 <= i < 2 ^ 63 -> 0 <= c < 16 ->
  prints (hex_column buf len i all_valid c) (hex_text i c).
Proof.
  intros Hi Hc. unfold hex_column, hex_text. apply prints_bind.
  - destruct (c mod 8 =? 0); [by apply prints_putt; repeat constructor|apply prints_ret].
  - rewrite all_valid_ok by done. cbn [negb].
    destruct (column_byte i c Hi Hc) as [(b & E & Hb & Hok)|(E & Hb)]; rewrite E, Hb.
    + intros s. unfold byte_at. rewrite Hb.
      apply (prints_bind (set_color_for (s8 b)) _ []); [by apply prints_color, color_for_known|].
      rewrite print_hex_byte by done. apply prints_putt.
      assert (Hp : plain (hexn true 2 b)) by (apply hexn_plain; apply Hok).
      by apply (Forall_app_2 _ _ [32] Hp); repeat constructor.
    + by apply prints_putt; repeat constructor.
Qed.

Lemma prints_char_column i c : 0 <= i < 2 ^ 63 -> 0 <= c < 16 ->
  prints (char_column buf len i all_valid c) (char_text i c).
Proof.
  intros Hi Hc. unfold char_column, char_text. apply prints_bind.
  - destruct (negb (c =? 0) && (c mod 8 =? 0)); [|apply prints_ret].
    apply (prints_bind _ _ []); [by apply prints_color; set_solver|by apply prints_putt; repeat constructor].
  - rewrite all_valid_ok by done. cbn [negb].
    destruct (column_byte i c Hi Hc) as [(b & E & Hb & Hok)|(E & Hb)]; rewrite E, Hb.
    + intros s. unfold byte_at. rewrite Hb.
      apply (prints_bind (set_color_for (s8 b)) _ []); [by apply prints_color, color_for_known|].
      apply prints_putt. repeat constructor. destruct ((b <? 32) || (126 <? b)) eqn:Eb; zbool; lia.
    + by apply prints_putt; repeat constructor.
Qed.

Lemma columns_range c : c ∈ columns -> 0 <= c < 16.
Proof. intros H. apply elem_of_seqZ in H. unfold w in H. lia. Qed.

Lemma prints_line awidth i : 0 <= i < 2 ^ 63 ->
  prints (dump_line buf len awidth i all_valid) (line_text awidth i).
Proof.
  intros Hi. unfold dump_line, line_text.
  assert (Hc : forall code c p, code ∈ [0; 90; 91; 92; 93; 95; 96] -> prints c p -> prints (set_color code;; c) p).
  { intros code c p Hcode Hp. by apply (prints_bind _ _ [] p); [apply prints_color|]. }
  assert (Hbar : prints (putt (str "|")) [124]) by (by apply prints_putt; repeat constructor).
  apply Hc; [set_solver|]. apply (prints_bind _ _ [124]); [done|]. apply Hc; [set_solver|].
  apply prints_bind; [apply prints_putt, hexn_plain; lia|]. apply Hc; [set_solver|].
  apply (prints_bind _ _ [124]); [done|].
  apply prints_bind; [apply prints_for; intros c Hcol%columns_range; by apply prints_hex_column|].
  apply Hc; [set_solver|]. apply (prints_bind _ _ [124]); [done|].
  apply prints_bind; [apply prints_for; intros c Hcol%columns_range; by apply prints_char_column|].
  apply Hc; [set_solver|]. by apply prints_putt; repeat constructor.
Qed.

(** Every byte is taken as valid: nothing is ever checked. *)
Definition settled (st : checked) : Prop := st.1.1 = true -> st.2 = true.

Lemma validate_all cols line st : settled st -> exists st', settled st' /\
  validate cols line st = (replicate (length cols) true, st').
Proof.
  revert st. induction cols as [|c cols IH]; intros [[h l] v] Hs; cbn.
  - by exists (h, l, v).
  - set (fresh := negb h || negb (Z.shiftr (s64 (line + c)) 12 =? l)).
    assert (Hv : (if fresh then true else v) = true).
    { destruct fresh eqn:E; [done|]. apply Hs. unfold fresh in E. cbn. destruct h; [done|discriminate]. }
    destruct (IH (if fresh then true else h, Z.shiftr (s64 (line + c)) 12, if fresh then true else v)) as (st' & Hs' & ->).
    { intros _. exact Hv. }
    exists st'. split; [done|]. by rewrite Hv.
Qed.

(** How many lines a dump from offset [i] on has. *)
Definition lines_from (i : Z) : nat := Z.to_nat ((len - i + 15) / 16).

Lemma prints_lines fuel addr awidth i st : 0 <= i < 2 ^ 63 + 16 -> settled st -> (lines_from i <= fuel)%nat ->
  prints (dump_lines fuel addr buf len awidth i st) (dump_text (lines_from i) awidth i).
Proof.
  revert i st. induction fuel as [|fuel IH]; intros i st Hi Hs Hf; cbn [dump_lines];
    destruct (i <? len) eqn:E; zbool.
  - unfold lines_from in Hf. pose proof (Z.div_le_lower_bound (len - i + 15) 16 1 ltac:(lia) ltac:(lia)). lia.
  - replace (lines_from i) with 0%nat; [apply prints_ret|].
    unfold lines_from. pose proof (Z.div_lt_upper_bound (len - i + 15) 16 1 ltac:(lia) ltac:(lia)). lia.
  - destruct (validate_all columns (addr + i) st Hs) as (st' & Hs' & ->).
    assert (Hn : lines_from i = S (lines_from (i + 16))).
    { unfold lines_from. replace (len - i + 15) with (len - (i + 16) + 15 + 1 * 16) by lia.
      rewrite Z.div_add by lia. assert (0 <= (len - (i + 16) + 15) / 16) by (apply Z.div_pos; lia). lia. }
    rewrite Hn. cbn [dump_text]. apply prints_bind; [apply prints_line; lia|].
    rewrite uwrap_small by (unfold in_u, w; lia). apply IH; [unfold w; lia|done|rewrite Hn in Hf; unfold w; lia].
  - replace (lines_from i) with 0%nat; [apply prints_ret|].
    unfold lines_from. pose proof (Z.div_lt_upper_bound (len - i + 15) 16 1 ltac:(lia) ltac:(lia)). lia.
Qed.
End Dump.

(** ** Reading a dump *)

Definition hex_val (x : Z) : Z := if x <? 65 then x - 48 else if x <? 97 then x - 55 else x - 87.

Lemma hex_val_digit up d : 0 <= d < 16 -> hex_val (hex_digit up d) = d.
Proof.
  intros H. unfold hex_val, hex_digit. destruct (d <? 10) eqn:E; zbool; [|destruct up]; zdecide; lia.
Qed.

(** The hexadecimal columns of a line; blanks stand for no byte. *)
Fixpoint read_columns (cols : list Z) (t : text) : list Z * text :=
  match cols with
  | [] => ([], t)
  | c :: cols =>
      match (if c mod 8 =? 0 then tail t else t) with
      | x :: y :: _ :: t =>
          let '(bs, t) := read_columns cols t in
          ((if x =? 32 then [] else [16 * hex_val x + hex_val y]) ++ bs, t)
      | _ => ([], t)
      end
  end.

(** What follows the first [x]. *)
Fixpoint text_after (x : Z) (t : text) : text :=
  match t with
  | [] => []
  | y :: t => if y =? x then t else text_after x t
  end.

Fixpoint undump (n : nat) (t : text) : list Z :=
  match n, t with
  | S n, _ :: t =>
      let '(bs, t) := read_columns columns (text_after 124 t) in
      bs ++ undump n (text_after 10 t)
  | _, _ => []
  end.

Lemma text_after_skip x t r : Forall (fun y => y <> x) t -> text_after x (t ++ x :: r) = r.
Proof. induction 1 as [|y t Hy _ IH]; cbn; zdecide; done. Qed.

Lemma read_byte b : byte_ok b ->
  let x := hex_digit true ((b / 16) mod 16) in
  (x =? 32) = false /\ 16 * hex_val x + hex_val (hex_digit true (b mod 16)) = b.
Proof.
  intros Hb x. unfold byte_ok in Hb. unfold x.
  assert (H1 : 0 <= (b / 16) mod 16 < 16) by (apply Z.mod_pos_bound; lia).
  assert (H2 : 0 <= b mod 16 < 16) by (apply Z.mod_pos_bound; lia).
  rewrite !hex_val_digit by done. split.
  - apply Z.eqb_neq. unfold hex_digit. destruct (_ <? 10); lia.
  - rewrite (Z.mod_small (b / 16)) by (Z.to_euclidean_division_equations; lia).
    symmetry. apply Z.div_mod. lia.
Qed.

Lemma read_columns_text buf i cols r : Forall byte_ok buf ->
  read_columns cols (concat (hex_text buf i <$> cols) ++ r) =
  (omap (fun c => buf !! Z.to_nat (i + c)) cols, r).
Proof.
  intros Hb. induction cols as [|c cols IH]; [done|].
  change (concat (hex_text buf i <$> c :: cols)) with (hex_text buf i c ++ concat (hex_text buf i <$> cols)).
  change (omap (fun c => buf !! Z.to_nat (i + c)) (c :: cols)) with
    (match buf !! Z.to_nat (i + c) with
     | Some b => b :: omap (fun c => buf !! Z.to_nat (i + c)) cols
     | None => omap (fun c => buf !! Z.to_nat (i + c)) cols
     end).
  rewrite <- app_assoc. set (rest := concat (hex_text buf i <$> cols) ++ r) in *. clearbody rest.
  cbn [read_columns]. unfold hex_text. rewrite <- !app_assoc.
  destruct (buf !! Z.to_nat (i + c)) as [b|] eqn:Hbc.
  - assert (Hok : byte_ok b) by (by eapply Forall_lookup_1). destruct (read_byte b Hok) as [H1 H2].
    destruct (c mod 8 =? 0); cbn [app tail hexn]; rewrite IH, H1, H2; done.
  - destruct (c mod 8 =? 0); cbn [app tail]; rewrite IH; done.
Qed.

Lemma omap_seq {A} (l : list A) k n : omap (fun c => l !! c) (seq k n) = take n (drop k l).
Proof.
  revert k. induction n as [|n IH]; intros k; [done|]. cbn [seq].
  change (omap (fun c => l !! c) (k :: seq (S k) n)) with
    (match l !! k with Some x => x :: omap (fun c => l !! c) (seq (S k) n) | None => omap (fun c => l !! c) (seq (S k) n) end).
  rewrite IH. destruct (l !! k) as [x|] eqn:E.
  - by rewrite (drop_S _ _ _ E).
  - apply lookup_ge_None in E. by rewrite !drop_ge, !take_nil by lia.
Qed.

Lemma omap_ext_seq {A} (l : list A) (f : nat -> option A) k n : (forall j, f j = l !! (k + j)%nat) ->
  omap f (seq 0 n) = take n (drop k l).
Proof.
  intros H. rewrite <- omap_seq. replace (seq k n) with (Nat.add k <$> seq 0 n) by (by rewrite fmap_add_seq, Nat.add_0_r).
  generalize (seq 0 n). intros cs. induction cs as [|j cs IH]; [done|].
  cbn. rewrite H. cbn in IH. by rewrite IH.
Qed.

Lemma line_bytes (buf : list Z) i : 0 <= i ->
  omap (fun c => buf !! Z.to_nat (i + c)) columns = take 16 (drop (Z.to_nat i) buf).
Proof.
  intros Hi. rewrite <- (omap_ext_seq buf (fun j => buf !! Z.to_nat (i + Z.of_nat j))); [done|].
  intros j. by rewrite Z2Nat.inj_add, Nat2Z.id by lia.
Qed.

Lemma char_text_range buf i cols : Forall byte_ok buf ->
  Forall (fun x => x <> 10) (concat (char_text buf i <$> cols)).
Proof.
  intros Hb. induction cols as [|c cols IH]; [constructor|]. cbn. apply Forall_app. split; [|done].
  unfold char_text. apply Forall_app. split; [destruct (_ && _); by repeat constructor|].
  destruct (buf !! _) as [b|]; [|by repeat constructor]. constructor; [|constructor].
  destruct ((b <? 32) || (126 <? b)) eqn:E; zbool; lia.
Qed.

Lemma undump_line buf awidth i n rest : Forall byte_ok buf -> 0 <= i ->
  undump (S n) (line_text buf awidth i ++ rest) = take 16 (drop (Z.to_nat i) buf) ++ undump n rest.
Proof.
  intros Hb Hi. unfold line_text. rewrite <- !app_assoc. cbn [app undump].
  rewrite text_after_skip.
  - rewrite read_columns_text by done. rewrite line_bytes by done. f_equal. f_equal.
    change (124 :: concat (char_text buf i <$> columns) ++ 124 :: 10 :: rest) with
      ([124] ++ concat (char_text buf i <$> columns) ++ [124] ++ 10 :: rest).
    rewrite !app_assoc. apply text_after_skip. rewrite !Forall_app.
    split; [split|]; [by repeat constructor|by apply char_text_range|by repeat constructor].
  - eapply Forall_impl; [by apply hexn_range|]. cbn. lia.
Qed.

Lemma undump_text buf awidth n i : Forall byte_ok buf -> 0 <= i -> blen buf <= i + 16 * Z.of_nat n ->
  undump n (dump_text buf n awidth i) = drop (Z.to_nat i) buf.
Proof.
  intros Hb. revert i. induction n as [|n IH]; intros i Hi Hn; unfold blen in Hn.
  - cbn. by rewrite drop_ge by lia.
  - cbn [dump_text]. rewrite undump_line by done. rewrite IH by (unfold blen; lia).
    rewrite Z2Nat.inj_add, <- drop_drop by lia. apply take_drop.
Qed.

(** What hexdump prints shows every byte of the buffer: read back without its
    colours, the text gives the buffer, whatever was printed before.  It reads no
    byte outside the buffer and ends. *)
Theorem hexdump_roundtrip fuel addr buf s :
  Forall byte_ok buf -> blen buf < 2 ^ 63 -> blen buf <= 16 * Z.of_nat fuel ->
  exists t col, hexdump fuel addr buf (blen buf) s = Ok (tt, Term col (printed s ++ t)) /\
    undump (lines_from (blen buf) 0) (strip false t) = buf.
Proof.
  intros Hb Hl Hf. unfold hexdump. set (aw := if 0xFFFF <? blen buf then 8%nat else 4%nat).
  pose proof (blen_nonneg buf) as Hl0. unfold lines_from. rewrite Z.sub_0_r.
  destruct (prints_lines buf (blen buf) eq_refl Hb Hl fuel addr aw 0 (false, 0, false) ltac:(lia) ltac:(done)
    ltac:(unfold lines_from; Z.to_euclidean_division_equations; lia) s) as (t & col & E & Hs).
  exists t, col. split; [done|]. specialize (Hs []). rewrite !app_nil_r in Hs. rewrite Hs.
  unfold lines_from. rewrite Z.sub_0_r. apply (undump_text buf aw); [done|lia|].
  Z.to_euclidean_division_equations; lia.
Qed.

Definition demo_bytes : list Z := [72; 105; 0; 255; 10; 27; 126; 127; 200; 91; 109; 1; 2; 3; 4; 5; 6].

(** A buffer of two lines, with an escape character and bytes above 127. *)
Lemma hexdump_roundtrip_witness :
  exists t col, hexdump 2 0x1000 demo_bytes 17 (Term 0 []) = Ok (tt, Term col ([] ++ t)) /\
    undump 2 (strip false t) = demo_bytes.
Proof.
  refine (hexdump_roundtrip 2 0x1000 demo_bytes (Term 0 []) _ _ _); [|reflexivity|vm_compute; discriminate].
  repeat constructor; vm_compute; discriminate.
Defined.

(** ** Reading a trap frame *)

Definition read_hex (n : nat) (t : text) : Z := foldl (fun v x => 16 * v + hex_val x) 0 (take n t).

(** The number after each '='. *)
Fixpoint parse_regs (n : nat) (t : text) : list Z :=
  match n with
  | O => []
  | S n => let t := text_after 61 t in read_hex 16 t :: parse_regs n (drop 16 t)
  end.

Lemma length_hexn up n v : length (hexn up n v) = n.
Proof. revert v. induction n as [|n IH]; intros v; cbn; [done|]. rewrite length_app, IH. cbn. lia. Qed.

Lemma fold_hexn up n v : 0 <= v < 16 ^ Z.of_nat n -> foldl (fun v x => 16 * v + hex_val x) 0 (hexn up n v) = v.
Proof.
  revert v. induction n as [|n IH]; intros v Hv; cbn [hexn foldl]; [cbn in Hv; lia|].
  rewrite foldl_app. cbn [foldl]. rewrite hex_val_digit by (apply Z.mod_pos_bound; lia).
  rewrite Nat2Z.inj_succ, Z.pow_succ_r in Hv by lia.
  rewrite IH by (split; [apply Z.div_pos; lia|apply Z.div_lt_upper_bound; lia]). symmetry. apply Z.div_mod. lia.
Qed.

Lemma parse_regs_step n name v t : in_u 64 v -> Forall (fun x => x <> 61) (str name) ->
  parse_regs (S n) (dump_reg name v ++ t) = v :: parse_regs n ([32] ++ t).
Proof.
  intros [Hv0 Hv] Hn. unfold dump_reg. rewrite <- !app_assoc. cbn [parse_regs].
  assert (Hh : print_hex false 16 v = hexn false 16 v).
  { unfold print_hex, hex_digits. destruct (v <=? 0) eqn:E; [done|]. zbool.
    assert (Z.log2 v < 64) by (apply Z.log2_lt_pow2; lia). assert (Z.log2 v / 4 < 16) by (apply Z.div_lt_upper_bound; lia).
    by replace (Nat.max 16 (Z.to_nat (Z.log2 v / 4 + 1))) with 16%nat by lia. }
  rewrite app_assoc. replace (str "=") with [61] by done. cbn [app]. rewrite (text_after_skip 61), Hh.
  - unfold read_hex. rewrite take_app_length', drop_app_length' by (by rewrite length_hexn).
    by rewrite fold_hexn by (cbn; lia).
  - apply Forall_app. split; [|done]. by apply Forall_replicate.
Qed.

(** The registers in the order dump_trapframe prints them. *)
Definition reg_list (r : kvm_regs) : list Z :=
  [rax r; rbx r; rcx r; rdx r; rsi r; rdi r; rbp r; rsp r; r8 r; r9 r; r10 r; r11 r; r12 r; r13 r; r14 r; r15 r;
   rip r; rflags r].

Lemma parse_regs_skip n x t : x <> 61 -> parse_regs n (x :: t) = parse_regs n t.
Proof. intros Hx. destruct n as [|n]; [done|]. cbn [parse_regs text_after]. by zdecide. Qed.

(** Every register can be read off a printed trap frame. *)
Lemma trapframe_registers r : Forall (in_u 64) (reg_list r) -> parse_regs 18 (trapframe_text r) = reg_list r.
Proof.
  intros H. unfold trapframe_text, reg_list in *. repeat (apply Forall_cons in H as [? H]).
  repeat (rewrite parse_regs_step by (done || by repeat constructor); cbn [app]; rewrite ?parse_regs_skip by done; f_equal).
Qed.
