(* ===== verification/GuestSys.v ===== *)
(** The system-call layer a virtine's C library stands on:
    libc/newlib/libc/sys/virtine/syscalls.c and crt0.c.

    The guest's side of the hypercall interface.  [__hypercall] is the assembly
    routine of the boot code; here it is a parameter, a function of the call
    number, three arguments and the state of the outside. *)

From S2P Require Import Prelude Kvm ScriptHost Cpuid Virtine Cache Binding.

Section GuestSys.
(** What is outside the guest program, and the hypercall into it. *)
Context {X : Type} (hypercall : Z -> Z -> Z -> Z -> X -> Z * X).
(** __heap_start, where the linker script ends the image. *)
Context (heap_start : Z).

(** ** State: errno and the break *)

Record gsys : Type := GSys {
  errno : Z;
  heapend : Z;
  outside : X
}.

Definition set_errno (e : Z) (s : gsys) : gsys := GSys e (heapend s) (outside s).
Definition set_heapend (h : Z) (s : gsys) : gsys := GSys (errno s) h (outside s).

Definition O_CREAT : Z := 0x200.
(** __eheap *)
Definition eheap : Z := 1024 * 1024 * 4.

Definition initial_gsys (x : X) : gsys := GSys 0 heap_start x.

(** ** Results *)

Definition syscall_ret (r : Z) (s : gsys) : Z * gsys :=
  if r <? 0 then (-1, set_errno (s32 (- r)) s) else (r, set_errno 0 s).

Definition do_hypercall (nr a b c : Z) (s : gsys) : Z * gsys :=
  let '(r, x) := hypercall nr a b c (outside s) in (s64 r, GSys (errno s) (heapend s) x).

(** A hypercall whose result is returned as an int. *)
Definition int_hypercall (nr a b c : Z) (s : gsys) : Z * gsys :=
  let '(r, s) := do_hypercall nr a b c s in (s32 r, s).

(** ** Calls *)

Definition g_exit (s : gsys) : gsys := (do_hypercall HCALL_exit 0 0 0 s).2.
Definition g_close (file : Z) : gsys -> Z * gsys := int_hypercall HCALL_close file 0 0.
Definition g_fstat (file st : Z) : gsys -> Z * gsys := int_hypercall HCALL_fstat file st 0.
Definition g_read (file ptr len : Z) : gsys -> Z * gsys := int_hypercall HCALL_read file ptr len.
Definition g_write (file ptr len : Z) : gsys -> Z * gsys := int_hypercall HCALL_write file ptr len.
Definition g_gettimeofday (p tz : Z) : gsys -> Z * gsys :=
  int_hypercall HCALL_gettimeofday p tz 0.
Definition g_isatty (file : Z) : gsys -> Z * gsys := int_hypercall HCALL_isatty file 0 0.

(** open(filename, flags, ...): the mode is read only with O_CREAT. *)
Definition g_open (filename flags : Z) (vararg : Z) (s : gsys) : Z * gsys :=
  let mode := if Z.land flags O_CREAT =? 0 then 0 else u32 vararg in
  let '(r, s) := do_hypercall HCALL_open filename flags mode s in
  let '(r, s) := syscall_ret (s32 r) s in (s32 r, s).

(** stat: passes the name where fstat takes a descriptor. *)
Definition g_stat (file st : Z) (s : gsys) : Z * gsys :=
  let '(r, s) := do_hypercall HCALL_fstat file st 0 s in
  let '(r, s) := syscall_ret r s in (s32 r, s).

(** The calls that always fail. *)
Definition g_link : Z := - ENOSYS.
Definition g_lseek : Z := - ENOSYS.
Definition g_times : Z := - ENOSYS.
Definition g_unlink : Z := - ENOSYS.
Definition g_execve : Z := - ENOSYS.
Definition g_fork : Z := - ENOSYS.
Definition g_getpid : Z := 1.
Definition g_kill : Z := - EPERM.
Definition g_wait : Z := - ENOSYS.

(** ** The break *)

Definition heap_top (s : gsys) : Z := heapend s.

(** __sbrk: pointers are compared as 64-bit addresses. *)
Definition sbrk_raw (incr : Z) (s : gsys) : Z * gsys :=
  if eheap <? u64 (heapend s + incr) then (u64 (-1), set_errno ENOMEM s)
  else (heapend s, set_heapend (u64 (heapend s + incr)) s).

Definition sbrk (incr : Z) (s : gsys) : Z * gsys :=
  let '(p, s) := sbrk_raw incr s in
  if s64 p <=? 0 then (0, set_errno ENOMEM s) else (p, s).

(** __snapshot: the snapshot covers the memory below the break. *)
Definition snapshot (stack_top : Z) (s : gsys) : gsys :=
  (do_hypercall 0xFF stack_top (heap_top s) 0 s).2.

(** crt0.c: run main, then exit with its result. *)
Definition start (main : gsys -> Z * gsys) (exit : Z -> gsys -> gsys) (s : gsys) : gsys :=
  let '(ex, s) := main s in exit ex s.

(** ** The break never leaves the heap *)

Definition heap_ok (s : gsys) : Prop := heap_start <= heapend s <= eheap.

(** Memory handed out by one call. *)
Definition region (p n x : Z) : Prop := p <= x < p + n.

(** A sequence of allocations; the addresses it returned, in order. *)
Fixpoint sbrk_all (incrs : list Z) (s : gsys) : list Z * gsys :=
  match incrs with
  | [] => ([], s)
  | i :: rest =>
      let '(p, s) := sbrk i s in
      let '(ps, s) := sbrk_all rest s in (p :: ps, s)
  end.

Section Bounds.
Context (Hstart : 0 < heap_start <= eheap).

Lemma sbrk_eq incr s : heap_ok s -> 0 <= incr < 2 ^ 31 ->
  sbrk incr s =
    if heapend s + incr <=? eheap
    then (heapend s, set_heapend (heapend s + incr) s)
    else (0, set_errno ENOMEM (set_errno ENOMEM s)).
Proof.
  unfold heap_ok. intros Hok Hi. unfold sbrk, sbrk_raw. unfold eheap in *.
  rewrite uwrap_small by (unfold in_u; lia).
  destruct (Z.leb_spec (heapend s + incr) (1024 * 1024 * 4)); zdecide.
  - rewrite swrap_small by (try unfold in_s; lia). by zdecide.
  - change (s64 (u64 (-1))) with (-1). done.
Qed.

(** The addresses a run of sbrk() hands out. *)
Lemma sbrk_all_spec incrs : forall s ps s',
  heap_ok s -> Forall (fun i => 0 <= i < 2 ^ 31) incrs -> sbrk_all incrs s = (ps, s') ->
  heap_ok s' /\ heapend s <= heapend s' /\
  (forall j p i, ps !! j = Some p -> incrs !! j = Some i ->
     p = 0 \/ heapend s <= p /\ p + i <= heapend s') /\
  (forall j k p q i i', (j < k)%nat -> ps !! j = Some p -> ps !! k = Some q ->
     incrs !! j = Some i -> incrs !! k = Some i' -> p <> 0 -> q <> 0 -> p + i <= q).
Proof.
  induction incrs as [|i rest IH]; intros s ps s' Hok Hf Hs; cbn in Hs.
  { injection Hs as <- <-. split; [done|]. split; [done|]. split; intros; by rewrite lookup_nil in *. }
  apply Forall_cons in Hf as [Hi Hf]. rewrite sbrk_eq in Hs by done.
  destruct (Z.leb_spec (heapend s + i) eheap) as [Hfit|Hfit].
  - destruct (sbrk_all rest (set_heapend (heapend s + i) s)) as [ps1 s1] eqn:E. injection Hs as <- <-.
    assert (Hok2 : heap_ok (set_heapend (heapend s + i) s))
      by (unfold heap_ok in *; cbn [heapend set_heapend]; lia).
    destruct (IH _ _ _ Hok2 Hf E) as (Hok1 & Hle & Hin & Hord).
    cbn in Hle, Hin. split; [done|]. split; [lia|]. split.
    + intros [|j] p i' Hp Hi'; cbn in *; [simplify_eq; right; lia|].
      destruct (Hin j p i' Hp Hi'); [by left|right; lia].
    + intros [|j] [|k] p q i1 i2 Hjk Hp Hq Hi1 Hi2 Hp0 Hq0; cbn in *; try lia; simplify_eq.
      * destruct (Hin k q i2 Hq Hi2); [done|lia].
      * eapply (Hord j k); (done || lia).
  - destruct (sbrk_all rest (set_errno ENOMEM (set_errno ENOMEM s))) as [ps1 s1] eqn:E.
    injection Hs as <- <-. destruct (IH (set_errno ENOMEM (set_errno ENOMEM s)) _ _ Hok Hf E) as (Hok1 & Hle & Hin & Hord).
    cbn in Hle, Hin. split; [done|]. split; [lia|]. split.
    + intros [|j] p i' Hp Hi'; cbn in *; [simplify_eq; by left|by apply (Hin j)].
    + intros [|j] [|k] p q i1 i2 Hjk Hp Hq Hi1 Hi2 Hp0 Hq0; cbn in *; try lia; simplify_eq; try done.
      eapply (Hord j k); (done || lia).
Qed.

(** Whatever non-negative sizes a program asks sbrk() for, every block it is
    given lies between the end of the image and the 4 MB limit, no two of them
    overlap, and the break stays in those bounds; a request that does not fit
    gets the null pointer, not -1, with errno set to ENOMEM. *)
Theorem sbrk_blocks_disjoint incrs s ps s' :
  heap_ok s -> Forall (fun i => 0 <= i < 2 ^ 31) incrs -> sbrk_all incrs s = (ps, s') ->
  heap_ok s' /\
  (forall j p i, ps !! j = Some p -> incrs !! j = Some i -> p <> 0 ->
     forall x, region p i x -> heap_start <= x < eheap) /\
  (forall j k p q i i' x, j <> k -> ps !! j = Some p -> ps !! k = Some q ->
     incrs !! j = Some i -> incrs !! k = Some i' -> p <> 0 -> q <> 0 ->
     region p i x -> ~ region q i' x) /\
  (forall incr, 0 <= incr < 2 ^ 31 -> eheap < heapend s' + incr ->
     (sbrk incr s').1 = 0 /\ errno (sbrk incr s').2 = ENOMEM /\
     heapend (sbrk incr s').2 = heapend s').
Proof.
  intros Hok Hf Hs. destruct (sbrk_all_spec _ _ _ _ Hok Hf Hs) as (Hok' & Hle & Hin & Hord).
  unfold heap_ok, region in *. split; [done|]. split; [|split].
  - intros j p i Hp Hi Hp0 x Hx. destruct (Hin j p i Hp Hi); [done|]. lia.
  - intros j k p q i i' x Hjk Hp Hq Hi Hi' Hp0 Hq0 Hx Hx'.
    destruct (Nat.lt_trichotomy j k) as [Hlt|[->|Hlt]]; [|done|].
    + pose proof (Hord j k p q i i' Hlt Hp Hq Hi Hi' Hp0 Hq0). lia.
    + pose proof (Hord k j q p i' i Hlt Hq Hp Hi' Hi Hq0 Hp0). lia.
  - intros incr Hi Hbig. rewrite sbrk_eq by done. by zdecide.
Qed.
End Bounds.

(** Open() turns the result of the hypercall into the C convention: a
    non-negative descriptor is returned with errno cleared, and a negative result
    is returned as -1 with errno set to its negation, so that the -1 the host's
    open() gives for any failure always reads as EPERM. *)
Theorem open_result filename flags mode s r x :
  let m := if Z.land flags O_CREAT =? 0 then 0 else u32 mode in
  hypercall HCALL_open filename flags m (outside s) = (r, x) -> - 2 ^ 31 < r < 2 ^ 31 ->
  g_open filename flags mode s =
    if r <? 0 then (-1, GSys (- r) (heapend s) x) else (r, GSys 0 (heapend s) x).
Proof.
  intros m Hh Hr. unfold g_open. fold m. unfold do_hypercall. rewrite Hh.
  rewrite (swrap_small 64) by (try unfold in_s; lia).
  rewrite (swrap_small 32) by (try unfold in_s; lia). unfold syscall_ret.
  destruct (Z.ltb_spec r 0); cbn.
  - rewrite (swrap_small 32 (- r)) by (try unfold in_s; lia). done.
  - by rewrite (swrap_small 32 r) by (try unfold in_s; lia).
Qed.
End GuestSys.

(** ** Examples *)

(** A hypercall that fails with -1, as the host's open() does for a missing file. *)
Definition failing_call (nr a b c : Z) (x : unit) : Z * unit := (-1, x).

Lemma open_result_witness :
  g_open failing_call 0x9000 0 0 (GSys 0 0x10000 tt) = (-1, GSys EPERM 0x10000 tt).
Proof.
  exact (open_result failing_call 0x9000 0 0 (GSys 0 0x10000 tt) (-1) tt eq_refl ltac:(lia)).
Defined.

Lemma sbrk_blocks_disjoint_witness :
  (sbrk_all [4096; 4096] (GSys 0 0x10000 tt)).1 = [0x10000; 0x11000] /\
  forall x, region 0x10000 4096 x -> ~ region 0x11000 4096 x.
Proof.
  split; [reflexivity|]. intros x.
  assert (Hst : 0 < 0x10000 <= eheap) by (unfold eheap; lia).
  assert (Hok : heap_ok 0x10000 (GSys 0 0x10000 tt)) by (unfold heap_ok; cbn; lia).
  assert (Hf : Forall (fun i => 0 <= i < 2 ^ 31) [4096; 4096]) by (repeat constructor; lia).
  destruct (sbrk_blocks_disjoint 0x10000 Hst [4096; 4096] (GSys 0 0x10000 tt) _ _ Hok Hf eq_refl)
    as (_ & _ & H & _).
  exact (H 0%nat 1%nat 0x10000 0x11000 4096 4096 x ltac:(lia) eq_refl eq_refl eq_refl eq_refl
           ltac:(lia) ltac:(lia)).
Defined.
