(* ===== verification/GuestIO.v ===== *)
(** Input and output from end to end: the guest's system-call layer ([GuestSys]) on
    top of the hypervisor ([Binding]).

    A call of the guest's C library puts its arguments in registers and executes the
    out instruction of __hypercall (pass/rt/boot64.asm: rdi, rsi, rdx and rcx carry the
    call, the result comes back in rax); the virtine exits and the handler of
    wasp_run_virtine serves it.  Here that step is the parameter of [GuestSys]. *)

From S2P Require Import Prelude Kvm ScriptHost Cpuid Virtine Cache Binding GuestSys.

Definition call_regs (r : kvm_regs) (nr a b c : Z) : kvm_regs :=
  Regs (rax r) (rbx r) (u64 c) (u64 b) (u64 a) (u64 nr) (rsp r) (rbp r) (r8 r) (r9 r) (r10 r) (r11 r)
    (r12 r) (r13 r) (r14 r) (r15 r) (rip r) (rflags r).

Section GuestIO.
Context `{Hst : Host} `{OS : HostOS}.
Context (ub_shift : Z -> Z -> Z) (g_use_snapshots : bool).
Context (code : ptr) (codesz memsz whitelist : Z) (vm : Z).

(** The out instruction of the guest [vm], the exit and its handler.  After an error
    of the hypervisor nothing runs any more. *)
Definition guest_hypercall (nr a b c : Z) (x : res bworld) : Z * res bworld :=
  match x with
  | Err e => (0, Err e)
  | Ok w =>
      match (r ← hv (read_regs vm);
             hv (write_regs vm (call_regs r nr a b c));;
             hypercall ub_shift g_use_snapshots code codesz memsz whitelist vm;;
             hv (read_regs vm)) w with
      | Ok (r, w') => (rax r, Ok w')
      | Err e => (0, Err e)
      end
  end.

Context `{HL : !HostLaws} `{OSL : !HostOSLaws}.

(** A world in which the virtine can make a call. *)
Record callable (w : bworld) (v : Virtine) (r : kvm_regs) (s : sregs) (f : fpu) (b : Z) (ram : list Z) : Prop := Callable {
  ca_live : live (b_w w) vm v (r, s, f) b ram;
  ca_fresh : fresh_ok (b_w w);
  ca_lock : b_lock w = false
}.

Lemma guest_hypercall_ok nr a b c w v r s f blk ram r' ram' o' done :
  callable w v r s f blk ram ->
  spec_hypercall ub_shift g_use_snapshots whitelist (b_os w) (call_regs r nr a b c) ram = Some (r', ram', o', done) ->
  exists w', guest_hypercall nr a b c (Ok w) = (rax r', Ok w') /\ after w w' vm v (r', s, f) blk ram' o'.
Proof.
  intros [L Hf Hl] Hs. unfold guest_hypercall.
  rewrite (bbind_ok _ _ _ _ _ (hv_pure _ _ _ (read_regs_eq _ _ _ _ _ _ (live_obj _ _ _ _ _ _ L) (live_cpu _ _ _ _ _ _ L)))).
  destruct (write_regs_live _ _ _ _ _ _ _ _ (call_regs r nr a b c) L) as (x & Ex & L1 & F1).
  rewrite (write_regs_eq _ _ _ _ (live_obj _ _ _ _ _ _ L)) in Ex. injection Ex as <-.
  erewrite bbind_ok by (apply hv_ok, (write_regs_eq _ _ _ _ (live_obj _ _ _ _ _ _ L))).
  set (w1 := with_w _ w). assert (Hos : b_os w1 = b_os w) by done.
  pose proof (hypercall_ok ub_shift g_use_snapshots code codesz memsz whitelist w1 vm v _ s f blk ram L1 Hf Hl) as Hh.
  rewrite Hos, Hs in Hh. destruct Hh as (w' & Eh & [v' L' Hsame Ho Hk F]).
  rewrite (bbind_ok _ _ _ _ _ Eh). destruct Hsame as (Hcpu & Hvmfd & Hmask).
  rewrite (hv_pure _ _ _ (read_regs_eq _ _ _ _ _ _ (live_obj _ _ _ _ _ _ L') (live_cpu _ _ _ _ _ _ L'))).
  exists w'. split; [done|]. exists v'; [done|done|done|by rewrite Hk|]. by eapply frame_trans.
Qed.

(** ** Results *)

Lemma int_result x : s32 (s64 (u64 x)) = s32 x.
Proof. by rewrite swrap_uwrap, s32_s64 by lia. Qed.

(** The state of a call's guest after it. *)
Definition returns (w : bworld) (v : Virtine) (s : sregs) (f : fpu) (b : Z) (g : gsys (X := res bworld))
    (out : Z * gsys (X := res bworld)) (result : Z) (ram : list Z) (o : ost) : Prop :=
  exists w' r', out = (result, GSys (errno g) (heapend g) (Ok w')) /\ after w w' vm v (r', s, f) b ram o.

Section Calls.
Context (w : bworld) (v : Virtine) (r : kvm_regs) (s : sregs) (f : fpu) (b : Z) (ram : list Z) (g : gsys (X := res bworld)).
Context (Hw : callable w v r s f b ram) (Hg : outside g = Ok w).

Lemma int_call nr a1 a2 a3 r' ram' o' done :
  spec_hypercall ub_shift g_use_snapshots whitelist (b_os w) (call_regs r nr a1 a2 a3) ram = Some (r', ram', o', done) ->
  returns w v s f b g (int_hypercall guest_hypercall nr a1 a2 a3 g) (s32 (s64 (rax r'))) ram' o'.
Proof.
  intros Hs. destruct (guest_hypercall_ok _ _ _ _ _ _ _ _ _ _ _ _ _ _ _ Hw Hs) as (w' & E & A).
  exists w', r'. split; [|done]. unfold int_hypercall, do_hypercall. by rewrite Hg, E.
Qed.

(** What the handler finds in the registers. *)
Lemma call_regs_args nr a1 a2 a3 : 0 <= nr < 2 ^ 31 -> 0 <= a1 < 2 ^ 63 -> 0 <= a2 < 2 ^ 63 -> 0 <= a3 < 2 ^ 63 ->
  rdi (call_regs r nr a1 a2 a3) = nr /\ rsi (call_regs r nr a1 a2 a3) = a1 /\ rdx (call_regs r nr a1 a2 a3) = a2 /\
  rcx (call_regs r nr a1 a2 a3) = a3 /\ s32 nr = nr.
Proof. intros. cbn. rewrite !uwrap_small, swrap_small by (unfold in_u, in_s; lia). done. Qed.

Lemma fits_max p n : 0 <= p -> 0 <= n -> p + n <= blen ram -> p < 2 ^ 63 /\ n < 2 ^ 63.
Proof. intros. pose proof (live_max _ _ _ _ _ _ (ca_live _ _ _ _ _ _ _ Hw)). lia. Qed.

Lemma spec_read fd p n x data o ram' : 0 <= fd < 2 ^ 31 -> 0 <= p -> 0 <= n -> p + n <= blen ram ->
  hypercall_allowed ub_shift HCALL_read whitelist = true ->
  os_read (b_os w) fd true n = (x, data, o) -> splice p data ram = Some ram' ->
  spec_hypercall ub_shift g_use_snapshots whitelist (b_os w) (call_regs r HCALL_read fd p n) ram =
  Some (set_rax (u64 x) (call_regs r HCALL_read fd p n), ram', o, false).
Proof.
  intros Hfd Hp Hn Hfit Hal Hr Hs. destruct (fits_max p n Hp Hn Hfit).
  destruct (call_regs_args HCALL_read fd p n) as (E1 & E2 & E3 & E4 & E5); [unfold HCALL_read; lia|lia..|].
  unfold spec_hypercall, spec_serve. rewrite E1, E2, E3, E4, E5, Hal. cbn [Z.eqb HCALL_read Pos.eqb].
  rewrite swrap_small by (try unfold in_s; lia). rewrite !(uwrap_small 64 p), !(uwrap_small 64 n), !(uwrap_small 64 (p + n)) by (unfold in_u; lia).
  zdecide. cbn -[call_regs]. by rewrite Hr, Hs.
Qed.

Lemma spec_write fd p n x o : 0 <= fd < 2 ^ 31 -> 0 <= p -> 0 <= n -> p + n <= blen ram ->
  hypercall_allowed ub_shift HCALL_write whitelist = true ->
  os_write (b_os w) fd (slice p n ram) n = (x, o) ->
  spec_hypercall ub_shift g_use_snapshots whitelist (b_os w) (call_regs r HCALL_write fd p n) ram =
  Some (set_rax (u64 x) (call_regs r HCALL_write fd p n), ram, o, false).
Proof.
  intros Hfd Hp Hn Hfit Hal Hr. destruct (fits_max p n Hp Hn Hfit).
  destruct (call_regs_args HCALL_write fd p n) as (E1 & E2 & E3 & E4 & E5); [unfold HCALL_write; lia|lia..|].
  unfold spec_hypercall, spec_serve. rewrite E1, E2, E3, E4, E5, Hal. cbn [Z.eqb HCALL_write Pos.eqb].
  rewrite swrap_small by (try unfold in_s; lia). rewrite !(uwrap_small 64 p), !(uwrap_small 64 n), !(uwrap_small 64 (p + n)) by (unfold in_u; lia).
  zdecide. cbn -[call_regs]. rewrite slice_is_Some in * by done. by rewrite Hr.
Qed.

(** Not allowed, or outside the guest's memory: nothing is done, and rax is not set. *)
Lemma spec_refused nr fd p n : nr = HCALL_read \/ nr = HCALL_write -> 0 <= fd < 2 ^ 31 -> 0 <= p < 2 ^ 63 -> 0 <= n < 2 ^ 63 ->
  hypercall_allowed ub_shift nr whitelist = false \/ blen ram < p + n ->
  spec_hypercall ub_shift g_use_snapshots whitelist (b_os w) (call_regs r nr fd p n) ram =
  Some (call_regs r nr fd p n, ram, b_os w, false).
Proof.
  intros Hnr Hfd Hp Hn Href.
  destruct (call_regs_args nr fd p n) as (E1 & E2 & E3 & E4 & E5); [unfold HCALL_read, HCALL_write in *; lia|lia..|].
  unfold spec_hypercall, spec_serve. rewrite E1, E2, E3, E4, E5.
  destruct (hypercall_allowed ub_shift nr whitelist); [|done]. destruct Href as [|Hout]; [done|].
  rewrite !(uwrap_small 64 n), !(uwrap_small 64 (p + n)) by (unfold in_u; lia).
  destruct Hnr as [-> | ->]; cbn [Z.eqb HCALL_read HCALL_write Pos.eqb]; zdecide; done.
Qed.

(** C19: read() and write() of the guest's library, through the hypervisor.  When the
    call is whitelisted and its buffer lies in the guest's memory, write() hands the
    bytes of the buffer to the host's write(), read() stores what the host's read()
    gives at the buffer's place and nowhere else, and each returns the host's result;
    otherwise nothing happens in the guest's memory or on the host, and the caller gets
    whatever rax held before the call, not an error.  In every case no other virtine,
    VCPU or block changes. *)
Theorem guest_io_correct fd p n : 0 <= fd < 2 ^ 31 -> 0 <= p < 2 ^ 63 -> 0 <= n < 2 ^ 31 ->
  (forall x o, hypercall_allowed ub_shift HCALL_write whitelist = true -> p + n <= blen ram ->
     os_write (b_os w) fd (slice p n ram) n = (x, o) ->
     returns w v s f b g (g_write guest_hypercall fd p n g) (s32 x) ram o) /\
  (forall x data o ram', hypercall_allowed ub_shift HCALL_read whitelist = true -> p + n <= blen ram ->
     os_read (b_os w) fd true n = (x, data, o) -> splice p data ram = Some ram' ->
     returns w v s f b g (g_read guest_hypercall fd p n g) (s32 x) ram' o) /\
  (hypercall_allowed ub_shift HCALL_write whitelist = false \/ blen ram < p + n ->
     returns w v s f b g (g_write guest_hypercall fd p n g) (s32 (s64 (rax r))) ram (b_os w)) /\
  (hypercall_allowed ub_shift HCALL_read whitelist = false \/ blen ram < p + n ->
     returns w v s f b g (g_read guest_hypercall fd p n g) (s32 (s64 (rax r))) ram (b_os w)).
Proof.
  intros Hfd Hp Hn. assert (Hc : forall nr r' ram' o' done x, x = s32 (s64 (rax r')) ->
    spec_hypercall ub_shift g_use_snapshots whitelist (b_os w) (call_regs r nr fd p n) ram = Some (r', ram', o', done) ->
    returns w v s f b g (int_hypercall guest_hypercall nr fd p n g) x ram' o').
  { intros nr r' ram' o' done x -> Hs. eapply int_call; exact Hs. }
  split; [|split; [|split]].
  - intros x o Hal Hfit Ho. eapply Hc; [|apply spec_write; (done || lia)]. cbn. by rewrite int_result.
  - intros x data o ram' Hal Hfit Ho Hs. eapply Hc; [|eapply spec_read; (done || lia)]. cbn. by rewrite int_result.
  - intros Href. eapply Hc; [|apply spec_refused; [by right|lia..|done]]. done.
  - intros Href. eapply Hc; [|apply spec_refused; [by left|lia..|done]]. done.
Qed.
End Calls.
End GuestIO.

(** ** Example *)

(** The first virtine of the pair reads two bytes to address 1. *)
Lemma guest_io_correct_witness :
  returns (Hst := script_host) (OS := quiet_os) 0 (pair_world (hcall_regs 0 0 0 0)) (pair_virtine 1 4 5) 7 8 1
    (GSys 0 0x10000 (Ok (pair_world (hcall_regs 0 0 0 0))))
    (g_read (guest_hypercall (Hst := script_host) (OS := quiet_os) no_shift true (Ptr 2 0) 2 4 VIRTINE_ALLOW_ALL 0) 0 1 2
       (GSys 0 0x10000 (Ok (pair_world (hcall_regs 0 0 0 0))))) 2 [10; 104; 105; 40] tt.
Proof.
  refine (proj1 (proj2 (guest_io_correct (Hst := script_host) (OS := quiet_os) no_shift true (Ptr 2 0) 2 4 VIRTINE_ALLOW_ALL 0
    (pair_world (hcall_regs 0 0 0 0)) (pair_virtine 1 4 5) (hcall_regs 0 0 0 0) 7 8 1 [10; 20; 30; 40]
    (GSys 0 0x10000 (Ok (pair_world (hcall_regs 0 0 0 0)))) _ eq_refl 0 1 2 ltac:(lia) ltac:(lia) ltac:(lia))) 2 [104; 105] tt _ eq_refl _ eq_refl eq_refl).
  - split; [apply pair_live|apply pair_fresh|reflexivity].
  - vm_compute. discriminate.
Defined.
