(* ===== verification/Pass.v ===== *)
(** The compiler pass: pass/pass.cpp and pass/VirtineCompiler.cpp.

    A function in a "$__VIRTINE__" section is compiled into an image of its own
    and replaced by a stub that marshals its arguments, runs the image and
    unmarshals them.  The model has the parts that decide what happens: which
    functions are virtines and with which configuration, what of the module goes
    into the image (dead-code removal), and what the stub and the image's main
    function do with the arguments.  LLVM itself, the external tools and the
    process plumbing that runs them are not modelled. *)

From stdpp Require Import fin_maps fin_map_dom.
From S2P Require Import Prelude.

(** ** Modules *)

Inductive symbol_kind : Type := Function | GlobalVariable.

#[export] Instance symbol_kind_eq_dec : EqDecision symbol_kind.
Proof. solve_decision. Defined.

(** A function or global: its section, and the symbols its body or initializer
    uses. *)
Record symbol : Type := Symbol {
  sy_kind : symbol_kind;
  sy_section : string;
  sy_uses : list string
}.

Abbreviation lmodule := (gmap string symbol).

(** ** Which functions are virtines *)

Definition virtine_section : string := "$__VIRTINE__".
Definition config_section : string := "$__VIRTINE__cfg=".

Fixpoint startswith (pre s : string) : bool :=
  match pre, s with
  | EmptyString, _ => true
  | String a pre, String b s => if Ascii.eqb a b then startswith pre s else false
  | String _ _, EmptyString => false
  end.

Fixpoint drop_string (n : nat) (s : string) : string :=
  match n, s with
  | O, _ => s
  | S n, String _ s => drop_string n s
  | S _, EmptyString => EmptyString
  end.

Definition set_section (sec : string) (f : symbol) : symbol := Symbol (sy_kind f) sec (sy_uses f).

(** The first loop of runOnModule, over the functions in order: the virtines with
    their sections, and the module with those sections cleared. *)
Fixpoint collect_virtines (fns : list string) (m : lmodule) : list (string * string) * lmodule :=
  match fns with
  | [] => ([], m)
  | n :: fns =>
      match m !! n with
      | Some f =>
          if startswith virtine_section (sy_section f) then
            let '(vs, m) := collect_virtines fns (<[n := set_section "" f]> m) in
            ((n, sy_section f) :: vs, m)
          else collect_virtines fns m
      | None => collect_virtines fns m
      end
  end.

(** The configuration a section names: the global of that name, or none. *)
Definition config_of (section : string) (m : lmodule) : option string :=
  if startswith config_section section then
    let s := drop_string (String.length config_section) section in
    match m !! s with
    | Some g => if decide (sy_kind g = GlobalVariable) then Some s else None
    | None => None
    end
  else None.

(** ** Dead code *)

(** No symbol of the module uses [n]. *)
Definition use_empty (m : lmodule) (n : string) : Prop :=
  map_Forall (fun _ s => n ∉ sy_uses s) m.
#[export] Instance use_empty_dec m n : Decision (use_empty m n).
Proof. unfold use_empty. apply _. Defined.

Definition dead_functions (root : string) (m : lmodule) : lmodule :=
  filter (fun p => sy_kind p.2 = Function /\ p.1 <> root /\ use_empty m p.1) m.
Definition dead_globals (m : lmodule) : lmodule :=
  filter (fun p => sy_kind p.2 = GlobalVariable /\ use_empty m p.1) m.

(** One pass: erase the unused functions but the root, then the unused globals. *)
Definition single_dead_code_pass (root : string) (m : lmodule) : bool * lmodule :=
  let fndel := dead_functions root m in
  let m1 := m ∖ fndel in
  let gvdel := dead_globals m1 in
  (negb (bool_decide (fndel = ∅) && bool_decide (gvdel = ∅)), m1 ∖ gvdel).

(** The loop of the constructor: until a pass removes nothing. *)
Fixpoint dead_code (fuel : nat) (root : string) (m : lmodule) : option lmodule :=
  match fuel with
  | O => None
  | S fuel =>
      let '(did_remove, m) := single_dead_code_pass root m in
      if did_remove then dead_code fuel root m else Some m
  end.

(** ** Marshalling *)

(** An argument of a call: a value, or a pointer to a cell of host memory. *)
Inductive argument : Type :=
| Scalar (v : Z)
| Pointer (a : Z).

(** LLVM types of parameters, as far as the argument structure sees them. *)
Inductive ty : Type :=
| TInt (bits : Z)
| TPtr (elt : ty).

Definition create_argument_struct (params : list ty) (ret : ty) (surrogate : bool) : list ty :=
  map (fun t => if surrogate then match t with TPtr e => e | _ => t end else t) params ++ [ret].

(** The body of a virtine: what it does with its pointers, given its scalars. *)
Inductive body : Type :=
| Ret (v : Z)
| Load (i : nat) (k : Z -> body)
| Store (i : nat) (v : Z) (k : body).

(** The body called directly: parameter [i] points to the argument's cell. *)
Fixpoint run_direct (args : list argument) (p : body) (mem : gmap Z Z) : option (gmap Z Z * Z) :=
  match p with
  | Ret v => Some (mem, v)
  | Load i k =>
      match args !! i with
      | Some (Pointer a) => match mem !! a with Some v => run_direct args (k v) mem | None => None end
      | _ => None
      end
  | Store i v k =>
      match args !! i with
      | Some (Pointer a) =>
          match mem !! a with Some _ => run_direct args k (<[a := v]> mem) | None => None end
      | _ => None
      end
  end.

(** The body called by __virtine_main: parameter [i] points to field [i] of the
    argument structure at address 0. *)
Fixpoint run_in_virtine (args : list argument) (p : body) (fields : list Z) : option (list Z * Z) :=
  match p with
  | Ret v => Some (fields, v)
  | Load i k =>
      match args !! i, fields !! i with
      | Some (Pointer _), Some v => run_in_virtine args (k v) fields
      | _, _ => None
      end
  | Store i v k =>
      match args !! i, fields !! i with
      | Some (Pointer _), Some _ => run_in_virtine args k (<[i := v]> fields)
      | _, _ => None
      end
  end.

(** compileFunction, before the call: each argument, or what it points to. *)
Fixpoint pack (args : list argument) (mem : gmap Z Z) : option (list Z) :=
  match args with
  | [] => Some []
  | Scalar v :: args => match pack args mem with Some l => Some (v :: l) | None => None end
  | Pointer a :: args =>
      match mem !! a, pack args mem with Some v, Some l => Some (v :: l) | _, _ => None end
  end.

(** After the call: the fields of pointers stored back, in order. *)
Fixpoint unpack (args : list argument) (fields : list Z) (mem : gmap Z Z) : gmap Z Z :=
  match args, fields with
  | Scalar _ :: args, _ :: fields => unpack args fields mem
  | Pointer a :: args, v :: fields => unpack args fields (<[a := v]> mem)
  | _, _ => mem
  end.

(** The scalars the body sees: __virtine_main loads them from the structure. *)
Definition scalars (args : list argument) (fields : list Z) : list Z :=
  imap (fun i a => match a with Scalar _ => fields !!! i | Pointer _ => 0 end) args.

(** __virtine_main: call the function and store its result in the last field. *)
Definition virtine_main (args : list argument) (f : list Z -> body) (fields : list Z)
    : option (list Z) :=
  match run_in_virtine args (f (scalars args fields)) fields with
  | Some (fields, r) => Some (<[length args := r]> fields)
  | None => None
  end.

(** The function's new body.  [undef] is what the alloca held in the result field. *)
Definition stub (args : list argument) (f : list Z -> body) (undef : Z) (mem : gmap Z Z)
    : option (gmap Z Z * Z) :=
  match pack args mem with
  | Some fields =>
      match virtine_main args f (fields ++ [undef]) with
      | Some fields =>
          match fields !! length args with
          | Some r => Some (unpack args fields mem, r)
          | None => None
          end
      | None => None
      end
  | None => None
  end.

(** The function as it was: its scalars are its arguments. *)
Definition direct (args : list argument) (f : list Z -> body) (mem : gmap Z Z)
    : option (gmap Z Z * Z) :=
  run_direct args (f (map (fun a => match a with Scalar v => v | Pointer _ => 0 end) args)) mem.

(** ** Dead code: what is kept *)

(** [a] uses [b], both in the module. *)
Definition uses (m : lmodule) (a b : string) : Prop :=
  exists s, m !! a = Some s /\ b ∈ sy_uses s /\ is_Some (m !! b).

(** A sub-module that keeps everything used. *)
Record pruned (root : string) (m m' : lmodule) : Prop := Pruned {
  pr_sub : m' ⊆ m;
  pr_keeps : forall n s, m !! n = Some s -> m' !! n = None ->
    n <> root /\ forall a, ~ uses m a n
}.

Lemma difference_sub (m d : lmodule) : m ∖ d ⊆ m.
Proof. apply map_subseteq_spec. intros n s H. by apply lookup_difference_Some in H as [H _]. Qed.

Lemma erase_pruned root m P `{forall x, Decision (P x)} :
  (forall n s, m !! n = Some s -> P (n, s) -> n <> root /\ use_empty m n) ->
  pruned root m (m ∖ filter P m).
Proof.
  intros HP. split; [apply difference_sub|]. intros n s Hn Hgone.
  apply lookup_difference_None in Hgone as [?|[s' Hd]]; [congruence|].
  apply map_lookup_filter_Some in Hd as [Hd HPn]. destruct (HP n s' Hd HPn) as [Hr Hu].
  split; [done|]. intros a (sa & Ha & Hin & _). by apply (Hu a sa Ha).
Qed.

(** Everything reachable from the root survives an erasure. *)
Lemma pruned_reachable root m m' n :
  pruned root m m' -> is_Some (m !! root) -> rtc (uses m) root n ->
  is_Some (m' !! n) /\ rtc (uses m') root n.
Proof.
  intros [Hsub Hkeep] [rs Hroot]. revert n.
  refine (rtc_ind_r _ root _ _).
  - split; [|done]. destruct (m' !! root) eqn:E; [by eexists|]. destruct (Hkeep _ _ Hroot E). done.
  - intros a b _ (sa & Ha & Hin & [sb Hb]) [[sa' Ha'] Hra].
    assert (Hb' : is_Some (m' !! b)).
    { destruct (m' !! b) eqn:E; [by eexists|]. destruct (Hkeep _ _ Hb E) as [_ Hno].
      exfalso. apply (Hno a). exists sa. by eauto. }
    split; [done|]. eapply rtc_r; [exact Hra|]. exists sa'. split; [done|].
    rewrite map_subseteq_spec in Hsub. rewrite (Hsub _ _ Ha') in Ha. by simplify_eq.
Qed.

Lemma pass_pruned root m b m' :
  single_dead_code_pass root m = (b, m') -> (forall s, m !! root = Some s -> sy_kind s = Function) ->
  exists m1, pruned root m m1 /\ pruned root m1 m'.
Proof.
  intros H Hroot. injection H as _ <-. exists (m ∖ dead_functions root m). split.
  - apply erase_pruned. cbn. tauto.
  - apply erase_pruned. cbn. intros n s Hn [Hk Hu]. split; [|done]. intros ->.
    apply lookup_difference_Some in Hn as [Hn _]. apply Hroot in Hn. congruence.
Qed.

(** A pass that removes nothing leaves only used symbols. *)
Lemma pass_stable root m m' :
  single_dead_code_pass root m = (false, m') ->
  m' = m /\ forall n, is_Some (m !! n) -> n <> root -> exists a, uses m a n.
Proof.
  unfold single_dead_code_pass. intros H. injection H as Hb <-.
  apply negb_false_iff, andb_true_iff in Hb as [Hf Hg].
  apply bool_decide_eq_true in Hf, Hg. rewrite Hf, map_difference_empty in *. rewrite Hg, map_difference_empty.
  split; [done|]. intros n [s Hn] Hroot.
  assert (Hu : ~ use_empty m n).
  { intros Hu. destruct (sy_kind s) eqn:Ek.
    - assert (dead_functions root m !! n = Some s) by (by apply map_lookup_filter_Some).
      rewrite Hf in *. by rewrite lookup_empty in *.
    - assert (dead_globals m !! n = Some s) by (by apply map_lookup_filter_Some).
      rewrite Hg in *. by rewrite lookup_empty in *. }
  destruct (map_not_Forall (K := string) (M := gmap string) (fun _ s => n ∉ sy_uses s) m) as [Hex _].
  destruct (Hex Hu) as (a & sa & Ha & Hin). exists a, sa.
  split; [done|]. split; [|by eexists]. by destruct (decide (n ∈ sy_uses sa)).
Qed.

Lemma erase_smaller (m : lmodule) P `{forall x, Decision (P x)} :
  (size (m ∖ filter P m) <= size m)%nat /\
  (filter P m <> ∅ -> (size (m ∖ filter P m) < size m)%nat).
Proof.
  split; [apply map_subseteq_size, difference_sub|]. intros Hne.
  apply map_choose in Hne as (n & s & Hn). apply map_subset_size.
  split; [apply difference_sub|]. intros Hsub. pose proof Hn as [Hm _]%map_lookup_filter_Some.
  rewrite map_subseteq_spec in Hsub. apply Hsub, lookup_difference_Some in Hm as [_ Hd]. congruence.
Qed.

(** A pass that removes something makes the module smaller. *)
Lemma pass_smaller root m m' :
  single_dead_code_pass root m = (true, m') -> (size m' < size m)%nat.
Proof.
  unfold single_dead_code_pass. intros H. injection H as Hb <-.
  destruct (erase_smaller m (fun p => sy_kind p.2 = Function /\ p.1 <> root /\ use_empty m p.1))
    as [Hle Hlt]. fold (dead_functions root m) in Hle, Hlt.
  set (m1 := m ∖ dead_functions root m) in *.
  destruct (erase_smaller m1 (fun p => sy_kind p.2 = GlobalVariable /\ use_empty m1 p.1))
    as [Hle1 Hlt1]. fold (dead_globals m1) in Hle1, Hlt1.
  apply negb_true_iff, andb_false_iff in Hb as [Hb|Hb]; apply bool_decide_eq_false in Hb.
  - specialize (Hlt Hb). lia.
  - specialize (Hlt1 Hb). lia.
Qed.

Lemma pruned_root root m m' :
  pruned root m m' -> (forall s, m !! root = Some s -> sy_kind s = Function) ->
  forall s, m' !! root = Some s -> sy_kind s = Function.
Proof. intros [Hsub _] H s Hs. apply H. rewrite map_subseteq_spec in Hsub. by apply Hsub. Qed.

Lemma dead_code_ok root m rs fuel :
  m !! root = Some rs -> sy_kind rs = Function -> (size m < fuel)%nat ->
  exists m', dead_code fuel root m = Some m' /\ m' ⊆ m /\
    (forall n, rtc (uses m) root n -> is_Some (m' !! n)) /\
    (forall n, is_Some (m' !! n) -> n <> root -> exists a, uses m' a n).
Proof.
  intros Hroot Hk. assert (Hfn : forall s, m !! root = Some s -> sy_kind s = Function) by congruence.
  clear Hk. revert m rs Hroot Hfn.
  induction fuel as [|fuel IH]; intros m rs Hroot Hfn Hsz; [lia|]. cbn [dead_code].
  destruct (single_dead_code_pass root m) as [b m2] eqn:E.
  destruct (pass_pruned _ _ _ _ E Hfn) as (m1 & P1 & P2).
  pose proof (pruned_root _ _ _ P1 Hfn) as Hfn1. pose proof (pruned_root _ _ _ P2 Hfn1) as Hfn2.
  assert (Hreach : forall n, rtc (uses m) root n -> is_Some (m2 !! n) /\ rtc (uses m2) root n).
  { intros n Hn. destruct (pruned_reachable _ _ _ _ P1 (mk_is_Some _ _ Hroot) Hn) as [_ Hn1].
    destruct (pruned_reachable _ _ _ root P1 (mk_is_Some _ _ Hroot) (rtc_refl _ _)) as [Hr1 _].
    by apply (pruned_reachable _ _ _ _ P2 Hr1). }
  destruct b.
  - destruct (Hreach root (rtc_refl _ _)) as [[rs2 Hroot2] _].
    pose proof (pass_smaller _ _ _ E) as Hlt.
    destruct (IH m2 rs2 Hroot2 Hfn2 ltac:(lia)) as (m' & Hd & Hsub & Hre & Hused).
    exists m'. split; [done|]. split.
    + etrans; [exact Hsub|]. etrans; [apply P2|apply P1].
    + split; [|done]. intros n Hn. apply Hre, (Hreach n Hn).
  - exists m2. split; [done|]. destruct (pass_stable _ _ _ E) as [-> Hused].
    split; [reflexivity|]. split; [|done]. intros n Hn. by apply Hreach.
Qed.

(** C15: dead-code removal stops after at most as many passes as the module has
    symbols, and what it leaves is a part of the module with the same definitions
    that contains every symbol the main function reaches, and in which every
    other symbol is used by one that is left. *)
Theorem dead_code_spec root m rs fuel :
  m !! root = Some rs -> sy_kind rs = Function -> (size m < fuel)%nat ->
  exists m', dead_code fuel root m = Some m' /\ m' ⊆ m /\
    (forall n, rtc (uses m) root n -> is_Some (m' !! n)) /\
    (forall n, is_Some (m' !! n) -> n <> root -> exists a, uses m' a n).
Proof. apply dead_code_ok. Qed.

(** ** The stub is the function *)

Fixpoint pointers (args : list argument) : list Z :=
  match args with
  | [] => []
  | Scalar _ :: args => pointers args
  | Pointer a :: args => a :: pointers args
  end.

Lemma pointers_elem args i a : args !! i = Some (Pointer a) -> a ∈ pointers args.
Proof.
  revert i. induction args as [|x args IH]; intros [|i] H; cbn in *; simplify_eq.
  - apply list_elem_of_here.
  - destruct x; [by eapply IH|]. apply list_elem_of_further. by eapply IH.
Qed.

Lemma pointers_inj args i j a : NoDup (pointers args) ->
  args !! i = Some (Pointer a) -> args !! j = Some (Pointer a) -> i = j.
Proof.
  revert i j. induction args as [|x args IH]; intros [|i] [|j] Hnd Hi Hj; cbn in *; simplify_eq; [done|..].
  - apply NoDup_cons in Hnd as [Hn _]. destruct Hn. by eapply pointers_elem.
  - apply NoDup_cons in Hnd as [Hn _]. destruct Hn. by eapply pointers_elem.
  - f_equal. eapply IH; [|done..]. destruct x; [done|]. by apply NoDup_cons in Hnd as [_ ?].
Qed.

(** Host memory and argument structure during the two runs, started from [mem0]. *)
Record in_step (args : list argument) (mem0 mem : gmap Z Z) (fields : list Z) : Prop := InStep {
  is_length : length fields = S (length args);
  is_cells : forall i a, args !! i = Some (Pointer a) ->
    exists x, mem !! a = Some x /\ fields !! i = Some x;
  is_rest : forall a, a ∉ pointers args -> mem !! a = mem0 !! a
}.

Lemma run_in_step args mem0 : NoDup (pointers args) -> forall p mem fields,
  in_step args mem0 mem fields ->
  match run_direct args p mem, run_in_virtine args p fields with
  | Some (mem', v), Some (fields', v') => v = v' /\ in_step args mem0 mem' fields'
  | None, None => True
  | _, _ => False
  end.
Proof.
  intros Hnd. induction p as [v|i k IH|i v k IH]; intros mem fields Hs; cbn; [done|..];
    destruct (args !! i) as [[|a]|] eqn:Ei; try done.
  - destruct (is_cells _ _ _ _ Hs i a Ei) as (x & -> & ->). by apply IH.
  - destruct (is_cells _ _ _ _ Hs i a Ei) as (x & Ha & Hf). rewrite Ha, Hf. apply IH.
    destruct Hs as [Hl Hc Hr]. split.
    + by rewrite length_insert.
    + intros j b Hj. destruct (decide (j = i)) as [->|Hne].
      * simplify_eq. exists v. split; [apply lookup_insert_eq|].
        apply list_lookup_insert_eq. by eapply lookup_lt_Some.
      * destruct (Hc j b Hj) as (y & Hy & Hfy). exists y.
        assert (b <> a) by (intros ->; apply Hne; by eapply pointers_inj).
        rewrite lookup_insert_ne, list_lookup_insert_ne by done. done.
    + intros b Hb. rewrite lookup_insert_ne; [by apply Hr|]. intros <-.
      apply Hb. by eapply pointers_elem.
Qed.

Lemma pack_in_step args mem undef : (forall a, a ∈ pointers args -> is_Some (mem !! a)) ->
  exists fields, pack args mem = Some fields /\ in_step args mem mem (fields ++ [undef]) /\
    (forall i v, args !! i = Some (Scalar v) -> (fields ++ [undef]) !! i = Some v).
Proof.
  induction args as [|[v|a] args IH]; intros Hp; cbn in *.
  - exists []. split; [done|]. split; [|done]. by split; intros.
  - destruct (IH Hp) as (fields & -> & [Hl Hc Hr] & Hsc). exists (v :: fields). split; [done|].
    split; [split; cbn; [lia| |done]|].
    + intros [|i] b Hi; [done|]. by apply Hc.
    + intros [|i] x Hi; cbn in *; [congruence|by apply Hsc].
  - destruct (Hp a (list_elem_of_here _ _)) as [x Hx]. rewrite Hx.
    destruct IH as (fields & -> & [Hl Hc Hr] & Hsc).
    { intros b Hb. apply Hp. by apply list_elem_of_further. }
    exists (x :: fields). split; [done|]. split; [split; cbn; [lia| |done]|].
    + intros [|i] b Hi; cbn in *; [simplify_eq; by eauto|by apply Hc].
    + intros [|i] y Hi; cbn in *; [congruence|by apply Hsc].
Qed.

Lemma unpack_lookup args : NoDup (pointers args) -> forall fields m,
  (length args <= length fields)%nat ->
  (forall i a, args !! i = Some (Pointer a) -> unpack args fields m !! a = fields !! i) /\
  (forall a, a ∉ pointers args -> unpack args fields m !! a = m !! a).
Proof.
  induction args as [|[v|a] args IH]; intros Hnd [|x fields] m Hl; cbn in *; try done; try lia.
  - destruct (IH Hnd fields m ltac:(lia)) as [H1 H2]. split; [|done]. intros [|i] b Hi; [done|by apply H1].
  - apply NoDup_cons in Hnd as [Hna Hnd].
    destruct (IH Hnd fields (<[a := x]> m) ltac:(lia)) as [H1 H2]. split.
    + intros [|i] b Hi; cbn in *; [|by apply H1]. simplify_eq. rewrite H2 by done. apply lookup_insert_eq.
    + intros b Hb. apply not_elem_of_cons in Hb as [Hne Hb]. rewrite H2 by done.
      by rewrite lookup_insert_ne.
Qed.

Lemma unpack_in_step args mem0 mem fields r :
  NoDup (pointers args) -> in_step args mem0 mem fields ->
  unpack args (<[length args := r]> fields) mem0 = mem.
Proof.
  intros Hnd [Hl Hc Hr]. destruct (unpack_lookup args Hnd (<[length args := r]> fields) mem0) as [H1 H2].
  { rewrite length_insert. lia. }
  apply map_eq. intros a. destruct (decide (a ∈ pointers args)) as [Hin|Hout].
  - assert (exists i, args !! i = Some (Pointer a)) as [i Hi].
    { clear -Hin. induction args as [|[v|b] args IH]; cbn in Hin; [by apply not_elem_of_nil in Hin|..].
      - destruct (IH Hin) as [i Hi]. by exists (S i).
      - apply elem_of_cons in Hin as [->|Hin]; [by exists 0%nat|]. destruct (IH Hin) as [i Hi]. by exists (S i). }
    rewrite (H1 _ _ Hi), list_lookup_insert_ne.
    + destruct (Hc _ _ Hi) as (x & -> & ->). done.
    + apply lookup_lt_Some in Hi. lia.
  - rewrite H2, Hr by done. done.
Qed.

Lemma scalars_eq args fields :
  (forall i v, args !! i = Some (Scalar v) -> fields !! i = Some v) ->
  scalars args fields = map (fun a => match a with Scalar v => v | Pointer _ => 0 end) args.
Proof.
  intros H. apply list_eq. intros i. unfold scalars. rewrite list_lookup_imap.
  change (map ?f args) with (f <$> args). rewrite list_lookup_fmap.
  destruct (args !! i) as [[v|a]|] eqn:E; cbn; [|done|done].
  by rewrite (list_lookup_total_correct _ _ _ (H _ _ E)).
Qed.

(** Replacing a function by its stub changes nothing its caller can see: for
    pointer arguments that point to different live cells, the stub returns what
    the function returns, leaves every cell as the function leaves it, and goes
    wrong exactly when the function does. *)
Theorem stub_equivalent args f undef mem :
  NoDup (pointers args) -> (forall a, a ∈ pointers args -> is_Some (mem !! a)) ->
  stub args f undef mem = direct args f mem.
Proof.
  intros Hnd Hp. destruct (pack_in_step args mem undef Hp) as (fields & Hpk & Hs & Hsc).
  unfold stub, direct, virtine_main. rewrite Hpk, (scalars_eq _ _ Hsc).
  set (p := f _). pose proof (run_in_step args mem Hnd p mem _ Hs) as Hr.
  destruct (run_direct args p mem) as [[mem' v]|], (run_in_virtine args p _) as [[fields' v']|]; try done.
  destruct Hr as [-> Hs']. rewrite list_lookup_insert_eq.
  - by rewrite (unpack_in_step _ _ _ _ _ Hnd Hs').
  - rewrite (is_length _ _ _ _ Hs'). lia.
Qed.

(** The stub is not the function when two arguments point to the same cell:
    a function that writes through the first and reads through the second returns
    what it wrote, its stub what the cell held before the call. *)
Theorem stub_aliased mem a x v undef :
  mem !! a = Some x ->
  let f := fun _ => Store 0 v (Load 1 Ret) in
  direct [Pointer a; Pointer a] f mem = Some (<[a := v]> mem, v) /\
  stub [Pointer a; Pointer a] f undef mem = Some (mem, x).
Proof.
  intros Hx f. unfold direct, stub, virtine_main. cbn. rewrite Hx. cbn.
  rewrite lookup_insert_eq. split; [done|]. by rewrite insert_insert_eq, insert_id.
Qed.

(** ** Configuration *)

Lemma startswith_app pre s : startswith pre (pre +:+ s) = true.
Proof. induction pre as [|c pre IH]; [done|]. change (String c pre +:+ s) with (String c (pre +:+ s)). cbn. by rewrite Ascii.eqb_refl. Qed.

Lemma drop_string_app pre s : drop_string (String.length pre) (pre +:+ s) = s.
Proof. by induction pre. Qed.

(** The section name round-trips the configuration: a function declared with
    virtine_cfg(name) is collected as a virtine, its section is cleared, and its
    configuration is the global of that name. *)
Theorem virtine_cfg_roundtrip name f fn m g :
  m !! fn = Some f -> sy_section f = (config_section +:+ name)%string ->
  m !! name = Some g -> sy_kind g = GlobalVariable ->
  collect_virtines [fn] m = ([(fn, sy_section f)], <[fn := set_section "" f]> m) /\
  config_of (sy_section f) m = Some name.
Proof.
  intros Hf Hs Hg Hk. rewrite Hs. split.
  - cbn [collect_virtines]. rewrite Hf, Hs. done.
  - unfold config_of. rewrite startswith_app, drop_string_app, Hg. by rewrite decide_True.
Qed.

(** ** Examples *)

(** __virtine_main calls f; f reads g; h and its table t are dead, one after the
    other. *)
Definition demo_module : lmodule :=
  {["__virtine_main" := Symbol Function "" ["f"]; "f" := Symbol Function "" ["g"];
    "g" := Symbol GlobalVariable "" []; "h" := Symbol Function "" ["t"];
    "t" := Symbol GlobalVariable "" ["k"]; "k" := Symbol Function "" []]}%string.

Lemma dead_code_spec_witness :
  exists m', dead_code 7 "__virtine_main" demo_module = Some m' /\ is_Some (m' !! "f"%string).
Proof.
  destruct (dead_code_spec "__virtine_main" demo_module (Symbol Function "" ["f"%string]) 7
    eq_refl eq_refl ltac:(vm_compute; lia)) as (m' & Hd & _ & Hr & _).
  exists m'. split; [exact Hd|]. apply Hr, rtc_once.
  eexists. split; [reflexivity|]. split; [apply list_elem_of_here|by eexists].
Defined.

Definition swap_body (_ : list Z) : body := Load 0 (fun x => Load 1 (fun y => Store 0 y (Store 1 x (Ret 0)))).

Lemma stub_equivalent_witness :
  stub [Pointer 10; Pointer 20] swap_body 0 {[10 := 1; 20 := 2]} = Some ({[10 := 2; 20 := 1]}, 0).
Proof.
  etransitivity; [apply (stub_equivalent [Pointer 10; Pointer 20] swap_body 0 {[10 := 1; 20 := 2]})|].
  - apply NoDup_cons. split; [|apply NoDup_singleton]. intros H. apply list_elem_of_singleton in H. lia.
  - cbn. intros a Ha. apply elem_of_cons in Ha as [->|Ha]; [by eexists|].
    apply list_elem_of_singleton in Ha as ->. by eexists.
  - reflexivity.
Defined.

Lemma stub_aliased_witness :
  stub [Pointer 10; Pointer 10] (fun _ => Store 0 5 (Load 1 Ret)) 0 {[10 := 1]}
    = Some ({[10 := 1]}, 1).
Proof. exact (proj2 (stub_aliased {[10 := 1]} 10 1 5 0 eq_refl)). Defined.

Definition cfg_module : lmodule :=
  {["main_cfg" := Symbol GlobalVariable "" []; "f" := Symbol Function "$__VIRTINE__cfg=main_cfg" []]}%string.

Lemma virtine_cfg_roundtrip_witness :
  config_of "$__VIRTINE__cfg=main_cfg" cfg_module = Some "main_cfg"%string.
Proof.
  exact (proj2 (virtine_cfg_roundtrip "main_cfg"
    (Symbol Function "$__VIRTINE__cfg=main_cfg" []) "f" cfg_module
    (Symbol GlobalVariable "" []) eq_refl eq_refl eq_refl eq_refl)).
Defined.
