(* ===== verification/TypeFinder.v ===== *)
(** The type analysis of pass/VirtineCompiler.cpp: the class TypeFinder and
    VirtineCompiler::run_analysis.

    LLVM's types, values and metadata nodes are objects with an identity; the model
    has the table of each, with what the code asks of them (kind, type, operands,
    subtypes).  The state is that of a TypeFinder: the visited sets and the list of
    named structures.  The two recursions carry fuel; the theorem gives a bound from
    the sizes of the tables that is always enough. *)

From S2P Require Import Prelude.

(** ** LLVM's objects *)

Inductive type_kind : Type := IntegerType (bits : Z) | StructType (has_name : bool) | FloatType | OtherType.
Record lltype : Type := LLType { ty_kind : type_kind; subtypes : list Z }.

(** MDNode, ConstantAsMetadata, LocalAsMetadata; the last two are ValueAsMetadata. *)
Inductive metadata : Type :=
| MDNode (n : Z)
| ConstantAsMetadata (v : Z)
| LocalAsMetadata (v : Z)
| OtherMetadata.

Inductive value : Type :=
| MetadataAsValue (m : metadata)
| Constant (is_global : bool) (type : Z) (operands : list Z)
| Instruction
| OtherValue.

Record context : Type := Context_ {
  types : gmap Z lltype;
  values : gmap Z value;
  nodes : gmap Z (list (option metadata))
}.

Record instruction : Type := Instr { in_type : Z; in_operands : list (option Z) }.
Record func : Type := Func { fn_type : Z; fn_operands : list Z; fn_args : list Z; fn_body : list (list instruction) }.
Record llmodule : Type := LLModule {
  globals : list (Z * option Z);
  aliases : list (Z * option Z);
  functions : list func
}.

(** ** TypeFinder *)

Record finder : Type := Finder {
  VisitedConstants : gset Z;
  VisitedMetadata : gset Z;
  VisitedTypes : gset Z;
  StructTypes : list Z
}.

Definition new_finder : finder := Finder ∅ ∅ ∅ [].

Definition add_constant (v : Z) (s : finder) : finder :=
  Finder ({[v]} ∪ VisitedConstants s) (VisitedMetadata s) (VisitedTypes s) (StructTypes s).
Definition add_metadata (n : Z) (s : finder) : finder :=
  Finder (VisitedConstants s) ({[n]} ∪ VisitedMetadata s) (VisitedTypes s) (StructTypes s).
Definition set_types (ts : gset Z) (s : finder) : finder :=
  Finder (VisitedConstants s) (VisitedMetadata s) ts (StructTypes s).
Definition add_struct (t : Z) (s : finder) : finder :=
  Finder (VisitedConstants s) (VisitedMetadata s) (VisitedTypes s) (StructTypes s ++ [t]).

Fixpoint for_all {A} (l : list A) (f : A -> M finder unit) : M finder unit :=
  match l with
  | [] => mret tt
  | x :: l => f x;; for_all l f
  end.

Section Finder.
Context (c : context).

(** The loop over the subtypes: the unvisited ones are marked and pushed; the head
    of the worklist is its back. *)
Fixpoint push_subtypes (subs : list Z) (visited : gset Z) (wl : list Z) : gset Z * list Z :=
  match subs with
  | [] => (visited, wl)
  | s :: subs =>
      if decide (s ∈ visited) then push_subtypes subs visited wl
      else push_subtypes subs ({[s]} ∪ visited) (s :: wl)
  end.

(** A structure with a name is listed. *)
Definition note_struct (ty : Z) (t : lltype) : M finder unit :=
  match ty_kind t with StructType true => modify (add_struct ty) | _ => mret tt end.

(** do ... while (!TypeWorklist.empty()) *)
Fixpoint type_loop (fuel : nat) (wl : list Z) : M finder unit :=
  match fuel, wl with
  | O, _ => fail_with OutOfFuel
  | S fuel, ty :: wl =>
      t ← lift_opt (types c !! ty);
      note_struct ty t;;
      visited ← gets VisitedTypes;
      let '(visited, wl) := push_subtypes (reverse (subtypes t)) visited wl in
      modify (set_types visited);;
      match wl with [] => mret tt | _ => type_loop fuel wl end
  | S _, [] => fail_with Fault
  end.

Definition incorporateType (fuel : nat) (ty : Z) : M finder unit :=
  visited ← gets VisitedTypes;
  if decide (ty ∈ visited) then mret tt
  else modify (set_types ({[ty]} ∪ visited));; type_loop fuel [ty].

(** [tfuel] bounds the worklist loop, [fuel] the depth of the recursion. *)
Fixpoint incorporate_value (tfuel fuel : nat) (v : Z) : M finder unit :=
  match fuel with
  | O => fail_with OutOfFuel
  | S fuel =>
      x ← lift_opt (values c !! v);
      match x with
      | MetadataAsValue (MDNode n) => incorporateMDNode tfuel fuel n
      | MetadataAsValue (ConstantAsMetadata w) | MetadataAsValue (LocalAsMetadata w) => incorporate_value tfuel fuel w
      | MetadataAsValue OtherMetadata => mret tt
      | Constant false ty operands =>
          visited ← gets VisitedConstants;
          if decide (v ∈ visited) then mret tt
          else
            modify (add_constant v);;
            incorporateType tfuel ty;;
            for_all operands (incorporate_value tfuel fuel)
      | _ => mret tt
      end
  end
with incorporateMDNode (tfuel fuel : nat) (n : Z) : M finder unit :=
  match fuel with
  | O => fail_with OutOfFuel
  | S fuel =>
      visited ← gets VisitedMetadata;
      if decide (n ∈ visited) then mret tt
      else
        modify (add_metadata n);;
        ops ← lift_opt (nodes c !! n);
        for_all ops (fun op =>
          match op with
          | Some (MDNode m) => incorporateMDNode tfuel fuel m
          | Some (ConstantAsMetadata v) => incorporate_value tfuel fuel v
          | _ => mret tt
          end)
  end.

(** An operand that is there and not an instruction. *)
Definition incorporate_operand (tfuel fuel : nat) (o : option Z) : M finder unit :=
  match o with
  | Some v =>
      x ← lift_opt (values c !! v);
      match x with Instruction => mret tt | _ => incorporate_value tfuel fuel v end
  | None => mret tt
  end.

Definition on_typed (tfuel fuel : nat) (g : Z * option Z) : M finder unit :=
  incorporateType tfuel g.1;;
  match g.2 with Some v => incorporate_value tfuel fuel v | None => mret tt end.

Definition on_function (tfuel fuel : nat) (f : func) : M finder unit :=
  incorporateType tfuel (fn_type f);;
  for_all (fn_operands f) (incorporate_value tfuel fuel);;
  for_all (fn_args f) (incorporate_value tfuel fuel);;
  for_all (fn_body f) (fun bb => for_all bb (fun i =>
    incorporateType tfuel (in_type i);;
    for_all (in_operands i) (incorporate_operand tfuel fuel))).

Definition on_module (tfuel fuel : nat) (m : llmodule) : M finder unit :=
  for_all (globals m) (on_typed tfuel fuel);;
  for_all (aliases m) (on_typed tfuel fuel);;
  for_all (functions m) (on_function tfuel fuel).

(** ** run_analysis *)

Record Analysis : Type := MkAnalysis { largest_int : Z; largest_float : Z }.

Definition analyse_type (a : Analysis) (t : Z) : Analysis :=
  match types c !! t with
  | Some ty =>
      match ty_kind ty with
      | IntegerType bits => MkAnalysis (Z.max (s32 bits) (largest_int a)) (largest_float a)
      | _ => a
      end
  | None => a
  end.

Definition run_analysis (tfuel fuel : nat) (m : llmodule) : res Analysis :=
  match on_module tfuel fuel m new_finder with
  | Ok (_, s) => Ok (foldl analyse_type (MkAnalysis (-1) (-1)) (elements (VisitedTypes s)))
  | Err e => Err e
  end.
End Finder.

(** ** What a TypeFinder finds *)

Inductive item : Type := IType (t : Z) | IValue (v : Z) | INode (n : Z).

Definition seen (s : finder) (i : item) : Prop :=
  match i with
  | IType t => t ∈ VisitedTypes s
  | IValue v => v ∈ VisitedConstants s
  | INode n => n ∈ VisitedMetadata s
  end.

Section Spec.
Context (c : context).

(** What an operand stands for: a constant itself, a wrapper what it wraps, and
    everything else nothing. *)
Definition plain_constant (v : Z) : option item :=
  match values c !! v with Some (Constant false _ _) => Some (IValue v) | _ => None end.
Definition resolve (v : Z) : option item :=
  match values c !! v with
  | Some (MetadataAsValue (MDNode n)) => Some (INode n)
  | Some (MetadataAsValue (ConstantAsMetadata w)) | Some (MetadataAsValue (LocalAsMetadata w)) => plain_constant w
  | _ => plain_constant v
  end.

Inductive edge : item -> item -> Prop :=
| edge_subtype t ty s : types c !! t = Some ty -> s ∈ subtypes ty -> edge (IType t) (IType s)
| edge_type v ty ops : values c !! v = Some (Constant false ty ops) -> edge (IValue v) (IType ty)
| edge_operand v ty ops w i : values c !! v = Some (Constant false ty ops) -> w ∈ ops -> resolve w = Some i ->
    edge (IValue v) i
| edge_node n ops m : nodes c !! n = Some ops -> Some (MDNode m) ∈ ops -> edge (INode n) (INode m)
| edge_constant n ops v i : nodes c !! n = Some ops -> Some (ConstantAsMetadata v) ∈ ops -> resolve v = Some i ->
    edge (INode n) i.

Definition is_wrapper (v : Z) : bool :=
  match values c !! v with Some (MetadataAsValue _) => true | _ => false end.

(** The tables are closed, and a wrapped value is not a wrapper. *)
Definition known_value (v : Z) : Prop := is_Some (values c !! v).
Definition known_metadata (m : metadata) : Prop :=
  match m with
  | MDNode n => is_Some (nodes c !! n)
  | ConstantAsMetadata v | LocalAsMetadata v => known_value v /\ is_wrapper v = false
  | OtherMetadata => True
  end.
Definition known_type (t : Z) : Prop := is_Some (types c !! t).

Record well_formed : Prop := WellFormed {
  wf_types : forall t ty, types c !! t = Some ty -> Forall known_type (subtypes ty);
  wf_constants : forall v g ty ops, values c !! v = Some (Constant g ty ops) -> known_type ty /\ Forall known_value ops;
  wf_wrappers : forall v m, values c !! v = Some (MetadataAsValue m) -> known_metadata m;
  wf_nodes : forall n ops m, nodes c !! n = Some ops -> Some m ∈ ops -> known_metadata m
}.

(** From [s] to [s'], everything that can be reached from the roots was visited and
    nothing else. *)
Record visits (roots : item -> Prop) (s s' : finder) : Prop := Visits {
  vi_keep : forall i, seen s i -> seen s' i;
  vi_roots : forall i, roots i -> seen s' i;
  vi_closed : forall i, seen s' i -> seen s i \/ forall j, edge i j -> seen s' j;
  vi_sound : forall i, seen s' i -> seen s i \/ exists r, roots r /\ rtc edge r i
}.

Lemma visits_none s : visits (fun _ => False) s s.
Proof. split; tauto. Qed.

Lemma visits_ext (R R' : item -> Prop) s s' : (forall i, R i <-> R' i) -> visits R s s' -> visits R' s s'.
Proof. intros H [K Ro C So]. split; [done|by firstorder|done|]. intros i Hi. destruct (So i Hi) as [|(r & ? & ?)]; [tauto|]. right. by firstorder. Qed.

Lemma visits_trans R1 R2 s1 s2 s3 : visits R1 s1 s2 -> visits R2 s2 s3 -> visits (fun i => R1 i \/ R2 i) s1 s3.
Proof.
  intros [K1 Ro1 C1 So1] [K2 Ro2 C2 So2]. split.
  - auto.
  - intros i [H|H]; auto.
  - intros i Hi. destruct (C2 i Hi) as [H2|]; [|tauto]. destruct (C1 i H2) as [|H1]; [tauto|]. right. auto.
  - intros i Hi. destruct (So2 i Hi) as [H2|(r & ? & ?)]; [|by right; eauto].
    destruct (So1 i H2) as [|(r & ? & ?)]; [tauto|]. by right; eauto.
Qed.

(** An item is marked, then everything it leads to is visited. *)
Lemma visits_enter it R s s1 s' : (forall i, seen s1 i <-> i = it \/ seen s i) -> (forall j, R j <-> edge it j) ->
  visits R s1 s' -> visits (eq it) s s'.
Proof.
  intros H1 HR [K Ro C So]. split.
  - intros i Hi. apply K, H1. by right.
  - intros i <-. apply K, H1. by left.
  - intros i Hi. destruct (C i Hi) as [[->|Hs]%H1|]; [|tauto|tauto]. right. intros j Hj. by apply Ro, HR.
  - intros i Hi. destruct (So i Hi) as [[->|Hs]%H1|(r & Hr & Hri)]; [right; by exists it|tauto|].
    right. exists it. split; [done|]. eapply rtc_l; [by apply HR|done].
Qed.

(** ** Runs *)

Definition unvisited (s : finder) : nat :=
  size (dom (values c) ∖ VisitedConstants s) + size (dom (nodes c) ∖ VisitedMetadata s).

(** From any state with at most [n] items left the computation ends, having visited
    the roots. *)
Definition explores (n : nat) (R : item -> Prop) (m : M finder unit) : Prop :=
  forall s, (unvisited s <= n)%nat -> exists s', m s = Ok (tt, s') /\ visits R s s'.

Lemma visits_unvisited R s s' : visits R s s' -> (unvisited s' <= unvisited s)%nat.
Proof.
  intros [K _ _ _]. unfold unvisited. apply Nat.add_le_mono; apply subseteq_size.
  - intros v Hv. apply elem_of_difference in Hv as [Hd Hv]. apply elem_of_difference. split; [done|].
    intros Hin. apply Hv, (K (IValue v)), Hin.
  - intros v Hv. apply elem_of_difference in Hv as [Hd Hv]. apply elem_of_difference. split; [done|].
    intros Hin. apply Hv, (K (INode v)), Hin.
Qed.

Lemma explores_ext n (R R' : item -> Prop) m : (forall i, R i <-> R' i) -> explores n R m -> explores n R' m.
Proof. intros HR H s Hs. destruct (H s Hs) as (s' & E & V). exists s'. split; [done|]. by eapply visits_ext. Qed.

Lemma explores_none n : explores n (fun _ => False) (mret tt).
Proof. intros s _. exists s. split; [done|apply visits_none]. Qed.

Lemma explores_bind n R1 R2 m1 m2 : explores n R1 m1 -> explores n R2 m2 ->
  explores n (fun i => R1 i \/ R2 i) (m1;; m2).
Proof.
  intros H1 H2 s Hs. destruct (H1 s Hs) as (s1 & E1 & V1).
  destruct (H2 s1) as (s2 & E2 & V2); [pose proof (visits_unvisited _ _ _ V1); lia|].
  exists s2. split; [unfold_M; by rewrite E1|]. by eapply visits_trans.
Qed.

Lemma explores_for {A} n (l : list A) f (R : A -> item -> Prop) : (forall x, x ∈ l -> explores n (R x) (f x)) ->
  explores n (fun i => exists x, x ∈ l /\ R x i) (for_all l f).
Proof.
  induction l as [|x l IH]; intros H; cbn [for_all].
  - eapply explores_ext; [|apply explores_none]. intros i. split; [done|]. intros (x & Hx & _). by apply elem_of_nil in Hx.
  - eapply explores_ext; [|apply explores_bind; [apply H; left|apply IH; intros y Hy; apply H; by right]].
    intros i. cbn. split.
    + intros [Hx|(y & Hy & HR)]; [exists x|exists y]; (split; [|done]); [by left|by right].
    + intros (y & Hy & HR). apply elem_of_cons in Hy as [->|Hy]; [by left|right]. by exists y.
Qed.

(** *** Types *)

Lemma size_diff_insert (D V : gset Z) x : x ∈ D -> x ∉ V -> size (D ∖ V) = S (size (D ∖ ({[x]} ∪ V))).
Proof.
  intros HD HV.
  replace (D ∖ V) with ({[x]} ∪ (D ∖ ({[x]} ∪ V))).
  - rewrite size_union by set_solver. rewrite size_singleton. lia.
  - apply set_eq. intros y. destruct (decide (y = x)); set_solver.
Qed.

Lemma push_subtypes_spec (D : gset Z) (subs : list Z) vis wl : Forall (fun t => t ∈ D) subs ->
  exists new : list Z, let '(vis', wl') := push_subtypes subs vis wl in
    wl' = new ++ wl /\ vis' = list_to_set new ∪ vis /\ (forall t, t ∈ new -> t ∈ subs) /\
    (forall t, t ∈ subs -> t ∈ vis') /\ (length wl' + size (D ∖ vis') = length wl + size (D ∖ vis))%nat.
Proof.
  intros HD. revert vis wl. induction HD as [|t subs Ht HD IH]; intros vis wl; cbn [push_subtypes].
  - exists []. cbn. split; [done|]. split; [set_solver|]. split; [done|]. split; [|done]. intros t Ht. by apply elem_of_nil in Ht.
  - case_decide as Hv.
    + destruct (IH vis wl) as [new H]. exists new. destruct (push_subtypes subs vis wl) as [vis' wl'].
      destruct H as (-> & -> & H1 & H2 & H3). split; [done|]. split; [done|]. split; [|split; [|done]]; set_solver.
    + destruct (IH ({[t]} ∪ vis) (t :: wl)) as [new H]. exists (new ++ [t]).
      destruct (push_subtypes subs ({[t]} ∪ vis) (t :: wl)) as [vis' wl'].
      destruct H as (-> & -> & H1 & H2 & H3). split; [by rewrite <- app_assoc|].
      rewrite (size_diff_insert D vis t) by done. split; [set_solver|]. split; [set_solver|]. split; [set_solver|].
      cbn [length] in H3. lia.
Qed.

(** During the loop for the type [root], started in [s0]: the worklist holds what
    was marked and not yet processed. *)
Record type_inv (root : Z) (s0 s : finder) (wl : list Z) : Prop := TypeInv {
  ti_rest : VisitedConstants s = VisitedConstants s0 /\ VisitedMetadata s = VisitedMetadata s0;
  ti_keep : VisitedTypes s0 ⊆ VisitedTypes s;
  ti_root : root ∈ VisitedTypes s;
  ti_known : Forall known_type wl;
  ti_closed : forall t, t ∈ VisitedTypes s -> t ∈ VisitedTypes s0 \/ t ∈ wl \/
    forall j, edge (IType t) j -> seen s j;
  ti_sound : forall t, t ∈ VisitedTypes s -> t ∈ VisitedTypes s0 \/ rtc edge (IType root) (IType t);
  ti_work : Forall (fun t => rtc edge (IType root) (IType t)) wl
}.

Lemma type_inv_done root s0 s : type_inv root s0 s [] -> visits (eq (IType root)) s0 s.
Proof.
  intros [[H1 H2] K Ro _ C So _]. split.
  - intros [t|v|n]; cbn; [apply K|by rewrite H1|by rewrite H2].
  - by intros i <-.
  - intros [t|v|n] Hi; cbn in *; [|rewrite H1 in Hi; tauto|rewrite H2 in Hi; tauto].
    destruct (C t Hi) as [|[Hin|]]; [tauto|by apply elem_of_nil in Hin|tauto].
  - intros [t|v|n] Hi; cbn in *; [|rewrite H1 in Hi; tauto|rewrite H2 in Hi; tauto].
    destruct (So t Hi) as [|]; [tauto|]. right. by eexists.
Qed.

Lemma type_inv_step root s0 s ty t wl vis' wl' : well_formed ->
  types c !! ty = Some t -> push_subtypes (reverse (subtypes t)) (VisitedTypes s) wl = (vis', wl') ->
  type_inv root s0 s (ty :: wl) ->
  type_inv root s0 (set_types vis' s) wl' /\
  (length wl' + size (dom (types c) ∖ vis') = length wl + size (dom (types c) ∖ VisitedTypes s))%nat.
Proof.
  intros Hwf Ht Hp [Hr K Ro Hk C So Hw].
  pose proof (wf_types Hwf ty t Ht) as Hsubs.
  destruct (push_subtypes_spec (dom (types c)) (reverse (subtypes t)) (VisitedTypes s) wl) as [new H].
  { apply Forall_reverse. eapply Forall_impl; [exact Hsubs|]. intros u Hu. by apply elem_of_dom. }
  rewrite Hp in H. destruct H as (-> & -> & Hnew & Hall & Hsize). split; [|done].
  apply Forall_cons in Hk as [_ Hk]. apply Forall_cons in Hw as [Hty Hw].
  assert (Hedge : forall u, u ∈ new -> edge (IType ty) (IType u)).
  { intros u Hu. eapply edge_subtype; [exact Ht|]. by apply elem_of_reverse, Hnew. }
  assert (Hreach : forall u, u ∈ new -> rtc edge (IType root) (IType u)).
  { intros u Hu. eapply rtc_r; [exact Hty|by apply Hedge]. }
  split; cbn [set_types VisitedConstants VisitedMetadata VisitedTypes].
  - done.
  - set_solver.
  - set_solver.
  - apply Forall_app. split; [|done]. apply Forall_forall. intros u Hu.
    rewrite Forall_forall in Hsubs. by apply Hsubs, elem_of_reverse, Hnew.
  - intros u Hu. destruct (decide (u ∈ new)) as [Hn|Hn]; [right; left; set_solver|].
    destruct (decide (u = ty)) as [->|Hne].
    + right; right. intros j Hj. inversion Hj; simplify_eq. cbn. by apply Hall, elem_of_reverse.
    + destruct (C u ltac:(set_solver)) as [|[|Hc]]; [tauto|set_solver|]. right; right. intros j Hj.
      specialize (Hc j Hj). destruct j; cbn in *; set_solver.
  - intros u Hu. destruct (decide (u ∈ new)) as [Hn|Hn]; [right; by apply Hreach|]. apply So. set_solver.
  - apply Forall_app. split; [by apply Forall_forall|done].
Qed.

Lemma type_loop_ok root s0 : well_formed -> forall fuel wl s, type_inv root s0 s wl -> wl <> [] ->
  (length wl + size (dom (types c) ∖ VisitedTypes s) <= fuel)%nat ->
  exists s', type_loop c fuel wl s = Ok (tt, s') /\ visits (eq (IType root)) s0 s'.
Proof.
  intros Hwf. induction fuel as [|fuel IH]; intros wl s Hinv Hne Hf.
  - destruct wl; [done|cbn in Hf; lia].
  - destruct wl as [|ty wl]; [done|]. cbn [type_loop].
    destruct (Forall_cons_1 _ _ _ (ti_known _ _ _ _ Hinv)) as [[t Ht] _]. rewrite Ht.
    assert (Hpre : exists s1, note_struct ty t s = Ok (tt, s1) /\ VisitedTypes s1 = VisitedTypes s /\
      VisitedConstants s1 = VisitedConstants s /\ VisitedMetadata s1 = VisitedMetadata s).
    { unfold note_struct. destruct (ty_kind t) as [|[]| |]; by eexists. }
    destruct Hpre as (s1 & Epre & HT & HC & HM).
    assert (Hinv1 : type_inv root s0 s1 (ty :: wl)).
    { destruct Hinv as [Hr K Ro Hk C So Hw]. split; rewrite ?HT, ?HC, ?HM; try done.
      intros u Hu. destruct (C u Hu) as [|[|Hc]]; [tauto|tauto|]. right; right. intros j Hj.
      specialize (Hc j Hj). destruct j; cbn in *; by rewrite ?HT, ?HC, ?HM. }
    destruct (push_subtypes (reverse (subtypes t)) (VisitedTypes s1) wl) as [vis' wl'] eqn:Ep.
    destruct (type_inv_step root s0 s1 ty t wl vis' wl' Hwf Ht Ep Hinv1) as [Hinv2 Hsz].
    unfold_M. rewrite Epre. cbn beta iota. rewrite Ep. cbn beta iota.
    destruct wl' as [|u wl'].
    + eexists. split; [done|]. by apply type_inv_done.
    + apply IH; [done|done|]. cbn [set_types VisitedTypes length] in *. rewrite HT in Hsz. lia.
Qed.

Lemma incorporateType_explores n tfuel ty : well_formed -> known_type ty -> (size (types c) < tfuel)%nat ->
  explores n (eq (IType ty)) (incorporateType c tfuel ty).
Proof.
  intros Hwf Hty Hf s _. unfold incorporateType. unfold_M. case_decide as Hv.
  - exists s. split; [done|]. split; [done|by intros i <-|tauto|tauto].
  - apply type_loop_ok; [done| |done|].
    + split; cbn [set_types VisitedConstants VisitedMetadata VisitedTypes]; [done|set_solver|set_solver|by repeat constructor|..].
      * intros t Ht. destruct (decide (t = ty)); [right; left; set_solver|left; set_solver].
      * intros t Ht. destruct (decide (t = ty)) as [->|]; [by right|left; set_solver].
      * by repeat constructor.
    + cbn [length set_types VisitedTypes].
      assert (Hd : (size (dom (types c) ∖ ({[ty]} ∪ VisitedTypes s)) <= size (dom (types c)))%nat)
        by (apply subseteq_size; set_solver).
      rewrite size_dom in Hd. lia.
Qed.

(** *** Values and metadata *)

Lemma explores_enter n it mark R m s : (forall i, seen (mark s) i <-> i = it \/ seen s i) ->
  (forall j, R j <-> edge it j) -> S (unvisited (mark s)) = unvisited s -> (unvisited s <= n)%nat ->
  explores (n - 1) R m -> exists s', m (mark s) = Ok (tt, s') /\ visits (eq it) s s'.
Proof.
  intros Hm HR Hu Hn He. destruct (He (mark s)) as (s' & E & V); [lia|].
  exists s'. split; [done|]. by eapply visits_enter.
Qed.

Definition cost (v : Z) : nat := if is_wrapper v then 2%nat else 1%nat.

Definition value_ok (tfuel fuel : nat) : Prop := forall n v, known_value v -> (2 * n + cost v <= fuel)%nat ->
  explores n (fun i => resolve v = Some i) (incorporate_value c tfuel fuel v).
Definition node_ok (tfuel fuel : nat) : Prop := forall n k, is_Some (nodes c !! k) -> (2 * n + 1 <= fuel)%nat ->
  explores n (eq (INode k)) (incorporateMDNode c tfuel fuel k).

Lemma cost_bound v : (1 <= cost v <= 2)%nat.
Proof. unfold cost. destruct (is_wrapper v); lia. Qed.

Lemma plain_resolve v : is_wrapper v = false -> resolve v = plain_constant v.
Proof. unfold is_wrapper, resolve. repeat case_match; congruence. Qed.

(** A constant that was not visited yet. *)
Lemma constant_explores tfuel fuel n v ty ops : well_formed -> (size (types c) < tfuel)%nat -> value_ok tfuel fuel ->
  values c !! v = Some (Constant false ty ops) -> (2 * n <= fuel)%nat ->
  explores (n - 1) (edge (IValue v)) (incorporateType c tfuel ty;; for_all ops (incorporate_value c tfuel fuel)) \/ n = 0%nat.
Proof.
  intros Hwf Ht IH Hv Hf. destruct n as [|n]; [by right|]. left. replace (S n - 1)%nat with n by lia.
  destruct (wf_constants Hwf v _ _ _ Hv) as [Hty Hops]. rewrite Forall_forall in Hops.
  eapply explores_ext; [|apply explores_bind; [by apply incorporateType_explores|]].
  2: { apply explores_for. intros w Hw. apply IH; [by apply Hops|]. pose proof (cost_bound w). lia. }
  intros j. cbn. split.
  - intros [<-|(w & Hw & Hr)]; [by eapply edge_type|by eapply edge_operand].
  - intros Hj. inversion Hj; simplify_eq; [by left|right; by eauto].
Qed.

Lemma value_step tfuel fuel : well_formed -> (size (types c) < tfuel)%nat ->
  value_ok tfuel fuel -> node_ok tfuel fuel -> value_ok tfuel (S fuel).
Proof.
  intros Hwf Ht IHv IHn n v [x Hx] Hf. cbn [incorporate_value]. rewrite Hx.
  unfold cost, is_wrapper in Hf. rewrite Hx in Hf.
  assert (Hskip : forall m, (forall s, m s = Ok (tt, s)) -> resolve v = None ->
    explores n (fun i => resolve v = Some i) m).
  { intros m Hm Hn. apply (explores_ext n (fun _ => False)); [intros i; rewrite Hn; split; [done|congruence]|].
    intros s _. exists s. split; [apply Hm|apply visits_none]. }
  destruct x as [[k|w|w|]|[] ty ops| |].
  - eapply explores_ext; [|apply IHn; [|lia]]; [|apply (wf_wrappers Hwf v _ Hx)].
    intros i. unfold resolve. rewrite Hx. split; [by intros <-|intros [=]; done].
  - destruct (wf_wrappers Hwf v _ Hx) as [Hk Hw].
    eapply explores_ext; [|apply IHv; [exact Hk|unfold cost; rewrite Hw; lia]].
    intros i. rewrite (plain_resolve w Hw). unfold resolve. by rewrite Hx.
  - destruct (wf_wrappers Hwf v _ Hx) as [Hk Hw].
    eapply explores_ext; [|apply IHv; [exact Hk|unfold cost; rewrite Hw; lia]].
    intros i. rewrite (plain_resolve w Hw). unfold resolve. by rewrite Hx.
  - apply Hskip; [done|]. unfold resolve, plain_constant. by rewrite Hx.
  - apply Hskip; [done|]. unfold resolve, plain_constant. by rewrite Hx.
  - apply (explores_ext n (eq (IValue v))).
    { intros i. unfold resolve, plain_constant. rewrite Hx. split; [by intros <-|intros [=]; done]. }
    intros s Hs. unfold_M. case_decide as Hvis; [exists s; split; [done|]; split; [done|by intros i <-|tauto|tauto]|].
    assert (Hu : S (unvisited (add_constant v s)) = unvisited s).
    { unfold unvisited. rewrite (size_diff_insert (dom (values c)) (VisitedConstants s) v); [done| |done].
      apply elem_of_dom. by eexists. }
    destruct (constant_explores tfuel fuel n v ty ops Hwf Ht IHv Hx ltac:(lia)) as [He| ->]; [|lia].
    refine (explores_enter n (IValue v) (add_constant v) (edge (IValue v)) _ s _ _ Hu Hs He); [|done].
    intros [t|u|u]; cbn; set_solver.
  - apply Hskip; [done|]. unfold resolve, plain_constant. by rewrite Hx.
  - apply Hskip; [done|]. unfold resolve, plain_constant. by rewrite Hx.
Qed.

Lemma node_step tfuel fuel : well_formed -> value_ok tfuel fuel -> node_ok tfuel fuel -> node_ok tfuel (S fuel).
Proof.
  intros Hwf IHv IHn n k [ops Hk] Hf. cbn [incorporateMDNode].
  intros s Hs. unfold_M. case_decide as Hvis; [exists s; split; [done|]; split; [done|by intros i <-|tauto|tauto]|].
  assert (Hu : S (unvisited (add_metadata k s)) = unvisited s).
  { unfold unvisited. rewrite (size_diff_insert (dom (nodes c)) (VisitedMetadata s) k); [cbn; lia| |done].
    apply elem_of_dom. by eexists. }
  assert (Hedges : forall op, op ∈ ops -> match op with Some m => known_metadata m | None => True end).
  { intros [m|] Hop; [by eapply wf_nodes|done]. }
  set (R (op : option metadata) (i : item) := match op with
    | Some (MDNode m) => i = INode m | Some (ConstantAsMetadata v) => resolve v = Some i | _ => False end).
  rewrite Hk.
  refine (explores_enter n (INode k) (add_metadata k) (fun i => exists op, op ∈ ops /\ R op i) _ s _ _ Hu Hs _).
  - intros [t|u|u]; cbn; set_solver.
  - intros j. split.
    + intros (op & Hop & Hr). destruct op as [[m|v|v|]|]; cbn in Hr; try done; [subst j; by eapply edge_node|by eapply edge_constant].
    + intros Hj. inversion Hj as [| | |? ? m Hops Hin|? ? v ? Hops Hin Hr]; simplify_eq.
      * by exists (Some (MDNode m)).
      * by exists (Some (ConstantAsMetadata v)).
  - apply explores_for. intros op Hop. specialize (Hedges op Hop).
    destruct op as [[m|v|v|]|]; cbn in *; try apply explores_none.
    + eapply explores_ext; [|apply IHn; [done|lia]]. intros i. by split.
    + apply IHv; [apply Hedges|]. unfold cost. rewrite (proj2 Hedges). lia.
Qed.

Lemma finder_ok tfuel : well_formed -> (size (types c) < tfuel)%nat -> forall fuel, value_ok tfuel fuel /\ node_ok tfuel fuel.
Proof.
  intros Hwf Ht. induction fuel as [|fuel [IHv IHn]].
  - split; intros n x _ Hf; [pose proof (cost_bound x)|]; lia.
  - split; [by apply value_step|by apply node_step].
Qed.

(** ** Modules *)

Definition typed_root (g : Z * option Z) (i : item) : Prop :=
  i = IType g.1 \/ exists v, g.2 = Some v /\ resolve v = Some i.
Definition instruction_root (x : instruction) (i : item) : Prop :=
  i = IType (in_type x) \/ exists v, Some v ∈ in_operands x /\ resolve v = Some i.
Definition function_root (f : func) (i : item) : Prop :=
  i = IType (fn_type f) \/ (exists v, v ∈ fn_operands f ++ fn_args f /\ resolve v = Some i) \/
  exists bb x, bb ∈ fn_body f /\ x ∈ bb /\ instruction_root x i.
Definition module_root (m : llmodule) (i : item) : Prop :=
  (exists g, g ∈ globals m ++ aliases m /\ typed_root g i) \/ exists f, f ∈ functions m /\ function_root f i.

Definition known_typed (g : Z * option Z) : Prop := known_type g.1 /\ forall v, g.2 = Some v -> known_value v.
Definition known_instruction (x : instruction) : Prop :=
  known_type (in_type x) /\ forall v, Some v ∈ in_operands x -> known_value v.
Definition known_function (f : func) : Prop :=
  known_type (fn_type f) /\ Forall known_value (fn_operands f ++ fn_args f) /\ Forall (Forall known_instruction) (fn_body f).
Definition known_module (m : llmodule) : Prop :=
  Forall known_typed (globals m ++ aliases m) /\ Forall known_function (functions m).

(** A depth that is enough for every recursion. *)
Definition depth_bound : nat := 2 * (size (values c) + size (nodes c)) + 2.

Section Module.
Context (tfuel fuel : nat) (Hwf : well_formed) (Ht : (size (types c) < tfuel)%nat) (Hf : (depth_bound <= fuel)%nat).

Abbreviation all_items := (size (values c) + size (nodes c))%nat.
Abbreviation visits_all := (explores all_items).

Lemma value_explores v : known_value v -> visits_all (fun i => resolve v = Some i) (incorporate_value c tfuel fuel v).
Proof.
  intros Hv. apply (finder_ok tfuel Hwf Ht fuel); [done|]. pose proof (cost_bound v). unfold depth_bound in Hf. lia.
Qed.

Lemma type_explores t : known_type t -> visits_all (eq (IType t)) (incorporateType c tfuel t).
Proof. intros. by apply incorporateType_explores. Qed.

Lemma typed_explores g : known_typed g -> visits_all (typed_root g) (on_typed c tfuel fuel g).
Proof.
  intros [Hty Hv]. destruct g as [t [v|]]; cbn in *.
  - eapply explores_ext; [|apply explores_bind; [by apply type_explores|by apply value_explores, Hv]].
    intros i. unfold typed_root. cbn. split; [intros [<-|]; eauto|]. intros [->|(w & [= <-] & ?)]; tauto.
  - eapply explores_ext; [|apply explores_bind; [by apply type_explores|apply explores_none]].
    intros i. unfold typed_root. cbn. split; [intros [<-|[]]; eauto|]. intros [->|(w & [=] & ?)]; tauto.
Qed.

Lemma operand_explores o : (forall v, o = Some v -> known_value v) ->
  visits_all (fun i => exists v, o = Some v /\ resolve v = Some i) (incorporate_operand c tfuel fuel o).
Proof.
  intros Ho. destruct o as [v|]; cbn [incorporate_operand].
  - pose proof (Ho v eq_refl) as Hv. pose proof Hv as [x Hx]. rewrite Hx.
    apply (explores_ext _ (fun i => resolve v = Some i)); [intros i; split; [by eauto|intros (w & [= <-] & ?); done]|].
    destruct x; try exact (value_explores v Hv).
    apply (explores_ext _ (fun _ => False)); [|apply explores_none]. intros i. unfold resolve, plain_constant. by rewrite Hx.
  - eapply explores_ext; [|apply explores_none]. intros i. split; [done|by intros (v & ? & _)].
Qed.

Lemma instruction_explores x : known_instruction x -> visits_all (instruction_root x)
  (incorporateType c tfuel (in_type x);; for_all (in_operands x) (incorporate_operand c tfuel fuel)).
Proof.
  intros [Hty Hops]. eapply explores_ext; [|apply explores_bind; [by apply type_explores|apply explores_for]].
  2: { intros o Ho. apply operand_explores. intros v ->. by apply Hops. }
  intros i. unfold instruction_root. cbn. split.
  - intros [<-|(o & Ho & v & -> & Hr)]; [by left|right]. by exists v.
  - intros [->|(v & Hv & Hr)]; [by left|right]. exists (Some v). eauto.
Qed.

Lemma function_explores f : known_function f -> visits_all (function_root f) (on_function c tfuel fuel f).
Proof.
  intros (Hty & Hvs & Hbody). rewrite Forall_app, !Forall_forall in Hvs. destruct Hvs as [Ho Ha].
  rewrite Forall_forall in Hbody.
  eapply explores_ext; [|apply explores_bind; [by apply type_explores|apply explores_bind;
    [apply explores_for; intros v Hv; by apply value_explores, Ho|apply explores_bind;
    [apply explores_for; intros v Hv; by apply value_explores, Ha|apply explores_for; intros bb Hbb;
     apply explores_for; intros x Hx; apply instruction_explores]]]].
  2: { specialize (Hbody bb Hbb). rewrite Forall_forall in Hbody. by apply Hbody. }
  intros i. unfold function_root. cbn. split.
  - intros [<-|[(v & Hv & Hr)|[(v & Hv & Hr)|(bb & Hbb & x & Hx & Hr)]]]; [by left| | |].
    + right; left. exists v. split; [|done]. apply elem_of_app. by left.
    + right; left. exists v. split; [|done]. apply elem_of_app. by right.
    + right; right. by exists bb, x.
  - intros [->|[(v & Hv & Hr)|(bb & x & Hbb & Hx & Hr)]]; [by left| |].
    + apply elem_of_app in Hv as [Hv|Hv]; [right; left|right; right; left]; by exists v.
    + right; right; right. exists bb. split; [done|]. by exists x.
Qed.

Lemma module_explores m : known_module m -> visits_all (module_root m) (on_module c tfuel fuel m).
Proof.
  intros [Hg Hfn]. rewrite Forall_app, !Forall_forall in Hg. destruct Hg as [Hg Ha]. rewrite Forall_forall in Hfn.
  eapply explores_ext; [|apply explores_bind; [apply explores_for; intros g Hin; by apply typed_explores, Hg|
    apply explores_bind; [apply explores_for; intros g Hin; by apply typed_explores, Ha|
    apply explores_for; intros f Hin; by apply function_explores, Hfn]]].
  intros i. unfold module_root. cbn. split.
  - intros [(g & Hi & Hr)|[(g & Hi & Hr)|?]]; [left|left|by right]; exists g; (split; [|done]); apply elem_of_app; tauto.
  - intros [(g & Hi & Hr)|?]; [|tauto]. apply elem_of_app in Hi as [Hi|Hi]; [left|right; left]; by exists g.
Qed.

(** A finder run over a module has visited exactly what the module reaches. *)
Lemma module_visited m : known_module m -> exists s, on_module c tfuel fuel m new_finder = Ok (tt, s) /\
  forall i, seen s i <-> exists r, module_root m r /\ rtc edge r i.
Proof.
  intros Hm. destruct (module_explores m Hm new_finder) as (s & E & [K Ro C So]).
  { unfold unvisited. cbn. rewrite !difference_empty_L, !size_dom. lia. }
  assert (Hnew : forall i, ~ seen new_finder i) by (intros [t|v|n]; cbn; set_solver).
  exists s. split; [done|]. intros i. split.
  - intros Hi. destruct (So i Hi) as [Hn|Hr]; [by destruct (Hnew i)|done].
  - intros (r & Hr & Hri). apply Ro in Hr. induction Hri as [|r j i Hrj _ IH]; [done|].
    apply IH. destruct (C r Hr) as [Hn|Hc]; [by destruct (Hnew r)|by apply Hc].
Qed.
End Module.

(** ** The largest integer *)

Definition int_width (t : Z) : option Z :=
  match types c !! t with
  | Some ty => match ty_kind ty with IntegerType bits => Some (s32 bits) | _ => None end
  | None => None
  end.

Lemma analyse_types ts a : let r := foldl (analyse_type c) a ts in
  largest_float r = largest_float a /\ largest_int a <= largest_int r /\
  (forall t bits, t ∈ ts -> int_width t = Some bits -> bits <= largest_int r) /\
  (largest_int r = largest_int a \/ exists t, t ∈ ts /\ int_width t = Some (largest_int r)).
Proof.
  revert a. induction ts as [|t ts IH]; intros a; cbn [foldl].
  - split; [done|]. split; [done|]. split; [|by left]. intros t b Ht. by apply elem_of_nil in Ht.
  - destruct (IH (analyse_type c a t)) as (Hf & Hle & Hall & Hmax).
    set (r := foldl (analyse_type c) (analyse_type c a t) ts) in *. clearbody r.
    assert (Ha : largest_float (analyse_type c a t) = largest_float a /\
      largest_int (analyse_type c a t) = match int_width t with Some b => Z.max b (largest_int a) | None => largest_int a end).
    { unfold analyse_type, int_width. destruct (types c !! t) as [[[] ?]|]; done. }
    destruct Ha as [Ha1 Ha2]. split; [congruence|]. split; [destruct (int_width t); lia|]. split.
    + intros u b Hu Hb. apply elem_of_cons in Hu as [->|Hu]; [|by eapply Hall]. rewrite Hb in Ha2. lia.
    + destruct Hmax as [Hm|(u & Hu & Hw)]; [|right; exists u; split; [by right|done]].
      destruct (int_width t) as [b|] eqn:Eb; [|left; lia].
      destruct (Z.max_spec b (largest_int a)) as [[_ Hmx]|[_ Hmx]]; rewrite Hmx in Ha2; [left; lia|right].
      exists t. split; [left|]. by rewrite Hm, Ha2.
Qed.
End Spec.

Definition reaches (c : context) (m : llmodule) (t : Z) : Prop :=
  exists r, module_root c m r /\ rtc (edge c) r (IType t).

(** C40: the analysis of a module ends, on types, constants and metadata that may
    refer to each other in cycles, and gives the width of the largest integer type the
    module reaches through its globals, functions, instructions and constants, or -1
    when it reaches none; the largest float is never set. *)
Theorem run_analysis_correct c m tfuel fuel :
  well_formed c -> known_module c m -> (size (types c) < tfuel)%nat -> (depth_bound c <= fuel)%nat ->
  exists a, run_analysis c tfuel fuel m = Ok a /\ largest_float a = -1 /\
    (forall t bits, reaches c m t -> int_width c t = Some bits -> bits <= largest_int a) /\
    (largest_int a = -1 \/ exists t, reaches c m t /\ int_width c t = Some (largest_int a)).
Proof.
  intros Hwf Hm Ht Hf. destruct (module_visited c tfuel fuel Hwf Ht Hf m Hm) as (s & E & Hs).
  unfold run_analysis. rewrite E. eexists. split; [done|].
  destruct (analyse_types c (elements (VisitedTypes s)) (MkAnalysis (-1) (-1))) as (Hfl & _ & Hall & Hmax).
  split; [done|]. split.
  - intros t bits Hr. apply Hall, elem_of_elements, (Hs (IType t)), Hr.
  - destruct Hmax as [|(t & Hin & Hw)]; [by left|right]. exists t. split; [|done].
    by apply elem_of_elements, (Hs (IType t)) in Hin.
Qed.

(** A recursive list node { node*, i32 } used by a function with an i64 constant
    behind a metadata node that refers to itself. *)
Definition demo_context : context := Context_
  {[1 := LLType (StructType true) [2; 3]; 2 := LLType OtherType [1]; 3 := LLType (IntegerType 32) [];
    4 := LLType (IntegerType 64) []; 5 := LLType OtherType [3; 2]; 6 := LLType (IntegerType 128) []]}
  {[10 := Constant false 4 []; 11 := MetadataAsValue (MDNode 20); 12 := Instruction; 13 := Constant true 6 []]}
  {[20 := [Some (MDNode 20); None; Some (ConstantAsMetadata 10); Some OtherMetadata]]}.
Definition demo_llmodule : llmodule :=
  LLModule [(2, Some 13)] [] [Func 5 [] [] [[Instr 3 [Some 11; Some 12; None]]]].

(** Case analysis on a look-up in a table written out. *)
Ltac table H :=
  repeat (apply lookup_insert_Some in H as [[<- ?]|[_ H]]);
  try (apply lookup_singleton_Some in H as [<- ?]); simplify_eq.
Ltac known :=
  repeat first [apply Forall_cons; split|apply Forall_nil; exact I|done|by eexists|split].

Lemma demo_context_wf : well_formed demo_context.
Proof.
  split.
  - intros t ty H. cbn in H. table H; known.
  - intros v g ty ops H. cbn in H. table H; known.
  - intros v m H. cbn in H. table H; known.
  - intros n ops m H Hm. cbn in H. table H. repeat (apply elem_of_cons in Hm as [?|Hm]; [by simplify_eq; known|]).
    by apply elem_of_nil in Hm.
Qed.

Lemma demo_module_known : known_module demo_context demo_llmodule.
Proof.
  split; known.
  - intros v [= <-]. known.
  - intros v Hv. cbn in Hv. repeat (apply elem_of_cons in Hv as [?|Hv]; [by simplify_eq; known|]). by apply elem_of_nil in Hv.
Qed.

(** The 64 bits of the constant are found, the 128 bits of the global's value type
    are not. *)
Lemma run_analysis_correct_witness : exists a, run_analysis demo_context 7 12 demo_llmodule = Ok a /\ largest_int a = 64 /\
  forall t bits, reaches demo_context demo_llmodule t -> int_width demo_context t = Some bits -> bits <= 64.
Proof.
  destruct (run_analysis_correct demo_context demo_llmodule 7 12 demo_context_wf demo_module_known
    ltac:(vm_compute; lia) ltac:(vm_compute; lia)) as (a & E & _ & Hall & _).
  exists a. assert (Ha : largest_int a = 64).
  { assert (Hr : run_analysis demo_context 7 12 demo_llmodule = Ok (MkAnalysis 64 (-1))) by (vm_compute; reflexivity).
    rewrite Hr in E. by injection E as <-. }
  split; [exact E|]. split; [exact Ha|]. by rewrite <- Ha.
Defined.
