(* ===== verification/Emit.v ===== *)
(** The code the pass emits: VirtinePass::compileFunction of pass/pass.cpp (the stub)
    and VirtineCompiler::create_main of pass/VirtineCompiler.cpp (__virtine_main), as
    the instructions their IRBuilder calls append, with an interpreter for them.

    [Pass] says what the stub and the main function do; the theorem here is that
    running the emitted instructions does that.  An instruction is numbered by its
    position, whether it has a result or not.  Memory holds the cells the caller's
    pointers point to and the argument structures; a pointer is a cell, a structure or
    a field of one. *)

From S2P Require Import Prelude Pass.

(** ** Instructions *)

Inductive operand : Type :=
| Arg (i : nat)
| Reg (r : nat)
| ConstInt (v : Z)
| NullPtr
| Sym (name : string).

Inductive instr : Type :=
| Alloca (t : list ty)
| GEP (t : list ty) (p : operand) (indices : list operand)
| ILoad (p : operand)
| IStore (v p : operand)
| PtrToInt (p : operand)
| Call (callee : string) (argv : list operand)
| IRet (v : option operand).

(** ** The builder *)

Abbreviation builder := (M (list instr)).

Definition insert_instr (i : instr) : builder operand := fun code => Ok (Reg (length code), code ++ [i]).

Definition CreateAlloca (t : list ty) : builder operand := insert_instr (Alloca t).
Definition CreateGEP (t : list ty) (p : operand) (indices : list Z) : builder operand :=
  insert_instr (GEP t p (ConstInt <$> indices)).
Definition CreateLoad (p : operand) : builder operand := insert_instr (ILoad p).
Definition CreateStore (v p : operand) : builder operand := insert_instr (IStore v p).
Definition CreatePtrToInt (p : operand) : builder operand := insert_instr (PtrToInt p).
Definition CreateCall (callee : string) (argv : list operand) : builder operand := insert_instr (Call callee argv).
Definition CreateRet (v : option operand) : builder operand := insert_instr (IRet v).

Definition isPointerTy (t : ty) : bool := match t with TPtr _ => true | TInt _ => false end.

(** ** compileFunction *)

(** for (auto &arg : fn.args()): fill the structure *)
Fixpoint store_arguments (t : list ty) (args : operand) (params : list ty) (i : nat) : builder unit :=
  match params with
  | [] => mret tt
  | p :: params =>
      ptr ← CreateGEP t args [0; Z.of_nat i];
      (if isPointerTy p then v ← CreateLoad (Arg i); CreateStore v ptr
       else CreateStore (Arg i) ptr);;
      store_arguments t args params (S i)
  end.

(** the second loop: write back what the pointers point to *)
Fixpoint restore_arguments (t : list ty) (args : operand) (params : list ty) (ind : nat) : builder unit :=
  match params with
  | [] => mret tt
  | p :: params =>
      (if isPointerTy p then
         ptr ← CreateGEP t args [0; Z.of_nat ind];
         val ← CreateLoad ptr;
         CreateStore val (Arg ind);;
         mret tt
       else mret tt);;
      restore_arguments t args params (S ind)
  end.

Definition ram_size : Z := 4096 * 128.

(** [wasp_run_func] is the runtime, [code_global] and [code_size] the image; [config] is the name of the configuration, or none. *)
Definition compileFunction (params : list ty) (ret : ty) (wasp_run_func code_global : string) (code_size : Z)
    (config : option string) : builder unit :=
  let arg_struct_type := create_argument_struct params ret true in
  args ← CreateAlloca arg_struct_type;
  store_arguments arg_struct_type args params 0;;
  size_ptr ← CreateGEP arg_struct_type NullPtr [1];
  size ← CreatePtrToInt size_ptr;
  CreateCall wasp_run_func [Sym code_global; ConstInt code_size; ConstInt ram_size; args; size;
    match config with Some s => Sym s | None => NullPtr end];;
  restore_arguments arg_struct_type args params 0;;
  ptr ← CreateGEP arg_struct_type args [0; Z.of_nat (length params)];
  return_value ← CreateLoad ptr;
  CreateRet (Some return_value);;
  mret tt.

(** ** create_main *)

Fixpoint load_arguments (t : list ty) (virtine_args : operand) (params : list ty) (i : nat) : builder (list operand) :=
  match params with
  | [] => mret []
  | p :: params =>
      ptr ← CreateGEP t virtine_args [0; Z.of_nat i];
      a ← (if isPointerTy p then mret ptr else CreateLoad ptr);
      argv ← load_arguments t virtine_args params (S i);
      mret (a :: argv)
  end.

Definition create_main (params : list ty) (ret : ty) (func : string) : builder unit :=
  let argtype := create_argument_struct params ret true in
  let virtine_args := Arg 0 in
  argv ← load_arguments argtype virtine_args params 0;
  return_value ← CreateCall func argv;
  ptr ← CreateGEP argtype virtine_args [0; Z.of_nat (length params)];
  CreateStore return_value ptr;;
  CreateRet None;;
  mret tt.

(** The instructions a builder leaves in an empty block. *)
Definition block (b : builder unit) : list instr :=
  match b [] with Ok (_, code) => code | Err _ => [] end.

(** ** Running instructions *)

Inductive val : Type :=
| VInt (v : Z)
| VCell (a : Z)
| VStruct (o : nat)
| VField (o : nat) (i : nat)
| VNull (k : Z)
| VSym (name : string)
| VVoid.

Record state : Type := State { cells : gmap Z Z; objects : list (list ty * list Z) }.

Definition load (s : state) (p : val) : option Z :=
  match p with
  | VCell a => cells s !! a
  | VField o i => match objects s !! o with Some (_, fields) => fields !! i | None => None end
  | _ => None
  end.

Definition set_field (o : nat) (i : nat) (v : Z) (s : state) : state :=
  State (cells s) (alter (fun x => (x.1, <[i := v]> x.2)) o (objects s)).

Definition store (s : state) (p : val) (v : Z) : option state :=
  match load s p, p with
  | Some _, VCell a => Some (State (<[a := v]> (cells s)) (objects s))
  | Some _, VField o i => Some (set_field o i v s)
  | _, _ => None
  end.

Section Run.
Context (sizeof : list ty -> Z) (undef : Z).
Context (call : string -> list val -> state -> option (val * state)).
Context (args : list val).

Definition eval (regs : list val) (x : operand) : option val :=
  match x with
  | Arg i => args !! i
  | Reg r => regs !! r
  | ConstInt v => Some (VInt v)
  | NullPtr => Some (VNull 0)
  | Sym s => Some (VSym s)
  end.

(** The element a GEP with these indices points to. *)
Definition gep (t : list ty) (p : val) (indices : list val) : option val :=
  match p, indices with
  | VStruct o, [VInt 0; VInt i] => if in_block i 1 t then Some (VField o (Z.to_nat i)) else None
  | VNull k, [VInt i] => Some (VNull (k + i * sizeof t))
  | _, _ => None
  end.

Definition step (regs : list val) (s : state) (i : instr) : option (val * state) :=
  match i with
  | Alloca t => Some (VStruct (length (objects s)), State (cells s) (objects s ++ [(t, replicate (length t) undef)]))
  | GEP t p indices =>
      p ← eval regs p; indices ← mapM (eval regs) indices; v ← gep t p indices; Some (v, s)
  | ILoad p => p ← eval regs p; v ← load s p; Some (VInt v, s)
  | IStore v p =>
      v ← eval regs v; p ← eval regs p;
      match v with VInt v => s ← store s p v; Some (VVoid, s) | _ => None end
  | PtrToInt p => p ← eval regs p; match p with VNull k => Some (VInt k, s) | _ => None end
  | Call callee argv => argv ← mapM (eval regs) argv; call callee argv s
  | IRet _ => None
  end.

Fixpoint run (code : list instr) (regs : list val) (s : state) : option (option val * state) :=
  match code with
  | [] => None
  | IRet None :: _ => Some (None, s)
  | IRet (Some v) :: _ => v ← eval regs v; Some (Some v, s)
  | i :: code => '(v, s) ← step regs s i; run code (regs ++ [v]) s
  end.
End Run.

(** ** The function, the image and the call of the runtime *)

(** The function's body with its parameters: numbers, or pointers into memory. *)
Fixpoint run_body (argv : list val) (p : body) (s : state) : option (state * Z) :=
  match p with
  | Ret v => Some (s, v)
  | Load i k => a ← argv !! i; v ← load s a; run_body argv (k v) s
  | Store i v k => a ← argv !! i; s ← store s a v; run_body argv k s
  end.

Definition scalar_of (v : val) : Z := match v with VInt v => v | _ => 0 end.

Definition call_function (f : list Z -> body) (argv : list val) (s : state) : option (val * state) :=
  '(s, r) ← run_body argv (f (scalar_of <$> argv)) s; Some (VInt r, s).

Definition val_of (a : argument) : val := match a with Scalar v => VInt v | Pointer a => VCell a end.

Section Image.
Context (sizeof : list ty -> Z) (undef : Z) (params : list ty) (ret : ty) (func : string) (f : list Z -> body).

Definition guest_call (callee : string) (argv : list val) (s : state) : option (val * state) :=
  if decide (callee = func) then call_function f argv s else None.

(** The image: __virtine_main on the argument structure it finds at address 0. *)
Definition run_image (fields : list Z) : option (list Z) :=
  match run sizeof undef guest_call [VStruct 0] (block (create_main params ret func)) []
          (State ∅ [(create_argument_struct params ret true, fields)]) with
  | Some (None, s) => snd <$> objects s !! 0%nat
  | _ => None
  end.

(** wasp_run_virtine copies argsz bytes in, runs the image, and copies them back. *)
Definition host_call (wasp_run_func code_global : string) (callee : string) (argv : list val) (s : state) : option (val * state) :=
  if decide (callee = wasp_run_func) then
    match argv with
    | [VSym c; VInt _; VInt _; VStruct o; VInt argsz; _] =>
        '(t, fields) ← objects s !! o;
        if decide (c = code_global /\ argsz = sizeof t) then
          fields ← run_image fields; Some (VVoid, State (cells s) (<[o := (t, fields)]> (objects s)))
        else None
    | _ => None
    end
  else None.

(** A call of the stub; [call] is what the functions it calls do. *)
Definition run_stub_with (call : string -> list val -> state -> option (val * state)) (wasp_run_func code_global : string) (code_size : Z)
    (config : option string) (args : list argument) (mem : gmap Z Z) : option (gmap Z Z * Z) :=
  match run sizeof undef call (val_of <$> args)
          (block (compileFunction params ret wasp_run_func code_global code_size config)) [] (State mem []) with
  | Some (Some (VInt r), s) => Some (cells s, r)
  | _ => None
  end.

Definition run_stub (wasp_run_func code_global : string) (code_size : Z) (config : option string) (args : list argument) (mem : gmap Z Z)
    : option (gmap Z Z * Z) :=
  run_stub_with (host_call wasp_run_func code_global) wasp_run_func code_global code_size config args mem.
End Image.

(** ** Emission and execution together *)

Section Emits.
Context (sizeof : list ty -> Z) (undef : Z).
Context (call : string -> list val -> state -> option (val * state)).
Context (args : list val).

Abbreviation step' := (step sizeof undef call args).
Abbreviation run' := (run sizeof undef call args).
Abbreviation eval' := (eval args).

Fixpoint exec_seq (code : list instr) (regs : list val) (s : state) : option (list val * state) :=
  match code with
  | [] => Some (regs, s)
  | i :: code => '(v, s) ← step' regs s i; exec_seq code (regs ++ [v]) s
  end.

Lemma exec_seq_app c1 c2 regs s regs1 s1 : exec_seq c1 regs s = Some (regs1, s1) ->
  exec_seq (c1 ++ c2) regs s = exec_seq c2 regs1 s1.
Proof.
  revert regs s. induction c1 as [|i c1 IH]; intros regs s H; cbn in *; [by injection H as <- <-|].
  destruct (step' regs s i) as [[v s']|]; [|done]. cbn in *. by apply IH.
Qed.

Lemma run_seq c1 c2 regs s regs1 s1 : exec_seq c1 regs s = Some (regs1, s1) -> run' (c1 ++ c2) regs s = run' c2 regs1 s1.
Proof.
  revert regs s. induction c1 as [|i c1 IH]; intros regs s H; [by injection H as <- <-|]. cbn [exec_seq] in H.
  destruct (step' regs s i) as [[v s']|] eqn:E; [|done]. cbn in H. specialize (IH _ _ H).
  destruct i; try (cbn [app run]; rewrite E; exact IH). done.
Qed.

Lemma run_step i code regs s v s' : step' regs s i = Some (v, s') -> run' (i :: code) regs s = run' code (regs ++ [v]) s'.
Proof. intros H. apply (run_seq [i]). cbn. by rewrite H. Qed.

Lemma run_call_fails callee argv code regs s : step' regs s (Call callee argv) = None -> run' (Call callee argv :: code) regs s = None.
Proof. intros H. cbn [run]. by rewrite H. Qed.

Lemma step_call callee argv vals regs s : mapM (eval' regs) argv = Some vals ->
  step' regs s (Call callee argv) = call callee vals s.
Proof. intros H. cbn [step]. by rewrite H. Qed.

(** The instructions [b] appends, run after registers [regs], take [s] to a state of [Q]. *)
Definition emits {A} (b : builder A) (regs : list val) (s : state) (Q : A -> list val -> state -> Prop) : Prop :=
  forall c, length c = length regs -> exists a new regs' s', b c = Ok (a, c ++ new) /\
    exec_seq new regs s = Some (regs', s') /\ length regs' = length (c ++ new) /\ regs `prefix_of` regs' /\ Q a regs' s'.

Lemma emits_ret {A} (a : A) regs s (Q : A -> list val -> state -> Prop) : Q a regs s -> emits (mret a) regs s Q.
Proof. intros HQ c Hc. exists a, [], regs, s. rewrite app_nil_r. by repeat split. Qed.

Lemma emits_bind {A B} (b : builder A) (k : A -> builder B) regs s Q Q' :
  emits b regs s Q -> (forall a regs' s', regs `prefix_of` regs' -> Q a regs' s' -> emits (k a) regs' s' Q') ->
  emits (b ≫= k) regs s Q'.
Proof.
  intros Hb Hk c Hc. destruct (Hb c Hc) as (a & new & regs1 & s1 & E & X & L & P & HQ).
  destruct (Hk a regs1 s1 P HQ (c ++ new) (eq_sym L)) as (a' & new' & regs2 & s2 & E' & X' & L' & P' & HQ').
  exists a', (new ++ new'), regs2, s2. unfold_M. rewrite E, E', app_assoc. split; [done|].
  split; [by rewrite (exec_seq_app _ _ _ _ _ _ X)|]. split; [done|]. split; [by etrans|done].
Qed.

Lemma emits_instr i regs s v s' (Q : operand -> list val -> state -> Prop) : step' regs s i = Some (v, s') ->
  Q (Reg (length regs)) (regs ++ [v]) s' -> emits (insert_instr i) regs s Q.
Proof.
  intros Hs HQ c Hc. exists (Reg (length regs)), [i], (regs ++ [v]), s'.
  split; [unfold insert_instr; by rewrite Hc|]. split; [cbn; by rewrite Hs|]. split; [rewrite !length_app; cbn; lia|]. by split; [by apply prefix_app_r|].
Qed.

Lemma eval_prefix regs regs' x v : regs `prefix_of` regs' -> eval' regs x = Some v -> eval' regs' x = Some v.
Proof. intros Hp. destruct x; cbn; try done. intros H. by eapply prefix_lookup_Some. Qed.

Lemma eval_last regs v : eval' (regs ++ [v]) (Reg (length regs)) = Some v.
Proof. cbn. by rewrite lookup_app_r, Nat.sub_diag by lia. Qed.

Lemma emits_then {B} i (k : operand -> builder B) regs s v s' Q : step' regs s i = Some (v, s') ->
  emits (k (Reg (length regs))) (regs ++ [v]) s' Q -> emits (insert_instr i ≫= k) regs s Q.
Proof.
  intros Hs Hk. eapply (emits_bind _ _ _ _ (fun a r s1 => a = Reg (length regs) /\ r = regs ++ [v] /\ s1 = s')).
  - by eapply emits_instr.
  - by intros a r s1 _ (-> & -> & ->).
Qed.

(** A pointer to field [i]. *)
Lemma step_field t p o i regs s : eval' regs p = Some (VStruct o) -> (i < length t)%nat ->
  step' regs s (GEP t p (ConstInt <$> [0; Z.of_nat i])) = Some (VField o i, s).
Proof.
  intros Hp Hi. cbn [step]. rewrite Hp.
  assert (Hb : in_block (Z.of_nat i) 1 t = true) by (apply in_block_iff; unfold blen; lia).
  cbn -[in_block]. rewrite Hb. cbn. by rewrite Nat2Z.id.
Qed.

Lemma emits_field {B} t p o i (k : operand -> builder B) regs s Q :
  eval' regs p = Some (VStruct o) -> (i < length t)%nat ->
  emits (k (Reg (length regs))) (regs ++ [VField o i]) s Q -> emits (CreateGEP t p [0; Z.of_nat i] ≫= k) regs s Q.
Proof.
  intros Hp Hi HQ. eapply emits_then; [|exact HQ]. by apply step_field.
Qed.

Lemma step_load p a v regs s : eval' regs p = Some a -> load s a = Some v -> step' regs s (ILoad p) = Some (VInt v, s).
Proof. intros Hp Hv. cbn [step]. rewrite Hp. cbn. by rewrite Hv. Qed.

Lemma step_store x v p a s' regs s : eval' regs x = Some (VInt v) -> eval' regs p = Some a -> store s a v = Some s' ->
  step' regs s (IStore x p) = Some (VVoid, s').
Proof. intros Hx Hp Hs. cbn [step]. rewrite Hx. cbn. rewrite Hp. cbn. by rewrite Hs. Qed.

(** *** The loops over the parameters *)

Definition fits (p : ty) (a : argument) : Prop :=
  match p, a with TInt _, Scalar _ => True | TPtr _, Pointer _ => True | _, _ => False end.

(** One structure, at object 0. *)
Definition at0 (mem : gmap Z Z) (t : list ty) (fields : list Z) : state := State mem [(t, fields)].

Lemma store_at0 mem t fields i v x : fields !! i = Some x ->
  store (at0 mem t fields) (VField 0 i) v = Some (at0 mem t (<[i := v]> fields)).
Proof. intros H. unfold store, load. cbn. by rewrite H. Qed.

Lemma insert_mid (l1 l2 : list Z) x y i : i = length l1 -> <[i := y]> (l1 ++ x :: l2) = (l1 ++ [y]) ++ l2.
Proof. intros ->. rewrite insert_app_r_alt, Nat.sub_diag by lia. by rewrite <- app_assoc. Qed.

Lemma lookup_mid (l1 l2 : list Z) x i : i = length l1 -> (l1 ++ x :: l2) !! i = Some x.
Proof. intros ->. by rewrite lookup_app_r, Nat.sub_diag by lia. Qed.

(** [as_] are the arguments from parameter [i] on. *)
Definition from (i : nat) (as_ : list argument) : Prop := forall j a, as_ !! j = Some a -> args !! (i + j)%nat = Some (val_of a).

Lemma from_cons i a as_ : from i (a :: as_) -> args !! i = Some (val_of a) /\ from (S i) as_.
Proof.
  intros H. split; [rewrite <- (H 0%nat a eq_refl); f_equal; lia|]. intros j b Hj. rewrite <- (H (S j) b Hj). f_equal. lia.
Qed.

Lemma emits_store_arguments t base mem params : forall i as_ fs pre regs,
  Forall2 fits params as_ -> from i as_ -> pack as_ mem = Some fs -> length pre = i ->
  length t = (i + length params + 1)%nat -> eval' regs base = Some (VStruct 0) ->
  emits (store_arguments t base params i) regs (at0 mem t (pre ++ replicate (length params + 1) undef))
    (fun _ _ s => s = at0 mem t (pre ++ fs ++ [undef])).
Proof.
  induction params as [|p params IH]; intros i as_ fs pre regs Hfit Hfrom Hpack Hpre Ht Hbase.
  - apply Forall2_nil_inv_l in Hfit as ->. injection Hpack as <-. by apply emits_ret.
  - apply Forall2_cons_inv_l in Hfit as (a & as' & Hpa & Hfit & ->). apply from_cons in Hfrom as [Ha Hfrom].
    cbn [length] in Ht. cbn [store_arguments].
    assert (Hx : exists v fs', fs = v :: fs' /\ pack as' mem = Some fs' /\
      ((isPointerTy p = false /\ val_of a = VInt v) \/
       (isPointerTy p = true /\ exists c, val_of a = VCell c /\ mem !! c = Some v))).
    { destruct p, a as [v|c]; try done; cbn in Hpack.
      - destruct (pack as' mem) as [fs'|]; [|done]. injection Hpack as <-. exists v, fs'. split; [done|]. split; [done|]. by left.
      - destruct (mem !! c) as [v|] eqn:Hc; [|done]. destruct (pack as' mem) as [fs'|]; [|done]. injection Hpack as <-.
        exists v, fs'. split; [done|]. split; [done|]. right. split; [done|]. by exists c. }
    destruct Hx as (v & fs' & -> & Hpack' & Hv).
    set (fields := pre ++ replicate (S (length params) + 1) undef).
    assert (Hold : fields !! i = Some undef) by (by apply lookup_mid).
    assert (Hnew : <[i := v]> fields = (pre ++ [v]) ++ replicate (length params + 1) undef) by (by apply insert_mid).
    eapply (emits_field t base 0 i); [exact Hbase|lia|].
    eapply (emits_bind _ _ _ _ (fun _ _ s => s = at0 mem t (<[i := v]> fields))).
    + pose proof (eval_last regs (VField 0 i)) as Hptr. set (regs1 := regs ++ [VField 0 i]) in *. clearbody regs1.
      destruct Hv as [[-> Hv]|[-> (c & Hv & Hc)]].
      * eapply emits_instr; [eapply step_store; [cbn; by rewrite Ha, Hv|exact Hptr|by eapply store_at0]|done].
      * eapply emits_then; [eapply step_load; [cbn; by rewrite Ha, Hv|exact Hc]|].
        eapply emits_instr; [eapply step_store; [apply eval_last| |by eapply store_at0]|done].
        eapply eval_prefix; [by apply prefix_app_r|done].
    + intros _ regs2 s2 P2 ->. rewrite Hnew.
      replace (pre ++ (v :: fs') ++ [undef]) with ((pre ++ [v]) ++ fs' ++ [undef]) by (by rewrite <- app_assoc).
      eapply IH; [done|done|done|rewrite length_app; cbn; lia|lia|].
      eapply eval_prefix; [|exact Hbase]. etrans; [|exact P2]. by apply prefix_app_r.
Qed.

(** The write-back, for pointers to live cells. *)
Lemma emits_restore_arguments t base params : forall i as_ fs pre mem regs,
  Forall2 fits params as_ -> from i as_ -> length pre = i -> (length params <= length fs)%nat ->
  length t = length (pre ++ fs) -> eval' regs base = Some (VStruct 0) ->
  (forall a, a ∈ pointers as_ -> is_Some (mem !! a)) ->
  emits (restore_arguments t base params i) regs (at0 mem t (pre ++ fs))
    (fun _ _ s => s = at0 (unpack as_ fs mem) t (pre ++ fs)).
Proof.
  induction params as [|p params IH]; intros i as_ fs pre mem regs Hfit Hfrom Hpre Hfs Ht Hbase Hlive.
  - apply Forall2_nil_inv_l in Hfit as ->. by apply emits_ret.
  - apply Forall2_cons_inv_l in Hfit as (a & as' & Hpa & Hfit & ->). apply from_cons in Hfrom as [Ha Hfrom].
    destruct fs as [|v fs]; cbn [length] in Hfs; [lia|]. cbn [restore_arguments].
    assert (Hnext : forall mem' regs', regs `prefix_of` regs' -> (forall a, a ∈ pointers as' -> is_Some (mem' !! a)) ->
      emits (restore_arguments t base params (S i)) regs' (at0 mem' t (pre ++ v :: fs))
        (fun _ _ s => s = at0 (unpack as' fs mem') t (pre ++ v :: fs))).
    { intros mem' regs' P Hl. replace (pre ++ v :: fs) with ((pre ++ [v]) ++ fs) in * by (by rewrite <- app_assoc).
      eapply IH; [done|done|rewrite length_app; cbn; lia|lia|done|by eapply eval_prefix|done]. }
    destruct p, a as [x|c]; try done; cbn [isPointerTy unpack pointers] in *.
    + eapply emits_bind; [by apply (emits_ret tt _ _ (fun _ r s => r = regs /\ s = at0 mem t (pre ++ v :: fs)))|].
      intros _ regs1 s1 P1 [-> ->]. by apply Hnext.
    + eapply (emits_bind _ _ _ _ (fun _ _ s => s = at0 (<[c := v]> mem) t (pre ++ v :: fs))).
      * eapply (emits_field t base 0 i); [exact Hbase|rewrite Ht, length_app; cbn; lia|].
        eapply emits_then; [eapply step_load; [apply eval_last|by apply lookup_mid]|].
        destruct (Hlive c ltac:(left)) as [old Hold].
        eapply emits_then; [eapply step_store; [apply eval_last|cbn; by rewrite Ha|]|by apply emits_ret].
        unfold store, load. cbn. by rewrite Hold.
      * intros _ regs1 s1 P1 ->. apply Hnext; [done|]. intros a Hin. destruct (decide (a = c)) as [->|Hne].
        -- rewrite lookup_insert_eq. by eexists.
        -- rewrite lookup_insert_ne by done. apply Hlive. by right.
Qed.

(** The arguments __virtine_main passes: fields, or pointers to them. *)
Definition guest_vals (i : nat) (as_ : list argument) (fs : list Z) : list val :=
  zip_with (fun a jv => match a with Scalar _ => VInt jv.2 | Pointer _ => VField 0 jv.1 end) as_ (zip (seq i (length fs)) fs).

Lemma emits_load_arguments t base mem params : forall i as_ fs pre regs,
  Forall2 fits params as_ -> length pre = i -> (length params <= length fs)%nat ->
  length t = length (pre ++ fs) -> eval' regs base = Some (VStruct 0) ->
  emits (load_arguments t base params i) regs (at0 mem t (pre ++ fs))
    (fun argv r s => s = at0 mem t (pre ++ fs) /\ mapM (eval' r) argv = Some (guest_vals i as_ fs)).
Proof.
  induction params as [|p params IH]; intros i as_ fs pre regs Hfit Hpre Hfs Ht Hbase.
  - apply Forall2_nil_inv_l in Hfit as ->. by apply emits_ret.
  - apply Forall2_cons_inv_l in Hfit as (a & as' & Hpa & Hfit & ->).
    destruct fs as [|v fs]; cbn [length] in Hfs; [lia|]. cbn [load_arguments].
    eapply (emits_field t base 0 i); [exact Hbase|rewrite Ht, length_app; cbn; lia|].
    pose (first := match a with Scalar _ => VInt v | Pointer _ => VField 0 i end).
    eapply (emits_bind _ _ _ _ (fun x r s => s = at0 mem t (pre ++ v :: fs) /\ eval' r x = Some first)).
    + unfold first. destruct p, a; try done; cbn [isPointerTy].
      * eapply emits_instr; [eapply step_load; [apply eval_last|by apply lookup_mid]|]. split; [done|apply eval_last].
      * apply emits_ret. split; [done|apply eval_last].
    + intros x regs1 s1 P1 [-> Hx]. eapply emits_bind.
      * replace (pre ++ v :: fs) with ((pre ++ [v]) ++ fs) in * by (by rewrite <- app_assoc).
        eapply (IH (S i) as'); [done|rewrite length_app; cbn; lia|lia|done|].
        eapply eval_prefix; [|exact Hbase]. etrans; [|exact P1]. by apply prefix_app_r.
      * intros argv regs2 s2 P2 [-> Hargv]. apply emits_ret. split; [by rewrite <- app_assoc|].
        cbn [mapM]. rewrite (eval_prefix _ _ _ _ P2 Hx). cbn [mbind option_bind]. by rewrite Hargv.
Qed.
End Emits.

(** ** The body in the guest *)

Lemma guest_vals_lookup as_ fs i : (length as_ <= length fs)%nat ->
  guest_vals 0 as_ fs !! i = (fun a => match a with Scalar _ => VInt (fs !!! i) | Pointer _ => VField 0 i end) <$> as_ !! i.
Proof.
  intros Hl. unfold guest_vals. rewrite lookup_zip_with. destruct (as_ !! i) as [a|] eqn:Ea; [|done]. cbn.
  apply lookup_lt_Some in Ea. destruct (lookup_lt_is_Some_2 fs i ltac:(lia)) as [v Hv].
  rewrite lookup_zip_with, lookup_seq_lt by (apply lookup_lt_Some in Hv; lia). cbn. rewrite Hv. cbn.
  by rewrite (list_lookup_total_correct _ _ _ Hv).
Qed.

Lemma guest_scalars as_ fs : (length as_ <= length fs)%nat -> scalar_of <$> guest_vals 0 as_ fs = scalars as_ fs.
Proof.
  intros Hl. apply list_eq. intros i. unfold scalars. rewrite list_lookup_fmap, list_lookup_imap, guest_vals_lookup by done.
  by destruct (as_ !! i) as [[]|].
Qed.

Lemma run_body_guest as_ fs mem t p : (length as_ <= length fs)%nat -> forall fields,
  run_body (guest_vals 0 as_ fs) p (at0 mem t fields) =
  match run_in_virtine as_ p fields with Some (fields', v) => Some (at0 mem t fields', v) | None => None end.
Proof.
  intros Hl. induction p as [v|i k IH|i v k IH]; intros fields; cbn [run_body run_in_virtine]; [done|..];
    rewrite guest_vals_lookup by done; destruct (as_ !! i) as [[x|a]|]; cbn; try done;
    destruct (fields !! i) as [y|] eqn:Hy; cbn; try done.
  - rewrite (store_at0 _ _ _ _ _ _ Hy). apply IH.
  - unfold store, load. cbn. by rewrite Hy.
Qed.

Lemma fits_length params as_ : Forall2 fits params as_ -> length params = length as_.
Proof. apply Forall2_length. Qed.

Lemma argument_struct_length params ret : length (create_argument_struct params ret true) = S (length params).
Proof. unfold create_argument_struct. rewrite length_app, length_map. cbn. lia. Qed.

Lemma run_in_virtine_length as_ p : forall fields fields' v,
  run_in_virtine as_ p fields = Some (fields', v) -> length fields' = length fields.
Proof.
  induction p as [v|i k IH|i v k IH]; intros fields fields' r H; cbn in H; [by injection H as <- <-|..];
    destruct (as_ !! i) as [[x|a]|]; try done; destruct (fields !! i) as [y|]; try done.
  - by eapply IH.
  - apply IH in H. by rewrite length_insert in H.
Qed.

(** The instructions of __virtine_main do what [virtine_main] says. *)
Lemma create_main_correct sizeof undef params ret func f as_ fields :
  Forall2 fits params as_ -> length fields = S (length params) ->
  run_image sizeof undef params ret func f fields = virtine_main as_ f fields.
Proof.
  intros Hfit Hl. unfold run_image, block, create_main. set (t := create_argument_struct params ret true).
  pose proof (argument_struct_length params ret) as Ht. fold t in Ht.
  pose proof (fits_length _ _ Hfit) as Hn.
  destruct (emits_load_arguments sizeof undef (guest_call func f) [VStruct 0] t (Arg 0) ∅ params 0 as_ fields []
    [] Hfit eq_refl ltac:(lia) ltac:(cbn; lia) eq_refl [] eq_refl) as (argv & code & regs & s & E & X & L & _ & -> & Hargv).
  cbn [app] in *. unfold_M. rewrite E. unfold CreateCall, CreateGEP, CreateStore, CreateRet, insert_instr.
  rewrite <- !app_assoc. cbn [app]. unfold at0 in X. rewrite (run_seq _ _ _ _ _ _ _ _ _ _ X).
  pose proof (step_call sizeof undef (guest_call func f) [VStruct 0] func argv _ regs (State ∅ [(t, fields)]) Hargv) as Hcall.
  unfold guest_call at 2 in Hcall. rewrite decide_True in Hcall by done. unfold call_function in Hcall.
  rewrite guest_scalars in Hcall by lia. fold (at0 ∅ t fields) in *. rewrite run_body_guest in Hcall by lia.
  unfold virtine_main. destruct (run_in_virtine as_ _ fields) as [[fields' r]|] eqn:Er; cbn [mbind option_bind] in Hcall.
  - apply run_in_virtine_length in Er as Hl'.
    rewrite (run_step _ _ _ _ _ _ _ _ _ _ Hcall).
    erewrite run_step by (apply (step_field _ _ _ _ t (Arg 0) 0 (length params)); [done|lia]).
    assert (Hold : is_Some (fields' !! length params)) by (apply lookup_lt_is_Some; lia). destruct Hold as [old Hold].
    assert (Hr : eval [VStruct 0] ((regs ++ [VInt r]) ++ [VField 0 (length params)]) (Reg (length code)) = Some (VInt r)).
    { eapply eval_prefix; [by apply prefix_app_r|]. rewrite <- L. apply eval_last. }
    assert (Hp : eval [VStruct 0] ((regs ++ [VInt r]) ++ [VField 0 (length params)]) (Reg (length (code ++ [Call func argv]))) =
      Some (VField 0 (length params))).
    { replace (length (code ++ [Call func argv])) with (length (regs ++ [VInt r])) by (rewrite !length_app; cbn; lia). apply eval_last. }
    erewrite run_step by (eapply step_store; [exact Hr|exact Hp|by eapply store_at0]).
    cbn. by rewrite Hn.
  - by rewrite (run_call_fails _ _ _ _ _ _ _ _ _ Hcall).
Qed.

(** ** The stub *)

Lemma restore_extends t base params : forall i c, exists new, restore_arguments t base params i c = Ok (tt, c ++ new).
Proof.
  induction params as [|p params IH]; intros i c; cbn [restore_arguments]; [exists []; by rewrite app_nil_r|].
  unfold_M. destruct (isPointerTy p); [|apply IH].
  unfold CreateGEP, CreateLoad, CreateStore, insert_instr. rewrite <- !app_assoc. cbn [app].
  match goal with |- exists _, restore_arguments _ _ _ _ (c ++ ?l) = _ => destruct (IH (S i) (c ++ l)) as [new ->]; exists (l ++ new) end.
  by rewrite app_assoc.
Qed.

Lemma pack_length as_ mem fs : pack as_ mem = Some fs -> length fs = length as_.
Proof.
  revert fs. induction as_ as [|[v|a] as_ IH]; intros fs H; cbn in H; [by injection H as <-|..];
    try destruct (mem !! a); destruct (pack as_ mem) as [l|]; simplify_eq; cbn; by rewrite IH.
Qed.

Lemma virtine_main_length as_ f fields fields' : virtine_main as_ f fields = Some fields' -> length fields' = length fields.
Proof.
  unfold virtine_main. destruct (run_in_virtine as_ _ fields) as [[l r]|] eqn:E; [|done]. intros [= <-].
  rewrite length_insert. by eapply run_in_virtine_length.
Qed.

(** The instructions of the stub, up to the call and as a whole. *)
Definition stub_head (t : list ty) (code1 : list instr) (wasp_run_func code_global : string) (code_size : Z) (config : option string) : list instr :=
  let n := length (Alloca t :: code1) in
  (Alloca t :: code1) ++ [GEP t NullPtr [ConstInt 1]; PtrToInt (Reg n);
    Call wasp_run_func [Sym code_global; ConstInt code_size; ConstInt ram_size; Reg 0; Reg (S n);
      match config with Some s => Sym s | None => NullPtr end]].

Lemma stub_block params ret wasp_run_func code_global code_size config code1 code2 :
  let t := create_argument_struct params ret true in
  let head := stub_head t code1 wasp_run_func code_global code_size config in
  store_arguments t (Reg 0) params 0 [Alloca t] = Ok (tt, Alloca t :: code1) ->
  restore_arguments t (Reg 0) params 0 head = Ok (tt, head ++ code2) ->
  block (compileFunction params ret wasp_run_func code_global code_size config) =
  head ++ code2 ++ [GEP t (Reg 0) (ConstInt <$> [0; Z.of_nat (length params)]); ILoad (Reg (length (head ++ code2)));
    IRet (Some (Reg (S (length (head ++ code2)))))].
Proof.
  intros t head E1 E2. unfold block, compileFunction. fold t. unfold_M. unfold CreateAlloca. unfold insert_instr at 1.
  cbn [app length]. rewrite E1. unfold CreatePtrToInt, CreateCall, CreateGEP at 1, insert_instr at 1 2 3.
  assert (Hlen : forall (c : list instr) x, length (c ++ [x]) = S (length c)) by (intros; rewrite length_app; cbn; lia).
  match goal with |- context [restore_arguments t (Reg 0) params 0 ?c] => replace c with head end.
  - rewrite E2. unfold CreateLoad, CreateRet, CreateGEP, insert_instr. by rewrite !Hlen, <- !app_assoc.
  - unfold head, stub_head. by rewrite !Hlen, <- !app_assoc.
Qed.

Lemma pack_live as_ mem fs : pack as_ mem = Some fs -> forall a, a ∈ pointers as_ -> is_Some (mem !! a).
Proof.
  revert fs. induction as_ as [|[v|c] as_ IH]; intros fs H a Ha; cbn in *.
  - by apply elem_of_nil in Ha.
  - destruct (pack as_ mem); [|done]. by eapply IH.
  - destruct (mem !! c) eqn:Hc; [|done]. destruct (pack as_ mem); [|done].
    apply elem_of_cons in Ha as [->|Ha]; [by eexists|by eapply IH].
Qed.

(** The configuration as the stub passes it. *)
Definition config_val (config : option string) : val := match config with Some s => VSym s | None => VNull 0 end.

(** The call of the runtime. *)
Lemma wasp_call_step sizeof undef params ret func f wasp_run_func code_global args mem fields x y z :
  let t := create_argument_struct params ret true in
  Forall2 fits params args -> length fields = S (length params) ->
  host_call sizeof undef params ret func f wasp_run_func code_global wasp_run_func
    [VSym code_global; VInt x; VInt y; VStruct 0; VInt (sizeof t); z] (at0 mem t fields) =
  match virtine_main args f fields with Some fields' => Some (VVoid, at0 mem t fields') | None => None end.
Proof.
  intros t Hfit Hl. unfold host_call. rewrite decide_True by done.
  cbn [objects at0 lookup list_lookup mbind option_bind]. rewrite decide_True by done.
  rewrite (create_main_correct _ _ _ _ _ _ args) by done. by destruct (virtine_main args f fields).
Qed.

(** After the call: the write-back and the result. *)
Lemma stub_tail sizeof undef hc params args mem t fields head code2 regs r :
  let vs := val_of <$> args in
  Forall2 fits params args -> length fields = S (length params) -> length t = S (length params) ->
  (forall a, a ∈ pointers args -> is_Some (mem !! a)) -> length head = length regs -> regs !! 0%nat = Some (VStruct 0) ->
  restore_arguments t (Reg 0) params 0 head = Ok (tt, head ++ code2) -> fields !! length params = Some r ->
  run sizeof undef hc vs (code2 ++ [GEP t (Reg 0) (ConstInt <$> [0; Z.of_nat (length params)]);
    ILoad (Reg (length (head ++ code2))); IRet (Some (Reg (S (length (head ++ code2)))))]) regs (at0 mem t fields) =
  Some (Some (VInt r), at0 (unpack args fields mem) t fields).
Proof.
  intros vs Hfit Hl Ht Hlive Hlen H0 E2 Hr.
  assert (Hfrom : from vs 0 args) by (intros j a Hj; unfold vs; cbn; by rewrite list_lookup_fmap, Hj).
  destruct (emits_restore_arguments sizeof undef hc vs t (Reg 0) params 0 args fields [] mem regs Hfit Hfrom eq_refl
    ltac:(lia) ltac:(cbn; lia) H0 Hlive head Hlen) as ([] & new & regs' & s' & E & X & L & P & ->).
  rewrite E2 in E. injection E as E%app_inv_head. subst new. cbn [app] in X. rewrite (run_seq _ _ _ _ _ _ _ _ _ _ X).
  erewrite run_step by (apply step_field; [by eapply eval_prefix|lia]). rewrite <- L.
  erewrite run_step by (eapply step_load; [apply eval_last|exact Hr]).
  assert (Hres : eval vs ((regs' ++ [VField 0 (length params)]) ++ [VInt r]) (Reg (S (length regs'))) = Some (VInt r)).
  { replace (S (length regs')) with (length (regs' ++ [VField 0 (length params)])) by (rewrite length_app; cbn; lia). apply eval_last. }
  cbn [run]. by rewrite Hres.
Qed.

(** Running the emitted stub: whatever the call of the runtime makes of the argument
    structure, the stub writes back and returns. *)
Lemma compileFunction_run sizeof undef hc params ret wasp_run_func code_global code_size config args mem fs out :
  let t := create_argument_struct params ret true in
  Forall2 fits params args -> pack args mem = Some fs ->
  hc wasp_run_func [VSym code_global; VInt code_size; VInt ram_size; VStruct 0; VInt (sizeof t); config_val config] (at0 mem t (fs ++ [undef])) =
    match out with Some fields' => Some (VVoid, at0 mem t fields') | None => None end ->
  (forall fields', out = Some fields' -> length fields' = S (length params)) ->
  run_stub_with sizeof undef params ret hc wasp_run_func code_global code_size config args mem =
  match out with
  | Some fields' => match fields' !! length args with Some r => Some (unpack args fields' mem, r) | None => None end
  | None => None
  end.
Proof.
  intros t Hfit Hpack Hhc Hout. unfold run_stub_with. set (vs := val_of <$> args).
  pose proof (argument_struct_length params ret) as Ht. fold t in Ht.
  pose proof (fits_length _ _ Hfit) as Hn. pose proof (pack_length _ _ _ Hpack) as Hfs.
  assert (Hfrom : from vs 0 args) by (intros j a Hj; unfold vs; cbn; by rewrite list_lookup_fmap, Hj).
  destruct (emits_store_arguments sizeof undef hc vs t (Reg 0) mem params 0 args fs [] [VStruct 0]
    Hfit Hfrom Hpack eq_refl ltac:(lia) eq_refl [Alloca t] eq_refl) as ([] & code1 & regs1 & s1 & E1 & X1 & L1 & P1 & ->).
  set (head := stub_head t code1 wasp_run_func code_global code_size config).
  destruct (restore_extends t (Reg 0) params 0 head) as [code2 E2].
  rewrite (stub_block params ret wasp_run_func code_global code_size config code1 code2 E1 E2). fold t head.
  unfold head at 1. unfold stub_head. rewrite <- app_assoc. cbn [app].
  erewrite run_step by (cbn [step]; reflexivity). cbn [cells objects length app]. rewrite Ht. unfold at0 in X1. cbn [app] in X1.
  rewrite Nat.add_1_r in X1. rewrite (run_seq _ _ _ _ _ _ _ _ _ _ X1).
  cbn [length app] in L1. erewrite run_step by (cbn; reflexivity).
  erewrite run_step by (cbn [step length]; rewrite <- L1, eval_last; reflexivity).
  set (regs3 := (regs1 ++ _) ++ _). set (fields := fs ++ [undef]) in *. fold (at0 mem t fields).
  assert (P3 : regs1 `prefix_of` regs3) by (unfold regs3; rewrite <- app_assoc; by apply prefix_app_r).
  assert (H0 : eval vs regs3 (Reg 0) = Some (VStruct 0)) by (apply (eval_prefix vs [VStruct 0]); [by etrans|done]).
  assert (H1 : eval vs regs3 (Reg (S (S (length code1)))) = Some (VInt (sizeof t))).
  { replace (S (S (length code1))) with (length (regs1 ++ [VNull (0 + 1 * sizeof t)])) by (rewrite length_app; cbn; lia).
    unfold regs3. rewrite eval_last. do 2 f_equal. lia. }
  set (argv := [Sym code_global; _; _; _; _; _]).
  assert (Hargv : mapM (eval vs regs3) argv =
    Some [VSym code_global; VInt code_size; VInt ram_size; VStruct 0; VInt (sizeof t); config_val config]).
  { unfold argv. cbn [mapM]. rewrite H0, H1. by destruct config. }
  assert (Hcall := step_call sizeof undef hc vs wasp_run_func argv _ regs3 (at0 mem t fields) Hargv). rewrite Hhc in Hcall.
  destruct out as [fields'|]; [|by rewrite (run_call_fails _ _ _ _ _ _ _ _ _ Hcall)].
  specialize (Hout _ eq_refl). rewrite (run_step _ _ _ _ _ _ _ _ _ _ Hcall).
  destruct (lookup_lt_is_Some_2 fields' (length params) ltac:(lia)) as [r Hr]. rewrite <- Hn, Hr.
  assert (Hlen : length head = length (regs3 ++ [VVoid])) by (unfold head, stub_head, regs3; rewrite !length_app; cbn; lia).
  pose proof (stub_tail sizeof undef hc params args mem t fields' head code2 (regs3 ++ [VVoid]) r Hfit ltac:(lia) Ht
    (pack_live _ _ _ Hpack) Hlen (lookup_app_l_Some _ _ _ _ H0) E2 Hr) as Htail. cbn zeta in Htail. fold vs in Htail.
  match goal with |- match ?X with _ => _ end = _ => match type of Htail with ?L = _ => change X with L end end.
  by rewrite Htail.
Qed.

(** Running the emitted stub does what [stub] says. *)
Lemma compileFunction_correct sizeof undef params ret func f wasp_run_func code_global code_size config args mem fs :
  Forall2 fits params args -> pack args mem = Some fs ->
  run_stub sizeof undef params ret func f wasp_run_func code_global code_size config args mem = stub args f undef mem.
Proof.
  intros Hfit Hpack. pose proof (fits_length _ _ Hfit) as Hn. pose proof (pack_length _ _ _ Hpack) as Hfs.
  assert (Hl : length (fs ++ [undef]) = S (length params)) by (rewrite length_app; cbn; lia).
  unfold run_stub. rewrite (compileFunction_run sizeof undef _ params ret _ _ _ _ args mem fs (virtine_main args f (fs ++ [undef]))); try done.
  - unfold stub. by rewrite Hpack.
  - by apply wasp_call_step.
  - intros fields' Hm. apply virtine_main_length in Hm. lia.
Qed.

(** C9: the instructions the pass emits are the function.  Calling the stub that
    compileFunction builds, whose call of the runtime runs the __virtine_main that
    create_main builds on the argument structure, returns what the function returns,
    leaves every cell as the function leaves it and goes wrong exactly when the
    function does, for arguments of the parameters' types whose pointers point to
    different live cells. *)
Theorem emitted_stub_equivalent sizeof undef params ret func f wasp_run_func code_global code_size config args mem :
  Forall2 fits params args -> NoDup (pointers args) -> (forall a, a ∈ pointers args -> is_Some (mem !! a)) ->
  run_stub sizeof undef params ret func f wasp_run_func code_global code_size config args mem = direct args f mem.
Proof.
  intros Hfit Hnd Hlive. destruct (pack_in_step args mem undef Hlive) as (fs & Hpack & _).
  rewrite (compileFunction_correct _ _ _ _ _ _ _ _ _ _ _ _ fs Hfit Hpack). by apply stub_equivalent.
Qed.

(** swap(int *a, int *b, int n), which adds n to what it stores. *)
Definition swap_add (scalars : list Z) : body :=
  Load 0 (fun x => Load 1 (fun y => Store 0 (y + nth 2 scalars 0) (Store 1 (x + nth 2 scalars 0) (Ret x)))).

Lemma emitted_stub_equivalent_witness :
  run_stub (fun t => 8 * blen t) 0 [TPtr (TInt 32); TPtr (TInt 32); TInt 32] (TInt 32) "swap" swap_add "wasp_run_virtine" "__virtine_swap_code" 4096
    None [Pointer 10; Pointer 20; Scalar 5] {[10 := 1; 20 := 2]} = Some ({[10 := 7; 20 := 6]}, 1).
Proof.
  etransitivity.
  - apply (emitted_stub_equivalent (fun t => 8 * blen t) 0 [TPtr (TInt 32); TPtr (TInt 32); TInt 32] (TInt 32) "swap" swap_add
      "wasp_run_virtine" "__virtine_swap_code" 4096 None [Pointer 10; Pointer 20; Scalar 5] {[10 := 1; 20 := 2]}).
    + repeat constructor.
    + apply NoDup_cons. split; [|apply NoDup_singleton]. intros H. apply list_elem_of_singleton in H. lia.
    + cbn. intros a Ha. apply elem_of_cons in Ha as [->|Ha]; [by eexists|].
      apply list_elem_of_singleton in Ha as ->. by eexists.
  - reflexivity.
Defined.
