(* ===== verification/Compile.v ===== *)
(** Building a virtine's image: pass/command.cpp (running external tools) and
    VirtineCompiler::compile of pass/VirtineCompiler.cpp.

    The world has the files and the processes that were started and not yet waited
    for.  What an external program does with the files is a parameter; the theorems
    assume of llc, nasm, gcc, ld and objcopy only what their -o options say. *)

From Stdlib Require Import Ascii.
From S2P Require Import Prelude.

Abbreviation bytes := (list Z).
Abbreviation path := string.

Record world : Type := World {
  files : gmap path bytes;
  children : gmap Z (list string);      (* argv of the processes that run *)
  forks : nat                           (* calls of fork so far *)
}.

Definition set_files (f : gmap path bytes) (w : world) : world := World f (children w) (forks w).

(** execvp of an argv: the files the program leaves and the status it exits with,
    or that it cannot be executed. *)
Abbreviation programs := (list string -> gmap path bytes -> option (gmap path bytes * Z)).

Definition EXIT_FAILURE : Z := 1.
Definition EEXIST : Z := 17.

(** ** ck::command *)

Record command : Type := Command { pid : Z; m_exe : string; m_args : list string }.

Definition new_command (exe : string) (args : list string) : command := Command (-1) exe args.
Definition arg (a : string) (c : command) : command := Command (pid c) (m_exe c) (m_args c ++ [a]).
Definition set_pid (p : Z) (c : command) : command := Command p (m_exe c) (m_args c).

Section Tools.
Context (execvp : programs) (fork_result : nat -> Z).

(** fork, with the argv the child is going to execute; what the n-th call returns is
    the kernel's choice, -1 for a failure. *)
Definition fork (argv : list string) : M world Z := fun w =>
  let p := fork_result (forks w) in
  Ok (p, World (files w) (if p =? -1 then children w else <[p := argv]> (children w)) (S (forks w))).

(** The wait status of a child that ran to its end: what it did to the files
    happened before. *)
Definition waitpid (p : Z) : M world (option Z) := fun w =>
  match children w !! p with
  | Some argv =>
      let w := World (files w) (delete p (children w)) (forks w) in
      match execvp argv (files w) with
      | Some (fs, status) => Ok (Some status, set_files fs w)
      | None => Ok (Some (Z.shiftl EXIT_FAILURE 8), w)
      end
  | None => Ok (None, w)
  end.

Definition command_start (c : command) : M world (Z * command) :=
  if negb (pid c =? -1) then mret (- EEXIST, c)
  else
    p ← fork (m_exe c :: m_args c);
    mret (p, set_pid p c).

Definition command_wait (c : command) : M world (Z * command) :=
  if negb (pid c =? -1) then
    stat ← waitpid (pid c);
    mret (default (-1) stat, set_pid (-1) c)
  else mret (-1, c).

Definition command_exec (c : command) : M world (Z * command) :=
  '(res, c) ← command_start c;
  if res <? 0 then mret (-1, c) else command_wait c.

(** ck::exec(exe, args...) *)
Definition exec (exe : string) (args : list string) : M world Z :=
  '(stat, _) ← command_exec (new_command exe args);
  mret stat.

(** ck::format *)
Definition format (c : command) : string := foldl (fun s a => (s +:+ " ") +:+ a) (m_exe c) (m_args c).

(** ** VirtineCompiler::compile *)

(** A C string: up to the first NUL. *)
Fixpoint c_str (s : string) : string :=
  match s with
  | EmptyString => EmptyString
  | String ch s => if Ascii.eqb ch Ascii.zero then EmptyString else String ch (c_str s)
  end.

(** FMT(n, ...): snprintf into n characters, the last of them the NUL *)
Definition FMT (n : nat) (s : string) : string := String.substring 0 (n - 1) s.

Definition ir_path (fname : string) : path := FMT 50 ("/tmp/virtine_" +:+ fname +:+ ".ll").
Definition obj_path (fname : string) : path := FMT 50 ("/tmp/virtine_" +:+ fname +:+ ".o").
Definition rto_path (fname : string) : path := FMT 50 ("/tmp/virtine_" +:+ fname +:+ ".rt.o").
Definition obj_final (fname : string) : path := FMT 50 ("/tmp/virtine_" +:+ fname +:+ ".final.o").
Definition bin_final (fname : string) : path := FMT 50 ("/tmp/virtine_" +:+ fname +:+ ".final.bin").
Definition runtime_src (fname : string) : path := FMT 50 ("runtime_" +:+ fname +:+ ".s").
Definition runtime_obj (fname : string) : path := FMT 50 ("/tmp/runtime_" +:+ fname +:+ ".s.o").

Definition boot_asm : path := "/usr/local/lib/virtine/boot64.asm".
Definition link_script : path := "/usr/local/lib/virtine/link64.ld".
Definition virtine_libc : path := "/usr/local/lib/virtine/virtine_libc.a".
Definition virtine_libm : path := "/usr/local/lib/virtine/virtine_libm.a".

(** open with O_CREAT | O_TRUNC and the module written to it.  The stream on a file
    that could not be opened must not be used. *)
Definition write_ir (writable : path -> bool) (p : path) (text : bytes) : M world unit :=
  if writable p then modify (fun w => set_files (<[p := text]> (files w)) w)
  else fail_with Fault.

(** fopen, ftell at the end, fread: the whole file; a null FILE faults *)
Definition read_file (p : path) : M world bytes := fun w =>
  match files w !! p with Some b => Ok (b, w) | None => Err Fault end.

(** A runtime of the function's own is assembled and linked as well. *)
Definition add_runtime (fname : string) (final_objects : list path) : M world (list path) :=
  found ← gets (fun w => bool_decide (is_Some (files w !! runtime_src fname)));
  if (found : bool)
    then exec "gcc" ["-c"; "-no-pie"; "-o"; runtime_obj fname; runtime_src fname];;
         mret (final_objects ++ [runtime_obj fname])
    else mret final_objects.

(** [name] is the function's name and [text] its module as IR. *)
Definition compile (writable : path -> bool) (name : string) (text : bytes) : M world bytes :=
  let fname := c_str name in
  write_ir writable (ir_path fname) text;;
  exec "llc" ["-march=x86-64"; "-filetype=obj"; "-O3"; ir_path fname; "-o"; obj_path fname];;
  exec "nasm" ["-f"; "elf64"; boot_asm; "-o"; rto_path fname];;
  final_objects ← add_runtime fname [rto_path fname; obj_path fname; virtine_libc; virtine_libm];
  let link_cmd := new_command "ld" ["-T"; link_script; "-o"; obj_final fname] in
  command_exec (foldl (fun c obj => arg obj c) link_cmd final_objects);;
  exec "objcopy" ["-O"; "binary"; obj_final fname; bin_final fname];;
  read_file (bin_final fname).
End Tools.

(** ** The tools, by their documentation *)

(** What each tool makes of its input files, where it accepts them. *)
Record tools : Type := Tools {
  llc : bytes -> option bytes;
  nasm : bytes -> option bytes;
  gcc : bytes -> option bytes;
  ld : bytes -> list bytes -> option bytes;
  objcopy : bytes -> option bytes
}.

(** Run with an output file, a tool writes that file and no other. *)
Record runs_tools (execvp : programs) (t : tools) : Prop := RunsTools {
  rt_llc i o x y fs : fs !! i = Some x -> llc t x = Some y ->
    execvp ["llc"; "-march=x86-64"; "-filetype=obj"; "-O3"; i; "-o"; o] fs = Some (<[o := y]> fs, 0);
  rt_nasm i o x y fs : fs !! i = Some x -> nasm t x = Some y ->
    execvp ["nasm"; "-f"; "elf64"; i; "-o"; o] fs = Some (<[o := y]> fs, 0);
  rt_gcc i o x y fs : fs !! i = Some x -> gcc t x = Some y ->
    execvp ["gcc"; "-c"; "-no-pie"; "-o"; o; i] fs = Some (<[o := y]> fs, 0);
  rt_ld script objs o x xs y fs : fs !! script = Some x -> mapM (fs !!.) objs = Some xs -> ld t x xs = Some y ->
    execvp ("ld" :: "-T" :: script :: "-o" :: o :: objs) fs = Some (<[o := y]> fs, 0);
  rt_objcopy i o x y fs : fs !! i = Some x -> objcopy t x = Some y ->
    execvp ["objcopy"; "-O"; "binary"; i; o] fs = Some (<[o := y]> fs, 0)
}.

(** The files a build needs, installed with Wasp. *)
Record installed : Type := Installed { f_boot : bytes; f_script : bytes; f_libc : bytes; f_libm : bytes }.
Record is_installed (f : installed) (fs : gmap path bytes) : Prop := IsInstalled {
  is_boot : fs !! boot_asm = Some (f_boot f);
  is_script : fs !! link_script = Some (f_script f);
  is_libc : fs !! virtine_libc = Some (f_libc f);
  is_libm : fs !! virtine_libm = Some (f_libm f)
}.

(** The image as a function of the module's text and the function's own runtime. *)
Definition image_of (t : tools) (f : installed) (runtime : option bytes) (text : bytes) : option bytes :=
  obj ← llc t text;
  rto ← nasm t (f_boot f);
  rts ← match runtime with Some src => o ← gcc t src; Some [o] | None => Some [] end;
  elf ← ld t (f_script f) ([rto; obj; f_libc f; f_libm f] ++ rts);
  objcopy t elf.

(** ** Paths *)

Lemma substring_all n s : (String.length s <= n)%nat -> String.substring 0 n s = s.
Proof.
  revert n. induction s as [|ch s IH]; intros [|n] H; cbn in *; [done|done|lia|]. f_equal. apply IH. lia.
Qed.

Lemma substring_prefix n s1 s2 : (n <= String.length s1)%nat -> String.substring 0 n (s1 +:+ s2) = String.substring 0 n s1.
Proof.
  revert n. induction s1 as [|ch s IH]; intros [|n] H; cbn in *; [by destruct s2|lia|done|].
  change (String ch s +:+ s2) with (String ch (s +:+ s2)). cbn. f_equal. apply IH. lia.
Qed.

Lemma length_append s1 s2 : String.length (s1 +:+ s2) = (String.length s1 + String.length s2)%nat.
Proof. induction s1 as [|ch s1 IH]; [done|]. change (String ch s1 +:+ s2) with (String ch (s1 +:+ s2)). cbn. by rewrite IH. Qed.

Lemma append_assoc s1 s2 s3 : (s1 +:+ s2) +:+ s3 = s1 +:+ s2 +:+ s3.
Proof.
  induction s1 as [|ch s1 IH]; [done|]. change (String ch s1 +:+ s2) with (String ch (s1 +:+ s2)).
  change (String ch (s1 +:+ s2) +:+ s3) with (String ch ((s1 +:+ s2) +:+ s3)). by rewrite IH.
Qed.

Definition temp_path (fname suffix : string) : path := "/tmp/virtine_" +:+ fname +:+ suffix.

Lemma temp_path_inj fname s1 s2 : s1 <> s2 -> temp_path fname s1 <> temp_path fname s2.
Proof. intros Hne H. apply Hne. unfold temp_path in H. by apply (inj (String.app "/tmp/virtine_")), (inj (String.app fname)) in H. Qed.

(** A short name is not cut. *)
Lemma short_path fname suffix : (String.length fname <= 26)%nat -> (String.length suffix <= 10)%nat ->
  FMT 50 ("/tmp/virtine_" +:+ fname +:+ suffix) = temp_path fname suffix.
Proof. intros H1 H2. unfold FMT, temp_path. apply substring_all. rewrite !length_append. cbn. lia. Qed.

Lemma short_runtime fname : (String.length fname <= 26)%nat ->
  runtime_src fname = "runtime_" +:+ fname +:+ ".s" /\ runtime_obj fname = "/tmp/runtime_" +:+ fname +:+ ".s.o".
Proof. intros H. unfold runtime_src, runtime_obj, FMT. split; apply substring_all; rewrite !length_append; cbn; lia. Qed.

(** Of a long name, every temporary file but the runtime gets the same path. *)
Definition long_path (fname : string) : path := FMT 50 ("/tmp/virtine_" +:+ fname +:+ ".").

Lemma long_paths fname : (35 <= String.length fname)%nat ->
  ir_path fname = long_path fname /\ obj_path fname = long_path fname /\ rto_path fname = long_path fname /\
  obj_final fname = long_path fname /\ bin_final fname = long_path fname.
Proof.
  intros H. assert (Hc : forall s, FMT 50 ("/tmp/virtine_" +:+ fname +:+ String "." s) = long_path fname).
  { intros s. unfold long_path, FMT. change (String "." s) with ("." +:+ s). rewrite <- (append_assoc fname "." s), <- (append_assoc "/tmp/virtine_").
    apply substring_prefix. rewrite !length_append. cbn. lia. }
  by repeat split; apply Hc.
Qed.

(** ** Running tools *)

Section Build.
Context (execvp : programs) (fork_result : nat -> Z) (t : tools).
Context (Ht : runs_tools execvp t) (Hfork : forall n, 0 < fork_result n).

(** No child is left between the steps of a build. *)
Lemma command_exec_tool exe args fs n fs' stat : execvp (exe :: args) fs = Some (fs', stat) ->
  command_exec execvp fork_result (new_command exe args) (World fs ∅ n) =
  Ok ((stat, new_command exe args), World fs' ∅ (S n)).
Proof.
  intros H. specialize (Hfork n). unfold command_exec, command_start, command_wait, fork, waitpid.
  unfold_M. cbn. replace (fork_result n =? -1) with false by (symmetry; apply Z.eqb_neq; lia).
  replace (fork_result n <? 0) with false by (symmetry; apply Z.ltb_ge; lia). cbn.
  replace (fork_result n =? -1) with false by (symmetry; apply Z.eqb_neq; lia). cbn.
  rewrite lookup_insert_eq, delete_insert_eq, delete_empty, H. done.
Qed.

Lemma exec_tool exe args fs n fs' stat : execvp (exe :: args) fs = Some (fs', stat) ->
  exec execvp fork_result exe args (World fs ∅ n) = Ok (stat, World fs' ∅ (S n)).
Proof. intros H. unfold exec. unfold_M. by rewrite (command_exec_tool _ _ _ _ _ _ H). Qed.

(** The files a build of [fname] writes. *)
Definition build_paths (fname : string) : list path :=
  [ir_path fname; obj_path fname; rto_path fname; obj_final fname; bin_final fname; runtime_obj fname].

(** The link command with its objects. *)
Lemma link_args c objs : foldl (fun c obj => arg obj c) c objs = Command (pid c) (m_exe c) (m_args c ++ objs).
Proof.
  revert c. induction objs as [|o objs IH]; intros c; cbn [foldl]; [by destruct c; rewrite app_nil_r|].
  rewrite IH. cbn. by rewrite <- app_assoc.
Qed.

Lemma link_tool objs script o fs n fs' stat : execvp ("ld" :: "-T" :: script :: "-o" :: o :: objs) fs = Some (fs', stat) ->
  command_exec execvp fork_result (foldl (fun c obj => arg obj c) (new_command "ld" ["-T"; script; "-o"; o]) objs) (World fs ∅ n) =
  Ok ((stat, new_command "ld" (["-T"; script; "-o"; o] ++ objs)), World fs' ∅ (S n)).
Proof. intros H. rewrite link_args. by apply (command_exec_tool "ld" (["-T"; script; "-o"; o] ++ objs)). Qed.

Context (f : installed) (writable : path -> bool).

Lemma boot_not_temp fname s : boot_asm <> temp_path fname s /\ link_script <> temp_path fname s /\
  virtine_libc <> temp_path fname s /\ virtine_libm <> temp_path fname s.
Proof. repeat split; intros H; discriminate H. Qed.

(** Writing a temporary file leaves the installed ones. *)
Lemma installed_temp fs fname s x : is_installed f fs -> is_installed f (<[temp_path fname s := x]> fs).
Proof.
  intros [H1 H2 H3 H4]. destruct (boot_not_temp fname s) as (N1 & N2 & N3 & N4).
  by split; rewrite lookup_insert_ne by congruence.
Qed.

Lemma bind_run {A B} (m : M world A) (k : A -> M world B) w a w' : m w = Ok (a, w') -> (m ≫= k) w = k a w'.
Proof. intros H. unfold_M. by rewrite H. Qed.

Section Short.
Context (fname : string).
Abbreviation tmp := (temp_path fname).

Lemma tmp_ne s1 s2 : s1 <> s2 -> tmp s1 <> tmp s2.
Proof. apply temp_path_inj. Qed.

(** Linking and conversion, once the objects are there. *)
Lemma link_image objs xs fs n elf img : is_installed f fs ->
  mapM (fs !!.) objs = Some xs -> ld t (f_script f) xs = Some elf -> objcopy t elf = Some img ->
  (command_exec execvp fork_result
     (foldl (fun c obj => arg obj c) (new_command "ld" ["-T"; link_script; "-o"; tmp ".final.o"]) objs);;
   exec execvp fork_result "objcopy" ["-O"; "binary"; tmp ".final.o"; tmp ".final.bin"];;
   read_file (tmp ".final.bin")) (World fs ∅ n) =
  Ok (img, World (<[tmp ".final.bin" := img]> (<[tmp ".final.o" := elf]> fs)) ∅ (S (S n))).
Proof.
  intros Hf Hxs Helf Himg.
  rewrite (bind_run _ _ _ _ _ (link_tool objs _ _ _ n _ _ (rt_ld _ _ Ht _ _ _ _ _ _ _ (is_script _ _ Hf) Hxs Helf))).
  rewrite (bind_run _ _ _ _ _ (exec_tool _ _ _ (S n) _ _
    (rt_objcopy _ _ Ht _ (tmp ".final.bin") elf img _ (lookup_insert_eq _ _ _) Himg))).
  unfold read_file. cbn. by rewrite lookup_insert_eq.
Qed.

(** The function's own runtime is assembled when there is one. *)
Lemma add_runtime_ok objs xs fs n rts : (String.length fname <= 26)%nat -> is_installed f fs ->
  mapM (fs !!.) objs = Some xs -> runtime_obj fname ∉ objs ->
  match fs !! runtime_src fname with Some src => o ← gcc t src; Some [o] | None => Some [] end = Some rts ->
  exists objs' fs' n', add_runtime execvp fork_result fname objs (World fs ∅ n) = Ok (objs', World fs' ∅ n') /\
    is_installed f fs' /\ mapM (fs' !!.) objs' = Some (xs ++ rts) /\
    forall p, p <> runtime_obj fname -> fs' !! p = fs !! p.
Proof.
  intros Hn Hf Hxs Hnew Hrts. destruct (short_runtime fname Hn) as [Hrs Hro].
  unfold add_runtime. rewrite (bind_run _ _ _ _ _ (eq_refl : gets _ (World fs ∅ n) = Ok (_, _))). cbn [files].
  destruct (fs !! runtime_src fname) as [src|] eqn:Esrc.
  - rewrite bool_decide_true by (by eexists). apply bind_Some in Hrts as (y & Hy & [= <-]).
    rewrite (bind_run _ _ _ _ _ (exec_tool _ _ _ n _ _ (rt_gcc _ _ Ht _ _ _ _ _ Esrc Hy))).
    eexists _, _, _. split; [done|]. split; [|split].
    + rewrite Hro. destruct Hf as [H1 H2 H3 H4]. by split; rewrite lookup_insert_ne by discriminate.
    + apply mapM_Some, Forall2_app; [|repeat constructor; apply lookup_insert_eq].
      apply mapM_Some. rewrite <- Hxs. apply Forall_mapM_ext, Forall_forall. intros p Hp.
      apply lookup_insert_ne. by intros <-.
    + intros p Hp. by rewrite lookup_insert_ne by congruence.
  - injection Hrts as <-. rewrite bool_decide_false by (by intros [? ?]).
    eexists _, _, _. split; [done|]. split; [done|]. rewrite app_nil_r. by split.
Qed.
End Short.

(** For a function whose name has at most 26 characters, the build gives the
    image that the tools make of the function's module, the boot code, the two
    libraries and the function's own runtime if there is one; it leaves no child
    behind and changes no file but its own. *)
Theorem compile_image name text fs n img : let fname := c_str name in
  is_installed f fs -> (String.length fname <= 26)%nat -> writable (ir_path fname) = true ->
  image_of t f (fs !! runtime_src fname) text = Some img ->
  exists fs' n', compile execvp fork_result writable name text (World fs ∅ n) = Ok (img, World fs' ∅ n') /\
    forall p, p ∉ build_paths fname -> fs' !! p = fs !! p.
Proof.
  intros fname Hf Hn Hw Himg. unfold compile. fold fname. unfold build_paths.
  destruct (short_runtime fname Hn) as [Hrs Hro].
  unfold ir_path, obj_path, rto_path, obj_final, bin_final in *. rewrite !short_path in * by (cbn; lia).
  apply bind_Some in Himg as (obj & Hobj & Himg). apply bind_Some in Himg as (rto & Hrto & Himg).
  apply bind_Some in Himg as (rts & Hrts & Himg). apply bind_Some in Himg as (elf & Helf & Himg).
  unfold write_ir. rewrite Hw.
  set (ir := temp_path fname ".ll") in *. set (o := temp_path fname ".o") in *. set (rt := temp_path fname ".rt.o") in *.
  set (fs1 := <[ir := text]> fs). set (fs2 := <[o := obj]> fs1). set (fs3 := <[rt := rto]> fs2).
  rewrite (bind_run _ _ _ tt (World fs1 ∅ n)) by done.
  rewrite (bind_run _ _ _ _ _ (exec_tool _ _ _ n _ _ (rt_llc _ _ Ht ir o text obj fs1 (lookup_insert_eq _ _ _) Hobj))). fold fs2.
  assert (Hf2 : is_installed f fs2) by (by do 2 apply installed_temp).
  assert (Hf3 : is_installed f fs3) by (by apply installed_temp).
  rewrite (bind_run _ _ _ _ _ (exec_tool _ _ _ (S n) _ _ (rt_nasm _ _ Ht boot_asm rt _ rto fs2 (is_boot _ _ Hf2) Hrto))). fold fs3.
  assert (Hsrc : fs3 !! runtime_src fname = fs !! runtime_src fname).
  { rewrite Hrs. unfold fs3, fs2, fs1. rewrite !lookup_insert_ne by discriminate. done. }
  assert (Hobjs : fs3 !! rt = Some rto /\ fs3 !! o = Some obj).
  { unfold fs3, fs2. split; [apply lookup_insert_eq|].
    rewrite lookup_insert_ne by (by apply temp_path_inj). apply lookup_insert_eq. }
  rewrite <- Hsrc in Hrts.
  destruct (add_runtime_ok fname [rt; o; virtine_libc; virtine_libm] [rto; obj; f_libc f; f_libm f] fs3 (S (S n)) rts)
    as (objs & fs4 & n4 & E4 & Hf4 & Hobjs4 & Hk4); [done|done| |rewrite Hro; set_solver|done|].
  { destruct Hobjs as [H1 H2], Hf3 as [_ _ H3 H4]. cbn. by rewrite H1, H2, H3, H4. }
  eexists _, _. split.
  - rewrite (bind_run _ _ _ _ _ E4). exact (link_image fname objs _ fs4 n4 elf img Hf4 Hobjs4 Helf Himg).
  - intros p Hp. rewrite !not_elem_of_cons in Hp. destruct Hp as (H1 & H2 & H3 & H4 & H5 & H6 & _).
    rewrite !lookup_insert_ne by congruence. rewrite Hk4 by congruence. unfold fs3, fs2, fs1.
    by rewrite !lookup_insert_ne by congruence.
Qed.

Lemma long_not_installed fname : boot_asm <> long_path fname.
Proof. intros H. discriminate H. Qed.

(** C39: for a function whose name has 35 characters or more, the five temporary files
    named after the virtine (the IR, its object, the boot object, the linked file and
    the binary) have one path, and only the object of the function's own runtime has
    another.  So the boot object overwrites the compiled function, and for two modules
    that llc accepts the build has the same outcome: the image does not depend on the
    function. *)
Theorem compile_long_name name text1 text2 fs n obj1 obj2 rto : let fname := c_str name in
  is_installed f fs -> (35 <= String.length fname)%nat -> writable (ir_path fname) = true ->
  llc t text1 = Some obj1 -> llc t text2 = Some obj2 -> nasm t (f_boot f) = Some rto ->
  (forall p, p ∈ [ir_path fname; obj_path fname; rto_path fname; obj_final fname; bin_final fname] ->
     p = long_path fname) /\
  runtime_obj fname <> long_path fname /\
  compile execvp fork_result writable name text1 (World fs ∅ n) =
  compile execvp fork_result writable name text2 (World fs ∅ n).
Proof.
  intros fname Hf Hn Hw H1 H2 Hrto.
  destruct (long_paths fname Hn) as (E1 & E2 & E3 & E4 & E5).
  split; [intros p Hp; rewrite E1, E2, E3, E4, E5 in Hp; set_solver|].
  split; [intros H; discriminate H|]. unfold compile. fold fname. rewrite E1 in Hw. rewrite E1, E2, E3, E4, E5.
  set (p := long_path fname) in *. unfold write_ir. rewrite Hw.
  assert (Hrun : forall text obj (k : M world bytes), llc t text = Some obj ->
    (modify (fun w => set_files (<[p := text]> (files w)) w);;
     exec execvp fork_result "llc" ["-march=x86-64"; "-filetype=obj"; "-O3"; p; "-o"; p];;
     exec execvp fork_result "nasm" ["-f"; "elf64"; boot_asm; "-o"; p];; k) (World fs ∅ n) =
    k (World (<[p := rto]> fs) ∅ (S (S n)))).
  { intros text obj k Hobj. rewrite (bind_run _ _ _ tt (World (<[p := text]> fs) ∅ n)) by done.
    rewrite (bind_run _ _ _ _ _ (exec_tool _ _ _ n _ _ (rt_llc _ _ Ht p p text obj _ (lookup_insert_eq _ _ _) Hobj))).
    rewrite insert_insert_eq.
    assert (Hb : <[p := obj]> fs !! boot_asm = Some (f_boot f)).
    { rewrite lookup_insert_ne by (intros H; by apply (long_not_installed fname)). apply Hf. }
    rewrite (bind_run _ _ _ _ _ (exec_tool _ _ _ (S n) _ _ (rt_nasm _ _ Ht boot_asm p _ rto _ Hb Hrto))).
    by rewrite insert_insert_eq. }
  by rewrite (Hrun _ _ _ H1), (Hrun _ _ _ H2).
Qed.
End Build.

(** ** A toolchain *)

(** Tools that mark what they were given. *)
Definition demo_tools : tools := Tools (fun x => Some (1 :: x)) (fun x => Some (2 :: x)) (fun x => Some (3 :: x))
  (fun x xs => Some (4 :: x ++ concat xs)) (fun x => Some (5 :: x)).

Definition run_on (tool : bytes -> option bytes) (i o : path) (fs : gmap path bytes) : option (gmap path bytes * Z) :=
  x ← fs !! i; y ← tool x; Some (<[o := y]> fs, 0).

Definition demo_programs : programs := fun argv fs =>
  match argv with
  | exe :: args =>
      if String.eqb exe "llc" then match args with [_; _; _; i; _; o] => run_on (llc demo_tools) i o fs | _ => None end
      else if String.eqb exe "nasm" then match args with [_; _; i; _; o] => run_on (nasm demo_tools) i o fs | _ => None end
      else if String.eqb exe "gcc" then match args with [_; _; _; o; i] => run_on (gcc demo_tools) i o fs | _ => None end
      else if String.eqb exe "objcopy" then match args with [_; _; i; o] => run_on (objcopy demo_tools) i o fs | _ => None end
      else match args with
           | _ :: script :: _ :: o :: objs =>
               x ← fs !! script; xs ← mapM (fs !!.) objs; y ← ld demo_tools x xs; Some (<[o := y]> fs, 0)
           | _ => None
           end
  | [] => None
  end.

Lemma demo_runs_tools : runs_tools demo_programs demo_tools.
Proof.
  split.
  - intros i o x y fs Hi [= <-]. cbn. unfold run_on. by rewrite Hi.
  - intros i o x y fs Hi [= <-]. cbn. unfold run_on. by rewrite Hi.
  - intros i o x y fs Hi [= <-]. cbn. unfold run_on. by rewrite Hi.
  - intros script objs o x xs y fs Hs Hxs [= <-]. unfold demo_programs. cbn [String.eqb Ascii.eqb eqb]. rewrite Hs, Hxs.
    reflexivity.
  - intros i o x y fs Hi [= <-]. cbn. unfold run_on. by rewrite Hi.
Qed.

Definition demo_installed : installed := Installed [10] [11] [12] [13].
Definition demo_fs : gmap path bytes :=
  {[boot_asm := [10]; link_script := [11]; virtine_libc := [12]; virtine_libm := [13]; "runtime_fib.s" := [14]]}.

Lemma demo_is_installed : is_installed demo_installed demo_fs.
Proof. split; vm_compute; reflexivity. Qed.

Definition long_name : string := "a_function_whose_name_has_more_than_35_characters".

Lemma compile_image_witness : exists fs' n',
  compile demo_programs (fun n => 100 + Z.of_nat n) (fun _ => true) "fib" [7] (World demo_fs ∅ 0) =
    Ok ([5; 4; 11; 2; 10; 1; 7; 12; 13; 3; 14], World fs' ∅ n') /\
  forall p, p ∉ build_paths "fib" -> fs' !! p = demo_fs !! p.
Proof.
  apply (compile_image demo_programs (fun n => 100 + Z.of_nat n) demo_tools demo_runs_tools ltac:(intros; cbv beta; lia)
    demo_installed (fun _ => true) "fib" [7] demo_fs 0 _ demo_is_installed);
    [vm_compute; lia|reflexivity|vm_compute; reflexivity].
Defined.

Lemma compile_long_name_witness :
  runtime_obj long_name <> long_path long_name /\
  compile demo_programs (fun n => 100 + Z.of_nat n) (fun _ => true) long_name [7] (World demo_fs ∅ 0) =
  compile demo_programs (fun n => 100 + Z.of_nat n) (fun _ => true) long_name [8] (World demo_fs ∅ 0).
Proof.
  refine (proj2 (compile_long_name demo_programs (fun n => 100 + Z.of_nat n) demo_tools demo_runs_tools ltac:(intros; cbv beta; lia)
    demo_installed (fun _ => true) long_name [7] [8] demo_fs 0 _ _ _ demo_is_installed _ _ eq_refl eq_refl eq_refl));
    [vm_compute; lia|reflexivity].
Defined.
