(* ===== verification/RunPass.v ===== *)
(** The pass over a module: VirtineCompiler's constructor and VirtinePass::runOnModule
    (pass/VirtineCompiler.cpp, pass/pass.cpp), which put together the parts of [Pass],
    [Emit] and [Compile].

    Of LLVM's module the model has the symbols with their sections and uses, the
    signatures of functions, and what the pass adds: the bodies of stubs and the
    initializers of the image globals.  How a module prints and which name a new symbol
    gets when its name is taken are LLVM's. *)

From stdpp Require Import stringmap.
From S2P Require Import Prelude Pass Emit Compile.

Abbreviation image := (list Z).

Record pmodule : Type := PModule {
  symbols : lmodule;
  signatures : gmap string (list ty * ty);
  bodies : gmap string (list instr);
  initializers : gmap string image
}.

Definition set_symbols (s : lmodule) (m : pmodule) : pmodule := PModule s (signatures m) (bodies m) (initializers m).
Definition set_body (n : string) (code : list instr) (m : pmodule) : pmodule :=
  PModule (symbols m) (signatures m) (<[n := code]> (bodies m)) (initializers m).
Definition set_initializer (n : string) (x : image) (m : pmodule) : pmodule :=
  PModule (symbols m) (signatures m) (bodies m) (<[n := x]> (initializers m)).

Section RunPass.
(** LLVM: the name a new symbol gets, and the text of a module. *)
Context (new_name : lmodule -> string -> string) (print : lmodule -> image).
(** The tools, the processes and the files. *)
Context (execvp : programs) (fork_result : nat -> Z) (writable : path -> bool).

(** ** VirtineCompiler::VirtineCompiler *)

(** The module that is compiled for [name]: a copy with a main function that calls
    it, without what main does not need. *)
Definition virtine_module (name : string) (m : lmodule) : option lmodule :=
  func ← m !! name;
  let m := <[name := set_section "" func]> m in
  let vmain := new_name m "__virtine_main" in
  let m := <[vmain := Symbol Function "" [name]]> m in
  dead_code (S (size m)) vmain m.

(** The body of the second loop of runOnModule. *)
Definition compile_virtine (m : lmodule) (v : string * string) : M world image :=
  vm ← lift_opt (virtine_module v.1 m);
  compile execvp fork_result writable v.1 (print vm).

Fixpoint compile_all (m : lmodule) (virtines : list (string * string)) : M world (list image) :=
  match virtines with
  | [] => mret []
  | v :: virtines =>
      img ← compile_virtine m v;
      imgs ← compile_all m virtines;
      mret (img :: imgs)
  end.

(** ** VirtinePass::compileFunction, in its module *)

(** getFunction, or a new declaration *)
Definition runtime_function (m : lmodule) : string * lmodule :=
  match m !! "wasp_run_virtine"%string with
  | Some (Symbol Function _ _) => ("wasp_run_virtine"%string, m)
  | _ => let n := new_name m "wasp_run_virtine" in (n, <[n := Symbol Function "" []]> m)
  end.

(** A section that names a global which is not there gives a null operand of the call. *)
Definition stub_config (section : string) (m : lmodule) : option (option string) :=
  if startswith config_section section then
    match config_of section m with Some s => Some (Some s) | None => None end
  else Some None.

Definition compile_function (v : string * string) (code : image) (m : pmodule) : option pmodule :=
  fn ← symbols m !! v.1;
  sig ← signatures m !! v.1;
  let m1 := <[v.1 := Symbol (sy_kind fn) (sy_section fn) []]> (symbols m) in
  let '(wasp_run, m2) := runtime_function m1 in
  let code_global := new_name m2 (FMT 50 ("__virtine_" +:+ c_str v.1 +:+ "_code")) in
  let m3 := <[code_global := Symbol GlobalVariable "" []]> m2 in
  config ← stub_config v.2 m3;
  let uses := wasp_run :: code_global :: match config with Some s => [s] | None => [] end in
  Some (set_body v.1 (block (compileFunction sig.1 sig.2 wasp_run code_global (blen code) config))
    (set_initializer code_global code (set_symbols (<[v.1 := Symbol (sy_kind fn) "" uses]> m3) m))).

Fixpoint compile_functions (vs : list (string * string)) (imgs : list image) (m : pmodule) : option pmodule :=
  match vs, imgs with
  | v :: vs, img :: imgs => m ← compile_function v img m; compile_functions vs imgs m
  | _, _ => Some m
  end.

(** ** VirtinePass::runOnModule *)

(** [fns] are the module's functions in order. *)
Definition runOnModule (fns : list string) (m : pmodule) : M world pmodule :=
  let '(virtines, syms) := collect_virtines fns (symbols m) in
  imgs ← compile_all syms virtines;
  lift_opt (compile_functions virtines imgs (set_symbols syms m)).

(** ** Collecting the virtines *)

(** [syms] is [m] with the sections of the virtines cleared. *)
Lemma collect_virtines_spec fns m vs syms : NoDup fns -> collect_virtines fns m = (vs, syms) ->
  NoDup vs.*1 /\ (forall v, v ∈ vs -> v.1 ∈ fns /\ exists s, m !! v.1 = Some s /\ sy_section s = v.2 /\ syms !! v.1 = Some (set_section "" s)) /\
  (forall x, x ∉ vs.*1 -> syms !! x = m !! x).
Proof.
  intros Hnd. revert m vs syms. induction Hnd as [|x fns Hx Hnd IH]; intros m vs syms H; cbn [collect_virtines] in H.
  - injection H as <- <-. split; [constructor|]. split; [|done]. intros v Hv. by apply elem_of_nil in Hv.
  - destruct (m !! x) as [s|] eqn:Hs; [destruct (startswith virtine_section (sy_section s))|].
    + destruct (collect_virtines fns (<[x := set_section "" s]> m)) as [vs' syms'] eqn:E. injection H as <- <-.
      destruct (IH _ _ _ E) as (N & V & R).
      assert (Hnot : x ∉ vs'.*1).
      { intros Hin. apply list_elem_of_fmap in Hin as (v & -> & Hv). by destruct (V v Hv) as [Hf _]. }
      split; [by constructor|]. split.
      * intros v Hv. apply elem_of_cons in Hv as [->|Hv].
        -- split; [left|]. exists s. split; [done|]. split; [done|]. cbn. rewrite R by done. apply lookup_insert_eq.
        -- destruct (V v Hv) as (Hf & s' & Hm & Hsec & Hsy). split; [by right|]. exists s'.
           rewrite lookup_insert_ne in Hm; [done|]. intros ->. done.
      * intros y Hy. cbn in Hy. apply not_elem_of_cons in Hy as [Hne Hy]. rewrite R by done. by rewrite lookup_insert_ne.
    + destruct (IH _ _ _ H) as (N & V & R). split; [done|]. split; [|done]. intros v Hv.
      destruct (V v Hv) as [Hf Hrest]. split; [by right|done].
    + destruct (IH _ _ _ H) as (N & V & R). split; [done|]. split; [|done]. intros v Hv.
      destruct (V v Hv) as [Hf Hrest]. split; [by right|done].
Qed.

(** ** The images *)

Context (t : tools) (f : installed).
Context (Ht : runs_tools execvp t) (Hfork : forall n, 0 < fork_result n).
Context (Hfresh : forall m n, m !! new_name m n = None).

(** The module of a virtine has everything its main function reaches. *)
Lemma virtine_module_total name m func : m !! name = Some func ->
  exists vm, virtine_module name m = Some vm /\
    exists vmain, vmain = new_name (<[name := set_section "" func]> m) "__virtine_main" /\
    forall n, rtc (uses (<[vmain := Symbol Function "" [name]]> (<[name := set_section "" func]> m))) vmain n -> is_Some (vm !! n).
Proof.
  intros Hn. unfold virtine_module. rewrite Hn. cbn [mbind option_bind].
  set (m1 := <[name := set_section "" func]> m). set (vmain := new_name m1 "__virtine_main").
  destruct (dead_code_ok vmain (<[vmain := Symbol Function "" [name]]> m1) (Symbol Function "" [name]) (S (size (<[vmain := Symbol Function "" [name]]> m1))))
    as (vm & Hd & _ & Hr & _); [apply lookup_insert_eq|done|lia|].
  exists vm. split; [done|]. by exists vmain.
Qed.

(** The image of a virtine, as the tools make it. *)
Definition virtine_image (fs : gmap path image) (syms : lmodule) (v : string * string) : option image :=
  vm ← virtine_module v.1 syms; image_of t f (fs !! runtime_src (c_str v.1)) (print vm).

Definition buildable (fs : gmap path image) (syms : lmodule) (v : string * string) : Prop :=
  (String.length (c_str v.1) <= 26)%nat /\ writable (ir_path (c_str v.1)) = true /\ is_Some (virtine_image fs syms v).

Lemma build_paths_temp fname p : (String.length fname <= 26)%nat -> p ∈ build_paths fname ->
  (exists s, p = temp_path fname s) \/ p = ("/tmp/runtime_" +:+ fname +:+ ".s.o").
Proof.
  intros Hn Hp. unfold build_paths in Hp. destruct (short_runtime fname Hn) as [_ Hro]. rewrite Hro in Hp.
  unfold ir_path, obj_path, rto_path, obj_final, bin_final in Hp. rewrite !short_path in Hp by (cbn; lia).
  repeat (apply elem_of_cons in Hp as [->|Hp]; [first [by right|left; by eexists]|]). by apply elem_of_nil in Hp.
Qed.

(** A build touches neither the installed files nor the runtime sources. *)
Lemma build_keeps fname fs fs' : (String.length fname <= 26)%nat ->
  (forall p, p ∉ build_paths fname -> fs' !! p = fs !! p) -> is_installed f fs ->
  is_installed f fs' /\ forall g, (String.length g <= 26)%nat -> fs' !! runtime_src g = fs !! runtime_src g.
Proof.
  intros Hn Hk [H1 H2 H3 H4].
  assert (Hout : forall p, (forall s, p <> temp_path fname s) -> p <> ("/tmp/runtime_" +:+ fname +:+ ".s.o") -> fs' !! p = fs !! p).
  { intros p Ha Hb. apply Hk. intros Hin. apply build_paths_temp in Hin as [[s ->]| ->]; [by apply (Ha s)|done|done]. }
  split.
  - by split; rewrite Hout by (intros; discriminate).
  - intros g Hg. destruct (short_runtime g Hg) as [-> _]. apply Hout; intros; discriminate.
Qed.

Lemma compile_all_ok syms vs : forall fs n, is_installed f fs -> Forall (buildable fs syms) vs ->
  exists imgs fs' n', compile_all syms vs (World fs ∅ n) = Ok (imgs, World fs' ∅ n') /\
    Forall2 (fun v img => virtine_image fs syms v = Some img) vs imgs.
Proof.
  induction vs as [|v vs IH]; intros fs n Hf Hb; [by exists [], fs, n|].
  apply Forall_cons in Hb as [(Hn & Hw & img & Himg) Hb]. cbn [compile_all].
  pose proof Himg as (vm & Hvm & Hi)%bind_Some.
  destruct (compile_image execvp fork_result t Ht Hfork f writable v.1 (print vm) fs n img Hf Hn Hw Hi) as (fs1 & n1 & E & Hk).
  destruct (build_keeps _ fs fs1 Hn Hk Hf) as [Hf1 Hsrc].
  assert (Hsame : forall v', (String.length (c_str v'.1) <= 26)%nat -> virtine_image fs1 syms v' = virtine_image fs syms v').
  { intros v' Hv'. unfold virtine_image. by rewrite (Hsrc _ Hv'). }
  destruct (IH fs1 n1 Hf1) as (imgs & fs2 & n2 & E2 & Himgs).
  { eapply Forall_impl; [exact Hb|]. intros v' (Hl & Hw' & Hi'). split; [done|]. split; [done|]. by rewrite Hsame. }
  exists (img :: imgs), fs2, n2. split.
  - unfold compile_virtine. unfold_M. rewrite Hvm, E, E2. done.
  - constructor; [done|]. clear -Himgs Hb Hsame. revert Hb. induction Himgs as [|v' i' vs' is' H _ IH]; intros Hb; constructor.
    + apply Forall_cons in Hb as [(Hl & _) _]. by rewrite <- Hsame.
    + apply IH. by apply Forall_cons in Hb as [_ Hb].
Qed.

(** ** The stubs *)

(** [v] is a stub with image [img]: its new body is the emitted code, it uses the
    runtime, a global with the image, and its configuration. *)
Definition is_stub (syms : lmodule) (sigs : gmap string (list ty * ty)) (m : pmodule) (v : string * string) (img : image) : Prop :=
  exists w g fw sig, signatures m !! v.1 = Some sig /\ sigs !! v.1 = Some sig /\
    symbols m !! w = Some fw /\ sy_kind fw = Function /\
    symbols m !! g = Some (Symbol GlobalVariable "" []) /\ syms !! g = None /\ initializers m !! g = Some img /\
    symbols m !! v.1 = Some (Symbol Function "" (w :: g :: match config_of v.2 syms with Some s => [s] | None => [] end)) /\
    bodies m !! v.1 = Some (block (compileFunction sig.1 sig.2 w g (blen img) (config_of v.2 syms))).

(** What compile_function leaves of the rest of the module. *)
Record stubbed (x : string) (m m' : pmodule) : Prop := Stubbed {
  st_symbols : forall y, y <> x -> is_Some (symbols m !! y) -> symbols m' !! y = symbols m !! y;
  st_kind : forall s, symbols m !! x = Some s -> exists s', symbols m' !! x = Some s' /\ sy_kind s' = sy_kind s;
  st_bodies : forall y, y <> x -> bodies m' !! y = bodies m !! y;
  st_inits : forall y, is_Some (symbols m !! y) -> initializers m' !! y = initializers m !! y;
  st_sigs : signatures m' = signatures m
}.

Lemma runtime_function_spec m w m' : runtime_function m = (w, m') ->
  (exists fw, m' !! w = Some fw /\ sy_kind fw = Function) /\ forall y, is_Some (m !! y) -> m' !! y = m !! y.
Proof.
  unfold runtime_function. intros H.
  assert (Hnew : (w, m') = (let n := new_name m "wasp_run_virtine" in (n, <[n := Symbol Function "" []]> m)) ->
    (exists fw, m' !! w = Some fw /\ sy_kind fw = Function) /\ forall y, is_Some (m !! y) -> m' !! y = m !! y).
  { intros [= -> ->]. split; [eexists; split; [apply lookup_insert_eq|done]|]. intros y [s Hy].
    rewrite lookup_insert_ne; [done|]. intros <-. by rewrite Hfresh in Hy. }
  destruct (m !! "wasp_run_virtine"%string) as [[[] sec us]|] eqn:E; [|by apply Hnew..].
  injection H as <- <-. split; [by eexists|done].
Qed.

(** A configuration that is there stays there. *)
Lemma config_kept section (syms m : lmodule) :
  (startswith config_section section = true -> is_Some (config_of section syms)) ->
  (forall y s, syms !! y = Some s -> exists s', m !! y = Some s' /\ sy_kind s' = sy_kind s) ->
  stub_config section m = Some (config_of section syms).
Proof.
  intros Hc Hk. unfold stub_config, config_of in *. destruct (startswith config_section section); [|done].
  destruct (Hc eq_refl) as [c Hs]. destruct (syms !! _) as [g|] eqn:E; [|done]. destruct (Hk _ _ E) as (g' & -> & Hkind).
  destruct (decide (sy_kind g = GlobalVariable)); [|done]. by rewrite decide_True by congruence.
Qed.

(** The declaration of the runtime and the image global are new names. *)
Lemma new_symbols (m : lmodule) x old sx w m2 name : m !! x = Some old ->
  runtime_function (<[x := sx]> m) = (w, m2) ->
  let g := new_name m2 name in let m3 := <[g := Symbol GlobalVariable "" []]> m2 in
  m !! g = None /\ g <> x /\ m3 !! x = Some sx /\ (forall y, y <> x -> is_Some (m !! y) -> m3 !! y = m !! y) /\
  exists fw, m3 !! w = Some fw /\ sy_kind fw = Function.
Proof.
  intros Hx Hw g m3. destruct (runtime_function_spec _ _ _ Hw) as [(fw & Hfw & Hkw) H2].
  assert (Hg : m2 !! g = None) by apply Hfresh.
  assert (Hnot : forall y, is_Some (<[x := sx]> m !! y) -> g <> y) by (intros y Hy <-; rewrite <- (H2 _ Hy), Hg in Hy; by destruct Hy).
  assert (Hin : forall y, is_Some (m !! y) -> is_Some (<[x := sx]> m !! y)).
  { intros y Hy. destruct (decide (y = x)) as [->|]; [by rewrite lookup_insert_eq|by rewrite lookup_insert_ne]. }
  split; [|split; [|split; [|split]]].
  - destruct (m !! g) as [s|] eqn:E; [|done]. destruct (Hnot g); [apply Hin; by eexists|done].
  - apply Hnot. rewrite lookup_insert_eq. by eexists.
  - unfold m3. rewrite lookup_insert_ne, H2; rewrite ?lookup_insert_eq; [done|by eexists|]. apply Hnot. rewrite lookup_insert_eq. by eexists.
  - intros y Hne Hy. unfold m3. rewrite lookup_insert_ne by (by apply Hnot, Hin). rewrite H2 by (by apply Hin). by rewrite lookup_insert_ne.
  - exists fw. split; [|done]. unfold m3. rewrite lookup_insert_ne; [done|]. intros <-. congruence.
Qed.

Lemma compile_function_ok syms v img m fn sig :
  symbols m !! v.1 = Some fn -> sy_kind fn = Function -> signatures m !! v.1 = Some sig ->
  (startswith config_section v.2 = true -> is_Some (config_of v.2 syms)) ->
  (forall y s, syms !! y = Some s -> exists s', symbols m !! y = Some s' /\ sy_kind s' = sy_kind s) ->
  exists m', compile_function v img m = Some m' /\ is_stub syms (signatures m) m' v img /\ stubbed v.1 m m'.
Proof.
  intros Hfn Hk Hsig Hc Hsyms. unfold compile_function. rewrite Hfn, Hsig. cbn [mbind option_bind].
  destruct (runtime_function _) as [w m2] eqn:Ew.
  destruct (new_symbols _ _ _ _ _ _ (FMT 50 ("__virtine_" +:+ c_str v.1 +:+ "_code")) Hfn Ew) as (Hgm & Hgv & Hv3 & Hm3 & fw & Hw & Hkw).
  set (g := new_name m2 _) in *. set (m3 := <[g := Symbol GlobalVariable "" []]> m2) in *.
  rewrite (config_kept v.2 syms m3); [|done|].
  2: { intros y s Hy. destruct (Hsyms y s Hy) as (s' & Hs' & Hks). destruct (decide (y = v.1)) as [->|Hne].
       - eexists. split; [exact Hv3|]. cbn. congruence.
       - exists s'. split; [rewrite Hm3 by (done || by eexists); done|done]. }
  cbn [mbind option_bind]. eexists. split; [done|]. set (m' := set_body _ _ _).
  assert (Hs : forall y, symbols m' !! y = if decide (y = v.1) then Some (Symbol (sy_kind fn) ""
    (w :: g :: match config_of v.2 syms with Some s => [s] | None => [] end)) else m3 !! y).
  { intros y. unfold m'. cbn. case_decide as Hy; [subst y; apply lookup_insert_eq|by rewrite lookup_insert_ne]. }
  assert (Hsg : syms !! g = None).
  { destruct (syms !! g) as [s|] eqn:E; [|done]. destruct (Hsyms _ _ E) as (s' & Hs' & _). congruence. }
  split.
  - assert (Hw' : exists fw', symbols m' !! w = Some fw' /\ sy_kind fw' = Function).
    { rewrite Hs. case_decide; [by eexists|by exists fw]. }
    destruct Hw' as (fw' & Hw' & Hkw'). exists w, g, fw', sig. split; [done|]. split; [done|]. split; [done|]. split; [done|].
    rewrite !Hs, decide_False, decide_True by done. split; [apply lookup_insert_eq|]. split; [done|].
    split; [apply lookup_insert_eq|]. split; [by rewrite Hk|]. apply lookup_insert_eq.
  - split.
    + intros y Hne Hy. rewrite Hs, decide_False by done. by apply Hm3.
    + intros s Hs'. rewrite Hs, decide_True by done. eexists. split; [done|]. cbn. congruence.
    + intros y Hne. cbn. by rewrite lookup_insert_ne.
    + intros y [s Hy]. cbn. rewrite lookup_insert_ne; [done|]. intros <-. congruence.
    + done.
Qed.

Lemma is_stub_kept syms sigs x m m' v img : stubbed x m m' -> v.1 <> x -> is_Some (syms !! x) ->
  is_stub syms sigs m v img -> is_stub syms sigs m' v img.
Proof.
  intros [Hs Hk Hb Hi Hsig] Hne [sx Hx] (w & g & fw & sig & H1 & H2 & H3 & H4 & H5 & H6 & H7 & H8 & H9).
  assert (Hw : exists fw', symbols m' !! w = Some fw' /\ sy_kind fw' = Function).
  { destruct (decide (w = x)) as [->|Hwx].
    - destruct (Hk _ H3) as (s' & ? & ?). exists s'. split; [done|congruence].
    - exists fw. by rewrite Hs by (done || by eexists). }
  destruct Hw as (fw' & H3' & H4'). exists w, g, fw', sig. assert (g <> x) by congruence.
  rewrite Hsig, (Hs g), (Hs v.1), Hb, Hi by (done || by eexists). done.
Qed.

(** The virtines of a module, with their configurations. *)
Definition stubable (syms : lmodule) (sigs : gmap string (list ty * ty)) (v : string * string) : Prop :=
  is_Some (sigs !! v.1) /\ (exists s, syms !! v.1 = Some s /\ sy_kind s = Function) /\
  (startswith config_section v.2 = true -> is_Some (config_of v.2 syms)).

Definition keeps_kinds (syms : lmodule) (m : pmodule) : Prop :=
  forall y s, syms !! y = Some s -> exists s', symbols m !! y = Some s' /\ sy_kind s' = sy_kind s.

Lemma keeps_kinds_stubbed syms x m m' : stubbed x m m' -> keeps_kinds syms m -> keeps_kinds syms m'.
Proof.
  intros S K y s Hy. destruct (K y s Hy) as (s' & Hs' & Hk). destruct (decide (y = x)) as [->|Hne].
  - destruct (st_kind _ _ _ S _ Hs') as (s2 & ? & ?). exists s2. split; [done|congruence].
  - exists s'. by rewrite (st_symbols _ _ _ S) by (done || by eexists).
Qed.

Lemma compile_functions_ok syms sigs vs imgs : length vs = length imgs -> forall m,
  NoDup vs.*1 -> Forall (stubable syms sigs) vs -> signatures m = sigs -> keeps_kinds syms m ->
  exists m', compile_functions vs imgs m = Some m' /\ Forall2 (is_stub syms sigs m') vs imgs /\
    (forall v img, v.1 ∉ vs.*1 -> is_stub syms sigs m v img -> is_stub syms sigs m' v img) /\
    (forall y, y ∉ vs.*1 -> bodies m' !! y = bodies m !! y /\ (is_Some (symbols m !! y) -> symbols m' !! y = symbols m !! y)).
Proof.
  intros Hl. revert imgs Hl. induction vs as [|v vs IH]; intros [|img imgs] Hl m Hnd Hv Hsig Hk; try done.
  - exists m. by split.
  - cbn in Hl, Hnd. apply NoDup_cons in Hnd as [Hnot Hnd]. apply Forall_cons in Hv as [([sig Hs] & (s & Hsv & Hf) & Hc) Hv].
    destruct (Hk _ _ Hsv) as (fn & Hfn & Hkf).
    destruct (compile_function_ok syms v img m fn sig Hfn ltac:(congruence) ltac:(congruence) Hc Hk) as (m1 & E1 & S1 & St1).
    rewrite Hsig in S1.
    destruct (IH imgs ltac:(lia) m1 Hnd Hv ltac:(rewrite (st_sigs _ _ _ St1); done) (keeps_kinds_stubbed _ _ _ _ St1 Hk))
      as (m' & E & F & K & R).
    exists m'. cbn [compile_functions]. rewrite E1. split; [done|]. split; [|split].
    + constructor; [by apply K|done].
    + intros u im Hu Hst. cbn in Hu. apply not_elem_of_cons in Hu as [Hne Hu]. apply K; [done|].
      eapply is_stub_kept; [done|done|by eexists|done].
    + intros y Hy. cbn in Hy. apply not_elem_of_cons in Hy as [Hne Hy]. destruct (R y Hy) as [R1 R2].
      rewrite R1, (st_bodies _ _ _ St1) by done. split; [done|]. intros Hs1.
      rewrite R2; rewrite (st_symbols _ _ _ St1) by done; done.
Qed.

(** C14: the pass over a module.  When the virtines are functions with short names,
    the tools accept their modules and the configurations they name exist, runOnModule
    ends; every virtine is then a function in no special section whose body is the
    emitted stub, with a global that holds its image, made from the module as it was
    before any function became a stub; and every other symbol and body is as it was. *)
Theorem runOnModule_correct fns m fs n virtines syms :
  NoDup fns -> collect_virtines fns (symbols m) = (virtines, syms) ->
  is_installed f fs -> Forall (buildable fs syms) virtines -> Forall (stubable syms (signatures m)) virtines ->
  exists m' imgs fs' n', runOnModule fns m (World fs ∅ n) = Ok (m', World fs' ∅ n') /\
    Forall2 (fun v img => virtine_image fs syms v = Some img /\ is_stub syms (signatures m) m' v img) virtines imgs /\
    forall y, y ∉ virtines.*1 -> bodies m' !! y = bodies m !! y /\ (is_Some (symbols m !! y) -> symbols m' !! y = symbols m !! y).
Proof.
  intros Hnd Hcol Hf Hb Hs. destruct (collect_virtines_spec _ _ _ _ Hnd Hcol) as (Hndv & _ & Hrest).
  unfold runOnModule. rewrite Hcol.
  destruct (compile_all_ok syms virtines fs n Hf Hb) as (imgs & fs' & n' & E & Himgs).
  destruct (compile_functions_ok syms (signatures m) virtines imgs (Forall2_length _ _ _ Himgs) (set_symbols syms m)
    Hndv Hs eq_refl) as (m' & Em & Hst & _ & Hk); [intros y s Hy; by exists s|].
  exists m', imgs, fs', n'. unfold_M. rewrite E, Em. split; [done|]. split.
  - clear -Himgs Hst. induction Himgs; inversion Hst; subst; constructor; auto.
  - intros y Hy. destruct (Hk y Hy) as [H1 H2]. split; [done|]. intros Hsome. cbn in H2. rewrite Hrest in H2 by done. by apply H2.
Qed.
End RunPass.

(** ** A module with two virtines *)

(** fib calls add, add is a virtine as well, with a configuration. *)
Definition demo_symbols : lmodule :=
  {["main" := Symbol Function "" ["fib"]; "fib" := Symbol Function "$__VIRTINE__" ["add"];
    "add" := Symbol Function "$__VIRTINE__cfg=cfg" []; "cfg" := Symbol GlobalVariable "" []]}%string.
Definition demo_pmodule : pmodule :=
  PModule demo_symbols {["fib" := ([TInt 32], TInt 32); "add" := ([TInt 32; TInt 32], TInt 32)]}%string ∅ ∅.

(** A number is added to a name that is taken. *)
Definition demo_name (m : lmodule) (n : string) : string := fresh_string n m.

(** A text that tells how many symbols there are. *)
Definition demo_print (m : lmodule) : image := [Z.of_nat (size m)].

Lemma demo_fresh m n : m !! demo_name m n = None.
Proof. apply fresh_string_fresh. Qed.

Lemma runOnModule_correct_witness : exists m' w',
  runOnModule demo_name demo_print demo_programs (fun k => 100 + Z.of_nat k) (fun _ => true) ["main"; "fib"; "add"]%string
    demo_pmodule (World demo_fs ∅ 0) = Ok (m', w') /\ symbols m' !! "main"%string = symbols demo_pmodule !! "main"%string.
Proof.
  destruct (collect_virtines ["main"; "fib"; "add"]%string demo_symbols) as [vs syms] eqn:E.
  destruct (runOnModule_correct demo_name demo_print demo_programs (fun k => 100 + Z.of_nat k) (fun _ => true) demo_tools demo_installed
    demo_runs_tools ltac:(intros; cbv beta; lia) demo_fresh ["main"; "fib"; "add"]%string demo_pmodule demo_fs 0 vs syms)
    as (m' & imgs & fs' & n' & Er & _ & Hk).
  - repeat constructor; set_solver.
  - exact E.
  - apply demo_is_installed.
  - vm_compute in E. injection E as <- <-. repeat constructor; cbn; try lia; eexists; vm_compute; reflexivity.
  - vm_compute in E. injection E as <- <-. repeat constructor; cbn; try done; try (eexists; by repeat split); by eexists.
  - exists m', (World fs' ∅ n'). split; [exact Er|].
    assert (Hnot : "main"%string ∉ vs.*1).
    { vm_compute in E. injection E as <- <-. cbn. rewrite !not_elem_of_cons. split; [done|]. split; [done|]. apply not_elem_of_nil. }
    assert (Hm : is_Some (symbols demo_pmodule !! "main"%string)) by (eexists; vm_compute; reflexivity).
    exact (proj2 (Hk _ Hnot) Hm).
Defined.
