(* ===== verification/VirtineCall.v ===== *)
(** A call of a virtine from end to end: the stub the pass emits (file Emit) calls
    wasp_run_virtine (file Binding), which takes a virtine from the pool (file Cache),
    runs the image in it (file Virtine) and copies the argument structure back.

    The argument structure is bytes here: [Layout] is how the compiler lays it out, for
    the host and the guest alike.  The guest's processor is the kernel's [k_run]; what the
    compiled image does on it is a hypothesis in two parts, after pass/rt/boot64.asm:
    [boots_image], from _start to the hypercall of __snapshot, and [runs_image], from there
    through __virtine_main to the exit.  Each part may take several KVM_RUNs, as signals
    interrupt them.  [cold] and [warm] are the states of the runtime between two calls,
    before and after the snapshot; without snapshots the runtime stays cold. *)

From S2P Require Import Prelude Kvm ScriptHost Virtine Cache Binding Pass Emit.

(** ** The call of the runtime *)

Section Runtime.
Context `{Hst : Host} {Hlaws : HostLaws} `{OS : HostOS}.
Context (ub_shift : Z -> Z -> Z) (g_use_snapshots : bool) (code : ptr).

Abbreviation cpu_state := (kvm_regs * sregs * fpu)%type.

(** The registers a guest starts with, from those of its reset state. *)
Definition entry_cpu (cpu0 : cpu_state) : cpu_state :=
  let '(r, s, f) := cpu0 in
  (if g_use_snapshots then r else set_rip 0x8000 (set_rsp 0x8000 r), s, f).

(** The registers with which it goes on after the snapshot hypercall. *)
Definition resumed (cpu : cpu_state) : cpu_state :=
  let '(r, s, f) := cpu in
  (if g_use_snapshots then set_rip (u64 (rip r + 2)) r else r, s, f).

(** *** Between two calls *)

(** The same world with more blocks on the host's heap: what the program itself does
    between and around the calls. *)
Record more_blocks (x y : world) : Prop := MoreBlocks {
  mb_heap : w_heap x ⊆ w_heap y;
  mb_fresh : fresh_ok y;
  mb_rest : y = World (w_k x) (w_g_kvmfd x) (w_heap y) (w_next y) (w_virtines x) (w_nextv x) (w_resets x) (w_nextr x) (w_out x)
}.

Lemma more_blocks_refl x : fresh_ok x -> more_blocks x x.
Proof. intros Hf. split; [done|done|by destruct x]. Qed.

Lemma more_blocks_trans x y z : more_blocks x y -> more_blocks y z -> more_blocks x z.
Proof.
  intros [H1 _ E1] [H2 F E2]. split; [by etrans|done|]. rewrite E2 at 1. destruct y. cbn in *. by injection E1 as -> -> -> -> -> -> ->.
Qed.

Section Pool.
(** The region that a reset restores, in the host block [bb], its bytes, and the
    registers. *)
Context (img : ResetMemory) (bb : Z) (bs : list Z) (cpu0 : cpu_state).

(** The pool of the code can hand out a virtine, from its deque or by making one,
    which starts with the registers [cpu0]; other blocks of the heap are no obstacle. *)
Record ready (w : bworld) (c : Cache) : Prop := Ready {
  rd_cache : b_caches w !! code = Some c;
  rd_lock : b_lock w = false;
  rd_pool : pool_inv img bb bs (b_w w) c [];
  rd_unlocked : c_locked c = false;
  rd_get : forall y, more_blocks (b_w w) y -> exists vm c' x r s, get c y = Ok ((vm, c'), x) /\
    c_reset c' = Some r /\ w_resets x !! r = Some s /\ (rs_regs s, rs_sregs s, rs_fpu s) = cpu0
}.

(** A block of the host that no virtine and no image uses. *)
Definition foreign (w : world) (a : Z) : Prop :=
  a <> bb /\ forall i v, w_virtines w !! i = Some v -> m_mem v <> Some a.

(** Other blocks of the host do not matter to the pool. *)
Lemma pool_inv_heap w w' c out :
  pool_inv img bb bs w c out -> w_k w' = w_k w -> w_virtines w' = w_virtines w -> w_resets w' = w_resets w ->
  w_nextv w' = w_nextv w -> w_nextr w' = w_nextr w -> fresh_ok w' ->
  (forall b, ~ foreign w b -> w_heap w' !! b = w_heap w !! b) ->
  pool_inv img bb bs w' c out.
Proof.
  intros [] Ek Ev Er Env Enr Hf Hh.
  assert (Hlive : forall vid v cpu b ram, live w vid v cpu b ram -> live w' vid v cpu b ram).
  { intros vid v cpu b ram []. split; rewrite ?Ek, ?Ev; try done. rewrite Hh; [done|].
    intros [_ Hno]. by apply (Hno vid v). }
  split; rewrite ?Ev, ?Er, ?Env, ?Enr; try done.
  - destruct pi_image as (Him & Hne & Hbb & Ha). split; [|done]. unfold region_bytes in *.
    destruct (rm_size img =? 0); [done|]. destruct (rm_data img) as [|b' off]; [done|]. subst b'.
    by rewrite Hh by (intros [? _]; done).
  - destruct (c_reset c) as [r|]; [|done]. destruct pi_reset as (s & Hs & Hreg & Hall & Hcl). exists s.
    split; [done|]. split; [done|]. split.
    + intros vid Hvid. destruct (Hall vid Hvid) as (v & cpu & b & ram & []). exists v, cpu, b, ram.
      split; rewrite ?Ek; auto.
    + intros vid Hvid. destruct (Hcl vid Hvid) as (v & b & ram & L & Hsl). exists v, b, ram. auto.
Qed.

(** A new block of the program is foreign, and the pool stays ready. *)
Lemma alloc_ready w c l : ready w c -> exists x, alloc_block l (b_w w) = Ok (w_next (b_w w), x) /\ ready (with_w x w) c /\
  foreign x (w_next (b_w w)) /\ w_heap x !! w_next (b_w w) = Some l.
Proof.
  intros [Hc Hlk I Hul Hget]. pose proof (pi_fresh _ _ _ _ _ _ I) as [F1 F2]. destruct (pi_image _ _ _ _ _ _ I) as (Him & Hne & Hbb & _).
  set (a := w_next (b_w w)) in *. eexists. split; [reflexivity|]. fold a. set (x := World _ _ _ _ _ _ _ _ _).
  assert (Hno : forall i v, w_virtines x !! i = Some v -> m_mem v <> Some a) by (intros i v Hv Hm; specialize (F2 i v a Hv Hm); lia).
  assert (Hna : w_heap (b_w w) !! a = None) by (destruct (w_heap (b_w w) !! a) eqn:E; [|done]; specialize (F1 a ltac:(by eexists)); lia).
  assert (Hfx : fresh_ok x).
  { split; cbn.
    - intros b' [l' Hl]. apply lookup_insert_Some in Hl as [[<- _]|[_ Hl]]; [lia|]. specialize (F1 b' ltac:(by eexists)). lia.
    - intros i v b' Hv Hm. specialize (F2 i v b' Hv Hm). lia. }
  assert (Hab : a <> bb).
  { intros E. unfold region_bytes in Him. destruct (rm_size img =? 0); [by injection Him as <-|].
    destruct (rm_data img) as [|b' off]; [done|]. subst b'. by rewrite <- E, Hna in Him. }
  split; [|split; [by split|cbn; by rewrite lookup_insert_eq]]. split; cbn; try done.
  - eapply pool_inv_heap; [exact I|done..|]. intros b' Hb'. cbn. rewrite lookup_insert_ne; [done|]. intros <-. by apply Hb'.
  - intros y Hy. apply Hget. eapply more_blocks_trans; [|exact Hy]. split; [by apply insert_subseteq|done|done].
Qed.

(** A virtine that is out, with registers [cpu] and memory [ram]. *)
Record held (w : bworld) (c : Cache) (vm : Z) (v : Virtine) (cpu : cpu_state) (b : Z) (ram : list Z) : Prop := Held {
  he_cache : b_caches w !! code = Some c;
  he_lock : b_lock w = false;
  he_pool : pool_inv img bb bs (b_w w) c [vm];
  he_unlocked : c_locked c = false;
  he_reset : exists r s, c_reset c = Some r /\ w_resets (b_w w) !! r = Some s /\
    (rs_regs s, rs_sregs s, rs_fpu s) = cpu0;
  he_vm : exists r, vm_ok bb (b_w w) (c_memsz c) r vm v cpu b ram
}.

(** A step of the virtine keeps it held. *)
Lemma held_local w x c vm v cpu b ram cpu' ram' :
  held w c vm v cpu b ram -> local_step (b_w w) x v b ->
  k_cpu (w_k x) (m_cpufd v) = Some cpu' -> w_heap x !! b = Some ram' ->
  held (with_w x w) c vm v cpu' b ram'.
Proof.
  intros [] Hls Hcpu Hram. destruct he_vm0 as (r & Hok). pose proof Hok as [[] ? ? ? ? ?].
  assert (Hx : exists r', vm_ok bb x (c_memsz c) r' vm v cpu' b ram').
  { destruct (vm_ok_local_self _ _ _ _ _ _ _ _ _ _ Hls Hok) as (cpu2 & ram2 & Hok2). pose proof Hok2 as [[] ? ? ? ? ?].
    exists r. assert (cpu2 = cpu') as -> by congruence. assert (ram2 = ram') as -> by congruence. done. }
  split; cbn; try done.
  - eapply pool_inv_local; [done| |exact live_obj|exact live_mem|done]. set_solver.
  - by rewrite (ls_resets _ _ _ _ Hls).
Qed.

Lemma held_live w c vm v cpu b ram : held w c vm v cpu b ram -> live (b_w w) vm v cpu b ram.
Proof. intros [_ _ _ _ _ (r & Hok)]. apply Hok. Qed.

Lemma held_size w c vm v cpu b ram : held w c vm v cpu b ram -> blen ram = c_memsz c.
Proof. intros [_ _ _ _ _ (r & [L _ Hm _ _ _])]. by rewrite <- Hm, (live_size _ _ _ _ _ _ L). Qed.

Lemma memcpy_ok (dst src : Z) off1 off2 n (w : world) l data l2 l2' :
  0 < n -> w_heap w !! src = Some l -> slice off2 n l = Some data ->
  w_heap w !! dst = Some l2 -> splice off1 data l2 = Some l2' ->
  memcpy (Ptr dst off1) (Ptr src off2) n w = Ok (tt, with_heap (<[dst := l2']> (w_heap w)) w).
Proof.
  intros Hn Hl Hs Hl2 Hs2. unfold memcpy. erewrite bind_ok; [by eapply write_bytes_eq|].
  unfold read_bytes. rewrite (proj2 (Z.eqb_neq n 0)), Hl, Hs by lia. done.
Qed.

(** A virtine from get(): it is out, and clean. *)
Lemma get_held w c a host : ready w c -> foreign (b_w w) a -> w_heap (b_w w) !! a = Some host ->
  exists vm c' x v b ram, get c (b_w w) = Ok ((vm, c'), x) /\
    held (with_bcaches (<[code := c']> (b_caches w)) (with_w x w)) c' vm v cpu0 b ram /\
    slice (rm_address img) (rm_size img) ram = Some bs /\ c_pool c' = tail (c_pool c) /\ c_memsz c' = c_memsz c /\
    foreign x a /\ w_heap x !! a = Some host.
Proof.
  intros [Hc Hlk I Hul Hget] [Hab Hno] Ha.
  destruct (Hget _ (more_blocks_refl _ (pi_fresh _ _ _ _ _ _ I))) as (vm & c' & x & r & s & Hg & Er & Hs & Ecpu).
  destruct (get_inv _ _ _ _ _ _ _ _ _ I Hg) as (I2 & Hul2 & _ & _ & r2 & s2 & Er2 & Hs2 & Hcl).
  rewrite Er in Er2. injection Er2 as <-. rewrite Hs in Hs2. injection Hs2 as <-.
  destruct (get_rest _ _ _ _ _ _ _ _ _ I Hg) as (Hp & Hm & _).
  destruct (get_frame _ _ _ _ _ _ _ _ _ a host I Hg Ha Hno) as [Hax Hnox].
  destruct Hcl as (v & b & ram & L & Hsl). rewrite Ecpu in L.
  exists vm, c', x, v, b, ram. split; [done|]. split; [|by repeat split].
  split; cbn; try done; [by rewrite lookup_insert_eq|by exists r, s|].
  destruct (pool_inv_out _ _ _ _ _ _ vm I2 (list_elem_of_here _ _)) as (r' & v2 & cpu2 & b2 & ram2 & Hok).
  exists r'. pose proof (vo_live _ _ _ _ _ _ _ _ _ Hok) as L2. destruct L, L2.
  assert (v2 = v) as -> by congruence. assert (b2 = b) as -> by congruence. assert (ram2 = ram) as -> by congruence.
  assert (cpu2 = cpu0) as -> by congruence. done.
Qed.

(** The registers the runtime gives the guest. *)
Lemma entry_held w c vm v b ram : held w c vm v cpu0 b ram ->
  exists w', (if g_use_snapshots then mret tt else
     regs ← hv (read_regs vm); hv (write_regs vm (set_rip 0x8000 (set_rsp 0x8000 regs)))) w = Ok (tt, w') /\
    held w' c vm v (entry_cpu cpu0) b ram /\ w_heap (b_w w') = w_heap (b_w w) /\ w_virtines (b_w w') = w_virtines (b_w w).
Proof.
  intros H. pose proof (held_live _ _ _ _ _ _ _ H) as L. pose proof H as [_ _ _ _ _ (r & Hok)].
  unfold entry_cpu. destruct cpu0 as [[r0 s0] f0]. destruct g_use_snapshots; [by exists w|].
  assert (Hr : hv (read_regs vm) w = Ok (r0, w)) by (apply hv_pure; eapply read_regs_eq; apply L).
  rewrite (bbind_ok _ _ _ _ _ Hr).
  assert (Hw := write_regs_eq (b_w w) vm v (set_rip 0x8000 (set_rsp 0x8000 r0)) (live_obj _ _ _ _ _ _ L)).
  eexists. split; [apply hv_ok; exact Hw|]. split; [|done].
  eapply held_local; [exact H|by eapply (write_regs_local bb)| |apply L].
  pose proof (live_cpu _ _ _ _ _ _ L) as Hc3. cbn in Hc3 |- *. rewrite law_set_regs, decide_True by done. by rewrite Hc3.
Qed.

(** A call starts with the region in place, over it the arguments at address 0, and the
    registers at the entry. *)
Lemma start_ok codesz memsz a argsz w c host :
  ready w c -> foreign (b_w w) a -> w_heap (b_w w) !! a = Some host -> blen host = argsz ->
  0 < argsz <= rm_address img + rm_size img ->
  exists vm v b ram0 ram c' w1,
    start_virtine g_use_snapshots code codesz memsz (Ptr a 0) argsz w = Ok ((vm, Ptr b 0), w1) /\
    held w1 c' vm v (entry_cpu cpu0) b ram /\
    slice (rm_address img) (rm_size img) ram0 = Some bs /\ splice 0 host ram0 = Some ram /\
    b <> a /\ w_heap (b_w w1) !! a = Some host /\ foreign (b_w w1) a /\
    c_pool c' = tail (c_pool c) /\ c_memsz c' = c_memsz c.
Proof.
  intros Hrd Hfor Ha Hlen Hn. pose proof Hrd as [Hc Hlk I Hul _].
  destruct (get_held w c a host Hrd Hfor Ha) as (vm & c' & x & v & b & ram & Hg & H2 & Hsl & Hp & Hm & [Hab Hno] & Hax).
  set (w2 := with_bcaches (<[code := c']> (b_caches w)) (with_w x w)) in *.
  pose proof (held_live _ _ _ _ _ _ _ H2) as L. pose proof H2 as [_ _ _ _ _ (r' & Hok)]. cbn in L, Hok.
  assert (Hba : b <> a) by (intros ->; by apply (Hno vm v); apply L).
  pose proof Hsl as Hfit. apply slice_Some in Hfit as [(Hadr & Hsz & Hfit) _].
  assert (Hsplice : exists ram', splice 0 host ram = Some ram') by (eexists; apply splice_is_Some; lia). destruct Hsplice as [ram' Hsp].
  assert (Hsrc : slice 0 argsz host = Some host).
  { apply slice_Some. split; [lia|]. change (Z.to_nat 0) with 0%nat. rewrite drop_0, take_ge; [done|]. unfold blen in *. lia. }
  set (x3 := with_heap (<[b := ram']> (w_heap x)) x).
  assert (Hcopy : memcpy (Ptr b 0) (Ptr a 0) argsz x = Ok (tt, x3)) by (eapply memcpy_ok; [lia|done|done|apply L|done]).
  assert (H3 : held (with_w x3 w2) c' vm v cpu0 b ram').
  { apply (held_local w2 x3 c' vm v cpu0 b ram); [done| |apply L|cbn; by rewrite lookup_insert_eq].
    eapply (write_ram_local bb x _ _ _ v _ b ram 0 host); [exact Hok|]. eapply write_bytes_eq; [apply L|done]. }
  assert (Ha3 : w_heap x3 !! a = Some host) by (cbn; by rewrite lookup_insert_ne).
  assert (Htr : translate v 0 = Ptr b 0).
  { pose proof (blen_nonneg ram). pose proof (live_max _ _ _ _ _ _ L).
    apply translate_in_range; [apply L|rewrite (live_size _ _ _ _ _ _ L); lia|by rewrite (live_size _ _ _ _ _ _ L)]. }
  set (w3 := with_w x3 w2) in *.
  destruct (entry_held w3 c' vm v b ram' H3) as (w4 & Hgo & H4 & Eh & Ev).
  set (go := (if g_use_snapshots then mret tt else
     regs ← hv (read_regs vm); hv (write_regs vm (set_rip 0x8000 (set_rsp 0x8000 regs)))) : M bworld unit) in *.
  assert (E : start_virtine g_use_snapshots code codesz memsz (Ptr a 0) argsz w = (go;; mret (vm, Ptr b 0)) w3).
  { unfold start_virtine, w3, w2. fold go. pose proof (get_virtine_eq _ _ _ (live_obj _ _ _ _ _ _ L)) as Hv.
    destruct w as [x0 caches lk os log]. cbn in *. subst lk.
    unfold mutex_lock, mutex_unlock, binding_get_cache, store_cache. unfold_M. cbn. rewrite Hc. unfold hv. cbn. rewrite Hg. cbn.
    rewrite Hv. cbn. rewrite Htr. cbn. rewrite Hcopy. done. }
  exists vm, v, b, ram, ram', c', w4. rewrite E, (bbind_ok _ _ _ _ _ Hgo). split; [done|]. split; [done|]. split; [done|].
  split; [done|]. split; [done|]. rewrite Eh. split; [done|]. split; [|done]. split; [done|]. rewrite Ev. exact Hno.
Qed.

(** *** Exits of the guest *)

(** One KVM_RUN of the virtine that is out. *)
Lemma run_held w c vm v cpu b ram rr k' h' ram' a :
  held w c vm v cpu b ram -> k_run (w_k (b_w w)) (m_cpufd v) (w_heap (b_w w)) = (rr, k', h') ->
  h' !! b = Some ram' -> b <> a -> foreign (b_w w) a ->
  exists x cpu', hv (Virtine.run vm) w = Ok (classify_exit rr, with_w x w) /\
    k_cpu k' (m_cpufd v) = Some cpu' /\ held (with_w x w) c vm v cpu' b ram' /\
    w_heap x !! a = w_heap (b_w w) !! a /\ foreign x a.
Proof.
  intros Hh Ek Hram Hba [Hab Hno]. pose proof (held_live _ _ _ _ _ _ _ Hh) as L. pose proof Hh as [_ _ _ _ _ (r & Hok)].
  set (x := with_heap h' (with_k k' (b_w w))).
  assert (Er : Virtine.run vm (b_w w) = Ok (classify_exit rr, x)).
  { unfold Virtine.run. rewrite (bind_ok _ _ _ _ _ (get_virtine_eq _ _ _ (live_obj _ _ _ _ _ _ L))). unfold_M. by rewrite Ek. }
  pose proof (run_local _ _ _ _ _ _ _ _ _ _ _ Hok Er) as Hls.
  destruct (ls_open _ _ _ _ Hls) as [cpu' Hcpu]; [eexists; apply L|].
  exists x, cpu'. split; [by apply hv_ok|]. split; [done|]. split; [by eapply held_local|].
  split; [by apply (ls_heap _ _ _ _ Hls)|]. by split.
Qed.

Lemma held_ram w c vm v cpu b ram : held w c vm v cpu b ram ->
  k_cpu (w_k (b_w w)) (m_cpufd v) = Some cpu /\ k_ram (w_k (b_w w)) (m_cpufd v) = Some b /\ w_heap (b_w w) !! b = Some ram.
Proof.
  intros Hh. pose proof (held_live _ _ _ _ _ _ _ Hh) as L. destruct Hh as [_ _ _ _ _ (r & [_ _ _ _ Hvm Hmap])].
  split; [apply L|]. split; [unfold k_ram; by rewrite Hvm|apply L].
Qed.

(** *** The end of a call *)

(** put() of a virtine that is out. *)
Lemma put_ok x c vm r s : pool_inv img bb bs x c [vm] -> c_reset c = Some r -> w_resets x !! r = Some s -> c_locked c = false ->
  exists c' y, put vm c x = Ok (c', y) /\ pool_inv img bb bs y c' [] /\ c_locked c' = false /\ c_pool c' = c_pool c ++ [vm] /\
    c_memsz c' = c_memsz c /\
    c_reset c' = Some r /\ w_resets y !! r = Some s /\ forall a, foreign x a -> w_heap y !! a = w_heap x !! a.
Proof.
  intros I Er Hs Hul. destruct (pi_image _ _ _ _ _ _ I) as (Him & Hne & Hbb & Hadr & Hfit).
  pose proof (pi_reset _ _ _ _ _ _ I) as Hr. rewrite Er in Hr. destruct Hr as (s' & Hs' & Hreg & Hall & _).
  rewrite Hs in Hs'. injection Hs' as <-.
  destruct (Hall vm) as (v & cpu & b & ram & Hok); [set_solver|].
  destruct (reset_succeeds _ _ _ _ _ _ _ _ _ _ _ _ Hok Hs Hreg Him Hne Hbb Hadr Hfit) as [y Hy].
  destruct (reset_cleans _ _ _ _ _ _ _ _ _ _ _ _ _ _ Hok Hs Hreg Him Hne Hbb Hadr Hfit Hy) as (Hls & _ & _).
  assert (Hput : exists c', put vm c x = Ok (c', y) /\ c_pool c' = c_pool c ++ [vm] /\ c_reset c' = c_reset c /\ c_memsz c' = c_memsz c).
  { unfold put, lock, get_cache. rewrite (bind_ok _ _ _ _ _ Hy). unfold_M. rewrite Hul. eexists. split; [reflexivity|]. by split. }
  destruct Hput as (c' & Hput & Hp & Er' & Em'). exists c', y. split; [done|].
  destruct (put_inv _ _ _ _ _ [] _ [] _ _ I Hput) as (Iy & Hul' & _).
  split; [done|]. split; [done|]. split; [done|]. split; [done|]. split; [congruence|].
  split; [by rewrite (ls_resets _ _ _ _ Hls)|]. intros a [_ Hno]. apply (ls_heap _ _ _ _ Hls). intros ->.
  pose proof Hok as [[] _ _ _ _ _]. by apply (Hno vm v).
Qed.

(** A pool with a virtine is ready. *)
Lemma pool_ready w c r s : b_caches w !! code = Some c -> b_lock w = false -> pool_inv img bb bs (b_w w) c [] ->
  c_locked c = false -> c_pool c <> [] -> c_reset c = Some r -> w_resets (b_w w) !! r = Some s ->
  (rs_regs s, rs_sregs s, rs_fpu s) = cpu0 -> ready w c.
Proof.
  intros Hc Hlk I Hul Hp Er Hs Ecpu. split; try done. intros y [_ _ Ey]. destruct (c_pool c) as [|vm rest] eqn:Ep; [done|].
  assert (Hg : exists c', get c y = Ok ((vm, c'), y) /\ c_reset c' = c_reset c).
  { unfold get, lock, get_cache. unfold_M. rewrite Hul. cbn. rewrite Ep. eexists. split; [reflexivity|done]. }
  assert (Ers : w_resets y = w_resets (b_w w)) by (by rewrite Ey). destruct Hg as (c' & Hg & Er'). exists vm, c', y, r, s. by rewrite Er', Ers.
Qed.

(** The arguments go back and the virtine is cleaned and kept. *)
Lemma finish_ok codesz memsz a argsz vm v b ram cpu c w host :
  held w c vm v cpu b ram -> b <> a -> foreign (b_w w) a -> w_heap (b_w w) !! a = Some host -> blen host = argsz ->
  0 < argsz <= blen ram ->
  exists c' w', finish_virtine code codesz memsz (Ptr a 0) argsz vm (Ptr b 0) w = Ok (tt, w') /\ ready w' c' /\
    w_heap (b_w w') !! a = Some (take (Z.to_nat argsz) ram) /\ c_pool c' = c_pool c ++ [vm] /\ c_memsz c' = c_memsz c.
Proof.
  intros Hh Hba Hfor Ha Hlen Hn. pose proof Hh as [Hc Hlk I Hul (r & s & Er & Hs & Ecpu) (r' & Hok)].
  pose proof Hok as [L ? ? ? ? ?].
  assert (Hsrc : slice 0 argsz ram = Some (take (Z.to_nat argsz) ram)) by (apply slice_is_Some; lia).
  assert (Hdst : splice 0 (take (Z.to_nat argsz) ram) host = Some (take (Z.to_nat argsz) ram)).
  { pose proof (slice_length _ _ _ _ Hsrc) as Hx. rewrite splice_is_Some by lia. f_equal. change (Z.to_nat 0) with 0%nat.
    rewrite take_0. cbn [app]. rewrite drop_ge; [apply app_nil_r|]. unfold blen in *. lia. }
  set (x := with_heap (<[a := take (Z.to_nat argsz) ram]> (w_heap (b_w w))) (b_w w)).
  assert (Hcopy : memcpy (Ptr a 0) (Ptr b 0) argsz (b_w w) = Ok (tt, x)) by (eapply memcpy_ok; [lia|apply L|done..]).
  assert (Ix : pool_inv img bb bs x c [vm]).
  { eapply pool_inv_heap; [exact I|done..| |].
    - pose proof (pi_fresh _ _ _ _ _ _ I) as [F1 F2]. split; [|done]. cbn. intros b' [l Hl].
      apply lookup_insert_Some in Hl as [[<- _]|[_ Hl]]; apply F1; by eexists.
    - intros b' Hb'. cbn. rewrite lookup_insert_ne; [done|]. by intros <-. }
  destruct (put_ok x c vm r s Ix Er Hs Hul) as (c' & y & Hput & Iy & Hul' & Hp' & Hm' & Er' & Hs' & Hy).
  set (w' := with_bcaches (<[code := c']> (b_caches w)) (with_w y w)).
  exists c', w'. split; [|split; [|split; [|done]]].
  - unfold finish_virtine, w'. destruct w as [x0 caches lk os log]. cbn in *. subst lk.
    unfold mutex_lock, mutex_unlock, binding_get_cache, store_cache. unfold_M. unfold hv. cbn. rewrite Hcopy. cbn. rewrite Hc. cbn. by rewrite Hput.
  - apply (pool_ready w' c' r s); cbn; try done; [by rewrite lookup_insert_eq|]. rewrite Hp'. by destruct (c_pool c).
  - cbn. rewrite Hy; [cbn; by rewrite lookup_insert_eq|]. exact Hfor.
Qed.
End Pool.

(** *** The snapshot *)

Section Snapshot.
Context (img : ResetMemory) (bb : Z) (bs : list Z) (cpu0 : cpu_state).

(** The world after the snapshot hypercall: the registers are past the out instruction,
    and the first bytes of the memory are in a new block, the region of the reset
    state [m] that the virtines of the cache share. *)
Definition snapshot_world (x : world) (v : Virtine) (m : Z) (r : kvm_regs) (s : sregs) (f : fpu) (ram : list Z) : world :=
  let r' := set_rip (u64 (rip r + 2)) r in
  World (k_set_regs (k_set_regs (w_k x) (m_cpufd v) r') (m_cpufd v) r') (w_g_kvmfd x)
    (<[w_next x := take (Z.to_nat (rdx r)) ram]> (w_heap x)) (w_next x + 1) (w_virtines x) (w_nextv x)
    (<[m := MkResetState r' s f [MkResetMemory (Ptr (w_next x) 0) 0 (rdx r)]]> (w_resets x)) (w_nextr x) (w_out x).

Lemma snapshot_eq codesz memsz whitelist w c vm v r s f b ram m :
  g_use_snapshots = true -> b_caches w !! code = Some c -> b_lock w = false ->
  live (b_w w) vm v (r, s, f) b ram -> m_reset_mask v = Some m -> rdi r = 0xFF -> 0 <= rdx r <= blen ram ->
  hypercall ub_shift g_use_snapshots code codesz memsz whitelist vm w =
    Ok (false, with_w (snapshot_world (b_w w) v m r s f ram) w).
Proof.
  intros Hsn Hc Hlk L Hm Hnr Hsz. pose proof (live_max _ _ _ _ _ _ L) as Hmax. pose proof L as [Lo Lc Lm Lh Ls _].
  unfold hypercall. erewrite bbind_ok by (apply hv_pure; eapply read_regs_eq; apply L).
  assert (hypercall_allowed ub_shift (s32 (rdi r)) whitelist = true) as -> by (by rewrite Hnr).
  set (r' := set_rip (u64 (rip r + 2)) r).
  set (x1 := with_k (k_set_regs (w_k (b_w w)) (m_cpufd v) r') (b_w w)).
  assert (Hw1 : write_regs vm r' (b_w w) = Ok (tt, x1)) by (by apply write_regs_eq).
  assert (Hc1 : k_cpu (w_k x1) (m_cpufd v) = Some (r', s, f)) by (cbn; rewrite law_set_regs, decide_True by done; by rewrite Lc).
  assert (L1 : live x1 vm v (r', s, f) b ram) by (by split).
  pose proof (read_ram_eq x1 vm v _ b ram (rdx r) L1 (proj1 Hsz)) as Hrd. rewrite (proj2 (Z.leb_le _ _) (proj2 Hsz)) in Hrd.
  set (x2 := World (w_k x1) (w_g_kvmfd x1) (<[w_next x1 := take (Z.to_nat (rdx r)) ram]> (w_heap x1)) (w_next x1 + 1) (w_virtines x1)
    (w_nextv x1) (w_resets x1) (w_nextr x1) (w_out x1)).
  set (st := MkResetState r' s f [MkResetMemory (Ptr (w_next x1) 0) 0 (rdx r)]).
  set (x3 := with_resets (<[m := st]> (w_resets x2)) x2).
  assert (Hs3 : save_reset_state_regions vm [MkResetMemory (Ptr (w_next x1) 0) 0 (rdx r)] x2 = Ok (tt, x3)).
  { rewrite (save_reset_state_regions_eq x2 vm v r' s f) by done. unfold put_rst. change (w_virtines x2 !! vm) with (w_virtines (b_w w) !! vm).
    by rewrite Lo, Hm. }
  assert (Ht : take_snapshot code codesz memsz vm r (s64 (rdx r)) w = Ok (r', with_w x3 w)).
  { unfold take_snapshot. fold r'. rewrite uwrap_swrap, (uwrap_small 64) by (unfold in_u; lia).
    rewrite (bbind_ok _ _ _ _ _ (hv_ok _ _ _ _ Hw1)). destruct w as [x caches lk os log]. cbn [b_w b_caches b_lock] in *. subst lk.
    unfold mutex_lock, mutex_unlock, binding_get_cache. unfold_M. cbn. rewrite Hc. unfold hv. cbn.
    rewrite (get_virtine_eq x1 vm v Lo). cbn. rewrite Hrd. cbn [alloc_block b_w with_w]. fold x2. cbn [b_w with_w]. by rewrite Hs3. }
  assert (Hs : serve g_use_snapshots code codesz memsz vm r w = Ok ((r', false), with_w x3 w)).
  { unfold serve. erewrite bbind_ok by (by apply hv_pure, get_virtine_eq).
    rewrite Hnr, Hsn. change (0xFF =? 0xFF) with true. cbv iota. by rewrite (bbind_ok _ _ _ _ _ Ht). }
  rewrite (bbind_ok _ _ _ _ _ Hs). cbv iota.
  assert (Hw4 : write_regs vm r' (b_w (with_w x3 w)) = Ok (tt, snapshot_world (b_w w) v m r s f ram)) by (by rewrite (write_regs_eq _ vm v r')).
  by rewrite (bbind_ok _ _ _ _ _ (hv_ok _ _ _ _ Hw4)).
Qed.

(** Afterwards the pool's virtines are reset to the snapshot. *)
Lemma snapshot_held codesz memsz whitelist w c vm v cpu b ram a host :
  g_use_snapshots = true -> held img bb bs cpu0 w c vm v cpu b ram -> c_pool c = [] ->
  rdi cpu.1.1 = 0xFF -> 0 < rdx cpu.1.1 <= blen ram -> b <> a -> foreign bb (b_w w) a -> w_heap (b_w w) !! a = Some host ->
  exists w' d, let S := MkResetMemory (Ptr d 0) 0 (rdx cpu.1.1) in
    hypercall ub_shift g_use_snapshots code codesz memsz whitelist vm w = Ok (false, w') /\
    held S d (take (Z.to_nat (rdx cpu.1.1)) ram) (resumed cpu) w' c vm v (resumed cpu) b ram /\
    foreign d (b_w w') a /\ w_heap (b_w w') !! a = Some host.
Proof.
  intros Hsn Hh Hp Hnr Hsz Hba [Hab Hno] Ha. pose proof (held_live _ _ _ _ _ _ _ _ _ _ _ Hh) as L.
  pose proof Hh as [Hc Hlk I Hul (m & s0 & Er & Hs & Ecpu) (r1 & Hok)]. pose proof Hok as [_ Hmask Hmsz _ Hvm Hmap].
  pose proof (held_size _ _ _ _ _ _ _ _ _ _ _ Hh) as Hms.
  assert (r1 = m) as ->.
  { pose proof (pi_reset _ _ _ _ _ _ I) as Hr. rewrite Er in Hr. destruct Hr as (s' & _ & _ & Hall & _).
    destruct (Hall vm) as (v' & cpu' & b' & ram' & Hok'); [set_solver|]. pose proof Hok' as [[] Hm' _ _ _ _]. destruct L. congruence. }
  destruct cpu as [[r s] f]. cbn [fst] in *. unfold resumed. rewrite Hsn.
  set (x := b_w w) in *. set (d := w_next x). set (y := snapshot_world x v m r s f ram).
  assert (Hlt : forall b' l, w_heap x !! b' = Some l -> b' < d) by (intros b' l Hl; apply (pi_fresh _ _ _ _ _ _ I); by eexists).
  assert (Hbd : b < d) by (eapply Hlt, L). assert (Had : a < d) by (by eapply Hlt).
  assert (Hcpu : k_cpu (w_k y) (m_cpufd v) = Some (set_rip (u64 (rip r + 2)) r, s, f)).
  { cbn. rewrite !law_set_regs, !decide_True by done. pose proof (live_cpu _ _ _ _ _ _ L) as ->. done. }
  assert (Hvms : same_vms (w_k x) (w_k y)) by (cbn; etransitivity; apply law_set_regs_vms).
  assert (Hoky : vm_ok d y (c_memsz c) m vm v (set_rip (u64 (rip r + 2)) r, s, f) b ram).
  { destruct L. split; try done; [|lia|by rewrite (proj1 Hvms)|by rewrite (proj2 Hvms)]. split; try done. cbn. rewrite lookup_insert_ne by lia. done. }
  assert (Hlen : blen (take (Z.to_nat (rdx r)) ram) = rdx r) by (unfold blen in *; rewrite length_take; lia).
  exists (with_w y w), d. cbv zeta. split; [|split; [|split]].
  - rewrite <- Hsn at 1. eapply snapshot_eq; try done. lia.
  - split; try done; [|exists m; eexists; split; [done|]; split; [cbn; by rewrite lookup_insert_eq|done]|by exists m].
    destruct I. split; try done.
    + by rewrite Er.
    + cbn. unfold region_bytes. cbn. rewrite (proj2 (Z.eqb_neq _ 0)), lookup_insert_eq by lia. split; [|split; [|split; [done|lia]]].
      * rewrite slice_is_Some by lia. f_equal. change (Z.to_nat 0) with 0%nat. rewrite drop_0, take_ge; [done|]. unfold blen in *. lia.
      * intros E. rewrite E in Hlen. unfold blen in Hlen. cbn in Hlen. lia.
    + destruct pi_fresh as [F1 F2]. split; cbn.
      * intros b' [l Hl]. apply lookup_insert_Some in Hl as [[E _]|[_ Hl]]; [subst b'; unfold d; cbn; lia|]. specialize (Hlt _ _ Hl). unfold d in Hlt. lia.
      * intros i vi b' Hvi Hmi. specialize (F2 i vi b' Hvi Hmi). lia.
    + destruct pi_ids as [I1 I2]. split; [done|]. cbn. intros r0 [l Hl]. apply lookup_insert_Some in Hl as [[<- _]|[_ Hl]]; apply I2; by eexists.
    + rewrite Er. eexists. split; [cbn; by rewrite lookup_insert_eq|]. split; [done|]. rewrite Hp. split; [|set_solver].
      intros vid Hv. assert (vid = vm) as -> by set_solver. eexists _, _, _, _. exact Hoky.
  - split; [lia|]. done.
  - cbn. fold d. rewrite lookup_insert_ne by lia. done.
Qed.
End Snapshot.

(** *** What the image does *)

(** The guest of a VCPU runs to an exit, in [j] KVM_RUNs; a signal may interrupt it. *)
Inductive runs_to (fd : Z) : nat -> kst -> heap -> ExitReason -> kst -> heap -> Prop :=
| runs_exit k h rr k' h' : k_run k fd h = (rr, k', h') -> runs_to fd 1 k h (classify_exit rr) k' h'
| runs_again j k h rr k1 h1 e k' h' : k_run k fd h = (rr, k1, h1) -> classify_exit rr = Interrupted ->
    runs_to fd j k1 h1 e k' h' -> runs_to fd (S j) k h e k' h'.

Lemma run_to img bb bs cpu0 c vm v b a host codesz memsz whitelist fuel j k h e k' h' :
  runs_to (m_cpufd v) j k h e k' h' -> forall w cpu ram ram', held img bb bs cpu0 w c vm v cpu b ram ->
  w_k (b_w w) = k -> w_heap (b_w w) = h -> h' !! b = Some ram' ->
  b <> a -> foreign bb (b_w w) a -> w_heap (b_w w) !! a = Some host ->
  exists x cpu', k_cpu k' (m_cpufd v) = Some cpu' /\ held img bb bs cpu0 (with_w x w) c vm v cpu' b ram' /\
    foreign bb x a /\ w_heap x !! a = Some host /\
    match e with
    | HyperCall => run_loop ub_shift g_use_snapshots (j + fuel) code codesz memsz whitelist vm w =
        (done ← hypercall ub_shift g_use_snapshots code codesz memsz whitelist vm;
         if (done : bool) then mret tt else run_loop ub_shift g_use_snapshots fuel code codesz memsz whitelist vm) (with_w x w)
    | Exited => run_loop ub_shift g_use_snapshots (j + fuel) code codesz memsz whitelist vm w = Ok (tt, with_w x w)
    | _ => True
    end.
Proof.
  induction 1 as [k h rr k' h' Ek|j k h rr k1 h1 e k' h' Ek He Hr IH]; intros w cpu ram ram' Hh Ewk Ewh Hram Hba Hfor Ha; subst k h.
  - destruct (run_held _ _ _ _ _ _ _ _ _ _ _ _ _ _ _ a Hh Ek Hram Hba Hfor) as (x & cpu' & Er & Hcpu & Hx & Eh & Hfx).
    exists x, cpu'. split; [done|]. split; [done|]. split; [done|]. split; [by rewrite Eh|].
    cbn [Nat.add run_loop]. unfold run_once. unfold_M. rewrite Er. by destruct (classify_exit rr).
  - assert (Hram1 : exists ram1, h1 !! b = Some ram1).
    { destruct (held_ram _ _ _ _ _ _ _ _ _ _ _ Hh) as (_ & _ & Hb). destruct (law_run_heap _ _ _ _ _ _ Ek) as [_ Hl].
      destruct (Hl _ _ Hb) as (l & ? & _). by exists l. }
    destruct Hram1 as [ram1 Hram1].
    destruct (run_held _ _ _ _ _ _ _ _ _ _ _ _ _ _ _ a Hh Ek Hram1 Hba Hfor) as (x & cpu1 & Er & _ & Hx & Eh & Hfx).
    assert (Ex : x = with_heap h1 (with_k k1 (b_w w))).
    { unfold hv, Virtine.run in Er. pose proof (get_virtine_eq _ _ _ (live_obj _ _ _ _ _ _ (held_live _ _ _ _ _ _ _ _ _ _ _ Hh))) as Hg.
      unfold_M. rewrite Hg, Ek in Er. by injection Er as <-. }
    destruct (IH (with_w x w) cpu1 ram1 ram' Hx) as (y & cpu' & Hcpu & Hy & Hfy & Hay & Hloop); try done; [by rewrite Ex..|cbn; by rewrite Eh|].
    exists y, cpu'. split; [done|]. split; [done|]. split; [done|]. split; [done|].
    cbn [Nat.add run_loop]. unfold run_once. unfold_M. rewrite Er, He. done.
Qed.

Section Image.
(** The image that the cache loads, with the registers of its reset state; the size
    of the argument structure; how many KVM_RUNs a phase of the guest may take; and the
    states in which the guest asks for the snapshot. *)
Context (img : ResetMemory) (bb : Z) (bs : list Z) (cpu0 : cpu_state).
Context (n : Z) (exits : nat) (booted : cpu_state -> list Z -> Prop).

(** From _start to __snapshot (boot64.asm): with the image in place the guest
    comes to the hypercall 0xFF and has left the arguments alone; the snapshot is to
    cover them and fits the memory. *)
Definition boots_image : Prop := forall k fd h b ram,
  k_cpu k fd = Some (entry_cpu cpu0) -> k_ram k fd = Some b -> h !! b = Some ram ->
  slice (rm_address img) (rm_size img) ram = Some bs ->
  exists j k' h' cpu ram', (j <= exits)%nat /\ runs_to fd j k h HyperCall k' h' /\
    k_cpu k' fd = Some cpu /\ h' !! b = Some ram' /\ booted cpu ram' /\
    rdi cpu.1.1 = 0xFF /\ n <= rdx cpu.1.1 <= blen ram' /\ take (Z.to_nat n) ram' = take (Z.to_nat n) ram.

(** From the return of __snapshot to the exit: in a memory that agrees with the one at
    the snapshot on what it covers, but for the arguments [host], the guest
    exits with [host'] in their place. *)
Definition runs_image (host host' : list Z) : Prop := forall k fd h b cpu ramS ram,
  booted cpu ramS -> k_cpu k fd = Some (resumed cpu) -> k_ram k fd = Some b -> h !! b = Some ram ->
  length ram = length ramS -> drop (Z.to_nat n) (take (Z.to_nat (rdx cpu.1.1)) ram) = drop (Z.to_nat n) (take (Z.to_nat (rdx cpu.1.1)) ramS) ->
  take (Z.to_nat n) ram = host ->
  exists j k' h' ram', (j <= exits)%nat /\ runs_to fd j k h Exited k' h' /\
    h' !! b = Some ram' /\ take (Z.to_nat n) ram' = host'.

(** Before the snapshot: a reset loads the image.  With snapshots no second virtine
    waits in the pool, one that would still start at the image. *)
Definition cold (w : bworld) (c : Cache) : Prop :=
  ready img bb bs cpu0 w c /\ (g_use_snapshots = true -> (length (c_pool c) <= 1)%nat).

(** After it: a reset loads the snapshot. *)
Definition warm (w : bworld) (c : Cache) : Prop := exists d cpu ramS, booted cpu ramS /\
  n <= rdx cpu.1.1 <= blen ramS /\ blen ramS = c_memsz c /\
  ready (MkResetMemory (Ptr d 0) 0 (rdx cpu.1.1)) d (take (Z.to_nat (rdx cpu.1.1)) ramS) (resumed cpu) w c.

Definition between_calls (w : bworld) (c : Cache) : Prop := cold w c \/ (g_use_snapshots = true /\ warm w c).

Lemma splice_front (host ram0 ram : list Z) : splice 0 host ram0 = Some ram -> blen host = n ->
  take (Z.to_nat n) ram = host /\ drop (Z.to_nat n) ram = drop (Z.to_nat n) ram0 /\ length ram = length ram0.
Proof.
  intros Hsp <-. pose proof (splice_length _ _ _ _ Hsp) as Hl. apply splice_Some in Hsp as [_ ->].
  change (Z.to_nat 0) with 0%nat in *. rewrite take_0 in *. cbn [app Nat.add] in *. unfold blen in *. rewrite Nat2Z.id.
  rewrite take_app_length, drop_app_length. split; [done|]. split; [done|].
  apply Nat2Z.inj. exact Hl.
Qed.

(** The second phase, with whatever region the virtines of the pool are reset to. *)
Lemma main_ok img' bb' bs' cpu1 codesz memsz whitelist fuel w c vm v cpu b ramS ram a host host' block :
  runs_image host host' -> (exits <= fuel)%nat -> held img' bb' bs' cpu1 w c vm v (resumed cpu) b ram -> booted cpu ramS ->
  length ram = length ramS -> drop (Z.to_nat n) (take (Z.to_nat (rdx cpu.1.1)) ram) = drop (Z.to_nat n) (take (Z.to_nat (rdx cpu.1.1)) ramS) ->
  take (Z.to_nat n) ram = host -> b <> a -> foreign bb' (b_w w) a -> w_heap (b_w w) !! a = Some block ->
  exists x cpu' ram', run_loop ub_shift g_use_snapshots fuel code codesz memsz whitelist vm w = Ok (tt, with_w x w) /\
    held img' bb' bs' cpu1 (with_w x w) c vm v cpu' b ram' /\ take (Z.to_nat n) ram' = host' /\
    foreign bb' x a /\ w_heap x !! a = Some block.
Proof.
  intros Hrun Hfuel Hh Hb Hlen Hagree Ht Hba Hfor Ha. destruct (held_ram _ _ _ _ _ _ _ _ _ _ _ Hh) as (Hcpu & Hram & Hheap).
  destruct (Hrun _ _ _ _ _ _ _ Hb Hcpu Hram Hheap Hlen Hagree Ht) as (j & k' & h' & ram' & Hj & Hr & Hram' & Ht').
  destruct (run_to img' bb' bs' cpu1 c vm v b a block codesz memsz whitelist (fuel - j) j _ _ _ _ _ Hr w _ ram ram' Hh eq_refl eq_refl Hram' Hba Hfor Ha)
    as (x & cpu' & _ & Hx & Hfx & Hax & Hloop).
  replace (j + (fuel - j))%nat with fuel in Hloop by lia. by exists x, cpu', ram'.
Qed.

(** Without snapshots the hypercall changes nothing. *)
Lemma no_snapshot_held codesz memsz whitelist w c vm v cpu b ram :
  g_use_snapshots = false -> held img bb bs cpu0 w c vm v cpu b ram -> rdi cpu.1.1 = 0xFF ->
  exists x, hypercall ub_shift g_use_snapshots code codesz memsz whitelist vm w = Ok (false, with_w x w) /\
    held img bb bs cpu0 (with_w x w) c vm v (resumed cpu) b ram /\
    w_heap x = w_heap (b_w w) /\ w_virtines x = w_virtines (b_w w).
Proof.
  intros Hsn Hh Hnr. pose proof (held_live _ _ _ _ _ _ _ _ _ _ _ Hh) as L. pose proof Hh as [_ _ _ _ _ (r1 & Hok)].
  destruct cpu as [[r s] f]. cbn [fst] in Hnr. unfold resumed. rewrite Hsn.
  pose proof (write_regs_eq (b_w w) vm v r (live_obj _ _ _ _ _ _ L)) as Hw.
  exists (with_k (k_set_regs (w_k (b_w w)) (m_cpufd v) r) (b_w w)). split; [|split; [|done]].
  - unfold hypercall. erewrite bbind_ok by (apply hv_pure; eapply read_regs_eq; apply L).
    assert (hypercall_allowed ub_shift (s32 (rdi r)) whitelist = true) as -> by (by rewrite Hnr).
    assert (Hs : serve false code codesz memsz vm r w = Ok ((r, false), w)).
    { unfold serve. rewrite (bbind_ok _ _ _ _ _ (hv_pure _ _ _ (get_virtine_eq _ _ _ (live_obj _ _ _ _ _ _ L)))). by rewrite Hnr. }
    rewrite (bbind_ok _ _ _ _ _ Hs). cbv iota. by rewrite (bbind_ok _ _ _ _ _ (hv_ok _ _ _ _ Hw)).
  - eapply held_local; [exact Hh|by eapply (write_regs_local bb)| |apply L].
    cbn. rewrite law_set_regs, decide_True by done. by rewrite (live_cpu _ _ _ _ _ _ L).
Qed.

(** The end of a call whose guest has left [host'] at address 0. *)
Lemma call_ends img' bb' bs' cpu1 fuel codesz memsz a vconfig w w1 w2 c vm v cpu b ram host host' :
  start_virtine g_use_snapshots code codesz memsz (Ptr a 0) n w = Ok ((vm, Ptr b 0), w1) ->
  run_loop ub_shift g_use_snapshots fuel code codesz memsz (whitelist_of vconfig) vm w1 = Ok (tt, w2) ->
  held img' bb' bs' cpu1 w2 c vm v cpu b ram -> take (Z.to_nat n) ram = host' -> b <> a -> foreign bb' (b_w w2) a ->
  w_heap (b_w w2) !! a = Some host -> blen host = n -> 0 < n <= blen ram ->
  exists c' w', wasp_run_virtine ub_shift g_use_snapshots fuel code codesz memsz (Ptr a 0) n vconfig w = Ok (tt, w') /\
    ready img' bb' bs' cpu1 w' c' /\ w_heap (b_w w') !! a = Some host' /\ c_pool c' = c_pool c ++ [vm] /\ c_memsz c' = c_memsz c.
Proof.
  intros E1 E2 Hh Ht Hba Hfor Ha Hlen Hn.
  destruct (finish_ok img' bb' bs' cpu1 codesz memsz a n vm v b ram cpu c w2 host Hh Hba Hfor Ha Hlen Hn) as (c' & w' & E3 & Hrd & Ha' & Hp & Hm).
  exists c', w'. unfold wasp_run_virtine. rewrite (bbind_ok _ _ _ _ _ E1), (bbind_ok _ _ _ _ _ E2), E3. rewrite Ha', Ht. split; [done|]. split; [done|]. by split.
Qed.

(** The runtime's part of a call: the block [a] of the argument structure goes from
    [host] to [host'], and the runtime is ready for the next call. *)
Abbreviation returns := (fun fuel codesz memsz a vconfig w host' =>
  exists c' w', wasp_run_virtine ub_shift g_use_snapshots fuel code codesz memsz (Ptr a 0) n vconfig w = Ok (tt, w') /\
    between_calls w' c' /\ w_heap (b_w w') !! a = Some host').

(** A call before there is a snapshot: the guest boots, and then runs. *)
Lemma cold_call fuel codesz memsz a vconfig w c host host' :
  boots_image -> runs_image host host' -> (exits + exits <= fuel)%nat -> cold w c ->
  foreign bb (b_w w) a -> w_heap (b_w w) !! a = Some host -> blen host = n -> 0 < n <= rm_address img ->
  returns fuel codesz memsz a vconfig w host'.
Proof.
  intros Hboot Hrun Hfuel [Hrd Hone] Hfor Ha Hlen Hn.
  assert (Hsize : 0 <= rm_size img).
  { destruct (pi_image _ _ _ _ _ _ (rd_pool _ _ _ _ _ _ Hrd)) as (Him & _). rewrite <- (image_size _ _ _ Him). apply blen_nonneg. }
  destruct (start_ok img bb bs cpu0 codesz memsz a n w c host Hrd Hfor Ha Hlen ltac:(lia))
    as (vm & v & b & ram0 & ram & c1 & w1 & E1 & H1 & Hsl0 & Hsp & Hba & Ha1 & Hf1 & Hp1 & Hm1).
  destruct (splice_front _ _ _ Hsp Hlen) as (Ht & _ & _).
  assert (Hsl : slice (rm_address img) (rm_size img) ram = Some bs).
  { rewrite <- Hsl0. eapply slice_splice_disjoint; [done|]. unfold disjoint_ranges. lia. }
  destruct (held_ram _ _ _ _ _ _ _ _ _ _ _ H1) as (Hcpu & Hram & Hheap).
  destruct (Hboot _ _ _ _ _ Hcpu Hram Hheap Hsl) as (j & k' & h' & cpu & ram1 & Hj & Hr & Hcpu1 & Hram1 & Hb & Hnr & Hrdx & Ht1).
  destruct (run_to img bb bs cpu0 c1 vm v b a host codesz memsz (whitelist_of vconfig) (fuel - j) j _ _ _ _ _ Hr w1 _ ram ram1 H1 eq_refl eq_refl Hram1 Hba Hf1 Ha1)
    as (x & cpu' & Hcpu' & Hx & Hfx & Hax & Hloop).
  rewrite Hcpu1 in Hcpu'. injection Hcpu' as <-. replace (j + (fuel - j))%nat with fuel in Hloop by lia. rewrite Ht in Ht1.
  assert (Hmode : g_use_snapshots = true \/ g_use_snapshots = false) by (destruct g_use_snapshots; auto). destruct Hmode as [Hsn|Hsn].
  - assert (Hp : c_pool c1 = []) by (specialize (Hone Hsn); rewrite Hp1; destruct (c_pool c) as [|? []]; cbn in *; (done || lia)).
    destruct (snapshot_held img bb bs cpu0 codesz memsz (whitelist_of vconfig) (with_w x w1) c1 vm v cpu b ram1 a host Hsn Hx Hp Hnr ltac:(lia) Hba Hfx Hax)
      as (w2 & d & E2 & H2 & Hf2 & Ha2).
    destruct (main_ok _ _ _ _ codesz memsz (whitelist_of vconfig) (fuel - j) w2 c1 vm v cpu b ram1 ram1 a host host' host
      Hrun ltac:(lia) H2 Hb eq_refl eq_refl Ht1 Hba Hf2 Ha2) as (y & cpu3 & ram3 & E3 & H3 & Ht3 & Hf3 & Ha3).
    rewrite (bbind_ok _ _ _ _ _ E2), E3 in Hloop. pose proof (held_size _ _ _ _ _ _ _ _ _ _ _ H3). pose proof (held_size _ _ _ _ _ _ _ _ _ _ _ H2).
    destruct (call_ends _ _ _ _ fuel codesz memsz a vconfig w w1 _ c1 vm v cpu3 b ram3 host host' E1 Hloop H3 Ht3 Hba Hf3 Ha3 Hlen ltac:(lia))
      as (c' & w' & Ew & Hrd' & Ha' & _ & Hm').
    exists c', w'. split; [done|]. split; [|done]. right. split; [done|]. exists d, cpu, ram1. split; [done|]. split; [lia|]. split; [congruence|done].
  - destruct (no_snapshot_held codesz memsz (whitelist_of vconfig) (with_w x w1) c1 vm v cpu b ram1 Hsn Hx Hnr) as (y & E2 & H2 & Eh & Ev).
    assert (Hf2 : foreign bb (b_w (with_w y (with_w x w1))) a) by (destruct Hfx; split; [done|cbn; by rewrite Ev]).
    assert (Ha2 : w_heap (b_w (with_w y (with_w x w1))) !! a = Some host) by (cbn; by rewrite Eh).
    destruct (main_ok _ _ _ _ codesz memsz (whitelist_of vconfig) (fuel - j) _ c1 vm v cpu b ram1 ram1 a host host' host
      Hrun ltac:(lia) H2 Hb eq_refl eq_refl Ht1 Hba Hf2 Ha2) as (z & cpu3 & ram3 & E3 & H3 & Ht3 & Hf3 & Ha3).
    rewrite (bbind_ok _ _ _ _ _ E2), E3 in Hloop. pose proof (held_size _ _ _ _ _ _ _ _ _ _ _ H3). pose proof (held_size _ _ _ _ _ _ _ _ _ _ _ H2).
    destruct (call_ends _ _ _ _ fuel codesz memsz a vconfig w w1 _ c1 vm v cpu3 b ram3 host host' E1 Hloop H3 Ht3 Hba Hf3 Ha3 Hlen ltac:(lia))
      as (c' & w' & Ew & Hrd' & Ha' & _ & _).
    exists c', w'. split; [done|]. split; [|done]. left. split; [done|]. by rewrite Hsn.
Qed.

(** A call after it: the guest goes on from the snapshot. *)
Lemma warm_call fuel codesz memsz a vconfig w c d cpu ramS host host' :
  g_use_snapshots = true -> runs_image host host' -> (exits + exits <= fuel)%nat -> booted cpu ramS ->
  n <= rdx cpu.1.1 <= blen ramS -> blen ramS = c_memsz c ->
  ready (MkResetMemory (Ptr d 0) 0 (rdx cpu.1.1)) d (take (Z.to_nat (rdx cpu.1.1)) ramS) (resumed cpu) w c ->
  foreign d (b_w w) a -> w_heap (b_w w) !! a = Some host -> blen host = n -> 0 < n ->
  returns fuel codesz memsz a vconfig w host'.
Proof.
  intros Hsn Hrun Hfuel Hb Hrdx Hms Hrd Hfor Ha Hlen Hn.
  destruct (start_ok _ _ _ _ codesz memsz a n w c host Hrd Hfor Ha Hlen ltac:(cbn; lia))
    as (vm & v & b & ram0 & ram & c1 & w1 & E1 & H1 & Hsl0 & Hsp & Hba & Ha1 & Hf1 & Hp1 & Hm1). cbn in Hsl0.
  destruct (splice_front _ _ _ Hsp Hlen) as (Ht & Hd & Hl). pose proof (held_size _ _ _ _ _ _ _ _ _ _ _ H1) as Hs1.
  assert (Ee : entry_cpu (resumed cpu) = resumed cpu) by (unfold entry_cpu; destruct (resumed cpu) as [[? ?] ?]; by rewrite Hsn).
  rewrite Ee in H1.
  assert (Hagree : drop (Z.to_nat n) (take (Z.to_nat (rdx cpu.1.1)) ram) = drop (Z.to_nat n) (take (Z.to_nat (rdx cpu.1.1)) ramS)).
  { apply slice_Some in Hsl0 as [_ Hsl]. change (Z.to_nat 0) with 0%nat in Hsl. rewrite drop_0 in Hsl. rewrite Hsl.
    by rewrite !skipn_firstn_comm, Hd. }
  destruct (main_ok _ _ _ _ codesz memsz (whitelist_of vconfig) fuel w1 c1 vm v cpu b ramS ram a host host' host
    Hrun ltac:(lia) H1 Hb ltac:(unfold blen in *; lia) Hagree Ht Hba Hf1 Ha1) as (y & cpu3 & ram3 & E3 & H3 & Ht3 & Hf3 & Ha3).
  pose proof (held_size _ _ _ _ _ _ _ _ _ _ _ H3).
  destruct (call_ends _ _ _ _ fuel codesz memsz a vconfig w w1 _ c1 vm v cpu3 b ram3 host host' E1 E3 H3 Ht3 Hba Hf3 Ha3 Hlen ltac:(lia))
    as (c' & w' & Ew & Hrd' & Ha' & _ & Hm').
  exists c', w'. split; [done|]. split; [|done]. right. split; [done|]. exists d, cpu, ramS. split; [done|]. split; [lia|]. split; [congruence|done].
Qed.
End Image.
End Runtime.

(** ** Types *)

(** The values of a type; an integer is its unsigned value. *)
Definition has_type (t : ty) (v : Z) : Prop :=
  match t with TInt bits => 0 <= v < 2 ^ bits | TPtr _ => in_u 64 v end.

Definition struct_typed (t : list ty) (fields : list Z) : Prop := Forall2 has_type t fields.

Section Typing.
Context (params : list ty) (ret : ty).

(** A body that reads and writes through its pointers at their types. *)
Inductive typed_body : body -> Prop :=
| typed_ret v : has_type ret v -> typed_body (Ret v)
| typed_load i t k : params !! i = Some (TPtr t) -> (forall v, has_type t v -> typed_body (k v)) -> typed_body (Load i k)
| typed_store i t v k : params !! i = Some (TPtr t) -> has_type t v -> typed_body k -> typed_body (Store i v k).

(** A function of these parameters: typed whenever its scalars are. *)
Definition typed_function (f : list Z -> body) : Prop := forall xs,
  (forall i bits v, params !! i = Some (TInt bits) -> xs !! i = Some v -> has_type (TInt bits) v) -> typed_body (f xs).

(** The arguments of a call: scalars of their types and pointers to cells of theirs. *)
Definition argument_typed (mem : gmap Z Z) (p : ty) (a : argument) : Prop :=
  match p, a with
  | TInt bits, Scalar v => has_type (TInt bits) v
  | TPtr t, Pointer c => exists v, mem !! c = Some v /\ has_type t v
  | _, _ => False
  end.

Abbreviation t := (create_argument_struct params ret true).

Lemma field_type i p : params !! i = Some p -> t !! i = Some (match p with TPtr e => e | _ => p end).
Proof.
  intros H. unfold create_argument_struct. rewrite lookup_app_l by (rewrite length_map; by eapply lookup_lt_Some).
  by rewrite list_lookup_fmap, H.
Qed.

Lemma result_type : t !! length params = Some ret.
Proof. unfold create_argument_struct. rewrite lookup_app_r by (by rewrite length_map). by rewrite length_map, Nat.sub_diag. Qed.

Lemma typed_field fields i p : struct_typed t fields -> t !! i = Some p -> exists v, fields !! i = Some v /\ has_type p v.
Proof. intros H Hi. destruct (Forall2_lookup_l _ _ _ _ _ H Hi) as (v & ? & ?). by exists v. Qed.

Lemma typed_insert fields i p v : struct_typed t fields -> t !! i = Some p -> has_type p v -> struct_typed t (<[i := v]> fields).
Proof.
  intros H Hi Hv. apply Forall2_same_length_lookup. split; [by rewrite length_insert, <- (Forall2_length _ _ _ H)|].
  intros j x y Hx Hy. apply list_lookup_insert_Some in Hy as [(-> & -> & _)|(_ & Hy)]; [congruence|].
  by eapply (Forall2_lookup_lr _ _ _ _ _ _ H).
Qed.

(** A typed body runs, and keeps the structure typed. *)
Lemma typed_run args p : Forall2 fits params args -> typed_body p -> forall fields, struct_typed t fields ->
  exists fields' r, run_in_virtine args p fields = Some (fields', r) /\ struct_typed t fields' /\ has_type ret r.
Proof.
  intros Hfit. induction 1 as [v Hv|i e k Hi _ IH|i e v k Hi Hv _ IH]; intros fields Hs; cbn.
  - by exists fields, v.
  - destruct (Forall2_lookup_l _ _ _ _ _ Hfit Hi) as (a & Ha & Hfa). destruct a as [|c]; [done|]. rewrite Ha.
    destruct (typed_field _ _ _ Hs (field_type _ _ Hi)) as (v & -> & Hv). by apply IH.
  - destruct (Forall2_lookup_l _ _ _ _ _ Hfit Hi) as (a & Ha & Hfa). destruct a as [|c]; [done|]. rewrite Ha.
    destruct (typed_field _ _ _ Hs (field_type _ _ Hi)) as (v' & -> & _). apply IH. eapply typed_insert; [done|by apply field_type|done].
Qed.

Lemma typed_main args f fields : typed_function f -> Forall2 fits params args -> struct_typed t fields ->
  exists fields', virtine_main args f fields = Some fields' /\ struct_typed t fields'.
Proof.
  intros Hf Hfit Hs. unfold virtine_main.
  destruct (typed_run args (f (scalars args fields)) Hfit) with (fields := fields) as (fields' & r & -> & Hs' & Hr); [|done|].
  - apply Hf. intros i bits v Hi Hv. unfold scalars in Hv. rewrite list_lookup_imap in Hv.
    destruct (typed_field _ _ _ Hs (field_type _ _ Hi)) as (v' & Hv' & Ht).
    destruct (args !! i) as [[x|c]|] eqn:Ea; cbn in Hv; [| |done].
    + injection Hv as <-. by rewrite (list_lookup_total_correct _ _ _ Hv').
    + pose proof (Forall2_lookup_lr _ _ _ _ _ _ Hfit Hi Ea). done.
  - eexists. split; [reflexivity|]. eapply typed_insert; [done| |done]. rewrite <- (fits_length _ _ Hfit). apply result_type.
Qed.

Lemma typed_fits mem args : Forall2 (argument_typed mem) params args -> Forall2 fits params args.
Proof. intros H. eapply Forall2_impl; [exact H|]. by intros [] []. Qed.

Lemma typed_pack mem args undef : Forall2 (argument_typed mem) params args -> has_type ret undef ->
  exists fs, pack args mem = Some fs /\ struct_typed t (fs ++ [undef]).
Proof.
  intros H Hu. enough (Hp : exists fs, pack args mem = Some fs /\ Forall2 has_type (map (fun p => match p with TPtr e => e | _ => p end) params) fs).
  { destruct Hp as (fs & Hp & Hfs). exists fs. split; [done|]. apply Forall2_app; [exact Hfs|]. by constructor. }
  induction H as [|p a ps args Ha _ (fs & Hp & Hfs)]; [by exists []|]. cbn. rewrite Hp.
  destruct p as [bits|e], a as [v|c]; cbn in Ha; try done.
  - exists (v :: fs). split; [done|]. by constructor.
  - destruct Ha as (v & -> & Hv). exists (v :: fs). split; [done|]. by constructor.
Qed.

(** Some arguments of the parameters' types. *)
Definition dummy_arguments : list argument := map (fun p => match p with TInt _ => Scalar 0 | TPtr _ => Pointer 0 end) params.

Lemma dummy_fits : Forall2 fits params dummy_arguments.
Proof. unfold dummy_arguments. clear ret. induction params as [|[] ps IH]; by constructor. Qed.

Lemma image_typed sizeof undef func f fields : typed_function f -> struct_typed t fields ->
  exists fields', run_image sizeof undef params ret func f fields = Some fields' /\ struct_typed t fields'.
Proof.
  intros Hf Hs. destruct (typed_main dummy_arguments f fields Hf dummy_fits Hs) as (fields' & Hm & Hs').
  exists fields'. split; [|done]. rewrite (create_main_correct _ _ _ _ _ _ dummy_arguments); [done|apply dummy_fits|].
  rewrite <- (Forall2_length _ _ _ Hs). apply argument_struct_length.
Qed.

(** C13: the image of a typed function is type safe: started on an argument structure
    whose fields have the types the pass gave them, the instructions of __virtine_main
    run to their end and leave such a structure. *)
Theorem image_type_safe sizeof undef func f fields : typed_function f -> struct_typed t fields ->
  exists fields', run_image sizeof undef params ret func f fields = Some fields' /\ struct_typed t fields'.
Proof. apply image_typed. Qed.
End Typing.

(** ** Layout *)

(** How the compiler lays a structure out, in the host program and in the image. *)
Class Layout : Type := {
  struct_size : list ty -> Z;
  encode : list ty -> list Z -> list Z;
  decode : list ty -> list Z -> list Z
}.

Class LayoutLaws `{Layout} : Prop := {
  law_struct_size : forall t, t <> [] -> 0 < struct_size t;
  law_encode_size : forall t fields, struct_typed t fields -> blen (encode t fields) = struct_size t;
  law_decode_encode : forall t fields, struct_typed t fields -> decode t (encode t fields) = fields
}.

(** ** The call *)

Section Call.
Context `{Hst : Host} {Hlaws : HostLaws} `{OS : HostOS} `{Lay : Layout} {Llaws : LayoutLaws}.
Context (ub_shift : Z -> Z -> Z) (g_use_snapshots : bool) (fuel : nat).
(** The addresses of the globals, and the configurations. *)
Context (address : string -> ptr) (config_at : val -> option virtine_config).
Context (params : list ty) (ret : ty) (undef : Z).

Abbreviation t := (create_argument_struct params ret true).

(** wasp_run_virtine on a structure of the stub's frame. *)
Definition runtime_call (code : ptr) (codesz memsz argsz : Z) (vconfig : option virtine_config) (t : list ty) (fields : list Z)
    : M bworld (list Z) :=
  a ← hv (alloc_block (encode t fields));
  wasp_run_virtine ub_shift g_use_snapshots fuel code codesz memsz (Ptr a 0) argsz vconfig;;
  bytes ← hv (read_bytes (Ptr a 0) argsz);
  mret (decode t bytes).

(** The calls of the stub, when the runtime is in the state [w]. *)
Definition runtime_host_call (w : bworld) (wasp_run_func : string) (callee : string) (argv : list val) (s : state) : option (val * state) :=
  if decide (callee = wasp_run_func) then
    match argv with
    | [VSym c; VInt codesz; VInt memsz; VStruct o; VInt argsz; config] =>
        '(t, fields) ← objects s !! o;
        match runtime_call (address c) codesz memsz argsz (config_at config) t fields w with
        | Ok (fields, _) => Some (VVoid, State (Emit.cells s) (<[o := (t, fields)]> (objects s)))
        | Err _ => None
        end
    | _ => None
    end
  else None.

(** The program's call of the function, now the stub. *)
Definition call_virtine (w : bworld) (wasp_run_func code_global : string) (code_size : Z) (config : option string)
    (args : list argument) (mem : gmap Z Z) : option (gmap Z Z * Z) :=
  run_stub_with struct_size undef params ret (runtime_host_call w wasp_run_func) wasp_run_func code_global code_size config args mem.

Context (img : ResetMemory) (bb : Z) (bs : list Z) (cpu0 : kvm_regs * sregs * fpu).
Context (exits : nat) (booted : kvm_regs * sregs * fpu -> list Z -> Prop).

(** The image runs __virtine_main of [f], after it has booted. *)
Definition image_of (func : string) (f : list Z -> body) : Prop :=
  boots_image g_use_snapshots img bs cpu0 (struct_size t) exits booted /\
  forall fields fields', struct_typed t fields -> run_image struct_size undef params ret func f fields = Some fields' ->
    runs_image g_use_snapshots (struct_size t) exits booted (encode t fields) (encode t fields').

Lemma runtime_call_ok code codesz memsz vconfig w c fields fields' : (exits + exits <= fuel)%nat ->
  between_calls g_use_snapshots code img bb bs cpu0 (struct_size t) booted w c -> struct_size t <= rm_address img ->
  struct_typed t fields -> struct_typed t fields' ->
  boots_image g_use_snapshots img bs cpu0 (struct_size t) exits booted ->
  runs_image g_use_snapshots (struct_size t) exits booted (encode t fields) (encode t fields') ->
  exists c' w', runtime_call code codesz memsz (struct_size t) vconfig t fields w = Ok (fields', w') /\
    between_calls g_use_snapshots code img bb bs cpu0 (struct_size t) booted w' c'.
Proof.
  intros Hfuel Hrd Hfit Ht Ht' Hboot Hrun. set (a := w_next (b_w w)).
  assert (Hpos : 0 < struct_size t) by (apply law_struct_size; unfold create_argument_struct; by destruct (map _ params)).
  pose proof (law_encode_size _ _ Ht) as Hlen. pose proof (law_encode_size _ _ Ht') as Hlen'.
  assert (Hcall : exists x c' w', alloc_block (encode t fields) (b_w w) = Ok (a, x) /\
    wasp_run_virtine ub_shift g_use_snapshots fuel code codesz memsz (Ptr a 0) (struct_size t) vconfig (with_w x w) = Ok (tt, w') /\
    between_calls g_use_snapshots code img bb bs cpu0 (struct_size t) booted w' c' /\ w_heap (b_w w') !! a = Some (encode t fields')).
  { destruct Hrd as [[Hrd Hone]|(Hsn & d & cpu & ramS & Hb & Hrdx & Hms & Hrd)];
      destruct (alloc_ready _ _ _ _ _ w c (encode t fields) Hrd) as (x & Ea & Hx & Hfor & Ha); exists x.
    - destruct (cold_call ub_shift g_use_snapshots code img bb bs cpu0 (struct_size t) exits booted fuel codesz memsz a vconfig (with_w x w) c _ _
        Hboot Hrun Hfuel (conj Hx Hone) Hfor Ha Hlen ltac:(lia)) as (c' & w' & ? & ? & ?). by exists c', w'.
    - destruct (warm_call ub_shift g_use_snapshots code img bb bs cpu0 (struct_size t) exits booted fuel codesz memsz a vconfig (with_w x w) c d cpu ramS _ _
        Hsn Hrun Hfuel Hb Hrdx Hms Hx Hfor Ha Hlen Hpos) as (c' & w' & ? & ? & ?). by exists c', w'. }
  destruct Hcall as (x & c' & w' & Ea & Ew & Hrd' & Ha').
  exists c', w'. split; [|done]. unfold runtime_call. rewrite (bbind_ok _ _ _ _ _ (hv_ok _ _ _ _ Ea)), (bbind_ok _ _ _ _ _ Ew).
  assert (Hread : read_bytes (Ptr a 0) (struct_size t) (b_w w') = Ok (encode t fields', b_w w')).
  { unfold read_bytes. rewrite (proj2 (Z.eqb_neq _ 0)), Ha' by lia. rewrite slice_is_Some by lia.
    do 2 f_equal. change (Z.to_nat 0) with 0%nat. rewrite drop_0. apply take_ge. unfold blen in Hlen'. lia. }
  rewrite (bbind_ok _ _ _ _ _ (hv_pure _ _ _ Hread)). by rewrite law_decode_encode.
Qed.

End Call.

(** ** A call on a host that runs the image *)

(** A packed layout: each field in as many bytes as hold its values. *)
Fixpoint le_bytes (n : nat) (v : Z) : list Z := match n with O => [] | S n => v mod 256 :: le_bytes n (v / 256) end.
Fixpoint le_value (l : list Z) : Z := match l with [] => 0 | b :: l => b + 256 * le_value l end.

Lemma le_value_bytes n v : 0 <= v < 256 ^ Z.of_nat n -> le_value (le_bytes n v) = v.
Proof.
  revert v. induction n as [|n IH]; intros v Hv; [cbn in *; lia|]. cbn [le_bytes le_value].
  rewrite Nat2Z.inj_succ, Z.pow_succ_r in Hv by lia. rewrite IH by (split; [apply Z.div_pos; lia|apply Z.div_lt_upper_bound; lia]).
  pose proof (Z.div_mod v 256). lia.
Qed.

Lemma le_bytes_length n v : length (le_bytes n v) = n.
Proof. revert v. induction n as [|n IH]; intros v; cbn; [done|]. by rewrite IH. Qed.

Definition field_bytes (t : ty) : nat := match t with TInt bits => S (Z.to_nat (bits / 8)) | TPtr _ => 8 end.

Fixpoint packed_encode (t : list ty) (fields : list Z) : list Z :=
  match t, fields with p :: t, v :: fields => le_bytes (field_bytes p) v ++ packed_encode t fields | _, _ => [] end.
Fixpoint packed_decode (t : list ty) (bytes : list Z) : list Z :=
  match t with [] => [] | p :: t => le_value (take (field_bytes p) bytes) :: packed_decode t (drop (field_bytes p) bytes) end.

#[local] Instance packed_layout : Layout := {|
  struct_size := fun t => Z.of_nat (sum_list (field_bytes <$> t));
  encode := packed_encode;
  decode := packed_decode
|}.

Lemma has_type_bytes p v : has_type p v -> 0 <= v < 256 ^ Z.of_nat (field_bytes p).
Proof.
  change 256 with (2 ^ 8). rewrite <- Z.pow_mul_r by lia. destruct p as [bits|e]; cbn [has_type field_bytes].
  - intros Hv. destruct (Z.le_gt_cases 0 bits); [|rewrite Z.pow_neg_r in Hv by lia; lia]. split; [lia|].
    eapply Z.lt_le_trans; [apply Hv|]. apply Z.pow_le_mono_r; [lia|]. pose proof (Z.div_mod bits 8). pose proof (Z.mod_pos_bound bits 8).
    rewrite Nat2Z.inj_succ, Z2Nat.id by (apply Z.div_pos; lia). lia.
  - done.
Qed.

#[local] Instance packed_laws : LayoutLaws.
Proof.
  split; cbn.
  - intros [|p t] Hne; [done|]. destruct p; cbn; lia.
  - induction 1 as [|p v t fields Hv _ IH]; [done|]. cbn. unfold blen in *. rewrite length_app, le_bytes_length. lia.
  - induction 1 as [|p v t fields Hv _ IH]; [done|]. cbn.
    rewrite take_app_length' by (symmetry; apply le_bytes_length). rewrite drop_app_length' by (symmetry; apply le_bytes_length).
    rewrite le_value_bytes by (by apply has_type_bytes). by rewrite IH.
Qed.

(** What the image does to the memory. *)
Definition on_memory (n : nat) (main : list Z -> list Z) (ram : list Z) : list Z :=
  let out := main (take n ram) in
  if decide (length out = length (take n ram)) then out ++ drop n ram else ram.

Lemma on_memory_length n main ram : length (on_memory n main ram) = length ram.
Proof. unfold on_memory. case_decide as E; [|done]. rewrite length_app, E, <- length_app. by rewrite take_drop. Qed.

(** A kernel whose guests boot, to a snapshot of the first [size] bytes, and then run
    the function to the exit. *)
Definition snapshot_regs (size : Z) : kvm_regs := hcall_regs 0xFF 0 size 0.

Definition image_run (n : nat) (size : Z) (main : list Z -> list Z) (k : script_kernel) (fd : Z) (h : heap) : run_result * script_kernel * heap :=
  if match sk_cpu k fd with Some (r, _, _) => rdi r =? 0xFF | None => false end
  then (RunResult 0 0 KVM_EXIT_IO 0xFA, k, match sk_ram k fd with Some b => alter (on_memory n main) b h | None => h end)
  else (RunResult 0 0 KVM_EXIT_IO 0xFF, sk_update (fun '(_, s, f) => (snapshot_regs size, s, f)) k fd, h).

Definition image_host (n : nat) (size : Z) (main : list Z -> list Z) : Host := {|
  kst := script_kernel; sregs := Z; fpu := Z;
  set_cs_base := @set_cs_base script_host;
  k_open_kvm := @k_open_kvm script_host;
  k_api_version := @k_api_version script_host;
  k_check_user_memory := @k_check_user_memory script_host;
  k_create_vm := @k_create_vm script_host;
  k_create_vcpu := @k_create_vcpu script_host;
  k_supported_cpuid := @k_supported_cpuid script_host;
  k_set_cpuid2 := @k_set_cpuid2 script_host;
  k_close := @k_close script_host;
  k_cpu := @k_cpu script_host;
  k_set_regs := @k_set_regs script_host;
  k_set_sregs := @k_set_sregs script_host;
  k_set_fpu := @k_set_fpu script_host;
  k_set_memory := @k_set_memory script_host;
  k_vm_of := @k_vm_of script_host;
  k_map := @k_map script_host;
  k_run := image_run n size main;
  k_mmap_ok := @k_mmap_ok script_host;
  k_file := @k_file script_host;
  cpuid0 := @cpuid0 script_host
|}.

Lemma image_host_laws n size main : HostLaws (H := image_host n size main).
Proof.
  pose proof script_laws as S. split; try (by apply S).
  - intros k fd h rr k' h' E. cbn in E. unfold image_run in E.
    destruct (match sk_cpu k fd with Some (r, _, _) => _ | None => _ end); injection E as <- <- <-; [by repeat split|].
    split; [done|]. split; cbn; [intros fd' Hne; by rewrite sk_update_cpu, decide_False|].
    intros [[[r s] f] Hc]. rewrite sk_update_cpu, decide_True, Hc by done. by eexists.
  - intros k fd h rr k' h' E. cbn in E. unfold image_run in E.
    destruct (match sk_cpu k fd with Some (r, _, _) => _ | None => _ end); injection E as <- <- <-; [|by split; eauto].
    unfold k_ram. cbn. unfold sk_ram.
    destruct (sk_vm_of k !! fd) as [vm|]; [destruct (sk_map k !! vm) as [bm|]|]; [|by split; eauto..]. split.
    + intros b Hb. rewrite lookup_alter_ne; [done|congruence].
    + intros b l Hl. rewrite lookup_alter_if. case_decide as E; [subst b|by eauto].
      rewrite Hl. cbn. eexists. split; [done|]. apply on_memory_length.
Qed.

(** swap_add on 32-bit cells, with the sums cut to 32 bits. *)
Definition swap_params : list ty := [TPtr (TInt 32); TPtr (TInt 32); TInt 32].
Definition swap_wrap (scalars : list Z) : body :=
  let n := nth 2 scalars 0 in
  Load 0 (fun x => Load 1 (fun y => Store 0 ((y + n) mod 2 ^ 32) (Store 1 ((x + n) mod 2 ^ 32) (Ret x)))).

Lemma swap_typed : typed_function swap_params (TInt 32) swap_wrap.
Proof.
  intros xs _. eapply typed_load; [done|]. intros x Hx. eapply typed_load; [done|]. intros y Hy.
  eapply typed_store; [done|cbn; apply Z.mod_pos_bound; lia|]. eapply typed_store; [done|cbn; apply Z.mod_pos_bound; lia|]. by apply typed_ret.
Qed.

Definition swap_struct : list ty := create_argument_struct swap_params (TInt 32) true.
Definition swap_main (bytes : list Z) : list Z :=
  match run_image struct_size 0 swap_params (TInt 32) "swap" swap_wrap (decode swap_struct bytes) with
  | Some fields => encode swap_struct fields
  | None => bytes
  end.

#[local] Instance swap_host : Host := image_host 20 0x42 swap_main.
#[local] Instance swap_host_laws : HostLaws := image_host_laws 20 0x42 swap_main.

Definition swap_image : ResetMemory := MkResetMemory (Ptr 1 0) 0x40 2.
Definition swap_code : list Z := [0xE6; 0xFA].
Definition swap_world0 : world := World (booted []) (-1) {[1 := swap_code]} 2 ∅ 1 ∅ 1 [].
Definition swap_cache0 : Cache := set_binary (Ptr 1 0) 2 0x40 (new_cache 4096).

Lemma swap_pool0 : pool_inv swap_image 1 swap_code swap_world0 swap_cache0 [].
Proof.
  split.
  - cbn. split; [lia|reflexivity].
  - done.
  - split; [reflexivity|]. split; [done|]. split; [done|]. cbn. lia.
  - split; cbn; [|done]. intros b [l Hb]. apply lookup_singleton_Some in Hb as [<- _]. lia.
  - by split; intros i [? ?].
  - constructor.
  - intros i j vi vj Hi. cbn in Hi. set_solver.
  - done.
Qed.

Section FirstCall.
Context (n : nat) (size : Z) (main : list Z -> list Z).
#[local] Instance any_host : Host := image_host n size main.
#[local] Instance any_host_laws : HostLaws := image_host_laws n size main.

(** The pool before any call: empty; the first get() makes a virtine and the reset
    state, whatever else is on the heap. *)
Definition first_world (h : heap) (next : Z) (vs : gmap Z Virtine) (nv : Z) (rs : gmap Z ResetState) (nr : Z) : world :=
  World (ScriptKernel 6 {[5 := (boot_regs, 7, 8)]} {[5 := 4]} ∅ []) 3 h next vs nv rs nr [].
Definition first_reset (regions : list ResetMemory) : ResetState (Hst := any_host) := @MkResetState any_host boot_regs 7 8 regions.
Definition first_virtine (mask : option Z) : Virtine := MkVirtine None 0 3 4 5 (Some (first_reset [])) mask.

Lemma first_get h nx : fresh_ok (World (booted []) (-1) h nx ∅ 1 ∅ 1 []) -> h !! 1 = Some swap_code ->
  exists vm c' x r s, get swap_cache0 (World (booted []) (-1) h nx ∅ 1 ∅ 1 []) = Ok ((vm, c'), x) /\
    c_reset c' = Some r /\ w_resets x !! r = Some s /\ (rs_regs s, rs_sregs s, rs_fpu s) = (boot_regs, 7, 8).
Proof.
  intros [Hf _] Hh. set (w := World _ _ _ _ _ _ _ _ _) in *.
  set (c0 := with_counts 0 1 (with_locked true swap_cache0)). set (c1 := with_creset (Some 1) c0).
  set (wa := first_world h nx {[1 := first_virtine None]} 2 ∅ 1).
  set (wb := first_world h nx {[1 := first_virtine None]} 2 {[1 := first_reset [swap_image]]} 2).
  set (wc := first_world h nx {[1 := first_virtine (Some 1)]} 2 {[1 := first_reset [swap_image]]} 2).
  assert (Ea : new_virtine w = Ok (1, wa)) by (vm_cast_no_check (eq_refl (A := res _) (new_virtine w))).
  assert (Eb : init_reset 1 c0 wa = Ok (c1, wb)) by (vm_cast_no_check (eq_refl (A := res _) (init_reset 1 c0 wa))).
  assert (Ec : set_reset_mask 1 (c_reset c1) wb = Ok (tt, wc)) by (vm_cast_no_check (eq_refl (A := res _) (set_reset_mask 1 (c_reset c1) wb))).
  assert (Hlt : 1 < nx) by (apply Hf; by eexists).
  assert (Hfc : fresh_ok wc).
  { split; [exact Hf|]. intros i v b Hv. cbn in Hv. apply lookup_singleton_Some in Hv as [_ <-]. done. }
  assert (Ed : allocate_memory 1 (c_memsz c1) wc = Ok (true, allocated wc 1 (first_virtine (Some 1)) 4096)) by (by apply allocate_memory_ok).
  pose proof (allocated_live wc 1 (first_virtine (Some 1)) (boot_regs, 7, 8) 4096 Hfc eq_refl eq_refl ltac:(lia)) as L.
  set (wd := allocated _ _ _ _) in *. 
  assert (Him : region_bytes (w_heap wd) swap_image = Some swap_code).
  { unfold region_bytes. cbn. by rewrite lookup_insert_ne, Hh by lia. }
  assert (Ho : overlay (w_heap wd) [swap_image] (replicate (Z.to_nat 4096) 0) = splice 0x40 swap_code (replicate (Z.to_nat 4096) 0)) by (by apply overlay_image).
  destruct (splice 0x40 swap_code (replicate (Z.to_nat 4096) 0)) as [ram|] eqn:Es; [|by vm_compute in Es].
  pose proof (reset_eq wd 1 _ _ _ _ (first_reset [swap_image]) ram L eq_refl) as Ee.
  specialize (Ee ltac:(constructor; [cbn; lia|constructor]) Ho).
  match type of Ee with _ = Ok (_, ?x) => exists 1, (unlock c1), x, 1, (first_reset [swap_image]) end.
  split; [|split; [reflexivity|split; reflexivity]].
  unfold get, lock, get_cache. unfold_M. cbn [c_locked swap_cache0 set_binary new_cache with_locked c_pool].
  unfold allocate. unfold_M. rewrite Ea. match goal with |- context [init_reset 1 ?c wa] => change c with c0 end. rewrite Eb, Ec, Ed, Ee. reflexivity.
Qed.
End FirstCall.

Definition swap_cpu : kvm_regs * Z * Z := (boot_regs, 7, 8).
Definition swap_bworld : bworld := BWorld swap_world0 {[Ptr 1 0 := swap_cache0]} false tt [].

Definition swap_booted (cpu : kvm_regs * Z * Z) (ram : list Z) : Prop := cpu.1.1 = snapshot_regs 0x42.

Lemma swap_ready : between_calls true (Ptr 1 0) swap_image 1 swap_code swap_cpu 20 swap_booted swap_bworld swap_cache0.
Proof.
  left. split; [|cbn; lia]. split; [reflexivity|reflexivity|exact swap_pool0|reflexivity|]. intros y [Hh Hf Ey].
  rewrite Ey in Hf |- *. apply (first_get 20 0x42 swap_main); [exact Hf|]. apply (lookup_weaken _ _ _ _ (eq_refl : w_heap swap_world0 !! 1 = Some swap_code) Hh).
Qed.

Lemma swap_boots : boots_image true swap_image swap_code swap_cpu 20 1 swap_booted.
Proof.
  intros k fd h b ram Hcpu Hram Hb Hsl. apply slice_Some in Hsl as [(_ & _ & Hfit) _]. cbn in Hfit.
  change (sk_cpu k fd = Some swap_cpu) in Hcpu.
  assert (Er : k_run k fd h = (RunResult 0 0 KVM_EXIT_IO 0xFF, sk_update (fun '(_, s, f) => (snapshot_regs 0x42, s, f)) k fd, h)).
  { cbn. unfold image_run. by rewrite Hcpu. }
  exists 1%nat, (sk_update (fun '(_, s, f) => (snapshot_regs 0x42, s, f)) k fd), h, (snapshot_regs 0x42, 7, 8), ram.
  split; [done|]. split; [exact (runs_exit fd k h _ _ _ Er)|]. split; [cbn; rewrite sk_update_cpu, decide_True, Hcpu by done; done|].
  split; [done|]. split; [done|]. split; [done|]. split; [cbn; lia|done].
Qed.

Lemma swap_image_of : image_of true swap_params (TInt 32) 0 swap_image swap_code swap_cpu 1 swap_booted "swap" swap_wrap.
Proof.
  split; [exact swap_boots|].
  intros fields fields' Ht Hrun k fd h b cpu ramS ram Hb Hcpu Hram Hh _ _ Htake.
  destruct (image_typed swap_params (TInt 32) struct_size 0 "swap" swap_wrap fields swap_typed Ht) as (x & Hx & Ht').
  rewrite Hrun in Hx. injection Hx as <-.
  destruct cpu as [[r s] f]. unfold swap_booted in Hb. cbn [fst] in Hb. subst r. change (sk_cpu k fd = Some (set_rip 0x8002 (snapshot_regs 0x42), s, f)) in Hcpu.
  change (sk_ram k fd = Some b) in Hram.
  assert (Er : k_run k fd h = (RunResult 0 0 KVM_EXIT_IO 0xFA, k, alter (on_memory 20 swap_main) b h)).
  { cbn. unfold image_run. by rewrite Hcpu, Hram. }
  exists 1%nat, k, (alter (on_memory 20 swap_main) b h), (on_memory 20 swap_main ram).
  split; [done|]. split; [exact (runs_exit fd k h _ _ _ Er)|]. split; [by rewrite lookup_alter_eq, Hh|].
  pose proof (law_encode_size _ _ Ht) as Hl. pose proof (law_encode_size _ _ Ht') as Hl'.
  change (struct_size (create_argument_struct swap_params (TInt 32) true)) with 20 in *. change (Z.to_nat 20) with 20%nat in *.
  assert (Hm : swap_main (take 20 ram) = encode swap_struct fields').
  { unfold swap_main. rewrite Htake. unfold swap_struct. rewrite law_decode_encode by done. by rewrite Hrun. }
  unfold on_memory. rewrite Hm, Htake. unfold blen, swap_struct in *. rewrite decide_True by lia. rewrite take_app_le, take_ge by lia. done.
Qed.

Definition swap_cells : gmap Z Z := {[10 := 1; 20 := 2]}.
(** One call after the other: the first boots, the second goes on from the snapshot. *)
Definition swap_call (w : bworld) (cells : gmap Z Z) : option (gmap Z Z * Z) :=
  call_virtine no_shift true 2 (fun _ => Ptr 1 0) (fun _ => None) swap_params (TInt 32) 0 w
    "wasp_run_virtine" "__virtine_swap_code" 2 None [Pointer 10; Pointer 20; Scalar 5] cells.

Lemma swap_arguments x y : 0 <= x < 2 ^ 32 -> 0 <= y < 2 ^ 32 ->
  Forall2 (argument_typed {[10 := x; 20 := y]}) swap_params [Pointer 10; Pointer 20; Scalar 5].
Proof.
  intros Hx Hy.
  apply Forall2_cons_2; [exists x; split; [reflexivity|exact Hx]|]. apply Forall2_cons_2; [exists y; split; [reflexivity|exact Hy]|].
  apply Forall2_cons_2; [cbn; lia|apply Forall2_nil_2].
Qed.

Lemma swap_pointers : NoDup (pointers [Pointer 10; Pointer 20; Scalar 5]).
Proof. cbn. apply NoDup_cons. split; [|apply NoDup_singleton]. intros H. apply list_elem_of_singleton in H. lia. Qed.


Lemma image_type_safe_witness : exists fields,
  run_image struct_size 0 swap_params (TInt 32) "swap" swap_wrap [1; 2; 5; 0] = Some fields /\ struct_typed swap_struct fields.
Proof.
  apply (image_type_safe swap_params (TInt 32) struct_size 0 "swap" swap_wrap [1; 2; 5; 0]).
  - exact swap_typed.
  - repeat (apply Forall2_cons_2; [cbn; lia|]). apply Forall2_nil_2.
Defined.
