(* ===== verification/CMem.v ===== *)
(** What the C library of the guest (libc/newlib/libc) computes with: the flat
    memory of a virtine, 64-bit words in it, loops, and the word-at-a-time test
    for a zero byte (DETECTNULL, DETECTCHAR) its string functions share.

    A virtine's memory is one flat array that is entirely readable, so memory is a
    function from addresses to bytes.  A C loop is [loop fuel step]: [step] says
    whether to go on or what the loop ends with; [loop_total] proves that it ends. *)

From S2P Require Import Prelude.

(** ** Memory *)

Definition mem : Type := Z -> Z.
Definition mem_ok (m : mem) : Prop := forall a, 0 <= m a < 256.

Definition upd (m : mem) (a v : Z) : mem := fun x => if x =? a then v else m x.

(** A little-endian word of [n] bytes. *)
Fixpoint load (n : nat) (m : mem) (a : Z) : Z :=
  match n with
  | O => 0
  | S n => m a + 256 * load n m (a + 1)
  end.
Definition load64 (m : mem) (a : Z) : Z := load 8 m a.

Fixpoint store (n : nat) (m : mem) (a w : Z) : mem :=
  match n with
  | O => m
  | S n => store n (upd m a (w mod 256)) (a + 1) (w / 256)
  end.
Definition store64 (m : mem) (a w : Z) : mem := store 8 m a w.
#[global] Arguments load64 : simpl never.
#[global] Arguments store64 : simpl never.

(** Character constants are signed chars; memory holds their unsigned value. *)
Definition uchar (c : Z) : Z := u8 c.
Definition schar (c : Z) : Z := s8 c.

(** ** Loops *)

Fixpoint loop {S R} (fuel : nat) (step : S -> S + R) (s : S) : option R :=
  match fuel with
  | O => None
  | Datatypes.S fuel => match step s with inl s' => loop fuel step s' | inr r => Some r end
  end.

(** A loop with an invariant and a measure ends, and its result has the
    postcondition. *)
Lemma loop_total {S R} (step : S -> S + R) (Inv : S -> Prop) (mu : S -> Z) (Q : R -> Prop) :
  (forall s, Inv s -> match step s with
                      | inl s' => Inv s' /\ 0 <= mu s' < mu s
                      | inr r => Q r
                      end) ->
  forall fuel s, Inv s -> mu s < Z.of_nat fuel -> 0 <= mu s ->
  exists r, loop fuel step s = Some r /\ Q r.
Proof.
  intros Hstep. induction fuel as [|fuel IH]; intros s Hi Hf H0; [lia|]. cbn.
  specialize (Hstep s Hi). destruct (step s) as [s'|r]; [|by eauto].
  destruct Hstep as [Hi' Hmu]. apply IH; [done|lia|lia].
Qed.

(** ** Alignment *)

(** (long)X & (sizeof (long) - 1) *)
Definition UNALIGNED (a : Z) : bool := negb (Z.land a 7 =? 0).
Definition UNALIGNED2 (a b : Z) : bool := negb (Z.lor (Z.land a 7) (Z.land b 7) =? 0).

Lemma land7 a : Z.land a 7 = a mod 8.
Proof. change 7 with (Z.ones 3). by rewrite Z.land_ones. Qed.

Lemma unaligned_false a : UNALIGNED a = false <-> a mod 8 = 0.
Proof. unfold UNALIGNED. rewrite land7, negb_false_iff, Z.eqb_eq. done. Qed.

Lemma unaligned_true a : UNALIGNED a = true <-> a mod 8 <> 0.
Proof. unfold UNALIGNED. rewrite land7, negb_true_iff, Z.eqb_neq. done. Qed.

(** ** Bytes of a bitwise operation *)

Lemma low_byte a y : 0 <= a < 256 -> (a + 256 * y) mod 256 = a.
Proof. intros Ha. rewrite Z.mul_comm, Z.mod_add by lia. by apply Z.mod_small. Qed.

Lemma high_bytes a y : 0 <= a < 256 -> (a + 256 * y) / 256 = y.
Proof. intros Ha. rewrite Z.mul_comm, Z.div_add by lia. rewrite Z.div_small by lia. lia. Qed.

(** An operation that works bit by bit works byte by byte. *)
Section Bitwise.
Context (op : Z -> Z -> Z) (bop : bool -> bool -> bool).
Context (op_spec : forall x y i, Z.testbit (op x y) i = bop (Z.testbit x i) (Z.testbit y i)).
Context (bop_ff : bop false false = false).

Lemma op_split a b x y : 0 <= a < 256 -> 0 <= b < 256 ->
  op (a + 256 * x) (b + 256 * y) = op a b + 256 * op x y /\ 0 <= op a b < 256.
Proof.
  intros Ha Hb.
  assert (Hbits : forall c i, 0 <= c < 256 -> 8 <= i -> Z.testbit c i = false).
  { intros c i Hc Hi. destruct (Z.eq_dec c 0) as [->|Hne]; [apply Z.bits_0|].
    apply Z.bits_above_log2; [lia|]. apply Z.log2_lt_pow2; [lia|].
    apply Z.lt_le_trans with (2 ^ 8); [lia|]. apply Z.pow_le_mono_r; lia. }
  assert (Hr : 0 <= op a b < 256).
  { assert (E : op a b = op a b mod 2 ^ 8).
    { apply Z.bits_inj'. intros i Hi. destruct (Z.lt_ge_cases i 8).
      - by rewrite Z.mod_pow2_bits_low.
      - rewrite Z.mod_pow2_bits_high, op_spec, !Hbits by lia. done. }
    rewrite E. apply Z.mod_pos_bound. lia. }
  split; [|done]. apply Z.bits_inj'. intros i Hi. rewrite op_spec.
  assert (Hsplit : forall c z, 0 <= c < 256 ->
    Z.testbit (c + 256 * z) i = if i <? 8 then Z.testbit c i else Z.testbit z (i - 8)).
  { intros c z Hc. destruct (Z.ltb_spec i 8).
    - rewrite <- (Z.mod_pow2_bits_low (c + 256 * z) 8 i) by lia.
      change (2 ^ 8) with 256. by rewrite low_byte.
    - replace i with (i - 8 + 8) at 1 by lia. rewrite <- Z.shiftr_spec by lia.
      rewrite Z.shiftr_div_pow2 by lia. change (2 ^ 8) with 256. by rewrite high_bytes. }
  rewrite !Hsplit by done. destruct (i <? 8); by rewrite op_spec.
Qed.
End Bitwise.

Lemma land_split a b x y : 0 <= a < 256 -> 0 <= b < 256 ->
  Z.land (a + 256 * x) (b + 256 * y) = Z.land a b + 256 * Z.land x y /\ 0 <= Z.land a b < 256.
Proof. apply (op_split Z.land andb); [apply Z.land_spec|done]. Qed.

Lemma lxor_split a b x y : 0 <= a < 256 -> 0 <= b < 256 ->
  Z.lxor (a + 256 * x) (b + 256 * y) = Z.lxor a b + 256 * Z.lxor x y /\ 0 <= Z.lxor a b < 256.
Proof. apply (op_split Z.lxor xorb); [apply Z.lxor_spec|done]. Qed.

Lemma land_u64 x y : 0 <= y < 2 ^ 64 -> Z.land (u64 x) y = Z.land x y.
Proof.
  intros Hy. unfold uwrap. rewrite <- Z.land_ones, <- Z.land_assoc by lia. f_equal.
  rewrite Z.land_comm, Z.land_ones, Z.mod_small by lia. done.
Qed.

(** ** DETECTNULL *)

Definition DETECTNULL (x : Z) : bool :=
  negb (Z.land (Z.land (u64 (x - 0x0101010101010101)) (u64 (Z.lnot x))) 0x8080808080808080 =? 0).

(** DETECTCHAR(X, MASK) *)
Definition DETECTCHAR (x mask : Z) : bool := DETECTNULL (Z.lxor x mask).

(** The word of [n] bytes [c]. *)
Fixpoint rep (n : nat) (c : Z) : Z := match n with O => 0 | S n => c + 256 * rep n c end.

Definition detect (n : nat) (x : Z) : Z :=
  Z.land (Z.land (x - rep n 1) (Z.lnot x)) (rep n 128).

Lemma detect_nonneg n x : 0 <= detect n x.
Proof.
  unfold detect. apply Z.land_nonneg. right. induction n as [|n IH]; cbn; lia.
Qed.

(** Bytes from 1 to 255 raise nothing in their own byte. *)
Lemma detect_byte b : 1 <= b < 256 -> Z.land (Z.land (b - 1) (255 - b)) 128 = 0.
Proof.
  intros Hb.
  assert (H : forallb (fun i => Z.land (Z.land (i - 1) (255 - i)) 128 =? 0) (seqZ 1 255) = true)
    by (vm_compute; reflexivity).
  rewrite forallb_forall in H. apply Z.eqb_eq, (H b).
  apply list_elem_of_In, elem_of_seqZ. lia.
Qed.

Lemma detect_step n b y : 0 <= b < 256 ->
  detect (S n) (b + 256 * y) = 0 <-> b <> 0 /\ detect n y = 0.
Proof.
  intros Hb. unfold detect. cbn [rep].
  assert (Hn : Z.lnot (b + 256 * y) = (255 - b) + 256 * Z.lnot y) by (unfold Z.lnot; lia).
  rewrite Hn. destruct (Z.eq_dec b 0) as [->|Hne].
  - replace (0 + 256 * y - (1 + 256 * rep n 1)) with (255 + 256 * (y - rep n 1 - 1)) by lia.
    rewrite (proj1 (land_split 255 (255 - 0) _ _ ltac:(lia) ltac:(lia))).
    change (Z.land 255 (255 - 0)) with 255.
    rewrite (proj1 (land_split 255 128 _ _ ltac:(lia) ltac:(lia))).
    change (Z.land 255 128) with 128.
    assert (0 <= Z.land (Z.land (y - rep n 1 - 1) (Z.lnot y)) (rep n 128)).
    { apply Z.land_nonneg. right. clear. induction n as [|n IH]; cbn; lia. }
    split; [lia|]. by intros [? _].
  - replace (b + 256 * y - (1 + 256 * rep n 1)) with ((b - 1) + 256 * (y - rep n 1)) by lia.
    destruct (land_split (b - 1) (255 - b) (y - rep n 1) (Z.lnot y) ltac:(lia) ltac:(lia)) as [-> Hr].
    rewrite (proj1 (land_split _ 128 _ _ Hr ltac:(lia))), detect_byte by lia.
    split; [intros; split; [done|lia]|lia].
Qed.

Lemma detect_load n m a : mem_ok m ->
  detect n (load n m a) = 0 <-> forall j, 0 <= j < Z.of_nat n -> m (a + j) <> 0.
Proof.
  intros Hm. revert a. induction n as [|n IH]; intros a.
  - split; [intros _ j Hj; lia|done].
  - cbn [load]. rewrite detect_step by apply Hm. rewrite IH. split.
    + intros [H0 H] j Hj. destruct (Z.eq_dec j 0) as [->|]; [by rewrite Z.add_0_r|].
      replace (a + j) with (a + 1 + (j - 1)) by lia. apply H. lia.
    + intros H. split; [rewrite <- (Z.add_0_r a); apply H; lia|].
      intros j Hj. replace (a + 1 + j) with (a + (j + 1)) by lia. apply H. lia.
Qed.

Lemma detectnull_detect x : DETECTNULL x = negb (detect 8 x =? 0).
Proof.
  unfold DETECTNULL, detect. change (rep 8 1) with 0x0101010101010101.
  change (rep 8 128) with 0x8080808080808080.
  rewrite <- !Z.land_assoc, (land_u64 (Z.lnot x)) by lia. rewrite land_u64; [done|].
  replace (Z.land (Z.lnot x) 0x8080808080808080)
    with (Z.land (Z.lnot x) 0x8080808080808080 mod 2 ^ 64); [apply Z.mod_pos_bound; lia|].
  by rewrite <- Z.land_ones, <- Z.land_assoc by lia.
Qed.

(** The word test finds a zero byte exactly when there is one. *)
Lemma detectnull_false m a : mem_ok m ->
  DETECTNULL (load64 m a) = false <-> forall x, a <= x < a + 8 -> m x <> 0.
Proof.
  intros Hm. rewrite detectnull_detect, negb_false_iff, Z.eqb_eq. unfold load64.
  rewrite detect_load by done. split; intros H x Hx.
  - replace x with (a + (x - a)) by lia. apply H. lia.
  - apply H. lia.
Qed.

Lemma load_lxor n m c a : mem_ok m -> 0 <= c < 256 ->
  Z.lxor (load n m a) (rep n c) = load n (fun x => Z.lxor (m x) c) a.
Proof.
  intros Hm Hc. revert a. induction n as [|n IH]; intros a; [done|]. cbn [load rep].
  rewrite (proj1 (lxor_split _ _ _ _ (Hm a) Hc)). by rewrite IH.
Qed.

Lemma detectchar_false m a c : mem_ok m -> 0 <= c < 256 ->
  DETECTCHAR (load64 m a) (rep 8 c) = false <-> forall x, a <= x < a + 8 -> m x <> c.
Proof.
  intros Hm Hc. unfold DETECTCHAR, load64. rewrite load_lxor by done.
  fold (load64 (fun x => Z.lxor (m x) c) a). rewrite detectnull_false.
  - by setoid_rewrite Z.lxor_eq_0_iff.
  - intros x. exact (proj2 (lxor_split (m x) c 0 0 (Hm x) Hc)).
Qed.

(** Two words are equal when their bytes are. *)
Lemma load_eq n m a b : mem_ok m ->
  load n m a = load n m b <-> forall j, 0 <= j < Z.of_nat n -> m (a + j) = m (b + j).
Proof.
  intros Hm. revert a b. induction n as [|n IH]; intros a b.
  - split; [intros _ j Hj; lia|done].
  - cbn [load]. pose proof (Hm a). pose proof (Hm b). split.
    + intros E. assert (m a = m b /\ load n m (a + 1) = load n m (b + 1)) as [E0 E1] by lia.
      intros j Hj. destruct (Z.eq_dec j 0) as [->|]; [by rewrite !Z.add_0_r|].
      replace (a + j) with (a + 1 + (j - 1)) by lia. replace (b + j) with (b + 1 + (j - 1)) by lia.
      apply IH; [done|lia].
    + intros E. pose proof (E 0 ltac:(lia)) as E0. rewrite !Z.add_0_r in E0.
      rewrite E0. f_equal. f_equal. apply IH. intros j Hj.
      replace (a + 1 + j) with (a + (j + 1)) by lia. replace (b + 1 + j) with (b + (j + 1)) by lia.
      apply E. lia.
Qed.

(** Storing a word that was loaded copies its bytes. *)
Lemma store_load n m m' d s x : mem_ok m' ->
  store n m d (load n m' s) x =
    if (d <=? x) && (x <? d + Z.of_nat n) then m' (s + (x - d)) else m x.
Proof.
  intros Hm. revert m d s. induction n as [|n IH]; intros m d s.
  - cbn [store load]. destruct (Z.leb_spec d x), (Z.ltb_spec x (d + Z.of_nat 0)); cbn; try done; lia.
  - cbn [store load]. rewrite low_byte, high_bytes by apply Hm. rewrite IH. unfold upd.
    destruct (Z.leb_spec (d + 1) x), (Z.ltb_spec x (d + 1 + Z.of_nat n)); cbn [andb];
      destruct (Z.leb_spec d x), (Z.ltb_spec x (d + Z.of_nat (S n))); cbn [andb]; try lia;
      destruct (Z.eqb_spec x d) as [->|]; try lia; try done; f_equal; lia.
Qed.

Lemma upd_ok m a v : mem_ok m -> 0 <= v < 256 -> mem_ok (upd m a v).
Proof. intros Hm Hv x. unfold upd. by destruct (x =? a). Qed.

(** ** Scanning loops several functions share *)

(** The first address from [a] on whose byte satisfies [P]. *)
Definition first (m : mem) (P : Z -> Prop) (a z : Z) : Prop :=
  a <= z /\ P (m z) /\ forall x, a <= x < z -> ~ P (m x).

(** while (!DETECTNULL ( *p)) p++, on words *)
Definition skip_words (fuel : nat) (m : mem) : Z -> option Z :=
  loop fuel (fun a => if DETECTNULL (load64 m a) then inr a else inl (a + 8)).

(** while ( *s) s++ *)
Definition skip_bytes (fuel : nat) (m : mem) : Z -> option Z :=
  loop fuel (fun s => if m s =? 0 then inr s else inl (s + 1)).

Section Scan.
Context (m : mem) (Hm : mem_ok m).

Lemma first_shift P a b z : first m P a z -> a <= b <= z -> first m P b z.
Proof. intros (H1 & H2 & H3) Hb. split; [lia|]. split; [done|]. intros x Hx. apply H3. lia. Qed.

Lemma skip_words_spec fuel a z :
  first m (fun b => b = 0) a z -> z - a < Z.of_nat fuel ->
  exists a', skip_words fuel m a = Some a' /\ first m (fun b => b = 0) a' z /\ a <= a'.
Proof.
  intros Hz Hf. unfold skip_words.
  destruct (loop_total (fun a => if DETECTNULL (load64 m a) then inr a else inl (a + 8))
    (fun x => a <= x /\ first m (fun b => b = 0) x z) (fun x => z - x)
    (fun r => a <= r /\ first m (fun b => b = 0) r z)) with (fuel := fuel) (s := a)
    as (r & Hr & Ha & Hfr); [|split; [lia|done]|done|destruct Hz; lia|].
  - intros x (Hx & Hfx). destruct (DETECTNULL (load64 m x)) eqn:E; [done|].
    rewrite detectnull_false in E by done. destruct Hfx as (H1 & H2 & H3).
    assert (~ z < x + 8) by (intros Hlt; apply (E z); [lia|done]).
    split; [split; [lia|]|lia]. apply (first_shift _ x); [done|lia].
  - by exists r.
Qed.

Lemma skip_bytes_spec fuel a z :
  first m (fun b => b = 0) a z -> z - a < Z.of_nat fuel -> skip_bytes fuel m a = Some z.
Proof.
  intros Hz Hf. unfold skip_bytes.
  destruct (loop_total (fun s => if m s =? 0 then inr s else inl (s + 1))
    (fun x => first m (fun b => b = 0) x z) (fun x => z - x) (fun r => r = z))
    with (fuel := fuel) (s := a) as (r & Hr & ->); [|done|done|destruct Hz; lia|done].
  intros x Hx. pose proof Hx as (H1 & H2 & H3). destruct (Z.eqb_spec (m x) 0) as [E|E].
  - destruct (Z.eq_dec x z); [done|]. exfalso. apply (H3 x); [lia|done].
  - assert (x <> z) by congruence. split; [|lia]. apply (first_shift _ x); [done|lia].
Qed.
End Scan.

(** Run the first loop of the goal with an invariant [Inv], a measure [mu] and a
    postcondition [Q]; the goals left are the step, the start, and the rest with
    the result [r] of the loop and [H : Q r]. *)
Ltac run_loop Inv mu Q r H :=
  match goal with
  | |- context [loop ?f0 ?step0 ?s0] =>
      let Hl := fresh in
      pose proof (loop_total step0 Inv mu Q) as Hl;
      specialize (fun Hstep => Hl Hstep f0 s0);
      destruct Hl as (r & -> & H)
  end.

(** Decide the boolean tests of a step. *)
Ltac byte_cases :=
  repeat match goal with
  | |- context [?a =? ?b] => destruct (Z.eqb_spec a b); cbn [negb andb orb]
  | |- context [?a <=? ?b] => destruct (Z.leb_spec a b); cbn [negb andb orb]
  | |- context [?a <? ?b] => destruct (Z.ltb_spec a b); cbn [negb andb orb]
  end.

(** The search for the first [P] goes on past a byte that is not it. *)
Lemma first_next m (P : Z -> Prop) x z : first m P x z -> ~ P (m x) -> first m P (x + 1) z /\ x < z.
Proof.
  intros (H1 & H2 & H3) Hn. assert (x <> z) by (intros ->; done).
  split; [|lia]. split; [lia|]. split; [done|]. intros y Hy. apply H3. lia.
Qed.

Lemma first_here m (P : Z -> Prop) x z : first m P x z -> P (m x) -> x = z.
Proof.
  intros (H1 & H2 & H3) Hp. destruct (Z.eq_dec x z); [done|]. exfalso. apply (H3 x); [lia|done].
Qed.

Lemma first_skip m (P : Z -> Prop) x k z : first m P x z -> 0 <= k ->
  (forall y, x <= y < x + k -> ~ P (m y)) -> first m P (x + k) z /\ x + k <= z.
Proof.
  intros (H1 & H2 & H3) Hk Hn. assert (~ z < x + k) by (intros Hlt; apply (Hn z); [lia|done]).
  split; [|lia]. split; [lia|]. split; [done|]. intros y Hy. apply H3. lia.
Qed.

(** ** Concrete memories *)

(** The bytes [l] at address [a], zeros elsewhere. *)
Definition bytes_at (a : Z) (l : list Z) : mem := fun x =>
  if (a <=? x) && (x <? a + blen l) then l !!! Z.to_nat (x - a) else 0.

Lemma bytes_at_ok a l : Forall (fun b => 0 <= b < 256) l -> mem_ok (bytes_at a l).
Proof.
  intros Hl x. unfold bytes_at. destruct (Z.leb_spec a x), (Z.ltb_spec x (a + blen l)); cbn; try lia.
  rewrite Forall_lookup in Hl. apply (Hl (Z.to_nat (x - a))).
  apply list_lookup_lookup_total_lt. unfold blen in *. lia.
Qed.
