(* ===== verification/CSearch.v ===== *)
(** The searching and comparing string functions of the guest's C library, in
    the word-at-a-time form that is compiled (libc/newlib/libc/string: strlen.c,
    strchr.c, memchr.c, rawmemchr.c, memrchr.c, memcmp.c, strcmp.c, strncmp.c),
    and that they compute what their byte-wise descriptions say.

    Pointers are addresses and the null pointer is 0. *)

From S2P Require Import Prelude CMem.

(** ** Searching *)

Definition strlen (fuel : nat) (m : mem) (str : Z) : option Z :=
  let start := str in
  r ← loop fuel (fun str =>
        if UNALIGNED str then
          if m str =? 0 then inr (inr (str - start)) else inl (str + 1)
        else inr (inl str)) str;
  match r with
  | inr n => Some n
  | inl str =>
      aligned_addr ← skip_words fuel m str;
      str ← skip_bytes fuel m aligned_addr;
      Some (str - start)
  end.

(** mask = c; for (j = 8; j < 64; j <<= 1) mask = (mask << j) | mask; *)
Definition strchr_mask (c : Z) : Z :=
  fold_left (fun mask j => Z.lor (u64 (Z.shiftl mask j)) mask) [8; 16; 32] c.

Definition strchr (fuel : nat) (m : mem) (s1 i : Z) : option Z :=
  let c := uchar i in
  if c =? 0 then
    r ← loop fuel (fun s =>
          if UNALIGNED s then if m s =? 0 then inr (inr s) else inl (s + 1)
          else inr (inl s)) s1;
    match r with
    | inr s => Some s
    | inl s => a ← skip_words fuel m s; skip_bytes fuel m a
    end
  else
    r ← loop fuel (fun s =>
          if UNALIGNED s then
            if m s =? 0 then inr (inr 0)
            else if m s =? c then inr (inr s) else inl (s + 1)
          else inr (inl s)) s1;
    match r with
    | inr p => Some p
    | inl s =>
        let mask := strchr_mask c in
        a ← loop fuel (fun a =>
              if negb (DETECTNULL (load64 m a)) && negb (DETECTCHAR (load64 m a) mask)
              then inl (a + 8) else inr a) s;
        s ← loop fuel (fun s =>
              if negb (m s =? 0) && negb (m s =? c) then inl (s + 1) else inr s) a;
        Some (if m s =? c then s else 0)
    end.

(** mask = d << 8 | d; mask = mask << 16 | mask; then once (mask << 32) | mask *)
Definition byte_mask (d : Z) : Z :=
  let mask := Z.lor (Z.shiftl d 8) d in
  let mask := Z.lor (u64 (Z.shiftl mask 16)) mask in
  Z.lor (u64 (Z.shiftl mask 32)) mask.

Definition LBLOCKSIZE : Z := 8.
Definition TOO_SMALL (len : Z) : bool := len <? LBLOCKSIZE.

Definition memchr (fuel : nat) (m : mem) (src c length : Z) : option Z :=
  let d := uchar c in
  r ← loop fuel (fun '(src, length) =>
        if UNALIGNED src then
          if length =? 0 then inr (inr 0)
          else if m src =? d then inr (inr src) else inl (src + 1, length - 1)
        else inr (inl (src, length))) (src, length);
  match r with
  | inr p => Some p
  | inl (src, length) =>
      '(src, length) ←
        (if negb (TOO_SMALL length) then
           let mask := byte_mask d in
           loop fuel (fun '(asrc, length) =>
             if LBLOCKSIZE <=? length then
               if DETECTCHAR (load64 m asrc) mask then inr (asrc, length)
               else inl (asrc + 8, length - LBLOCKSIZE)
             else inr (asrc, length)) (src, length)
         else Some (src, length));
      loop fuel (fun '(src, length) =>
        if length =? 0 then inr 0
        else if m src =? d then inr src else inl (src + 1, length - 1)) (src, length)
  end.

Definition rawmemchr (fuel : nat) (m : mem) (src c : Z) : option Z :=
  let d := uchar c in
  r ← loop fuel (fun src =>
        if UNALIGNED src then if m src =? d then inr (inr src) else inl (src + 1)
        else inr (inl src)) src;
  match r with
  | inr p => Some p
  | inl src =>
      let mask := byte_mask d in
      src ← loop fuel (fun asrc =>
              if DETECTCHAR (load64 m asrc) mask then inr asrc else inl (asrc + 8)) src;
      loop fuel (fun src => if m src =? d then inr src else inl (src + 1)) src
  end.

(** memrchr scans down from the last byte; its UNALIGNED looks at X + 1. *)
Definition memrchr (fuel : nat) (m : mem) (src_void c length : Z) : option Z :=
  let src := src_void + length - 1 in
  let d := uchar c in
  r ← loop fuel (fun '(src, length) =>
        if UNALIGNED (src + 1) then
          if length =? 0 then inr (inr 0)
          else if m src =? d then inr (inr src) else inl (src - 1, length - 1)
        else inr (inl (src, length))) (src, length);
  match r with
  | inr p => Some p
  | inl (src, length) =>
      '(src, length) ←
        (if negb (TOO_SMALL length) then
           let mask := byte_mask d in
           '(asrc, length) ← loop fuel (fun '(asrc, length) =>
             if LBLOCKSIZE <=? length then
               if DETECTCHAR (load64 m asrc) mask then inr (asrc, length)
               else inl (asrc - 8, length - LBLOCKSIZE)
             else inr (asrc, length)) (src - LBLOCKSIZE + 1, length);
           Some (asrc + LBLOCKSIZE - 1, length)
         else Some (src, length));
      loop fuel (fun '(src, length) =>
        if length =? 0 then inr 0
        else if m src =? d then inr src else inl (src - 1, length - 1)) (src, length)
  end.

(** ** Comparing *)

Definition memcmp (fuel : nat) (m : mem) (m1 m2 n : Z) : option Z :=
  '(s1, s2, n) ←
    (if negb (TOO_SMALL n) && negb (UNALIGNED2 m1 m2) then
       loop fuel (fun '(a1, a2, n) =>
         if LBLOCKSIZE <=? n then
           if negb (load64 m a1 =? load64 m a2) then inr (a1, a2, n)
           else inl (a1 + 8, a2 + 8, n - LBLOCKSIZE)
         else inr (a1, a2, n)) (m1, m2, n)
     else Some (m1, m2, n));
  loop fuel (fun '(s1, s2, n) =>
    if n =? 0 then inr 0
    else if negb (m s1 =? m s2) then inr (m s1 - m s2) else inl (s1 + 1, s2 + 1, n - 1))
    (s1, s2, n).

Definition strcmp (fuel : nat) (m : mem) (s1 s2 : Z) : option Z :=
  r ← (if negb (UNALIGNED2 s1 s2) then
         loop fuel (fun '(a1, a2) =>
           if load64 m a1 =? load64 m a2 then
             if DETECTNULL (load64 m a1) then inr (inr 0) else inl (a1 + 8, a2 + 8)
           else inr (inl (a1, a2))) (s1, s2)
       else Some (inl (s1, s2)));
  match r with
  | inr n => Some n
  | inl (s1, s2) =>
      loop fuel (fun '(s1, s2) =>
        if negb (m s1 =? 0) && (m s1 =? m s2) then inl (s1 + 1, s2 + 1)
        else inr (m s1 - m s2)) (s1, s2)
  end.

Definition strncmp (fuel : nat) (m : mem) (s1 s2 n : Z) : option Z :=
  if n =? 0 then Some 0 else
  r ← (if negb (UNALIGNED2 s1 s2) then
         loop fuel (fun '(a1, a2, n) =>
           if (8 <=? n) && (load64 m a1 =? load64 m a2) then
             let n := n - 8 in
             if (n =? 0) || DETECTNULL (load64 m a1) then inr (inr 0)
             else inl (a1 + 8, a2 + 8, n)
           else inr (inl (a1, a2, n))) (s1, s2, n)
       else Some (inl (s1, s2, n)));
  match r with
  | inr n => Some n
  | inl (s1, s2, n) =>
      loop fuel (fun '(s1, s2, n) =>
        if (0 <? n) && (m s1 =? m s2) then
          let n := n - 1 in
          if (n =? 0) || (m s1 =? 0) then inr 0 else inl (s1 + 1, s2 + 1, n)
        else inr (m s1 - m s2)) (s1, s2, n)
  end.

(** ** What they return *)

(** The first [c] in the [len] bytes at [s], or null. *)
Definition finds (m : mem) (c s len r : Z) : Prop :=
  (first m (fun b => b = c) s r /\ r < s + len) \/
  ((forall x, s <= x < s + len -> m x <> c) /\ r = 0).

(** The last one. *)
Definition finds_last (m : mem) (c s len r : Z) : Prop :=
  (s <= r < s + len /\ m r = c /\ forall x, r < x < s + len -> m x <> c) \/
  ((forall x, s <= x < s + len -> m x <> c) /\ r = 0).

(** The difference of the first bytes that differ, or 0. *)
Definition compares (m : mem) (a b n r : Z) : Prop :=
  (exists i, 0 <= i < n /\ (forall j, 0 <= j < i -> m (a + j) = m (b + j)) /\
     m (a + i) <> m (b + i) /\ r = m (a + i) - m (b + i)) \/
  ((forall j, 0 <= j < n -> m (a + j) = m (b + j)) /\ r = 0).

(** Position [i] ends the comparison of the strings at [a] and [b]. *)
Definition stops_at (m : mem) (a b i : Z) : Prop :=
  0 <= i /\ (m (a + i) = 0 \/ m (a + i) <> m (b + i)) /\
  forall j, 0 <= j < i -> m (a + j) <> 0 /\ m (a + j) = m (b + j).

Lemma byte_mask_rep d : 0 <= d < 256 -> byte_mask d = rep 8 d.
Proof.
  intros Hd.
  assert (H : forallb (fun d => byte_mask d =? rep 8 d) (seqZ 0 256) = true)
    by (vm_compute; reflexivity).
  rewrite forallb_forall in H. apply Z.eqb_eq, H, list_elem_of_In, elem_of_seqZ. lia.
Qed.

Lemma strchr_mask_rep d : 0 <= d < 256 -> strchr_mask d = rep 8 d.
Proof.
  intros Hd.
  assert (H : forallb (fun d => strchr_mask d =? rep 8 d) (seqZ 0 256) = true)
    by (vm_compute; reflexivity).
  rewrite forallb_forall in H. apply Z.eqb_eq, H, list_elem_of_In, elem_of_seqZ. lia.
Qed.

Lemma uchar_range c : 0 <= uchar c < 256.
Proof. apply (uwrap_range 8). lia. Qed.

Lemma obind_some {A B} (o : option A) (f : A -> option B) a r :
  o = Some a -> f a = r -> (o ≫= f) = r.
Proof. by intros -> <-. Qed.

Section Search.
Context (m : mem) (Hm : mem_ok m).

Lemma strlen_spec fuel s z :
  first m (fun b => b = 0) s z -> z - s + 1 < Z.of_nat fuel -> strlen fuel m s = Some (z - s).
Proof.
  intros Hz Hf. pose proof Hz as (Hsz & _). unfold strlen.
  run_loop (fun x => s <= x /\ first m (fun b => b = 0) x z) (fun x => z - x)
    (fun r : Z + Z => match r with inr n => n = z - s | inl x => s <= x /\ first m (fun b => b = 0) x z end)
    r Hr; [|split; [lia|done]|lia|lia|].
  - intros x (Hx & Hfx). destruct (UNALIGNED x); [|done]. byte_cases.
    + by rewrite (first_here _ _ _ _ Hfx).
    + destruct (first_next _ _ _ _ Hfx n). split; [split; [lia|done]|lia].
  - destruct r as [x|n]; cbn [mbind option_bind]; [|congruence]. destruct Hr as (Hx & Hfx).
    destruct (skip_words_spec m Hm fuel x z Hfx) as (a & -> & Ha & Hxa); [lia|]. cbn [mbind option_bind].
    rewrite (skip_bytes_spec m fuel a z Ha) by lia. done.
Qed.

Lemma strchr_spec fuel s c z :
  first m (fun b => b = 0 \/ b = uchar c) s z -> z - s + 1 < Z.of_nat fuel ->
  strchr fuel m s c = Some (if m z =? uchar c then z else 0).
Proof.
  intros Hz Hf. pose proof Hz as (Hsz & Hend & _). unfold strchr.
  pose proof (uchar_range c) as Hc. set (d := uchar c) in *.
  destruct (Z.eqb_spec d 0) as [Hd|Hd].
  - rewrite Hd in *. assert (Hz0 : first m (fun b => b = 0) s z).
    { destruct Hz as (H1 & H2 & H3). split; [done|]. split; [tauto|]. intros x Hx E. apply (H3 x Hx). tauto. }
    assert (m z = 0) as -> by tauto. cbn.
    run_loop (fun x => s <= x /\ first m (fun b => b = 0) x z) (fun x => z - x)
      (fun r : Z + Z => match r with inr n => n = z | inl x => s <= x /\ first m (fun b => b = 0) x z end)
      r Hr; [|split; [lia|done]|lia|lia|].
    + intros x (Hx & Hfx). destruct (UNALIGNED x); [|done]. byte_cases.
      * by rewrite (first_here _ _ _ _ Hfx).
      * destruct (first_next _ _ _ _ Hfx n). split; [split; [lia|done]|lia].
    + destruct r as [x|n]; cbn [mbind option_bind]; [|congruence]. destruct Hr as (Hx & Hfx).
      destruct (skip_words_spec m Hm fuel x z Hfx) as (a & -> & Ha & Hxa); [lia|]. cbn [mbind option_bind].
      rewrite (skip_bytes_spec m fuel a z Ha) by lia. done.
  - set (P := fun b => b = 0 \/ b = d) in *.
    run_loop (fun x => s <= x /\ first m P x z) (fun x => z - x)
      (fun r : Z + Z => match r with inr n => n = if m z =? d then z else 0 | inl x => s <= x /\ first m P x z end)
      r Hr; [|split; [lia|done]|lia|lia|].
    + intros x (Hx & Hfx). destruct (UNALIGNED x); [|done].
      destruct (Z.eqb_spec (m x) 0); [|destruct (Z.eqb_spec (m x) d)].
      * rewrite <- (first_here _ _ _ _ Hfx) by (by left). by byte_cases; [congruence|].
      * rewrite <- (first_here _ _ _ _ Hfx) by (by right). by byte_cases.
      * destruct (first_next _ _ _ _ Hfx) as [? ?]; [unfold P; tauto|]. split; [split; [lia|done]|lia].
    + destruct r as [x|n]; cbn [mbind option_bind]; [|congruence]. destruct Hr as (Hx & Hfx).
      rewrite strchr_mask_rep by done. pose proof Hfx as (Hxz & _).
      run_loop (fun y => x <= y /\ first m P y z) (fun y => z - y) (fun y => x <= y /\ first m P y z) a Ha;
        [|split; [lia|done]|lia|lia|].
      * intros y (Hy & Hfy). destruct (DETECTNULL (load64 m y)) eqn:E1; cbn [negb andb]; [done|].
        destruct (DETECTCHAR (load64 m y) (rep 8 d)) eqn:E2; cbn [negb]; [done|].
        rewrite detectnull_false in E1 by done. rewrite detectchar_false in E2 by done.
        destruct (first_skip m P y 8 z Hfy) as [? ?]; [lia| |split; [split; [lia|done]|lia]].
        intros w Hw [H|H]; [by apply (E1 w)|by apply (E2 w)].
      * cbn [mbind option_bind]. destruct Ha as (Hxa & Hfa). pose proof Hfa as (Haz & _).
        run_loop (fun y => x <= y /\ first m P y z) (fun y => z - y) (fun y => y = z) w Hw;
          [|split; [lia|done]|lia|lia|by subst w].
        intros y (Hy & Hfy). destruct (Z.eqb_spec (m y) 0); [|destruct (Z.eqb_spec (m y) d)]; cbn [negb andb].
        -- by apply (first_here _ _ _ _ Hfy); left.
        -- by apply (first_here _ _ _ _ Hfy); right.
        -- destruct (first_next _ _ _ _ Hfy) as [? ?]; [unfold P; tauto|]. split; [split; [lia|done]|lia].
Qed.

Lemma rawmemchr_spec fuel s c z :
  first m (fun b => b = uchar c) s z -> z - s + 1 < Z.of_nat fuel -> rawmemchr fuel m s c = Some z.
Proof.
  intros Hz Hf. pose proof Hz as (Hsz & _). unfold rawmemchr.
  pose proof (uchar_range c) as Hc. set (d := uchar c) in *. set (P := fun b => b = d) in *.
  run_loop (fun x => s <= x /\ first m P x z) (fun x => z - x)
    (fun r : Z + Z => match r with inr n => n = z | inl x => s <= x /\ first m P x z end)
    r Hr; [|split; [lia|done]|lia|lia|].
  - intros x (Hx & Hfx). destruct (UNALIGNED x); [|done]. byte_cases.
    + by apply (first_here _ _ _ _ Hfx).
    + destruct (first_next _ _ _ _ Hfx) as [? ?]; [done|]. split; [split; [lia|done]|lia].
  - destruct r as [x|n]; cbn [mbind option_bind]; [|congruence]. destruct Hr as (Hx & Hfx). pose proof Hfx as (Hxz & _).
    rewrite byte_mask_rep by done.
    run_loop (fun y => x <= y /\ first m P y z) (fun y => z - y) (fun y => x <= y /\ first m P y z) a Ha;
      [|split; [lia|done]|lia|lia|].
    + intros y (Hy & Hfy). destruct (DETECTCHAR (load64 m y) (rep 8 d)) eqn:E2; [done|].
      rewrite detectchar_false in E2 by done.
      destruct (first_skip m P y 8 z Hfy) as [? ?]; [lia|done|split; [split; [lia|done]|lia]].
    + cbn [mbind option_bind]. destruct Ha as (Hxa & Hfa). pose proof Hfa as (Haz & _).
      run_loop (fun y => x <= y /\ first m P y z) (fun y => z - y) (fun y => y = z) w Hw;
        [|split; [lia|done]|lia|lia|by subst w].
      intros y (Hy & Hfy). byte_cases.
      * by apply (first_here _ _ _ _ Hfy).
      * destruct (first_next _ _ _ _ Hfy) as [? ?]; [done|]. split; [split; [lia|done]|lia].
Qed.

(** Memory scanned so far without finding [d]. *)
Definition scanned (d s len : Z) (st : Z * Z) : Prop :=
  let '(x, n) := st in
  s <= x /\ 0 <= n /\ x + n = s + len /\ forall y, s <= y < x -> m y <> d.

Lemma scanned_found d s len x n :
  scanned d s len (x, n) -> 0 < n -> m x = d -> finds m d s len x.
Proof.
  intros (H1 & H2 & H3 & H4) Hn Hx. left. split; [|lia]. split; [done|]. split; [done|].
  intros y Hy. by apply H4.
Qed.

Lemma scanned_end d s len x : scanned d s len (x, 0) -> finds m d s len 0.
Proof. intros (H1 & H2 & H3 & H4). right. split; [|done]. intros y Hy. apply H4. lia. Qed.

Lemma scanned_next d s len x n k :
  scanned d s len (x, n) -> 0 <= k <= n -> (forall y, x <= y < x + k -> m y <> d) ->
  scanned d s len (x + k, n - k).
Proof.
  intros (H1 & H2 & H3 & H4) Hk Hno. split; [lia|]. split; [lia|]. split; [lia|].
  intros y Hy. destruct (Z.lt_ge_cases y x); [apply H4; lia|apply Hno; lia].
Qed.

Lemma scanned_byte d s len x n :
  scanned d s len (x, n) -> n <> 0 -> m x <> d ->
  scanned d s len (x + 1, n - 1) /\ 0 <= n - 1 < n.
Proof.
  intros Hs Hn Hx. pose proof Hs as (_ & H0 & _). split; [|lia].
  apply scanned_next; [done|lia|]. intros y Hy. by replace y with x by lia.
Qed.

Lemma memchr_spec fuel s c len : 0 <= len -> len + 1 < Z.of_nat fuel ->
  exists r, memchr fuel m s c len = Some r /\ finds m (uchar c) s len r.
Proof.
  intros Hl Hf. unfold memchr. pose proof (uchar_range c) as Hc. set (d := uchar c) in *.
  run_loop (scanned d s len) (fun st : Z * Z => st.2)
    (fun r : (Z * Z) + Z => match r with inr p => finds m d s len p | inl st => scanned d s len st end)
    r Hr; [|split; [lia|]; split; [lia|]; split; [lia|]; intros; lia|cbn; lia|cbn; lia|].
  - intros [x n] Hs. destruct (UNALIGNED x); [|done]. pose proof Hs as (_ & Hn & _).
    byte_cases; cbn.
    + subst n. by eapply scanned_end.
    + eapply scanned_found; [done|lia|done].
    + by apply scanned_byte.
  - destruct r as [[x n]|p]; cbn [mbind option_bind]; [|by eauto].
    assert (Hmid : exists st, (if negb (TOO_SMALL n) then
       loop fuel (fun '(asrc, length) =>
         if LBLOCKSIZE <=? length then
           if DETECTCHAR (load64 m asrc) (byte_mask d) then inr (asrc, length)
           else inl (asrc + 8, length - LBLOCKSIZE)
         else inr (asrc, length)) (x, n) else Some (x, n)) = Some st /\ scanned d s len st).
    { destruct (negb (TOO_SMALL n)); [|by eauto]. pose proof Hr as (? & Hn & ? & _).
      rewrite byte_mask_rep by done. unfold LBLOCKSIZE.
      run_loop (scanned d s len) (fun st : Z * Z => st.2) (scanned d s len) st Hst; [|done|cbn; lia|cbn; lia|by eauto].
      intros [y k] Hs. destruct (Z.leb_spec 8 k); [|done].
      destruct (DETECTCHAR (load64 m y) (rep 8 d)) eqn:E; [done|]. rewrite detectchar_false in E by done.
      cbn. split; [apply scanned_next; [done|lia|done]|lia]. }
    destruct Hmid as ([y k] & -> & Hy). cbn [mbind option_bind]. pose proof Hy as (? & Hk & ? & _).
    run_loop (scanned d s len) (fun st : Z * Z => st.2) (finds m d s len) p Hp; [|done|cbn; lia|cbn; lia|by eauto].
    intros [z j] Hs. pose proof Hs as (_ & Hj & _). byte_cases; cbn.
    + subst j. by eapply scanned_end.
    + eapply scanned_found; [done|lia|done].
    + by apply scanned_byte.
Qed.

(** The bytes above [x] scanned from the end. *)
Definition scanned_down (d s len : Z) (st : Z * Z) : Prop :=
  let '(x, n) := st in
  0 <= n <= len /\ x = s + n - 1 /\ forall y, x < y < s + len -> m y <> d.

Lemma scanned_down_byte d s len x n :
  scanned_down d s len (x, n) -> n <> 0 ->
  (m x = d -> finds_last m d s len x) /\
  (m x <> d -> scanned_down d s len (x - 1, n - 1) /\ 0 <= n - 1 < n).
Proof.
  intros (H1 & H2 & H3) Hn. split; intros Hx.
  - left. split; [lia|]. done.
  - split; [|lia]. split; [lia|]. split; [lia|]. intros y Hy.
    destruct (Z.eq_dec y x) as [->|]; [done|]. apply H3. lia.
Qed.

Lemma scanned_down_end d s len x : scanned_down d s len (x, 0) -> finds_last m d s len 0.
Proof. intros (H1 & H2 & H3). right. split; [|done]. intros y Hy. apply H3. lia. Qed.

Lemma memrchr_spec fuel s c len : 0 <= len -> len + 1 < Z.of_nat fuel ->
  exists r, memrchr fuel m s c len = Some r /\ finds_last m (uchar c) s len r.
Proof.
  intros Hl Hf. unfold memrchr. pose proof (uchar_range c) as Hc. set (d := uchar c) in *.
  run_loop (scanned_down d s len) (fun st : Z * Z => st.2)
    (fun r : (Z * Z) + Z => match r with inr p => finds_last m d s len p | inl st => scanned_down d s len st end)
    r Hr; [|split; [lia|]; split; [lia|]; intros; lia|cbn; lia|cbn; lia|].
  - intros [x n] Hs. destruct (UNALIGNED (x + 1)); [|done]. byte_cases; cbn.
    + subst n. by eapply scanned_down_end.
    + eapply scanned_down_byte; done.
    + by eapply scanned_down_byte.
  - destruct r as [[x n]|p]; cbn [mbind option_bind]; [|by eauto].
    assert (Hmid : exists st, (if negb (TOO_SMALL n) then
       '(asrc, length) ← loop fuel (fun '(asrc, length) =>
         if LBLOCKSIZE <=? length then
           if DETECTCHAR (load64 m asrc) (byte_mask d) then inr (asrc, length)
           else inl (asrc - 8, length - LBLOCKSIZE)
         else inr (asrc, length)) (x - LBLOCKSIZE + 1, n);
       Some (asrc + LBLOCKSIZE - 1, length) else Some (x, n)) = Some st /\ scanned_down d s len st).
    { destruct (negb (TOO_SMALL n)); [|by eauto]. pose proof Hr as (Hn & _).
      rewrite byte_mask_rep by done. unfold LBLOCKSIZE.
      run_loop (fun st : Z * Z => scanned_down d s len (st.1 + 7, st.2)) (fun st : Z * Z => st.2)
        (fun st : Z * Z => scanned_down d s len (st.1 + 7, st.2)) st Hst; [| |cbn; lia|cbn; lia|].
      - intros [y k] Hs. cbn in Hs. destruct (Z.leb_spec 8 k); [|done].
        destruct (DETECTCHAR (load64 m y) (rep 8 d)) eqn:E; [done|]. rewrite detectchar_false in E by done.
        cbn. split; [|lia]. destruct Hs as (H1 & H2 & H3). split; [lia|]. split; [lia|].
        intros w Hw. destruct (Z.lt_ge_cases w (y + 8)); [apply E; lia|apply H3; lia].
      - cbn. destruct Hr as (H1 & H2 & H3). split; [lia|]. split; [lia|]. intros y Hy. apply H3. lia.
      - destruct st as [y k]. cbn [mbind option_bind fst snd] in *. exists (y + 8 - 1, k).
        split; [done|]. by replace (y + 8 - 1) with (y + 7) by lia. }
    destruct Hmid as ([y k] & -> & Hy). cbn [mbind option_bind]. pose proof Hy as (Hk & _).
    run_loop (scanned_down d s len) (fun st : Z * Z => st.2) (finds_last m d s len) p Hp;
      [|done|cbn; lia|cbn; lia|by eauto].
    intros [z j] Hs. byte_cases; cbn.
    + subst j. by eapply scanned_down_end.
    + eapply scanned_down_byte; done.
    + by eapply scanned_down_byte.
Qed.
End Search.

Section Compare.
Context (m : mem) (Hm : mem_ok m).

Lemma load64_eq a b : load64 m a = load64 m b <-> forall j, 0 <= j < 8 -> m (a + j) = m (b + j).
Proof. unfold load64. by rewrite load_eq. Qed.

(** The first [x - a] bytes of the two operands agree; [n] of [len] are left. *)
Definition agreed (a b len : Z) (st : Z * Z * Z) : Prop :=
  let '(x, y, n) := st in
  a <= x /\ y - b = x - a /\ 0 <= n /\ (x - a) + n = len /\
  forall j, 0 <= j < x - a -> m (a + j) = m (b + j).

Lemma agreed_next a b len x y n k : agreed a b len (x, y, n) -> 0 <= k <= n ->
  (forall j, 0 <= j < k -> m (x + j) = m (y + j)) -> agreed a b len (x + k, y + k, n - k).
Proof.
  intros (H1 & H2 & H3 & H4 & H5) Hk He. split; [lia|]. split; [lia|]. split; [lia|]. split; [lia|].
  intros j Hj. destruct (Z.lt_ge_cases j (x - a)); [apply H5; lia|].
  replace (a + j) with (x + (j - (x - a))) by lia. replace (b + j) with (y + (j - (x - a))) by lia.
  apply He. lia.
Qed.

Lemma memcmp_spec fuel a b n : 0 <= n -> n + 1 < Z.of_nat fuel ->
  exists r, memcmp fuel m a b n = Some r /\ compares m a b n r.
Proof.
  intros Hn Hf. unfold memcmp.
  assert (H0 : agreed a b n (a, b, n)).
  { repeat split; lia || (intros; lia). }
  assert (Hmid : exists st, (if negb (TOO_SMALL n) && negb (UNALIGNED2 a b) then
      loop fuel (fun '(a1, a2, n) =>
         if LBLOCKSIZE <=? n then
           if negb (load64 m a1 =? load64 m a2) then inr (a1, a2, n)
           else inl (a1 + 8, a2 + 8, n - LBLOCKSIZE)
         else inr (a1, a2, n)) (a, b, n) else Some (a, b, n)) = Some st /\ agreed a b n st).
  { destruct (_ && _); [|by eauto]. unfold LBLOCKSIZE.
    run_loop (agreed a b n) (fun st : Z * Z * Z => st.2) (agreed a b n) st Hst; [|done|cbn; lia|cbn; lia|by eauto].
    intros [[x y] k] Hs. destruct (Z.leb_spec 8 k); [|done].
    destruct (Z.eqb_spec (load64 m x) (load64 m y)) as [E|E]; cbn [negb]; [|done].
    rewrite load64_eq in E. cbn. split; [apply agreed_next; [done|lia|done]|lia]. }
  destruct Hmid as ([[x y] k] & -> & Hs). cbn [mbind option_bind]. pose proof Hs as (? & _ & ? & ? & _).
  run_loop (agreed a b n) (fun st : Z * Z * Z => st.2) (compares m a b n) r Hr; [|done|cbn; lia|cbn; lia|by eauto].
  intros [[x1 y1] k1] Hs1. pose proof Hs1 as (A1 & A2 & A3 & A4 & A5). byte_cases; cbn.
  - right. split; [|done]. intros j Hj. apply A5. lia.
  - split; [|lia]. apply agreed_next; [done|lia|]. intros j Hj. by replace j with 0 by lia; rewrite !Z.add_0_r.
  - left. exists (x1 - a). replace (a + (x1 - a)) with x1 by lia. replace (b + (x1 - a)) with y1 by lia.
    split; [lia|done].
Qed.

(** Neither end nor difference in the first [x - a] bytes. *)
Definition matched (a b : Z) (st : Z * Z) : Prop :=
  let '(x, y) := st in
  a <= x /\ y - b = x - a /\ forall j, 0 <= j < x - a -> m (a + j) <> 0 /\ m (a + j) = m (b + j).

Lemma matched_next a b x y k : matched a b (x, y) -> 0 <= k ->
  (forall j, 0 <= j < k -> m (x + j) <> 0 /\ m (x + j) = m (y + j)) -> matched a b (x + k, y + k).
Proof.
  intros (H1 & H2 & H3) Hk He. split; [lia|]. split; [lia|].
  intros j Hj. destruct (Z.lt_ge_cases j (x - a)); [apply H3; lia|].
  replace (a + j) with (x + (j - (x - a))) by lia. replace (b + j) with (y + (j - (x - a))) by lia.
  apply He. lia.
Qed.

(** A scan that has not reached position [i] yet. *)
Lemma matched_before a b i x y : stops_at m a b i -> matched a b (x, y) -> x - a <= i.
Proof.
  intros (H0 & Hi & _) (H1 & H2 & H3). destruct (Z.le_gt_cases (x - a) i); [done|].
  destruct (H3 i ltac:(lia)) as [Hnz He]. destruct Hi; done.
Qed.

Lemma matched_at a b i x y : stops_at m a b i -> matched a b (x, y) ->
  (m x = 0 \/ m x <> m y) -> i = x - a.
Proof.
  intros Hst Hm' Hx. pose proof (matched_before _ _ _ _ _ Hst Hm'). destruct Hst as (H0 & Hi & Hj).
  destruct Hm' as (H1 & H2 & H3). destruct (Z.eq_dec i (x - a)); [done|].
  destruct (Hj (x - a) ltac:(lia)) as [Hnz He].
  replace (a + (x - a)) with x in * by lia. replace (b + (x - a)) with y in * by lia. destruct Hx; done.
Qed.

(** A word that agrees and has no zero byte is passed; one that has is the end. *)
Lemma matched_word a b x y : matched a b (x, y) -> load64 m x = load64 m y ->
  if DETECTNULL (load64 m x) then exists k, 0 <= k < 8 /\ m (x + k) = 0 /\ m (y + k) = 0 /\
      matched a b (x + k, y + k)
  else matched a b (x + 8, y + 8).
Proof.
  intros Hs He. rewrite load64_eq in He. destruct (DETECTNULL (load64 m x)) eqn:E.
  - assert (Hex : exists k, 0 <= k < 8 /\ m (x + k) = 0 /\ forall j, 0 <= j < k -> m (x + j) <> 0).
    { assert (Hb : forall n : nat, (n <= 8)%nat ->
        (exists k, 0 <= k < Z.of_nat n /\ m (x + k) = 0 /\ forall j, 0 <= j < k -> m (x + j) <> 0) \/
        forall j, 0 <= j < Z.of_nat n -> m (x + j) <> 0).
      { induction n as [|k IH]; intros Hk; [right; intros; lia|].
        destruct (IH ltac:(lia)) as [(k' & Hk' & Hz & Hj)|Hj].
        - left. exists k'. split; [lia|done].
        - destruct (Z.eq_dec (m (x + Z.of_nat k)) 0) as [Hz|Hz].
          + left. exists (Z.of_nat k). split; [lia|done].
          + right. intros j Hj'. destruct (Z.eq_dec j (Z.of_nat k)) as [->|]; [done|]. apply Hj. lia. }
      destruct (Hb 8%nat ltac:(lia)) as [H|H]; [exact H|]. exfalso.
      assert (DETECTNULL (load64 m x) = false); [|congruence].
      apply detectnull_false; [done|]. intros w Hw. replace w with (x + (w - x)) by lia. apply H. lia. }
    destruct Hex as (k & Hk & Hz & Hj). exists k. split; [done|]. split; [done|].
    split; [by rewrite <- He by lia|]. apply matched_next; [done|lia|]. intros j Hj'.
    split; [by apply Hj|apply He; lia].
  - rewrite detectnull_false in E by done. apply matched_next; [done|lia|]. intros j Hj.
    split; [apply E; lia|by apply He].
Qed.

Lemma strcmp_spec fuel a b i : stops_at m a b i -> i + 1 < Z.of_nat fuel ->
  strcmp fuel m a b = Some (m (a + i) - m (b + i)).
Proof.
  intros Hi Hf. pose proof Hi as (Hi0 & _). unfold strcmp.
  assert (H0 : matched a b (a, b)) by (split; [lia|]; split; [lia|]; intros; lia).
  assert (Hmid : exists r : (Z * Z) + Z, (if negb (UNALIGNED2 a b) then
      loop fuel (fun '(a1, a2) =>
           if load64 m a1 =? load64 m a2 then
             if DETECTNULL (load64 m a1) then inr (inr 0) else inl (a1 + 8, a2 + 8)
           else inr (inl (a1, a2))) (a, b) else Some (inl (a, b))) = Some r /\
      match r with inl st => matched a b st | inr v => v = m (a + i) - m (b + i) end).
  { destruct (negb _); [|by eauto].
    run_loop (matched a b) (fun st : Z * Z => i - (st.1 - a))
      (fun r : (Z * Z) + Z => match r with inl st => matched a b st | inr v => v = m (a + i) - m (b + i) end)
      r Hr; [|done|cbn; lia|cbn; lia|by eauto].
    intros [x y] Hs. destruct (Z.eqb_spec (load64 m x) (load64 m y)) as [E|E]; [|done].
    pose proof (matched_word _ _ _ _ Hs E) as Hw. destruct (DETECTNULL (load64 m x)).
    - destruct Hw as (k & Hk & Hz & Hz' & Hmk).
      rewrite (matched_at _ _ _ _ _ Hi Hmk) by (by left). destruct Hmk as (? & ? & _).
      replace (a + (x + k - a)) with (x + k) by lia. replace (b + (x + k - a)) with (y + k) by lia. lia.
    - pose proof (matched_before _ _ _ _ _ Hi Hw). cbn. split; [done|lia]. }
  destruct Hmid as ([[x y]|v] & -> & Hs); cbn [mbind option_bind]; [|by subst v].
  pose proof (matched_before _ _ _ _ _ Hi Hs). pose proof Hs as (? & ? & _).
  run_loop (matched a b) (fun st : Z * Z => i - (st.1 - a)) (fun v => v = m (a + i) - m (b + i)) v Hv;
    [|done|cbn; lia|cbn; lia|by subst v].
  intros [x1 y1] Hs1. pose proof Hs1 as (A1 & A2 & A3).
  assert (Hend : m x1 = 0 \/ m x1 <> m y1 -> m x1 - m y1 = m (a + i) - m (b + i)).
  { intros Hd. rewrite (matched_at _ _ _ _ _ Hi Hs1 Hd).
    replace (a + (x1 - a)) with x1 by lia. replace (b + (x1 - a)) with y1 by lia. done. }
  byte_cases; cbn; try (apply Hend; tauto).
  assert (Hn : matched a b (x1 + 1, y1 + 1)).
  { apply matched_next; [done|lia|]. intros j Hj. by replace j with 0 by lia; rewrite !Z.add_0_r. }
  pose proof (matched_before _ _ _ _ _ Hi Hn). split; [done|lia].
Qed.

(** The outcome of a comparison of at most [n] bytes of two strings. *)
Definition ncompares (a b n r : Z) : Prop :=
  (exists i, i < n /\ stops_at m a b i /\ r = m (a + i) - m (b + i)) \/
  ((forall j, 0 <= j < n -> m (a + j) <> 0 /\ m (a + j) = m (b + j)) /\ r = 0).

Lemma matched_stops a b n x y : matched a b (x, y) -> (m x = 0 \/ m x <> m y) -> x - a < n ->
  ncompares a b n (m x - m y).
Proof.
  intros (H1 & H2 & H3) Hx Hn. left. exists (x - a). unfold stops_at.
  replace (a + (x - a)) with x by lia. replace (b + (x - a)) with y by lia.
  split; [done|]. split; [|done]. split; [lia|done].
Qed.

Lemma matched_all a b n x y : matched a b (x, y) -> n <= x - a -> ncompares a b n 0.
Proof. intros (H1 & H2 & H3) Hn. right. split; [|done]. intros j Hj. apply H3. lia. Qed.

Definition nmatched (a b n : Z) (st : Z * Z * Z) : Prop :=
  let '(x, y, k) := st in matched a b (x, y) /\ 0 < k /\ (x - a) + k = n.

Lemma strncmp_spec fuel a b n : 0 <= n -> n + 1 < Z.of_nat fuel ->
  exists r, strncmp fuel m a b n = Some r /\ ncompares a b n r.
Proof.
  intros Hn Hf. unfold strncmp. destruct (Z.eqb_spec n 0) as [->|Hne].
  { exists 0. split; [done|]. right. split; [intros; lia|done]. }
  assert (H0 : nmatched a b n (a, b, n)).
  { split; [split; [lia|]; split; [lia|]; intros; lia|lia]. }
  assert (Hmid : exists r : (Z * Z * Z) + Z, (if negb (UNALIGNED2 a b) then
      loop fuel (fun '(a1, a2, n) =>
           if (8 <=? n) && (load64 m a1 =? load64 m a2) then
             if (n - 8 =? 0) || DETECTNULL (load64 m a1) then inr (inr 0)
             else inl (a1 + 8, a2 + 8, n - 8)
           else inr (inl (a1, a2, n))) (a, b, n) else Some (inl (a, b, n))) = Some r /\
      match r with inl st => nmatched a b n st | inr v => ncompares a b n v end).
  { destruct (negb _); [|by eauto].
    run_loop (nmatched a b n) (fun st : Z * Z * Z => st.2)
      (fun r : (Z * Z * Z) + Z => match r with inl st => nmatched a b n st | inr v => ncompares a b n v end)
      r Hr; [|done|cbn; lia|cbn; lia|by eauto].
    intros [[x y] k] Hs. destruct (Z.leb_spec 8 k); cbn [andb]; [|done].
    destruct (Z.eqb_spec (load64 m x) (load64 m y)) as [E|E]; [|done]. destruct Hs as (Hs & Hk & Hkn).
    pose proof (matched_word _ _ _ _ Hs E) as Hw.
    destruct (DETECTNULL (load64 m x)); [rewrite orb_true_r|rewrite orb_false_r].
    - destruct Hw as (j & Hj & Hz & Hz' & Hmk). replace 0 with (m (x + j) - m (y + j)) by lia.
      apply matched_stops; [done|by left|lia].
    - destruct (Z.eqb_spec (k - 8) 0); [apply (matched_all _ _ _ _ _ Hw); lia|].
      cbn. split; [split; [done|lia]|lia]. }
  destruct Hmid as ([[[x y] k]|v] & -> & Hs); cbn [mbind option_bind]; [|by eauto].
  pose proof Hs as ((? & ? & _) & ? & ?).
  run_loop (nmatched a b n) (fun st : Z * Z * Z => st.2) (ncompares a b n) v Hv;
    [|done|cbn; lia|cbn; lia|by eauto].
  intros [[x1 y1] k1] (Hm1 & Hk1 & Hkn1). zdecide. cbn [andb].
  destruct (Z.eqb_spec (m x1) (m y1)) as [E|E]; [|apply matched_stops; [done|by right|lia]].
  destruct (Z.eqb_spec (m x1) 0) as [Ez|Ez]; [rewrite orb_true_r|rewrite orb_false_r].
  - replace 0 with (m x1 - m y1) by lia. apply matched_stops; [done|by left|lia].
  - assert (Hx : matched a b (x1 + 1, y1 + 1)).
    { apply matched_next; [done|lia|]. intros j Hj. by replace j with 0 by lia; rewrite !Z.add_0_r. }
    destruct (Z.eqb_spec (k1 - 1) 0); [apply (matched_all _ _ _ _ _ Hx); lia|].
    cbn. split; [split; [done|lia]|lia].
Qed.
End Compare.

(** ** Theorems *)

(** C36: the word-at-a-time searches find what a byte-by-byte search finds: with
    [fuel] above the distance, strlen gives the distance to the first NUL, strchr
    the first occurrence of the character (or null when the NUL comes first),
    memchr and memrchr the first and last occurrence among the given bytes (or
    null), and rawmemchr the first occurrence, at every alignment. *)
Theorem search_correct m fuel s c len z :
  mem_ok m -> 0 <= len -> len + 1 < Z.of_nat fuel -> z - s + 1 < Z.of_nat fuel ->
  (first m (fun b => b = 0) s z -> strlen fuel m s = Some (z - s)) /\
  (first m (fun b => b = 0 \/ b = uchar c) s z ->
     strchr fuel m s c = Some (if m z =? uchar c then z else 0)) /\
  (first m (fun b => b = uchar c) s z -> rawmemchr fuel m s c = Some z) /\
  (exists r, memchr fuel m s c len = Some r /\ finds m (uchar c) s len r) /\
  (exists r, memrchr fuel m s c len = Some r /\ finds_last m (uchar c) s len r).
Proof.
  intros Hm Hl Hf Hz. split; [|split; [|split; [|split]]]; intros.
  - by apply strlen_spec.
  - by apply strchr_spec.
  - by apply rawmemchr_spec.
  - by apply memchr_spec.
  - by apply memrchr_spec.
Qed.

(** The word-at-a-time comparisons return the difference of the first pair
    of bytes that differ, or 0: memcmp within [n] bytes, strcmp up to the end of
    the first string, strncmp up to either. *)
Theorem compare_correct m fuel a b n i :
  mem_ok m -> 0 <= n -> n + 1 < Z.of_nat fuel -> i + 1 < Z.of_nat fuel ->
  (exists r, memcmp fuel m a b n = Some r /\ compares m a b n r) /\
  (stops_at m a b i -> strcmp fuel m a b = Some (m (a + i) - m (b + i))) /\
  (exists r, strncmp fuel m a b n = Some r /\ ncompares m a b n r).
Proof.
  intros Hm Hn Hf Hi. split; [|split]; intros.
  - by apply memcmp_spec.
  - by apply strcmp_spec.
  - by apply strncmp_spec.
Qed.

(** ** Examples *)

(** "hello, world" at an address that is not aligned *)
Definition hello : list Z := [104; 101; 108; 108; 111; 44; 32; 119; 111; 114; 108; 100; 0].

Lemma hello_ok : mem_ok (bytes_at 1003 hello).
Proof. apply bytes_at_ok. repeat constructor; lia. Qed.

Lemma search_correct_witness :
  strlen 20 (bytes_at 1003 hello) 1003 = Some 12 /\
  exists r, memchr 20 (bytes_at 1003 hello) 1003 111 12 = Some r /\
    finds (bytes_at 1003 hello) 111 1003 12 r.
Proof.
  destruct (search_correct (bytes_at 1003 hello) 20 1003 111 12 1015 hello_ok
    ltac:(lia) ltac:(lia) ltac:(lia)) as (Hs & _ & _ & Hc & _).
  split; [|exact Hc]. apply Hs. split; [lia|]. split; [reflexivity|].
  intros x Hx. assert (Hin : x ∈ seqZ 1003 12) by (apply elem_of_seqZ; lia).
  assert (Hall : forallb (fun x => negb (bytes_at 1003 hello x =? 0)) (seqZ 1003 12) = true) by reflexivity.
  rewrite forallb_forall in Hall. apply list_elem_of_In, Hall in Hin. intros E. rewrite E in Hin.
  discriminate.
Defined.

Lemma compare_correct_witness :
  strcmp 20 (bytes_at 1000 hello) 1002 1003 = Some (108 - 108 + 108 - 111) /\
  exists r, memcmp 20 (bytes_at 1000 hello) 1000 1008 8 = Some r /\
    compares (bytes_at 1000 hello) 1000 1008 8 r.
Proof.
  destruct (compare_correct (bytes_at 1000 hello) 20 1000 1008 8 0) as (Hmc & _ & _);
    [apply bytes_at_ok; repeat constructor; lia|lia|lia|lia|].
  split; [|exact Hmc].
  destruct (compare_correct (bytes_at 1000 hello) 20 1002 1003 0 1) as (_ & Hsc & _);
    [apply bytes_at_ok; repeat constructor; lia|lia|lia|lia|].
  apply Hsc. split; [lia|]. split; [right; vm_compute; discriminate|].
  intros j Hj. replace j with 0 by lia. split; [vm_compute; discriminate|reflexivity].
Defined.
