(* ===== verification/CCopy.v ===== *)
(** The copying string functions of the guest's C library, in the word-at-a-time
    form that is compiled (libc/newlib/libc/string: memmove.c, mempcpy.c, bcopy.c,
    strcpy.c, stpcpy.c, strncpy.c, stpncpy.c, strcat.c, strncat.c, memccpy.c,
    strlcpy.c, strlcat.c): what memory is after them, and what they return. *)

From S2P Require Import Prelude CMem CSearch.

(** A function that writes memory returns it with its result. *)
Abbreviation copying := (option (mem * Z)).

Definition BIGBLOCKSIZE : Z := 32.

(** *aligned_dst++ = *aligned_src++ *)
Definition copy_word (m : mem) (d s : Z) : mem := store64 m d (load64 m s).
#[global] Arguments copy_word : simpl never.

(** ** Blocks of known length *)

(** The loops of memmove and mempcpy: four words, one word, one byte at a time. *)
Definition copy_blocks (fuel : nat) : mem * Z * Z * Z -> option (mem * Z * Z * Z) :=
  loop fuel (fun '(m, d, s, len) =>
    if BIGBLOCKSIZE <=? len then
      let m := copy_word m d s in
      let m := copy_word m (d + 8) (s + 8) in
      let m := copy_word m (d + 16) (s + 16) in
      let m := copy_word m (d + 24) (s + 24) in
      inl (m, d + 32, s + 32, len - BIGBLOCKSIZE)
    else inr (m, d, s, len)).
Definition copy_words (fuel : nat) : mem * Z * Z * Z -> option (mem * Z * Z * Z) :=
  loop fuel (fun '(m, d, s, len) =>
    if LBLOCKSIZE <=? len then inl (copy_word m d s, d + 8, s + 8, len - LBLOCKSIZE)
    else inr (m, d, s, len)).
Definition copy_bytes (fuel : nat) : mem * Z * Z * Z -> option (mem * Z * Z * Z) :=
  loop fuel (fun '(m, d, s, len) =>
    if len =? 0 then inr (m, d, s, len) else inl (upd m d (m s), d + 1, s + 1, len - 1)).

Definition copy_forward (fuel : nat) (m : mem) (dst src length : Z) : option (mem * Z * Z * Z) :=
  st ← (if negb (length <? BIGBLOCKSIZE) && negb (UNALIGNED2 src dst) then
          st ← copy_blocks fuel (m, dst, src, length); copy_words fuel st
        else Some (m, dst, src, length));
  copy_bytes fuel st.

Definition memmove (fuel : nat) (m : mem) (dst src length : Z) : copying :=
  if (src <? dst) && (dst <? src + length) then
    '(m, _) ← loop fuel (fun '(m, len) =>
      if len =? 0 then inr (m, len)
      else inl (upd m (dst + len - 1) (m (src + len - 1)), len - 1)) (m, length);
    Some (m, dst)
  else
    '(m, _, _, _) ← copy_forward fuel m dst src length;
    Some (m, dst).

Definition mempcpy (fuel : nat) (m : mem) (dst src len : Z) : copying :=
  '(m, dst, _, _) ← copy_forward fuel m dst src len;
  Some (m, dst).

Definition bcopy (fuel : nat) (m : mem) (b1 b2 length : Z) : copying :=
  memmove fuel m b2 b1 length.

(** ** Strings *)

(** while (!DETECTNULL ( *aligned_src)) *aligned_dst++ = *aligned_src++ *)
Definition copy_full_words (fuel : nat) : mem * Z * Z -> option (mem * Z * Z) :=
  loop fuel (fun '(m, d, s) =>
    if DETECTNULL (load64 m s) then inr (m, d, s) else inl (copy_word m d s, d + 8, s + 8)).
(** while (( *dst++ = *src++)) *)
Definition copy_string (fuel : nat) : mem * Z * Z -> option (mem * Z * Z) :=
  loop fuel (fun '(m, d, s) =>
    let m' := upd m d (m s) in
    if m s =? 0 then inr (m', d + 1, s + 1) else inl (m', d + 1, s + 1)).

Definition strcpy (fuel : nat) (m : mem) (dst0 src0 : Z) : copying :=
  st ← (if negb (UNALIGNED2 src0 dst0) then copy_full_words fuel (m, dst0, src0)
        else Some (m, dst0, src0));
  '(m, _, _) ← copy_string fuel st;
  Some (m, dst0).

Definition stpcpy (fuel : nat) (m : mem) (dst src : Z) : copying :=
  st ← (if negb (UNALIGNED2 src dst) then copy_full_words fuel (m, dst, src)
        else Some (m, dst, src));
  '(m, dst, _) ← copy_string fuel st;
  Some (m, dst - 1).

(** The end of the string at [s1], a word at a time when it is aligned. *)
Definition string_end (fuel : nat) (m : mem) (s1 : Z) : option Z :=
  a ← (if UNALIGNED s1 then Some s1 else skip_words fuel m s1);
  skip_bytes fuel m a.

Definition strcat (fuel : nat) (m : mem) (s1 s2 : Z) : copying :=
  e ← string_end fuel m s1;
  '(m, _) ← strcpy fuel m e s2;
  Some (m, s1).

Definition strncat (fuel : nat) (m : mem) (s1 s2 n : Z) : copying :=
  e ← string_end fuel m s1;
  m ← loop fuel (fun '(m, d, s, n) =>
        if n =? 0 then inr m
        else
          let c := m s in
          let m := upd m d c in
          if c =? 0 then inr m
          else inl (if n - 1 =? 0 then upd m (d + 1) 0 else m, d + 1, s + 1, n - 1))
        (m, e, s2, n);
  Some (m, s1).

(** The copy of at most [count] characters that strncpy and stpncpy share; the
    last component is what stpncpy's ret becomes. *)
Definition copy_n_words (fuel : nat) (m : mem) (dst src count : Z) : option (mem * Z * Z * Z) :=
  if negb (UNALIGNED2 src dst) && negb (TOO_SMALL count) then
    loop fuel (fun '(m, d, s, n) =>
      if (8 <=? n) && negb (DETECTNULL (load64 m s)) then inl (copy_word m d s, d + 8, s + 8, n - 8)
      else inr (m, d, s, n)) (m, dst, src, count)
  else Some (m, dst, src, count).
Definition copy_n_string (fuel : nat) : mem * Z * Z * Z -> option (mem * Z * Z * option Z) :=
  loop fuel (fun '(m, d, s, n) =>
    if 0 <? n then
      let c := m s in
      let m := upd m d c in
      if c =? 0 then inr (m, d + 1, n - 1, Some (d + 1 - 1)) else inl (m, d + 1, s + 1, n - 1)
    else inr (m, d, n, None)).
Definition pad_zeros (fuel : nat) : mem * Z * Z -> option (mem * Z) :=
  loop fuel (fun '(m, d, n) => if 0 <? n then inl (upd m d 0, d + 1, n - 1) else inr (m, d)).

Definition strncpy (fuel : nat) (m : mem) (dst0 src0 count : Z) : copying :=
  st ← copy_n_words fuel m dst0 src0 count;
  '(m, d, n, _) ← copy_n_string fuel st;
  '(m, _) ← pad_zeros fuel (m, d, n);
  Some (m, dst0).

Definition stpncpy (fuel : nat) (m : mem) (dst src count : Z) : copying :=
  st ← copy_n_words fuel m dst src count;
  '(m, d, n, ret) ← copy_n_string fuel st;
  '(m, d) ← pad_zeros fuel (m, d, n);
  Some (m, match ret with Some r => if r =? 0 then d else r | None => d end).

(** ** memccpy *)

(** for (i = 0; i < 8; i++) mask = (mask << 8) + endchar, with endchar a char *)
Definition memccpy_mask (endchar : Z) : Z :=
  fold_left (fun mask _ => u64 (u64 (Z.shiftl mask 8) + endchar)) (seq 0 8) 0.

(** Whole words, up to one in which the masked test finds the character. *)
Definition memccpy_words (fuel : nat) (mask : Z) : mem * Z * Z * Z -> option (mem * Z * Z * Z) :=
  loop fuel (fun '(m, d, s, len) =>
    if LBLOCKSIZE <=? len then
      if DETECTNULL (Z.lxor (load64 m s) mask) then inr (m, d, s, len)
      else inl (copy_word m d s, d + 8, s + 8, len - LBLOCKSIZE)
    else inr (m, d, s, len)).

(** Bytes, up to and including the character. *)
Definition memccpy_bytes (fuel : nat) (endchar : Z) : mem * Z * Z * Z -> copying :=
  loop fuel (fun '(m, d, s, len) =>
    if len =? 0 then inr (m, 0)
    else
      let c := m s in
      let m := upd m d c in
      if schar c =? endchar then inr (m, d + 1) else inl (m, d + 1, s + 1, len - 1)).

Definition memccpy (fuel : nat) (m : mem) (dst0 src0 endchar0 len0 : Z) : copying :=
  let endchar := schar (Z.land endchar0 0xff) in
  st ← (if negb (TOO_SMALL len0) && negb (UNALIGNED2 src0 dst0)
        then memccpy_words fuel (memccpy_mask endchar) (m, dst0, src0, len0)
        else Some (m, dst0, src0, len0));
  memccpy_bytes fuel endchar st.

(** ** strlcpy and strlcat *)

Definition strlcpy (fuel : nat) (m : mem) (dst src siz : Z) : copying :=
  '(m, d, s, n) ←
    (if siz =? 0 then Some (m, dst, src, 0)
     else if siz - 1 =? 0 then Some (m, dst, src, 0)
     else loop fuel (fun '(m, d, s, n) =>
            let c := m s in
            let m := upd m d c in
            if c =? 0 then inr (m, d + 1, s + 1, n)
            else if n - 1 =? 0 then inr (m, d + 1, s + 1, 0) else inl (m, d + 1, s + 1, n - 1))
          (m, dst, src, siz - 1));
  if n =? 0 then
    let m := if siz =? 0 then m else upd m d 0 in
    e ← skip_bytes fuel m s;
    Some (m, e + 1 - src - 1)
  else Some (m, s - src - 1).

(** Copy to the end of the source, but no more than fits before the terminator. *)
Definition append_room (fuel : nat) : mem * Z * Z * Z -> option (mem * Z * Z) :=
  loop fuel (fun '(m, d, s, n) =>
    if m s =? 0 then inr (m, d, s)
    else if n =? 1 then inl (m, d, s + 1, n) else inl (upd m d (m s), d + 1, s + 1, n - 1)).

Definition strlcat (fuel : nat) (m : mem) (dst src siz : Z) : copying :=
  d ← loop fuel (fun '(d, n) =>
        if negb (n =? 0) && negb (m d =? 0) then inl (d + 1, n - 1) else inr d) (dst, siz);
  let dlen := d - dst in
  let n := siz - dlen in
  if n =? 0 then
    l ← strlen fuel m src;
    Some (m, dlen + l)
  else
    '(m, d, s) ← append_room fuel (m, d, src, n);
    Some (upd m d 0, dlen + (s - src)).

(** ** What they do *)

Definition meq (m m' : mem) : Prop := forall x, m x = m' x.
#[export] Instance meq_equivalence : Equivalence meq.
Proof. split; [by intros m x|by intros m1 m2 H x|intros m1 m2 m3 H1 H2 x; by rewrite H1]. Qed.
#[export] Instance upd_proper : Proper (meq ==> eq ==> eq ==> meq) upd.
Proof. intros m1 m2 H a ? <- v ? <- x. unfold upd. by rewrite H. Qed.

(** [m] after the [k] bytes at [s] were copied to [d]. *)
Definition copied (m : mem) (d s k : Z) : mem := fun x =>
  if (d <=? x) && (x <? d + k) then m (s + (x - d)) else m x.

(** Copying [n] bytes forward does not overwrite what is still to be read. *)
Definition forward (d s n : Z) : Prop := d <= s \/ s + n <= d.

Section Copy.
Context (m : mem) (Hm : mem_ok m).

Lemma copied_ok m' d s k : meq m' (copied m d s k) -> mem_ok m'.
Proof. intros H x. rewrite H. unfold copied. destruct (_ && _); apply Hm. Qed.

Lemma copied_out d s k x : ~ (d <= x < d + k) -> copied m d s k x = m x.
Proof. intros H. unfold copied. byte_cases; try done; lia. Qed.

Lemma copied_unread d s n k x : forward d s n -> 0 <= k -> s + k <= x < s + n -> copied m d s k x = m x.
Proof. intros Hf Hk Hx. apply copied_out. destruct Hf; lia. Qed.

Lemma copied_word m' d s n k : meq m' (copied m d s k) -> forward d s n -> 0 <= k -> k + 8 <= n ->
  meq (copy_word m' (d + k) (s + k)) (copied m d s (k + 8)).
Proof.
  intros He Hf Hk Hn x. unfold copy_word, store64, load64.
  rewrite store_load by (by eapply copied_ok).
  change (Z.of_nat 8) with 8. destruct (Z.leb_spec (d + k) x), (Z.ltb_spec x (d + k + 8)); cbn [andb].
  - rewrite He, (copied_unread d s n) by (lia || done). unfold copied. zdecide. cbn [andb]. f_equal. lia.
  - rewrite He. unfold copied. byte_cases; (lia || done).
  - rewrite He. unfold copied. byte_cases; (lia || done).
  - rewrite He. unfold copied. byte_cases; (lia || done).
Qed.

Lemma copied_byte m' d s n k : meq m' (copied m d s k) -> forward d s n -> 0 <= k -> k + 1 <= n ->
  m' (s + k) = m (s + k) /\ meq (upd m' (d + k) (m' (s + k))) (copied m d s (k + 1)).
Proof.
  intros He Hf Hk Hn. assert (E : m' (s + k) = m (s + k)) by (rewrite He; apply (copied_unread d s n); (lia || done)).
  split; [done|]. intros x. unfold upd. rewrite E. destruct (Z.eqb_spec x (d + k)) as [->|].
  - unfold copied. zdecide. cbn [andb]. f_equal. lia.
  - rewrite He. unfold copied. byte_cases; (lia || done).
Qed.

(** [k] of [n] bytes are copied. *)
Definition copied_to (d s n : Z) (st : mem * Z * Z * Z) : Prop :=
  let '(m', d', s', len) := st in
  exists k, 0 <= k /\ d' = d + k /\ s' = s + k /\ 0 <= len /\ k + len = n /\ meq m' (copied m d s k).

Lemma copied_to_start d s n : 0 <= n -> copied_to d s n (m, d, s, n).
Proof.
  intros Hn. exists 0. repeat (split; [lia|]). intros x. symmetry. apply copied_out. lia.
Qed.

Lemma copied_to_word d s n m' d' s' len : forward d s n -> copied_to d s n (m', d', s', len) ->
  8 <= len -> copied_to d s n (copy_word m' d' s', d' + 8, s' + 8, len - 8).
Proof.
  intros Hf (k & Hk & -> & -> & Hl & Hkn & He) H8. exists (k + 8).
  repeat (split; [lia|]). apply copied_word with n; (lia || done).
Qed.

Lemma copied_to_byte d s n m' d' s' len : forward d s n -> copied_to d s n (m', d', s', len) ->
  len <> 0 -> m' s' = m s' /\ copied_to d s n (upd m' d' (m' s'), d' + 1, s' + 1, len - 1).
Proof.
  intros Hf (k & Hk & -> & -> & Hl & Hkn & He) H1.
  destruct (copied_byte _ _ _ n _ He Hf Hk ltac:(lia)) as [E Hb]. split; [done|].
  exists (k + 1). repeat (split; [lia|]). done.
Qed.

Lemma copied_to_len d s n m' d' s' len : copied_to d s n (m', d', s', len) -> 0 <= len <= n.
Proof. intros (k & ?). lia. Qed.

Lemma copy_forward_spec fuel d s n : 0 <= n -> n < Z.of_nat fuel -> forward d s n ->
  exists m', copy_forward fuel m d s n = Some (m', d + n, s + n, 0) /\ meq m' (copied m d s n).
Proof.
  intros Hn Hf Hfw. unfold copy_forward.
  assert (Hmid : exists st, (if negb (n <? BIGBLOCKSIZE) && negb (UNALIGNED2 s d) then
      st ← copy_blocks fuel (m, d, s, n); copy_words fuel st else Some (m, d, s, n)) = Some st /\
      copied_to d s n st).
  { destruct (_ && _); [|eauto using copied_to_start]. unfold copy_blocks, copy_words, BIGBLOCKSIZE, LBLOCKSIZE.
    run_loop (copied_to d s n) (fun st : mem * Z * Z * Z => st.2) (copied_to d s n) st Hst;
      [|by apply copied_to_start|cbn; lia|cbn; lia|].
    - intros [[[m' d'] s'] len] Hs. pose proof (copied_to_len _ _ _ _ _ _ _ Hs) as Hlen.
      destruct (Z.leb_spec 32 len); [|done]. cbn. split; [|lia].
      apply copied_to_word in Hs; [|done|lia]. apply copied_to_word in Hs; [|done|lia].
      apply copied_to_word in Hs; [|done|lia]. apply copied_to_word in Hs; [|done|lia].
      rewrite <- !Z.add_assoc in Hs. replace (len - 8 - 8 - 8 - 8) with (len - 32) in Hs by lia. done.
    - cbn [mbind option_bind]. destruct st as [[[m1 d1] s1] len1].
      pose proof (copied_to_len _ _ _ _ _ _ _ Hst).
      run_loop (copied_to d s n) (fun st : mem * Z * Z * Z => st.2) (copied_to d s n) st2 Hst2;
        [|done|cbn; lia|cbn; lia|by eauto].
      intros [[[m' d'] s'] len] Hs. pose proof (copied_to_len _ _ _ _ _ _ _ Hs) as Hlen.
      destruct (Z.leb_spec 8 len); [|done]. cbn. split; [by apply copied_to_word|lia]. }
  destruct Hmid as ([[[m1 d1] s1] len1] & -> & Hst). cbn [mbind option_bind]. unfold copy_bytes.
  pose proof (copied_to_len _ _ _ _ _ _ _ Hst).
  run_loop (copied_to d s n) (fun st : mem * Z * Z * Z => st.2)
    (fun st : mem * Z * Z * Z => st.2 = 0 /\ copied_to d s n st) r Hr; [|done|cbn; lia|cbn; lia|].
  - intros [[[m' d'] s'] len] Hs. pose proof (copied_to_len _ _ _ _ _ _ _ Hs) as Hlen.
    byte_cases; cbn; [done|]. split; [by apply copied_to_byte|lia].
  - destruct r as [[[m' d'] s'] len]. cbn in Hr. destruct Hr as (-> & k & _ & -> & -> & _ & Hk & He).
    assert (k = n) as -> by lia. by eauto.
Qed.

Lemma memmove_spec fuel d s n : 0 <= n -> n < Z.of_nat fuel ->
  exists m', memmove fuel m d s n = Some (m', d) /\ meq m' (copied m d s n).
Proof.
  intros Hn Hf. unfold memmove.
  destruct (Z.ltb_spec s d) as [Hsd|Hsd], (Z.ltb_spec d (s + n)) as [Hdn|Hdn]; cbn [andb].
  2-4: destruct (copy_forward_spec fuel d s n Hn Hf) as (m' & -> & He);
       [unfold forward; lia|by exists m'].
  run_loop (fun st : mem * Z => let '(m', len) := st in 0 <= len <= n /\
      forall x, m' x = if (d + len <=? x) && (x <? d + n) then m (s + (x - d)) else m x)
    (fun st : mem * Z => st.2)
    (fun st : mem * Z => meq st.1 (copied m d s n)) r Hr; [| |cbn; lia|cbn; lia|].
  - intros [m' len] [Hl He]. byte_cases; cbn.
    + subst len. intros x. rewrite He. unfold copied. by rewrite Z.add_0_r.
    + split; [|lia]. split; [lia|]. intros x. unfold upd. rewrite (He (s + len - 1)).
      replace ((d + len <=? s + len - 1) && _) with false by (byte_cases; (lia || done)).
      destruct (Z.eqb_spec x (d + len - 1)) as [->|]; [zdecide; cbn [andb]; f_equal; lia|].
      rewrite He. byte_cases; (lia || done).
  - cbn. split; [lia|]. intros x. byte_cases; (lia || done).
  - destruct r as [m' len]. cbn [mbind option_bind]. by exists m'.
Qed.

(** *** Strings *)

Lemma copied_to_unread d s n m' d' s' len x : forward d s n -> copied_to d s n (m', d', s', len) ->
  s' <= x < s + n -> m' x = m x.
Proof.
  intros Hf (k & Hk & -> & -> & Hl & Hkn & He) Hx. rewrite He. apply (copied_unread d s n); (lia || done).
Qed.

(** A word without zero bytes lies before the end of the source. *)
Lemma copied_to_full_word d s n m' d' s' len : forward d s n -> copied_to d s n (m', d', s', len) ->
  0 < len -> (m (s + n - 1) = 0) -> DETECTNULL (load64 m' s') = false -> 8 < len.
Proof.
  intros Hf Hc Hl Hz Hd. pose proof Hc as (k & Hk & _ & Hs' & _ & Hkn & He).
  rewrite detectnull_false in Hd by (by eapply copied_ok).
  destruct (Z.lt_ge_cases 8 len); [done|]. exfalso. apply (Hd (s + n - 1)); [lia|].
  rewrite (copied_to_unread _ _ _ _ _ _ _ _ Hf Hc) by lia. done.
Qed.

Lemma string_copy_spec fuel d s z : first m (fun b => b = 0) s z -> forward d s (z - s + 1) ->
  z - s + 1 < Z.of_nat fuel ->
  exists m', (st ← (if negb (UNALIGNED2 s d) then copy_full_words fuel (m, d, s) else Some (m, d, s));
              copy_string fuel st) = Some (m', d + (z - s + 1), z + 1) /\
    meq m' (copied m d s (z - s + 1)).
Proof.
  intros Hz Hf Hfuel. pose proof Hz as (Hsz & Hz0 & Hnz). set (n := z - s + 1) in *.
  set (Inv := fun st : mem * Z * Z => let '(m', d', s') := st in s' <= z /\
         copied_to d s n (m', d', s', n - (s' - s))).
  assert (H0 : Inv (m, d, s)).
  { split; [lia|]. replace (n - (s - s)) with n by lia. apply copied_to_start. lia. }
  assert (Hmid : exists st, (if negb (UNALIGNED2 s d) then copy_full_words fuel (m, d, s)
      else Some (m, d, s)) = Some st /\ Inv st).
  { destruct (negb _); [|by eauto]. unfold copy_full_words.
    run_loop Inv (fun st : mem * Z * Z => z - st.2) Inv st Hst; [|done|cbn; lia|cbn; lia|by eauto].
    intros [[m' d'] s'] [Hle Hc]. destruct (DETECTNULL (load64 m' s')) eqn:E; [done|]. cbn.
    pose proof (copied_to_full_word _ _ _ _ _ _ _ Hf Hc ltac:(lia)
      ltac:(by replace (s + n - 1) with z by lia) E).
    split; [|lia]. split; [lia|]. apply copied_to_word in Hc; [|done|lia].
    by replace (n - (s' + 8 - s)) with (n - (s' - s) - 8) by lia. }
  destruct Hmid as ([[m1 d1] s1] & -> & Hst). cbn [mbind option_bind]. unfold copy_string.
  pose proof Hst as (? & k & Hk & _ & Hks & _).
  run_loop Inv (fun st : mem * Z * Z => z - st.2)
    (fun st : mem * Z * Z => let '(m', d', s') := st in d' = d + n /\ s' = z + 1 /\ meq m' (copied m d s n))
    r Hr; [|done|cbn; lia|cbn; lia|].
  - intros [[m' d'] s'] [Hle Hc]. destruct (copied_to_byte _ _ _ _ _ _ _ Hf Hc ltac:(lia)) as [E Hc'].
    pose proof Hc as (k1 & Hk1 & _ & Hks1 & _). byte_cases.
    + assert (s' = z) as ->.
      { destruct (Z.eq_dec s' z); [done|]. exfalso. apply (Hnz s'); [lia|congruence]. }
      destruct Hc' as (k' & ? & ? & ? & ? & ? & He). assert (k' = n) as -> by lia.
      split; [lia|]. split; [lia|done].
    + assert (s' <> z) by congruence. cbn. split; [|lia]. split; [lia|].
      by replace (n - (s' + 1 - s)) with (n - (s' - s) - 1) by lia.
  - destruct r as [[m' d'] s']. destruct Hr as (-> & -> & He). by eauto.
Qed.

Lemma strcpy_spec fuel d s z : first m (fun b => b = 0) s z -> forward d s (z - s + 1) ->
  z - s + 1 < Z.of_nat fuel ->
  (exists m', strcpy fuel m d s = Some (m', d) /\ meq m' (copied m d s (z - s + 1))) /\
  (exists m', stpcpy fuel m d s = Some (m', d + (z - s)) /\ meq m' (copied m d s (z - s + 1))).
Proof.
  intros Hz Hf Hfuel. destruct (string_copy_spec fuel d s z Hz Hf Hfuel) as (m' & E & He).
  unfold strcpy, stpcpy. destruct (if negb (UNALIGNED2 s d) then _ else _) as [st|]; [|done].
  cbn [mbind option_bind] in *. rewrite E. cbn [mbind option_bind]. split; exists m'; [done|].
  split; [|done]. do 2 f_equal. lia.
Qed.

Lemma string_end_spec fuel s z : first m (fun b => b = 0) s z -> z - s + 1 < Z.of_nat fuel ->
  string_end fuel m s = Some z.
Proof.
  intros Hz Hf. pose proof Hz as (Hsz & _). unfold string_end. destruct (UNALIGNED s); cbn [mbind option_bind].
  - by apply skip_bytes_spec; [|lia].
  - destruct (skip_words_spec m Hm fuel s z Hz) as (a & -> & Ha & Hsa); [lia|]. cbn [mbind option_bind].
    by apply skip_bytes_spec; [|lia].
Qed.

Lemma strcat_spec fuel s1 z1 s2 z2 :
  first m (fun b => b = 0) s1 z1 -> first m (fun b => b = 0) s2 z2 ->
  forward z1 s2 (z2 - s2 + 1) -> z1 - s1 + 1 < Z.of_nat fuel -> z2 - s2 + 1 < Z.of_nat fuel ->
  exists m', strcat fuel m s1 s2 = Some (m', s1) /\ meq m' (copied m z1 s2 (z2 - s2 + 1)).
Proof.
  intros H1 H2 Hf Hf1 Hf2. unfold strcat. rewrite (string_end_spec fuel s1 z1 H1 Hf1). cbn [mbind option_bind].
  destruct (strcpy_spec fuel z1 s2 z2 H2 Hf Hf2) as [(m' & -> & He) _]. by exists m'.
Qed.

(** [k] bytes copied and a NUL put after them. *)
Definition terminated (d s k : Z) : mem := fun x => if x =? d + k then 0 else copied m d s k x.

(** [k] is the length of the string at [s], or [n] when it is longer. *)
Definition prefix_len (s n k : Z) : Prop :=
  0 <= k <= n /\ (forall j, 0 <= j < k -> m (s + j) <> 0) /\ (k < n -> m (s + k) = 0).

Lemma strncat_spec fuel s1 z1 s2 n k :
  first m (fun b => b = 0) s1 z1 -> prefix_len s2 n k -> forward z1 s2 (k + 1) ->
  z1 - s1 + 1 < Z.of_nat fuel -> n + 1 < Z.of_nat fuel ->
  exists m', strncat fuel m s1 s2 n = Some (m', s1) /\ meq m' (terminated z1 s2 k).
Proof.
  intros H1 (Hk & Hnz & Hend) Hf Hf1 Hf2. unfold strncat. rewrite (string_end_spec fuel s1 z1 H1 Hf1).
  cbn [mbind option_bind]. destruct H1 as (_ & Hz1 & _).
  set (Inv := fun st : mem * Z * Z * Z => let '(m', d', s', n') := st in exists j, 0 <= j <= k /\
    d' = z1 + j /\ s' = s2 + j /\ n' = n - j /\
    (n' = 0 -> meq m' (terminated z1 s2 j)) /\ (n' <> 0 -> meq m' (copied m z1 s2 j))).
  run_loop Inv (fun st : mem * Z * Z * Z => st.2) (fun m' => meq m' (terminated z1 s2 k)) r Hr;
    [| |cbn; lia|cbn; lia|].
  - intros [[[m' d'] s'] n'] (j & Hj & -> & -> & -> & Ha & Hb). destruct (Z.eqb_spec (n - j) 0) as [E|E].
    { assert (j = k) as -> by lia. by apply Ha. }
    specialize (Hb E). destruct (copied_byte _ _ _ (k + 1) _ Hb Hf ltac:(lia) ltac:(lia)) as [Ec Hc].
    destruct (Z.eqb_spec (m' (s2 + j)) 0) as [Ez|Ez].
    + assert (j = k) as ->.
      { destruct (Z.eq_dec j k); [done|]. exfalso. apply (Hnz j); [lia|congruence]. }
      intros x. unfold upd, terminated. destruct (Z.eqb_spec x (z1 + k)); [lia|apply Hb].
    + assert (j < k).
      { destruct (Z.eq_dec j k) as [->|]; [|lia]. exfalso. apply Ez. rewrite Ec. apply Hend. lia. }
      cbn. split; [|destruct (n - j - 1 =? 0); lia].
      exists (j + 1). split; [lia|]. split; [lia|]. split; [lia|]. split; [lia|].
      destruct (Z.eqb_spec (n - j - 1) 0) as [E1|E1]; split; intros H'; try lia; [|done].
      intros x. unfold upd at 1, terminated.
      destruct (Z.eqb_spec x (z1 + j + 1)), (Z.eqb_spec x (z1 + (j + 1))); try lia. apply Hc.
  - exists 0. rewrite !Z.add_0_r, Z.sub_0_r. repeat (split; [lia|]). split; intros Hn0 x.
    + unfold terminated. rewrite copied_out by lia. destruct (Z.eqb_spec x (z1 + 0)) as [->|]; [|done].
      by rewrite Z.add_0_r.
    + symmetry. apply copied_out. lia.
  - cbn [mbind option_bind]. by exists r.
Qed.

(** *** strncpy *)

(** [k] bytes copied and zeros up to [count]. *)
Definition padded (d s k count : Z) : mem := fun x =>
  if (d <=? x) && (x <? d + count) then (if x <? d + k then m (s + (x - d)) else 0) else m x.

Lemma pad_zeros_spec fuel m0 d n : 0 <= n -> n < Z.of_nat fuel ->
  exists m', pad_zeros fuel (m0, d, n) = Some (m', d + n) /\
    forall x, m' x = if (d <=? x) && (x <? d + n) then 0 else m0 x.
Proof.
  intros Hn Hf. unfold pad_zeros.
  run_loop (fun st : mem * Z * Z => let '(m', d', n') := st in 0 <= n' <= n /\ d' = d + (n - n') /\
      forall x, m' x = if (d <=? x) && (x <? d') then 0 else m0 x)
    (fun st : mem * Z * Z => st.2)
    (fun r : mem * Z => r.2 = d + n /\ forall x, r.1 x = if (d <=? x) && (x <? d + n) then 0 else m0 x)
    r Hr; [| |cbn; lia|cbn; lia|].
  - intros [[m' d'] n'] (Hn' & -> & He). destruct (Z.ltb_spec 0 n'); cbn.
    + split; [|lia]. split; [lia|]. split; [lia|]. intros x. unfold upd.
      destruct (Z.eqb_spec x (d + (n - n'))); [subst x; byte_cases; (lia || done)|].
      rewrite He. byte_cases; (lia || done).
    + replace n' with 0 in * by lia. rewrite Z.sub_0_r in He. split; [lia|done].
  - cbn. split; [lia|]. split; [lia|]. intros x. byte_cases; (lia || done).
  - destruct r as [m' d']. cbn in Hr. destruct Hr as [-> He]. by eauto.
Qed.

(** [j] characters of the source are copied, none of them NUL. *)
Definition ncopied (d s count k : Z) (st : mem * Z * Z * Z) : Prop :=
  let '(m', d', s', c) := st in
  exists j, 0 <= j <= k /\ d' = d + j /\ s' = s + j /\ c = count - j /\ meq m' (copied m d s j).

Lemma copy_n_words_spec fuel d s count k : prefix_len s count k -> forward d s (Z.min (k + 1) count) ->
  count < Z.of_nat fuel ->
  exists st, copy_n_words fuel m d s count = Some st /\ ncopied d s count k st.
Proof.
  intros (Hk & Hnz & Hend) Hf Hfuel. unfold copy_n_words.
  assert (H0 : ncopied d s count k (m, d, s, count)).
  { exists 0. repeat (split; [lia|]). intros x. symmetry. apply copied_out. lia. }
  destruct (_ && _); [|by eauto].
  run_loop (ncopied d s count k) (fun st : mem * Z * Z * Z => st.2) (ncopied d s count k) st Hst;
    [|done|cbn; lia|cbn; lia|by eauto].
  intros [[[m' d'] s'] c] (j & Hj & -> & -> & -> & He). destruct (Z.leb_spec 8 (count - j)); cbn [andb].
  2: by exists j.
  destruct (DETECTNULL (load64 m' (s + j))) eqn:E; cbn [negb]; [by exists j|]. cbn.
  rewrite detectnull_false in E by (by eapply copied_ok).
  assert (j + 8 <= k).
  { destruct (Z.le_gt_cases (j + 8) k); [done|]. exfalso. apply (E (s + k)); [lia|].
    rewrite He, (copied_unread d s (Z.min (k + 1) count)) by (lia || done). apply Hend. lia. }
  split; [|lia]. exists (j + 8). repeat (split; [lia|]).
  apply copied_word with (Z.min (k + 1) count); (lia || done).
Qed.

Lemma copy_n_string_spec fuel d s count k st : prefix_len s count k ->
  forward d s (Z.min (k + 1) count) -> count < Z.of_nat fuel -> ncopied d s count k st ->
  exists m', meq m' (copied m d s (Z.min (k + 1) count)) /\
    copy_n_string fuel st = Some (if k <? count then (m', d + k + 1, count - k - 1, Some (d + k))
                                  else (m', d + count, 0, None)).
Proof.
  intros (Hk & Hnz & Hend) Hf Hfuel Hst. unfold copy_n_string.
  run_loop (ncopied d s count k) (fun st : mem * Z * Z * Z => st.2)
    (fun r : mem * Z * Z * option Z => meq r.1.1.1 (copied m d s (Z.min (k + 1) count)) /\
       r = if k <? count then (r.1.1.1, d + k + 1, count - k - 1, Some (d + k))
           else (r.1.1.1, d + count, 0, None)) r Hr; [|done| | |].
  - intros [[[m' d'] s'] c] (j & Hj & -> & -> & -> & He). destruct (Z.ltb_spec 0 (count - j)); cbn.
    + destruct (copied_byte _ _ _ (Z.min (k + 1) count) _ He Hf ltac:(lia) ltac:(lia)) as [Ec Hc].
      destruct (Z.eqb_spec (m' (s + j)) 0) as [Ez|Ez]; cbn.
      * assert (j = k) as ->.
        { destruct (Z.eq_dec j k); [done|]. exfalso. apply (Hnz j); [lia|congruence]. }
        zdecide. replace (Z.min (k + 1) count) with (k + 1) by lia.
        replace (d + k + 1 - 1) with (d + k) by lia. done.
      * assert (j < k).
        { destruct (Z.eq_dec j k) as [->|]; [|lia]. exfalso. apply Ez. rewrite Ec. apply Hend. lia. }
        split; [|lia]. exists (j + 1). repeat (split; [lia|]). done.
    + assert (j = count /\ k = count) as [-> ->] by lia. zdecide.
      replace (Z.min (count + 1) count) with count by lia. replace (count - count) with 0 by lia. done.
  - destruct st as [[[m1 d1] s1] c1]. destruct Hst as (j & ?). cbn. lia.
  - destruct st as [[[m1 d1] s1] c1]. destruct Hst as (j & ?). cbn. lia.
  - destruct Hr as [Hr1 ->]. exists r.1.1.1. destruct (k <? count); done.
Qed.

(** The bytewise copy and the padding after it. *)
Lemma copy_pad_spec fuel d s count k st : prefix_len s count k -> forward d s (Z.min (k + 1) count) ->
  count < Z.of_nat fuel -> ncopied d s count k st ->
  exists m1 d1 n1 m2,
    copy_n_string fuel st = Some (m1, d1, n1, if k <? count then Some (d + k) else None) /\
    pad_zeros fuel (m1, d1, n1) = Some (m2, d + count) /\ meq m2 (padded d s k count).
Proof.
  intros Hp Hf Hfuel Hst. pose proof Hp as (Hk & _).
  destruct (copy_n_string_spec fuel d s count k st Hp Hf Hfuel Hst) as (m1 & Hm1 & E2).
  rewrite E2. destruct (Z.ltb_spec k count).
  - destruct (pad_zeros_spec fuel m1 (d + k + 1) (count - k - 1) ltac:(lia) ltac:(lia)) as (m2 & E3 & Hm2).
    exists m1, (d + k + 1), (count - k - 1), m2. split; [done|].
    split; [rewrite E3; do 2 f_equal; lia|].
    destruct Hp as (_ & _ & Hend). intros x. rewrite Hm2, Hm1. unfold padded, copied.
    byte_cases; try lia; try done. replace (s + (x - d)) with (s + k) by lia. rewrite Hend; (lia || done).
  - assert (k = count) as -> by lia.
    destruct (pad_zeros_spec fuel m1 (d + count) 0 ltac:(lia) ltac:(lia)) as (m2 & E3 & Hm2).
    exists m1, (d + count), 0, m2. split; [done|]. split; [rewrite E3; do 2 f_equal; lia|].
    intros x. rewrite Hm2, Hm1. unfold padded, copied. replace (Z.min (count + 1) count) with count by lia.
    byte_cases; (lia || done).
Qed.

Lemma strncpy_spec fuel d s count k : prefix_len s count k -> forward d s (Z.min (k + 1) count) ->
  0 < d -> count < Z.of_nat fuel ->
  (exists m', strncpy fuel m d s count = Some (m', d) /\ meq m' (padded d s k count)) /\
  (exists m', stpncpy fuel m d s count = Some (m', d + k) /\ meq m' (padded d s k count)).
Proof.
  intros Hp Hf Hd Hfuel. pose proof Hp as (Hk & _).
  destruct (copy_n_words_spec fuel d s count k Hp Hf Hfuel) as (st & E1 & Hst).
  destruct (copy_pad_spec fuel d s count k st Hp Hf Hfuel Hst) as (m1 & d1 & n1 & m2 & E2 & E3 & Hm2).
  unfold strncpy, stpncpy. rewrite E1. cbn [mbind option_bind]. rewrite E2. cbn [mbind option_bind].
  rewrite E3. cbn [mbind option_bind]. split; exists m2; [done|]. split; [|done].
  destruct (Z.ltb_spec k count); [by zdecide|]. do 2 f_equal. lia.
Qed.

(** *** memccpy *)

Lemma memccpy_mask_rep c : 0 <= c < 128 -> memccpy_mask c = rep 8 c.
Proof.
  intros Hc.
  assert (H : forallb (fun d => memccpy_mask d =? rep 8 d) (seqZ 0 128) = true)
    by (vm_compute; reflexivity).
  rewrite forallb_forall in H. apply Z.eqb_eq, H, list_elem_of_In, elem_of_seqZ. lia.
Qed.

(** The first [c] among the [n] bytes at [s] is at index [k], or [k = n]. *)
Definition until_char (c s n k : Z) : Prop :=
  0 <= k <= n /\ (forall j, 0 <= j < k -> m (s + j) <> c) /\ (k < n -> m (s + k) = c).

Lemma schar_eq b c : 0 <= b < 256 -> 0 <= c < 128 -> schar b = c <-> b = c.
Proof.
  intros Hb Hc. unfold schar, swrap. change (2 ^ (8 - 1)) with 128. change (2 ^ 8) with 256.
  destruct (Z.lt_ge_cases b 128).
  - rewrite Z.mod_small by lia. lia.
  - replace (b + 128) with (b - 128 + 1 * 256) by lia. rewrite Z.mod_add, Z.mod_small by lia. lia.
Qed.

Lemma memccpy_spec fuel d s c n k : 0 <= c < 128 -> until_char c s n k ->
  forward d s (Z.min (k + 1) n) -> n < Z.of_nat fuel ->
  exists m', memccpy fuel m d s c n = Some (m', if k <? n then d + k + 1 else 0) /\
    meq m' (copied m d s (Z.min (k + 1) n)).
Proof.
  intros Hc (Hk & Hno & Hat) Hf Hfuel. unfold memccpy.
  assert (Hcc : schar (Z.land c 0xff) = c).
  { change 0xff with (Z.ones 8). rewrite Z.land_ones, Z.mod_small by lia. by apply schar_eq; lia. }
  rewrite Hcc, memccpy_mask_rep by done. cbv zeta.
  set (Inv := ncopied d s n k).
  assert (H0 : Inv (m, d, s, n)).
  { exists 0. repeat (split; [lia|]). intros x. symmetry. apply copied_out. lia. }
  assert (Hmid : exists st, (if negb (TOO_SMALL n) && negb (UNALIGNED2 s d) then
      memccpy_words fuel (rep 8 c) (m, d, s, n) else Some (m, d, s, n)) = Some st /\ Inv st).
  { destruct (_ && _); [|by eauto]. unfold memccpy_words, LBLOCKSIZE.
    run_loop Inv (fun st : mem * Z * Z * Z => st.2) Inv st Hst; [|done|cbn; lia|cbn; lia|by eauto].
    intros [[[m' d'] s'] len] (j & Hj & -> & -> & -> & He). destruct (Z.leb_spec 8 (n - j)); [|by exists j].
    destruct (DETECTNULL _) eqn:E; [by exists j|]. fold (DETECTCHAR (load64 m' (s + j)) (rep 8 c)) in E.
    rewrite detectchar_false in E by (try lia; by eapply copied_ok). cbn.
    assert (j + 8 <= k).
    { destruct (Z.le_gt_cases (j + 8) k); [done|]. exfalso. apply (E (s + k)); [lia|].
      rewrite He, (copied_unread d s (Z.min (k + 1) n)) by (lia || done). apply Hat. lia. }
    split; [|lia]. exists (j + 8). repeat (split; [lia|]).
    apply copied_word with (Z.min (k + 1) n); (lia || done). }
  destruct Hmid as (st & -> & Hst). cbn [mbind option_bind]. unfold memccpy_bytes.
  run_loop Inv (fun st : mem * Z * Z * Z => st.2)
    (fun r : mem * Z => r.2 = (if k <? n then d + k + 1 else 0) /\ meq r.1 (copied m d s (Z.min (k + 1) n)))
    r Hr; [|done|..].
  - intros [[[m' d'] s'] len] (j & Hj & -> & -> & -> & He). destruct (Z.eqb_spec (n - j) 0); cbn.
    + assert (j = n /\ k = n) as [-> ->] by lia. zdecide. by replace (Z.min (n + 1) n) with n by lia.
    + destruct (copied_byte _ _ _ (Z.min (k + 1) n) _ He Hf ltac:(lia) ltac:(lia)) as [Ec Hcp].
      destruct (Z.eqb_spec (schar (m' (s + j))) c) as [Ez|Ez].
      * rewrite schar_eq in Ez by (lia || by apply (copied_ok _ _ _ _ He)). assert (j = k) as ->.
        { destruct (Z.eq_dec j k); [done|]. exfalso. apply (Hno j); [lia|congruence]. }
        zdecide. cbn. by replace (Z.min (k + 1) n) with (k + 1) by lia.
      * assert (j < k).
        { destruct (Z.eq_dec j k) as [->|]; [|lia]. exfalso. apply Ez.
          rewrite schar_eq by (lia || by apply (copied_ok _ _ _ _ He)). rewrite Ec. apply Hat. lia. }
        cbn. split; [|lia]. exists (j + 1). repeat (split; [lia|]). done.
  - destruct st as [[[m1 d1] s1] c1]. destruct Hst as (j & ?). cbn. lia.
  - destruct st as [[[m1 d1] s1] c1]. destruct Hst as (j & ?). cbn. lia.
  - destruct r as [m' p]. cbn in Hr. destruct Hr as [-> He]. by exists m'.
Qed.
End Copy.

(** *** strlcpy and strlcat *)

Section Bounded.
Context (m : mem) (Hm : mem_ok m).

(** The destination and the source string, with its NUL, do not overlap. *)
Definition apart (d dn s z : Z) : Prop := d + dn <= s \/ z < d.

Lemma terminated_src d s k x : ~ (d <= x <= d + k) -> 0 <= k -> terminated m d s k x = m x.
Proof.
  intros Hx Hk. unfold terminated. destruct (Z.eqb_spec x (d + k)); [lia|]. apply copied_out. lia.
Qed.

Lemma skip_bytes_eq fuel m' a z : first m (fun b => b = 0) a z -> (forall x, a <= x <= z -> m' x = m x) ->
  z - a < Z.of_nat fuel -> skip_bytes fuel m' a = Some z.
Proof.
  intros (H1 & H2 & H3) He Hf. apply skip_bytes_spec; [|done]. split; [done|].
  split; [rewrite He; [done|lia]|]. intros x Hx. rewrite He by lia. by apply H3.
Qed.

(** strlcpy copies what fits below [siz] and always terminates it. *)
Lemma strlcpy_spec fuel d s z siz : first m (fun b => b = 0) s z -> 0 <= siz -> apart d siz s z ->
  z - s + siz + 1 < Z.of_nat fuel ->
  exists m', strlcpy fuel m d s siz = Some (m', z - s) /\
    meq m' (if siz =? 0 then m else terminated m d s (Z.min (z - s) (siz - 1))).
Proof.
  intros Hz Hs Hap Hf. pose proof Hz as (Hsz & Hz0 & Hnz). unfold strlcpy.
  destruct (Z.eqb_spec siz 0) as [->|Hs0].
  { cbn [mbind option_bind]. rewrite (skip_bytes_eq fuel m s z Hz) by (lia || done). cbn [mbind option_bind].
    change (0 =? 0) with true. cbv iota. exists m. split; [do 2 f_equal; lia|done]. }
  destruct (Z.eqb_spec (siz - 1) 0) as [Hs1|Hs1].
  { cbn [mbind option_bind]. change (0 =? 0) with true. cbv iota.
    assert (He : meq (upd m d 0) (terminated m d s (Z.min (z - s) (siz - 1)))).
    { intros x. unfold upd, terminated. replace (Z.min (z - s) (siz - 1)) with 0 by lia.
      rewrite Z.add_0_r. destruct (Z.eqb_spec x d); [done|]. symmetry. apply copied_out. lia. }
    rewrite (skip_bytes_eq fuel _ s z Hz).
    - cbn [mbind option_bind]. exists (upd m d 0). split; [do 2 f_equal; lia|done].
    - intros x Hx. rewrite He. apply terminated_src; destruct Hap; lia.
    - lia. }
  set (Inv := fun st : mem * Z * Z * Z => let '(m', d', s', n') := st in exists j, 0 <= j <= z - s /\
     d' = d + j /\ s' = s + j /\ n' = siz - 1 - j /\ 0 < n' /\ meq m' (copied m d s j)).
  set (Post := fun st : mem * Z * Z * Z => let '(m', d', s', n') := st in
     (n' <> 0 /\ s' = z + 1 /\ z - s < siz - 1 /\ meq m' (copied m d s (z - s + 1))) \/
     (n' = 0 /\ d' = d + (siz - 1) /\ s' = s + (siz - 1) /\ siz - 1 <= z - s /\
      meq m' (copied m d s (siz - 1)))).
  run_loop Inv (fun st : mem * Z * Z * Z => st.2) Post r Hr; [| |cbn; lia|cbn; lia|].
  - intros [[[m' d'] s'] n'] (j & Hj & -> & -> & -> & Hn' & He).
    destruct (copied_byte m _ d s (z - s + 1) j He) as [Ec Hc];
      [destruct Hap; [left|right]; lia|lia|lia|].
    destruct (Z.eqb_spec (m' (s + j)) 0) as [Ez|Ez].
    + left. assert (j = z - s) as ->.
      { destruct (Z.eq_dec j (z - s)); [done|]. exfalso. apply (Hnz (s + j)); [lia|congruence]. }
      split; [lia|]. split; [lia|]. split; [lia|done].
    + assert (j <> z - s).
      { intros ->. apply Ez. rewrite Ec. by replace (s + (z - s)) with z by lia. }
      destruct (Z.eqb_spec (siz - 1 - j - 1) 0).
      * right. replace (siz - 1) with (j + 1) by lia. repeat (split; [lia|]). done.
      * cbn. split; [|lia]. exists (j + 1). repeat (split; [lia|]). done.
  - exists 0. repeat (split; [lia|]). intros x. symmetry. apply copied_out. lia.
  - destruct r as [[[m' d'] s'] n']. cbn [mbind option_bind].
    destruct Hr as [(Hn & -> & Hlt & He)|(-> & -> & -> & Hle & He)].
    + rewrite (proj2 (Z.eqb_neq n' 0)) by done. exists m'. split; [do 2 f_equal; lia|].
      intros x. rewrite He. unfold terminated, copied.
      replace (Z.min (z - s) (siz - 1)) with (z - s) by lia.
      byte_cases; try lia; try done. by replace (s + (x - d)) with z by lia.
    + change (0 =? 0) with true. cbv iota.
      assert (Ht : meq (upd m' (d + (siz - 1)) 0) (terminated m d s (Z.min (z - s) (siz - 1)))).
      { intros x. unfold upd, terminated. replace (Z.min (z - s) (siz - 1)) with (siz - 1) by lia.
        destruct (x =? d + (siz - 1)); [done|apply He]. }
      rewrite (skip_bytes_eq fuel _ (s + (siz - 1)) z).
      * cbn [mbind option_bind]. eexists. split; [do 2 f_equal; lia|done].
      * split; [lia|]. split; [done|]. intros x Hx. apply Hnz. lia.
      * intros x Hx. rewrite Ht. apply terminated_src; destruct Hap; lia.
      * lia.
Qed.

(** strlcat appends what fits below [siz] and terminates it, unless the
    destination already fills [siz]. *)
Lemma append_room_spec fuel zd s z room : first m (fun b => b = 0) s z -> 1 <= room ->
  apart zd room s z -> z - s < Z.of_nat fuel ->
  let j := Z.min (z - s) (room - 1) in
  exists m', append_room fuel (m, zd, s, room) = Some (m', zd + j, z) /\ meq m' (copied m zd s j).
Proof.
  intros Hz Hroom Hap Hf. pose proof Hz as (Hsz & Hz0 & Hnz). unfold append_room.
  run_loop (fun st : mem * Z * Z * Z => let '(m', d', s', n') := st in s <= s' <= z /\ 1 <= n' /\
      (let j := Z.min (s' - s) (room - 1) in
       d' = zd + j /\ n' = room - j /\ meq m' (copied m zd s j)))
    (fun st : mem * Z * Z * Z => z - st.1.2)
    (fun st : mem * Z * Z => let '(m', d', s') := st in s' = z /\
      (let j := Z.min (z - s) (room - 1) in d' = zd + j /\ meq m' (copied m zd s j)))
    r Hr; [| |cbn; lia|cbn; lia|].
  - intros [[[m' d'] s'] n'] (Hs' & Hn' & -> & -> & Hm'). cbv zeta.
    set (j := Z.min (s' - s) (room - 1)) in *.
    assert (Er : m' s' = m s').
    { rewrite Hm'. apply copied_out. destruct Hap; unfold j in *; lia. }
    destruct (Z.eqb_spec (m' s') 0) as [Ez|Ez].
    + assert (s' = z) as ->.
      { destruct (Z.eq_dec s' z); [done|]. exfalso. apply (Hnz s'); [lia|congruence]. }
      done.
    + assert (s' <> z) by congruence. destruct (Z.eqb_spec (room - j) 1); cbn.
      * split; [|lia]. replace (Z.min (s' + 1 - s) (room - 1)) with j by lia. repeat (split; [lia|]). done.
      * split; [|lia]. replace (Z.min (s' + 1 - s) (room - 1)) with (j + 1) by lia.
        repeat (split; [lia|]). replace s' with (s + j) by lia.
        apply (copied_byte m _ zd s (Z.min (z - s) (room - 1))); [done| |lia|lia].
        destruct Hap; unfold forward in *; lia.
  - cbn. replace (Z.min (s - s) (room - 1)) with 0 by lia. repeat (split; [lia|]).
    intros x. symmetry. apply copied_out. lia.
  - destruct r as [[m' d'] s']. destruct Hr as (-> & -> & Hm'). by exists m'.
Qed.

Lemma terminated_upd m' d s k : meq m' (copied m d s k) -> meq (upd m' (d + k) 0) (terminated m d s k).
Proof. intros ->. intros x. unfold upd, terminated. by destruct (x =? d + k). Qed.

Lemma strlcat_spec fuel d zd s z siz : first m (fun b => b = 0) d zd -> first m (fun b => b = 0) s z ->
  0 <= siz -> apart d (Z.max siz (zd - d + 1)) s z -> z - s + zd - d + siz + 2 < Z.of_nat fuel ->
  exists m', strlcat fuel m d s siz = Some (m', Z.min siz (zd - d) + (z - s)) /\
    meq m' (if siz <=? zd - d then m
            else terminated m zd s (Z.min (z - s) (siz - (zd - d) - 1))).
Proof.
  intros Hd Hz Hs Hap Hf. pose proof Hd as (Hdz & Hd0 & Hdnz). pose proof Hz as (Hsz & Hz0 & Hnz).
  unfold strlcat. set (e := Z.min siz (zd - d)).
  run_loop (fun st : Z * Z => let '(d', n') := st in d <= d' <= d + e /\ n' = siz - (d' - d))
    (fun st : Z * Z => d + e - st.1) (fun d' => d' = d + e) r Hr; [| |cbn; lia|cbn; lia|].
  { intros [d' n'] (Hd' & ->). byte_cases; cbn; try lia.
    - destruct (Z.eq_dec d' (d + e)); [lia|]. exfalso. apply (Hdnz d'); [lia|done].
    - assert (d' <> d + e).
      { intros ->. unfold e in *. destruct (Z.le_gt_cases siz (zd - d)); [lia|].
        apply n0. by replace (d + Z.min siz (zd - d)) with zd by lia. }
      split; [|lia]. split; [lia|]. lia. }
  { cbn. unfold e. lia. }
  subst r. cbn [mbind option_bind]. replace (d + e - d) with e by lia.
  destruct (Z.eqb_spec (siz - e) 0) as [Hfull|Hroom].
  - rewrite (strlen_spec m Hm fuel s z Hz) by lia. cbn [mbind option_bind]. exists m.
    rewrite (proj2 (Z.leb_le siz (zd - d))) by (unfold e in *; lia). done.
  - assert (He : e = zd - d) by (unfold e in *; lia). rewrite He in *.
    rewrite (proj2 (Z.leb_gt siz (zd - d))) by lia.
    replace (d + (zd - d)) with zd by lia.
    destruct (append_room_spec fuel zd s z (siz - (zd - d)) Hz) as (m' & -> & Hm');
      [lia|destruct Hap; [left|right]; lia|lia|].
    cbn [mbind option_bind]. eexists. split; [reflexivity|]. by apply terminated_upd.
Qed.
End Bounded.

(** ** Theorems *)

(** C37: the block copies do what one assignment of the whole block would do:
    after memmove and bcopy, with any overlap and alignment, the destination holds
    the bytes the source held before the call and nothing else has changed; the
    same holds for mempcpy when the copy may go forward, and it returns the end of
    the destination. *)
Theorem block_copy_correct m fuel d s n :
  mem_ok m -> 0 <= n -> n < Z.of_nat fuel ->
  (exists m', memmove fuel m d s n = Some (m', d) /\ meq m' (copied m d s n)) /\
  (exists m', bcopy fuel m s d n = Some (m', d) /\ meq m' (copied m d s n)) /\
  (forward d s n ->
   exists m', mempcpy fuel m d s n = Some (m', d + n) /\ meq m' (copied m d s n)).
Proof.
  intros Hm Hn Hf. split; [|split].
  - by apply memmove_spec.
  - by apply memmove_spec.
  - intros Hfw. unfold mempcpy. destruct (copy_forward_spec m Hm fuel d s n Hn Hf Hfw) as (m' & -> & He).
    by exists m'.
Qed.

(** The string copies, word at a time or not, copy exactly the string: strcpy
    and stpcpy its bytes and the NUL, strcat after the end of the destination,
    strncat at most [n] characters and a NUL, strncpy and stpncpy at most [n] with
    zeros up to [n], returning the destination (stpcpy and stpncpy its end). *)
Theorem string_copy_correct m fuel d zd s z n k :
  mem_ok m -> first m (fun b => b = 0) d zd -> first m (fun b => b = 0) s z ->
  prefix_len m s n k -> 0 < d ->
  z - s + 1 < Z.of_nat fuel -> zd - d + 1 < Z.of_nat fuel -> n + 1 < Z.of_nat fuel ->
  (forward d s (z - s + 1) ->
     (exists m', strcpy fuel m d s = Some (m', d) /\ meq m' (copied m d s (z - s + 1))) /\
     (exists m', stpcpy fuel m d s = Some (m', d + (z - s)) /\ meq m' (copied m d s (z - s + 1)))) /\
  (forward zd s (z - s + 1) ->
     exists m', strcat fuel m d s = Some (m', d) /\ meq m' (copied m zd s (z - s + 1))) /\
  (forward zd s (k + 1) ->
     exists m', strncat fuel m d s n = Some (m', d) /\ meq m' (terminated m zd s k)) /\
  (forward d s (Z.min (k + 1) n) ->
     (exists m', strncpy fuel m d s n = Some (m', d) /\ meq m' (padded m d s k n)) /\
     (exists m', stpncpy fuel m d s n = Some (m', d + k) /\ meq m' (padded m d s k n))).
Proof.
  intros Hm Hzd Hz Hp Hd Hf1 Hf2 Hf3. split; [|split; [|split]]; intros Hfw.
  - by apply strcpy_spec.
  - by apply strcat_spec.
  - by eapply strncat_spec.
  - by apply strncpy_spec; [| | | |lia].
Qed.

(** The size-bounded copies never write past [siz] bytes and always terminate
    the result (strlcat unless there was no end within [siz]); their results are
    the lengths they tried to create. *)
Theorem bounded_copy_correct m fuel d zd s z siz :
  mem_ok m -> first m (fun b => b = 0) d zd -> first m (fun b => b = 0) s z ->
  0 <= siz -> apart d (Z.max siz (zd - d + 1)) s z -> z - s + zd - d + siz + 2 < Z.of_nat fuel ->
  (exists m', strlcpy fuel m d s siz = Some (m', z - s) /\
     meq m' (if siz =? 0 then m else terminated m d s (Z.min (z - s) (siz - 1))) /\
     forall x, ~ (d <= x < d + siz) -> m' x = m x) /\
  (exists m', strlcat fuel m d s siz = Some (m', Z.min siz (zd - d) + (z - s)) /\
     meq m' (if siz <=? zd - d then m
             else terminated m zd s (Z.min (z - s) (siz - (zd - d) - 1))) /\
     forall x, ~ (d <= x < d + siz) -> m' x = m x).
Proof.
  intros Hm Hzd Hz Hs Hap Hf. pose proof Hzd as (? & _). pose proof Hz as (? & _). split.
  - destruct (strlcpy_spec m fuel d s z siz Hz Hs) as (m' & E & He);
      [destruct Hap; [left|right]; lia|lia|]. exists m'. split; [done|]. split; [done|].
    intros x Hx. rewrite He. destruct (Z.eqb_spec siz 0); [done|]. apply terminated_src; lia.
  - destruct (strlcat_spec m Hm fuel d zd s z siz Hzd Hz Hs Hap Hf) as (m' & E & He).
    exists m'. split; [done|]. split; [done|]. intros x Hx. rewrite He.
    destruct (Z.leb_spec siz (zd - d)); [done|]. apply terminated_src; lia.
Qed.

(** Memccpy copies up to and including the first [c] and returns the address
    after it, or all [n] bytes and null, for characters below 128; for 0x80 its
    word mask is wrong, and it runs past an occurrence it should have stopped at. *)
Theorem memccpy_correct m fuel d s c n k :
  mem_ok m -> 0 <= c < 128 -> until_char m c s n k -> forward d s (Z.min (k + 1) n) ->
  n < Z.of_nat fuel ->
  (exists m', memccpy fuel m d s c n = Some (m', if k <? n then d + k + 1 else 0) /\
     meq m' (copied m d s (Z.min (k + 1) n))) /\
  (let bytes := bytes_at 1000 [1; 0x80; 2; 3; 4; 5; 6; 7] in
   until_char bytes 0x80 1000 8 1 /\
   exists m', memccpy 10 bytes 2000 1000 0x80 8 = Some (m', 0) /\ m' 2007 = 7).
Proof.
  intros Hm Hc Hu Hf Hfuel. split; [by apply memccpy_spec|]. split.
  - split; [lia|]. split; [|done]. intros j Hj. by replace j with 0 by lia.
  - eexists. split; [vm_compute; reflexivity|]. reflexivity.
Qed.

(** ** Examples *)

Lemma block_copy_correct_witness :
  exists m', memmove 20 (bytes_at 1003 hello) 1005 1003 12 = Some (m', 1005) /\
    meq m' (copied (bytes_at 1003 hello) 1005 1003 12).
Proof.
  exact (proj1 (block_copy_correct (bytes_at 1003 hello) 20 1005 1003 12 hello_ok
    ltac:(lia) ltac:(lia))).
Defined.

(** Two strings of a memory, "ab" at 1000 and "cd" at 1008. *)
Definition two_strings : mem := bytes_at 1000 [97; 98; 0; 0; 0; 0; 0; 0; 99; 100; 0].

Lemma two_strings_ok : mem_ok two_strings.
Proof. apply bytes_at_ok. repeat constructor; lia. Qed.

Lemma first_string : first two_strings (fun b => b = 0) 1000 1002.
Proof.
  split; [lia|]. split; [reflexivity|]. intros x Hx.
  assert (x = 1000 \/ x = 1001) as [-> | ->] by lia; vm_compute; discriminate.
Qed.

Lemma second_string : first two_strings (fun b => b = 0) 1008 1010.
Proof.
  split; [lia|]. split; [reflexivity|]. intros x Hx.
  assert (x = 1008 \/ x = 1009) as [-> | ->] by lia; vm_compute; discriminate.
Qed.

Lemma second_prefix : prefix_len two_strings 1008 5 2.
Proof.
  split; [lia|]. split; [|reflexivity]. intros j Hj.
  assert (j = 0 \/ j = 1) as [-> | ->] by lia; vm_compute; discriminate.
Qed.

Lemma string_copy_correct_witness :
  exists m', strcat 20 two_strings 1000 1008 = Some (m', 1000) /\
    meq m' (copied two_strings 1002 1008 3).
Proof.
  destruct (string_copy_correct two_strings 20 1000 1002 1008 1010 5 2 two_strings_ok first_string
    second_string second_prefix ltac:(lia) ltac:(lia) ltac:(lia) ltac:(lia)) as (_ & Hc & _).
  apply Hc. left. lia.
Defined.

Lemma bounded_copy_correct_witness :
  exists m', strlcat 40 two_strings 1000 1008 4 = Some (m', 4) /\
    forall x, ~ (1000 <= x < 1004) -> m' x = two_strings x.
Proof.
  destruct (bounded_copy_correct two_strings 40 1000 1002 1008 1010 4 two_strings_ok first_string
    second_string ltac:(lia) ltac:(left; lia) ltac:(lia)) as (_ & m' & E & _ & Hx).
  exists m'. split; [exact E|exact Hx].
Defined.

Lemma memccpy_correct_witness :
  exists m', memccpy 20 two_strings 2000 1008 100 5 = Some (m', 2002).
Proof.
  destruct (memccpy_correct two_strings 20 2000 1008 100 5 1 two_strings_ok ltac:(lia)) as ((m' & E & _) & _).
  - split; [lia|]. split; [|reflexivity]. intros j Hj. replace j with 0 by lia. vm_compute. discriminate.
  - right. lia.
  - lia.
  - exists m'. exact E.
Defined.
