(* ===== verification/CType.v ===== *)
(** Character classes of the C library (libc/newlib/libc/ctype) in the C locale:
    the table ctype_.c lays out and the predicates that look into it.

    The guest's library is built without locale information, so the predicates
    index [_ctype_], which has an entry for -1 and one for each of 0..255.  An
    index outside the table is [None]. *)

From S2P Require Import Prelude.

(** Class bits (ctype.h). *)
Definition _U : Z := 1.
Definition _L : Z := 2.
Definition _N : Z := 4.
Definition _S : Z := 8.
Definition _P : Z := 16.
Definition _C : Z := 32.
Definition _X : Z := 64.
Definition _B : Z := 128.

Definition _CTYPE_DATA_0_127 : list Z :=
  [_C; _C; _C; _C; _C; _C; _C; _C;
   _C; Z.lor _C _S; Z.lor _C _S; Z.lor _C _S; Z.lor _C _S; Z.lor _C _S; _C; _C;
   _C; _C; _C; _C; _C; _C; _C; _C;
   _C; _C; _C; _C; _C; _C; _C; _C;
   Z.lor _S _B; _P; _P; _P; _P; _P; _P; _P;
   _P; _P; _P; _P; _P; _P; _P; _P;
   _N; _N; _N; _N; _N; _N; _N; _N;
   _N; _N; _P; _P; _P; _P; _P; _P;
   _P; Z.lor _U _X; Z.lor _U _X; Z.lor _U _X; Z.lor _U _X; Z.lor _U _X; Z.lor _U _X; _U;
   _U; _U; _U; _U; _U; _U; _U; _U;
   _U; _U; _U; _U; _U; _U; _U; _U;
   _U; _U; _U; _P; _P; _P; _P; _P;
   _P; Z.lor _L _X; Z.lor _L _X; Z.lor _L _X; Z.lor _L _X; Z.lor _L _X; Z.lor _L _X; _L;
   _L; _L; _L; _L; _L; _L; _L; _L;
   _L; _L; _L; _L; _L; _L; _L; _L;
   _L; _L; _L; _P; _P; _P; _P; _C].

Definition _CTYPE_DATA_128_255 : list Z := replicate 128 0.

Definition _ctype_ : list Z := 0 :: _CTYPE_DATA_0_127 ++ _CTYPE_DATA_128_255.

(** __CTYPE_PTR[c+1] *)
Definition ctype_lookup (c : Z) : option Z :=
  if c + 1 <? 0 then None else _ctype_ !! Z.to_nat (c + 1).

Definition has_class (mask c : Z) : option bool :=
  t ← ctype_lookup c; Some (negb (Z.land t mask =? 0)).

Definition isalnum (c : Z) : option bool := has_class (Z.lor (Z.lor _U _L) _N) c.
Definition isalpha (c : Z) : option bool := has_class (Z.lor _U _L) c.
Definition isascii (c : Z) : bool := (0 <=? c) && (c <? 128).
Definition isblank (c : Z) : option bool :=
  t ← has_class _B c; Some (t || (c =? 9)).
Definition iscntrl (c : Z) : option bool := has_class _C c.
Definition isdigit (c : Z) : option bool := has_class _N c.
Definition islower (c : Z) : option bool :=
  t ← ctype_lookup c; Some (Z.land t (Z.lor _U _L) =? _L).
Definition isgraph (c : Z) : option bool :=
  has_class (Z.lor (Z.lor (Z.lor _P _U) _L) _N) c.
Definition isprint (c : Z) : option bool :=
  has_class (Z.lor (Z.lor (Z.lor (Z.lor _P _U) _L) _N) _B) c.
Definition ispunct (c : Z) : option bool := has_class _P c.
Definition isspace (c : Z) : option bool := has_class _S c.
Definition isupper (c : Z) : option bool :=
  t ← ctype_lookup c; Some (Z.land t (Z.lor _U _L) =? _U).
Definition isxdigit (c : Z) : option bool := has_class (Z.lor _X _N) c.
Definition toascii (c : Z) : Z := Z.land c 0x7f.
Definition toupper (c : Z) : option Z :=
  l ← islower c; Some (if (l : bool) then c - 97 + 65 else c).
Definition tolower (c : Z) : option Z :=
  u ← isupper c; Some (if (u : bool) then c - 65 + 97 else c).

(** iswspace_l without _MB_CAPABLE; wint_t is an unsigned int. *)
Definition iswspace (c : Z) : option bool :=
  let c := u32 c in if c <? 0x100 then isspace c else Some false.

(** ** The classes, written as ranges *)

Definition upperb (c : Z) : bool := (65 <=? c) && (c <=? 90).
Definition lowerb (c : Z) : bool := (97 <=? c) && (c <=? 122).
Definition digitb (c : Z) : bool := (48 <=? c) && (c <=? 57).
Definition spaceb (c : Z) : bool := ((9 <=? c) && (c <=? 13)) || (c =? 32).

(** The characters of the table satisfy a decidable property when the finitely
    many of them do. *)
Lemma chars_forall (P : Z -> bool) :
  forallb P (seqZ (-1) 257) = true -> forall c, -1 <= c < 256 -> P c = true.
Proof.
  intros H c Hc. rewrite forallb_forall in H. apply H, list_elem_of_In, elem_of_seqZ. lia.
Qed.

Ltac by_table :=
  match goal with
  | Hc : -1 <= ?c < 256 |- _ => pattern c
  end;
  match goal with
  | Hc : -1 <= ?c < 256 |- ?P ?c =>
      let H := fresh in
      assert (H : forall d, -1 <= d < 256 -> bool_decide (P d) = true)
        by (apply (chars_forall (fun d => bool_decide (P d))); vm_compute; reflexivity);
      exact (bool_decide_eq_true_1 _ (H c Hc))
  end.

(** The class table of the C locale puts every character from EOF to 255 in the
    classes the standard asks for: letters, digits, spaces and control characters
    are the ranges of ASCII, the printing characters are exactly the graphic ones
    and the space, and toupper and tolower exchange the two cases and leave every
    other character alone. *)
Theorem ctype_classes c : -1 <= c < 256 ->
  isupper c = Some (upperb c) /\ islower c = Some (lowerb c) /\
  isdigit c = Some (digitb c) /\ isspace c = Some (spaceb c) /\
  isalpha c = Some (upperb c || lowerb c) /\
  isalnum c = Some (upperb c || lowerb c || digitb c) /\
  isxdigit c = Some (digitb c || ((65 <=? c) && (c <=? 70)) || ((97 <=? c) && (c <=? 102))) /\
  iscntrl c = Some (((0 <=? c) && (c <? 32)) || (c =? 127)) /\
  isgraph c = Some ((33 <=? c) && (c <=? 126)) /\
  isprint c = Some ((32 <=? c) && (c <=? 126)) /\
  ispunct c = Some ((33 <=? c) && (c <=? 126) && negb (upperb c || lowerb c || digitb c)) /\
  isblank c = Some ((c =? 32) || (c =? 9)) /\
  toupper c = Some (if lowerb c then c - 32 else c) /\
  tolower c = Some (if upperb c then c + 32 else c).
Proof. intros Hc. by_table. Qed.

Lemma ctype_classes_witness : -1 <= 113 < 256 /\ toupper 113 = Some 81.
Proof. split; [lia|]. apply (ctype_classes 113). lia. Defined.

(** ** What the other components use *)

Lemma isspace_spec c : -1 <= c < 256 -> isspace c = Some (spaceb c).
Proof. intros Hc. by_table. Qed.

Lemma tolower_spec c : -1 <= c < 256 -> tolower c = Some (if upperb c then c + 32 else c).
Proof. intros Hc. by_table. Qed.

Lemma toupper_spec c : -1 <= c < 256 -> toupper c = Some (if lowerb c then c - 32 else c).
Proof. intros Hc. by_table. Qed.

Lemma iswspace_spec c : - 2 ^ 31 <= c < 2 ^ 31 -> iswspace c = Some (spaceb c).
Proof.
  intros Hc. unfold iswspace, uwrap.
  destruct (Z.lt_ge_cases c 0).
  - replace (c mod 2 ^ 32) with (c + 2 ^ 32) by (apply Zmod_unique with (-1); lia).
    rewrite (proj2 (Z.ltb_ge _ _)) by lia. f_equal. unfold spaceb.
    destruct (Z.leb_spec 9 c), (Z.eqb_spec c 32); try lia; done.
  - rewrite Z.mod_small by lia. destruct (Z.ltb_spec c 256); [apply isspace_spec; lia|].
    f_equal. unfold spaceb. destruct (Z.leb_spec c 13), (Z.eqb_spec c 32); try lia;
      by rewrite andb_false_r.
Qed.
