(* ===== verification/CNum.v ===== *)
(** Numbers and their text in the C library (libc/newlib/libc/stdlib): the
    conversions strtol, strtoll, strtoul, strtoull, strtoimax, strtoumax, their
    wide-character versions, atoi, atol and atoll, and utoa and itoa.

    The conversions share their text; the parts they have in common are
    definitions of their own ([skip_space], [sign], [base_prefix], [accumulate]).
    A string is read by element: [rd k] is the k-th element from the start, as the
    variable [c] of the function holds it.  None means that the bound on the loops
    was reached or that isspace was asked outside its table. *)

From S2P Require Import Prelude CMem CType.

Definition EINVAL : Z := 22.
Definition ERANGE : Z := 34.
Definition LONG_MIN : Z := - 2 ^ 63.
Definition LONG_MAX : Z := 2 ^ 63 - 1.
Definition ULONG_MAX : Z := 2 ^ 64 - 1.

(** What a conversion does: its value, what it stores in errno and in *endptr. *)
Record conv := mkConv { cval : Z; cerr : option Z; cend : option Z }.

(** do c = *s++; while (isspace (c)); gives c and s *)
Definition skip_space (fuel : nat) (rd : Z -> Z) (isspace : Z -> option bool) : option (Z * Z) :=
  r ← loop fuel (fun s => match isspace (rd s) with
                          | Some true => inl (s + 1)
                          | Some false => inr (Some (rd s, s + 1))
                          | None => inr None
                          end) 0;
  r.

(** The optional sign: neg, c and s. *)
Definition sign (rd : Z -> Z) (c s : Z) : bool * Z * Z :=
  if c =? 45 then (true, rd s, s + 1)
  else if c =? 43 then (false, rd s, s + 1)
  else (false, c, s).

(** 0x, and the base it or a leading 0 stands for: base, c and s. *)
Definition base_prefix (rd : Z -> Z) (base c s : Z) : Z * Z * Z :=
  let '(base, c, s) :=
    if ((base =? 0) || (base =? 16)) && (c =? 48) && ((rd s =? 120) || (rd s =? 88))
    then (16, rd (s + 1), s + 2) else (base, c, s) in
  (if base =? 0 then (if c =? 48 then 8 else 10) else base, c, s).

Definition scan_prefix (fuel : nat) (rd : Z -> Z) (isspace : Z -> option bool) (base : Z)
  : option (bool * Z * Z * Z) :=
  '(c, s) ← skip_space fuel rd isspace;
  let '(neg, c, s) := sign rd c s in
  let '(base, c, s) := base_prefix rd base c s in
  Some (neg, base, c, s).

(** The value of a digit or a letter. *)
Definition digit (c : Z) : option Z :=
  if (48 <=? c) && (c <=? 57) then Some (c - 48)
  else if (65 <=? c) && (c <=? 90) then Some (c - (65 - 10))
  else if (97 <=? c) && (c <=? 122) then Some (c - (97 - 10))
  else None.

(** The loop over the digits; acc is a 64-bit unsigned integer. *)
Definition acc_step (rd : Z -> Z) (base cutoff cutlim : Z) (st : Z * Z * Z * Z)
  : Z * Z * Z * Z + Z * Z * Z :=
  let '(acc, any, c, s) := st in
  match digit c with
  | None => inr (acc, any, s)
  | Some d =>
      if base <=? d then inr (acc, any, s)
      else if (any <? 0) || (cutoff <? acc) || ((acc =? cutoff) && (cutlim <? d))
      then inl (acc, -1, rd s, s + 1)
      else inl (u64 (u64 (acc * u64 base) + d), 1, rd s, s + 1)
  end.
Definition accumulate (fuel : nat) (rd : Z -> Z) (base cutoff cutlim c s : Z)
  : option (Z * Z * Z) :=
  loop fuel (acc_step rd base cutoff cutlim) (0, 0, c, s).

(** The test the functions with a check of their own make on the base. *)
Definition bad_base (base : Z) : bool := (base <? 0) || (base =? 1) || (36 <? base).

(** Elements of a string, as c holds them, and the address of one. *)
Definition rd_uchar (m : mem) (nptr k : Z) : Z := m (nptr + k).
Definition rd_char (m : mem) (nptr k : Z) : Z := schar (m (nptr + k)).
Definition rd_wchar (m : mem) (nptr k : Z) : Z := s32 (load 4 m (nptr + 4 * k)).

(** *endptr = any ? s - 1 : nptr, for elements of [w] bytes *)
Definition end_at (w : Z) (nptr : Z) (endptr : bool) (any s : Z) : option Z :=
  if endptr then Some (if any =? 0 then nptr else nptr + w * (s - 1)) else None.

(** The part strtol, strtoll and wcstol, wcstoll have in common. *)
Definition signed_body (fuel : nat) (rd : Z -> Z) (isspace : Z -> option bool) (base : Z)
    (endp : Z -> Z -> option Z) : option conv :=
  '(neg, base, c, s) ← scan_prefix fuel rd isspace base;
  let cutoff := if neg : bool then u64 (- u64 LONG_MIN) else LONG_MAX in
  let cutlim := s32 (cutoff mod u64 base) in
  let cutoff := cutoff / u64 base in
  '(acc, any, s) ← accumulate fuel rd base cutoff cutlim c s;
  Some (mkConv
    (s64 (if any <? 0 then (if neg then u64 LONG_MIN else LONG_MAX)
          else if neg then u64 (- acc) else acc))
    (if any <? 0 then Some ERANGE else None)
    (endp any s)).

(** The part of the unsigned conversions. *)
Definition unsigned_body (fuel : nat) (rd : Z -> Z) (isspace : Z -> option bool) (base : Z)
    (endp : Z -> Z -> option Z) : option conv :=
  '(neg, base, c, s) ← scan_prefix fuel rd isspace base;
  let cutoff := ULONG_MAX / u64 base in
  let cutlim := s32 (ULONG_MAX mod u64 base) in
  '(acc, any, s) ← accumulate fuel rd base cutoff cutlim c s;
  Some (mkConv
    (if any <? 0 then ULONG_MAX else if (neg : bool) then u64 (- acc) else acc)
    (if any <? 0 then Some ERANGE else None)
    (endp any s)).

(** The intmax_t conversions test the base after the prefix and report EINVAL when
    they convert nothing. *)
Definition max_body (signed : bool) (fuel : nat) (rd : Z -> Z) (isspace : Z -> option bool)
    (base : Z) (endp : Z -> Z -> option Z) : option conv :=
  '(neg, base, c, s) ← scan_prefix fuel rd isspace base;
  if (base <? 2) || (36 <? base) then Some (mkConv 0 (Some EINVAL) (endp 0 s)) else
  let cutoff := if signed then (if (neg : bool) then u64 (- u64 LONG_MIN) else LONG_MAX)
                else ULONG_MAX in
  let cutlim := s32 (cutoff mod base) in
  let cutoff := cutoff / base in
  '(acc, any, s) ← accumulate fuel rd base cutoff cutlim c s;
  let acc' := if any <? 0
              then (if signed then (if neg then u64 LONG_MIN else LONG_MAX) else ULONG_MAX)
              else if any =? 0 then acc
              else if neg then u64 (- acc) else acc in
  Some (mkConv (if signed then s64 acc' else acc')
    (if any <? 0 then Some ERANGE else if any =? 0 then Some EINVAL else None)
    (endp any s)).

Definition strtol_l (fuel : nat) (m : mem) (nptr : Z) (endptr : bool) (base : Z) : option conv :=
  if bad_base base then Some (mkConv 0 (Some EINVAL) None)
  else signed_body fuel (rd_uchar m nptr) isspace base (end_at 1 nptr endptr).
Definition strtoll_l (fuel : nat) (m : mem) (nptr : Z) (endptr : bool) (base : Z) : option conv :=
  signed_body fuel (rd_uchar m nptr) isspace base (end_at 1 nptr endptr).
Definition strtoul_l (fuel : nat) (m : mem) (nptr : Z) (endptr : bool) (base : Z) : option conv :=
  unsigned_body fuel (rd_uchar m nptr) isspace base (end_at 1 nptr endptr).
Definition strtoull_l (fuel : nat) (m : mem) (nptr : Z) (endptr : bool) (base : Z) : option conv :=
  unsigned_body fuel (rd_uchar m nptr) isspace base (end_at 1 nptr endptr).
Definition strtoimax_l (fuel : nat) (m : mem) (nptr : Z) (endptr : bool) (base : Z) : option conv :=
  max_body true fuel (rd_char m nptr) isspace base (end_at 1 nptr endptr).
Definition strtoumax_l (fuel : nat) (m : mem) (nptr : Z) (endptr : bool) (base : Z) : option conv :=
  max_body false fuel (rd_char m nptr) isspace base (end_at 1 nptr endptr).
Definition wcstol_l (fuel : nat) (m : mem) (nptr : Z) (endptr : bool) (base : Z) : option conv :=
  signed_body fuel (rd_wchar m nptr) iswspace base (end_at 4 nptr endptr).
Definition wcstoll_l (fuel : nat) (m : mem) (nptr : Z) (endptr : bool) (base : Z) : option conv :=
  signed_body fuel (rd_wchar m nptr) iswspace base (end_at 4 nptr endptr).
Definition wcstoul_l (fuel : nat) (m : mem) (nptr : Z) (endptr : bool) (base : Z) : option conv :=
  unsigned_body fuel (rd_wchar m nptr) iswspace base (end_at 4 nptr endptr).
Definition wcstoull_l (fuel : nat) (m : mem) (nptr : Z) (endptr : bool) (base : Z) : option conv :=
  if bad_base base then Some (mkConv 0 (Some EINVAL) None)
  else unsigned_body fuel (rd_wchar m nptr) iswspace base (end_at 4 nptr endptr).
Definition wcstoimax_l (fuel : nat) (m : mem) (nptr : Z) (endptr : bool) (base : Z) : option conv :=
  max_body true fuel (rd_wchar m nptr) iswspace base (end_at 4 nptr endptr).
Definition wcstoumax_l (fuel : nat) (m : mem) (nptr : Z) (endptr : bool) (base : Z) : option conv :=
  max_body false fuel (rd_wchar m nptr) iswspace base (end_at 4 nptr endptr).

Definition atoi (fuel : nat) (m : mem) (s : Z) : option Z :=
  r ← strtol_l fuel m s false 10; Some (s32 (cval r)).
Definition atol (fuel : nat) (m : mem) (s : Z) : option Z :=
  r ← strtol_l fuel m s false 10; Some (cval r).
Definition atoll (fuel : nat) (m : mem) (s : Z) : option Z :=
  r ← strtoll_l fuel m s false 10; Some (cval r).

(** ** Printing *)

(** "0123456789abcdefghijklmnopqrstuvwxyz"[i] *)
Definition digits (i : Z) : Z := if i <? 10 then 48 + i else 97 + (i - 10).

(** The digits in reverse order: value and i count, the store happens each turn. *)
Definition put_digits (fuel : nat) (str base : Z) : mem * Z * Z -> option (mem * Z) :=
  loop fuel (fun '(m, value, i) =>
    let m := upd m (str + i) (digits (value mod base)) in
    let value := value / base in
    if value =? 0 then inr (m, i + 1) else inl (m, value, i + 1)).

(** for (j = 0, i--; j < i; j++, i--) swap str[j] and str[i] *)
Definition reverse_string (fuel : nat) (str : Z) : mem * Z * Z -> option mem :=
  loop fuel (fun '(m, j, i) =>
    if j <? i then
      let c := m (str + j) in
      inl (upd (upd m (str + j) (m (str + i))) (str + i) c, j + 1, i - 1)
    else inr m).

Definition utoa (fuel : nat) (m : mem) (value str base : Z) : option (mem * Z) :=
  if (base <? 2) || (36 <? base) then Some (upd m str 0, 0)
  else
    '(m, i) ← put_digits fuel str base (m, u32 value, 0);
    let m := upd m (str + i) 0 in
    m ← reverse_string fuel str (m, 0, i - 1);
    Some (m, str).

Definition itoa (fuel : nat) (m : mem) (value str base : Z) : option (mem * Z) :=
  if (base <? 2) || (36 <? base) then Some (upd m str 0, 0)
  else if (base =? 10) && (value <? 0) then
    '(m, _) ← utoa fuel (upd m str 45) (u32 (- value)) (str + 1) base;
    Some (m, str)
  else
    '(m, _) ← utoa fuel m (u32 value) str base;
    Some (m, str).

(** ** The text of a number *)

(** White space, a sign, 0x, digits: what the conversions accept. *)
Record numeral := mkNumeral {
  n_spaces : list Z;
  n_sign : option bool;      (* Some true is a minus sign *)
  n_hex : option Z;          (* the x of a 0x prefix *)
  n_digits : list Z
}.

Definition n_neg (n : numeral) : bool := match n_sign n with Some b => b | None => false end.
Definition sign_text (n : numeral) : list Z :=
  match n_sign n with Some true => [45] | Some false => [43] | None => [] end.
Definition hex_text (n : numeral) : list Z :=
  match n_hex n with Some x => [48; x] | None => [] end.
Definition text (n : numeral) : list Z :=
  n_spaces n ++ sign_text n ++ hex_text n ++ n_digits n.

(** The base the digits are in. *)
Definition eff_base (base : Z) (n : numeral) : Z :=
  match n_hex n with
  | Some _ => 16
  | None => if base =? 0 then (if bool_decide (head (n_digits n) = Some 48) then 8 else 10)
            else base
  end.

Definition digit_in (b c : Z) : Prop := exists d, digit c = Some d /\ d < b.

(** What the code takes [text n], followed by [nxt], for. *)
Record scanned (base : Z) (n : numeral) (nxt : Z) : Prop := {
  ok_spaces : Forall (fun c => spaceb c = true) (n_spaces n);
  ok_hex : forall x, n_hex n = Some x -> (x = 120 \/ x = 88) /\ (base = 0 \/ base = 16);
  ok_base : 2 <= eff_base base n <= 36;
  ok_digits : Forall (digit_in (eff_base base n)) (n_digits n);
  ok_next : ~ digit_in (eff_base base n) nxt;
  ok_nohex : n_hex n = None -> n_digits n = [48] -> base = 0 \/ base = 16 ->
             nxt <> 120 /\ nxt <> 88;
  ok_first : n_sign n = None -> n_hex n = None -> n_digits n = [] ->
             spaceb nxt = false /\ nxt <> 45 /\ nxt <> 43
}.

(** [n] is the longest numeral at the start of [text n ++ nxt :: more], the subject
    sequence of the documentation of strtol: 0x belongs to it only with a hexadecimal
    digit after it. *)
Record numeral_ok (base : Z) (n : numeral) (nxt : Z) (more : list Z) : Prop := {
  no_spaces : Forall (fun c => spaceb c = true) (n_spaces n);
  no_hex : forall x, n_hex n = Some x ->
           (x = 120 \/ x = 88) /\ (base = 0 \/ base = 16) /\ n_digits n <> [];
  no_base : 2 <= eff_base base n <= 36;
  no_digits : Forall (digit_in (eff_base base n)) (n_digits n);
  no_next : ~ digit_in (eff_base base n) nxt;
  no_longer : n_hex n = None -> n_digits n = [48] -> base = 0 \/ base = 16 ->
              nxt = 120 \/ nxt = 88 -> exists y rest, more = y :: rest /\ ~ digit_in 16 y;
  no_first : n_sign n = None -> n_hex n = None -> n_digits n = [] ->
             spaceb nxt = false /\ nxt <> 45 /\ nxt <> 43
}.

(** The numeral is a 0 and an x follows it that is not followed by a digit. *)
Definition bare_0x (base : Z) (n : numeral) (nxt : Z) : Prop :=
  n_hex n = None /\ n_digits n = [48] /\ (base = 0 \/ base = 16) /\ (nxt = 120 \/ nxt = 88).

(** But for that case, the code takes the text for its longest numeral. *)
Lemma numeral_scanned base n nxt more : numeral_ok base n nxt more -> ~ bare_0x base n nxt ->
  scanned base n nxt.
Proof.
  intros [H1 H2 H3 H4 H5 H6 H7] Hb. split; try done.
  - intros x Hx. destruct (H2 x Hx) as (? & ? & _). done.
  - unfold bare_0x in Hb. tauto.
Qed.

(** There, it takes it for a number with the prefix 0x and no digits. *)
Definition empty_hex (n : numeral) (x : Z) : numeral := mkNumeral (n_spaces n) (n_sign n) (Some x) [].

Lemma bare_0x_scanned base n nxt more : numeral_ok base n nxt more -> bare_0x base n nxt ->
  exists y rest, more = y :: rest /\ scanned base (empty_hex n nxt) y /\
    text n ++ nxt :: more = text (empty_hex n nxt) ++ y :: rest.
Proof.
  intros [H1 _ _ _ _ H6 _] (E1 & E2 & Hb & Hx). destruct (H6 E1 E2 Hb Hx) as (y & rest & -> & Hy).
  exists y, rest. split; [done|]. split.
  - split; cbn; try done; try lia. by intros x [= <-].
  - unfold text, sign_text, hex_text. rewrite E1, E2. cbn. by rewrite <- !app_assoc.
Qed.

Definition digit_val (c : Z) : Z := default 0 (digit c).
Definition numval (b acc : Z) (ds : list Z) : Z :=
  fold_left (fun v c => v * b + digit_val c) ds acc.

(** The elements from [i] on are the list [l]. *)
Definition reads (rd : Z -> Z) (i : Z) (l : list Z) : Prop :=
  forall j c, l !! j = Some c -> rd (i + Z.of_nat j) = c.

Lemma reads_cons rd i c l : reads rd i (c :: l) <-> rd i = c /\ reads rd (i + 1) l.
Proof.
  split.
  - intros H. split; [rewrite <- (Z.add_0_r i); apply (H 0%nat); done|].
    intros j d Hj. replace (i + 1 + Z.of_nat j) with (i + Z.of_nat (S j)) by lia. by apply H.
  - intros [H0 H] [|j] d Hj; [simplify_eq/=; by rewrite Z.add_0_r|].
    replace (i + Z.of_nat (S j)) with (i + 1 + Z.of_nat j) by lia. by apply H.
Qed.

Lemma reads_app rd i l1 l2 :
  reads rd i (l1 ++ l2) <-> reads rd i l1 /\ reads rd (i + Z.of_nat (length l1)) l2.
Proof.
  revert i. induction l1 as [|c l1 IH]; intros i; cbn [app length].
  - rewrite Z.add_0_r. split; [intros H; split; [intros j d Hj; done|done]|by intros [_ ?]].
  - rewrite !reads_cons, IH.
    replace (i + 1 + Z.of_nat (length l1)) with (i + Z.of_nat (S (length l1))) by lia. tauto.
Qed.

Lemma digit_range c d : digit c = Some d -> 0 <= d < 36 /\ 48 <= c <= 122.
Proof. unfold digit. intros H. repeat case_match; zbool; simplify_eq; lia. Qed.

Lemma digit_in_dec b c : digit_in b c \/ ~ digit_in b c.
Proof.
  unfold digit_in. destruct (digit c) as [d|]; [|right; by intros (? & ? & _)].
  destruct (Z.lt_ge_cases d b); [left; by exists d|right; intros (? & [= ->] & ?); lia].
Qed.

Lemma digit_in_val b c : digit_in b c -> digit c = Some (digit_val c) /\ 0 <= digit_val c < b.
Proof.
  intros (d & Hd & Hb). unfold digit_val. rewrite Hd. cbn. destruct (digit_range c d Hd). split; [done|lia].
Qed.

Lemma numval_mono b acc ds : 2 <= b -> 0 <= acc -> Forall (digit_in b) ds -> acc <= numval b acc ds.
Proof.
  intros Hb. revert acc. induction ds as [|c ds IH]; intros acc Ha Hf; [reflexivity|].
  inversion Hf as [|? ? Hc Hds]; subst. destruct (digit_in_val b c Hc) as [_ Hv].
  cbn. etransitivity; [|apply IH; [nia|done]]. nia.
Qed.

(** ** The loop over the digits *)

Section Accumulate.
Context (rd : Z -> Z) (base cutoff cutlim lim : Z).
Context (Hbase : 2 <= base <= 36) (Hlim : lim = cutoff * base + cutlim).
Context (Hcl : 0 <= cutlim < base) (Hmax : lim < 2 ^ 64).

Notation run fuel st := (loop fuel (acc_step rd base cutoff cutlim) st).

Lemma acc_step_digit acc any c s : digit_in base c -> 0 <= acc <= lim -> 0 <= any ->
  acc_step rd base cutoff cutlim (acc, any, c, s) =
    if lim <? acc * base + digit_val c then inl (acc, -1, rd s, s + 1)
    else inl (acc * base + digit_val c, 1, rd s, s + 1).
Proof.
  intros Hc Ha Hany. unfold acc_step. destruct (digit_in_val base c Hc) as [-> Hv].
  rewrite (proj2 (Z.leb_gt _ _)) by lia. rewrite (proj2 (Z.ltb_ge any 0)) by lia. cbn [orb].
  assert (E : (cutoff <? acc) || ((acc =? cutoff) && (cutlim <? digit_val c)) =
              (lim <? acc * base + digit_val c)).
  { apply eq_true_iff_eq. rewrite orb_true_iff, andb_true_iff, !Z.ltb_lt, Z.eqb_eq. nia. }
  rewrite E. destruct (Z.ltb_spec lim (acc * base + digit_val c)); [done|].
  unfold uwrap. rewrite (Z.mod_small base) by lia.
  rewrite (Z.mod_small (acc * base)) by lia. by rewrite Z.mod_small by lia.
Qed.

Lemma acc_step_stop acc any c s : ~ digit_in base c ->
  acc_step rd base cutoff cutlim (acc, any, c, s) = inr (acc, any, s).
Proof.
  intros Hc. unfold acc_step. destruct (digit c) as [d|] eqn:E; [|done].
  destruct (Z.leb_spec base d); [done|]. exfalso. apply Hc. by exists d.
Qed.

(** After an overflow the rest of the digits is only consumed. *)
Lemma acc_overflowed ds nxt : Forall (digit_in base) ds -> ~ digit_in base nxt ->
  forall fuel acc i, reads rd i (ds ++ [nxt]) -> (length ds < fuel)%nat ->
  run fuel (acc, -1, rd i, i + 1) = Some (acc, -1, i + Z.of_nat (length ds) + 1).
Proof.
  intros Hds Hn. induction Hds as [|c ds Hc Hds IH]; intros fuel acc i Hr Hf;
    (destruct fuel as [|fuel]; [cbn in Hf; lia|]); cbn [loop length app] in *;
    apply reads_cons in Hr as [-> Hr].
  - rewrite acc_step_stop by done. do 2 f_equal. lia.
  - unfold acc_step. destruct (digit_in_val base c Hc) as [-> Hv].
    rewrite (proj2 (Z.leb_gt _ _)) by lia. cbn [Z.ltb Z.compare orb].
    rewrite IH by (done || lia). do 2 f_equal. lia.
Qed.

Lemma accumulate_run ds nxt : Forall (digit_in base) ds -> ~ digit_in base nxt ->
  forall fuel acc any i, reads rd i (ds ++ [nxt]) -> (length ds < fuel)%nat ->
  0 <= acc <= lim -> 0 <= any ->
  exists acc' any', run fuel (acc, any, rd i, i + 1) = Some (acc', any', i + Z.of_nat (length ds) + 1) /\
    if lim <? numval base acc ds then any' = -1
    else acc' = numval base acc ds /\ any' = match ds with [] => any | _ => 1 end.
Proof.
  intros Hds Hn. induction Hds as [|c ds Hc Hds IH]; intros fuel acc any i Hr Hf Ha Hany;
    (destruct fuel as [|fuel]; [cbn in Hf; lia|]); cbn [loop length app numval fold_left] in *;
    apply reads_cons in Hr as [Hi Hr]; rewrite ?Hi.
  - rewrite acc_step_stop by done. exists acc, any. split; [do 2 f_equal; lia|].
    by rewrite (proj2 (Z.ltb_ge _ _)) by lia.
  - rewrite acc_step_digit by done. fold (numval base (acc * base + digit_val c) ds).
    destruct (digit_in_val base c Hc) as [_ Hv].
    pose proof (numval_mono base (acc * base + digit_val c) ds ltac:(lia) ltac:(nia) Hds).
    destruct (Z.ltb_spec lim (acc * base + digit_val c)).
    + rewrite (acc_overflowed ds nxt) by (done || lia). exists acc, (-1).
      split; [do 2 f_equal; lia|]. by rewrite (proj2 (Z.ltb_lt _ _)) by lia.
    + destruct (IH fuel (acc * base + digit_val c) 1 (i + 1)) as (acc' & any' & E & H');
        [done|lia|nia|lia|]. rewrite E. exists acc', any'. split; [do 2 f_equal; lia|].
      destruct (lim <? _); [done|]. destruct H' as [-> ->]. split; [done|]. by destruct ds.
Qed.
End Accumulate.

(** ** What comes before the digits *)

Lemma spaceb_range c : spaceb c = true -> 9 <= c <= 32.
Proof. unfold spaceb. intros H. zbool. destruct H; zbool; lia. Qed.

Lemma digit_in_range b c : digit_in b c -> 48 <= c <= 122 /\ spaceb c = false.
Proof.
  intros (d & Hd & _). destruct (digit_range c d Hd). split; [done|].
  destruct (spaceb c) eqn:E; [|done]. apply spaceb_range in E. lia.
Qed.

Definition prefix_text (n : numeral) : list Z := n_spaces n ++ sign_text n ++ hex_text n.

Section Prefix.
Context (rd : Z -> Z) (isspace : Z -> option bool) (base : Z) (n : numeral) (nxt : Z).
Context (Hok : scanned base n nxt).
Context (Hread : reads rd 0 (text n ++ [nxt])).
Context (Hsp : forall c, 0 <= c < 128 -> isspace c = Some (spaceb c)).
Context (Hnxt : n_digits n = [] -> isspace nxt = Some (spaceb nxt)).

(** The element after the white space is not a space. *)
Lemma first_not_space :
  isspace (rd (Z.of_nat (length (n_spaces n)))) = Some false.
Proof.
  unfold text in Hread. rewrite <- app_assoc, reads_app in Hread. destruct Hread as [_ H].
  rewrite Z.add_0_l in H. unfold sign_text, hex_text in H.
  destruct (n_sign n) as [[]|] eqn:Es; [apply reads_cons in H as [-> _]; by rewrite Hsp by lia..|].
  destruct (n_hex n) eqn:Eh; [apply reads_cons in H as [-> _]; by rewrite Hsp by lia|].
  destruct (n_digits n) as [|d ds] eqn:Ed; apply reads_cons in H as [-> _].
  - rewrite Hnxt by done. by destruct (ok_first _ _ _ Hok Es Eh Ed) as [-> _].
  - pose proof (ok_digits _ _ _ Hok) as Hd. rewrite Ed in Hd. inversion Hd as [|? ? Hc]; subst.
    destruct (digit_in_range _ _ Hc). rewrite Hsp by lia. by f_equal.
Qed.

Lemma skip_space_spec fuel : (length (n_spaces n) < fuel)%nat ->
  skip_space fuel rd isspace =
    Some (rd (Z.of_nat (length (n_spaces n))), Z.of_nat (length (n_spaces n)) + 1).
Proof.
  intros Hf. unfold skip_space. pose proof first_not_space as Hfirst.
  set (len := Z.of_nat (length (n_spaces n))) in *.
  assert (Hs : forall k, 0 <= k < len -> isspace (rd k) = Some true).
  { intros k Hk. destruct (lookup_lt_is_Some_2 (n_spaces n) (Z.to_nat k)) as [c Hc]; [lia|].
    assert (rd k = c) as ->.
    { rewrite <- (Hread (Z.to_nat k) c); [f_equal; lia|]. unfold text.
      rewrite <- app_assoc. by apply lookup_app_l_Some. }
    pose proof (ok_spaces _ _ _ Hok) as Hsps. rewrite Forall_lookup in Hsps.
    specialize (Hsps _ _ Hc). pose proof (spaceb_range c Hsps). rewrite Hsp by lia. by f_equal. }
  run_loop (fun s => 0 <= s <= len) (fun s => len - s)
    (fun r : option (Z * Z) => r = Some (rd len, len + 1)) r Hr; [|lia|lia|lia|by rewrite Hr].
  intros s Hs0. destruct (Z.eq_dec s len) as [->|].
  - by rewrite Hfirst.
  - rewrite Hs by lia. lia.
Qed.

Lemma sign_spec (i : Z) : i = Z.of_nat (length (n_spaces n)) ->
  sign rd (rd i) (i + 1) =
    (n_neg n, rd (i + Z.of_nat (length (sign_text n))), i + Z.of_nat (length (sign_text n)) + 1).
Proof.
  intros ->. unfold text in Hread. rewrite <- app_assoc, reads_app in Hread. destruct Hread as [_ H].
  rewrite Z.add_0_l in H. unfold sign, n_neg, sign_text in *.
  destruct (n_sign n) as [[]|] eqn:Es; cbn [length Z.of_nat];
    [apply reads_cons in H as [-> _]; cbn; do 2 f_equal; lia..|].
  rewrite Z.add_0_r. set (i := Z.of_nat (length (n_spaces n))) in *.
  assert (rd i <> 45 /\ rd i <> 43) as [H45 H43].
  { unfold hex_text in H. destruct (n_hex n) eqn:Eh; [apply reads_cons in H as [-> _]; lia|].
    destruct (n_digits n) as [|d ds] eqn:Ed; apply reads_cons in H as [-> _].
    - by destruct (ok_first _ _ _ Hok Es Eh Ed) as [_ ?].
    - pose proof (ok_digits _ _ _ Hok) as Hd. rewrite Ed in Hd. inversion Hd as [|? ? Hc]; subst.
      destruct (digit_in_range _ _ Hc). lia. }
  by rewrite (proj2 (Z.eqb_neq _ _) H45), (proj2 (Z.eqb_neq _ _) H43).
Qed.

(** Without a prefix, the text does not start with 0x. *)
Lemma not_hex i : n_hex n = None -> reads rd i (n_digits n ++ [nxt]) ->
  ((base =? 0) || (base =? 16)) && (rd i =? 48) && ((rd (i + 1) =? 120) || (rd (i + 1) =? 88)) = false.
Proof.
  intros Eh H. apply not_true_is_false. rewrite !andb_true_iff, !orb_true_iff, !Z.eqb_eq.
  intros [[Hb H48] Hx]. pose proof (ok_digits _ _ _ Hok) as Hd. pose proof (ok_next _ _ _ Hok) as Hn.
  pose proof (ok_nohex _ _ _ Hok Eh) as Hnh. pose proof (ok_base _ _ _ Hok) as Heb.
  unfold eff_base in *. rewrite Eh in *.
  destruct (n_digits n) as [|d [|d' ds]]; cbn [app] in H; apply reads_cons in H as [E H].
  - apply Hn. exists 0. rewrite <- E, H48. split; [done|]. destruct Hb; subst; cbn in *; lia.
  - apply reads_cons in H as [E' _]. rewrite E' in Hx. assert (Hd48 : [d] = [48]) by congruence.
    destruct (Hnh Hd48 Hb). lia.
  - apply reads_cons in H as [E' _]. inversion Hd as [|? ? _ Hd']; subst.
    inversion Hd' as [|? ? (v & Hv & Hlt) _]; subst.
    assert (digit (rd (i + 1)) = Some 33) as Hv' by (by destruct Hx as [-> | ->]).
    assert (v = 33) as -> by congruence. cbn [head] in Hlt. rewrite H48 in Hlt.
    destruct Hb; subst; vm_compute in Hlt; done.
Qed.

Lemma scan_prefix_spec fuel : (length (n_spaces n) < fuel)%nat ->
  let p := Z.of_nat (length (prefix_text n)) in
  scan_prefix fuel rd isspace base = Some (n_neg n, eff_base base n, rd p, p + 1) /\
  reads rd p (n_digits n ++ [nxt]).
Proof.
  intros Hf p. unfold scan_prefix. rewrite (skip_space_spec fuel Hf). cbn [mbind option_bind].
  rewrite (sign_spec _ eq_refl). pose proof Hread as Hr. unfold text in Hr.
  rewrite <- !app_assoc, !reads_app, Z.add_0_l in Hr. destruct Hr as (_ & _ & Hh & Hd & Hn).
  set (i := Z.of_nat (length (n_spaces n)) + Z.of_nat (length (sign_text n))) in *.
  assert (Hp : p = i + Z.of_nat (length (hex_text n)))
    by (unfold p, i, prefix_text; rewrite !length_app; lia).
  assert (Hdn : reads rd p (n_digits n ++ [nxt])) by (rewrite reads_app, Hp; done).
  clearbody p i. split; [|done]. unfold base_prefix, eff_base, hex_text in *.
  destruct (n_hex n) as [x|] eqn:Eh; cbn [length] in Hp.
  - destruct (ok_hex _ _ _ Hok x Eh) as [Hx Hb].
    apply reads_cons in Hh as [-> Hh]. apply reads_cons in Hh as [-> _].
    replace ((base =? 0) || (base =? 16)) with true
      by (symmetry; rewrite orb_true_iff, !Z.eqb_eq; done).
    replace ((x =? 120) || (x =? 88)) with true by (symmetry; rewrite orb_true_iff, !Z.eqb_eq; done).
    change (48 =? 48) with true. cbn [andb]. change (16 =? 0) with false. cbn iota.
    by replace (i + 1 + 1) with p by lia; replace (i + 1 + 2) with (p + 1) by lia.
  - assert (i = p) as -> by lia. rewrite (not_hex p Eh Hdn).
    destruct (Z.eqb_spec base 0) as [Eb|]; [|done].
    destruct (n_digits n) as [|d ds] eqn:Ed; cbn [head app] in *;
      apply reads_cons in Hdn as [Hrp _]; rewrite Hrp.
    + rewrite bool_decide_eq_false_2 by done. destruct (Z.eqb_spec nxt 48) as [->|]; [|done].
      exfalso. apply (ok_next _ _ _ Hok). exists 0. split; [done|].
      pose proof (ok_base _ _ _ Hok). lia.
    + destruct (Z.eqb_spec d 48) as [->|]; [done|].
      rewrite bool_decide_eq_false_2 by (intros [= ?]; done). done.
Qed.
End Prefix.

(** ** The conversions *)

Definition convert (limit : Z) (n : numeral) (b : Z) : option Z :=
  let v := numval b 0 (n_digits n) in if limit <? v then None else Some v.

Definition signed_result (n : numeral) (b : Z) : Z * option Z :=
  match convert (if n_neg n then 2 ^ 63 else LONG_MAX) n b with
  | Some v => (if n_neg n then - v else v, None)
  | None => (if n_neg n then LONG_MIN else LONG_MAX, Some ERANGE)
  end.
Definition unsigned_result (n : numeral) (b : Z) : Z * option Z :=
  match convert ULONG_MAX n b with
  | Some v => (if n_neg n then u64 (- v) else v, None)
  | None => (ULONG_MAX, Some ERANGE)
  end.

(** What is reported: the intmax_t functions set EINVAL when there are no digits. *)
Definition reported (max : bool) (n : numeral) (e : option Z) : option Z :=
  if max && bool_decide (n_digits n = []) then Some EINVAL else e.

Definition result (max : bool) (w nptr : Z) (endptr : bool) (n : numeral) (r : Z * option Z) : conv :=
  mkConv (fst r) (reported max n (snd r))
    (if endptr then Some (if bool_decide (n_digits n = []) then nptr
                          else nptr + w * Z.of_nat (length (text n))) else None).

Lemma s64_small x : - 2 ^ 63 <= x < 2 ^ 63 -> s64 x = x.
Proof. intros H. unfold swrap. rewrite Z.mod_small by (change (64 - 1) with 63; lia). lia. Qed.

Lemma s64_wrap x : 2 ^ 63 <= x < 2 ^ 64 -> s64 x = x - 2 ^ 64.
Proof.
  intros H. unfold swrap. change (64 - 1) with 63.
  rewrite <- (Zmod_unique (x + 2 ^ 63) (2 ^ 64) 1 (x - 2 ^ 63)) by lia. lia.
Qed.

Lemma u64_neg v : 0 < v <= 2 ^ 64 -> u64 (- v) = 2 ^ 64 - v.
Proof.
  intros H. unfold uwrap. destruct (Z.eq_dec v (2 ^ 64)) as [->|]; [reflexivity|].
  symmetry. apply (Zmod_unique _ _ (-1)); lia.
Qed.

Section Convert.
Context (rd : Z -> Z) (isspace : Z -> option bool) (base : Z) (n : numeral) (nxt : Z).
Context (Hok : scanned base n nxt).
Context (Hread : reads rd 0 (text n ++ [nxt])).
Context (Hsp : forall c, 0 <= c < 128 -> isspace c = Some (spaceb c)).
Context (Hnxt : n_digits n = [] -> isspace nxt = Some (spaceb nxt)).
Context (fuel : nat) (Hfuel : (length (text n) < fuel)%nat).
Context (w nptr : Z) (endptr : bool).

Notation b := (eff_base base n).
Notation p := (Z.of_nat (length (prefix_text n))).
Notation v := (numval b 0 (n_digits n)).

Lemma fuel_spaces : (length (n_spaces n) < fuel)%nat.
Proof. unfold text in Hfuel. rewrite !length_app in Hfuel. lia. Qed.

Lemma accumulate_spec limit : 0 <= limit < 2 ^ 64 ->
  exists acc any, accumulate fuel rd b (limit / b) (s32 (limit mod b)) (rd p) (p + 1) =
      Some (acc, any, Z.of_nat (length (text n)) + 1) /\
    match convert limit n b with
    | Some v' => acc = v' /\ 0 <= v' <= limit /\
                 any = (if bool_decide (n_digits n = []) then 0 else 1)
    | None => any = -1 /\ n_digits n <> []
    end.
Proof.
  intros Hl. destruct (scan_prefix_spec rd isspace base n nxt Hok Hread Hsp Hnxt fuel fuel_spaces) as [_ Hr].
  pose proof (ok_base _ _ _ Hok) as Hb. pose proof (Z.mod_pos_bound limit b ltac:(lia)) as Hm.
  assert (E32 : s32 (limit mod b) = limit mod b).
  { unfold swrap. rewrite Z.mod_small; [lia|]. change (2 ^ (32 - 1)) with 2147483648. lia. }
  rewrite E32. unfold accumulate.
  destruct (accumulate_run rd b (limit / b) (limit mod b) limit Hb
    ltac:(rewrite (Z.div_mod limit b) at 1; lia) Hm ltac:(lia)
    (n_digits n) nxt (ok_digits _ _ _ Hok) (ok_next _ _ _ Hok) fuel 0 0 p Hr) as (acc & any & E & H);
    [unfold text in Hfuel; rewrite !length_app in Hfuel; lia|lia|lia|].
  exists acc, any. rewrite E. split.
  - do 2 f_equal. unfold text, prefix_text. rewrite !length_app. lia.
  - unfold convert. pose proof (numval_mono b 0 (n_digits n) ltac:(lia) ltac:(lia) (ok_digits _ _ _ Hok)).
    destruct (Z.ltb_spec limit v).
    + split; [done|]. intros E0. rewrite E0 in *. cbn in *. lia.
    + destruct H as [-> ->]. split; [done|]. split; [lia|]. by destruct (n_digits n).
Qed.

(** The end pointer and the error a run of the loop leads to. *)
Lemma end_at_text limit acc any :
  match convert limit n b with
  | Some v' => acc = v' /\ 0 <= v' <= limit /\ any = (if bool_decide (n_digits n = []) then 0 else 1)
  | None => any = -1 /\ n_digits n <> []
  end ->
  end_at w nptr endptr any (Z.of_nat (length (text n)) + 1) =
    cend (result false w nptr endptr n (0, None)).
Proof.
  intros Ha. assert (Hiff : any = 0 <-> n_digits n = []).
  { destruct (convert limit n b); [destruct Ha as (_ & _ & ->)|]; [case_bool_decide|]; naive_solver lia. }
  unfold end_at, result. cbn [cend]. destruct endptr; [|done]. f_equal.
  destruct (Z.eqb_spec any 0).
  - by rewrite bool_decide_eq_true_2 by tauto.
  - rewrite bool_decide_eq_false_2 by tauto. f_equal. lia.
Qed.

Lemma eff_base_u64 : u64 b = b.
Proof. pose proof (ok_base _ _ _ Hok). unfold uwrap. apply Z.mod_small. lia. Qed.

Lemma signed_value acc any :
  match convert (if n_neg n then 2 ^ 63 else LONG_MAX) n b with
  | Some v' => acc = v' /\ 0 <= v' <= (if n_neg n then 2 ^ 63 else LONG_MAX) /\
               any = (if bool_decide (n_digits n = []) then 0 else 1)
  | None => any = -1 /\ n_digits n <> []
  end ->
  s64 (if any <? 0 then (if n_neg n then u64 LONG_MIN else LONG_MAX)
       else if n_neg n then u64 (- acc) else acc) = fst (signed_result n b) /\
  (if any <? 0 then Some ERANGE else None) = snd (signed_result n b).
Proof.
  unfold signed_result. destruct (convert _ _ _) as [v'|].
  - intros (-> & Hv & ->). replace (_ <? 0) with false by (by case_bool_decide).
    split; [|done]. cbn [fst]. destruct (n_neg n); unfold LONG_MAX in *; [|apply s64_small; lia].
    destruct (Z.eq_dec v' 0) as [->|]; [reflexivity|]. rewrite u64_neg by lia.
    rewrite s64_wrap by lia. lia.
  - intros [-> _]. split; [|done]. cbn [Z.ltb Z.compare fst]. by destruct (n_neg n).
Qed.

Lemma signed_body_spec :
  signed_body fuel rd isspace base (end_at w nptr endptr) =
    Some (result false w nptr endptr n (signed_result n b)).
Proof.
  unfold signed_body.
  destruct (scan_prefix_spec rd isspace base n nxt Hok Hread Hsp Hnxt fuel fuel_spaces) as [-> _].
  cbn [mbind option_bind]. rewrite eff_base_u64.
  replace (if n_neg n then u64 (- u64 LONG_MIN) else LONG_MAX)
    with (if n_neg n then 2 ^ 63 else LONG_MAX) by (by destruct (n_neg n)).
  destruct (accumulate_spec (if n_neg n then 2 ^ 63 else LONG_MAX)) as (acc & any & -> & H);
    [unfold LONG_MAX; destruct (n_neg n); lia|].
  cbn [mbind option_bind]. rewrite (end_at_text _ acc any H).
  destruct (signed_value acc any H) as [-> ->]. done.
Qed.

Lemma unsigned_body_spec :
  unsigned_body fuel rd isspace base (end_at w nptr endptr) =
    Some (result false w nptr endptr n (unsigned_result n b)).
Proof.
  unfold unsigned_body.
  destruct (scan_prefix_spec rd isspace base n nxt Hok Hread Hsp Hnxt fuel fuel_spaces) as [-> _].
  cbn [mbind option_bind]. rewrite eff_base_u64.
  destruct (accumulate_spec ULONG_MAX) as (acc & any & -> & H); [unfold ULONG_MAX; lia|].
  cbn [mbind option_bind]. rewrite (end_at_text _ acc any H). unfold unsigned_result.
  destruct (convert ULONG_MAX n b) as [v'|].
  - destruct H as (-> & Hv & ->). by case_bool_decide.
  - by destruct H as [-> _].
Qed.

Lemma max_body_spec (signed : bool) :
  max_body signed fuel rd isspace base (end_at w nptr endptr) =
    Some (result true w nptr endptr n (if signed then signed_result n b else unsigned_result n b)).
Proof.
  unfold max_body.
  destruct (scan_prefix_spec rd isspace base n nxt Hok Hread Hsp Hnxt fuel fuel_spaces) as [-> _].
  cbn [mbind option_bind]. pose proof (ok_base _ _ _ Hok) as Hb.
  rewrite (proj2 (Z.ltb_ge _ _)), (proj2 (Z.ltb_ge _ _)) by lia. cbn [orb].
  replace (if n_neg n then u64 (- u64 LONG_MIN) else LONG_MAX)
    with (if n_neg n then 2 ^ 63 else LONG_MAX) by (by destruct (n_neg n)).
  set (limit := if signed then if n_neg n then 2 ^ 63 else LONG_MAX else ULONG_MAX).
  destruct (accumulate_spec limit) as (acc & any & -> & H);
    [unfold limit, LONG_MAX, ULONG_MAX; destruct signed, (n_neg n); lia|].
  cbn [mbind option_bind]. rewrite (end_at_text _ acc any H). unfold result, reported.
  destruct signed; subst limit.
  - destruct (signed_value acc any H) as [Hval Herr]. unfold signed_result in *.
    destruct (convert _ _ _) as [v'|] eqn:Ec.
    + destruct H as (-> & Hv & ->). case_bool_decide as Hd; [|by rewrite <- Hval].
      unfold convert in Ec. rewrite Hd in Ec. cbn in Ec.
      repeat case_match; by simplify_eq/=.
    + destruct H as [-> Hd]. rewrite bool_decide_eq_false_2 by done. by rewrite <- Hval.
  - unfold unsigned_result. destruct (convert ULONG_MAX n b) as [v'|] eqn:Ec.
    + destruct H as (-> & Hv & ->). case_bool_decide as Hd; [|done].
      unfold convert in Ec. rewrite Hd in Ec. cbn in Ec. repeat case_match; by simplify_eq/=.
    + destruct H as [-> Hd]. by rewrite bool_decide_eq_false_2 by done.
Qed.
End Convert.

Lemma sign_extend_char c : 0 <= c < 256 -> schar c = if c <? 128 then c else c - 256.
Proof.
  intros Hc. unfold schar, swrap. change (2 ^ (8 - 1)) with 128. change (2 ^ 8) with 256.
  destruct (Z.ltb_spec c 128); [rewrite Z.mod_small; lia|].
  rewrite <- (Zmod_unique (c + 128) 256 1 (c - 128)); lia.
Qed.

Lemma text_ascii base n nxt : scanned base n nxt -> Forall (fun c => 0 <= c < 128) (text n).
Proof.
  intros Hok. unfold text, sign_text, hex_text. rewrite !Forall_app. split_and!.
  - eapply Forall_impl; [apply (ok_spaces _ _ _ Hok)|]. intros c Hc. apply spaceb_range in Hc. lia.
  - destruct (n_sign n) as [[]|]; repeat constructor; lia.
  - destruct (n_hex n) as [x|] eqn:E; [|done]. destruct (ok_hex _ _ _ Hok x E) as [Hx _].
    repeat constructor; lia.
  - eapply Forall_impl; [apply (ok_digits _ _ _ Hok)|]. intros c Hc. apply digit_in_range in Hc. lia.
Qed.

(** The text read as signed chars. *)
Lemma reads_char m nptr base n nxt : mem_ok m -> scanned base n nxt ->
  n_digits n <> [] \/ 0 <= nxt < 128 ->
  reads (rd_uchar m nptr) 0 (text n ++ [nxt]) ->
  scanned base n (schar nxt) /\ reads (rd_char m nptr) 0 (text n ++ [schar nxt]).
Proof.
  intros Hm Hok Hd Hr. rewrite reads_app in Hr. destruct Hr as [Ht Hn].
  assert (Hb : 0 <= nxt < 256).
  { apply reads_cons in Hn as [<- _]. apply Hm. }
  split.
  - rewrite (sign_extend_char nxt Hb). destruct (Z.ltb_spec nxt 128); [done|].
    destruct Hd as [Hd|]; [|lia]. destruct Hok. split; try done.
    + intros Hc. apply digit_in_range in Hc. lia.
    + lia.
  - rewrite reads_app. split.
    + intros j c Hj. pose proof (Ht j c Hj) as E. unfold rd_char, rd_uchar in *. rewrite E.
      pose proof (text_ascii _ _ _ Hok) as Ha. rewrite Forall_lookup in Ha. specialize (Ha _ _ Hj).
      rewrite sign_extend_char by lia. by rewrite (proj2 (Z.ltb_lt _ _)) by lia.
    + apply reads_cons in Hn as [E _]. apply reads_cons. split; [|intros j c Hj; done].
      unfold rd_char, rd_uchar in *. by rewrite E.
Qed.

Lemma eff_base_good base n nxt : scanned base n nxt -> bad_base base = false.
Proof.
  intros Hok. pose proof (ok_base _ _ _ Hok) as Hb. unfold eff_base in Hb. unfold bad_base.
  destruct (n_hex n) as [x|] eqn:E.
  - destruct (ok_hex _ _ _ Hok x E) as [_ [-> | ->]]; done.
  - destruct (Z.eqb_spec base 0) as [->|]; [done|].
    rewrite (proj2 (Z.ltb_ge _ _)), (proj2 (Z.eqb_neq _ _)), (proj2 (Z.ltb_ge _ _)) by lia. done.
Qed.

(** A conversion whose code takes the text for [n]. *)
Lemma conversions_scanned m nptr endptr base n nxt fuel :
  mem_ok m -> scanned base n nxt -> n_digits n <> [] \/ 0 <= nxt < 128 ->
  (length (text n) < fuel)%nat ->
  let b := eff_base base n in
  (reads (rd_uchar m nptr) 0 (text n ++ [nxt]) ->
     strtol_l fuel m nptr endptr base = Some (result false 1 nptr endptr n (signed_result n b)) /\
     strtoll_l fuel m nptr endptr base = Some (result false 1 nptr endptr n (signed_result n b)) /\
     strtoul_l fuel m nptr endptr base = Some (result false 1 nptr endptr n (unsigned_result n b)) /\
     strtoull_l fuel m nptr endptr base = Some (result false 1 nptr endptr n (unsigned_result n b)) /\
     strtoimax_l fuel m nptr endptr base = Some (result true 1 nptr endptr n (signed_result n b)) /\
     strtoumax_l fuel m nptr endptr base = Some (result true 1 nptr endptr n (unsigned_result n b))) /\
  (reads (rd_wchar m nptr) 0 (text n ++ [nxt]) ->
     wcstol_l fuel m nptr endptr base = Some (result false 4 nptr endptr n (signed_result n b)) /\
     wcstoll_l fuel m nptr endptr base = Some (result false 4 nptr endptr n (signed_result n b)) /\
     wcstoul_l fuel m nptr endptr base = Some (result false 4 nptr endptr n (unsigned_result n b)) /\
     wcstoull_l fuel m nptr endptr base = Some (result false 4 nptr endptr n (unsigned_result n b)) /\
     wcstoimax_l fuel m nptr endptr base = Some (result true 4 nptr endptr n (signed_result n b)) /\
     wcstoumax_l fuel m nptr endptr base = Some (result true 4 nptr endptr n (unsigned_result n b))).
Proof.
  intros Hm Hok Hd Hf b.
  assert (Hsp : forall c, 0 <= c < 128 -> isspace c = Some (spaceb c)) by (intros; apply isspace_spec; lia).
  assert (Hwsp : forall c, 0 <= c < 128 -> iswspace c = Some (spaceb c)) by (intros; apply iswspace_spec; lia).
  assert (Hx : n_digits n = [] -> 0 <= nxt < 128) by (destruct Hd; [done|done]).
  split; intros Hr.
  - destruct (reads_char m nptr base n nxt Hm Hok Hd Hr) as [Hokc Hrc].
    unfold strtol_l. rewrite (eff_base_good _ _ _ Hok).
    assert (Hxc : n_digits n = [] -> isspace (schar nxt) = Some (spaceb (schar nxt))).
    { intros E. specialize (Hx E). rewrite sign_extend_char by lia.
      rewrite (proj2 (Z.ltb_lt _ _)) by lia. apply Hsp. lia. }
    split_and!; [by apply (signed_body_spec _ _ base n nxt); auto..|
                 by apply (unsigned_body_spec _ _ base n nxt); auto|
                 by apply (unsigned_body_spec _ _ base n nxt); auto| |].
    + apply (max_body_spec _ _ base n (schar nxt) Hokc Hrc Hsp Hxc fuel Hf 1 nptr endptr true).
    + apply (max_body_spec _ _ base n (schar nxt) Hokc Hrc Hsp Hxc fuel Hf 1 nptr endptr false).
  - unfold wcstoull_l. rewrite (eff_base_good _ _ _ Hok).
    assert (Hxc : n_digits n = [] -> iswspace nxt = Some (spaceb nxt)) by auto.
    split_and!; [by apply (signed_body_spec _ _ base n nxt); auto..|
                 by apply (unsigned_body_spec _ _ base n nxt); auto|
                 by apply (unsigned_body_spec _ _ base n nxt); auto| |].
    + apply (max_body_spec _ _ base n nxt Hok Hr Hwsp Hxc fuel Hf 4 nptr endptr true).
    + apply (max_body_spec _ _ base n nxt Hok Hr Hwsp Hxc fuel Hf 4 nptr endptr false).
Qed.

Lemma reads_first rd i l c more : reads rd i (l ++ c :: more) -> reads rd i (l ++ [c]).
Proof. rewrite !reads_app, !reads_cons. intros (H1 & H2 & _). by split. Qed.

(** C34: every conversion accepts the longest numeral at the start of its string -
    white space, a sign, 0x where the base allows it and a digit follows, digits of the
    base - and gives the number it denotes, exactly when it is in the range of the
    result and the nearest end of the range with ERANGE when it is not; *endptr is the
    first character after the digits, or the start of the string when there are none.
    This holds of the six functions on byte strings and of the six on wide strings, for
    every base the code supports and every length of input, but for a 0x that no
    hexadecimal digit follows ([bare_0x]) and for text without digits before a
    character that is not ASCII. *)
Theorem conversions_correct m nptr endptr base n nxt more fuel :
  mem_ok m -> numeral_ok base n nxt more -> ~ bare_0x base n nxt ->
  n_digits n <> [] \/ 0 <= nxt < 128 -> (length (text n) < fuel)%nat ->
  let b := eff_base base n in
  (reads (rd_uchar m nptr) 0 (text n ++ nxt :: more) ->
     strtol_l fuel m nptr endptr base = Some (result false 1 nptr endptr n (signed_result n b)) /\
     strtoll_l fuel m nptr endptr base = Some (result false 1 nptr endptr n (signed_result n b)) /\
     strtoul_l fuel m nptr endptr base = Some (result false 1 nptr endptr n (unsigned_result n b)) /\
     strtoull_l fuel m nptr endptr base = Some (result false 1 nptr endptr n (unsigned_result n b)) /\
     strtoimax_l fuel m nptr endptr base = Some (result true 1 nptr endptr n (signed_result n b)) /\
     strtoumax_l fuel m nptr endptr base = Some (result true 1 nptr endptr n (unsigned_result n b))) /\
  (reads (rd_wchar m nptr) 0 (text n ++ nxt :: more) ->
     wcstol_l fuel m nptr endptr base = Some (result false 4 nptr endptr n (signed_result n b)) /\
     wcstoll_l fuel m nptr endptr base = Some (result false 4 nptr endptr n (signed_result n b)) /\
     wcstoul_l fuel m nptr endptr base = Some (result false 4 nptr endptr n (unsigned_result n b)) /\
     wcstoull_l fuel m nptr endptr base = Some (result false 4 nptr endptr n (unsigned_result n b)) /\
     wcstoimax_l fuel m nptr endptr base = Some (result true 4 nptr endptr n (signed_result n b)) /\
     wcstoumax_l fuel m nptr endptr base = Some (result true 4 nptr endptr n (unsigned_result n b))).
Proof.
  intros Hm Hok Hb Hd Hf b.
  destruct (conversions_scanned m nptr endptr base n nxt fuel Hm (numeral_scanned _ _ _ _ Hok Hb) Hd Hf) as [H1 H2].
  split; intros Hr; [apply H1|apply H2]; by eapply reads_first.
Qed.

(** A 0x that no hexadecimal digit follows: strtol and strtoul convert nothing, report
    the start of the string in *endptr and give 0, where their documentation has them
    accept the 0 and report the x. *)
Theorem bare_0x_rejected m nptr base n nxt y rest fuel :
  mem_ok m -> numeral_ok base n nxt (y :: rest) -> bare_0x base n nxt -> 0 <= y < 128 ->
  (S (length (text n)) < fuel)%nat -> reads (rd_uchar m nptr) 0 (text n ++ nxt :: y :: rest) ->
  strtol_l fuel m nptr true base = Some (mkConv 0 None (Some nptr)) /\
  strtoul_l fuel m nptr true base = Some (mkConv 0 None (Some nptr)).
Proof.
  intros Hm Hok Hb Hy Hf Hr.
  destruct (bare_0x_scanned base n nxt (y :: rest) Hok Hb) as (y' & rest' & [= <- <-] & Hsc & Ht).
  rewrite Ht in Hr. apply reads_first in Hr.
  assert (Hlen : (length (text (empty_hex n nxt)) < fuel)%nat).
  { apply (f_equal length) in Ht. rewrite !length_app in Ht. cbn [length] in Ht. lia. }
  destruct (conversions_scanned m nptr true base _ y fuel Hm Hsc (or_intror Hy) Hlen) as [H _].
  destruct (H Hr) as (H1 & _ & H3 & _). rewrite H1, H3. unfold result, signed_result, unsigned_result, convert, n_neg.
  split; cbn; by destruct (n_sign n) as [[]|].
Qed.

Definition minus_hex : numeral := mkNumeral [32; 9] (Some true) (Some 120) [49; 102].
Definition too_big : numeral :=
  mkNumeral [] None None [57; 57; 57; 57; 57; 57; 57; 57; 57; 57; 57; 57; 57; 57; 57; 57; 57; 57; 57; 57].

Lemma digit_in_ok b c : (match digit c with Some d => d <? b | None => false end) = true -> digit_in b c.
Proof. intros H. unfold digit_in. destruct (digit c) as [d|]; [|done]. exists d. split; [done|lia]. Qed.

Lemma digit_in_no b c : (match digit c with Some d => d <? b | None => false end) = false -> ~ digit_in b c.
Proof. intros H (d & E & Hd). rewrite E in H. apply Z.ltb_ge in H. lia. Qed.

Lemma minus_hex_ok : numeral_ok 16 minus_hex 59 [].
Proof.
  split; cbn; try done; try lia.
  - repeat constructor.
  - intros x [= <-]. split; [lia|]. split; [lia|done].
  - repeat constructor; by apply digit_in_ok.
  - by apply digit_in_no.
Qed.

(** Decide [reads] on a concrete string. *)
Lemma reads_concrete rd i l :
  forallb (fun j => rd (i + Z.of_nat j) =? l !!! j) (seq 0 (length l)) = true -> reads rd i l.
Proof.
  intros H j c Hj. rewrite forallb_forall in H.
  assert (In j (seq 0 (length l))) as Hin by (apply in_seq; apply lookup_lt_Some in Hj; lia).
  specialize (H j Hin). apply Z.eqb_eq in H. rewrite H. by apply list_lookup_total_correct.
Qed.

(** " \t-0x1f;" is -31 *)
Lemma conversions_correct_witness :
  strtol_l 20 (bytes_at 1000 [32; 9; 45; 48; 120; 49; 102; 59]) 1000 true 16 =
    Some (mkConv (-31) None (Some 1007)) /\
  strtoull_l 20 (bytes_at 1000 [32; 9; 45; 48; 120; 49; 102; 59]) 1000 true 16 =
    Some (mkConv (2 ^ 64 - 31) None (Some 1007)).
Proof.
  assert (Hm : mem_ok (bytes_at 1000 [32; 9; 45; 48; 120; 49; 102; 59]))
    by (apply bytes_at_ok; repeat constructor; lia).
  assert (Hd : n_digits minus_hex <> [] \/ 0 <= 59 < 128) by (right; lia).
  assert (Hf : (length (text minus_hex) < 20)%nat) by (vm_compute; lia).
  pose proof (conversions_correct (bytes_at 1000 [32; 9; 45; 48; 120; 49; 102; 59]) 1000 true 16
    minus_hex 59 [] 20 Hm minus_hex_ok ltac:(unfold bare_0x; cbn; intros [? _]; discriminate) Hd Hf) as H. cbv zeta in H. destruct H as [H _].
  destruct H as (H1 & _ & _ & H4 & _); [apply reads_concrete; vm_compute; reflexivity|].
  rewrite H1, H4. split; vm_compute; reflexivity.
Defined.

(** ** Printing and reading back *)

Lemma digits_spec b d : 2 <= b <= 36 -> 0 <= d < b -> digit (digits d) = Some d /\ 48 <= digits d <= 122.
Proof.
  intros Hb Hd. unfold digits, digit. destruct (Z.ltb_spec d 10).
  - rewrite !(proj2 (Z.leb_le _ _)) by lia. cbn [andb]. split; [f_equal; lia|lia].
  - rewrite (proj2 (Z.leb_gt (97 + (d - 10)) 57)), (proj2 (Z.leb_gt (97 + (d - 10)) 90)) by lia.
    rewrite !andb_false_r, !(proj2 (Z.leb_le _ _)) by lia. cbn [andb]. split; [f_equal; lia|lia].
Qed.

Lemma numval_snoc b acc ds c : numval b acc (ds ++ [c]) = numval b acc ds * b + digit_val c.
Proof. unfold numval. by rewrite fold_left_app. Qed.

(** [m'] is [m] with the list [l] written at [a]. *)
Definition written (m m' : mem) (a : Z) (l : list Z) : Prop :=
  forall x, m' x = if (a <=? x) && (x <? a + blen l) then l !!! Z.to_nat (x - a) else m x.

Lemma written_cons m m' a c l : written (upd m a c) m' (a + 1) l -> written m m' a (c :: l).
Proof.
  intros H x. rewrite H. unfold upd, blen. cbn [length].
  destruct (Z.leb_spec (a + 1) x), (Z.ltb_spec x (a + 1 + Z.of_nat (length l))),
    (Z.leb_spec a x), (Z.ltb_spec x (a + Z.of_nat (S (length l)))); cbn [andb]; try lia;
    destruct (Z.eqb_spec x a); try lia; try done.
  - rewrite lookup_total_cons_ne_0 by lia. f_equal. lia.
  - subst. by rewrite Z.sub_diag.
Qed.

Lemma loop_mono {S R} (step : S -> S + R) fuel fuel' s r :
  loop fuel step s = Some r -> (fuel <= fuel')%nat -> loop fuel' step s = Some r.
Proof.
  revert fuel' s. induction fuel as [|fuel IH]; intros fuel' s H Hf; [done|].
  destruct fuel' as [|fuel']; [lia|]. cbn in *. destruct (step s); [|done]. apply IH; [done|lia].
Qed.

Lemma reverse_rev_lookup (ds : list Z) (k : nat) : (k < length ds)%nat ->
  rev ds !! k = ds !! (length ds - 1 - k)%nat.
Proof.
  intros Hk. replace (rev ds) with (reverse ds) by (unfold reverse; by rewrite rev_alt).
  rewrite reverse_lookup by done. f_equal. lia.
Qed.

Section Print.
Context (base : Z) (Hbase : 2 <= base <= 36).

(** The digits are written least significant first. *)
Lemma put_digits_spec str fuel m v i : 0 <= v < 2 ^ Z.of_nat fuel -> (0 < fuel)%nat ->
  exists ds m', put_digits fuel str base (m, v, i) = Some (m', i + blen ds) /\
    ds <> [] /\ (length ds <= fuel)%nat /\ Forall (digit_in base) ds /\ numval base 0 (rev ds) = v /\
    written m m' (str + i) ds.
Proof.
  unfold put_digits. revert m v i. induction fuel as [|fuel IH]; intros m v i Hv Hf; [lia|].
  cbn [loop]. pose proof (Z.mod_pos_bound v base ltac:(lia)) as Hmod.
  destruct (digits_spec base (v mod base) Hbase Hmod) as [Hd _].
  assert (Hin : digit_in base (digits (v mod base))) by (exists (v mod base); split; [done|lia]).
  assert (Hval : digit_val (digits (v mod base)) = v mod base) by (unfold digit_val; by rewrite Hd).
  pose proof (Z.div_mod v base ltac:(lia)) as Hdm.
  destruct (Z.eqb_spec (v / base) 0) as [E|E].
  - eexists [digits (v mod base)], _. split; [reflexivity|]. split; [done|]. split; [cbn; lia|].
    split; [by constructor|]. split; [cbn; lia|]. apply written_cons. intros x.
    destruct (Z.leb_spec (str + i + 1) x), (Z.ltb_spec x (str + i + 1 + blen (@nil Z)));
      unfold blen in *; cbn [length andb] in *; try lia; done.
  - assert (0 <= v / base) by (apply Z.div_pos; lia).
    assert (v / base < 2 ^ Z.of_nat fuel).
    { apply Z.div_lt_upper_bound; [lia|]. rewrite Nat2Z.inj_succ, Z.pow_succ_r in Hv by lia. nia. }
    destruct fuel as [|fuel]; [cbn in *; lia|].
    destruct (IH (upd m (str + i) (digits (v mod base))) (v / base) (i + 1)) as
      (ds & m' & -> & Hne & Hlen & Hds & Hnum & Hw); [lia|lia|].
    exists (digits (v mod base) :: ds), m'. split; [unfold blen; cbn [length]; do 2 f_equal; lia|].
    split; [done|]. split; [cbn [length]; lia|]. split; [by constructor|]. split.
    + cbn [rev]. rewrite numval_snoc, Hnum. lia.
    + apply written_cons. by replace (str + i + 1) with (str + (i + 1)) by lia.
Qed.

(** The swap loop reverses the bytes. *)
Definition swapped (m1 : mem) (str len : Z) (st : mem * Z * Z) : Prop :=
  let '(m, j, i) := st in
  i = len - 1 - j /\ 0 <= j <= (len + 1) / 2 /\
  forall x, m x = if (str <=? x) && (x <? str + len) && ((x - str <? j) || (i <? x - str))
                  then m1 (str + (len - 1 - (x - str))) else m1 x.

Lemma reverse_string_spec str fuel m1 len : 1 <= len < Z.of_nat fuel ->
  exists m', reverse_string fuel str (m1, 0, len - 1) = Some m' /\
    forall x, m' x = if (str <=? x) && (x <? str + len) then m1 (str + (len - 1 - (x - str))) else m1 x.
Proof.
  intros Hlen. unfold reverse_string.
  run_loop (swapped m1 str len) (fun st : mem * Z * Z => len - snd (fst st))
    (fun m' : mem => forall x, m' x =
       if (str <=? x) && (x <? str + len) then m1 (str + (len - 1 - (x - str))) else m1 x) r H;
    [|split; [lia|]; split; [split; [lia|apply Z.div_pos; lia]|]|cbn; lia|cbn; lia|by exists r].
  - intros [[m j] i] (Hi & Hj & Hm). pose proof (Z.mul_div_le (len + 1) 2 ltac:(lia)).
    pose proof (Z.mul_succ_div_gt (len + 1) 2 ltac:(lia)).
    destruct (Z.ltb_spec j i).
    + split; [|cbn; lia]. split; [lia|]. split; [lia|]. intros x. unfold upd.
      destruct (Z.eqb_spec x (str + i)) as [->|]; [|destruct (Z.eqb_spec x (str + j)) as [->|]];
        rewrite Hm; byte_cases; cbn [andb orb]; try lia; try (f_equal; lia).
    + intros x. rewrite Hm. byte_cases; cbn [andb orb]; try lia; try done. f_equal; lia.
  - intros x. byte_cases; cbn [andb orb]; try lia; done.
Qed.

(** The characters utoa leaves at [str]: the digits, most significant first. *)
Lemma utoa_spec fuel m str v : 0 <= v < 2 ^ 32 -> (34 <= fuel)%nat ->
  exists ds m', utoa fuel m v str base = Some (m', str) /\ ds <> [] /\ (length ds <= 32)%nat /\
    Forall (digit_in base) ds /\ numval base 0 ds = v /\ written m m' str (ds ++ [0]).
Proof.
  intros Hv Hf. unfold utoa. rewrite !(proj2 (Z.ltb_ge _ _)) by lia. cbn [orb].
  unfold uwrap. rewrite Z.mod_small by lia.
  assert (Hput : exists ds m', put_digits fuel str base (m, v, 0) = Some (m', 0 + blen ds) /\
    ds <> [] /\ (length ds <= 32)%nat /\ Forall (digit_in base) ds /\ numval base 0 (rev ds) = v /\
    written m m' (str + 0) ds).
  { destruct (put_digits_spec str 32 m v 0) as (ds & m' & E & H); [lia|lia|].
    exists ds, m'. split; [|done]. unfold put_digits in *. eapply loop_mono; [exact E|lia]. }
  destruct Hput as (ds & m' & -> & Hne & Hlen & Hds & Hnum & Hw). cbn [mbind option_bind].
  assert (1 <= blen ds) by (destruct ds; unfold blen; [done|cbn [length]; lia]).
  rewrite Z.add_0_l. destruct (reverse_string_spec str fuel (upd m' (str + blen ds) 0) (blen ds))
    as (m2 & -> & Hm2); [unfold blen in *; lia|]. cbn [mbind option_bind].
  exists (rev ds), m2. split; [done|]. split; [intros E; apply Hne; rewrite <- (rev_involutive ds), E; done|].
  rewrite length_rev. split; [done|]. split; [by apply Forall_rev|]. split; [done|].
  rewrite Z.add_0_r in Hw. intros x. rewrite Hm2. unfold upd. unfold blen in *.
  rewrite length_app, length_rev. cbn [length].
  destruct (Z.leb_spec str x); cbn [andb].
  - destruct (Z.ltb_spec x (str + Z.of_nat (length ds))).
    + rewrite (proj2 (Z.eqb_neq _ _)) by lia. rewrite (proj2 (Z.ltb_lt x _)) by lia. rewrite Hw.
      unfold blen. rewrite (proj2 (Z.leb_le _ _)), (proj2 (Z.ltb_lt _ _)) by lia. cbn [andb].
      rewrite lookup_total_app_l by (rewrite length_rev; lia).
      rewrite !list_lookup_total_alt. f_equal. rewrite reverse_rev_lookup by lia. f_equal. lia.
    + destruct (Z.eqb_spec x (str + Z.of_nat (length ds))) as [->|].
      * rewrite (proj2 (Z.ltb_lt _ _)) by lia. rewrite list_lookup_total_alt, lookup_app_r by (rewrite length_rev; lia).
        by replace (_ - _)%nat with 0%nat by (rewrite length_rev; lia).
      * rewrite (proj2 (Z.ltb_ge _ _)) by lia. rewrite Hw. unfold blen.
        by rewrite (proj2 (Z.ltb_ge _ _)), andb_false_r by lia.
  - rewrite (proj2 (Z.eqb_neq _ _)) by lia. rewrite Hw. by rewrite (proj2 (Z.leb_gt _ _)) by lia.
Qed.
End Print.

Lemma written_reads m m' str l : written m m' str l -> reads (rd_uchar m' str) 0 l.
Proof.
  intros Hw j c Hj. unfold rd_uchar. rewrite Hw. pose proof (lookup_lt_Some _ _ _ Hj). unfold blen.
  rewrite (proj2 (Z.leb_le _ _)), (proj2 (Z.ltb_lt _ _)) by lia. cbn [andb].
  replace (Z.to_nat (str + (0 + Z.of_nat j) - str)) with j by lia. by apply list_lookup_total_correct.
Qed.

Lemma printed_ok base sgn ds : 2 <= base <= 36 -> ds <> [] -> Forall (digit_in base) ds ->
  scanned base (mkNumeral [] sgn None ds) 0 /\ eff_base base (mkNumeral [] sgn None ds) = base.
Proof.
  intros Hb Hne Hds. assert (E : eff_base base (mkNumeral [] sgn None ds) = base)
    by (unfold eff_base; cbn [n_hex]; by rewrite (proj2 (Z.eqb_neq _ _)) by lia).
  split; [|done]. split; rewrite ?E; cbn; try done; try lia. by apply digit_in_no.
Qed.

Lemma printed_value limit base sgn ds v : numval base 0 ds = v -> v <= limit ->
  convert limit (mkNumeral [] sgn None ds) base = Some v.
Proof. intros Hv Hl. unfold convert. cbn [n_digits]. by rewrite Hv, (proj2 (Z.ltb_ge _ _)) by lia. Qed.

Lemma isspace_ascii c : 0 <= c < 128 -> isspace c = Some (spaceb c).
Proof. intros. apply isspace_spec. lia. Qed.

Lemma utoa_reads_back fuel m str base v :
  2 <= base <= 36 -> (40 <= fuel)%nat -> 0 <= v < 2 ^ 32 ->
  exists m' k, utoa fuel m v str base = Some (m', str) /\ 0 < k <= 32 /\ m' (str + k) = 0 /\
    strtoul_l fuel m' str true base = Some (mkConv v None (Some (str + k))) /\
    forall x, x < str \/ str + k < x -> m' x = m x.
Proof.
  intros Hb Hf Hv.
  destruct (utoa_spec base Hb fuel m str v Hv ltac:(lia)) as (ds & m' & E & Hne & Hl & Hds & Hn & Hw).
  destruct (printed_ok base None ds Hb Hne Hds) as [Hok Eb]. exists m', (blen ds).
  assert (0 < blen ds) by (destruct ds; unfold blen; [done|cbn [length]; lia]).
  split; [done|]. split; [unfold blen in *; lia|]. split; [|split].
  + rewrite Hw. unfold blen in *. rewrite length_app. cbn [length].
    rewrite (proj2 (Z.leb_le _ _)), (proj2 (Z.ltb_lt _ _)) by lia. cbn [andb].
    rewrite list_lookup_total_alt, lookup_app_r by lia.
    by replace (_ - _)%nat with 0%nat by lia.
  + unfold strtoul_l. rewrite (unsigned_body_spec _ _ base _ 0 Hok (written_reads _ _ _ _ Hw)
      isspace_ascii ltac:(done)) by (cbn; lia).
    rewrite Eb. unfold unsigned_result. rewrite (printed_value _ _ _ _ v Hn) by (unfold ULONG_MAX; lia).
    unfold result, reported. cbn [fst snd andb n_digits n_neg n_sign text app].
    rewrite bool_decide_eq_false_2 by done. unfold blen. do 3 f_equal. cbn. lia.
  + intros x Hx. rewrite Hw. unfold blen in *. rewrite length_app. cbn [length].
    destruct (Z.leb_spec str x), (Z.ltb_spec x (str + Z.of_nat (length ds + 1))); cbn; try done; lia.
Qed.

(** The call of utoa in itoa: where it writes, what it prints, on which memory. *)
Lemma itoa_calls_utoa fuel m str v : - 2 ^ 31 <= v < 2 ^ 31 ->
  let neg := v <? 0 in
  exists m1 a u, a = str + (if neg then 1 else 0) /\ 0 <= u < 2 ^ 32 /\
    v = (if neg then - u else u) /\ u <= (if neg then 2 ^ 63 else LONG_MAX) /\
    m1 = (if neg then upd m str 45 else m) /\
    itoa fuel m v str 10 = '(m2, _) ← utoa fuel m1 u a 10; Some (m2, str).
Proof.
  intros Hv neg. unfold itoa. change ((10 <? 2) || (36 <? 10)) with false.
  rewrite Z.eqb_refl. cbn [andb]. fold neg.
  exists (if neg then upd m str 45 else m), (str + (if neg then 1 else 0)), (if neg then - v else v).
  unfold neg, LONG_MAX. destruct (Z.ltb_spec v 0); unfold uwrap; (split_and!; try done; try lia).
  - by rewrite Z.mod_small by lia.
  - by rewrite Z.mod_small, Z.add_0_r by lia.
Qed.

Lemma itoa_reads_back fuel m str v :
  (40 <= fuel)%nat -> - 2 ^ 31 <= v < 2 ^ 31 ->
  exists m', itoa fuel m v str 10 = Some (m', str) /\ atoi fuel m' str = Some v /\
    forall x, x < str \/ str + 33 < x -> m' x = m x.
Proof.
  intros Hf Hv. set (neg := v <? 0).
  destruct (itoa_calls_utoa fuel m str v Hv) as (m1 & a & u & Ha & Hu & Hvu & Hlim & Hm1 & ->).
  fold neg in Ha, Hvu, Hlim, Hm1.
  destruct (utoa_spec 10 ltac:(lia) fuel m1 a u Hu ltac:(lia)) as (ds & m' & -> & Hne & Hl & Hds & Hn & Hw).
  cbn [mbind option_bind]. exists m'. split; [done|].
  set (sgn := if neg then Some true else None).
  destruct (printed_ok 10 sgn ds ltac:(lia) Hne Hds) as [Hok Eb].
  assert (Hr : reads (rd_uchar m' str) 0 (text (mkNumeral [] sgn None ds) ++ [0])).
  { unfold text, sign_text, sgn. cbn [n_spaces n_sign n_hex hex_text n_digits app].
    pose proof (written_reads _ _ _ _ Hw) as Hr. destruct neg; cbn [app].
    - apply reads_cons. split.
      + unfold rd_uchar. rewrite Hw, Ha, Hm1, (proj2 (Z.leb_gt _ _)) by lia. cbn [andb].
        unfold upd. by rewrite Z.add_0_r, Z.eqb_refl.
      + intros j c Hj. rewrite <- (Hr j c Hj). unfold rd_uchar. f_equal. lia.
    - intros j c Hj. rewrite <- (Hr j c Hj). unfold rd_uchar. f_equal. lia. }
  split.
  + unfold atoi, strtol_l. cbn [bad_base Z.ltb Z.compare Z.eqb orb].
    change (bad_base 10) with false. cbn iota.
    rewrite (signed_body_spec _ _ 10 _ 0 Hok Hr isspace_ascii ltac:(done)) by
      (unfold text, sign_text, sgn; destruct neg; cbn; lia).
    cbn [mbind option_bind result cval]. rewrite Eb. unfold signed_result.
    replace (n_neg (mkNumeral [] sgn None ds)) with neg by (unfold sgn; by destruct neg).
    rewrite (printed_value _ _ _ _ u Hn Hlim). cbn [fst cval]. rewrite <- Hvu. f_equal.
    unfold swrap. change (2 ^ (32 - 1)) with (2 ^ 31). rewrite Z.mod_small; lia.
  + intros x Hx. rewrite Hw. unfold blen in *. rewrite length_app, Hm1, Ha. cbn [length]. unfold upd.
    destruct neg; byte_cases; cbn [andb]; try done; try lia;
      (destruct (Z.eqb_spec x str); [lia|done]).
Qed.

(** C35: what utoa and itoa print is read back as the number that was printed: strtoul
    reads the digits of utoa in any base from 2 to 36 and stops at the terminator,
    and atoi reads what itoa writes in decimal, the most negative int included.
    At most 33 bytes (34 with a sign) are written, and nothing outside them. *)
Theorem print_roundtrip fuel m str base v :
  2 <= base <= 36 -> (40 <= fuel)%nat ->
  (0 <= v < 2 ^ 32 ->
   exists m' k, utoa fuel m v str base = Some (m', str) /\ 0 < k <= 32 /\ m' (str + k) = 0 /\
     strtoul_l fuel m' str true base = Some (mkConv v None (Some (str + k))) /\
     forall x, x < str \/ str + k < x -> m' x = m x) /\
  (- 2 ^ 31 <= v < 2 ^ 31 ->
   (exists m', itoa fuel m v str 10 = Some (m', str) /\ atoi fuel m' str = Some v /\
      forall x, x < str \/ str + 33 < x -> m' x = m x) /\
   (base <> 10 -> itoa fuel m v str base = utoa fuel m (u32 v) str base)).
Proof.
  intros Hb Hf. split; [by apply utoa_reads_back|]. intros Hv. split; [by apply itoa_reads_back|].
  intros Hne. unfold itoa. rewrite !(proj2 (Z.ltb_ge _ _)) by lia. cbn [orb].
  rewrite (proj2 (Z.eqb_neq _ _)) by done. cbn [andb].
  destruct (utoa_spec base Hb fuel m str (u32 v)) as (ds & m' & -> & _); [|lia|done].
  pose proof (uwrap_range 32 v). unfold in_u in *. lia.
Qed.

Lemma print_roundtrip_witness :
  exists m', itoa 40 (bytes_at 1000 []) (-2147483648) 2000 10 = Some (m', 2000) /\
    atoi 40 m' 2000 = Some (-2147483648).
Proof.
  destruct (print_roundtrip 40 (bytes_at 1000 []) 2000 10 (-2147483648)) as [_ [H _]]; [lia|lia|lia|].
  destruct H as (m' & H1 & H2 & _). exists m'. split; assumption.
Defined.
