(* ===== verification/CSort.v ===== *)
(** Sorting and searching in the C library: qsort (libc/newlib/libc/search/qsort.c,
    the sort of Bentley and McIlroy with an explicit stack) and bsearch.

    The array is a function from indices to elements of [es] bytes.  The code counts in
    bytes, in multiples of [es]; the model counts in elements, so that a pointer
    [a + i * es] is the index [a + i], except where the code narrows a number of bytes:
    swapfunc takes it as an int.  The exchanges are also modelled on memory, and
    [swap_refines] and [vecswap_refines] relate the two.  The comparison function is a
    parameter; what it has to satisfy is the class [Comparator]. *)

From S2P Require Import Prelude CMem.

(** The contract between qsort and the comparison it is given. *)
Class Comparator {E : Type} (cmp : E -> E -> Z) : Prop := {
  cmp_flip x y : cmp x y < 0 <-> 0 < cmp y x;
  cmp_trans x y z : cmp x y <= 0 -> cmp y z <= 0 -> cmp x z <= 0
}.

Section Qsort.
Context {E : Type} (cmp : E -> E -> Z).
(** The size of an element in bytes. *)
Context (es : Z).

Definition arr : Type := Z -> E.

Definition swap (m : arr) (i j : Z) : arr := fun x =>
  if x =? j then m i else if x =? i then m j else m x.

(** vecswap: n elements from [i] and [j], one after the other.  The number of bytes is a
    size_t, the parameter of swapfunc it is passed to an int.  Where what is left of it
    is not a number of whole elements, the code tears elements apart and the model has
    no result. *)
Definition vecswap (fuel : nat) (m : arr) (i j n : Z) : option arr :=
  let bytes := u64 (n * es) in
  if 0 <? bytes then
    let bytes := s32 bytes in
    if (0 <? bytes) && (bytes mod es =? 0) then
      loop fuel (fun '(m, i, j, n) =>
        let m := swap m i j in
        if 0 <? n - 1 then inl (m, i + 1, j + 1, n - 1) else inr m) (m, i, j, bytes / es)
    else None
  else Some m.

Definition med3 (m : arr) (a b c : Z) : Z :=
  if cmp (m a) (m b) <? 0 then
    (if cmp (m b) (m c) <? 0 then b else if cmp (m a) (m c) <? 0 then c else a)
  else
    (if 0 <? cmp (m b) (m c) then b else if cmp (m a) (m c) <? 0 then a else c).

(** for (pl = pm; pl > a && CMP (pl - es, pl) > 0; pl -= es) swap (pl, pl - es); *)
Definition sink (fuel : nat) (a : Z) : arr * Z -> option arr :=
  loop fuel (fun '(m, pl) =>
    if (a <? pl) && (0 <? cmp (m (pl - 1)) (m pl))
    then inl (swap m pl (pl - 1), pl - 1) else inr m).

(** for (pm = a + es; pm < a + n * es; pm += es) ... *)
Definition insertion_sort (fuel : nat) (m : arr) (a n : Z) : option arr :=
  r ← loop fuel (fun '(m, pm) =>
        if pm <? a + n then
          match sink fuel a (m, pm) with
          | Some m => inl (m, pm + 1)
          | None => inr None
          end
        else inr (Some m)) (m, a + 1);
  r.

Definition pivot (m : arr) (a n : Z) : Z :=
  let pm := a + n / 2 in
  if 7 <? n then
    let pl := a in
    let pn := a + (n - 1) in
    let '(pl, pm, pn) :=
      if 40 <? n then
        let d := n / 8 in
        (med3 m pl (pl + d) (pl + 2 * d), med3 m (pm - d) pm (pm + d),
         med3 m (pn - 2 * d) (pn - d) pn)
      else (pl, pm, pn) in
    med3 m pl pm pn
  else pm.

(** The two scans; swap_cnt is a flag. *)
Definition scan_left (fuel : nat) (a pc : Z) : arr * bool * Z * Z -> option (arr * bool * Z * Z) :=
  loop fuel (fun '(m, cnt, pa, pb) =>
    if (pb <=? pc) && (cmp (m pb) (m a) <=? 0) then
      if cmp (m pb) (m a) =? 0 then inl (swap m pa pb, true, pa + 1, pb + 1)
      else inl (m, cnt, pa, pb + 1)
    else inr (m, cnt, pa, pb)).
Definition scan_right (fuel : nat) (a pb : Z) : arr * bool * Z * Z -> option (arr * bool * Z * Z) :=
  loop fuel (fun '(m, cnt, pc, pd) =>
    if (pb <=? pc) && (0 <=? cmp (m pc) (m a)) then
      if cmp (m pc) (m a) =? 0 then inl (swap m pc pd, true, pc - 1, pd - 1)
      else inl (m, cnt, pc - 1, pd)
    else inr (m, cnt, pc, pd)).

Definition partition (fuel : nat) (a : Z)
  : arr * bool * Z * Z * Z * Z -> option (option (arr * bool * Z * Z * Z * Z)) :=
  loop fuel (fun '(m, cnt, pa, pb, pc, pd) =>
    match scan_left fuel a pc (m, cnt, pa, pb) with
    | None => inr None
    | Some (m, cnt, pa, pb) =>
        match scan_right fuel a pb (m, cnt, pc, pd) with
        | None => inr None
        | Some (m, cnt, pc, pd) =>
            if pc <? pb then inr (Some (m, cnt, pa, pb, pc, pd))
            else inl (swap m pb pc, true, pa, pb + 1, pc - 1, pd)
        end
    end).

Definition PARAMETER_STACK_LEVELS : nat := 8.

Definition min (a b : Z) : Z := if a <? b then a else b.

(** One turn from the label loop to the next goto: the array, the part (a, n), and
    parameter_stack with its last entry first.  [rec] is the recursive call. *)
Definition qstate : Type := arr * Z * Z * list (Z * Z).

Definition pop (m : arr) (stack : list (Z * Z)) : qstate + option arr :=
  match stack with
  | [] => inr (Some m)
  | (a, n) :: stack => inl (m, a, n, stack)
  end.

(** After the partition: move the elements equal to the pivot to the middle; gives
    the array, d, r and pn. *)
Definition rearrange (fuel : nat) (m : arr) (a n pa pb pc pd : Z) : option (arr * Z * Z * Z) :=
  let pn := a + n in
  let r := min (pa - a) (pb - pa) in
  m ← vecswap fuel m a (pb - r) r;
  let r := min (pd - pc) (pn - pd - 1) in
  m ← vecswap fuel m pb (pn - r) r;
  let d := pb - pa in
  let r := pd - pc in
  Some (m, d, r, pn - r).

Definition qstep (fuel : nat) (rec : arr -> Z -> Z -> option arr) (st : qstate)
  : qstate + option arr :=
  let '(m, a, n, stack) := st in
  let by_insertion m :=
    match insertion_sort fuel m a n with Some m => pop m stack | None => inr None end in
  if n <? 7 then by_insertion m
  else
    let m := swap m a (pivot m a n) in
    match partition fuel a (m, false, a + 1, a + 1, a + (n - 1), a + (n - 1)) with
    | Some (Some (m, cnt, pa, pb, pc, pd)) =>
        if negb cnt then by_insertion m
        else
          match rearrange fuel m a n pa pb pc pd with
          | None => inr None
          | Some (m, d, r, pn) =>
              let '(pa, a, n, r) := if d <? r then (a, pn, r, d) else (pn, a, d, r) in
              let larger m :=
                if 1 <? n then inl (m, a, n, stack) else pop m stack in
              if 1 <? r then
                if bool_decide (length stack < PARAMETER_STACK_LEVELS)%nat
                then inl (m, pa, r, (a, n) :: stack)
                else match rec m pa r with Some m => larger m | None => inr None end
              else larger m
          end
    | _ => inr None
    end.

(** [depth] bounds the nesting of function calls. *)
Fixpoint qsort (depth fuel : nat) (m : arr) (a n : Z) : option arr :=
  match depth with
  | O => None
  | S depth => r ← loop fuel (qstep fuel (qsort depth fuel)) (m, a, n, []); r
  end.

(** bsearch (key, base, nmemb, size, compar): [compar] is the comparison with the
    key; the result is the index of the element or None for NULL. *)
Definition bsearch (fuel : nat) (m : arr) (compar : E -> Z) (nmemb size : Z) : option (option Z) :=
  if (nmemb =? 0) || (size =? 0) then Some None
  else loop fuel (fun '(lower, upper) =>
    if lower <? upper then
      let index := u64 (lower + upper) / 2 in
      let result := compar (m index) in
      if result <? 0 then inl (lower, index)
      else if 0 <? result then inl (index + 1, upper)
      else inr (Some index)
    else inr None) (0, nmemb).
End Qsort.
#[global] Arguments arr : clear implicits.
#[global] Arguments qstate : clear implicits.

(** ** Exchanging elements in memory *)

(** SWAPINIT *)
Definition SWAPINIT (a es : Z) : Z :=
  if negb (a mod 8 =? 0) || negb (es mod 8 =? 0) then 2 else if es =? 8 then 0 else 1.

(** swapcode (TYPE, parmi, parmj, n), TYPE of [w] bytes *)
Definition swapcode (w : nat) (fuel : nat) (m : mem) (parmi parmj n : Z) : option mem :=
  loop fuel (fun '(m, pi, pj, i) =>
    let t := load w m pi in
    let m := store w m pi (load w m pj) in
    let m := store w m pj t in
    if 0 <? i - 1 then inl (m, pi + Z.of_nat w, pj + Z.of_nat w, i - 1) else inr m)
    (m, parmi, parmj, n / Z.of_nat w).

(** The parameter n is an int. *)
Definition swapfunc (fuel : nat) (m : mem) (a b n swaptype : Z) : option mem :=
  let n := s32 n in
  if swaptype <=? 1 then swapcode 8 fuel m a b n else swapcode 1 fuel m a b n.

(** vecswap (a, b, n) *)
Definition vecswap_bytes (fuel : nat) (m : mem) (a b n swaptype : Z) : option mem :=
  if 0 <? n then swapfunc fuel m a b n swaptype else Some m.

(** swap (a, b) *)
Definition swap_bytes (fuel : nat) (m : mem) (a b es swaptype : Z) : option mem :=
  if swaptype =? 0 then
    let t := load64 m a in
    let m := store64 m a (load64 m b) in
    Some (store64 m b t)
  else swapfunc fuel m a b es swaptype.

(** ** Shuffles

    The sort changes the array by exchanging elements only. *)

Section Sorted.
Context {E : Type} (cmp : E -> E -> Z).
Notation arr := (arr E).
Implicit Types m : arr.

Definition swaps (lo hi : Z) (m m' : arr) : Prop :=
  exists i j, lo <= i < hi /\ lo <= j < hi /\ m' = swap m i j.
Definition shuffled (lo hi : Z) : arr -> arr -> Prop := rtc (swaps lo hi).

Lemma shuffled_swap lo hi m i j : lo <= i < hi -> lo <= j < hi -> shuffled lo hi m (swap m i j).
Proof. intros Hi Hj. apply rtc_once. by exists i, j. Qed.

Lemma shuffled_widen lo hi lo' hi' m m' :
  shuffled lo hi m m' -> lo' <= lo -> hi <= hi' -> shuffled lo' hi' m m'.
Proof.
  intros H H1 H2. induction H as [|m1 m2 m3 (i & j & Hi & Hj & ->) _ IH]; [done|].
  eapply rtc_l; [|exact IH]. exists i, j. split_and!; (done || lia).
Qed.

Lemma shuffled_trans lo hi m1 m2 m3 :
  shuffled lo hi m1 m2 -> shuffled lo hi m2 m3 -> shuffled lo hi m1 m3.
Proof. unfold shuffled. intros. by transitivity m2. Qed.

Lemma swap_l m i j : swap m i j i = m j.
Proof. unfold swap. destruct (Z.eqb_spec i j) as [->|]; [done|]. by rewrite Z.eqb_refl. Qed.
Lemma swap_r m i j : swap m i j j = m i.
Proof. unfold swap. by rewrite Z.eqb_refl. Qed.
Lemma swap_ne m i j x : x <> i -> x <> j -> swap m i j x = m x.
Proof. intros Hi Hj. unfold swap. by rewrite (proj2 (Z.eqb_neq _ _) Hj), (proj2 (Z.eqb_neq _ _) Hi). Qed.

Lemma shuffled_outside lo hi m m' x : shuffled lo hi m m' -> ~ (lo <= x < hi) -> m' x = m x.
Proof.
  intros H Hx. induction H as [|m1 m2 m3 (i & j & Hi & Hj & ->) _ IH]; [done|].
  rewrite IH. apply swap_ne; lia.
Qed.

(** What holds of all elements of a range still does. *)
Lemma shuffled_forall (P : E -> Prop) lo hi m m' : shuffled lo hi m m' ->
  (forall x, lo <= x < hi -> P (m x)) -> forall x, lo <= x < hi -> P (m' x).
Proof.
  intros H. induction H as [|m1 m2 m3 (i & j & Hi & Hj & ->) _ IH]; [done|].
  intros HP. apply IH. intros x Hx. unfold swap. repeat case_match; by apply HP.
Qed.

Definition seg (m : arr) (a n : Z) : list E := m <$> seqZ a n.

Lemma swap_ext_r m m' i j : (forall x, m x = m' x) -> forall x, swap m i j x = swap m' i j x.
Proof. intros H x. unfold swap. by rewrite !H. Qed.

Lemma swap_perm m lo n i j : lo <= i < lo + n -> lo <= j < lo + n ->
  seg (swap m i j) lo n ≡ₚ seg m lo n.
Proof.
  assert (Hlt : forall i j, lo <= i -> i < j -> j < lo + n -> seg (swap m i j) lo n ≡ₚ seg m lo n).
  { clear i j. intros i j Hi Hij Hj. unfold seg.
    replace n with ((i - lo) + (1 + ((j - i - 1) + (1 + (lo + n - j - 1))))) by lia.
    rewrite !seqZ_app, !fmap_app by lia.
    assert (Hsame : forall a k, 0 <= k -> (forall x, a <= x < a + k -> x <> i /\ x <> j) ->
      swap m i j <$> seqZ a k = m <$> seqZ a k).
    { intros a k Hk Hx. apply list_fmap_ext. intros ? x Hl.
      apply lookup_seqZ in Hl as [-> ?]. apply swap_ne; apply Hx; lia. }
    replace (lo + (i - lo)) with i by lia. replace (i + 1 + (j - i - 1)) with j by lia.
    assert (H1 : forall a, seqZ a 1 = [a]) by (intros a; by rewrite seqZ_cons by lia).
    rewrite !H1, !(Hsame lo), !(Hsame (i + 1)), !(Hsame (j + 1)) by lia. cbn [fmap list_fmap app].
    rewrite swap_l, swap_r. apply Permutation_app_head.
    etransitivity; [apply perm_skip, Permutation_sym, Permutation_middle|].
    etransitivity; [apply perm_swap|]. apply perm_skip, Permutation_middle. }
  intros Hi Hj. destruct (Z.lt_trichotomy i j) as [H|[->|H]].
  - apply Hlt; lia.
  - unfold seg. erewrite list_fmap_ext; [done|]. intros ? x _. unfold swap. by repeat case_match; zbool; subst.
  - rewrite <- (Hlt j i) by lia. unfold seg. erewrite list_fmap_ext; [done|]. intros ? x _. unfold swap.
    repeat case_match; zbool; by subst.
Qed.

Lemma shuffled_perm lo n m m' : shuffled lo (lo + n) m m' -> seg m' lo n ≡ₚ seg m lo n.
Proof.
  intros H. induction H as [|m1 m2 m3 (i & j & Hi & Hj & ->) _ IH]; [done|].
  rewrite IH. by apply swap_perm.
Qed.

(** ** Order *)

Context `{!Comparator cmp}.
Notation le x y := (cmp x y <= 0).

Lemma cmp_refl x : cmp x x = 0.
Proof. pose proof (cmp_flip x x). lia. Qed.
Lemma cmp_eq_sym x y : cmp x y = 0 <-> cmp y x = 0.
Proof. pose proof (cmp_flip x y). pose proof (cmp_flip y x). lia. Qed.
Lemma le_flip x y : 0 <= cmp x y <-> le y x.
Proof. pose proof (cmp_flip x y). lia. Qed.

Definition sorted (m : arr) (lo hi : Z) : Prop := forall i j, lo <= i <= j -> j < hi -> le (m i) (m j).

(** [m] is sorted on [lo, hi) once each of the parts [segs] is. *)
Definition within (s : Z * Z) (x : Z) : Prop := s.1 <= x < s.1 + s.2.
Definition ready (m : arr) (lo hi : Z) (segs : list (Z * Z)) : Prop :=
  forall i j, lo <= i <= j -> j < hi ->
  le (m i) (m j) \/ exists s, s ∈ segs /\ within s i /\ within s j.
Definition apart (s t : Z * Z) : Prop := forall x, within s x -> ~ within t x.
Definition parts (lo hi : Z) (segs : list (Z * Z)) : Prop :=
  Forall (fun s => lo <= s.1 /\ s.1 + s.2 <= hi) segs /\ ForallOrdPairs apart segs.

Lemma ready_nil m lo hi : ready m lo hi [] -> sorted m lo hi.
Proof. intros H i j Hi Hj. destruct (H i j Hi Hj) as [?|(s & Hs & _)]; [done|]. by apply elem_of_nil in Hs. Qed.

Lemma sorted_ready m lo hi : sorted m lo hi -> ready m lo hi [].
Proof. intros H i j Hi Hj. left. by apply H. Qed.

(** Working inside one part leaves the rest as it is. *)
Lemma refine_part m m' lo hi a n segs subs :
  ready m lo hi ((a, n) :: segs) -> Forall (apart (a, n)) segs ->
  lo <= a -> a + n <= hi -> shuffled a (a + n) m m' -> ready m' a (a + n) subs ->
  ready m' lo hi (subs ++ segs).
Proof.
  intros Hr Hap Hlo Hhi Hsh Hsub i j Hij Hj. rewrite Forall_forall in Hap.
  assert (Hout : forall x, ~ within (a, n) x -> m' x = m x) by (intros x Hx; by eapply shuffled_outside).
  assert (Hother : forall s x y, s ∈ (a, n) :: segs -> within s x -> within s y ->
    within (a, n) x -> ~ within (a, n) y -> False).
  { intros s x y [-> | Hs]%elem_of_cons Hx Hy Hax Hay; [done|]. by apply (Hap s Hs x). }
  destruct (decide (a <= i < a + n)) as [Hi|Hi], (decide (a <= j < a + n)) as [Hj'|Hj'].
  - destruct (Hsub i j ltac:(lia) ltac:(lia)) as [?|(s & Hs & ?)]; [by left|].
    right. exists s. rewrite elem_of_app. tauto.
  - left. rewrite (Hout j) by done. apply (shuffled_forall (fun e => le e (m j)) a (a + n) m m'); [done| |done].
    intros x Hx. destruct (Hr x j ltac:(lia) Hj) as [?|(s & Hs & H1 & H2)]; [done|].
    exfalso. by apply (Hother s x j).
  - left. rewrite (Hout i) by done. apply (shuffled_forall (fun e => le (m i) e) a (a + n) m m'); [done| |done].
    intros x Hx. destruct (Hr i x ltac:(lia) ltac:(lia)) as [?|(s & Hs & H1 & H2)]; [done|].
    exfalso. by apply (Hother s x i).
  - rewrite !Hout by done. destruct (Hr i j Hij Hj) as [?|(s & [-> | Hs]%elem_of_cons & H1 & H2)];
      [by left| |]; [by apply Hi in H1|].
    right. exists s. rewrite elem_of_app. tauto.
Qed.

(** A part of at most one element is sorted. *)
Lemma ready_drop m lo hi a n segs1 segs2 : n <= 1 ->
  ready m lo hi (segs1 ++ (a, n) :: segs2) -> ready m lo hi (segs1 ++ segs2).
Proof.
  intros Hn H i j Hi Hj. destruct (H i j Hi Hj) as [?|(s & Hs & H1 & H2)]; [by left|].
  apply elem_of_app in Hs as [Hs|[-> |Hs]%elem_of_cons].
  - right. exists s. rewrite elem_of_app. tauto.
  - left. unfold within in *. cbn in *. assert (i = j) as -> by lia. by rewrite cmp_refl.
  - right. exists s. rewrite elem_of_app. tauto.
Qed.
End Sorted.

(** ** Insertion sort *)

Section Loops.
Context {E : Type} (cmp : E -> E -> Z) `{!Comparator cmp}.
Notation arr := (arr E).
Implicit Types m : arr.
Notation le x y := (cmp x y <= 0).
Context (es : Z) (Hes : 0 < es).

(** The element at [pl] sinks; everything else up to [pm] is in order. *)
Definition sinking m0 (a pm : Z) (st : arr * Z) : Prop :=
  let '(m, pl) := st in
  a <= pl <= pm /\ shuffled a (pm + 1) m0 m /\
  forall i j, a <= i < j -> j <= pm -> j <> pl -> le (m i) (m j).

Lemma sink_spec fuel m0 a pm : a <= pm -> pm - a < Z.of_nat fuel -> sorted cmp m0 a pm ->
  exists m, sink cmp fuel a (m0, pm) = Some m /\ shuffled a (pm + 1) m0 m /\ sorted cmp m a (pm + 1).
Proof.
  intros Ha Hf Hs. unfold sink.
  run_loop (sinking m0 a pm) (fun st : arr * Z => snd st - a)
    (fun m : arr => shuffled a (pm + 1) m0 m /\ sorted cmp m a (pm + 1)) r H;
    [|split; [lia|]; split; [constructor|]|cbn; lia|cbn; lia|by exists r].
  - intros [m pl] (Hpl & Hsh & Hord).
    destruct (Z.ltb_spec a pl) as [Hlt|Hge]; cbn [andb];
      [destruct (Z.ltb_spec 0 (cmp (m (pl - 1)) (m pl))) as [Hgt|Hle]|].
    + split; [|cbn; lia]. split; [lia|]. split.
      { eapply shuffled_trans; [exact Hsh|]. apply shuffled_swap; lia. }
      apply cmp_flip in Hgt. intros i j Hij Hj Hne.
      destruct (Z.eq_dec j pl) as [->|]; [rewrite swap_l|rewrite (swap_ne _ _ _ j) by lia].
      * destruct (Z.eq_dec i (pl - 1)) as [->|]; [rewrite swap_r; lia|].
        rewrite swap_ne by lia. apply Hord; lia.
      * destruct (Z.eq_dec i (pl - 1)) as [->|]; [rewrite swap_r; apply Hord; lia|].
        destruct (Z.eq_dec i pl) as [->|]; [rewrite swap_l; apply Hord; lia|].
        rewrite swap_ne by lia. apply Hord; lia.
    + split; [done|]. intros i j Hij Hj.
      destruct (Z.eq_dec i j) as [->|]; [by rewrite (cmp_refl cmp)|].
      destruct (Z.eq_dec j pl) as [->|]; [|apply Hord; lia].
      destruct (Z.eq_dec i (pl - 1)) as [->|]; [done|].
      eapply cmp_trans; [|exact Hle]. apply Hord; lia.
    + split; [done|]. intros i j Hij Hj.
      destruct (Z.eq_dec i j) as [->|]; [by rewrite (cmp_refl cmp)|]. apply Hord; lia.
  - intros i j Hij Hj Hne. apply Hs; lia.
Qed.

Lemma insertion_sort_spec fuel m0 a n : 0 <= n -> n + 1 < Z.of_nat fuel ->
  exists m, insertion_sort cmp fuel m0 a n = Some m /\ shuffled a (a + n) m0 m /\ sorted cmp m a (a + n).
Proof.
  intros Hn Hf. unfold insertion_sort.
  run_loop (fun st : arr * Z => a + 1 <= snd st <= Z.max (a + 1) (a + n) /\
      shuffled a (a + n) m0 (fst st) /\ sorted cmp (fst st) a (snd st))
    (fun st : arr * Z => a + n + 1 - snd st)
    (fun r : option arr => exists m, r = Some m /\ shuffled a (a + n) m0 m /\ sorted cmp m a (a + n)) r H;
    [| |cbn; lia|cbn; lia|].
  - intros [m pm] (Hpm & Hsh & Hs). cbn [fst snd] in *. destruct (Z.ltb_spec pm (a + n)).
    + destruct (sink_spec fuel m a pm) as (m' & -> & Hsh' & Hs'); [lia|lia|done|].
      split; [|cbn; lia]. split; [cbn; lia|]. split; [|done]. cbn.
      eapply shuffled_trans; [exact Hsh|]. eapply shuffled_widen; [exact Hsh'|lia|lia].
    + exists m. split; [done|]. split; [done|]. intros i j Hij Hj. apply Hs; lia.
  - cbn. split; [lia|]. split; [constructor|]. intros i j Hij Hj.
    assert (i = j) as -> by lia. by rewrite (cmp_refl cmp).
  - destruct H as (m & -> & H). by exists m.
Qed.

(** ** Partition *)

(** The four ranges around the pivot [p], which stays at [a]. *)
Record ranges (m0 : arr) (p : E) (a n pa pb pc pd : Z) (m : arr) : Prop := {
  rg_shuf : shuffled (a + 1) (a + n) m0 m;
  rg_piv : m a = p;
  rg_idx : a + 1 <= pa <= pb /\ pb <= pc + 1 /\ pc <= pd < a + n;
  rg_eq1 : forall x, a <= x < pa -> cmp (m x) p = 0;
  rg_lt : forall x, pa <= x < pb -> cmp (m x) p < 0;
  rg_gt : forall x, pc < x <= pd -> 0 < cmp (m x) p;
  rg_eq2 : forall x, pd < x < a + n -> cmp (m x) p = 0
}.

(** Decide where an index is with respect to the two that are exchanged. *)
Ltac at_swap x i j :=
  destruct (Z.eq_dec x i) as [->|]; [rewrite swap_l|
    destruct (Z.eq_dec x j) as [->|]; [rewrite swap_r|rewrite (swap_ne _ i j x) by done]].

Lemma scan_left_spec fuel m0 p a n pa pb pc pd m cnt :
  ranges m0 p a n pa pb pc pd m -> pc + 1 - pb < Z.of_nat fuel ->
  exists m' cnt' pa' pb', scan_left cmp fuel a pc (m, cnt, pa, pb) = Some (m', cnt', pa', pb') /\
    ranges m0 p a n pa' pb' pc pd m' /\ pb <= pb' /\ (pb' <= pc -> 0 < cmp (m' pb') p).
Proof.
  intros Hr Hf. unfold scan_left.
  run_loop (fun st : arr * bool * Z * Z =>
      ranges m0 p a n (snd (fst st)) (snd st) pc pd (fst (fst (fst st))) /\ pb <= snd st)
    (fun st : arr * bool * Z * Z => pc + 1 - snd st)
    (fun r : arr * bool * Z * Z =>
       ranges m0 p a n (snd (fst r)) (snd r) pc pd (fst (fst (fst r))) /\ pb <= snd r /\
       (snd r <= pc -> 0 < cmp (fst (fst (fst r)) (snd r)) p)) r H;
    [|cbn; split; [done|lia]|cbn; lia|cbn; destruct (rg_idx _ _ _ _ _ _ _ _ _ Hr); lia|].
  - intros [[[m1 c1] pa1] pb1] [Hr1 Hge]. cbn [fst snd] in *. rewrite (rg_piv _ _ _ _ _ _ _ _ _ Hr1).
    destruct Hr1 as [Hsh Hp Hi He1 Hl Hg He2].
    destruct (Z.leb_spec pb1 pc) as [Hb|Hb]; cbn [andb];
      [destruct (Z.leb_spec (cmp (m1 pb1) p) 0) as [Hc|Hc]|]; cbn [fst snd].
    + destruct (Z.eqb_spec (cmp (m1 pb1) p) 0) as [E0|E0]; cbn [fst snd]; (split; [|lia]); (split; [|lia]).
      * split; try lia.
        -- eapply shuffled_trans; [exact Hsh|]. apply shuffled_swap; lia.
        -- by rewrite swap_ne by lia.
        -- intros x Hx. at_swap x pa1 pb1; [done|by destruct (Z.eq_dec pa1 pb1); [subst; apply E0|lia]|].
           apply He1. lia.
        -- intros x Hx. at_swap x pa1 pb1; [lia|apply Hl; lia|apply Hl; lia].
        -- intros x Hx. rewrite swap_ne by lia. by apply Hg.
        -- intros x Hx. rewrite swap_ne by lia. by apply He2.
      * split; try done; try lia. intros x Hx. destruct (Z.eq_dec x pb1) as [->|]; [lia|]. apply Hl. lia.
    + split; [by split|]. split; [lia|]. done.
    + split; [by split|]. split; lia.
  - destruct r as [[[m' c'] pa'] pb']. cbn [fst snd] in H. by exists m', c', pa', pb'.
Qed.

Lemma scan_right_spec fuel m0 p a n pa pb pc pd m cnt :
  ranges m0 p a n pa pb pc pd m -> pc + 1 - pb < Z.of_nat fuel ->
  exists m' cnt' pc' pd', scan_right cmp fuel a pb (m, cnt, pc, pd) = Some (m', cnt', pc', pd') /\
    ranges m0 p a n pa pb pc' pd' m' /\ pc' <= pc /\
    (pb <= pc' -> cmp (m' pc') p < 0 /\ m' pb = m pb).
Proof.
  intros Hr Hf. unfold scan_right.
  run_loop (fun st : arr * bool * Z * Z =>
      ranges m0 p a n pa pb (snd (fst st)) (snd st) (fst (fst (fst st))) /\ snd (fst st) <= pc /\
      (pb <= snd (fst st) -> fst (fst (fst st)) pb = m pb))
    (fun st : arr * bool * Z * Z => snd (fst st) + 1 - pb)
    (fun r : arr * bool * Z * Z =>
       ranges m0 p a n pa pb (snd (fst r)) (snd r) (fst (fst (fst r))) /\ snd (fst r) <= pc /\
       (pb <= snd (fst r) -> cmp (fst (fst (fst r)) (snd (fst r))) p < 0 /\
                             fst (fst (fst r)) pb = m pb)) r H;
    [|cbn; split; [done|]; split; [lia|done]|cbn; lia|cbn; destruct (rg_idx _ _ _ _ _ _ _ _ _ Hr); lia|].
  - intros [[[m1 c1] pc1] pd1] (Hr1 & Hge & Hpb). cbn [fst snd] in *.
    rewrite (rg_piv _ _ _ _ _ _ _ _ _ Hr1). destruct Hr1 as [Hsh Hp Hi He1 Hl Hg He2].
    destruct (Z.leb_spec pb pc1) as [Hb|Hb]; cbn [andb];
      [destruct (Z.leb_spec 0 (cmp (m1 pc1) p)) as [Hc|Hc]|]; cbn [fst snd].
    + destruct (Z.eqb_spec (cmp (m1 pc1) p) 0) as [E0|E0]; cbn [fst snd]; (split; [|lia]).
      * split; [|split; [lia|intros Hb'; rewrite swap_ne by lia; apply Hpb; lia]].
        split; try lia.
        -- eapply shuffled_trans; [exact Hsh|]. apply shuffled_swap; lia.
        -- by rewrite swap_ne by lia.
        -- intros x Hx. rewrite swap_ne by lia. by apply He1.
        -- intros x Hx. rewrite swap_ne by lia. by apply Hl.
        -- intros x Hx. at_swap x pc1 pd1; [apply Hg; lia|lia|apply Hg; lia].
        -- intros x Hx. at_swap x pc1 pd1; [|done|apply He2; lia].
           by destruct (Z.eq_dec pc1 pd1); [subst; apply E0|lia].
      * split; [|split; [lia|intros Hb'; apply Hpb; lia]].
        split; try done; try lia. intros x Hx. destruct (Z.eq_dec x pc1) as [->|]; [lia|]. apply Hg. lia.
    + split; [by split|]. split; [lia|]. intros _. split; [done|by apply Hpb].
    + split; [by split|]. split; lia.
  - destruct r as [[[m' c'] pc'] pd']. cbn [fst snd] in H. by exists m', c', pc', pd'.
Qed.

Lemma partition_spec fuel m0 p a n : m0 a = p -> 7 <= n -> n + 1 < Z.of_nat fuel ->
  exists m cnt pa pb pc pd,
    partition cmp fuel a (m0, false, a + 1, a + 1, a + (n - 1), a + (n - 1)) =
      Some (Some (m, cnt, pa, pb, pc, pd)) /\
    ranges m0 p a n pa pb pc pd m /\ pb = pc + 1.
Proof.
  intros Hp Hn Hf. unfold partition.
  run_loop (fun st : arr * bool * Z * Z * Z * Z =>
      let '(m, _, pa, pb, pc, pd) := st in ranges m0 p a n pa pb pc pd m)
    (fun st : arr * bool * Z * Z * Z * Z => let '(_, _, _, pb, pc, _) := st in pc + 1 - pb)
    (fun r : option (arr * bool * Z * Z * Z * Z) => exists m cnt pa pb pc pd,
       r = Some (m, cnt, pa, pb, pc, pd) /\ ranges m0 p a n pa pb pc pd m /\ pb = pc + 1) r H;
    [| |lia|lia|].
  - intros [[[[[m1 c1] pa1] pb1] pc1] pd1] Hr.
    pose proof (rg_idx _ _ _ _ _ _ _ _ _ Hr) as Hi.
    destruct (scan_left_spec fuel m0 p a n pa1 pb1 pc1 pd1 m1 c1 Hr ltac:(lia))
      as (m2 & c2 & pa2 & pb2 & -> & Hr2 & Hb2 & Hgt).
    pose proof (rg_idx _ _ _ _ _ _ _ _ _ Hr2) as Hi2.
    destruct (scan_right_spec fuel m0 p a n pa2 pb2 pc1 pd1 m2 c2 Hr2 ltac:(lia))
      as (m3 & c3 & pc3 & pd3 & -> & Hr3 & Hc3 & Hlt).
    pose proof (rg_idx _ _ _ _ _ _ _ _ _ Hr3) as Hi3.
    destruct (Z.ltb_spec pc3 pb2).
    + exists m3, c3, pa2, pb2, pc3, pd3. split; [done|]. split; [done|lia].
    + destruct Hlt as [Hlt Hpb]; [lia|]. specialize (Hgt ltac:(lia)). rewrite <- Hpb in Hgt.
      assert (pb2 <> pc3) by (intros ->; lia).
      split; [|lia]. destruct Hr3 as [Hsh Hpv _ He1 Hl Hg He2]. split; try lia.
      * eapply shuffled_trans; [exact Hsh|]. apply shuffled_swap; lia.
      * by rewrite swap_ne by lia.
      * intros x Hx. rewrite swap_ne by lia. by apply He1.
      * intros x Hx. at_swap x pb2 pc3; [done|lia|apply Hl; lia].
      * intros x Hx. at_swap x pb2 pc3; [lia|done|apply Hg; lia].
      * intros x Hx. rewrite swap_ne by lia. by apply He2.
  - split; try lia; [constructor|done| |lia..].
    intros x Hx. assert (x = a) as -> by lia. rewrite Hp. apply (cmp_refl cmp).
  - destruct H as (m & c & pa & pb & pc & pd & -> & Hr & Hb). by exists m, c, pa, pb, pc, pd.
Qed.
(** Two ranges change places. *)
Lemma vecswap_spec fuel m i j n lo hi :
  n * es < 2 ^ 31 -> n < Z.of_nat fuel -> i + n <= j \/ n <= 0 -> 0 <= n -> lo <= i -> j + n <= hi -> i <= j ->
  exists m', vecswap es fuel m i j n = Some m' /\ shuffled lo hi m m' /\
    forall x, m' x = if (i <=? x) && (x <? i + n) then m (x + (j - i))
                     else if (j <=? x) && (x <? j + n) then m (x - (j - i)) else m x.
Proof.
  intros Hint Hf Hd Hn Hlo Hhi Hij. unfold vecswap.
  rewrite uwrap_small by (unfold in_u; nia). cbv zeta. rewrite swrap_small by (try unfold in_s; nia).
  rewrite Z.mod_mul, Z.div_mul by lia. replace (0 <? n * es) with (0 <? n)
    by (destruct (Z.ltb_spec 0 n), (Z.ltb_spec 0 (n * es)); (done || nia)).
  destruct (Z.ltb_spec 0 n); cbn [andb].
  2: { exists m. split; [done|]. split; [constructor|]. intros x. byte_cases; try lia; done. }
  run_loop (fun st : arr * Z * Z * Z => let '(m1, i1, j1, n1) := st in
      1 <= n1 <= n /\ i1 = i + (n - n1) /\ j1 = j + (n - n1) /\ shuffled lo hi m m1 /\
      forall x, m1 x = if (i <=? x) && (x <? i1) then m (x + (j - i))
                       else if (j <=? x) && (x <? j1) then m (x - (j - i)) else m x)
    (fun st : arr * Z * Z * Z => snd st)
    (fun m1 : arr => shuffled lo hi m m1 /\
      forall x, m1 x = if (i <=? x) && (x <? i + n) then m (x + (j - i))
                       else if (j <=? x) && (x <? j + n) then m (x - (j - i)) else m x) r H';
    [| |cbn; lia|cbn; lia|by exists r].
  - intros [[[m1 i1] j1] n1] (Hn1 & -> & -> & Hsh & Hm).
    assert (Hsh' : shuffled lo hi m (swap m1 (i + (n - n1)) (j + (n - n1)))).
    { eapply shuffled_trans; [exact Hsh|]. apply shuffled_swap; lia. }
    assert (Hx : forall x, swap m1 (i + (n - n1)) (j + (n - n1)) x =
      if (i <=? x) && (x <? i + (n - n1) + 1) then m (x + (j - i))
      else if (j <=? x) && (x <? j + (n - n1) + 1) then m (x - (j - i)) else m x).
    { intros x. at_swap x (i + (n - n1)) (j + (n - n1)); rewrite Hm;
        byte_cases; cbn [andb]; try lia; try done; f_equal; lia. }
    destruct (Z.ltb_spec 0 (n1 - 1)).
    + split; [|cbn; lia]. split; [lia|]. split; [lia|]. split; [lia|]. split; [done|].
      intros x. rewrite Hx. by replace (i + (n - n1) + 1) with (i + 1 + (n - n1)) by lia;
        replace (j + (n - n1) + 1) with (j + 1 + (n - n1)) by lia.
    + split; [done|]. intros x. rewrite Hx. by replace (n - n1) with (n - 1) by lia;
        replace (i + (n - 1) + 1) with (i + n) by lia; replace (j + (n - 1) + 1) with (j + n) by lia.
  - split; [lia|]. split; [lia|]. split; [lia|]. split; [constructor|].
    intros x. byte_cases; cbn [andb]; try lia; done.
Qed.
(** After the rearrangement: smaller elements, the pivot's equals, greater ones. *)
Lemma rearrange_spec fuel m0 p a n pa pb pc pd m :
  ranges m0 p a n pa pb pc pd m -> pb = pc + 1 -> n * es < 2 ^ 31 -> n + 1 < Z.of_nat fuel ->
  exists m', rearrange es fuel m a n pa pb pc pd = Some (m', pb - pa, pd - pc, a + n - (pd - pc)) /\
    shuffled a (a + n) m m' /\
    (forall x, a <= x < a + (pb - pa) -> cmp (m' x) p < 0) /\
    (forall x, a + (pb - pa) <= x < a + n - (pd - pc) -> cmp (m' x) p = 0) /\
    (forall x, a + n - (pd - pc) <= x < a + n -> 0 < cmp (m' x) p).
Proof.
  intros [Hsh Hp Hi He1 Hl Hg He2] Hb Hint Hf. unfold rearrange.
  set (r1 := min (pa - a) (pb - pa)). set (r2 := min (pd - pc) (a + n - pd - 1)).
  assert (Hr1 : 0 <= r1 /\ r1 <= pa - a /\ r1 <= pb - pa /\ (r1 = pa - a \/ r1 = pb - pa))
    by (unfold r1, min; destruct (Z.ltb_spec (pa - a) (pb - pa)); lia).
  assert (Hr2 : 0 <= r2 /\ r2 <= pd - pc /\ r2 <= a + n - pd - 1 /\ (r2 = pd - pc \/ r2 = a + n - pd - 1))
    by (unfold r2, min; destruct (Z.ltb_spec (pd - pc) (a + n - pd - 1)); lia).
  clearbody r1 r2.
  destruct (vecswap_spec fuel m a (pb - r1) r1 a (a + n)) as (m1 & -> & Hsh1 & Hm1); [nia|lia..|].
  cbn [mbind option_bind].
  destruct (vecswap_spec fuel m1 pb (a + n - r2) r2 a (a + n)) as (m2 & -> & Hsh2 & Hm2); [nia|lia..|].
  cbn [mbind option_bind]. exists m2. split; [done|].
  split; [by eapply shuffled_trans|].
  (* below pb only the first exchange shows, from pb on only the second *)
  assert (Hlow : forall x, x < pb -> m2 x = m1 x).
  { intros x Hx. rewrite Hm2. byte_cases; cbn [andb]; try lia; done. }
  assert (Hhigh : forall x, pb <= x -> m1 x = m x).
  { intros x Hx. rewrite Hm1. byte_cases; cbn [andb]; try lia; done. }
  split_and!; intros x Hx.
  - rewrite Hlow, Hm1 by lia. byte_cases; cbn [andb]; try lia; apply Hl; lia.
  - destruct (Z.lt_ge_cases x pb).
    + rewrite Hlow, Hm1 by lia. byte_cases; cbn [andb]; try lia; apply He1; lia.
    + rewrite Hm2. byte_cases; cbn [andb]; try lia; rewrite Hhigh by lia; apply He2; lia.
  - rewrite Hm2. byte_cases; cbn [andb]; try lia; rewrite Hhigh by lia; apply Hg; lia.
Qed.

Lemma rearranged_ready m p a n d r : 0 <= d -> 0 <= r -> d + r <= n ->
  (forall x, a <= x < a + d -> cmp (m x) p < 0) ->
  (forall x, a + d <= x < a + n - r -> cmp (m x) p = 0) ->
  (forall x, a + n - r <= x < a + n -> 0 < cmp (m x) p) ->
  ready cmp m a (a + n) [(a, d); (a + n - r, r)].
Proof.
  intros Hd Hr Hdr Hl Heq Hg i j Hij Hj.
  destruct (decide (j < a + d)).
  { right. exists (a, d). split; [by left|]. unfold within. cbn. lia. }
  destruct (decide (a + n - r <= i)).
  { right. exists (a + n - r, r). split; [right; by left|]. unfold within. cbn. lia. }
  left. apply (cmp_trans _ p).
  - destruct (decide (i < a + d)); [specialize (Hl i)|specialize (Heq i)]; lia.
  - apply (le_flip cmp). destruct (decide (j < a + n - r)); [specialize (Heq j)|specialize (Hg j)]; lia.
Qed.
End Loops.

(** ** The sort *)

Section Sort.
Context {E : Type} (cmp : E -> E -> Z) `{!Comparator cmp}.
Context (es : Z) (Hes : 0 < es).
Notation arr := (arr E).
Implicit Types m : arr.

Lemma med3_in m a b c lo hi : lo <= a < hi -> lo <= b < hi -> lo <= c < hi ->
  lo <= med3 cmp m a b c < hi.
Proof. intros. unfold med3. repeat case_match; done. Qed.

Lemma pivot_in m a n : 7 <= n -> a <= pivot cmp m a n < a + n.
Proof.
  intros Hn. unfold pivot. assert (0 <= n / 2 < n) by (split; [apply Z.div_pos|apply Z.div_lt]; lia).
  destruct (7 <? n); [|lia]. destruct (Z.ltb_spec 40 n); [|apply med3_in; lia].
  pose proof (Z.mul_div_le n 8 ltac:(lia)). pose proof (Z.mul_succ_div_gt n 8 ltac:(lia)).
  pose proof (Z.mul_div_le n 2 ltac:(lia)). pose proof (Z.mul_succ_div_gt n 2 ltac:(lia)).
  repeat apply med3_in; lia.
Qed.

(** What is left to do, and a measure of it. *)
Definition mus (segs : list (Z * Z)) : Z := foldr (fun s k => 2 * s.2 + 1 + k) 0 segs.

Section Run.
Context (m0 : arr) (lo hi : Z).

Record pending m (segs : list (Z * Z)) : Prop := {
  pd_shuf : shuffled lo hi m0 m;
  pd_ready : ready cmp m lo hi segs;
  pd_parts : parts lo hi segs;
  pd_nonneg : Forall (fun s => 0 <= s.2) segs
}.

Lemma mus_nonneg segs : Forall (fun s => 0 <= s.2) segs -> 0 <= mus segs.
Proof. intros H. induction H as [|[a n] segs Hs _ IH]; [done|].
  change (mus ((a, n) :: segs)) with (2 * n + 1 + mus segs). cbn in Hs. lia.
Qed.

Lemma parts_cons s segs : parts lo hi (s :: segs) ->
  lo <= s.1 /\ s.1 + s.2 <= hi /\ Forall (apart s) segs /\ parts lo hi segs.
Proof.
  intros [Hin Hap]. inversion Hin as [|? ? [H1 H2] H3]; subst. inversion Hap as [|? ? H4 H5]; subst.
  split_and!; [done..|]. by split.
Qed.

Lemma parts_sub a n subs segs : parts lo hi ((a, n) :: segs) ->
  parts a (a + n) subs -> parts lo hi (subs ++ segs).
Proof.
  intros (Hlo & Hhi & Hap & Hin & Hpair)%parts_cons [Hsub Hsp]. cbn [fst snd] in *.
  assert (Hlt : forall s, s ∈ subs -> forall x, within s x -> within (a, n) x).
  { intros s Hs x Hx. rewrite Forall_forall in Hsub. specialize (Hsub s Hs). unfold within in *. cbn. lia. }
  split.
  - apply Forall_app. split; [|done]. eapply Forall_impl; [exact Hsub|]. cbn. intros. lia.
  - clear Hsub. induction Hsp as [|s subs Hs Hsp IH]; [done|]. cbn. constructor.
    + apply Forall_app. split; [done|]. rewrite Forall_forall in *. intros t Ht x Hx Htx.
      apply (Hap t Ht x); [|done]. apply (Hlt s); [by left|done].
    + apply IH. intros t Ht. apply Hlt. by right.
Qed.

(** Progress on the first part: it is permuted and split into [subs]. *)
Lemma pending_refine m m' a n subs segs : pending m ((a, n) :: segs) ->
  shuffled a (a + n) m m' -> ready cmp m' a (a + n) subs -> parts a (a + n) subs ->
  Forall (fun s => 0 <= s.2) subs -> pending m' (subs ++ segs).
Proof.
  intros [Hsh Hr Hp Hn] Hsh' Hr' Hp' Hn'. pose proof (parts_cons _ _ Hp) as (Hlo & Hhi & Hap & _).
  cbn [fst snd] in *. inversion Hn; subst. split.
  - eapply shuffled_trans; [exact Hsh|]. by eapply shuffled_widen.
  - by eapply refine_part.
  - by eapply parts_sub.
  - by apply Forall_app.
Qed.

Lemma pending_shuffle m m' a n segs : pending m ((a, n) :: segs) ->
  shuffled a (a + n) m m' -> pending m' ((a, n) :: segs).
Proof.
  intros Hp Hsh. apply (pending_refine m m' a n [(a, n)] segs Hp Hsh).
  - intros i j Hij Hj. right. exists (a, n). split; [by left|]. unfold within. cbn. lia.
  - split; [by repeat constructor; cbn; lia|]. repeat constructor.
  - destruct Hp as [_ _ _ Hn]. inversion Hn; subst. by repeat constructor.
Qed.

Lemma pending_sorted m m' a n segs : pending m ((a, n) :: segs) ->
  shuffled a (a + n) m m' -> sorted cmp m' a (a + n) -> pending m' segs.
Proof.
  intros Hp Hsh Hs. apply (pending_refine m m' a n [] segs Hp Hsh).
  - by apply sorted_ready.
  - split; constructor.
  - constructor.
Qed.

Lemma pending_drop m a n segs : n <= 1 -> pending m ((a, n) :: segs) -> pending m segs.
Proof.
  intros Hn Hp. apply (pending_sorted m m a n segs Hp); [constructor|].
  intros i j Hij Hj. assert (i = j) as -> by lia. by rewrite (cmp_refl cmp).
Qed.

Lemma pending_swap m s t segs : pending m (s :: t :: segs) -> pending m (t :: s :: segs).
Proof.
  intros [Hsh Hr [Hin Hpair] Hn]. inversion Hin as [|? ? ? Hin']; subst.
  inversion Hin'; subst. inversion Hn as [|? ? ? Hn']; subst. inversion Hn'; subst.
  inversion Hpair as [|? ? Hs Hpair']; subst. inversion Hpair' as [|? ? Ht Hpair'']; subst.
  inversion Hs as [|? ? Hst Hs']; subst. split; [done| | |by repeat constructor].
  - intros i j Hij Hj. destruct (Hr i j Hij Hj) as [?|(u & Hu & H1)]; [by left|].
    right. exists u. split; [|done]. rewrite !elem_of_cons in *. tauto.
  - split; [by constructor; [|constructor]|]. constructor; [|by constructor].
    constructor; [|done]. intros x Hx Hx'. by apply (Hst x).
Qed.

(** A turn of the main loop is right. *)
Definition good (B : Z) (out : qstate E + option arr) : Prop :=
  match out with
  | inl (m, a, n, stack) => pending m ((a, n) :: stack) /\ 0 <= mus ((a, n) :: stack) < B
  | inr r => exists m, r = Some m /\ shuffled lo hi m0 m /\ sorted cmp m lo hi
  end.

Lemma pop_good m segs B : pending m segs -> mus segs < B -> good B (pop m segs).
Proof.
  intros Hp HB. destruct segs as [|[a n] segs]; cbn [pop good].
  - exists m. destruct Hp as [Hsh Hr _ _]. split; [done|]. split; [done|]. by apply ready_nil.
  - split; [done|]. split; [|done]. by apply mus_nonneg, (pd_nonneg _ _ Hp).
Qed.
Lemma by_insertion_good fuel m a n stack B : pending m ((a, n) :: stack) ->
  n + 1 < Z.of_nat fuel -> mus ((a, n) :: stack) <= B ->
  good B (match insertion_sort cmp fuel m a n with Some m => pop m stack | None => inr None end).
Proof.
  intros Hp Hf HB. pose proof (pd_nonneg _ _ Hp) as Hn. inversion Hn as [|? ? Hn0 Hn']; subst. cbn in Hn0.
  destruct (insertion_sort_spec cmp fuel m a n Hn0 Hf) as (m' & -> & Hsh & Hs).
  change (mus ((a, n) :: stack)) with (2 * n + 1 + mus stack) in HB.
  apply pop_good; [by eapply pending_sorted|lia].
Qed.

(** The larger part, once the smaller one is done. *)
Lemma larger_good m a n stack B : pending m ((a, n) :: stack) -> mus ((a, n) :: stack) < B ->
  good B (if 1 <? n then inl (m, a, n, stack) else pop m stack).
Proof.
  intros Hp HB. pose proof (mus_nonneg _ (pd_nonneg _ _ Hp)). destruct (Z.ltb_spec 1 n).
  - split; [done|lia].
  - pose proof (pd_nonneg _ _ Hp) as Hn. inversion Hn as [|? ? Hn0 _]; subst. cbn in Hn0.
    change (mus ((a, n) :: stack)) with (2 * n + 1 + mus stack) in *.
    apply pop_good; [by eapply pending_drop|lia].
Qed.

Definition sorts (rec : arr -> Z -> Z -> option arr) (N : Z) : Prop :=
  forall m a n, 0 <= n < N ->
  exists m', rec m a n = Some m' /\ shuffled a (a + n) m m' /\ sorted cmp m' a (a + n).

Lemma split_good rec m pa r a n stack B : pending m ((pa, r) :: (a, n) :: stack) ->
  sorts rec (hi - lo) -> r < hi - lo -> mus ((pa, r) :: (a, n) :: stack) < B ->
  good B
    (let larger m := if 1 <? n then inl (m, a, n, stack) else pop m stack in
     if 1 <? r then
       if bool_decide (length stack < PARAMETER_STACK_LEVELS)%nat
       then inl (m, pa, r, (a, n) :: stack)
       else match rec m pa r with Some m => larger m | None => inr None end
     else larger m).
Proof.
  intros Hp Hrec Hr HB. cbv zeta.
  pose proof (mus_nonneg _ (pd_nonneg _ _ Hp)).
  pose proof (pd_nonneg _ _ Hp) as Hn. inversion Hn as [|? ? Hr0 Hn']; subst. cbn in Hr0.
  change (mus ((pa, r) :: (a, n) :: stack)) with (2 * r + 1 + mus ((a, n) :: stack)) in *.
  destruct (Z.ltb_spec 1 r).
  - case_bool_decide; [by split|].
    destruct (Hrec m pa r ltac:(lia)) as (m' & -> & Hsh & Hs).
    apply larger_good; [by eapply pending_sorted|lia].
  - apply larger_good; [by eapply pending_drop|lia].
Qed.

Lemma qstep_good fuel rec m a n stack :
  pending m ((a, n) :: stack) -> sorts rec (hi - lo) -> (hi - lo) * es < 2 ^ 31 -> hi - lo + 1 < Z.of_nat fuel ->
  good (mus ((a, n) :: stack)) (qstep cmp es fuel rec (m, a, n, stack)).
Proof.
  intros Hp Hrec Hint Hf. pose proof (parts_cons _ _ (pd_parts _ _ Hp)) as (Hlo & Hhi & _).
  cbn [fst snd] in *. unfold qstep. destruct (Z.ltb_spec n 7) as [|Hn].
  { apply by_insertion_good; [done|lia|done]. }
  pose proof (pivot_in m a n Hn) as Hpv.
  assert (Hp1 : pending (swap m a (pivot cmp m a n)) ((a, n) :: stack)).
  { eapply pending_shuffle; [exact Hp|]. apply shuffled_swap; lia. }
  destruct (partition_spec cmp fuel (swap m a (pivot cmp m a n)) _ a n eq_refl Hn ltac:(lia))
    as (m2 & cnt & pa & pb & pc & pd & -> & Hr & Hb).
  assert (Hp2 : pending m2 ((a, n) :: stack)).
  { eapply pending_shuffle; [exact Hp1|]. eapply shuffled_widen; [apply (rg_shuf _ _ _ _ _ _ _ _ _ _ Hr)|lia|lia]. }
  destruct cnt; cbn [negb]; [|apply by_insertion_good; [done|lia|done]].
  destruct (rearrange_spec cmp es Hes fuel _ _ a n pa pb pc pd m2 Hr Hb ltac:(nia) ltac:(lia))
    as (m3 & -> & Hsh3 & Hl & Heq & Hg).
  pose proof (rg_idx _ _ _ _ _ _ _ _ _ _ Hr) as Hi.
  set (d := pb - pa) in *. set (r := pd - pc) in *.
  assert (Hp3 : pending m3 ((a, d) :: (a + n - r, r) :: stack)).
  { apply (pending_refine m2 m3 a n [(a, d); (a + n - r, r)] stack Hp2 Hsh3).
    - eapply (rearranged_ready cmp); [lia|lia|lia|exact Hl|exact Heq|exact Hg].
    - split; [repeat constructor; cbn; lia|]. constructor; [|by repeat constructor].
      constructor; [|constructor]. intros x. unfold within. cbn. lia.
    - repeat constructor; cbn; lia. }
  change (mus ((a, n) :: stack)) with (2 * n + 1 + mus stack).
  destruct (Z.ltb_spec d r).
  - apply split_good; [done|done|lia|]. unfold mus. cbn [foldr snd]. lia.
  - apply split_good; [by apply pending_swap|done|lia|]. unfold mus. cbn [foldr snd]. lia.
Qed.
End Run.

Lemma qsort_spec depth fuel m a n : 0 <= n -> n * es < 2 ^ 31 -> n < Z.of_nat depth -> 2 * n + 1 < Z.of_nat fuel ->
  exists m', qsort cmp es depth fuel m a n = Some m' /\ shuffled a (a + n) m m' /\ sorted cmp m' a (a + n).
Proof.
  revert m a n. induction depth as [|depth IH]; intros m a n Hn Hint Hd Hf; [lia|]. cbn [qsort].
  run_loop (fun st : qstate E => let '(m1, a1, n1, stack) := st in
      pending m a (a + n) m1 ((a1, n1) :: stack))
    (fun st : qstate E => let '(_, a1, n1, stack) := st in mus ((a1, n1) :: stack))
    (fun r : option arr => exists m', r = Some m' /\ shuffled a (a + n) m m' /\ sorted cmp m' a (a + n)) r H.
  - intros [[[m1 a1] n1] stack] Hp.
    pose proof (qstep_good m a (a + n) fuel (qsort cmp es depth fuel) m1 a1 n1 stack Hp) as Hg.
    unfold good in Hg. destruct (qstep _ _ _ _) as [[[[m2 a2] n2] stack2]|r].
    + apply Hg; [|nia|lia]. intros m3 a3 n3 Hn3. apply IH; [lia|nia|lia..].
    + apply Hg; [|nia|lia]. intros m3 a3 n3 Hn3. apply IH; [lia|nia|lia..].
  - split; [constructor| | |repeat constructor; done].
    + intros i j Hij Hj. right. exists (a, n). split; [by left|]. unfold within. cbn. lia.
    + split; repeat constructor; cbn; lia.
  - cbn. lia.
  - cbn. lia.
  - destruct H as (m' & -> & H). by exists m'.
Qed.
End Sort.

(** ** Binary search *)

Section Search.
Context {E : Type}.
Implicit Types m : arr E.

(** The elements before the key, those equal to it, those after it. *)
Definition bracketed (m : arr E) (compar : E -> Z) (n : Z) : Prop :=
  forall i j, 0 <= i < j -> j < n ->
  (0 < compar (m j) -> 0 < compar (m i)) /\ (compar (m i) < 0 -> compar (m j) < 0).

Lemma bsearch_spec fuel m compar n size : bracketed m compar n ->
  0 <= n < 2 ^ 63 -> n < Z.of_nat fuel -> 0 < size ->
  exists r, bsearch fuel m compar n size = Some r /\
    match r with
    | Some i => 0 <= i < n /\ compar (m i) = 0
    | None => forall i, 0 <= i < n -> compar (m i) <> 0
    end.
Proof.
  intros Hb Hn Hf Hs. unfold bsearch. rewrite (proj2 (Z.eqb_neq size 0)), orb_false_r by lia.
  destruct (Z.eqb_spec n 0) as [->|]; [exists None; split; [done|]; intros; lia|].
  run_loop (fun st : Z * Z => 0 <= fst st <= snd st /\ snd st <= n /\
      (forall i, 0 <= i < fst st -> 0 < compar (m i)) /\
      (forall i, snd st <= i < n -> compar (m i) < 0))
    (fun st : Z * Z => snd st - fst st)
    (fun r : option Z => match r with
       | Some i => 0 <= i < n /\ compar (m i) = 0
       | None => forall i, 0 <= i < n -> compar (m i) <> 0 end) r H;
    [| |cbn; lia|cbn; lia|by exists r].
  - intros [lower upper] (Hi & Hu & Hlow & Hup). cbn [fst snd] in *.
    destruct (Z.ltb_spec lower upper).
    + unfold uwrap. rewrite Z.mod_small by lia. set (index := (lower + upper) / 2).
      assert (lower <= index < upper).
      { pose proof (Z.mul_div_le (lower + upper) 2 ltac:(lia)).
        pose proof (Z.mul_succ_div_gt (lower + upper) 2 ltac:(lia)). unfold index. lia. }
      destruct (Z.ltb_spec (compar (m index)) 0); [|destruct (Z.ltb_spec 0 (compar (m index)))].
      * split; [|cbn; lia]. cbn [fst snd]. split_and!; [lia|lia|lia|done|].
        intros i Hi'. destruct (Z.eq_dec i index) as [->|]; [done|]. apply (Hb index i); lia.
      * split; [|cbn; lia]. cbn [fst snd]. split_and!; [lia|lia|lia| |done].
        intros i Hi'. destruct (Z.eq_dec i index) as [->|]; [done|]. apply (Hb i index); lia.
      * split; lia.
    + intros i Hi'. destruct (Z.lt_ge_cases i lower); [specialize (Hlow i)|specialize (Hup i)]; lia.
  - cbn. split_and!; lia.
Qed.

Lemma sorted_bracketed (cmp : E -> E -> Z) `{!Comparator cmp} m a n key :
  sorted cmp m a (a + n) -> bracketed (fun i => m (a + i)) (cmp key) n.
Proof.
  intros Hs i j Hij Hj. specialize (Hs (a + i) (a + j) ltac:(lia) ltac:(lia)). split; intros H.
  - apply cmp_flip in H. destruct (Z.lt_ge_cases 0 (cmp key (m (a + i)))) as [|Hle]; [done|].
    pose proof (cmp_trans _ _ _ Hle Hs). pose proof (cmp_flip (m (a + j)) key). lia.
  - destruct (Z.lt_ge_cases (cmp key (m (a + j))) 0) as [|Hge]; [done|].
    apply (le_flip cmp) in Hge. pose proof (cmp_trans _ _ _ Hs Hge).
    pose proof (cmp_flip key (m (a + i))). lia.
Qed.
End Search.

(** C33: for every comparison that orders the elements, every element size and every
    array of less than 2^31 bytes, qsort terminates, permutes the array, leaves
    everything outside it alone and leaves it sorted; and on the sorted array bsearch
    finds an element equal to the key exactly when there is one. *)
Theorem qsort_bsearch_correct {E : Type} (cmp : E -> E -> Z) `{!Comparator cmp}
    es depth fuel (m : arr E) a n :
  0 < es -> 0 <= n -> n * es < 2 ^ 31 -> n < Z.of_nat depth -> 2 * n + 1 < Z.of_nat fuel ->
  exists m', qsort cmp es depth fuel m a n = Some m' /\
    seg m' a n ≡ₚ seg m a n /\ (forall x, x < a \/ a + n <= x -> m' x = m x) /\
    sorted cmp m' a (a + n) /\
    forall key,
    exists r, bsearch fuel (fun i => m' (a + i)) (cmp key) n es = Some r /\
      match r with
      | Some i => 0 <= i < n /\ cmp key (m' (a + i)) = 0
      | None => forall i, a <= i < a + n -> cmp key (m' i) <> 0
      end.
Proof.
  intros Hes Hn Hint Hd Hf. destruct (qsort_spec cmp es Hes depth fuel m a n) as (m' & E' & Hsh & Hs); [lia..|].
  exists m'. split; [done|]. split; [by apply shuffled_perm|].
  split; [intros x Hx; eapply shuffled_outside; [exact Hsh|lia]|]. split; [done|].
  intros key.
  destruct (bsearch_spec fuel (fun i => m' (a + i)) (cmp key) n es (sorted_bracketed cmp m' a n key Hs))
    as (r & E'' & Hr); [nia|lia|done|]. exists r. split; [done|].
  destruct r; [done|]. intros i Hi. specialize (Hr (i - a)). replace (a + (i - a)) with i in Hr by lia.
  apply Hr. lia.
Qed.

#[export] Instance int_comparator : Comparator Z.sub.
Proof. split; intros; lia. Qed.

(** Twelve numbers, enough for a partition with a pivot from the median of three. *)
Definition twelve : arr Z := fun i => default 0 ([5; 3; 9; 3; 1; 12; 7; 3; 8; 0; 11; 2] !! Z.to_nat i).

Lemma qsort_bsearch_correct_witness :
  exists m', qsort Z.sub 4 13 40 twelve 0 12 = Some m' /\ sorted Z.sub m' 0 12 /\
    seg m' 0 12 = [0; 1; 2; 3; 3; 3; 5; 7; 8; 9; 11; 12].
Proof.
  destruct (qsort_bsearch_correct Z.sub 4 13 40 twelve 0 12) as (m' & H1 & _ & _ & H2 & _); [lia..|].
  exists m'. split; [exact H1|]. split; [exact H2|].
  assert (H3 : match qsort Z.sub 4 13 40 twelve 0 12 with Some f => seg f 0 12 | None => [] end =
    [0; 1; 2; 3; 3; 3; 5; 7; 8; 9; 11; 12]) by (vm_compute; reflexivity).
  rewrite H1 in H3. exact H3.
Defined.

(** With 2^32 + 1 bytes to exchange, the code exchanges one. *)
Lemma vecswap_truncates {E : Type} fuel (m : arr E) i j :
  vecswap 1 (S fuel) m i j (2 ^ 32 + 1) = Some (swap m i j).
Proof. reflexivity. Qed.

(** ** Elements in memory *)

(** The element [i] of an array at [a] with elements of [es] bytes. *)
Definition element (m : mem) (a es : Z) : arr (list Z) := fun i => m <$> seqZ (a + i * es) es.

(** [n] bytes at [p] and at [q] have changed places. *)
Definition exchanged (m m' : mem) (p q n : Z) : Prop := forall x,
  m' x = if (p <=? x) && (x <? p + n) then m (x - p + q)
         else if (q <=? x) && (x <? q + n) then m (x - q + p) else m x.

Lemma exchange_word w m p q : mem_ok m -> p + Z.of_nat w <= q \/ q + Z.of_nat w <= p ->
  exchanged m (store w (store w m p (load w m q)) q (load w m p)) p q (Z.of_nat w).
Proof.
  intros Hm Hd x. rewrite !store_load by done.
  byte_cases; cbn [andb]; try lia; try done; f_equal; lia.
Qed.

Lemma exchanged_ok m m' p q n : mem_ok m -> exchanged m m' p q n -> mem_ok m'.
Proof. intros Hm He x. rewrite He. repeat case_match; apply Hm. Qed.

Lemma swapcode_spec w fuel m p q k : mem_ok m -> (0 < w)%nat -> 1 <= k < Z.of_nat fuel ->
  p + k * Z.of_nat w <= q \/ q + k * Z.of_nat w <= p ->
  exists m', swapcode w fuel m p q (k * Z.of_nat w) = Some m' /\ exchanged m m' p q (k * Z.of_nat w).
Proof.
  intros Hm Hw Hk Hd. unfold swapcode. rewrite Z.div_mul by lia. set (W := Z.of_nat w) in *.
  run_loop (fun st : mem * Z * Z * Z => let '(m1, p1, q1, i) := st in
      1 <= i <= k /\ p1 = p + (k - i) * W /\ q1 = q + (k - i) * W /\ mem_ok m1 /\
      exchanged m m1 p q ((k - i) * W))
    (fun st : mem * Z * Z * Z => snd st)
    (fun m1 : mem => exchanged m m1 p q (k * W)) r H; [| |cbn; lia|cbn; lia|by exists r].
  - intros [[[m1 p1] q1] i] (Hi & -> & -> & Hm1 & He).
    assert (He' : exchanged m (store w (store w m1 (p + (k - i) * W) (load w m1 (q + (k - i) * W)))
      (q + (k - i) * W) (load w m1 (p + (k - i) * W))) p q ((k - (i - 1)) * W)).
    { intros x. rewrite (exchange_word w m1) by (done || (fold W; nia)). fold W.
      replace ((k - (i - 1)) * W) with ((k - i) * W + W) by lia.
      assert (0 <= (k - i) * W) by nia. assert ((k - i) * W + W <= k * W) by nia.
      set (o := (k - i) * W) in *. clearbody o.
      rewrite !He. byte_cases; cbn [andb]; try lia; try done; f_equal; lia. }
    assert (Hok : mem_ok (store w (store w m1 (p + (k - i) * W) (load w m1 (q + (k - i) * W)))
      (q + (k - i) * W) (load w m1 (p + (k - i) * W)))) by (eapply exchanged_ok; [exact Hm|exact He']).
    destruct (Z.ltb_spec 0 (i - 1)).
    + split; [|cbn; lia]. split; [lia|]. split; [lia|]. split; [lia|]. by split.
    + by replace (k - (i - 1)) with k in He' by lia.
  - split; [lia|]. split; [lia|]. split; [lia|]. split; [done|].
    intros x. replace ((k - k) * W) with 0 by lia. byte_cases; cbn [andb]; try lia; done.
Qed.

(** The word or byte loop over [n] elements. *)
Lemma swapfunc_spec fuel m a p q n es : mem_ok m -> 0 < es -> 0 < n -> n * es < 2 ^ 31 ->
  n * es < Z.of_nat fuel -> p + n * es <= q \/ q + n * es <= p ->
  exists m', swapfunc fuel m p q (n * es) (SWAPINIT a es) = Some m' /\ exchanged m m' p q (n * es).
Proof.
  intros Hm Hes Hn Hint Hf Hd. unfold swapfunc, SWAPINIT.
  rewrite swrap_small by (try unfold in_s; nia).
  assert (Hb : exists m', swapcode 1 fuel m p q (n * es) = Some m' /\ exchanged m m' p q (n * es)).
  { replace (n * es) with (n * es * Z.of_nat 1) by lia. apply swapcode_spec; (done || nia). }
  destruct (Z.eqb_spec (a mod 8) 0); cbn [negb orb]; [destruct (Z.eqb_spec (es mod 8) 0) as [E8|]; cbn [negb]|]; [|done..].
  assert (Hw : exists m', swapcode 8 fuel m p q (n * es) = Some m' /\ exchanged m m' p q (n * es)).
  { pose proof (Z.div_mod es 8 ltac:(lia)). replace (n * es) with (n * (es / 8) * Z.of_nat 8) by nia.
    apply swapcode_spec; (done || nia). }
  by destruct (es =? 8).
Qed.

Lemma swap_bytes_spec fuel m a p q es : mem_ok m -> 0 < es < Z.of_nat fuel -> es < 2 ^ 31 ->
  p + es <= q \/ q + es <= p ->
  exists m', swap_bytes fuel m p q es (SWAPINIT a es) = Some m' /\ exchanged m m' p q es.
Proof.
  intros Hm Hes Hint Hd. unfold swap_bytes, swapfunc, SWAPINIT.
  replace (s32 es) with es
    by (unfold swrap; change (2 ^ (32 - 1)) with (2 ^ 31); rewrite Z.mod_small; lia).
  destruct (Z.eqb_spec (a mod 8) 0); cbn [negb orb]; [destruct (Z.eqb_spec (es mod 8) 0) as [E8|]; cbn [negb]|].
  - destruct (Z.eqb_spec es 8) as [->|].
    + eexists. split; [reflexivity|]. by apply (exchange_word 8).
    + pose proof (Z.div_mod es 8 ltac:(lia)). assert (E' : es = es / 8 * Z.of_nat 8) by lia.
      cbn [Z.eqb Z.leb Z.compare]. set (k := es / 8) in *. clearbody k. subst es.
      apply swapcode_spec; (done || lia).
  - cbn [Z.eqb Z.leb Z.compare]. replace es with (es * Z.of_nat 1) by lia. apply swapcode_spec; (done || lia).
  - cbn [Z.eqb Z.leb Z.compare]. replace es with (es * Z.of_nat 1) by lia. apply swapcode_spec; (done || lia).
Qed.

(** Exchanging two elements byte by byte or word by word, whichever the
    alignment and the element size select, is the exchange of elements the sort is
    stated with: every element of the array other than the two keeps its bytes, and
    memory outside the two is not touched. *)
Theorem swap_refines fuel m a es i j :
  mem_ok m -> 0 < es < Z.of_nat fuel -> es < 2 ^ 31 -> i <> j ->
  exists m', swap_bytes fuel m (a + i * es) (a + j * es) es (SWAPINIT a es) = Some m' /\
    (forall x, element m' a es x = swap (element m a es) i j x) /\
    (forall x, ~ (a + i * es <= x < a + i * es + es) -> ~ (a + j * es <= x < a + j * es + es) ->
       m' x = m x).
Proof.
  intros Hm Hes Hint Hij.
  destruct (swap_bytes_spec fuel m a (a + i * es) (a + j * es) es Hm Hes Hint) as (m' & E & He); [nia|].
  exists m'. split; [done|]. split.
  - intros x. unfold element, swap.
    assert (Hsame : forall y, y <> i -> y <> j -> m' <$> seqZ (a + y * es) es = m <$> seqZ (a + y * es) es).
    { intros y Hi Hj. apply list_fmap_ext. intros k z Hz. apply lookup_seqZ in Hz as [-> Hk]. rewrite He.
      assert (y < i \/ i < y) by lia. assert (y < j \/ j < y) by lia.
      byte_cases; cbn [andb]; try done; nia. }
    assert (Hmove : forall y z, (y = i /\ z = j) \/ (y = j /\ z = i) ->
      m' <$> seqZ (a + y * es) es = m <$> seqZ (a + z * es) es).
    { intros y z Hyz. apply list_eq. intros k. rewrite !list_lookup_fmap.
      destruct (decide (Z.of_nat k < es)).
      - rewrite !lookup_seqZ_lt by lia. cbn. f_equal. rewrite He.
        assert (i < j \/ j < i) by lia.
        destruct Hyz as [[-> ->]|[-> ->]]; byte_cases; cbn [andb]; try (f_equal; lia); nia.
      - rewrite !lookup_seqZ_ge by lia. done. }
    destruct (Z.eqb_spec x j) as [->|]; [apply Hmove; lia|].
    destruct (Z.eqb_spec x i) as [->|]; [apply Hmove; lia|]. by apply Hsame.
  - intros x H1 H2. rewrite He. byte_cases; cbn [andb]; try done; lia.
Qed.

(** Exchanging two ranges of elements that do not overlap, in memory and in the model. *)
Theorem vecswap_refines fuel m a es i j n f' :
  mem_ok m -> 0 < es -> 0 < n -> n * es < 2 ^ 31 -> n * es < Z.of_nat fuel -> i + n <= j ->
  vecswap es fuel (element m a es) i j n = Some f' ->
  exists m', vecswap_bytes fuel m (a + i * es) (a + j * es) (n * es) (SWAPINIT a es) = Some m' /\
    forall x, element m' a es x = f' x.
Proof.
  intros Hm Hes Hn Hint Hf Hij Hv.
  destruct (vecswap_spec es Hes fuel (element m a es) i j n i (j + n)) as (f1 & E1 & _ & Hf1); [nia..|].
  rewrite Hv in E1. injection E1 as <-.
  destruct (swapfunc_spec fuel m a (a + i * es) (a + j * es) n es Hm Hes) as (m' & E & He); [nia..|].
  exists m'. split; [unfold vecswap_bytes; by zdecide|]. intros x. rewrite Hf1. unfold element.
  apply list_eq. intros k. rewrite !list_lookup_fmap.
  assert (Hpos : forall y z, (forall o, 0 <= o < es -> m' (a + x * es + o) = m (a + y * es + o)) -> y = z ->
    m' <$> seqZ (a + x * es) es !! k = m <$> seqZ (a + z * es) es !! k).
  { intros y z Hy ->. destruct (decide (Z.of_nat k < es)); [|by rewrite !lookup_seqZ_ge by lia].
    rewrite !lookup_seqZ_lt by lia. cbn. f_equal. apply Hy. lia. }
  destruct (Z.leb_spec i x), (Z.ltb_spec x (i + n)); cbn [andb];
    [rewrite list_lookup_fmap; apply (Hpos (x + (j - i))); [|done]| | |];
    try (destruct (Z.leb_spec j x), (Z.ltb_spec x (j + n)); cbn [andb]; rewrite list_lookup_fmap;
         [apply (Hpos (x - (j - i))); [|done]|apply (Hpos x); [|done]..]).
  all: intros o Ho; rewrite He; byte_cases; cbn [andb]; try (f_equal; lia); try (exfalso; nia).
Qed.

Lemma swap_refines_witness :
  exists m', swap_bytes 20 (bytes_at 1000 [1; 2; 3; 4; 5; 6]) 1000 1004 2 (SWAPINIT 1000 2) = Some m' /\
    element m' 1000 2 0 = [5; 6].
Proof.
  destruct (swap_refines 20 (bytes_at 1000 [1; 2; 3; 4; 5; 6]) 1000 2 0 2) as (m' & H1 & H2 & _);
    [apply bytes_at_ok; repeat constructor; lia|lia|lia|lia|].
  exists m'. split; [exact H1|]. rewrite H2. vm_compute. reflexivity.
Defined.
