(* ===== verification/CSpan.v ===== *)
(** Strings and sets of characters in the C library (libc/newlib/libc/string):
    strspn, strcspn, strpbrk, the tokenizers built on __strtok_r (strtok_r, strtok,
    strsep), and their wide-character versions.

    The wide functions read and write memory only as wchar_t, so for them a cell of
    [mem] is a wchar_t and a pointer counts in wchar_t.  The pointer 0 is NULL. *)

From S2P Require Import Prelude CMem.

(** for (c = s2; *c; c++) if ( *s1 == *c) break; gives c *)
Definition find_in (fuel : nat) (m : mem) (ch s2 : Z) : option Z :=
  loop fuel (fun c => if m c =? 0 then inr c else if ch =? m c then inr c else inl (c + 1)) s2.

(** while ( *s1) { find_in; if (stop ( *c)) break; s1++; } gives s1 and the last c *)
Definition span_loop (fuel : nat) (m : mem) (s2 : Z) (stop : Z -> bool) (s1 c : Z)
  : option (Z * Z) :=
  r ← loop fuel (fun '(s1, c) =>
        if m s1 =? 0 then inr (Some (s1, c))
        else match find_in fuel m (m s1) s2 with
             | None => inr None
             | Some c => if stop (m c) then inr (Some (s1, c)) else inl (s1 + 1, c)
             end) (s1, c);
  r.

Definition strspn (fuel : nat) (m : mem) (s1 s2 : Z) : option Z :=
  '(s, _) ← span_loop fuel m s2 (fun c => c =? 0) s1 s2; Some (s - s1).
Definition strcspn (fuel : nat) (m : mem) (s1 s2 : Z) : option Z :=
  '(s, _) ← span_loop fuel m s2 (fun c => negb (c =? 0)) s1 s2; Some (s - s1).
Definition strpbrk (fuel : nat) (m : mem) (s1 s2 : Z) : option Z :=
  if m s1 =? 0 then Some 0
  else
    '(s, c) ← span_loop fuel m s2 (fun c => negb (c =? 0)) s1 s2;
    Some (if m c =? 0 then 0 else s).

Definition wcsspn (fuel : nat) (m : mem) (s set : Z) : option Z :=
  '(p, _) ← span_loop fuel m set (fun c => c =? 0) s set; Some (p - s).
Definition wcscspn (fuel : nat) (m : mem) (s set : Z) : option Z :=
  '(p, _) ← span_loop fuel m set (fun c => negb (c =? 0)) s set; Some (p - s).

(** The result is returned from inside the loop. *)
Definition wcspbrk (fuel : nat) (m : mem) (s set : Z) : option Z :=
  r ← loop fuel (fun p =>
        if m p =? 0 then inr (Some 0)
        else match find_in fuel m (m p) set with
             | None => inr None
             | Some q => if m q =? 0 then inl (p + 1) else inr (Some p)
             end) s;
  r.

(** ** Tokens *)

(** What __strtok_r does: the memory after it, its result and *lasts. *)
Definition tokenizing : Type := option (mem * Z * Z).

(** The first loop of __strtok_r, from the label cont: c and s at its end, or the
    return for a delimiter that is not to be skipped. *)
Definition leading (fuel : nat) (m : mem) (delim : Z) (skip : bool) (s : Z)
  : option (Z * Z + (mem * Z * Z)) :=
  r ← loop fuel (fun s =>
        let c := m s in
        let s := s + 1 in
        match find_in fuel m c delim with
        | None => inr None
        | Some sp =>
            if negb (m sp =? 0) then
              if skip then inl s
              else inr (Some (inr (upd m (s - 1) 0, s - 1, s)))
            else inr (Some (inl (c, s)))
        end) s;
  r.

(** do if ((sc = *spanp++) == c) ... while (sc != 0): the delimiters and the
    terminator are compared *)
Definition find_or_nul (fuel : nat) (m : mem) (ch delim : Z) : option bool :=
  loop fuel (fun spanp =>
    if m spanp =? ch then inr true else if m spanp =? 0 then inr false else inl (spanp + 1)) delim.

(** The second loop: the rest of the token [tok]. *)
Definition rest (fuel : nat) (m : mem) (delim tok s : Z) : tokenizing :=
  r ← loop fuel (fun s =>
        let c := m s in
        let s := s + 1 in
        match find_or_nul fuel m c delim with
        | None => inr None
        | Some true =>
            if c =? 0 then inr (Some (m, tok, 0)) else inr (Some (upd m (s - 1) 0, tok, s))
        | Some false => inl s
        end) s;
  r.

Definition strtok_r_ (fuel : nat) (m : mem) (s delim lasts : Z) (skip : bool) : tokenizing :=
  if (s =? 0) && (lasts =? 0) then Some (m, 0, lasts)
  else
    let s := if s =? 0 then lasts else s in
    r ← leading fuel m delim skip s;
    match r with
    | inr out => Some out
    | inl (c, s) => if c =? 0 then Some (m, 0, 0) else rest fuel m delim (s - 1) s
    end.

Definition strtok_r (fuel : nat) (m : mem) (s delim lasts : Z) : tokenizing :=
  strtok_r_ fuel m s delim lasts true.
(** [last] is the pointer kept in the reent structure *)
Definition strtok (fuel : nat) (m : mem) (s delim last : Z) : tokenizing :=
  strtok_r_ fuel m s delim last true.
(** [source] is the pointer at source_ptr *)
Definition strsep (fuel : nat) (m : mem) (source delim : Z) : tokenizing :=
  strtok_r_ fuel m source delim source false.
Definition wcstok (fuel : nat) (m : mem) (s delim lasts : Z) : tokenizing :=
  strtok_r_ fuel m s delim lasts true.

(** ** Sets *)

(** The set of characters the string at [d], which ends at [zd], holds. *)
Definition member (m : mem) (d zd c : Z) : Prop := exists x, d <= x < zd /\ m x = c.

Lemma member_dec m d zd c : member m d zd c \/ ~ member m d zd c.
Proof.
  destruct (existsb (fun x => m x =? c) (seqZ d (zd - d))) eqn:E.
  - left. apply existsb_exists in E as (x & Hx & Hc). apply list_elem_of_In, elem_of_seqZ in Hx.
    exists x. split; [lia|]. by apply Z.eqb_eq.
  - right. intros (x & Hx & Hc). apply not_true_iff_false in E. apply E, existsb_exists.
    exists x. split; [apply list_elem_of_In, elem_of_seqZ; lia|]. by apply Z.eqb_eq.
Qed.

Section Span.
Context (m : mem) (fuel : nat) (d zd : Z).
Context (Hd : first m (fun b => b = 0) d zd) (Hfd : zd - d < Z.of_nat fuel).

Lemma member_nonzero c : member m d zd c -> c <> 0.
Proof. intros (x & Hx & <-). destruct Hd as (_ & _ & H). by apply H. Qed.

(** The inner loop stops in the set for a member and at its end for the rest. *)
Lemma find_in_spec c : exists sp, find_in fuel m c d = Some sp /\
  (member m d zd c -> m sp = c) /\ (~ member m d zd c -> m sp = 0).
Proof.
  destruct Hd as (H1 & H2 & H3). unfold find_in.
  run_loop (fun x => d <= x <= zd /\ forall y, d <= y < x -> m y <> c) (fun x => zd - x)
    (fun sp => (member m d zd c -> m sp = c) /\ (~ member m d zd c -> m sp = 0)) sp H;
    [|split; [lia|intros; lia]|lia|lia|by exists sp].
  intros x (Hx & Hne). destruct (Z.eqb_spec (m x) 0) as [E|E].
  - split; [|done]. intros (y & Hy & Hc). exfalso. destruct (Z.lt_ge_cases y x); [by apply (Hne y); [lia|]|].
    assert (x = zd) by (destruct (Z.eq_dec x zd); [done|exfalso; by apply (H3 x); [lia|]]). lia.
  - assert (x <> zd) by (intros ->; done). destruct (Z.eqb_spec c (m x)) as [->|Hc].
    + split; [done|]. intros Hn. exfalso. apply Hn. exists x. split; [lia|done].
    + split; [|lia]. split; [lia|]. intros y Hy. destruct (Z.eq_dec y x) as [->|]; [congruence|]. apply Hne. lia.
Qed.

Lemma find_or_nul_spec c : exists b, find_or_nul fuel m c d = Some b /\
  (b = true <-> c = 0 \/ member m d zd c).
Proof.
  destruct Hd as (H1 & H2 & H3). unfold find_or_nul.
  run_loop (fun x => d <= x <= zd /\ forall y, d <= y < x -> m y <> c) (fun x => zd - x)
    (fun b : bool => b = true <-> c = 0 \/ member m d zd c) b H;
    [|split; [lia|intros; lia]|lia|lia|by exists b].
  intros x (Hx & Hne). destruct (Z.eqb_spec (m x) c) as [E|E].
  - split; [intros _|done]. destruct (Z.eq_dec x zd) as [->|]; [left; congruence|].
    right. exists x. split; [lia|done].
  - destruct (Z.eqb_spec (m x) 0) as [E0|E0].
    + assert (x = zd) as -> by (destruct (Z.eq_dec x zd); [done|exfalso; by apply (H3 x); [lia|]]).
      split; [done|]. intros [->|(y & Hy & Hc)]; [done|]. exfalso. by apply (Hne y).
    + assert (x <> zd) by (intros ->; done). split; [|lia]. split; [lia|].
      intros y Hy. destruct (Z.eq_dec y x) as [->|]; [done|]. apply Hne. lia.
Qed.

(** Both spans stop at the first character that is (or is not) in the set. *)
Lemma span_in_spec s t c0 : first m (fun c => ~ member m d zd c) s t -> t - s < Z.of_nat fuel ->
  exists c, span_loop fuel m d (fun c => c =? 0) s c0 = Some (t, c).
Proof.
  intros Ht Hf. unfold span_loop.
  run_loop (fun st : Z * Z => first m (fun c => ~ member m d zd c) (fst st) t) (fun st : Z * Z => t - fst st)
    (fun r : option (Z * Z) => exists c, r = Some (t, c)) r H;
    [|done|cbn; lia|destruct Ht; cbn; lia|by destruct H as (c & ->); exists c].
  intros [x c]. cbn [fst]. intros Hx. destruct (Z.eqb_spec (m x) 0) as [E|E].
  - exists c. do 2 f_equal. apply (first_here _ _ _ _ Hx). rewrite E. intros Hm. by apply member_nonzero in Hm.
  - destruct (find_in_spec (m x)) as (sp & -> & H1 & H2). destruct (member_dec m d zd (m x)) as [Hm|Hm].
    + rewrite (H1 Hm), (proj2 (Z.eqb_neq _ _) E). cbn [fst]. destruct (first_next _ _ _ _ Hx); [by intros []|].
      split; [done|lia].
    + rewrite (H2 Hm). cbn. exists sp. do 2 f_equal. by apply (first_here _ _ _ _ Hx).
Qed.

Lemma span_out_spec s t c0 : first m (fun c => c = 0 \/ member m d zd c) s t -> t - s < Z.of_nat fuel ->
  exists c, span_loop fuel m d (fun c => negb (c =? 0)) s c0 = Some (t, c) /\
    (m t <> 0 -> m c <> 0) /\ (m t = 0 -> s < t -> m c = 0).
Proof.
  intros Ht Hf. unfold span_loop.
  run_loop (fun st : Z * Z => first m (fun c => c = 0 \/ member m d zd c) (fst st) t /\ s <= fst st /\
      (s < fst st -> m (snd st) = 0)) (fun st : Z * Z => t - fst st)
    (fun r : option (Z * Z) => exists c, r = Some (t, c) /\ (m t <> 0 -> m c <> 0) /\ (m t = 0 -> s < t -> m c = 0)) r H;
    [|cbn; split; [done|]; split; lia|cbn; lia|destruct Ht; cbn; lia|destruct H as (c & -> & H); by exists c].
  intros [x c]. cbn [fst snd]. intros (Hx & Hge & Hc). destruct (Z.eqb_spec (m x) 0) as [E|E].
  - assert (x = t) as -> by (apply (first_here _ _ _ _ Hx); by left). exists c. split; [done|]. split; [done|].
    intros _. exact Hc.
  - destruct (find_in_spec (m x)) as (sp & -> & H1 & H2). destruct (member_dec m d zd (m x)) as [Hm|Hm].
    + rewrite (H1 Hm), (proj2 (Z.eqb_neq _ _) E). cbn [negb]. exists sp.
      assert (x = t) as -> by (apply (first_here _ _ _ _ Hx); by right).
      split; [done|]. split; [by rewrite (H1 Hm)|]. intros E0. by rewrite E0 in E.
    + rewrite (H2 Hm). cbn [negb Z.eqb fst snd]. destruct (first_next _ _ _ _ Hx); [tauto|].
      split; [|lia]. split; [done|]. split; [lia|]. intros _. by apply H2.
Qed.
Lemma wcspbrk_spec s t : first m (fun c => c = 0 \/ member m d zd c) s t -> t - s < Z.of_nat fuel ->
  wcspbrk fuel m s d = Some (if m t =? 0 then 0 else t).
Proof.
  intros Ht Hf. unfold wcspbrk.
  run_loop (fun x => first m (fun c => c = 0 \/ member m d zd c) x t) (fun x => t - x)
    (fun r : option Z => r = Some (if m t =? 0 then 0 else t)) r H;
    [|done|lia|destruct Ht; lia|by rewrite H].
  intros x Hx. destruct (Z.eqb_spec (m x) 0) as [E|E].
  - assert (x = t) as -> by (apply (first_here _ _ _ _ Hx); by left). by rewrite E.
  - destruct (find_in_spec (m x)) as (sp & -> & H1 & H2). destruct (member_dec m d zd (m x)) as [Hm|Hm].
    + rewrite (H1 Hm), (proj2 (Z.eqb_neq _ _) E).
      assert (x = t) as -> by (apply (first_here _ _ _ _ Hx); by right).
      by rewrite (proj2 (Z.eqb_neq _ _) E).
    + rewrite (H2 Hm). cbn. destruct (first_next _ _ _ _ Hx); [tauto|]. split; [done|lia].
Qed.

Lemma leading_skip s t : first m (fun c => ~ member m d zd c) s t -> t - s < Z.of_nat fuel ->
  leading fuel m d true s = Some (inl (m t, t + 1)).
Proof.
  intros Ht Hf. unfold leading.
  run_loop (fun x => first m (fun c => ~ member m d zd c) x t) (fun x => t - x)
    (fun r : option (Z * Z + mem * Z * Z) => r = Some (inl (m t, t + 1))) r H;
    [|done|lia|destruct Ht; lia|by rewrite H].
  intros x Hx. cbv zeta. destruct (find_in_spec (m x)) as (sp & -> & H1 & H2).
  destruct (member_dec m d zd (m x)) as [Hm|Hm].
  - rewrite (H1 Hm), (proj2 (Z.eqb_neq _ _) (member_nonzero _ Hm)). cbn [negb].
    destruct (first_next _ _ _ _ Hx); [by intros []|]. split; [done|lia].
  - rewrite (H2 Hm). cbn. by rewrite (first_here _ _ _ _ Hx Hm).
Qed.

Lemma leading_sep s :
  (member m d zd (m s) -> leading fuel m d false s = Some (inr (upd m s 0, s, s + 1))) /\
  (~ member m d zd (m s) -> leading fuel m d false s = Some (inl (m s, s + 1))).
Proof.
  destruct (find_in_spec (m s)) as (sp & E & H1 & H2). pose proof (member_nonzero (m s)) as Hnz.
  assert (Hpos : (0 < fuel)%nat) by (destruct Hd; lia). unfold leading.
  destruct fuel as [|f]; [lia|]. cbn [loop]. rewrite E. replace (s + 1 - 1) with s by lia. split; intros Hm.
  - by rewrite (H1 Hm), (proj2 (Z.eqb_neq _ _) (Hnz Hm)).
  - by rewrite (H2 Hm).
Qed.

Lemma rest_spec tok s e : first m (fun c => c = 0 \/ member m d zd c) s e -> e - s < Z.of_nat fuel ->
  rest fuel m d tok s = Some (if m e =? 0 then (m, tok, 0) else (upd m e 0, tok, e + 1)).
Proof.
  intros He Hf. unfold rest.
  run_loop (fun x => first m (fun c => c = 0 \/ member m d zd c) x e) (fun x => e - x)
    (fun r : tokenizing => r = Some (if m e =? 0 then (m, tok, 0) else (upd m e 0, tok, e + 1))) r H;
    [|done|lia|destruct He; lia|by rewrite H].
  intros x Hx. cbv zeta. destruct (find_or_nul_spec (m x)) as ([] & -> & Hb).
  - assert (x = e) as -> by (apply (first_here _ _ _ _ Hx); by apply Hb).
    replace (e + 1 - 1) with e by lia. by destruct (m e =? 0).
  - destruct (first_next _ _ _ _ Hx); [intros Hc; by apply Hb in Hc|]. split; [done|lia].
Qed.
End Span.

(** C38: strspn and strcspn (and wcsspn, wcscspn) return the length of the longest
    start of the string inside, respectively outside, the set; strpbrk and wcspbrk
    the first character of the set or NULL.  strtok_r, strtok and wcstok, given a
    string or resuming at *lasts, skip the delimiters, return the start of the token,
    put a terminator on the delimiter after it and leave *lasts behind it, or NULL at
    the end of the string; strsep does not skip, so it returns an empty token at a
    delimiter.  Nothing but the one delimiter is written. *)
Theorem span_token_correct m fuel d zd s t u e lasts :
  first m (fun b => b = 0) d zd ->
  first m (fun c => ~ member m d zd c) s t ->
  first m (fun c => c = 0 \/ member m d zd c) s u ->
  (m t <> 0 -> first m (fun c => c = 0 \/ member m d zd c) (t + 1) e) ->
  0 < s -> zd - d < Z.of_nat fuel -> t - s < Z.of_nat fuel -> u - s < Z.of_nat fuel ->
  e - t < Z.of_nat fuel ->
  let token := Some (if m t =? 0 then (m, 0, 0)
                     else if m e =? 0 then (m, t, 0) else (upd m e 0, t, e + 1)) in
  strspn fuel m s d = Some (t - s) /\ wcsspn fuel m s d = Some (t - s) /\
  strcspn fuel m s d = Some (u - s) /\ wcscspn fuel m s d = Some (u - s) /\
  strpbrk fuel m s d = Some (if m u =? 0 then 0 else u) /\
  wcspbrk fuel m s d = Some (if m u =? 0 then 0 else u) /\
  strtok_r fuel m s d lasts = token /\ strtok_r fuel m 0 d s = token /\
  strtok fuel m s d lasts = token /\ wcstok fuel m s d lasts = token /\ wcstok fuel m 0 d s = token /\
  strsep fuel m s d = Some (if m s =? 0 then (m, 0, 0)
                            else if m u =? 0 then (m, s, 0) else (upd m u 0, s, u + 1)).
Proof.
  intros Hd Ht Hu He Hs Hfd Hft Hfu Hfe token.
  assert (Htok : forall l, strtok_r_ fuel m s d l true = token /\ strtok_r_ fuel m 0 d s true = token).
  { intros l. unfold strtok_r_. rewrite (proj2 (Z.eqb_neq s 0)) by lia. cbn [andb Z.eqb].
    rewrite (leading_skip m fuel d zd Hd Hfd s t Ht Hft). cbn [mbind option_bind].
    unfold token. destruct (Z.eqb_spec (m t) 0) as [E|E]; [done|].
    replace (t + 1 - 1) with t by lia. by rewrite (rest_spec m fuel d zd Hd Hfd t (t + 1) e (He E)) by lia. }
  split_and!; try apply (Htok lasts).
  - unfold strspn. destruct (span_in_spec m fuel d zd Hd Hfd s t d Ht Hft) as (c & ->). done.
  - unfold wcsspn. destruct (span_in_spec m fuel d zd Hd Hfd s t d Ht Hft) as (c & ->). done.
  - unfold strcspn. destruct (span_out_spec m fuel d zd Hd Hfd s u d Hu Hfu) as (c & -> & _). done.
  - unfold wcscspn. destruct (span_out_spec m fuel d zd Hd Hfd s u d Hu Hfu) as (c & -> & _). done.
  - unfold strpbrk. destruct (Z.eqb_spec (m s) 0) as [E|E].
    + assert (s = u) as -> by (apply (first_here _ _ _ _ Hu); by left). by rewrite E.
    + destruct (span_out_spec m fuel d zd Hd Hfd s u d Hu Hfu) as (c & -> & H1 & H2). cbn [mbind option_bind].
      destruct (Z.eqb_spec (m u) 0) as [Eu|Eu].
      * rewrite H2; [done|done|]. destruct Hu as (Hle & _). destruct (Z.eq_dec s u); [congruence|lia].
      * by rewrite (proj2 (Z.eqb_neq _ _) (H1 Eu)).
  - by apply wcspbrk_spec with zd.
  - unfold strsep, strtok_r_. rewrite (proj2 (Z.eqb_neq s 0)) by lia. cbn [andb].
    destruct (leading_sep m fuel d zd Hd Hfd s) as [Hin Hout]. destruct (member_dec m d zd (m s)) as [Hm|Hm].
    + rewrite (Hin Hm). cbn [mbind option_bind]. pose proof (member_nonzero m d zd Hd _ Hm) as E.
      assert (s = u) as -> by (apply (first_here _ _ _ _ Hu); by right). by rewrite !(proj2 (Z.eqb_neq _ _) E).
    + rewrite (Hout Hm). cbn [mbind option_bind]. destruct (Z.eqb_spec (m s) 0) as [E|E]; [done|].
      replace (s + 1 - 1) with s by lia.
      destruct (first_next _ _ _ _ Hu) as [Hu' _]; [tauto|].
      by rewrite (rest_spec m fuel d zd Hd Hfd s (s + 1) u Hu') by lia.
Qed.

(** ",,ab;c" and the delimiters ",;" *)
Definition fields : mem := bytes_at 1000 [44; 59; 0; 0; 44; 44; 97; 98; 59; 99; 0].

Lemma first_concrete m (P : Z -> Prop) a z : a <= z -> P (m z) ->
  Forall (fun x => ~ P (m x)) (seqZ a (z - a)) -> first m P a z.
Proof.
  intros H1 H2 H3. split; [done|]. split; [done|]. intros x Hx. rewrite Forall_forall in H3.
  apply H3, elem_of_seqZ. lia.
Qed.

Lemma span_token_correct_witness :
  strspn 20 fields 1004 1000 = Some 2 /\ strpbrk 20 fields 1006 1000 = Some 1008 /\
  strtok_r 20 fields 1004 1000 0 = Some (upd fields 1008 0, 1006, 1009).
Proof.
  assert (Hd : first fields (fun b => b = 0) 1000 1002)
    by (apply first_concrete; [lia|reflexivity|]; repeat constructor; discriminate).
  assert (Hmem : forall c, member fields 1000 1002 c <-> c = 44 \/ c = 59).
  { intros c. split.
    - intros (x & Hx & <-). assert (x = 1000 \/ x = 1001) as [-> | ->] by lia; [by left|by right].
    - intros [-> | ->]; [exists 1000|exists 1001]; (split; [lia|reflexivity]). }
  assert (Ht : forall s, 1004 <= s <= 1006 -> first fields (fun c => ~ member fields 1000 1002 c) s 1006).
  { intros s Hs. split; [lia|]. split; [rewrite Hmem; by intros [|]|]. intros x Hx Hn. apply Hn, Hmem.
    assert (x = 1004 \/ x = 1005) as [-> | ->] by lia; by left. }
  assert (Hu : forall s, 1006 <= s <= 1008 ->
    first fields (fun c => c = 0 \/ member fields 1000 1002 c) s 1008).
  { intros s Hs. split; [lia|]. split; [right; apply Hmem; by right|]. intros x Hx Hn. rewrite Hmem in Hn.
    assert (x = 1006 \/ x = 1007) as [-> | ->] by lia; by destruct Hn as [|[|]]. }
  assert (Hu4 : first fields (fun c => c = 0 \/ member fields 1000 1002 c) 1004 1004).
  { split; [lia|]. split; [right; apply Hmem; by left|]. intros; lia. }
  pose proof (span_token_correct fields 20 1000 1002 1004 1006 1004 1008 0 Hd (Ht 1004 ltac:(lia)) Hu4
    (fun _ => Hu 1007 ltac:(lia)) ltac:(lia) ltac:(lia) ltac:(lia) ltac:(lia) ltac:(lia)) as H1.
  pose proof (span_token_correct fields 20 1000 1002 1006 1006 1008 1008 0 Hd (Ht 1006 ltac:(lia))
    (Hu 1006 ltac:(lia)) (fun _ => Hu 1007 ltac:(lia)) ltac:(lia) ltac:(lia) ltac:(lia) ltac:(lia) ltac:(lia)) as H2.
  cbv zeta in H1, H2. destruct H1 as (Hs1 & _ & _ & _ & _ & _ & Hs7 & _).
  destruct H2 as (_ & _ & _ & _ & Hp & _). split; [exact Hs1|]. split; [exact Hp|exact Hs7].
Defined.
