(* ===== verification/CWide.v ===== *)
(** The wide-character strings of the C library (libc/newlib/libc/string/wcs*.c,
    wmem*.c, wcp*.c) and strnlen.

    The functions read and write memory only as wchar_t: a cell of [mem] is a
    wchar_t, a 32-bit signed integer, and pointers count in wchar_t.  Loops that are
    the same as in the byte functions are theirs ([skip_bytes], [copy_string],
    [copy_n_string], [pad_zeros], [append_room]). *)

From S2P Require Import Prelude CMem CSearch CCopy.

Definition wcslen (fuel : nat) (m : mem) (s : Z) : option Z :=
  p ← skip_bytes fuel m s; Some (p - s).

(** while ( *p && maxlen-- > 0) p++ *)
Definition wcsnlen (fuel : nat) (m : mem) (s maxlen : Z) : option Z :=
  p ← loop fuel (fun '(p, maxlen) =>
        if negb (m p =? 0) && (0 <? maxlen) then inl (p + 1, maxlen - 1) else inr p) (s, maxlen);
  Some (p - s).
(** while (n-- > 0 && *str) str++ *)
Definition strnlen (fuel : nat) (m : mem) (str n : Z) : option Z :=
  p ← loop fuel (fun '(str, n) =>
        if (0 <? n) && negb (m str =? 0) then inl (str + 1, n - 1) else inr str) (str, n);
  Some (p - str).

Definition wcschr (fuel : nat) (m : mem) (s c : Z) : option Z :=
  loop fuel (fun p => if m p =? c then inr p else if m p =? 0 then inr 0 else inl (p + 1)) s.

Definition wcsrchr (fuel : nat) (m : mem) (s c : Z) : option Z :=
  p ← skip_bytes fuel m s;
  loop fuel (fun p => if s <=? p then (if m p =? c then inr p else inl (p - 1)) else inr 0) p.

Definition wmemchr (fuel : nat) (m : mem) (s c n : Z) : option Z :=
  loop fuel (fun '(s, i) =>
    if i <? n then (if m s =? c then inr s else inl (s + 1, i + 1)) else inr 0) (s, 0).

(** The results are int differences. *)
Definition wcscmp (fuel : nat) (m : mem) (s1 s2 : Z) : option Z :=
  loop fuel (fun '(s1, s2) =>
    if m s1 =? m s2 then (if m s1 =? 0 then inr 0 else inl (s1 + 1, s2 + 1))
    else inr (s32 (m s1 - m s2))) (s1, s2).

Definition wcsncmp (fuel : nat) (m : mem) (s1 s2 n : Z) : option Z :=
  if n =? 0 then Some 0
  else loop fuel (fun '(s1, s2, n) =>
    if negb (m s1 =? m s2) then inr (s32 (m s1 - m s2))
    else if m s1 =? 0 then inr 0
    else if n - 1 =? 0 then inr 0 else inl (s1 + 1, s2 + 1, n - 1)) (s1, s2, n).

Definition wmemcmp (fuel : nat) (m : mem) (s1 s2 n : Z) : option Z :=
  loop fuel (fun '(s1, s2, i) =>
    if i <? n then
      if negb (m s1 =? m s2) then inr (if m s2 <? m s1 then 1 else -1)
      else inl (s1 + 1, s2 + 1, i + 1)
    else inr 0) (s1, s2, 0).

(** while ( *q) *p++ = *q++; gives memory and p *)
Definition copy_chars (fuel : nat) : mem * Z * Z -> option (mem * Z) :=
  loop fuel (fun '(m, p, q) => if m q =? 0 then inr (m, p) else inl (upd m p (m q), p + 1, q + 1)).

Definition wcscpy (fuel : nat) (m : mem) (s1 s2 : Z) : copying :=
  let m := upd m s1 0 in
  '(m, p) ← copy_chars fuel (m, s1, s2);
  Some (upd m p 0, s1).

Definition wcscat (fuel : nat) (m : mem) (s1 s2 : Z) : copying :=
  p ← skip_bytes fuel m s1;
  '(m, q) ← copy_chars fuel (m, p, s2);
  Some (upd m q 0, s1).

Definition wcsncat (fuel : nat) (m : mem) (s1 s2 n : Z) : copying :=
  p ← skip_bytes fuel m s1;
  '(m, q) ← loop fuel (fun '(m, q, r, n) =>
      if negb (m r =? 0) && negb (n =? 0) then inl (upd m q (m r), q + 1, r + 1, n - 1)
      else inr (m, q)) (m, p, s2, n);
  Some (upd m q 0, s1).

Definition wcpcpy (fuel : nat) (m : mem) (s1 s2 : Z) : copying :=
  '(m, s1, _) ← copy_string fuel (m, s1, s2); Some (m, s1 - 1).

Definition wcsncpy (fuel : nat) (m : mem) (s1 s2 n : Z) : copying :=
  '(m, d, n, _) ← copy_n_string fuel (m, s1, s2, n);
  '(m, _) ← pad_zeros fuel (m, d, n);
  Some (m, s1).

Definition wcpncpy (fuel : nat) (m : mem) (dst src count : Z) : copying :=
  '(m, d, n, ret) ← copy_n_string fuel (m, dst, src, count);
  '(m, d) ← pad_zeros fuel (m, d, n);
  Some (m, match ret with Some r => if r =? 0 then d else r | None => d end).

(** The text of strlcpy. *)
Definition wcslcpy (fuel : nat) (m : mem) (dst src siz : Z) : copying := strlcpy fuel m dst src siz.

Definition wcslcat (fuel : nat) (m : mem) (dst src siz : Z) : copying :=
  d ← loop fuel (fun '(d, n) =>
        if negb (m d =? 0) && negb (n =? 0) then inl (d + 1, n - 1) else inr d) (dst, siz);
  let dlen := d - dst in
  let n := siz - dlen in
  if n =? 0 then
    l ← wcslen fuel m src;
    Some (m, dlen + l)
  else
    '(m, d, s) ← append_room fuel (m, d, src, n);
    Some (upd m d 0, dlen + (s - src)).

Definition wmemset (fuel : nat) (m : mem) (s c n : Z) : copying :=
  m ← loop fuel (fun '(m, p, i) => if i <? n then inl (upd m p c, p + 1, i + 1) else inr m) (m, s, 0);
  Some (m, s).

(** ** Searching and comparing *)

Section Search.
Context (m : mem) (fuel : nat).

Lemma wcsnlen_spec s n k : prefix_len m s n k -> n < Z.of_nat fuel ->
  wcsnlen fuel m s n = Some k /\ strnlen fuel m s n = Some k.
Proof.
  intros (Hk & Hnz & Hend) Hf.
  assert (Hstop : forall p x, s <= p <= s + k -> x = n - (p - s) ->
    (negb (m p =? 0) && (0 <? x) = true -> p < s + k) /\ (negb (m p =? 0) && (0 <? x) = false -> p = s + k)).
  { intros p x Hp ->. destruct (Z.eqb_spec (m p) 0) as [E|E], (Z.ltb_spec 0 (n - (p - s))); cbn; split; intros; try done.
    - destruct (Z.eq_dec p (s + k)); [done|]. exfalso. apply (Hnz (p - s)); [lia|].
      by replace (s + (p - s)) with p by lia.
    - destruct (Z.eq_dec p (s + k)); [done|lia].
    - destruct (Z.eq_dec p (s + k)) as [->|]; [|lia]. exfalso. apply E. apply Hend. lia.
    - lia. }
  unfold wcsnlen, strnlen. split.
  - run_loop (fun st : Z * Z => s <= fst st <= s + k /\ snd st = n - (fst st - s))
      (fun st : Z * Z => s + k - fst st) (fun p => p = s + k) r H; [|cbn; lia|cbn; lia|cbn; lia|].
    + intros [p x] [Hp Hx]. cbn [fst snd] in *. destruct (Hstop p x Hp Hx) as [H1 H2].
      destruct (negb _ && _); [specialize (H1 eq_refl); cbn; lia|by apply H2].
    + subst r. cbn. f_equal. lia.
  - run_loop (fun st : Z * Z => s <= fst st <= s + k /\ snd st = n - (fst st - s))
      (fun st : Z * Z => s + k - fst st) (fun p => p = s + k) r H; [|cbn; lia|cbn; lia|cbn; lia|].
    + intros [p x] [Hp Hx]. cbn [fst snd] in *. destruct (Hstop p x Hp Hx) as [H1 H2].
      rewrite andb_comm. destruct (negb _ && _); [specialize (H1 eq_refl); cbn; lia|by apply H2].
    + subst r. cbn. f_equal. lia.
Qed.

Lemma wcschr_spec s c t : first m (fun b => b = c \/ b = 0) s t -> t - s < Z.of_nat fuel ->
  wcschr fuel m s c = Some (if m t =? c then t else 0).
Proof.
  intros Ht Hf. unfold wcschr.
  run_loop (fun p => first m (fun b => b = c \/ b = 0) p t) (fun p => t - p)
    (fun r => r = if m t =? c then t else 0) r H; [|done|lia|destruct Ht; lia|by rewrite H].
  intros p Hp. destruct (Z.eqb_spec (m p) c) as [E|E].
  - assert (p = t) as -> by (apply (first_here _ _ _ _ Hp); by left). by rewrite (proj2 (Z.eqb_eq _ _) E).
  - destruct (Z.eqb_spec (m p) 0) as [E0|E0].
    + assert (p = t) as -> by (apply (first_here _ _ _ _ Hp); by right). by rewrite (proj2 (Z.eqb_neq _ _) E).
    + destruct (first_next _ _ _ _ Hp); [tauto|]. split; [done|lia].
Qed.

Lemma wcsrchr_spec s z c : first m (fun b => b = 0) s z -> 0 < s -> z - s + 1 < Z.of_nat fuel ->
  exists r, wcsrchr fuel m s c = Some r /\ finds_last m c s (z - s + 1) r.
Proof.
  intros Hz Hs Hf. unfold wcsrchr. rewrite (skip_bytes_spec m fuel s z Hz) by lia. cbn [mbind option_bind].
  run_loop (fun p => s - 1 <= p <= z /\ forall x, p < x <= z -> m x <> c) (fun p => p - (s - 1))
    (fun r => finds_last m c s (z - s + 1) r) r H;
    [|split; [destruct Hz; lia|intros; lia]|lia|destruct Hz; lia|by exists r].
  intros p (Hp & Hn). destruct (Z.leb_spec s p); [destruct (Z.eqb_spec (m p) c)|].
  - left. split; [lia|]. split; [done|]. intros x Hx. apply Hn. lia.
  - split; [|lia]. split; [lia|]. intros x Hx. destruct (Z.eq_dec x p) as [->|]; [done|]. apply Hn. lia.
  - right. split; [|done]. intros x Hx. apply Hn. lia.
Qed.

Lemma wmemchr_spec s c n : 0 <= n < Z.of_nat fuel ->
  exists r, wmemchr fuel m s c n = Some r /\ finds m c s n r.
Proof.
  intros Hf. unfold wmemchr.
  run_loop (fun st : Z * Z => let '(p, i) := st in p = s + i /\ 0 <= i <= n /\ forall x, s <= x < p -> m x <> c)
    (fun st : Z * Z => n - snd st) (fun r => finds m c s n r) r H; [| |cbn; lia|cbn; lia|by exists r].
  - intros [p i] (-> & Hi & Hn). destruct (Z.ltb_spec i n); [destruct (Z.eqb_spec (m (s + i)) c)|].
    + left. split; [|lia]. split; [lia|]. by split.
    + split; [|cbn; lia]. split; [lia|]. split; [lia|]. intros x Hx.
      destruct (Z.eq_dec x (s + i)) as [->|]; [done|]. apply Hn. lia.
    + right. split; [|done]. intros x Hx. apply Hn. lia.
  - split; [lia|]. split; [lia|]. intros; lia.
Qed.

Lemma wcscmp_spec a b i : stops_at m a b i -> i < Z.of_nat fuel ->
  wcscmp fuel m a b = Some (s32 (m (a + i) - m (b + i))).
Proof.
  intros (Hi & Hstop & Hsame) Hf. unfold wcscmp.
  run_loop (fun st : Z * Z => exists j, st = (a + j, b + j) /\ 0 <= j <= i) (fun st : Z * Z => a + i - fst st)
    (fun r => r = s32 (m (a + i) - m (b + i))) r H;
    [|exists 0; split; [by rewrite !Z.add_0_r|lia]|cbn; lia|cbn; lia|by rewrite H].
  intros [p q] (j & [= -> ->] & Hj). destruct (Z.eq_dec j i) as [->|].
  - destruct (Z.eqb_spec (m (a + i)) (m (b + i))) as [E|E]; [|done].
    destruct Hstop as [E0|]; [|done]. by rewrite <- E, E0.
  - destruct (Hsame j ltac:(lia)) as [H0 ->]. rewrite Z.eqb_refl.
    destruct (Hsame j ltac:(lia)) as [_ E]. rewrite E in H0. rewrite (proj2 (Z.eqb_neq _ _) H0).
    split; [|cbn; lia]. exists (j + 1). split; [by rewrite !Z.add_assoc|lia].
Qed.
Lemma wcsncmp_spec a b n : 0 <= n < Z.of_nat fuel ->
  exists r, wcsncmp fuel m a b n = Some r /\
    ((exists i, i < n /\ stops_at m a b i /\ r = s32 (m (a + i) - m (b + i))) \/
     ((forall j, 0 <= j < n -> m (a + j) <> 0 /\ m (a + j) = m (b + j)) /\ r = 0)).
Proof.
  intros Hn. unfold wcsncmp. destruct (Z.eqb_spec n 0) as [->|]; [exists 0; split; [done|]; right; split; [lia|done]|].
  run_loop (fun st : Z * Z * Z => exists j, st = (a + j, b + j, n - j) /\ 0 <= j < n /\
      forall i, 0 <= i < j -> m (a + i) <> 0 /\ m (a + i) = m (b + i))
    (fun st : Z * Z * Z => snd st)
    (fun r => (exists i, i < n /\ stops_at m a b i /\ r = s32 (m (a + i) - m (b + i))) \/
     ((forall j, 0 <= j < n -> m (a + j) <> 0 /\ m (a + j) = m (b + j)) /\ r = 0)) r H;
    [|exists 0; rewrite !Z.add_0_r, Z.sub_0_r; split; [done|]; split; lia|cbn; lia|cbn; lia|by exists r].
  intros [[p q] x] (j & [= -> -> ->] & Hj & Hs).
  destruct (Z.eqb_spec (m (a + j)) (m (b + j))) as [E|E]; cbn [negb].
  - destruct (Z.eqb_spec (m (a + j)) 0) as [E0|E0].
    + left. exists j. split; [lia|]. split; [split; [lia|]; split; [by left|done]|]. by rewrite <- E, E0.
    + assert (Hs' : forall i, 0 <= i < j + 1 -> m (a + i) <> 0 /\ m (a + i) = m (b + i)).
      { intros i Hi. destruct (Z.eq_dec i j) as [->|]; [done|]. apply Hs. lia. }
      destruct (Z.eqb_spec (n - j - 1) 0).
      * right. split; [|done]. intros i Hi. apply Hs'. lia.
      * split; [|cbn; lia]. exists (j + 1). split; [f_equal; [f_equal; lia|lia]|]. split; [lia|done].
  - left. exists j. split; [lia|]. split; [|done]. split; [lia|]. split; [by right|done].
Qed.

Lemma wmemcmp_spec a b n : 0 <= n < Z.of_nat fuel ->
  exists r, wmemcmp fuel m a b n = Some r /\
    ((exists i, 0 <= i < n /\ (forall j, 0 <= j < i -> m (a + j) = m (b + j)) /\
        m (a + i) <> m (b + i) /\ r = if m (b + i) <? m (a + i) then 1 else -1) \/
     ((forall j, 0 <= j < n -> m (a + j) = m (b + j)) /\ r = 0)).
Proof.
  intros Hn. unfold wmemcmp.
  run_loop (fun st : Z * Z * Z => exists j, st = (a + j, b + j, j) /\ 0 <= j <= n /\
      forall i, 0 <= i < j -> m (a + i) = m (b + i)) (fun st : Z * Z * Z => n - snd st)
    (fun r => (exists i, 0 <= i < n /\ (forall j, 0 <= j < i -> m (a + j) = m (b + j)) /\
        m (a + i) <> m (b + i) /\ r = if m (b + i) <? m (a + i) then 1 else -1) \/
     ((forall j, 0 <= j < n -> m (a + j) = m (b + j)) /\ r = 0)) r H;
    [|exists 0; rewrite !Z.add_0_r; split; [done|]; split; lia|cbn; lia|cbn; lia|by exists r].
  intros [[p q] x] (j & [= -> -> ->] & Hj & Hs). destruct (Z.ltb_spec j n).
  - destruct (Z.eqb_spec (m (a + j)) (m (b + j))) as [E|E]; cbn [negb].
    + split; [|cbn; lia]. exists (j + 1). split; [f_equal; f_equal; lia|]. split; [lia|].
      intros i Hi. destruct (Z.eq_dec i j) as [->|]; [done|]. apply Hs. lia.
    + left. exists j. split; [lia|]. done.
  - right. split; [|done]. intros i Hi. apply Hs. lia.
Qed.
End Search.

(** ** Copying *)

Section Loops.
Context (m : mem) (fuel : nat).

Lemma copied_0 d s : meq m (copied m d s 0).
Proof. intros x. symmetry. apply copied_out. lia. Qed.

(** The loop that copies up to, not including, the terminator. *)
Lemma copy_chars_spec m1 d s z : first m (fun b => b = 0) s z -> forward d s (z - s + 1) ->
  z - s < Z.of_nat fuel -> meq m1 m ->
  exists m', copy_chars fuel (m1, d, s) = Some (m', d + (z - s)) /\ meq m' (copied m d s (z - s)).
Proof.
  intros Hz Hfw Hf Hm1. pose proof Hz as (Hsz & Hz0 & Hnz). unfold copy_chars.
  run_loop (fun st : mem * Z * Z => exists m' j, st = (m', d + j, s + j) /\ 0 <= j <= z - s /\ meq m' (copied m d s j))
    (fun st : mem * Z * Z => z - snd st)
    (fun r : mem * Z => snd r = d + (z - s) /\ meq (fst r) (copied m d s (z - s))) r H;
    [| |cbn; lia|cbn; lia|].
  - intros [[m' p] q] (? & j & [= <- -> ->] & Hj & He).
    destruct (copied_byte m m' d s (z - s + 1) j He Hfw) as [Ec Hc]; [lia|lia|].
    destruct (Z.eqb_spec (m' (s + j)) 0) as [E|E].
    + assert (j = z - s) as ->.
      { destruct (Z.eq_dec j (z - s)); [done|]. exfalso. apply (Hnz (s + j)); [lia|congruence]. }
      done.
    + assert (s + j <> z) by congruence. split; [|cbn; lia].
      exists (upd m' (d + j) (m' (s + j))), (j + 1).
      split; [f_equal; [f_equal|]; lia|]. split; [lia|done].
  - exists m1, 0. rewrite !Z.add_0_r. split; [done|]. split; [lia|]. intros x. rewrite Hm1. apply copied_0.
  - destruct r as [m' p]. cbn [fst snd] in H. destruct H as [-> H]. by exists m'.
Qed.

Lemma terminated_end d s z : first m (fun b => b = 0) s z ->
  meq (terminated m d s (z - s)) (copied m d s (z - s + 1)).
Proof.
  intros (Hsz & Hz0 & _) x. unfold terminated, copied. byte_cases; cbn [andb]; try lia; try done.
  replace (s + (x - d)) with z by lia. done.
Qed.
End Loops.

Section Copying.
Context (m : mem) (fuel : nat).

Lemma wcscpy_spec d s z : first m (fun b => b = 0) s z -> apart d (z - s + 1) s z ->
  z - s < Z.of_nat fuel ->
  exists m', wcscpy fuel m d s = Some (m', d) /\ meq m' (copied m d s (z - s + 1)).
Proof.
  intros Hz Hap Hf. pose proof Hz as (Hsz & Hz0 & Hnz). unfold wcscpy. set (m1 := upd m d 0).
  assert (Hsame : forall x, s <= x <= z -> m1 x = m x).
  { intros x Hx. unfold m1, upd. destruct (Z.eqb_spec x d); [destruct Hap; lia|done]. }
  assert (Hz1 : first m1 (fun b => b = 0) s z).
  { split; [done|]. split; [by rewrite Hsame by lia|]. intros x Hx. rewrite Hsame by lia. by apply Hnz. }
  destruct (copy_chars_spec m1 fuel m1 d s z Hz1) as (m' & -> & He); [destruct Hap; unfold forward; lia|lia|done|].
  cbn [mbind option_bind]. eexists. split; [done|]. intros x.
  rewrite (terminated_upd m1 m' d s (z - s) He), (terminated_end m1 d s z Hz1).
  unfold copied. byte_cases; cbn [andb]; try done; [apply Hsame; lia|..];
    unfold m1, upd; (destruct (Z.eqb_spec x d); [lia|done]).
Qed.

Lemma wcpcpy_spec d s z : first m (fun b => b = 0) s z -> forward d s (z - s + 1) ->
  z - s < Z.of_nat fuel ->
  exists m', wcpcpy fuel m d s = Some (m', d + (z - s)) /\ meq m' (copied m d s (z - s + 1)).
Proof.
  intros Hz Hfw Hf. pose proof Hz as (Hsz & Hz0 & Hnz). unfold wcpcpy, copy_string.
  run_loop (fun st : mem * Z * Z => exists m' j, st = (m', d + j, s + j) /\ 0 <= j <= z - s /\ meq m' (copied m d s j))
    (fun st : mem * Z * Z => z - snd st)
    (fun r : mem * Z * Z => snd (fst r) = d + (z - s) + 1 /\ meq (fst (fst r)) (copied m d s (z - s + 1))) r H;
    [| |cbn; lia|cbn; lia|].
  - intros [[m' p] q] (? & j & [= <- -> ->] & Hj & He). cbv zeta.
    destruct (copied_byte m m' d s (z - s + 1) j He Hfw) as [Ec Hc]; [lia|lia|].
    destruct (Z.eqb_spec (m' (s + j)) 0) as [E|E].
    + assert (j = z - s) as ->.
      { destruct (Z.eq_dec j (z - s)); [done|]. exfalso. apply (Hnz (s + j)); [lia|congruence]. }
      done.
    + assert (s + j <> z) by congruence. split; [|cbn; lia].
      exists (upd m' (d + j) (m' (s + j))), (j + 1). split; [f_equal; [f_equal|]; lia|]. split; [lia|done].
  - exists m, 0. rewrite !Z.add_0_r. split; [done|]. split; [lia|]. apply copied_0.
  - destruct r as [[m' p] q]. cbn [fst snd] in H. destruct H as [-> H]. cbn [mbind option_bind].
    exists m'. split; [do 2 f_equal; lia|done].
Qed.

Lemma wcscat_spec d zd s z : first m (fun b => b = 0) d zd -> first m (fun b => b = 0) s z ->
  forward zd s (z - s + 1) -> z - s < Z.of_nat fuel -> zd - d < Z.of_nat fuel ->
  exists m', wcscat fuel m d s = Some (m', d) /\ meq m' (copied m zd s (z - s + 1)).
Proof.
  intros Hd Hz Hfw Hf Hfd. unfold wcscat. rewrite (skip_bytes_spec m fuel d zd Hd Hfd). cbn [mbind option_bind].
  destruct (copy_chars_spec m fuel m zd s z Hz Hfw Hf (fun _ => eq_refl)) as (m' & -> & He). cbn [mbind option_bind].
  eexists. split; [done|]. by rewrite (terminated_upd m m' zd s (z - s) He), (terminated_end m zd s z Hz).
Qed.

Lemma wcsncat_spec d zd s n k : first m (fun b => b = 0) d zd -> prefix_len m s n k ->
  forward zd s (k + 1) -> n < Z.of_nat fuel -> zd - d < Z.of_nat fuel ->
  exists m', wcsncat fuel m d s n = Some (m', d) /\ meq m' (terminated m zd s k).
Proof.
  intros Hd (Hk & Hnz & Hend) Hfw Hf Hfd. unfold wcsncat.
  rewrite (skip_bytes_spec m fuel d zd Hd Hfd). cbn [mbind option_bind].
  run_loop (fun st : mem * Z * Z * Z => exists m' j, st = (m', zd + j, s + j, n - j) /\ 0 <= j <= k /\
      meq m' (copied m zd s j)) (fun st : mem * Z * Z * Z => snd st)
    (fun r : mem * Z => snd r = zd + k /\ meq (fst r) (copied m zd s k)) r H; [| |cbn; lia|cbn; lia|].
  - intros [[[m' q] r] x] (? & j & [= <- -> -> ->] & Hj & He).
    destruct (copied_byte m m' zd s (k + 1) j He Hfw) as [Ec Hc]; [lia|lia|].
    destruct (Z.eqb_spec (m' (s + j)) 0) as [E|E], (Z.eqb_spec (n - j) 0) as [E0|E0]; cbn [negb andb].
    + assert (j = k) as -> by lia. done.
    + assert (j = k) as ->; [|done]. destruct (Z.eq_dec j k); [done|]. exfalso. apply (Hnz j); [lia|congruence].
    + assert (j = k) as -> by lia. done.
    + assert (j < k).
      { destruct (Z.eq_dec j k) as [->|]; [|lia]. exfalso. apply E. rewrite Ec. apply Hend. lia. }
      split; [|cbn; lia]. exists (upd m' (zd + j) (m' (s + j))), (j + 1).
      split; [f_equal; [f_equal; [f_equal|]|]; lia|]. split; [lia|done].
  - exists m, 0. rewrite !Z.add_0_r, Z.sub_0_r. split; [done|]. split; [lia|]. apply copied_0.
  - destruct r as [m' q]. cbn [fst snd] in H. destruct H as [-> H]. cbn [mbind option_bind].
    eexists. split; [done|]. by apply terminated_upd.
Qed.

Lemma wcsncpy_spec d s count k : prefix_len m s count k -> forward d s (Z.min (k + 1) count) ->
  0 < d -> count < Z.of_nat fuel ->
  (exists m', wcsncpy fuel m d s count = Some (m', d) /\ meq m' (padded m d s k count)) /\
  (exists m', wcpncpy fuel m d s count = Some (m', d + k) /\ meq m' (padded m d s k count)).
Proof.
  intros Hp Hf Hd Hfuel. pose proof Hp as (Hk & _).
  destruct (copy_pad_spec m fuel d s count k (m, d, s, count) Hp Hf Hfuel)
    as (m1 & d1 & n1 & m2 & E2 & E3 & Hm2).
  { exists 0. rewrite !Z.add_0_r, Z.sub_0_r. repeat (split; [lia|]). apply copied_0. }
  unfold wcsncpy, wcpncpy. rewrite E2. cbn [mbind option_bind].
  rewrite E3. cbn [mbind option_bind]. split; exists m2; [done|]. split; [|done].
  destruct (Z.ltb_spec k count); [by zdecide|]. do 2 f_equal. lia.
Qed.

Lemma wmemset_spec s c n : 0 <= n < Z.of_nat fuel ->
  exists m', wmemset fuel m s c n = Some (m', s) /\
    forall x, m' x = if (s <=? x) && (x <? s + n) then c else m x.
Proof.
  intros Hn. unfold wmemset.
  run_loop (fun st : mem * Z * Z => let '(m', p, i) := st in p = s + i /\ 0 <= i <= n /\
      forall x, m' x = if (s <=? x) && (x <? s + i) then c else m x) (fun st : mem * Z * Z => n - snd st)
    (fun m' : mem => forall x, m' x = if (s <=? x) && (x <? s + n) then c else m x) r H;
    [| |cbn; lia|cbn; lia|by exists r].
  - intros [[m' p] i] (-> & Hi & Hm'). destruct (Z.ltb_spec i n).
    + split; [|cbn; lia]. split; [lia|]. split; [lia|]. intros x. unfold upd. rewrite Hm'.
      byte_cases; cbn [andb]; try lia; done.
    + by replace i with n in Hm' by lia.
  - split; [lia|]. split; [lia|]. intros x. byte_cases; cbn [andb]; try lia; done.
Qed.

Lemma wcslcat_spec d zd s z siz : first m (fun b => b = 0) d zd -> first m (fun b => b = 0) s z ->
  0 <= siz -> apart d (Z.max siz (zd - d + 1)) s z -> z - s + zd - d + siz + 2 < Z.of_nat fuel ->
  exists m', wcslcat fuel m d s siz = Some (m', Z.min siz (zd - d) + (z - s)) /\
    meq m' (if siz <=? zd - d then m
            else terminated m zd s (Z.min (z - s) (siz - (zd - d) - 1))).
Proof.
  intros Hd Hz Hs Hap Hf. pose proof Hd as (Hdz & Hd0 & Hdnz). pose proof Hz as (Hsz & Hz0 & Hnz).
  unfold wcslcat. set (e := Z.min siz (zd - d)).
  run_loop (fun st : Z * Z => let '(d', n') := st in d <= d' <= d + e /\ n' = siz - (d' - d))
    (fun st : Z * Z => d + e - st.1) (fun d' => d' = d + e) r Hr; [| |cbn; lia|cbn; lia|].
  { intros [d' n'] (Hd' & ->). destruct (Z.eqb_spec (m d') 0) as [E|E]; cbn [negb andb].
    - destruct (Z.eq_dec d' (d + e)); [done|]. exfalso. apply (Hdnz d'); [lia|done].
    - destruct (Z.eqb_spec (siz - (d' - d)) 0); cbn [negb]; [lia|].
      assert (d' <> zd) by congruence. split; [|cbn; lia]. split; [lia|]. lia. }
  { cbn. unfold e. lia. }
  subst r. cbn [mbind option_bind]. replace (d + e - d) with e by lia.
  destruct (Z.eqb_spec (siz - e) 0) as [Hfull|Hroom].
  - unfold wcslen. rewrite (skip_bytes_spec m fuel s z Hz) by lia. cbn [mbind option_bind]. exists m.
    rewrite (proj2 (Z.leb_le siz (zd - d))) by (unfold e in *; lia). done.
  - assert (He : e = zd - d) by (unfold e in *; lia). rewrite He in *.
    rewrite (proj2 (Z.leb_gt siz (zd - d))) by lia. replace (d + (zd - d)) with zd by lia.
    destruct (append_room_spec m fuel zd s z (siz - (zd - d)) Hz) as (m' & -> & Hm');
      [lia|destruct Hap; [left|right]; lia|lia|].
    cbn [mbind option_bind]. eexists. split; [reflexivity|]. by apply terminated_upd.
Qed.
End Copying.

Lemma prefix_len_le m s z n k : first m (fun b => b = 0) s z -> prefix_len m s n k -> k <= z - s.
Proof.
  intros (Hsz & Hz & _) (_ & Hnz & _). destruct (Z.le_gt_cases k (z - s)); [done|]. exfalso.
  apply (Hnz (z - s)); [lia|]. by replace (s + (z - s)) with z by lia.
Qed.

Lemma first_before m (P Q : Z -> Prop) s z t :
  first m P s z -> (forall b, P b -> Q b) -> first m Q s t -> t <= z.
Proof.
  intros (Hsz & Hz & _) HPQ (_ & _ & Hn). destruct (Z.le_gt_cases t z); [done|]. exfalso.
  apply (Hn z); [lia|]. by apply HPQ.
Qed.

(** On a string that ends at [z] and a destination string that ends at [zd] in
    memory of its own, the wide-character functions terminate and do what their
    byte counterparts do: lengths, first and last occurrences, comparison at the
    first difference; the copies write exactly the string and its terminator, the
    bounded prefix, or the prefix padded with zeros, and nothing else. *)
Theorem wide_strings_correct m fuel d zd s z n k :
  first m (fun b => b = 0) d zd -> first m (fun b => b = 0) s z -> prefix_len m s n k ->
  0 < d -> 0 < s -> apart d (Z.max n (zd - d + (z - s) + 1)) s z ->
  zd - d + (z - s) + n + 3 < Z.of_nat fuel ->
  (wcslen fuel m s = Some (z - s) /\ wcsnlen fuel m s n = Some k /\ strnlen fuel m s n = Some k /\
   (forall c t, first m (fun b => b = c \/ b = 0) s t ->
      wcschr fuel m s c = Some (if m t =? c then t else 0)) /\
   (forall c, exists r, wcsrchr fuel m s c = Some r /\ finds_last m c s (z - s + 1) r) /\
   (forall c, exists r, wmemchr fuel m s c n = Some r /\ finds m c s n r) /\
   (forall i, stops_at m d s i -> i < Z.of_nat fuel ->
      wcscmp fuel m d s = Some (s32 (m (d + i) - m (s + i)))) /\
   (exists r, wcsncmp fuel m d s n = Some r /\
      ((exists i, i < n /\ stops_at m d s i /\ r = s32 (m (d + i) - m (s + i))) \/
       ((forall j, 0 <= j < n -> m (d + j) <> 0 /\ m (d + j) = m (s + j)) /\ r = 0))) /\
   (exists r, wmemcmp fuel m d s n = Some r /\
      ((exists i, 0 <= i < n /\ (forall j, 0 <= j < i -> m (d + j) = m (s + j)) /\
          m (d + i) <> m (s + i) /\ r = if m (s + i) <? m (d + i) then 1 else -1) \/
       ((forall j, 0 <= j < n -> m (d + j) = m (s + j)) /\ r = 0)))) /\
  ((exists m', wcscpy fuel m d s = Some (m', d) /\ meq m' (copied m d s (z - s + 1))) /\
   (exists m', wcpcpy fuel m d s = Some (m', d + (z - s)) /\ meq m' (copied m d s (z - s + 1))) /\
   (exists m', wcscat fuel m d s = Some (m', d) /\ meq m' (copied m zd s (z - s + 1))) /\
   (exists m', wcsncat fuel m d s n = Some (m', d) /\ meq m' (terminated m zd s k)) /\
   (exists m', wcsncpy fuel m d s n = Some (m', d) /\ meq m' (padded m d s k n)) /\
   (exists m', wcpncpy fuel m d s n = Some (m', d + k) /\ meq m' (padded m d s k n)) /\
   (exists m', wcslcpy fuel m d s n = Some (m', z - s) /\
      meq m' (if n =? 0 then m else terminated m d s (Z.min (z - s) (n - 1)))) /\
   (exists m', wcslcat fuel m d s n = Some (m', Z.min n (zd - d) + (z - s)) /\
      meq m' (if n <=? zd - d then m else terminated m zd s (Z.min (z - s) (n - (zd - d) - 1)))) /\
   (forall c, exists m', wmemset fuel m d c n = Some (m', d) /\
      forall x, m' x = if (d <=? x) && (x <? d + n) then c else m x)).
Proof.
  intros Hd Hz Hp Hd0 Hs0 Hap Hf. pose proof (prefix_len_le _ _ _ _ _ Hz Hp) as Hkz.
  pose proof Hd as (Hdz & _). pose proof Hz as (Hsz & _). pose proof Hp as (Hk & _).
  split; split_and!.
  - unfold wcslen. by rewrite (skip_bytes_spec m fuel s z Hz) by lia.
  - apply (wcsnlen_spec m fuel s n k Hp). lia.
  - apply (wcsnlen_spec m fuel s n k Hp). lia.
  - intros c t Ht. apply wcschr_spec; [done|].
    pose proof (first_before m _ _ s z t Hz (fun b Hb => or_intror Hb) Ht). lia.
  - intros c. apply wcsrchr_spec; (done || lia).
  - intros c. apply wmemchr_spec. lia.
  - intros i Hi Hfi. by apply wcscmp_spec.
  - apply wcsncmp_spec. lia.
  - apply wmemcmp_spec. lia.
  - apply wcscpy_spec; [done|destruct Hap; [left|right]; lia|lia].
  - apply wcpcpy_spec; [done|destruct Hap; [left|right]; lia|lia].
  - apply wcscat_spec; [done|done|destruct Hap; [left|right]; lia|lia|lia].
  - apply wcsncat_spec; [done|done|destruct Hap; [left|right]; lia|lia|lia].
  - apply (wcsncpy_spec m fuel d s n k Hp); [destruct Hap; [left|right]; lia|done|lia].
  - apply (wcsncpy_spec m fuel d s n k Hp); [destruct Hap; [left|right]; lia|done|lia].
  - apply strlcpy_spec; [done|lia|destruct Hap; [left|right]; lia|lia].
  - apply wcslcat_spec; [done|done|lia|destruct Hap; [left|right]; lia|lia].
  - intros c. apply wmemset_spec. lia.
Qed.

(** L"ab" at cell 1000, L"cd" at cell 1008. *)
Lemma wide_strings_correct_witness :
  wcslen 30 two_strings 1008 = Some 2 /\
  exists m', wcscat 30 two_strings 1000 1008 = Some (m', 1000) /\
    map m' [1000; 1001; 1002; 1003; 1004] = [97; 98; 99; 100; 0].
Proof.
  destruct (wide_strings_correct two_strings 30 1000 1002 1008 1010 5 2 first_string second_string
    second_prefix ltac:(lia) ltac:(lia) ltac:(left; lia) ltac:(lia)) as [(H1 & _) (_ & _ & (m' & H2 & H3) & _)].
  split; [exact H1|]. exists m'. split; [exact H2|]. cbn [map]. rewrite !H3. vm_compute. reflexivity.
Defined.
