(* ===== verification/CExit.v ===== *)
(** Exit handlers of the guest's C library (newlib/libc/stdlib: __atexit.c,
    __call_atexit.c, atexit.c, on_exit.c, cxa_atexit.c, cxa_finalize.c, exit.c,
    quick_exit.c; the structures are those of include/sys/reent.h).

    A handler is a program that may register handlers and call exit itself.  The tables
    of newlib, with their index, their two bit masks and the argument arrays, are compared
    with a stack: [exit_refines].  In the build for virtines malloc is newlib's own
    (MALLOC_PROVIDED is not defined), so that there is one table. *)

From S2P Require Import Prelude.

(** ** Data *)

Definition _ATEXIT_SIZE : Z := 32.

Inductive __atexit_types : Type := __et_atexit | __et_onexit | __et_cxa.

#[export] Instance atexit_types_eq_dec : EqDecision __atexit_types.
Proof. solve_decision. Defined.

Record _on_exit_args : Type := OnExitArgs {
  _fnargs : list Z;
  _dso_handle : list Z;
  _fntypes : Z;
  _is_cxa : Z
}.

Record _atexit : Type := Atexit {
  _ind : Z;
  _fns : list Z;
  on_exit_args : _on_exit_args
}.

Definition _ATEXIT_INIT : _atexit :=
  Atexit 0 (replicate 32 0) (OnExitArgs (replicate 32 0) (replicate 32 0) 0 0).

(** How a handler is called: fn (), fn (code, arg), fn (arg). *)
Inductive call_args : Type :=
| no_args
| exit_args (code arg : Z)
| cxa_args (arg : Z).

#[export] Instance call_args_eq_dec : EqDecision call_args.
Proof. solve_decision. Defined.

(** What can be observed. *)
Inductive event : Type :=
| Called (fn : Z) (args : call_args)
| Acted (z : Z)
| Cleaned.

#[export] Instance event_eq_dec : EqDecision event.
Proof. solve_decision. Defined.

(** What the program and its handlers do, as far as this component is concerned. *)
Inductive program : Type :=
| Return
| Act (z : Z) (next : program)
| Register (type : __atexit_types) (fn arg d : Z) (next : Z -> program)
| Exit (code : Z).

(** ** The monad: a state, a trace, and programs that do not come back *)

Inductive outcome (S A : Type) : Type :=
| Done (a : A) (s : S)
| Gone (code : Z) (s : S)      (* the process has ended *)
| Clash (s : S)                (* used by the stack machine only *)
| NoFuel.
Arguments Done {S A} _ _.
Arguments Gone {S A} _ _.
Arguments Clash {S A} _.
Arguments NoFuel {S A}.

Definition X (S A : Type) : Type := S -> outcome S A.

#[export] Instance X_ret S : MRet (X S) := fun A a s => Done a s.
#[export] Instance X_bind S : MBind (X S) := fun A B f m s =>
  match m s with
  | Done a s' => f a s'
  | Gone code s' => Gone code s'
  | Clash s' => Clash s'
  | NoFuel => NoFuel
  end.

Definition xget {S} : X S S := fun s => Done s s.
Definition xmod {S} (f : S -> S) : X S unit := fun s => Done tt (f s).
Definition xgone {S A} (code : Z) : X S A := fun s => Gone code s.
Definition out_of_fuel {S A} : X S A := fun _ => NoFuel.

Lemma xget_bind {S A} (f : S -> X S A) s : (xget ≫= f) s = f s s.
Proof. done. Qed.
Lemma xmod_bind {S A} (h : S -> S) (f : unit -> X S A) s : (xmod h ≫= f) s = f tt (h s).
Proof. done. Qed.

(** A program, given what registering and leaving do. *)
Section Programs.
Context {S : Type} (emit : event -> S -> S) (register : __atexit_types -> Z -> Z -> Z -> X S Z) (leave : Z -> X S unit).

Fixpoint run_program (p : program) : X S unit :=
  match p with
  | Return => mret tt
  | Act z p => xmod (emit (Acted z));; run_program p
  | Register type fn arg d next => r ← register type fn arg d; run_program (next r)
  | Exit code => leave code
  end.
End Programs.

(** ** The code *)

Section Code.
Context (body : Z -> call_args -> program).

(** struct _reent: whether _GLOBAL_ATEXIT points to _atexit0 yet, _atexit0, and whether
    __cleanup is set (it is once stdio is in use); and the trace. *)
Record reent : Type := Reent {
  _GLOBAL_ATEXIT : bool;
  _atexit0 : _atexit;
  __cleanup : bool;
  trace : list event
}.

Definition with_atexit0 (p : _atexit) (s : reent) : reent := Reent (_GLOBAL_ATEXIT s) p (__cleanup s) (trace s).
Definition emit (e : event) (s : reent) : reent := Reent (_GLOBAL_ATEXIT s) (_atexit0 s) (__cleanup s) (trace s ++ [e]).

Definition at_index (l : list Z) (n : Z) : Z := default 0 (l !! Z.to_nat n).
Definition set_index (n v : Z) (l : list Z) : list Z := <[Z.to_nat n := v]> l.

(** 1 << n, as the unsigned the masks are. *)
Definition bit_of (n : Z) : Z := u32 (Z.shiftl 1 n).

Definition register_args (type : __atexit_types) (arg d : Z) (p : _atexit) : _atexit :=
  match type with
  | __et_atexit => p
  | _ =>
      let args := on_exit_args p in
      Atexit (_ind p) (_fns p)
        (OnExitArgs (set_index (_ind p) arg (_fnargs args))
                    (set_index (_ind p) d (_dso_handle args))
                    (Z.lor (_fntypes args) (bit_of (_ind p)))
                    (match type with __et_cxa => Z.lor (_is_cxa args) (bit_of (_ind p)) | _ => _is_cxa args end))
  end.

Definition __register_exitproc (type : __atexit_types) (fn arg d : Z) : X reent Z :=
  xmod (fun s => Reent true (_atexit0 s) (__cleanup s) (trace s));;
  s ← xget;
  let p := _atexit0 s in
  if _ATEXIT_SIZE <=? _ind p then mret (-1)
  else
    let p := register_args type arg d p in
    xmod (with_atexit0 (Atexit (_ind p + 1) (set_index (_ind p) fn (_fns p)) (on_exit_args p)));;
    mret 0.

(** One handler, as the masks say. *)
Definition handler_args (args : _on_exit_args) (code n : Z) : call_args :=
  if Z.land (_fntypes args) (bit_of n) =? 0 then no_args
  else if Z.land (_is_cxa args) (bit_of n) =? 0 then exit_args code (at_index (_fnargs args) n)
  else cxa_args (at_index (_fnargs args) n).

(** for (n = p->_ind - 1; n >= 0; n--); the argument is n + 1. *)
Fixpoint exit_loop (call : Z -> call_args -> X reent unit) (restart : X reent unit) (code d : Z) (n1 : nat) : X reent unit :=
  match n1 with
  | O => mret tt
  | S m =>
      let n := Z.of_nat m in
      s ← xget;
      let p := _atexit0 s in
      if negb (d =? 0) && negb (at_index (_dso_handle (on_exit_args p)) n =? d) then exit_loop call restart code d m
      else
        let fn := at_index (_fns p) n in
        let p' := if n =? _ind p - 1 then Atexit (_ind p - 1) (_fns p) (on_exit_args p)
                  else Atexit (_ind p) (set_index n 0 (_fns p)) (on_exit_args p) in
        xmod (with_atexit0 p');;
        if fn =? 0 then exit_loop call restart code d m
        else
          let ind := _ind p' in
          call fn (handler_args (on_exit_args p) code n);;
          s ← xget;
          if negb (ind =? _ind (_atexit0 s)) || negb (_GLOBAL_ATEXIT s) then restart
          else exit_loop call restart code d m
  end.

(** The code that follows __call_exitprocs in exit. *)
Definition leave_with (procs : X reent unit) (code : Z) : X reent unit :=
  procs;;
  s ← xget;
  (if __cleanup s then xmod (emit Cleaned) else mret tt);;
  xgone code.

Definition call_handler (leave : Z -> X reent unit) (fn : Z) (args : call_args) : X reent unit :=
  xmod (emit (Called fn args));;
  run_program emit __register_exitproc leave (body fn args).

Fixpoint __call_exitprocs (fuel : nat) (code d : Z) : X reent unit :=
  match fuel with
  | O => out_of_fuel
  | S fuel =>
      s ← xget;
      if _GLOBAL_ATEXIT s then
        exit_loop (call_handler (fun c => leave_with (__call_exitprocs fuel c 0) c))
                  (__call_exitprocs fuel code d) code d (Z.to_nat (_ind (_atexit0 s)))
      else mret tt
  end.

Definition exit (fuel : nat) (code : Z) : X reent unit := leave_with (__call_exitprocs fuel code 0) code.

Definition atexit (fn : Z) : X reent Z := __register_exitproc __et_atexit fn 0 0.
Definition on_exit (fn arg : Z) : X reent Z := __register_exitproc __et_onexit fn arg 0.
Definition __cxa_atexit (fn arg d : Z) : X reent Z := __register_exitproc __et_cxa fn arg d.
Definition __cxa_finalize (fuel : nat) (d : Z) : X reent unit := __call_exitprocs fuel 0 d.

(** at_quick_exit, whose handlers are a list; [granted] says whether malloc gave a block. *)
Definition at_quick_exit (granted : bool) (func : Z) (handlers : list Z) : Z * list Z :=
  if granted then (0, func :: handlers) else (1, handlers).

Fixpoint quick_loop (call : Z -> call_args -> X reent unit) (handlers : list Z) : X reent unit :=
  match handlers with
  | [] => mret tt
  | h :: handlers => call h no_args;; quick_loop call handlers
  end.

Definition quick_exit (fuel : nat) (handlers : list Z) (status : Z) : X reent unit :=
  quick_loop (call_handler (exit fuel)) handlers;;
  xgone status.

(** A whole program. *)
Definition run_main (fuel : nat) (p : program) : X reent unit :=
  run_program emit __register_exitproc (exit fuel) p.

Definition initial_reent (cleanup : bool) : reent := Reent false _ATEXIT_INIT cleanup [].
End Code.

(** ** The stack *)

Record entry : Type := Entry { e_type : __atexit_types; e_fn : Z; e_arg : Z; e_dso : Z }.

Definition entry_args (code : Z) (e : entry) : call_args :=
  match e_type e with
  | __et_atexit => no_args
  | __et_onexit => exit_args code (e_arg e)
  | __et_cxa => cxa_args (e_arg e)
  end.

Definition level (type : __atexit_types) : nat := match type with __et_atexit => 0 | __et_onexit => 1 | __et_cxa => 2 end.

(** The entries, the newest first, and of each place of the table the kinds of handler it
    has held. *)
Record stack : Type := Stack {
  entries : list entry;
  marks : list nat;
  s_cleanup : bool;
  s_trace : list event
}.

Section Spec.
Context (body : Z -> call_args -> program).

Definition s_emit (e : event) (s : stack) : stack := Stack (entries s) (marks s) (s_cleanup s) (s_trace s ++ [e]).
Definition s_pop (s : stack) : stack := Stack (tail (entries s)) (marks s) (s_cleanup s) (s_trace s).

(** A new entry on top.  The place it takes must not have held a handler of a later kind. *)
Definition s_register (type : __atexit_types) (fn arg d : Z) : X stack Z := fun s =>
  let n := length (entries s) in
  if (32 <=? n)%nat then Done (-1) s
  else if (level type <? default 0 (marks s !! n))%nat then Clash s
  else Done 0 (Stack (Entry type fn arg d :: entries s) (<[n := level type]> (marks s)) (s_cleanup s) (s_trace s)).

Definition s_leave (procs : X stack unit) (code : Z) : X stack unit :=
  procs;;
  s ← xget;
  (if s_cleanup s then xmod (s_emit Cleaned) else mret tt);;
  xgone code.

(** Take the top off and call it, until the stack is empty. *)
Fixpoint s_procs (fuel : nat) (code : Z) : X stack unit :=
  match fuel with
  | O => out_of_fuel
  | S fuel =>
      s ← xget;
      match entries s with
      | [] => mret tt
      | e :: _ =>
          xmod s_pop;;
          (if e_fn e =? 0 then mret tt
           else
             xmod (s_emit (Called (e_fn e) (entry_args code e)));;
             run_program s_emit s_register (fun c => s_leave (s_procs fuel c) c) (body (e_fn e) (entry_args code e)));;
          s_procs fuel code
      end
  end.

Definition s_main (fuel : nat) (p : program) : X stack unit :=
  run_program s_emit s_register (fun code => s_leave (s_procs fuel code) code) p.

Definition initial_stack (cleanup : bool) : stack := Stack [] (replicate 32 0%nat) cleanup [].
End Spec.

(** ** The table implements the stack *)

Lemma bit_of_eq n : 0 <= n < 32 -> bit_of n = 2 ^ n.
Proof.
  intros Hn. unfold bit_of. rewrite Z.shiftl_1_l. apply uwrap_small. unfold in_u.
  split; [apply Z.pow_nonneg; lia|]. apply Z.pow_lt_mono_r; lia.
Qed.

Lemma land_bit_of x n : 0 <= n < 32 -> (Z.land x (bit_of n) =? 0) = negb (Z.testbit x n).
Proof.
  intros Hn. rewrite bit_of_eq by done. destruct (Z.testbit x n) eqn:E; cbn.
  - apply Z.eqb_neq. intros H0. apply (f_equal (fun y => Z.testbit y n)) in H0.
    rewrite Z.land_spec, E, Z.pow2_bits_true, Z.bits_0 in H0 by lia. done.
  - apply Z.eqb_eq. apply Z.bits_inj'. intros i Hi. rewrite Z.land_spec, Z.bits_0.
    destruct (decide (i = n)) as [->|]; [by rewrite E|]. rewrite Z.pow2_bits_false by lia. apply andb_false_r.
Qed.

Lemma lor_bit_of x n i : 0 <= n < 32 -> 0 <= i -> Z.testbit (Z.lor x (bit_of n)) i = (i =? n) || Z.testbit x i.
Proof.
  intros Hn Hi. rewrite bit_of_eq, Z.lor_spec by done. destruct (Z.eqb_spec i n) as [->|].
  - rewrite Z.pow2_bits_true by lia. by rewrite orb_true_r.
  - rewrite Z.pow2_bits_false by lia. by rewrite orb_false_r.
Qed.

(** The entry at a place of the table. *)
Definition place (es : list entry) (i : nat) : option entry := reverse es !! i.

Definition entry_at (p : _atexit) (i : nat) (m : nat) (e : entry) : Prop :=
  _fns p !! i = Some (e_fn e) /\ m = level (e_type e) /\
  (e_type e <> __et_atexit -> _fnargs (on_exit_args p) !! i = Some (e_arg e) /\ _dso_handle (on_exit_args p) !! i = Some (e_dso e)).

Record implements (c : reent) (a : stack) : Prop := Implements {
  im_glob : _GLOBAL_ATEXIT c = true \/ entries a = [];
  im_ind : _ind (_atexit0 c) = Z.of_nat (length (entries a));
  im_size : (length (entries a) <= 32)%nat;
  im_fns : length (_fns (_atexit0 c)) = 32%nat;
  im_args : length (_fnargs (on_exit_args (_atexit0 c))) = 32%nat;
  im_dso : length (_dso_handle (on_exit_args (_atexit0 c))) = 32%nat;
  im_marks : length (marks a) = 32%nat;
  im_bits : forall i m, marks a !! i = Some m ->
    Z.testbit (_fntypes (on_exit_args (_atexit0 c))) (Z.of_nat i) = (1 <=? m)%nat /\
    Z.testbit (_is_cxa (on_exit_args (_atexit0 c))) (Z.of_nat i) = (2 <=? m)%nat;
  im_plain : forall i, marks a !! i = Some 0%nat -> _dso_handle (on_exit_args (_atexit0 c)) !! i = Some 0;
  im_entries : forall i e, place (entries a) i = Some e -> exists m, marks a !! i = Some m /\ entry_at (_atexit0 c) i m e;
  im_cleanup : __cleanup c = s_cleanup a;
  im_trace : trace c = s_trace a
}.

Definition agrees {A} (oc : outcome reent A) (oa : outcome stack A) : Prop :=
  match oa with
  | Done x a => exists c, oc = Done x c /\ implements c a
  | Gone code a => exists c, oc = Gone code c /\ implements c a
  | Clash _ | NoFuel => True
  end.

Definition sim {A} (mc : X reent A) (ma : X stack A) : Prop :=
  forall c a, implements c a -> agrees (mc c) (ma a).

Lemma sim_ret {A} (x : A) : sim (mret x) (mret x).
Proof. intros c a H. by exists c. Qed.

Lemma sim_bind {A B} (mc : X reent A) (ma : X stack A) (fc : A -> X reent B) (fa : A -> X stack B) :
  sim mc ma -> (forall x, sim (fc x) (fa x)) -> sim (mc ≫= fc) (ma ≫= fa).
Proof.
  intros H1 H2 c a Hi. specialize (H1 c a Hi). unfold mbind, X_bind. destruct (ma a) as [x a'|code a'|a'|] eqn:E; cbn in *.
  - destruct H1 as (c' & -> & Hi'). by apply H2.
  - destruct H1 as (c' & -> & Hi'). by exists c'.
  - done.
  - done.
Qed.

Lemma sim_emit e : sim (xmod (emit e)) (xmod (s_emit e)).
Proof. intros c a []. eexists. split; [reflexivity|]. split; cbn; try done. by f_equal. Qed.

Lemma sim_leave pc pa code : sim pc pa -> sim (leave_with pc code) (s_leave pa code).
Proof.
  intros Hp. apply sim_bind; [done|]. intros []. intros c a Hi. unfold mbind, X_bind, xget. cbn. rewrite (im_cleanup _ _ Hi).
  destruct (s_cleanup a); cbn; eexists; (split; [reflexivity|]); [|done]. pose proof (sim_emit Cleaned _ _ Hi) as Hc. cbn in Hc. destruct Hc as (c' & E & Hi'). by injection E as <-.
Qed.

Lemma place_push es e i : place (e :: es) i = if decide (i = length es) then Some e else place es i.
Proof.
  unfold place. rewrite reverse_cons. destruct (decide (i = length es)) as [->|Hne].
  - rewrite lookup_app_r by (rewrite length_reverse; lia). by rewrite length_reverse, Nat.sub_diag.
  - destruct (decide (i < length es)%nat).
    + by rewrite lookup_app_l by (rewrite length_reverse; lia).
    + rewrite lookup_app_r by (rewrite length_reverse; lia). rewrite length_reverse.
      rewrite list_lookup_singleton. destruct (i - length es)%nat eqn:E; [lia|]. symmetry. apply lookup_ge_None_2. rewrite length_reverse. lia.
Qed.

Lemma place_lt es i e : place es i = Some e -> (i < length es)%nat.
Proof. intros H%lookup_lt_Some. by rewrite length_reverse in H. Qed.

Lemma sim_register type fn arg d : sim (__register_exitproc type fn arg d) (s_register type fn arg d).
Proof.
  intros c a Hi. unfold __register_exitproc, s_register, mbind, X_bind, xmod, xget. cbn beta iota zeta. cbn [_atexit0]. destruct Hi. rewrite im_ind0. unfold _ATEXIT_SIZE.
  destruct (Nat.leb_spec 32 (length (entries a))), (Z.leb_spec 32 (Z.of_nat (length (entries a)))); try lia; cbn beta iota zeta.
  - eexists. split; [reflexivity|]. split; cbn; auto.
  - destruct (lookup_lt_is_Some_2 (marks a) (length (entries a))) as [m Hm]; [lia|]. rewrite Hm. change (default 0%nat (Some m)) with m.
    destruct (Nat.ltb_spec (level type) m); [done|]. eexists. split; [reflexivity|].
    set (n := length (entries a)) in *. set (p := _atexit0 c) in *. destruct (im_bits0 _ _ Hm) as [B1 B2].
    assert (Hlen : forall v (l : list Z), length (set_index (Z.of_nat n) v l) = length l) by (intros; apply length_insert).
    split; cbn.
    + by left.
    + destruct type; cbn; rewrite im_ind0; lia.
    + lia.
    + destruct type; cbn; by rewrite Hlen || rewrite im_ind0, Hlen.
    + destruct type; cbn; rewrite ?im_ind0, ?Hlen; done.
    + destruct type; cbn; rewrite ?im_ind0, ?Hlen; done.
    + by rewrite length_insert.
    + intros i k Hk. destruct (decide (i = n)) as [->|Hne].
      * rewrite list_lookup_insert_eq in Hk by lia. injection Hk as <-.
        destruct type; cbn; rewrite ?im_ind0, ?lor_bit_of, ?Z.eqb_refl by lia; cbn; try done; rewrite ?B1, ?B2; cbn in *.
        -- assert (m = 0)%nat as -> by lia. done.
        -- split; [done|]. by destruct m as [|[|]]; [| |lia].
      * rewrite list_lookup_insert_ne in Hk by done. destruct (im_bits0 _ _ Hk) as [C1 C2].
        destruct type; cbn; rewrite ?im_ind0, ?lor_bit_of by lia; rewrite ?C1, ?C2; try done;
          (replace (Z.of_nat i =? Z.of_nat n) with false by (symmetry; apply Z.eqb_neq; lia)); done.
    + intros i Hk. destruct (decide (i = n)) as [->|Hne].
      * rewrite list_lookup_insert_eq in Hk by lia. injection Hk as Hk. destruct type; cbn in *; try done. apply im_plain0. rewrite Hm. f_equal. lia.
      * rewrite list_lookup_insert_ne in Hk by done. destruct type; cbn; unfold set_index; rewrite ?im_ind0, ?Nat2Z.id, ?list_lookup_insert_ne by done; by apply im_plain0.
    + intros i e. rewrite place_push. fold n. destruct (decide (i = n)) as [->|Hne].
      * intros [= <-]. exists (level type). split; [by rewrite list_lookup_insert_eq by lia|].
        destruct type; unfold entry_at; cbn; unfold set_index; rewrite ?im_ind0, !Nat2Z.id, !list_lookup_insert_eq by lia; done.
      * intros He. destruct (im_entries0 _ _ He) as (k & Hk & He1 & He2 & He3). exists k. rewrite list_lookup_insert_ne by done. split; [done|].
        destruct type; unfold entry_at; cbn; unfold set_index; rewrite ?im_ind0, !Nat2Z.id, !list_lookup_insert_ne by done; done.
    + done.
    + done.
Qed.

Lemma sim_program lc la p : (forall code, sim (lc code) (la code)) ->
  sim (run_program emit __register_exitproc lc p) (run_program s_emit s_register la p).
Proof.
  intros Hl. induction p as [|z p IH|type fn arg d next IH|code]; cbn [run_program].
  - apply sim_ret.
  - apply sim_bind; [apply sim_emit|]. by intros [].
  - apply sim_bind; [apply sim_register|done].
  - apply Hl.
Qed.

Lemma sim_get {A} (fc : reent -> X reent A) (fa : stack -> X stack A) :
  (forall c a, implements c a -> agrees (fc c c) (fa a a)) -> sim (xget ≫= fc) (xget ≫= fa).
Proof. intros H c a Hi. by apply H. Qed.

(** The arguments of a handler. *)
Lemma place_args c a i e code : implements c a -> place (entries a) i = Some e ->
  at_index (_fns (_atexit0 c)) (Z.of_nat i) = e_fn e /\
  handler_args (on_exit_args (_atexit0 c)) code (Z.of_nat i) = entry_args code e.
Proof.
  intros [] He. pose proof (place_lt _ _ _ He) as Hlt. destruct (im_entries0 i e He) as (m & Hm & H1 & -> & H3).
  unfold at_index, handler_args, at_index. rewrite Nat2Z.id, H1. split; [done|]. rewrite !land_bit_of by lia.
  destruct (im_bits0 _ _ Hm) as [-> ->]. unfold entry_args. destruct (e_type e) eqn:Et; cbn; [done|..]; destruct H3 as [-> _]; done.
Qed.

Lemma implements_pop c a e es : implements c a -> entries a = e :: es ->
  implements (with_atexit0 (Atexit (_ind (_atexit0 c) - 1) (_fns (_atexit0 c)) (on_exit_args (_atexit0 c))) c) (s_pop a).
Proof.
  intros [] E. rewrite E in *. cbn [length] in *. split; cbn; rewrite ?E; cbn; try done.
  - destruct im_glob0; [by left|done].
  - lia.
  - lia.
  - intros i x Hx. apply im_entries0. rewrite place_push. rewrite decide_False; [done|]. apply place_lt in Hx. lia.
Qed.

Section Refine.
Context (body : Z -> call_args -> program).

Abbreviation procs := (__call_exitprocs body).
Abbreviation handler g := (call_handler body (fun c => leave_with (procs g c 0) c)).

Lemma sim_handler f g fn args : (forall code, sim (procs g code 0) (s_procs body f code)) ->
  sim (handler g fn args)
    (xmod (s_emit (Called fn args));; run_program s_emit s_register (fun c => s_leave (s_procs body f c) c) (body fn args)).
Proof. intros Hp. apply sim_bind; [apply sim_emit|]. intros []. apply sim_program. intros code. by apply sim_leave. Qed.

(** The loop, and the whole of __call_exitprocs. *)
Lemma sim_loop f : forall g code c a, (f <= S g)%nat -> implements c a ->
  (forall f' g' code, (f' < f)%nat -> (f' <= g')%nat -> sim (procs g' code 0) (s_procs body f' code)) ->
  agrees (exit_loop (handler g) (procs g code 0) code 0 (length (entries a)) c) (s_procs body f code a).
Proof.
  induction f as [|f IH]; intros g code c a Hle Hi Hp; [done|]. cbn [s_procs]. rewrite xget_bind.
  destruct (entries a) as [|e es] eqn:E; [by exists c|]. cbn [length exit_loop]. destruct (place_args c a (length es) e code Hi) as [H1 H2]; [by rewrite E, place_push, decide_True|].
  rewrite xget_bind. cbn [Z.eqb negb andb]. rewrite H1, H2.
  pose proof (implements_pop c a e es Hi E) as Hi'. pose proof (im_ind _ _ Hi) as Hind. rewrite E in Hind. cbn [length] in Hind.
  replace (Z.of_nat (length es) =? _ind (_atexit0 c) - 1) with true by (symmetry; apply Z.eqb_eq; lia).
  rewrite !xmod_bind. assert (E1 : entries (s_pop a) = es) by (cbn; by rewrite E).
  destruct (e_fn e =? 0).
  - rewrite <- E1. apply IH; [lia|done|]. intros; apply Hp; lia.
  - revert Hi'. generalize (s_pop a) (with_atexit0 (Atexit (_ind (_atexit0 c) - 1) (_fns (_atexit0 c)) (on_exit_args (_atexit0 c))) c).
    intros a1 c1 Hi1. revert c1 a1 Hi1. cbn [_ind].
    apply (sim_bind (handler g (e_fn e) (entry_args code e))).
    { apply sim_handler. intros code'. apply Hp; lia. }
    intros []. intros c2 a2 Hi2. rewrite xget_bind. destruct (_ || _) eqn:Et; [apply Hp; [lia|lia|done]|].
    apply orb_false_iff in Et as [Et _]. apply negb_false_iff, Z.eqb_eq in Et. rewrite (im_ind _ _ Hi2) in Et.
    replace (length es) with (length (entries a2)) by lia. apply IH; [lia|done|]. intros; apply Hp; lia.
Qed.

Lemma sim_procs f : forall g code, (f <= g)%nat -> sim (procs g code 0) (s_procs body f code).
Proof.
  induction f as [f IH] using lt_wf_ind. intros g code Hle c a Hi. destruct f as [|f]; [done|]. destruct g as [|g]; [lia|].
  cbn [__call_exitprocs]. rewrite xget_bind. destruct (_GLOBAL_ATEXIT c) eqn:Eg.
  - rewrite (im_ind _ _ Hi), Nat2Z.id. apply sim_loop; [lia|done|]. intros; apply IH; lia.
  - destruct (im_glob _ _ Hi) as [|E]; [congruence|]. cbn [s_procs]. rewrite xget_bind, E. by exists c.
Qed.

Lemma main_refines f p : sim (run_main body f p) (s_main body f p).
Proof. apply sim_program. intros code. apply sim_leave, sim_procs. lia. Qed.
End Refine.

Lemma initial_implements cleanup : implements (initial_reent cleanup) (initial_stack cleanup).
Proof.
  split; cbn; try done; [by right|lia| |].
  2: { intros i Hm. change (replicate 32 0%nat !! i = Some 0%nat) in Hm. apply lookup_replicate in Hm as [_ Hi]. change (replicate 32 0 !! i = Some 0). by apply lookup_replicate_2. }
  intros i m Hm. change (replicate 32 0%nat !! i = Some m) in Hm. apply lookup_replicate in Hm as [-> _]. by rewrite !Z.testbit_0_l.
Qed.

(** C30: the tables of the exit handlers implement a stack: a program, whatever handlers it
    registers with atexit, on_exit and __cxa_atexit, before and while it exits, and however
    often its handlers call exit themselves, makes the same calls in the same order, each
    with its own arguments, and ends with the same status, as when the handlers are kept on
    a stack from which exit takes them; unless a place of the table is used again for a
    handler of an earlier kind. *)
Theorem exit_refines body fuel p cleanup :
  agrees (run_main body fuel p (initial_reent cleanup)) (s_main body fuel p (initial_stack cleanup)).
Proof. apply main_refines, initial_implements. Qed.

(** ** The order of the calls *)

(** A program that neither registers nor leaves, and what it does. *)
Fixpoint quiet (p : program) : Prop :=
  match p with
  | Return => True
  | Act _ p => quiet p
  | _ => False
  end.

Fixpoint acts (p : program) : list event :=
  match p with
  | Act z p => Acted z :: acts p
  | _ => []
  end.

Definition says (es : list event) (c : reent) : reent := Reent (_GLOBAL_ATEXIT c) (_atexit0 c) (__cleanup c) (trace c ++ es).
Definition s_says (es : list event) (a : stack) : stack := Stack (entries a) (marks a) (s_cleanup a) (s_trace a ++ es).

Lemma says_emits es c : foldl (flip emit) c es = says es c.
Proof.
  revert c. induction es as [|e es IH]; intros c; cbn; [unfold says; rewrite app_nil_r; by destruct c|].
  rewrite IH. unfold says, emit. cbn. by rewrite <- app_assoc.
Qed.

Lemma s_says_emits es a : foldl (flip s_emit) a es = s_says es a.
Proof.
  revert a. induction es as [|e es IH]; intros a; cbn; [unfold s_says; rewrite app_nil_r; by destruct a|].
  rewrite IH. unfold s_says, s_emit. cbn. by rewrite <- app_assoc.
Qed.

Lemma quiet_run {S} (em : event -> S -> S) register leave p s : quiet p ->
  run_program em register leave p s = Done tt (foldl (flip em) s (acts p)).
Proof. revert s. induction p as [|z p IH| |]; intros s Hq; try done; cbn. rewrite xmod_bind. by apply IH. Qed.

(** The events of a handler. *)
Definition handled (body : Z -> call_args -> program) (code : Z) (e : entry) : list event :=
  if e_fn e =? 0 then [] else Called (e_fn e) (entry_args code e) :: acts (body (e_fn e) (entry_args code e)).

Section Order.
Context (body : Z -> call_args -> program) (Hquiet : forall fn args, quiet (body fn args)).

(** A stack that is run down. *)
Lemma s_procs_quiet es : forall fuel code ms cl tr, (length es < fuel)%nat ->
  s_procs body fuel code (Stack es ms cl tr) = Done tt (Stack [] ms cl (tr ++ concat (handled body code <$> es))).
Proof.
  induction es as [|e es IH]; intros fuel code ms cl tr Hf; (destruct fuel as [|fuel]; [cbn in Hf; lia|]); cbn [s_procs]; rewrite xget_bind; cbn [entries].
  - cbn. by rewrite app_nil_r.
  - rewrite xmod_bind. cbn [s_pop entries tail marks s_cleanup s_trace fmap list_fmap concat]. unfold handled at 1.
    cbn in Hf. destruct (e_fn e =? 0); [apply IH; lia|].
    unfold mbind at 1, X_bind at 1. rewrite xmod_bind, quiet_run, s_says_emits by done.
    unfold s_says, s_emit at 1 2 3 4, s_pop. cbn [entries marks s_cleanup s_trace tail]. rewrite IH by lia. do 2 f_equal. by rewrite <- !app_assoc.
Qed.

(** The program registers handlers and looks at the results. *)
Fixpoint register_all (es : list entry) (p : program) : program :=
  match es with
  | [] => p
  | e :: es => Register (e_type e) (e_fn e) (e_arg e) (e_dso e) (fun r => Act r (register_all es p))
  end.

Definition results (room : nat) (n : nat) : list event := replicate (n `min` room) (Acted 0) ++ replicate (n - room) (Acted (-1)).

Lemma s_register_all leave es p : forall E ms cl tr, (length E <= 32)%nat -> length ms = 32%nat ->
  (forall i, (length E <= i < 32)%nat -> ms !! i = Some 0%nat) ->
  let room := (32 - length E)%nat in exists ms',
  run_program s_emit s_register leave (register_all es p) (Stack E ms cl tr) =
  run_program s_emit s_register leave p (Stack (reverse (take room es) ++ E) ms' cl (tr ++ results room (length es))).
Proof.
  induction es as [|e es IH]; intros E ms cl tr HE Hms H0 room; cbn [register_all run_program].
  - exists ms. rewrite take_nil. cbn. by rewrite app_nil_r.
  - unfold mbind at 1, X_bind at 1, s_register at 1. cbn [entries marks s_cleanup s_trace]. destruct (Nat.leb_spec 32 (length E)) as [Hge|Hlt].
    + rewrite xmod_bind. unfold s_emit at 2. cbn [entries marks s_cleanup s_trace]. destruct (IH E ms cl (tr ++ [Acted (-1)])) as (ms' & ->); [done..|].
      exists ms'. assert (room = 0)%nat as -> by lia. replace (32 - length E)%nat with 0%nat by lia. rewrite !take_0. cbn [length reverse app].
      unfold results. rewrite !Nat.min_0_r, !Nat.sub_0_r. cbn. by rewrite <- app_assoc.
    + rewrite H0 by lia. change (default 0%nat (Some 0%nat)) with 0%nat. cbn [Nat.ltb Nat.leb]. rewrite xmod_bind. unfold s_emit at 2. cbn [entries marks s_cleanup s_trace].
      destruct (IH (Entry (e_type e) (e_fn e) (e_arg e) (e_dso e) :: E) (<[length E := level (e_type e)]> ms) cl (tr ++ [Acted 0])) as (ms' & ->).
      { cbn. lia. }
      { by rewrite length_insert. }
      { cbn. intros i Hi. rewrite list_lookup_insert_ne by lia. apply H0. lia. }
      exists ms'. cbn [length]. destruct room as [|r] eqn:Er; [lia|]. replace (32 - S (length E))%nat with r by lia. cbn [take].
      rewrite reverse_cons, <- !app_assoc. cbn [app]. by destruct e.
Qed.

Lemma register_exit es code cl fuel : (32 < fuel)%nat -> exists ms,
  s_main body fuel (register_all es (Exit code)) (initial_stack cl) =
  Gone code (Stack [] ms cl (results 32 (length es) ++ concat (handled body code <$> reverse (take 32 es)) ++ (if cl then [Cleaned] else []))).
Proof.
  intros Hf. unfold s_main, initial_stack.
  destruct (s_register_all (fun code => s_leave (s_procs body fuel code) code) es (Exit code) [] (replicate 32 0%nat) cl []) as (ms & ->).
  { cbn. lia. }
  { done. }
  { intros i Hi. apply lookup_replicate_2. cbn in Hi. lia. }
  exists ms. cbn [run_program length Nat.sub app]. unfold s_leave. unfold mbind at 1, X_bind at 1. rewrite s_procs_quiet.
  - rewrite xget_bind, (app_nil_r (reverse _)). cbn [s_cleanup]. destruct cl.
    + rewrite xmod_bind. unfold xgone, s_emit. cbn [entries marks s_cleanup s_trace]. by rewrite <- app_assoc.
    + by rewrite app_nil_r.
  - rewrite app_nil_r, length_reverse, length_take. lia.
Qed.
End Order.

(** ** The handlers of one shared object *)

Definition belongs (d : Z) (e : entry) : Prop := e_type e <> __et_atexit /\ e_dso e = d.
#[export] Instance belongs_dec d e : Decision (belongs d e).
Proof. unfold belongs. apply _. Defined.

(** The entries that have not been called. *)
Definition live (es : list entry) : list entry := filter (fun e => e_fn e <> 0) es.

Definition spent (e : entry) : entry := Entry (e_type e) 0 (e_arg e) (e_dso e).

Lemma live_app l l' : live (l ++ l') = live l ++ live l'.
Proof. apply filter_app. Qed.

Lemma live_spent l e : live (l ++ [spent e]) = live l.
Proof. rewrite live_app. cbn. apply app_nil_r. Qed.

Lemma place_app up e low i : place (up ++ e :: low) i =
  if decide (i = length low) then Some e else if decide (i < length low)%nat then place low i else reverse up !! (i - S (length low))%nat.
Proof.
  unfold place. rewrite reverse_app, reverse_cons. destruct (decide (i = length low)) as [->|Hne].
  - rewrite lookup_app_l by (rewrite length_app, length_reverse; cbn; lia). by rewrite lookup_app_r, length_reverse, Nat.sub_diag by (by rewrite length_reverse).
  - case_decide.
    + rewrite !lookup_app_l by (rewrite ?length_app, length_reverse; cbn; lia). done.
    + rewrite lookup_app_r by (rewrite length_app, length_reverse; cbn; lia). rewrite length_app, length_reverse. cbn. f_equal. lia.
Qed.

Lemma place_spent up e low i x : place (up ++ spent e :: low) i = Some x ->
  x = spent e /\ i = length low \/ i <> length low /\ place (up ++ e :: low) i = Some x.
Proof. rewrite !place_app. destruct (decide (i = length low)); [intros [= <-]; by left|by right]. Qed.

Lemma implements_spend c a up e low : implements c a -> entries a = up ++ e :: low ->
  implements (with_atexit0 (Atexit (_ind (_atexit0 c)) (set_index (Z.of_nat (length low)) 0 (_fns (_atexit0 c))) (on_exit_args (_atexit0 c))) c)
    (Stack (up ++ spent e :: low) (marks a) (s_cleanup a) (s_trace a)).
Proof.
  intros [] E. rewrite E in *. rewrite !length_app in *. cbn [length] in *. unfold set_index. rewrite Nat2Z.id. split; cbn; rewrite ?length_app; cbn; try done.
  - destruct im_glob0; [by left|]. by destruct up.
  - by rewrite length_insert.
  - intros i x [[-> ->]|[Hne Hx]]%place_spent.
    + destruct (im_entries0 (length low) e) as (m & Hm & H1 & H2 & H3); [rewrite place_app; by rewrite decide_True|].
      exists m. split; [done|]. unfold entry_at. cbn. by rewrite list_lookup_insert_eq by lia.
    + destruct (im_entries0 i x Hx) as (m & Hm & H1). exists m. split; [done|]. unfold entry_at in *. cbn. by rewrite list_lookup_insert_ne.
Qed.

(** Whose handler it is. *)
Lemma place_belongs c a i e d : implements c a -> place (entries a) i = Some e -> d <> 0 ->
  (at_index (_dso_handle (on_exit_args (_atexit0 c))) (Z.of_nat i) =? d) = bool_decide (belongs d e).
Proof.
  intros [] He Hd. destruct (im_entries0 i e He) as (m & Hm & H1 & -> & H3). unfold at_index. rewrite Nat2Z.id. unfold belongs.
  destruct (decide (e_type e = __et_atexit)) as [Et|Et].
  - rewrite bool_decide_eq_false_2 by tauto. rewrite Et in Hm. rewrite (im_plain0 _ Hm). by destruct d.
  - destruct (H3 Et) as [_ ->]. cbn. destruct (Z.eqb_spec (e_dso e) d).
    + by rewrite bool_decide_eq_true_2.
    + rewrite bool_decide_eq_false_2; [done|tauto].
Qed.

Section Finalize.
Context (body : Z -> call_args -> program) (Hquiet : forall fn args, quiet (body fn args)).

Lemma implements_says es c a : implements c a -> implements (says es c) (s_says es a).
Proof. intros []. split; cbn; try done. by f_equal. Qed.

Lemma quiet_handler leave fn args c :
  call_handler body leave fn args c = Done tt (says (Called fn args :: acts (body fn args)) c).
Proof.
  unfold call_handler. rewrite xmod_bind, quiet_run, says_emits by done. unfold says, emit. cbn. by rewrite <- app_assoc.
Qed.

(** The loop of __call_exitprocs over the lower part of the table. *)
Lemma finalize_loop leave restart d low : d <> 0 -> forall up c a, implements c a -> _GLOBAL_ATEXIT c = true -> entries a = up ++ low ->
  exists c' a', exit_loop (call_handler body leave) restart 0 d (length low) c = Done tt c' /\ implements c' a' /\
    live (entries a') = live (up ++ filter (fun e => ~ belongs d e) low) /\
    s_trace a' = s_trace a ++ concat (handled body 0 <$> filter (belongs d) low) /\ s_cleanup a' = s_cleanup a.
Proof.
  intros Hd. induction low as [|e low IH]; intros up c a Hi Hg E; cbn [length exit_loop].
  - exists c, a. split; [done|]. split; [done|]. rewrite E. cbn. by rewrite !app_nil_r.
  - rewrite xget_bind. assert (Hpl : place (entries a) (length low) = Some e) by (rewrite E, place_app; by rewrite decide_True).
    destruct (place_args c a _ e 0 Hi Hpl) as [H1 H2]. rewrite (place_belongs c a _ e d Hi Hpl Hd), H1, H2.
    replace (d =? 0) with false by (symmetry; by apply Z.eqb_neq). cbn [negb andb].
    destruct (decide (belongs d e)) as [Hb|Hb].
    2: { rewrite bool_decide_eq_false_2 by done. cbn [negb]. rewrite filter_cons_True, filter_cons_False by done.
         destruct (IH (up ++ [e]) c a Hi Hg) as (c' & a' & R & Hi' & Hl & Ht & Hcl); [by rewrite <- app_assoc|].
         exists c', a'. split; [done|]. split; [done|]. by rewrite <- app_assoc in Hl. }
    rewrite bool_decide_eq_true_2 by done. cbn [negb]. rewrite filter_cons_False, filter_cons_True by (try done; tauto). rewrite xmod_bind.
    pose proof (im_ind _ _ Hi) as Hind. rewrite E, length_app in Hind. cbn [length] in Hind.
    (* the table without this handler *)
    set (p' := if Z.of_nat (length low) =? _ then Atexit _ _ _ else Atexit _ _ _).
    assert (exists up' a1, implements (with_atexit0 p' c) a1 /\ entries a1 = up' ++ low /\ live up' = live up /\ s_trace a1 = s_trace a /\ s_cleanup a1 = s_cleanup a) as (up' & a1 & Hi1 & E1 & Hl1 & Ht1 & Hc1).
    { unfold p'. destruct up as [|u up].
      - exists [], (s_pop a). cbn in Hind, E. rewrite (proj2 (Z.eqb_eq _ _)) by lia. split; [by eapply implements_pop|]. cbn. by rewrite E.
      - exists ((u :: up) ++ [spent e]), (Stack ((u :: up) ++ spent e :: low) (marks a) (s_cleanup a) (s_trace a)). cbn [length] in Hind.
        rewrite (proj2 (Z.eqb_neq _ _)) by lia. split; [by apply implements_spend|]. split; [by rewrite <- app_assoc|]. split; [apply live_spent|done]. }
    unfold handled at 1. cbn [fmap list_fmap concat].
    assert (Hlive : forall l, live (up' ++ l) = live (up ++ l)) by (intros l; by rewrite !live_app, Hl1).
    destruct (e_fn e =? 0).
    { destruct (IH up' _ a1 Hi1 Hg E1) as (c' & a' & R & Hi' & Hl & Ht & Hcl). exists c', a'. rewrite Ht, Ht1, Hl, Hlive, Hcl. done. }
    unfold mbind at 1, X_bind at 1. rewrite quiet_handler, xget_bind. cbn [says _atexit0 with_atexit0 _GLOBAL_ATEXIT]. rewrite Hg, Z.eqb_refl. cbn [negb orb].
    destruct (IH up' (says (Called (e_fn e) (entry_args 0 e) :: acts (body (e_fn e) (entry_args 0 e))) (with_atexit0 p' c)) (s_says (Called (e_fn e) (entry_args 0 e) :: acts (body (e_fn e) (entry_args 0 e))) a1))
      as (c' & a' & R & Hi' & Hl & Ht & Hcl); [by apply implements_says|done|done|].
    exists c', a'. split; [done|]. split; [done|]. rewrite Hl, Hlive, Ht, Hcl. cbn [s_says s_trace]. rewrite Ht1. split; [done|]. split; [by rewrite <- app_assoc|done].
Qed.
End Finalize.

Lemma handled_live body code es : concat (handled body code <$> live es) = concat (handled body code <$> es).
Proof.
  induction es as [|e es IH]; [done|]. unfold live in *. rewrite filter_cons. case_decide as H; cbn [fmap list_fmap concat]; rewrite IH; [done|].
  unfold handled at 2. by rewrite (proj2 (Z.eqb_eq _ _)) by tauto.
Qed.

Section Whole.
Context (body : Z -> call_args -> program) (Hquiet : forall fn args, quiet (body fn args)).

Lemma register_run es cl fuel : exists c a,
  run_main body fuel (register_all es Return) (initial_reent cl) = Done tt c /\ implements c a /\
  entries a = reverse (take 32 es) /\ s_trace a = results 32 (length es) /\ s_cleanup a = cl.
Proof.
  pose proof (main_refines body fuel (register_all es Return) _ _ (initial_implements cl)) as H. unfold s_main, initial_stack in H.
  destruct (s_register_all (fun code => s_leave (s_procs body fuel code) code) es Return [] (replicate 32 0%nat) cl []) as (ms & E).
  { cbn. lia. }
  { done. }
  { intros i Hi. apply lookup_replicate_2. cbn in Hi. lia. }
  rewrite E in H. cbn [length Nat.sub app] in H. rewrite app_nil_r in H. cbn [run_program mret X_ret] in H. destruct H as (c & Ec & Hi). exists c. eexists. split; [done|]. by split.
Qed.

Lemma exit_run c a code fuel : implements c a -> (32 < fuel)%nat ->
  exists c', exit body fuel code c = Gone code c' /\
    trace c' = s_trace a ++ concat (handled body code <$> entries a) ++ (if s_cleanup a then [Cleaned] else []).
Proof.
  intros Hi Hf. destruct a as [es ms cl tr]. pose proof (im_size _ _ Hi) as Hs. cbn in Hs.
  assert (Hs2 : sim (exit body fuel code) (s_leave (s_procs body fuel code) code)) by (apply sim_leave, sim_procs; lia).
  specialize (Hs2 _ _ Hi). unfold s_leave in Hs2. unfold mbind at 1, X_bind at 1 in Hs2. rewrite s_procs_quiet, xget_bind in Hs2 by (done || lia).
  cbn [s_cleanup] in Hs2. destruct cl; destruct Hs2 as (c' & E & Hi'); exists c'; (split; [done|]); rewrite (im_trace _ _ Hi'); cbn [s_trace s_emit s_cleanup entries].
  - by rewrite <- app_assoc.
  - by rewrite app_nil_r.
Qed.

Lemma finalize_run c a d fuel : implements c a -> d <> 0 -> (0 < fuel)%nat ->
  exists c' a', __cxa_finalize body fuel d c = Done tt c' /\ implements c' a' /\
    live (entries a') = live (filter (fun e => ~ belongs d e) (entries a)) /\
    s_trace a' = s_trace a ++ concat (handled body 0 <$> filter (belongs d) (entries a)) /\ s_cleanup a' = s_cleanup a.
Proof.
  intros Hi Hd Hf. destruct fuel as [|fuel]; [lia|]. unfold __cxa_finalize. cbn [__call_exitprocs]. rewrite xget_bind.
  destruct (_GLOBAL_ATEXIT c) eqn:Eg.
  - rewrite (im_ind _ _ Hi), Nat2Z.id. by apply (finalize_loop body Hquiet _ _ d (entries a) Hd []).
  - destruct (im_glob _ _ Hi) as [|E]; [congruence|]. exists c, a. rewrite E. cbn. by rewrite app_nil_r.
Qed.

(** quick_exit calls its own handlers, the last registered first, and none of the others. *)
Lemma quick_exit_run fuel hs status c : quick_exit body fuel hs status c =
  Gone status (says (concat ((fun h => Called h no_args :: acts (body h no_args)) <$> hs)) c).
Proof.
  unfold quick_exit. assert (E : quick_loop (call_handler body (exit body fuel)) hs c =
    Done tt (says (concat ((fun h => Called h no_args :: acts (body h no_args)) <$> hs)) c)).
  { revert c. induction hs as [|h hs IH]; intros c; cbn [quick_loop fmap list_fmap concat].
    - unfold says. rewrite app_nil_r. by destruct c.
    - unfold mbind, X_bind. rewrite quiet_handler by done. rewrite IH. unfold says. cbn [trace _GLOBAL_ATEXIT _atexit0 __cleanup]. by rewrite <- app_assoc. }
  unfold mbind, X_bind. by rewrite E.
Qed.
End Whole.

(** The handlers of a program do not register handlers and do not call exit. *)
Definition quiet_handlers (body : Z -> call_args -> program) : Prop := forall fn args, quiet (body fn args).

(** The table takes 32 handlers; further registrations fail, and the handlers they are
    about are not called. *)
Lemma exit_order_limit body (es : list entry) code (cleanup : bool) fuel : quiet_handlers body -> (32 < fuel)%nat ->
  let accepted := reverse (take 32 es) in let cleaned := if cleanup then [Cleaned] else [] in
  exists c1, run_main body fuel (register_all es Return) (initial_reent cleanup) = Done tt c1 /\
    trace c1 = results 32 (length es) /\
    (exists c2, exit body fuel code c1 = Gone code c2 /\
       trace c2 = trace c1 ++ concat (handled body code <$> accepted) ++ cleaned) /\
    (forall d, d <> 0 -> exists c2 c3, __cxa_finalize body fuel d c1 = Done tt c2 /\
       trace c2 = trace c1 ++ concat (handled body 0 <$> filter (belongs d) accepted) /\
       exit body fuel code c2 = Gone code c3 /\
       trace c3 = trace c2 ++ concat (handled body code <$> filter (fun e => ~ belongs d e) accepted) ++ cleaned).
Proof.
  intros Hq Hf accepted cleaned. destruct (register_run body es cleanup fuel) as (c1 & a & E & Hi & Ea & Et & Ec).
  exists c1. rewrite (im_trace _ _ Hi), Et. split; [done|]. split; [done|]. split.
  - destruct (exit_run body Hq c1 a code fuel Hi Hf) as (c2 & E2 & T2). exists c2. split; [done|]. by rewrite T2, Et, Ea, Ec.
  - intros d Hd. destruct (finalize_run body Hq c1 a d fuel Hi Hd) as (c2 & a2 & E2 & Hi2 & L2 & T2 & C2); [lia|].
    destruct (exit_run body Hq c2 a2 code fuel Hi2 Hf) as (c3 & E3 & T3). exists c2, c3. rewrite (im_trace _ _ Hi2).
    split; [done|]. split; [by rewrite T2, Et, Ea|]. split; [done|]. rewrite T3, <- handled_live, L2, handled_live, Ea, C2, Ec. done.
Qed.

(** C31: a program that registers at most 32 handlers, of the three kinds in any order, and
    calls exit, when the handlers themselves neither register handlers nor call exit (for
    those that do, see [exit_refines]): every registration succeeds; exit calls every
    handler once, the last first, with the arguments of its kind, then the cleanup of
    stdio if there is one, and ends the process with its status.  When __cxa_finalize is
    called before, it calls those of its shared object, the last first, and exit calls the
    others. *)
Theorem exit_order body (es : list entry) code (cleanup : bool) fuel : quiet_handlers body -> (32 < fuel)%nat ->
  (length es <= 32)%nat ->
  let cleaned := if cleanup then [Cleaned] else [] in
  exists c1, run_main body fuel (register_all es Return) (initial_reent cleanup) = Done tt c1 /\
    trace c1 = replicate (length es) (Acted 0) /\
    (exists c2, exit body fuel code c1 = Gone code c2 /\
       trace c2 = trace c1 ++ concat (handled body code <$> reverse es) ++ cleaned) /\
    (forall d, d <> 0 -> exists c2 c3, __cxa_finalize body fuel d c1 = Done tt c2 /\
       trace c2 = trace c1 ++ concat (handled body 0 <$> filter (belongs d) (reverse es)) /\
       exit body fuel code c2 = Gone code c3 /\
       trace c3 = trace c2 ++ concat (handled body code <$> filter (fun e => ~ belongs d e) (reverse es)) ++ cleaned).
Proof.
  intros Hq Hf Hn. destruct (exit_order_limit body es code cleanup fuel Hq Hf) as (c1 & E1 & T1 & H).
  rewrite take_ge in H by done. exists c1. split; [done|]. split; [|done].
  rewrite T1. unfold results. rewrite Nat.min_l by done. replace (length es - 32)%nat with 0%nat by lia. apply app_nil_r.
Qed.

(** ** Runs *)

(** Three handlers, the second of the shared object 5. *)
Definition demo_entries : list entry := [Entry __et_atexit 7 0 0; Entry __et_cxa 8 100 5; Entry __et_onexit 9 101 0].

Lemma exit_order_witness : exists c1 c2, run_main (fun fn _ => Act fn Return) 33 (register_all demo_entries Return) (initial_reent true) = Done tt c1 /\
  exit (fun fn _ => Act fn Return) 33 3 c1 = Gone 3 c2 /\
  trace c2 = [Acted 0; Acted 0; Acted 0; Called 9 (exit_args 3 101); Acted 9; Called 8 (cxa_args 100); Acted 8; Called 7 no_args; Acted 7; Cleaned].
Proof.
  destruct (exit_order (fun fn _ => Act fn Return) demo_entries 3 true 33) as (c1 & E1 & T1 & (c2 & E2 & T2) & _); [done|lia|cbn; lia|].
  exists c1, c2. split; [exact E1|]. split; [exact E2|]. rewrite T2, T1. reflexivity.
Defined.

Definition ended {A} (o : outcome reent A) : option (Z * list event) :=
  match o with Gone code c => Some (code, trace c) | _ => None end.

(** A handler registers another one: it is called next.  The handler after that calls exit,
    which goes on with what is left. *)
Definition demo_body (fn : Z) (args : call_args) : program :=
  match fn with
  | 7 => Register __et_atexit 8 0 0 (fun r => Act r Return)
  | 10 => Exit 5
  | _ => Return
  end.

Definition demo_program : program :=
  register_all [Entry __et_atexit 9 0 0; Entry __et_onexit 10 100 0; Entry __et_cxa 11 101 0; Entry __et_atexit 7 0 0] (Exit 3).

Example demo_exit : ended (run_main demo_body 5 demo_program (initial_reent true)) =
  Some (5, [Acted 0; Acted 0; Acted 0; Acted 0; Called 7 no_args; Acted 0; Called 8 no_args;
    Called 11 (cxa_args 101); Called 10 (exit_args 3 100); Called 9 no_args; Cleaned]).
Proof. vm_compute. reflexivity. Qed.

(** The masks keep the kind of a handler that has been called: a handler registered by
    on_exit in the place of one registered by __cxa_atexit is called as fn (arg), without
    the status. *)
Definition stale_body (fn : Z) (args : call_args) : program :=
  match fn with
  | 7 => Register __et_onexit 8 200 0 (fun _ => Return)
  | _ => Return
  end.

Theorem stale_kind : ended (run_main stale_body 5 (Register __et_cxa 7 100 0 (fun _ => Exit 3)) (initial_reent false)) =
  Some (3, [Called 7 (cxa_args 100); Called 8 (cxa_args 200)]).
Proof. vm_compute. reflexivity. Qed.
