(* ===== verification/CBigWords.v ===== *)
(** The loops of newlib's multiple-precision arithmetic (stdlib/mprec.c) over arrays of
    32-bit words, worked on in halves of 16 bits, and what they compute. *)

From S2P Require Import Prelude.

(** ** Words and their value *)

Definition lo16 (w : Z) : Z := Z.land w 0xffff.
Definition hi16 (w : Z) : Z := Z.shiftr w 16.

(** *(a)++ = ((b) << 16) | ((c) & 0xffff) *)
Definition Storeinc (b c : Z) : Z := Z.lor (u32 (Z.shiftl b 16)) (lo16 c).

Fixpoint val (x : list Z) : Z :=
  match x with
  | [] => 0
  | w :: x => w + 2 ^ 32 * val x
  end.

Abbreviation words := (Forall (in_u 32)).

(** ** The loops *)

(** multadd: the words from [i] on, [n] of them, times [m] plus [a]; the carry. *)
Fixpoint multadd_loop (n i : nat) (x : list Z) (m a : Z) : option (list Z * Z) :=
  match n with
  | O => Some (x, a)
  | S n =>
      xi ← x !! i;
      let y := u32 (lo16 xi * m + a) in
      let z := u32 (hi16 xi * m + hi16 y) in
      let a := s32 (hi16 z) in
      multadd_loop n (S i) (<[i := u32 (u32 (Z.shiftl z 16) + lo16 y)]> x) m a
  end.

(** mult, the low half [y] of a word: the words [xs] times [y] are added at [i]. *)
Fixpoint mult_low (xs : list Z) (y : Z) (c : list Z) (i : nat) (carry : Z) : option (list Z) :=
  match xs with
  | [] => if decide (i < length c)%nat then Some (<[i := carry]> c) else None
  | x :: xs =>
      w ← c !! i;
      let z := u32 (lo16 x * y + lo16 w + carry) in
      let carry := hi16 z in
      let z2 := u32 (hi16 x * y + hi16 w + carry) in
      let carry := hi16 z2 in
      mult_low xs y (<[i := Storeinc z2 z]> c) (S i) carry
  end.

(** mult, the high half: 2^16 times [y] times the words [xs]. *)
Fixpoint mult_high (xs : list Z) (y : Z) (c : list Z) (i : nat) (carry z2 : Z) : option (list Z) :=
  match xs with
  | [] => if decide (i < length c)%nat then Some (<[i := z2]> c) else None
  | x :: xs =>
      w ← c !! i;
      let z := u32 (lo16 x * y + hi16 w + carry) in
      let carry := hi16 z in
      let c := <[i := Storeinc z z2]> c in
      w ← c !! S i;
      let z2 := u32 (hi16 x * y + lo16 w + carry) in
      let carry := hi16 z2 in
      mult_high xs y c (S i) carry z2
  end.

(** mult: the outer loop over the words of the second factor. *)
Fixpoint mult_loop (xs ys : list Z) (c : list Z) (i : nat) : option (list Z) :=
  match ys with
  | [] => Some c
  | yw :: ys =>
      c ← (if lo16 yw =? 0 then Some c else mult_low xs (lo16 yw) c i 0);
      c ← (if hi16 yw =? 0 then Some c else z2 ← c !! i; mult_high xs (hi16 yw) c i 0 z2);
      mult_loop xs ys c (S i)
  end.

(** for (xc0 = c->_x, xc = xc0 + wc; wc > 0 && !*--xc; --wc) *)
Fixpoint trim (x : list Z) (wc : nat) : nat :=
  match wc with
  | O => O
  | S w => if default 0 (x !! w) =? 0 then trim x w else wc
  end.

(** lshift: the words [xs], shifted by [k] < 32, are stored at [i]; what is shifted out. *)
Fixpoint lshift_loop (xs : list Z) (k : Z) (x1 : list Z) (i : nat) (z : Z) : option (list Z * Z) :=
  match xs with
  | [] => Some (x1, z)
  | x :: xs =>
      if decide (i < length x1)%nat then
        lshift_loop xs k (<[i := Z.lor (u32 (Z.shiftl x k)) z]> x1) (S i) (Z.shiftr x (32 - k))
      else None
  end.

(** cmp: from the word before [j] down. *)
Fixpoint cmp_loop (xa xb : list Z) (j : nat) : Z :=
  match j with
  | O => 0
  | S j =>
      let a := default 0 (xa !! j) in let b := default 0 (xb !! j) in
      if negb (a =? b) then (if a <? b then -1 else 1) else cmp_loop xa xb j
  end.

(** diff: one word of the minuend and of the subtrahend (0 when that has ended). *)
Definition diff_word (a b borrow : Z) : Z * Z :=
  let y := s32 (lo16 a - lo16 b + borrow) in
  let borrow := Z.shiftr y 16 in
  let z := s32 (hi16 a - hi16 b + borrow) in
  let borrow := Z.shiftr z 16 in
  (Storeinc z y, borrow).

Fixpoint diff_loop (xa xb : list Z) (borrow : Z) : list Z :=
  match xa, xb with
  | a :: xa, b :: xb => let '(w, borrow) := diff_word a b borrow in w :: diff_loop xa xb borrow
  | a :: xa, [] => let '(w, borrow) := diff_word a 0 borrow in w :: diff_loop xa [] borrow
  | [], _ => []
  end.

(** ** Halves *)

Lemma lo16_eq w : lo16 w = w mod 2 ^ 16.
Proof. unfold lo16. change 0xffff with (Z.ones 16). by rewrite Z.land_ones. Qed.

Lemma hi16_eq w : hi16 w = w / 2 ^ 16.
Proof. unfold hi16. by rewrite Z.shiftr_div_pow2. Qed.

Lemma lor_disjoint a b n : 0 <= n -> 0 <= b < 2 ^ n -> a mod 2 ^ n = 0 -> Z.lor a b = a + b.
Proof.
  intros Hn Hb Ha. pose proof (Z.add_lor_land a b) as E. assert (Hz : Z.land a b = 0); [|lia]. apply Z.bits_inj'. intros i Hi.
  rewrite Z.land_spec, Z.bits_0. destruct (Z.lt_ge_cases i n).
  - apply Z.mod_divide in Ha as [q ->]; [|apply Z.pow_nonzero; lia]. by rewrite Z.mul_pow2_bits_low.
  - destruct (decide (b = 0)) as [->|]; [by rewrite Z.bits_0, andb_false_r|].
    rewrite (Z.bits_above_log2 b i); [apply andb_false_r|lia|]. apply Z.log2_lt_pow2; [lia|].
    apply Z.lt_le_trans with (2 ^ n); [lia|]. apply Z.pow_le_mono_r; lia.
Qed.

Lemma shiftl16_u32 z : u32 (Z.shiftl z 16) = (z mod 2 ^ 16) * 2 ^ 16.
Proof. rewrite Z.shiftl_mul_pow2 by lia. unfold uwrap. change (2 ^ 32) with (2 ^ 16 * 2 ^ 16). by rewrite Z.mul_mod_distr_r. Qed.

Lemma Storeinc_eq b c : Storeinc b c = (b mod 2 ^ 16) * 2 ^ 16 + c mod 2 ^ 16.
Proof.
  unfold Storeinc. rewrite shiftl16_u32, lo16_eq. apply (lor_disjoint _ _ 16); [lia|apply Z.mod_pos_bound; lia|]. apply Z_mod_mult.
Qed.

(** What the context says of quotients and remainders by powers of two, for lia. *)
Ltac halves := rewrite ?Storeinc_eq, ?shiftl16_u32, ?hi16_eq, ?lo16_eq in *.
Ltac qlia := Z.to_euclidean_division_equations; lia.

Lemma in_u32 w : in_u 32 w <-> 0 <= w < 2 ^ 32.
Proof. done. Qed.

(** *** Values *)

Lemma val_app x y : val (x ++ y) = val x + 2 ^ (32 * Z.of_nat (length x)) * val y.
Proof.
  induction x as [|w x IH]; cbn [app val length]; [lia|]. rewrite IH, Nat2Z.inj_succ, Z.mul_succ_r, Z.pow_add_r by lia. lia.
Qed.

Lemma val_bound x : words x -> 0 <= val x < 2 ^ (32 * Z.of_nat (length x)).
Proof.
  induction 1 as [|w x Hw _ IH]; cbn [val length]; [lia|]. rewrite Nat2Z.inj_succ, Z.mul_succ_r, Z.pow_add_r by lia. rewrite in_u32 in Hw. nia.
Qed.

Lemma val_zeros n : val (replicate n 0) = 0.
Proof. induction n as [|n IH]; cbn [replicate val]; lia. Qed.

Lemma insert_middle (p : list Z) w v q : <[length p := v]> (p ++ w :: q) = p ++ v :: q.
Proof. by rewrite insert_app_r_alt, Nat.sub_diag by lia. Qed.

Lemma insert_mid_at (p : list Z) w v q i : i = length p -> <[i := v]> (p ++ w :: q) = p ++ v :: q.
Proof. intros ->. apply insert_middle. Qed.

Lemma lookup_mid_at (p : list Z) w q i : i = length p -> (p ++ w :: q) !! i = Some w.
Proof. intros ->. by rewrite lookup_app_r, Nat.sub_diag by lia. Qed.

Lemma snoc_app {A} (p : list A) w q : p ++ w :: q = (p ++ [w]) ++ q.
Proof. by rewrite <- app_assoc. Qed.

(** *** multadd *)

(** A word in halves, and a product of halves. *)
Lemma split16 w : w = lo16 w + 2 ^ 16 * hi16 w /\ 0 <= lo16 w < 2 ^ 16.
Proof. halves. pose proof (Z.div_mod w (2 ^ 16) ltac:(lia)). pose proof (Z.mod_pos_bound w (2 ^ 16) ltac:(lia)). lia. Qed.

Lemma hi16_range w : in_u 32 w -> 0 <= hi16 w < 2 ^ 16.
Proof. rewrite in_u32. halves. intros. qlia. Qed.

Lemma half_product a b c d : 0 <= a < 2 ^ 16 -> 0 <= b < 2 ^ 16 -> 0 <= c < 2 ^ 16 -> 0 <= d < 2 ^ 16 -> in_u 32 (a * b + c + d).
Proof. rewrite in_u32. nia. Qed.

Lemma in_u32_16 w : 0 <= w < 2 ^ 16 -> in_u 32 w.
Proof. rewrite in_u32. lia. Qed.

Lemma multadd_word w m a : in_u 32 w -> 0 <= m < 2 ^ 16 -> 0 <= a < 2 ^ 16 ->
  let y := u32 (lo16 w * m + a) in let z := u32 (hi16 w * m + hi16 y) in
  let v := u32 (u32 (Z.shiftl z 16) + lo16 y) in
  in_u 32 v /\ 0 <= s32 (hi16 z) < 2 ^ 16 /\ v + 2 ^ 32 * s32 (hi16 z) = w * m + a.
Proof.
  intros Hw Hm Ha y z v. destruct (split16 w) as [Ew Hl]. pose proof (hi16_range w Hw) as Hh.
  assert (Hy : in_u 32 (lo16 w * m + a)) by (pose proof (half_product (lo16 w) m a 0); rewrite in_u32 in *; lia).
  assert (Ey : y = lo16 w * m + a) by (by apply uwrap_small). rewrite <- Ey in Hy. destruct (split16 y) as [Es Hly]. pose proof (hi16_range y Hy) as Hhy.
  assert (Hz : in_u 32 (hi16 w * m + hi16 y)) by (pose proof (half_product (hi16 w) m (hi16 y) 0); rewrite in_u32 in *; lia).
  assert (Ez : z = hi16 w * m + hi16 y) by (by apply uwrap_small). rewrite <- Ez in Hz. destruct (split16 z) as [Ezs Hlz]. pose proof (hi16_range z Hz) as Hhz.
  assert (Ev : v = lo16 z * 2 ^ 16 + lo16 y).
  { unfold v. rewrite shiftl16_u32, <- lo16_eq. apply uwrap_small. rewrite in_u32. lia. }
  rewrite (swrap_small 32 (hi16 z)) by (unfold in_s; lia). rewrite Ev, in_u32. split; [lia|]. split; [lia|]. clearbody y z v. nia.
Qed.

Lemma multadd_loop_ok mid : forall m a pre post, words mid -> 0 <= m < 2 ^ 16 -> 0 <= a < 2 ^ 16 ->
  exists mid' a', multadd_loop (length mid) (length pre) (pre ++ mid ++ post) m a = Some (pre ++ mid' ++ post, a') /\
    length mid' = length mid /\ words mid' /\ 0 <= a' < 2 ^ 16 /\
    val mid' + 2 ^ (32 * Z.of_nat (length mid)) * a' = m * val mid + a.
Proof.
  induction mid as [|w mid IH]; intros m a pre post Hw Hm Ha; cbn [length multadd_loop app].
  - exists [], a. split; [done|]. split; [done|]. split; [done|]. split; [done|]. cbn. lia.
  - apply Forall_cons in Hw as [Hw Hmid]. rewrite lookup_mid_at by done. cbn [mbind option_bind].
    destruct (multadd_word w m a Hw Hm Ha) as (Hv & Ha2 & Ev). set (v := u32 (u32 _ + _)) in *. set (a2 := s32 _) in *. clearbody v a2.
    rewrite insert_middle, snoc_app. replace (S (length pre)) with (length (pre ++ [v])) by (rewrite length_app; cbn; lia).
    destruct (IH m a2 (pre ++ [v]) post Hmid Hm Ha2) as (mid' & a' & -> & Hl & Hws & Ha' & E).
    exists (v :: mid'), a'. split; [by rewrite <- app_assoc|]. split; [cbn; lia|]. split; [by constructor|]. split; [done|].
    cbn [val length]. rewrite Nat2Z.inj_succ, Z.mul_succ_r, Z.pow_add_r by lia. nia.
Qed.

(** *** mult *)

Lemma store_halves b c : Storeinc b c = lo16 b * 2 ^ 16 + lo16 c /\ in_u 32 (Storeinc b c).
Proof. rewrite Storeinc_eq, <- !lo16_eq, in_u32. destruct (split16 b) as [_ ?], (split16 c) as [_ ?]. lia. Qed.

Lemma low_word x w y carry : in_u 32 x -> in_u 32 w -> 0 <= y < 2 ^ 16 -> 0 <= carry < 2 ^ 16 ->
  let z := u32 (lo16 x * y + lo16 w + carry) in let z2 := u32 (hi16 x * y + hi16 w + hi16 z) in
  in_u 32 (Storeinc z2 z) /\ 0 <= hi16 z2 < 2 ^ 16 /\ Storeinc z2 z + 2 ^ 32 * hi16 z2 = w + y * x + carry.
Proof.
  intros Hx Hw Hy Hc z z2. destruct (split16 x) as [Ex Hlx], (split16 w) as [Ew Hlw]. pose proof (hi16_range x Hx). pose proof (hi16_range w Hw).
  assert (Hz : in_u 32 (lo16 x * y + lo16 w + carry)) by (by apply half_product).
  assert (Ez : z = lo16 x * y + lo16 w + carry) by (by apply uwrap_small). rewrite <- Ez in Hz. destruct (split16 z) as [Es Hlz]. pose proof (hi16_range z Hz).
  assert (Hz2 : in_u 32 (hi16 x * y + hi16 w + hi16 z)) by (by apply half_product).
  assert (Ez2 : z2 = hi16 x * y + hi16 w + hi16 z) by (by apply uwrap_small). rewrite <- Ez2 in Hz2. destruct (split16 z2) as [Es2 Hlz2].
  pose proof (hi16_range z2 Hz2). destruct (store_halves z2 z) as [E Hs]. split; [done|]. split; [done|]. rewrite E. clearbody z z2. nia.
Qed.

Lemma mult_low_ok xs : forall y carry pre mid t post, words xs -> words mid -> length mid = length xs ->
  0 <= y < 2 ^ 16 -> 0 <= carry < 2 ^ 16 ->
  exists mid' t', mult_low xs y (pre ++ mid ++ t :: post) (length pre) carry = Some (pre ++ mid' ++ t' :: post) /\
    length mid' = length mid /\ words mid' /\ 0 <= t' < 2 ^ 16 /\
    val mid' + 2 ^ (32 * Z.of_nat (length xs)) * t' = val mid + y * val xs + carry.
Proof.
  induction xs as [|x xs IH]; intros y carry pre mid t post Hx Hm Hl Hy Hc; cbn [length mult_low].
  - destruct mid; [|done]. cbn [app]. rewrite decide_True by (rewrite length_app; cbn; lia). rewrite insert_middle.
    exists [], carry. split; [done|]. split; [done|]. split; [done|]. split; [done|]. cbn. lia.
  - destruct mid as [|w mid]; [done|]. apply Forall_cons in Hx as [Hx Hxs]. apply Forall_cons in Hm as [Hw Hmid]. cbn in Hl.
    cbn [app]. rewrite lookup_mid_at by done. cbn [mbind option_bind]. destruct (low_word x w y carry Hx Hw Hy Hc) as (Hv & Hc2 & Ev).
    set (v := Storeinc _ _) in *. set (c2 := hi16 (u32 (hi16 x * y + _ + _))) in *. clearbody v c2.
    rewrite insert_middle, snoc_app. replace (S (length pre)) with (length (pre ++ [v])) by (rewrite length_app; cbn; lia).
    destruct (IH y c2 (pre ++ [v]) mid t post Hxs Hmid) as (mid' & t' & -> & Hl' & Hws & Ht' & E); [lia|done|done|].
    exists (v :: mid'), t'. split; [by rewrite <- app_assoc|]. split; [cbn; lia|]. split; [by constructor|]. split; [done|].
    cbn [val length]. rewrite Nat2Z.inj_succ, Z.mul_succ_r, Z.pow_add_r by lia. nia.
Qed.

Lemma high_word x w w2 y carry z2 : in_u 32 x -> in_u 32 w -> in_u 32 w2 -> 0 <= y < 2 ^ 16 -> 0 <= carry < 2 ^ 16 ->
  let z := u32 (lo16 x * y + hi16 w + carry) in let z2' := u32 (hi16 x * y + lo16 w2 + hi16 z) in
  in_u 32 (Storeinc z z2) /\ in_u 32 z2' /\
  Storeinc z z2 + 2 ^ 32 * z2' = lo16 z2 + 2 ^ 16 * (hi16 w + carry) + 2 ^ 16 * y * x + 2 ^ 32 * lo16 w2.
Proof.
  intros Hx Hw Hw2 Hy Hc z z2'. destruct (split16 x) as [Ex Hlx], (split16 w2) as [Ew2 Hlw2]. pose proof (hi16_range x Hx). pose proof (hi16_range w Hw).
  assert (Hz : in_u 32 (lo16 x * y + hi16 w + carry)) by (by apply half_product).
  assert (Ez : z = lo16 x * y + hi16 w + carry) by (by apply uwrap_small). rewrite <- Ez in Hz. destruct (split16 z) as [Es Hlz]. pose proof (hi16_range z Hz).
  assert (Hz2 : in_u 32 (hi16 x * y + lo16 w2 + hi16 z)) by (by apply half_product).
  assert (Ez2 : z2' = hi16 x * y + lo16 w2 + hi16 z) by (by apply uwrap_small). rewrite <- Ez2 in Hz2.
  destruct (store_halves z z2) as [E Hs]. split; [done|]. split; [done|]. rewrite E. clearbody z z2'. nia.
Qed.

(** The word at the place reached is still to be read in its high half; its low half and
    what is carried are [z2] and [carry]. *)
Lemma mult_high_ok xs : forall y carry z2 pre mid t post, words xs -> words (mid ++ [t]) -> length mid = length xs ->
  0 <= y < 2 ^ 16 -> 0 <= carry < 2 ^ 16 -> 0 <= t < 2 ^ 16 -> in_u 32 z2 -> (xs = [] -> carry = hi16 z2) ->
  exists mid' t', mult_high xs y (pre ++ mid ++ t :: post) (length pre) carry z2 = Some (pre ++ mid' ++ t' :: post) /\
    length mid' = length mid /\ words (mid' ++ [t']) /\
    val (mid' ++ [t']) = val (mid ++ [t]) - lo16 (default 0 (head (mid ++ [t]))) + lo16 z2 + 2 ^ 16 * carry + 2 ^ 16 * y * val xs.
Proof.
  induction xs as [|x xs IH]; intros y carry z2 pre mid t post Hx Hm Hl Hy Hc Ht Hz Hlast; cbn [length mult_high].
  - destruct mid; [|done]. cbn [app]. rewrite decide_True by (rewrite length_app; cbn; lia). rewrite insert_middle.
    exists [], z2. split; [done|]. split; [done|]. split; [by constructor|]. rewrite (Hlast eq_refl). destruct (split16 z2), (split16 t).
    assert (hi16 t = 0) by (halves; qlia). cbn. lia.
  - destruct mid as [|w mid]; [done|]. apply Forall_cons in Hx as [Hx Hxs]. cbn [app] in *. apply Forall_cons in Hm as [Hw Hmid]. cbn in Hl.
    rewrite lookup_mid_at by done. cbn [mbind option_bind].
    assert (exists w2 rest, mid ++ [t] = w2 :: rest /\ mid ++ t :: post = w2 :: rest ++ post) as (w2 & rest & E1 & E2).
    { destruct mid as [|w2 mid]; cbn; [by exists t, []|]. exists w2, (mid ++ [t]). by rewrite <- app_assoc. }
    assert (Hw2 : in_u 32 w2) by (rewrite E1 in Hmid; by apply Forall_cons in Hmid as [? _]).
    destruct (high_word x w w2 y carry z2 Hx Hw Hw2 Hy Hc) as (Hv & Hz2 & Ev).
    set (z := u32 (lo16 x * y + hi16 w + carry)) in *. set (v := Storeinc z z2) in *.
    rewrite insert_middle, snoc_app. replace (S (length pre)) with (length (pre ++ [v])) by (rewrite length_app; cbn; lia).
    rewrite E2, lookup_mid_at by done. cbn [mbind option_bind]. rewrite <- E2.
    set (z2' := u32 (hi16 x * y + lo16 w2 + hi16 z)) in *. clearbody z v z2'.
    destruct (IH y (hi16 z2') z2' (pre ++ [v]) mid t post Hxs Hmid) as (mid' & t' & -> & Hl' & Hws & E); [lia|done|by apply hi16_range|done|done|done|].
    exists (v :: mid'), t'. split; [by rewrite <- app_assoc|]. split; [cbn; lia|]. split; [by constructor|].
    cbn [val head default app]. rewrite E, E1. cbn [head from_option]. destruct (split16 w) as [Ew _], (split16 z2') as [Ez2 _]. cbn [id]. nia.
Qed.

(** One word of the second factor. *)
Lemma mult_step xs yw pre mid post : words xs -> xs <> [] -> words mid -> length mid = length xs -> in_u 32 yw ->
  exists mid' t c1, (if lo16 yw =? 0 then Some (pre ++ mid ++ 0 :: post) else mult_low xs (lo16 yw) (pre ++ mid ++ 0 :: post) (length pre) 0) = Some c1 /\
    (if hi16 yw =? 0 then Some c1 else z2 ← c1 !! length pre; mult_high xs (hi16 yw) c1 (length pre) 0 z2) = Some (pre ++ mid' ++ t :: post) /\
    length mid' = length mid /\ words (mid' ++ [t]) /\ val (mid' ++ [t]) = val mid + yw * val xs.
Proof.
  intros Hx Hne Hm Hl Hy. destruct (split16 yw) as [Ey Hlo]. pose proof (hi16_range yw Hy) as Hhi.
  assert (exists mid1 t1, (if lo16 yw =? 0 then Some (pre ++ mid ++ 0 :: post) else mult_low xs (lo16 yw) (pre ++ mid ++ 0 :: post) (length pre) 0) = Some (pre ++ mid1 ++ t1 :: post) /\
    length mid1 = length mid /\ words (mid1 ++ [t1]) /\ 0 <= t1 < 2 ^ 16 /\ val (mid1 ++ [t1]) = val mid + lo16 yw * val xs) as (mid1 & t1 & E1 & L1 & W1 & T1 & V1).
  { destruct (Z.eqb_spec (lo16 yw) 0) as [E0|E0].
    - exists mid, 0. split; [done|]. split; [done|]. split; [apply Forall_app; by repeat constructor|]. split; [lia|]. rewrite val_app, E0. cbn. lia.
    - destruct (mult_low_ok xs (lo16 yw) 0 pre mid 0 post Hx Hm Hl Hlo) as (mid1 & t1 & E & L & W & T & V); [lia|].
      exists mid1, t1. split; [done|]. split; [done|]. split; [apply Forall_app; split; [done|constructor; [by apply in_u32_16|done]]|]. split; [done|].
      rewrite val_app, L, Hl. cbn. lia. }
  destruct (Z.eqb_spec (hi16 yw) 0) as [E0|E0].
  - exists mid1, t1. eexists. split; [exact E1|]. split; [done|]. split; [done|]. split; [done|]. rewrite V1. assert (yw * val xs = lo16 yw * val xs + 2 ^ 16 * hi16 yw * val xs) by (rewrite <- Z.mul_add_distr_r; by rewrite <- Ey). rewrite E0 in *. lia.
  - destruct mid1 as [|w mid1]; [destruct xs; [done|cbn in *; lia]|].
    assert (Hz : in_u 32 w) by (cbn in W1; by apply Forall_cons in W1 as [? _]).
    destruct (mult_high_ok xs (hi16 yw) 0 w pre (w :: mid1) t1 post Hx W1) as (mid2 & t2 & E & L & W & V); [lia|done|lia|done|done|by intros ->|].
    exists mid2, t2. eexists. split; [exact E1|]. split; [cbn [app]; rewrite lookup_mid_at by done; exact E|]. split; [lia|]. split; [done|].
    rewrite V, V1. cbn [app head from_option id]. assert (yw * val xs = lo16 yw * val xs + 2 ^ 16 * hi16 yw * val xs) by (rewrite <- Z.mul_add_distr_r; by rewrite <- Ey). lia.
Qed.

Lemma mult_loop_ok xs ys : words xs -> xs <> [] -> words ys -> forall pre mid junk, words mid -> length mid = length xs ->
  exists res, mult_loop xs ys (pre ++ mid ++ replicate (length ys) 0 ++ junk) (length pre) = Some (pre ++ res ++ junk) /\
    length res = (length xs + length ys)%nat /\ words res /\ val res = val mid + val xs * val ys.
Proof.
  intros Hx Hne Hy. induction Hy as [|yw ys Hyw Hys IH]; intros pre mid junk Hm Hl; cbn [mult_loop length replicate app].
  - exists mid. split; [done|]. split; [lia|]. split; [done|]. cbn. lia.
  - destruct (mult_step xs yw pre mid (replicate (length ys) 0 ++ junk) Hx Hne Hm Hl Hyw) as (mid' & t & c1 & E1 & E2 & L & W & V).
    rewrite E1. cbn [mbind option_bind]. rewrite E2. cbn [mbind option_bind].
    destruct mid' as [|v mid']; [destruct xs; [done|cbn in *; lia]|]. cbn [app] in *. apply Forall_cons in W as [Wv Wm]. cbn in L.
    replace (pre ++ v :: mid' ++ t :: replicate (length ys) 0 ++ junk) with ((pre ++ [v]) ++ (mid' ++ [t]) ++ replicate (length ys) 0 ++ junk) by (by rewrite <- !app_assoc).
    replace (S (length pre)) with (length (pre ++ [v])) by (rewrite length_app; cbn; lia).
    destruct (IH (pre ++ [v]) (mid' ++ [t]) junk Wm) as (res & -> & Lr & Wr & Vr); [rewrite length_app; cbn; lia|].
    exists (v :: res). split; [by rewrite <- app_assoc|]. split; [cbn; lia|]. split; [by constructor|]. cbn [val] in *. rewrite Vr. lia.
Qed.

(** *** Leading zeros *)

Lemma trim_le x n : (trim x n <= n)%nat.
Proof. induction n as [|n IH]; cbn; [lia|]. case_match; lia. Qed.

Lemma trim_val x n : val (take (trim x n) x) = val (take n x).
Proof.
  induction n as [|n IH]; cbn [trim]; [done|]. destruct (Z.eqb_spec (default 0 (x !! n)) 0) as [E|E]; [|done]. rewrite IH.
  destruct (x !! n) as [w|] eqn:Ew; cbn in E.
  - rewrite (take_S_r x n w Ew), val_app, E. cbn. lia.
  - apply lookup_ge_None in Ew. by rewrite !take_ge by lia.
Qed.

Lemma trim_top x n : (trim x n = 0)%nat \/ default 0 (x !! (trim x n - 1)%nat) <> 0.
Proof.
  induction n as [|n IH]; cbn [trim]; [by left|]. destruct (Z.eqb_spec (default 0 (x !! n)) 0) as [E|E]; [done|]. right. cbn. by rewrite Nat.sub_0_r.
Qed.

(** *** lshift *)

Lemma shiftl_u32 x k : 0 <= k < 32 -> u32 (Z.shiftl x k) = 2 ^ k * (x mod 2 ^ (32 - k)).
Proof.
  intros Hk. rewrite Z.shiftl_mul_pow2 by lia. unfold uwrap. replace (2 ^ 32) with (2 ^ (32 - k) * 2 ^ k) by (rewrite <- Z.pow_add_r by lia; f_equal; lia).
  assert (0 < 2 ^ k) by (apply Z.pow_pos_nonneg; lia). assert (0 < 2 ^ (32 - k)) by (apply Z.pow_pos_nonneg; lia).
  rewrite Z.mul_mod_distr_r by lia. lia.
Qed.

Lemma lshift_word x k z : in_u 32 x -> 0 < k < 32 -> 0 <= z < 2 ^ k ->
  let v := Z.lor (u32 (Z.shiftl x k)) z in let z' := Z.shiftr x (32 - k) in
  in_u 32 v /\ 0 <= z' < 2 ^ k /\ v + 2 ^ 32 * z' = 2 ^ k * x + z.
Proof.
  intros Hx Hk Hz v z'. rewrite in_u32 in *. assert (0 < 2 ^ k) by (apply Z.pow_pos_nonneg; lia). assert (0 < 2 ^ (32 - k)) by (apply Z.pow_pos_nonneg; lia).
  assert (E32 : 2 ^ 32 = 2 ^ (32 - k) * 2 ^ k) by (rewrite <- Z.pow_add_r by lia; f_equal; lia).
  assert (Ev : v = 2 ^ k * (x mod 2 ^ (32 - k)) + z).
  { unfold v. rewrite shiftl_u32 by lia. apply (lor_disjoint _ _ k); [lia|done|]. rewrite Z.mul_comm. apply Z_mod_mult. }
  assert (Ez : z' = x / 2 ^ (32 - k)) by (unfold z'; by rewrite Z.shiftr_div_pow2 by lia).
  pose proof (Z.div_mod x (2 ^ (32 - k)) ltac:(lia)) as D. pose proof (Z.mod_pos_bound x (2 ^ (32 - k)) ltac:(lia)) as M.
  assert (0 <= x / 2 ^ (32 - k) < 2 ^ k) by (split; [apply Z.div_pos; lia|apply Z.div_lt_upper_bound; lia]).
  rewrite Ev, Ez. split; [|split; [done|]]; nia.
Qed.

Lemma lshift_loop_ok xs : forall k z pre mid post, words xs -> length mid = length xs -> 0 < k < 32 -> 0 <= z < 2 ^ k ->
  exists mid' z', lshift_loop xs k (pre ++ mid ++ post) (length pre) z = Some (pre ++ mid' ++ post, z') /\
    length mid' = length xs /\ words mid' /\ 0 <= z' < 2 ^ k /\
    val mid' + 2 ^ (32 * Z.of_nat (length xs)) * z' = 2 ^ k * val xs + z.
Proof.
  induction xs as [|x xs IH]; intros k z pre mid post Hx Hl Hk Hz; cbn [length lshift_loop].
  - destruct mid; [|done]. exists [], z. split; [done|]. split; [done|]. split; [done|]. split; [done|]. cbn. lia.
  - destruct mid as [|w mid]; [done|]. apply Forall_cons in Hx as [Hx Hxs]. cbn in Hl. rewrite decide_True by (rewrite !length_app; cbn; lia).
    destruct (lshift_word x k z Hx Hk Hz) as (Hv & Hz' & E). set (v := Z.lor _ _) in *. set (z1 := Z.shiftr x _) in *. clearbody v z1.
    cbn [app]. rewrite insert_middle, snoc_app. replace (S (length pre)) with (length (pre ++ [v])) by (rewrite length_app; cbn; lia).
    destruct (IH k z1 (pre ++ [v]) mid post Hxs) as (mid' & z' & -> & Hl' & Hws & Hz2 & E2); [lia|done|done|].
    exists (v :: mid'), z'. split; [by rewrite <- app_assoc|]. split; [cbn; lia|]. split; [by constructor|]. split; [done|].
    cbn [val length]. rewrite Nat2Z.inj_succ, Z.mul_succ_r, Z.pow_add_r by lia. nia.
Qed.

(** *** cmp and diff *)

Lemma take_val x j w : x !! j = Some w -> val (take (S j) x) = val (take j x) + 2 ^ (32 * Z.of_nat j) * w.
Proof.
  intros H. rewrite (take_S_r x j w H), val_app, length_take. apply lookup_lt_Some in H. rewrite Nat.min_l by lia. cbn. lia.
Qed.

Lemma take_bound x j : words x -> (j <= length x)%nat -> 0 <= val (take j x) < 2 ^ (32 * Z.of_nat j).
Proof. intros Hx Hj. pose proof (val_bound (take j x) (Forall_take _ j x Hx)) as H. by rewrite length_take, Nat.min_l in H by lia. Qed.

Lemma cmp_loop_ok xa xb j : words xa -> words xb -> (j <= length xa)%nat -> (j <= length xb)%nat ->
  cmp_loop xa xb j = Z.sgn (val (take j xa) - val (take j xb)).
Proof.
  intros Ha Hb. induction j as [|j IH]; intros Hla Hlb; [done|]. cbn [cmp_loop].
  destruct (lookup_lt_is_Some_2 xa j) as [a Ea]; [lia|]. destruct (lookup_lt_is_Some_2 xb j) as [b Eb]; [lia|].
  rewrite (take_val xa j a Ea), (take_val xb j b Eb), Ea, Eb. cbn [from_option id]. change (default 0 (Some a)) with a. change (default 0 (Some b)) with b.
  pose proof (take_bound xa j Ha ltac:(lia)) as Ba. pose proof (take_bound xb j Hb ltac:(lia)) as Bb. set (p := 2 ^ (32 * Z.of_nat j)) in *. clearbody p.
  destruct (Z.eqb_spec a b) as [->|Hne]; cbn [negb].
  - rewrite IH by lia. f_equal. lia.
  - destruct (Z.ltb_spec a b); symmetry; [apply Z.sgn_neg|apply Z.sgn_pos]; nia.
Qed.

Lemma shiftr_borrow y : - 2 ^ 16 <= y < 2 ^ 16 -> (Z.shiftr y 16 = 0 \/ Z.shiftr y 16 = -1) /\ y = lo16 y + 2 ^ 16 * Z.shiftr y 16.
Proof.
  intros Hy. rewrite Z.shiftr_div_pow2 by lia. destruct (split16 y) as [E _]. rewrite hi16_eq in E. split; [|done].
  change (2 ^ 16) with 65536 in *. Z.to_euclidean_division_equations; lia.
Qed.

Lemma diff_word_ok a b borrow : in_u 32 a -> in_u 32 b -> borrow = 0 \/ borrow = -1 ->
  exists w borrow', diff_word a b borrow = (w, borrow') /\ in_u 32 w /\ (borrow' = 0 \/ borrow' = -1) /\ w + 2 ^ 32 * borrow' = a - b + borrow.
Proof.
  intros Ha Hb Hbo. unfold diff_word. destruct (split16 a) as [Ea Hla], (split16 b) as [Eb Hlb]. pose proof (hi16_range a Ha). pose proof (hi16_range b Hb).
  rewrite (swrap_small 32 (lo16 a - lo16 b + borrow)) by (unfold in_s; lia). set (y := lo16 a - lo16 b + borrow).
  destruct (shiftr_borrow y) as [Hy Ey]; [unfold y; lia|].
  rewrite (swrap_small 32 (hi16 a - hi16 b + Z.shiftr y 16)) by (unfold in_s; lia). set (z := hi16 a - hi16 b + Z.shiftr y 16).
  destruct (shiftr_borrow z) as [Hz Ez]; [unfold z; lia|]. destruct (store_halves z y) as [Es Hs].
  eexists _, _. split; [reflexivity|]. split; [done|]. split; [done|]. rewrite Es.
  assert (Dy : y = lo16 a - lo16 b + borrow) by done. assert (Dz : z = hi16 a - hi16 b + Z.shiftr y 16) by done. clearbody y z. clear Es Hs Hy Hz.
  generalize dependent (Z.shiftr y 16). generalize dependent (Z.shiftr z 16). intros. lia.
Qed.

Lemma diff_loop_ok xa : forall xb borrow, words xa -> words xb -> (length xb <= length xa)%nat -> borrow = 0 \/ borrow = -1 ->
  exists borrow', (borrow' = 0 \/ borrow' = -1) /\ words (diff_loop xa xb borrow) /\ length (diff_loop xa xb borrow) = length xa /\
    val (diff_loop xa xb borrow) + 2 ^ (32 * Z.of_nat (length xa)) * borrow' = val xa - val xb + borrow.
Proof.
  induction xa as [|a xa IH]; intros xb borrow Ha Hb Hl Hbo.
  - destruct xb; [|cbn in Hl; lia]. exists borrow. split; [done|]. split; [constructor|]. split; [done|]. cbn. lia.
  - apply Forall_cons in Ha as [Ha Hxa]. cbn [length]. rewrite Nat2Z.inj_succ, Z.mul_succ_r, Z.pow_add_r by lia. destruct xb as [|b xb]; cbn [diff_loop].
    + destruct (diff_word_ok a 0 borrow Ha) as (w & bo & -> & Hw & Hbo' & E); [by rewrite in_u32|done|].
      destruct (IH [] bo Hxa (Forall_nil_2 _) ltac:(cbn; lia) Hbo') as (bo2 & Hb2 & Hws & Hlen & E2).
      exists bo2. split; [done|]. split; [by constructor|]. split; [cbn; lia|]. cbn [val] in *. nia.
    + apply Forall_cons in Hb as [Hb Hxb]. destruct (diff_word_ok a b borrow Ha Hb Hbo) as (w & bo & -> & Hw & Hbo' & E).
      destruct (IH xb bo Hxa Hxb ltac:(cbn in Hl; lia) Hbo') as (bo2 & Hb2 & Hws & Hlen & E2).
      exists bo2. split; [done|]. split; [by constructor|]. split; [cbn; lia|]. cbn [val] in *. nia.
Qed.

Lemma diff_loop_val xa xb : words xa -> words xb -> (length xb <= length xa)%nat -> val xb <= val xa ->
  val (diff_loop xa xb 0) = val xa - val xb.
Proof.
  intros Ha Hb Hl Hle. destruct (diff_loop_ok xa xb 0 Ha Hb Hl (or_introl eq_refl)) as (bo & Hbo & Hw & Hlen & E).
  pose proof (val_bound _ Hw) as Hv. rewrite Hlen in Hv. set (p := 2 ^ (32 * Z.of_nat (length xa))) in *. clearbody p. destruct Hbo; subst bo; lia.
Qed.
