(* ===== verification/CBig.v ===== *)
(** Newlib's multiple-precision integers (stdlib/mprec.c): the objects, the free lists they
    are kept in, the cache of powers of five, and the arithmetic.

    calloc is a parameter: whether its n-th call gives a block, which is then new and zero.
    Every operation computes what the integer operation computes, stays within its objects,
    and touches no other object that is in use; the only failure is that of calloc, which
    ends in the assertion of eBalloc. *)

From S2P Require Import Prelude CBigWords.

(** ** Objects *)

Record _Bigint : Type := Bigint {
  _next : Z;
  _k : Z;
  _maxwds : Z;
  _sign : Z;
  _wds : Z;
  _x : list Z
}.

Definition with_next (p : Z) (b : _Bigint) : _Bigint := Bigint p (_k b) (_maxwds b) (_sign b) (_wds b) (_x b).
Definition with_sign (s : Z) (b : _Bigint) : _Bigint := Bigint (_next b) (_k b) (_maxwds b) s (_wds b) (_x b).
Definition with_words (n : Z) (x : list Z) (b : _Bigint) : _Bigint := Bigint (_next b) (_k b) (_maxwds b) (_sign b) n x.

(** The part of struct _reent, and how often calloc has been called. *)
Record mp : Type := Mp {
  bigs : gmap Z _Bigint;
  _freelist : option (list Z);
  _p5s : Z;
  callocs : nat
}.

Definition _Kmax : nat := 64.

Definition used_words (b : _Bigint) : list Z := take (Z.to_nat (_wds b)) (_x b).

(** ** The code *)

Section Code.
Context (gives : nat -> bool).

Definition deref (p : Z) : M mp _Bigint := w ← get_st; lift_opt (bigs w !! p).
Definition update (p : Z) (b : _Bigint) : M mp unit :=
  modify (fun w => Mp (<[p := b]> (bigs w)) (_freelist w) (_p5s w) (callocs w)).

(** The number of the call, or nothing. *)
Definition calloc : M mp (option nat) := fun w =>
  let n := callocs w in
  Ok (if gives n then Some n else None, Mp (bigs w) (_freelist w) (_p5s w) (S n)).

Definition set_freelist (l : list Z) : M mp unit := modify (fun w => Mp (bigs w) (Some l) (_p5s w) (callocs w)).
Definition set_p5s (p : Z) : M mp unit := modify (fun w => Mp (bigs w) (_freelist w) p (callocs w)).

(** The array of the free lists. *)
Definition get_freelist : M mp (option (list Z)) :=
  w ← get_st;
  match _freelist w with
  | Some l => mret (Some l)
  | None =>
      n ← calloc;
      match n with
      | None => mret None
      | Some _ => set_freelist (replicate (S _Kmax) 0);; mret (Some (replicate (S _Kmax) 0))
      end
  end.

Definition Balloc (k : Z) : M mp Z :=
  l ← get_freelist;
  match l with
  | None => mret 0
  | Some l =>
      rv ← lift_opt (if k <? 0 then None else l !! Z.to_nat k);
      rv ← (if negb (rv =? 0) then
              b ← deref rv;
              set_freelist (<[Z.to_nat k := _next b]> l);;
              mret rv
            else
              let x := s32 (Z.shiftl 1 k) in
              n ← calloc;
              match n with
              | None => mret 0
              | Some n =>
                  let rv := Z.of_nat n + 1 in
                  update rv (Bigint 0 k x 0 0 (replicate (Z.to_nat x) 0));;
                  mret rv
              end);
      if rv =? 0 then mret 0
      else
        b ← deref rv;
        update rv (Bigint (_next b) (_k b) (_maxwds b) 0 0 (_x b));;
        mret rv
  end.

Definition eBalloc (k : Z) : M mp Z :=
  p ← Balloc k;
  if p =? 0 then fail_with Aborted else mret p.

Definition Bfree (v : Z) : M mp unit :=
  if v =? 0 then mret tt
  else
    b ← deref v;
    w ← get_st;
    l ← lift_opt (_freelist w);
    h ← lift_opt (if _k b <? 0 then None else l !! Z.to_nat (_k b));
    update v (with_next h b);;
    set_freelist (<[Z.to_nat (_k b) := v]> l).

(** memcpy of the sign, the count and the words in use. *)
Definition Bcopy (x y : Z) : M mp unit :=
  b ← deref y;
  c ← deref x;
  let n := Z.to_nat (_wds b) in
  if decide (n <= length (_x b) /\ n <= length (_x c))%nat then
    update x (Bigint (_next c) (_k c) (_maxwds c) (_sign b) (_wds b) (take n (_x b) ++ drop n (_x c)))
  else fail_with Fault.

Definition set_word (p i v : Z) : M mp unit :=
  b ← deref p;
  if decide (0 <= i /\ (Z.to_nat i < length (_x b))%nat) then update p (with_words (_wds b) (<[Z.to_nat i := v]> (_x b)) b)
  else fail_with Fault.

Definition set_wds (p n : Z) : M mp unit := b ← deref p; update p (with_words n (_x b) b).

(** The words from the first on, as many as a loop reads. *)
Definition first_words (n : Z) (b : _Bigint) : M mp (list Z) :=
  if decide (0 <= n /\ (Z.to_nat n <= length (_x b))%nat) then mret (take (Z.to_nat n) (_x b)) else fail_with Fault.

Definition multadd (b : Z) (m a : Z) : M mp Z :=
  o ← deref b;
  let wds := _wds o in
  r ← lift_opt (multadd_loop (Z.to_nat (Z.max 1 wds)) 0 (_x o) m a);
  update b (with_words wds r.1 o);;
  let a := r.2 in
  if a =? 0 then mret b
  else
    b ← (if _maxwds o <=? wds then
           b1 ← eBalloc (_k o + 1);
           Bcopy b1 b;;
           Bfree b;;
           mret b1
         else mret b);
    set_word b wds a;;
    set_wds b (wds + 1);;
    mret b.

Definition i2b (i : Z) : M mp Z :=
  b ← eBalloc 1;
  set_word b 0 (u32 i);;
  set_wds b 1;;
  mret b.

Definition mult (a b : Z) : M mp Z :=
  oa ← deref a;
  ob ← deref b;
  let '(oa, ob) := if _wds oa <? _wds ob then (ob, oa) else (oa, ob) in
  let wa := _wds oa in
  let wb := _wds ob in
  let wc := wa + wb in
  c ← eBalloc (if _maxwds oa <? wc then _k oa + 1 else _k oa);
  oc ← deref c;
  zeroed ← first_words wc oc;
  xs ← first_words wa oa;
  ys ← first_words wb ob;
  res ← lift_opt (mult_loop xs ys (replicate (length zeroed) 0 ++ drop (length zeroed) (_x oc)) 0);
  update c (with_words (Z.of_nat (trim res (Z.to_nat wc))) res oc);;
  mret c.

Definition p05 (i : Z) : Z := if i =? 1 then 5 else if i =? 2 then 25 else 125.

(** for (;;), over the bits of [k], which is not 0. *)
Fixpoint pow5_loop (fuel : nat) (b p5 k : Z) : M mp Z :=
  match fuel with
  | O => fail_with OutOfFuel
  | S fuel =>
      b ← (if Z.odd k then b1 ← mult b p5; Bfree b;; mret b1 else mret b);
      let k := Z.shiftr k 1 in
      if k =? 0 then mret b
      else
        o ← deref p5;
        p51 ← (if _next o =? 0 then
                 p51 ← mult p5 p5;
                 o ← deref p5;
                 update p5 (with_next p51 o);;
                 o1 ← deref p51;
                 update p51 (with_next 0 o1);;
                 mret p51
               else mret (_next o));
        pow5_loop fuel b p51 k
  end.

Definition pow5mult (fuel : nat) (b k : Z) : M mp Z :=
  let i := Z.land k 3 in
  b ← (if negb (i =? 0) then multadd b (p05 i) 0 else mret b);
  let k := Z.shiftr k 2 in
  if k =? 0 then mret b
  else
    w ← get_st;
    p5 ← (if _p5s w =? 0 then
            p ← i2b 625;
            set_p5s p;;
            o ← deref p;
            update p (with_next 0 o);;
            mret p
          else mret (_p5s w));
    pow5_loop fuel b p5 k.

(** for (i = b->_maxwds; n1 > i; i <<= 1) k1++ *)
Fixpoint grow_k (fuel : nat) (i n1 k1 : Z) : Z :=
  match fuel with
  | O => k1
  | S fuel => if i <? n1 then grow_k fuel (s32 (Z.shiftl i 1)) n1 (k1 + 1) else k1
  end.

Definition lshift (b k : Z) : M mp Z :=
  o ← deref b;
  let n := Z.shiftr k 5 in
  let n1 := n + _wds o + 1 in
  b1 ← eBalloc (grow_k 32 (_maxwds o) n1 (_k o));
  o1 ← deref b1;
  zeroed ← first_words n o1;
  xs ← first_words (Z.max 1 (_wds o)) o;
  let x1 := replicate (length zeroed) 0 ++ drop (length zeroed) (_x o1) in
  let k := Z.land k 31 in
  if negb (k =? 0) then
    r ← lift_opt (lshift_loop xs k x1 (length zeroed) 0);
    let '(x1, z) := r in
    let i := (length zeroed + length xs)%nat in
    if decide (i < length x1)%nat then
      update b1 (with_words (if z =? 0 then n1 - 1 else n1) (<[i := z]> x1) o1);;
      Bfree b;;
      mret b1
    else fail_with Fault
  else if decide (length zeroed + length xs <= length x1)%nat then
    update b1 (with_words (n1 - 1) (replicate (length zeroed) 0 ++ xs ++ drop (length zeroed + length xs) x1) o1);;
    Bfree b;;
    mret b1
  else fail_with Fault.

Definition cmp_big (a b : _Bigint) : Z :=
  let i := _wds a - _wds b in
  if negb (i =? 0) then i else cmp_loop (_x a) (_x b) (Z.to_nat (Z.max 1 (_wds b))).

Definition cmp (a b : Z) : M mp Z :=
  oa ← deref a;
  ob ← deref b;
  mret (cmp_big oa ob).

Definition diff (a b : Z) : M mp Z :=
  i ← cmp a b;
  if i =? 0 then
    c ← eBalloc 0;
    set_wds c 1;;
    set_word c 0 0;;
    mret c
  else
    let '(a, b, i) := if i <? 0 then (b, a, 1) else (a, b, 0) in
    oa ← deref a;
    c ← eBalloc (_k oa);
    ob ← deref b;
    oc ← deref c;
    xa ← first_words (_wds oa) oa;
    xb ← first_words (Z.max 1 (_wds ob)) ob;
    _ ← first_words (_wds oa) oc;
    let res := diff_loop xa xb 0 in
    update c (with_sign i (with_words (Z.of_nat (trim res (length res))) (res ++ drop (length res) (_x oc)) oc));;
    mret c.
End Code.

(** ** The invariant *)

(** A well-formed object. *)
Record wf (b : _Bigint) : Prop := Wf {
  wf_k : 0 <= _k b <= 30;
  wf_max : _maxwds b = 2 ^ _k b;
  wf_len : Z.of_nat (length (_x b)) = 2 ^ _k b;
  wf_wds : 0 <= _wds b <= _maxwds b;
  wf_words : words (_x b)
}.

(** The number it stands for, without its sign. *)
Definition bval (b : _Bigint) : Z := val (used_words b).

(** At least one word, and no leading zeros beyond it. *)
Definition normal (b : _Bigint) : Prop :=
  1 <= _wds b /\ (1 < _wds b -> default 0 (_x b !! Z.to_nat (_wds b - 1)) <> 0).

(** The list of the objects linked from [p] on. *)
Fixpoint chain (m : gmap Z _Bigint) (p : Z) (ps : list Z) : Prop :=
  match ps with
  | [] => p = 0
  | q :: ps => p = q /\ exists b, m !! q = Some b /\ chain m (_next b) ps
  end.

Definition power_of (i : nat) (b : _Bigint) : Prop :=
  bval b = 5 ^ (4 * 2 ^ Z.of_nat i) /\ normal b /\ _k b <= Z.of_nat i + 1.

(** The objects are those of the free lists, the powers of five [pows], and those in use,
    [live]; no object is two of these. *)
Record mp_inv (w : mp) (free : list (list Z)) (pows live : list Z) : Prop := MpInv {
  mi_lists : match _freelist w with
             | None => free = [] /\ pows = [] /\ live = []
             | Some l => length l = S _Kmax /\ Forall2 (chain (bigs w)) l free
             end;
  mi_kinds : forall k ps p, free !! k = Some ps -> p ∈ ps -> exists b, bigs w !! p = Some b /\ _k b = Z.of_nat k;
  mi_nodup : NoDup (concat free ++ pows ++ live);
  mi_wf : forall p, p ∈ concat free ++ pows ++ live -> 0 < p <= Z.of_nat (callocs w) /\ exists b, bigs w !! p = Some b /\ wf b;
  mi_p5s : chain (bigs w) (_p5s w) pows;
  mi_pows : forall i p, pows !! i = Some p -> exists b, bigs w !! p = Some b /\ power_of i b
}.

Definition mp_ok (w : mp) (pows live : list Z) : Prop := exists free, mp_inv w free pows live.

Definition same_on (ps : list Z) (w w' : mp) : Prop := forall p, p ∈ ps -> bigs w' !! p = bigs w !! p.

Lemma same_on_refl ps w : same_on ps w w.
Proof. by intros p _. Qed.

Lemma same_on_trans ps w1 w2 w3 : same_on ps w1 w2 -> same_on ps w2 w3 -> same_on ps w1 w3.
Proof. intros H1 H2 p Hp. by rewrite H2, H1. Qed.

Lemma same_on_sub ps qs w w' : same_on ps w w' -> (forall p, p ∈ qs -> p ∈ ps) -> same_on qs w w'.
Proof. intros H Hs p Hp. by apply H, Hs. Qed.

Lemma chain_frame m m' p ps : chain m p ps -> (forall q, q ∈ ps -> m' !! q = m !! q) -> chain m' p ps.
Proof.
  revert p. induction ps as [|q ps IH]; intros p; cbn; [done|]. intros (-> & b & Hb & Hc) Hf. split; [done|]. exists b.
  split; [rewrite Hf; [done|set_solver]|]. apply IH; [done|]. intros x Hx. apply Hf. set_solver.
Qed.

Lemma mp_ok_perm w pows live live' : live ≡ₚ live' -> mp_ok w pows live -> mp_ok w pows live'.
Proof.
  intros Hp [free []]. exists free. split; try done.
  - destruct (_freelist w); [done|]. destruct mi_lists0 as (-> & -> & ->). apply Permutation_nil_l in Hp. by subst.
  - by rewrite <- Hp.
  - intros p Hq. apply mi_wf0. by rewrite Hp.
Qed.

Lemma mp_ok_live w pows live p : mp_ok w pows live -> p ∈ pows ++ live -> p <> 0 /\ exists b, bigs w !! p = Some b /\ wf b.
Proof. intros [free []] Hp. destruct (mi_wf0 p) as (H1 & H2); [set_solver|]. split; [lia|done]. Qed.

Lemma concat_at {A} (free : list (list A)) k ps : free !! k = Some ps ->
  exists rest, concat free ≡ₚ ps ++ rest /\ forall qs, concat (<[k := qs]> free) ≡ₚ qs ++ rest.
Proof.
  intros H. pose proof (lookup_lt_Some _ _ _ H) as Hlt. exists (concat (take k free) ++ concat (drop (S k) free)). split.
  - rewrite <- (take_drop_middle _ _ _ H) at 1. rewrite concat_app. cbn. by rewrite !app_assoc, (Permutation_app_comm ps).
  - intros qs. rewrite insert_take_drop by done. rewrite concat_app. cbn. by rewrite !app_assoc, (Permutation_app_comm qs).
Qed.

Lemma in_concat {A} (free : list (list A)) k ps p : free !! k = Some ps -> p ∈ ps -> p ∈ concat free.
Proof. intros Hk Hp. destruct (concat_at free k ps Hk) as (rest & -> & _). set_solver. Qed.

(** An object in use may change. *)
Lemma mp_ok_update w pows live p b : mp_ok w pows (p :: live) -> wf b ->
  mp_ok (Mp (<[p := b]> (bigs w)) (_freelist w) (_p5s w) (callocs w)) pows (p :: live).
Proof.
  intros [free []] Hb. exists free. assert (Hnp : forall q, q ∈ concat free ++ pows -> q <> p).
  { intros q Hq ->. rewrite app_assoc in mi_nodup0. apply NoDup_app in mi_nodup0 as (_ & Hd & _). apply (Hd p Hq). set_solver. }
  split; cbn; try done.
  - destruct (_freelist w) as [l|]; [|by destruct mi_lists0 as (_ & _ & ?)]. destruct mi_lists0 as [Hl Hf]. split; [done|].
    apply Forall2_same_length_lookup in Hf as [Hlen Hf]. apply Forall2_same_length_lookup. split; [done|].
    intros i h ps Hh Hps. eapply chain_frame; [by eapply Hf|]. intros q Hq. apply lookup_insert_ne. symmetry. apply Hnp.
    apply elem_of_app. left. by eapply in_concat.
  - intros k ps q Hk Hq. destruct (mi_kinds0 k ps q Hk Hq) as (b' & Hb' & E). exists b'. rewrite lookup_insert_ne; [done|]. symmetry. apply Hnp.
    apply elem_of_app. left. by eapply in_concat.
  - intros q Hq. destruct (mi_wf0 q Hq) as [H1 (b' & H2 & H3)]. split; [done|]. destruct (decide (q = p)) as [->|].
    + exists b. by rewrite lookup_insert_eq.
    + exists b'. by rewrite lookup_insert_ne.
  - eapply chain_frame; [done|]. intros q Hq. apply lookup_insert_ne. symmetry. apply Hnp. set_solver.
  - intros i q Hq. destruct (mi_pows0 i q Hq) as (b' & H1 & H2). exists b'. rewrite lookup_insert_ne; [done|]. symmetry. apply Hnp.
    apply elem_of_app. right. by eapply list_elem_of_lookup_2.
Qed.

(** ** Running *)

Section Proofs.
Context (gives : nat -> bool).

(** The computation ends in [Q], or calloc has failed and the assertion has ended it. *)
Definition run_ok {A} (c : M mp A) (w : mp) (Q : A -> mp -> Prop) : Prop :=
  match c w with
  | Ok (a, w') => Q a w'
  | Err e => e = Aborted /\ exists n, gives n = false
  end.

Lemma run_bind {A B} (c : M mp A) (f : A -> M mp B) w Q :
  run_ok c w (fun a w' => run_ok (f a) w' Q) -> run_ok (c ≫= f) w Q.
Proof. unfold run_ok. unfold mbind, M_bind. by destruct (c w) as [[a w']|e]. Qed.

Lemma run_ret {A} (a : A) w (Q : A -> mp -> Prop) : Q a w -> run_ok (mret a) w Q.
Proof. done. Qed.

Lemma run_deref p b w Q : bigs w !! p = Some b -> Q b w -> run_ok (deref p) w Q.
Proof. intros E HQ. unfold run_ok, deref, mbind, M_bind, get_st, lift_opt. by rewrite E. Qed.

Lemma run_get w Q : Q w w -> run_ok get_st w Q.
Proof. done. Qed.

Lemma run_some {A} (o : option A) a w (Q : A -> mp -> Prop) : o = Some a -> Q a w -> run_ok (lift_opt o) w Q.
Proof. by intros ->. Qed.

(** Write to an object in use. *)
Definition written (w : mp) (p : Z) (b : _Bigint) : mp := Mp (<[p := b]> (bigs w)) (_freelist w) (_p5s w) (callocs w).

Lemma run_update p b w Q : Q tt (written w p b) -> run_ok (update p b) w Q.
Proof. done. Qed.

Lemma written_at w p b : bigs (written w p b) !! p = Some b.
Proof. cbn. by rewrite lookup_insert_eq. Qed.

Lemma written_same w p b ps : p ∉ ps -> same_on ps w (written w p b).
Proof. intros Hp q Hq. cbn. apply lookup_insert_ne. by intros ->. Qed.

Lemma live_not_in w pows live p : mp_ok w pows (p :: live) -> p ∉ pows ++ live.
Proof.
  intros [free []] Hp. rewrite app_assoc, <- Permutation_middle in mi_nodup0. apply NoDup_cons in mi_nodup0 as [Hn _]. apply Hn. set_solver.
Qed.

(** *** Allocation *)

Lemma pow2_k k : 0 <= k <= 30 -> s32 (Z.shiftl 1 k) = 2 ^ k /\ 0 < 2 ^ k <= 2 ^ 30.
Proof.
  intros Hk. assert (0 < 2 ^ k <= 2 ^ 30) by (split; [apply Z.pow_pos_nonneg; lia|apply Z.pow_le_mono_r; lia]).
  rewrite Z.shiftl_1_l. split; [|done]. apply swrap_small; [lia|]. unfold in_s. lia.
Qed.

Lemma run_freelist w pows live Q : mp_ok w pows live ->
  (forall w' l free, mp_inv w' free pows live -> bigs w' = bigs w -> _freelist w' = Some l -> Q (Some l) w') ->
  ((exists n, gives n = false) -> forall w', Q None w') ->
  run_ok (get_freelist gives) w Q.
Proof.
  intros [free Hi] HQ HN. unfold get_freelist, run_ok, mbind, M_bind, get_st, calloc, mret, M_ret, set_freelist, modify. destruct (_freelist w) as [l|] eqn:El.
  - by apply (HQ w l free).
  - destruct (gives (callocs w)) eqn:Eg; [|apply HN; by eexists].
    apply (HQ _ _ (replicate (S _Kmax) [])); [|done|done]. destruct Hi. rewrite El in mi_lists0. destruct mi_lists0 as (-> & -> & ->).
    assert (Hc : forall n, concat (replicate n []) = @nil Z) by (induction n; done).
    split; cbn [_freelist bigs _p5s callocs]; try done.
    + split; [apply length_replicate|]. by apply Forall2_replicate.
    + intros k ps p Hk Hp. apply lookup_replicate in Hk as [-> _]. set_solver.
    + intros p. rewrite Hc. set_solver.
Qed.

(** An object from a free list. *)
Lemma take_free w free pows live l k p : mp_inv w free pows live -> _freelist w = Some l -> l !! k = Some p -> p <> 0 ->
  exists b, bigs w !! p = Some b /\ wf b /\ _k b = Z.of_nat k /\
    mp_ok (Mp (bigs w) (Some (<[k := _next b]> l)) (_p5s w) (callocs w)) pows (p :: live).
Proof.
  intros [] El Hk Hp. rewrite El in mi_lists0. destruct mi_lists0 as [Hl Hf]. pose proof (Forall2_lookup_l _ _ _ _ _ Hf Hk) as (ps & Hps & Hc).
  destruct ps as [|q ps]; [done|]. cbn in Hc. destruct Hc as (<- & b & Hb & Hc).
  destruct (mi_kinds0 k (p :: ps) p Hps) as (b' & Hb' & Ek); [set_solver|]. rewrite Hb in Hb'. injection Hb' as <-.
  destruct (mi_wf0 p) as (Hpos & b' & Hb' & Hwf); [apply elem_of_app; left; eapply in_concat; [done|set_solver]|]. rewrite Hb in Hb'. injection Hb' as <-.
  exists b. split; [done|]. split; [done|]. split; [done|]. exists (<[k := ps]> free).
  destruct (concat_at free k (p :: ps) Hps) as (rest & E1 & E2).
  assert (Ep : concat (<[k := ps]> free) ++ pows ++ p :: live ≡ₚ concat free ++ pows ++ live).
  { rewrite E1, E2, !app_assoc, <- Permutation_middle. done. }
  split; cbn [_freelist bigs _p5s callocs]; try done.
  - split; [by rewrite length_insert|]. by apply Forall2_insert.
  - intros j qs q Hj Hq. destruct (decide (j = k)) as [->|Hne].
    + rewrite list_lookup_insert_eq in Hj by (by eapply lookup_lt_Some). injection Hj as <-. apply (mi_kinds0 k (p :: ps)); [done|set_solver].
    + rewrite list_lookup_insert_ne in Hj by done. by eapply mi_kinds0.
  - by rewrite Ep.
  - intros q. rewrite Ep. apply mi_wf0.
Qed.

(** A new object. *)
Lemma take_new w free pows live l k : mp_inv w free pows live -> _freelist w = Some l -> 0 <= k <= 30 ->
  let p := Z.of_nat (callocs w) + 1 in let b := Bigint 0 k (2 ^ k) 0 0 (replicate (Z.to_nat (2 ^ k)) 0) in
  wf b /\ p ∉ pows ++ live /\ mp_ok (Mp (<[p := b]> (bigs w)) (Some l) (_p5s w) (S (callocs w))) pows (p :: live).
Proof.
  intros Hi El Hk p b. destruct (pow2_k k Hk) as [_ Hpk].
  assert (Hwf : wf b).
  { split; cbn; try done; [by rewrite length_replicate, Z2Nat.id by lia|lia|]. apply Forall_replicate. rewrite in_u32. lia. }
  assert (Hnew : forall q, q ∈ concat free ++ pows ++ live -> q <> p).
  { intros q Hq. destruct (mi_wf _ _ _ _ Hi q Hq) as [Hr _]. unfold p. lia. }
  split; [done|]. split; [intros Hp; apply (Hnew p); [set_solver|done]|]. exists free.
  assert (Hfr : forall q, q ∈ concat free ++ pows ++ live -> <[p := b]> (bigs w) !! q = bigs w !! q).
  { intros q Hq. apply lookup_insert_ne. symmetry. by apply Hnew. }
  destruct Hi. rewrite El in mi_lists0. destruct mi_lists0 as [Hl Hf]. split; cbn [_freelist bigs _p5s callocs]; try done.
  - split; [done|]. apply Forall2_same_length_lookup in Hf as [Hlen Hf]. apply Forall2_same_length_lookup. split; [done|].
    intros i h ps Hh Hps. eapply chain_frame; [by eapply Hf|]. intros q Hq. apply Hfr. apply elem_of_app. left. by eapply in_concat.
  - intros j ps q Hj Hq. destruct (mi_kinds0 j ps q Hj Hq) as (b' & Hb' & E). exists b'. rewrite Hfr; [done|]. apply elem_of_app. left. by eapply in_concat.
  - rewrite app_assoc, <- Permutation_middle. apply NoDup_cons. rewrite <- app_assoc. split; [|done]. intros Hp. by apply (Hnew p).
  - intros q Hq. rewrite app_assoc, <- Permutation_middle, <- app_assoc in Hq. apply elem_of_cons in Hq as [->|Hq].
    + split; [unfold p; lia|]. exists b. by rewrite lookup_insert_eq.
    + destruct (mi_wf0 q Hq) as [H1 H2]. split; [lia|]. by rewrite Hfr.
  - eapply chain_frame; [done|]. intros q Hq. apply Hfr. set_solver.
  - intros i q Hq. destruct (mi_pows0 i q Hq) as (b' & H1 & H2). exists b'. rewrite Hfr; [done|]. apply list_elem_of_lookup_2 in Hq. set_solver.
Qed.

Lemma wf_reset b : wf b -> wf (Bigint (_next b) (_k b) (_maxwds b) 0 0 (_x b)).
Proof. intros []. split; cbn; try done. destruct (pow2_k (_k b) wf_k0). lia. Qed.

Lemma run_eBalloc k w pows live Q : mp_ok w pows live -> 0 <= k <= 30 ->
  (forall p w' b, mp_ok w' pows (p :: live) -> same_on (pows ++ live) w w' -> bigs w' !! p = Some b -> wf b ->
     _k b = k -> _wds b = 0 -> _sign b = 0 -> Q p w') ->
  run_ok (eBalloc gives k) w Q.
Proof.
  intros Hi Hk HQ. unfold eBalloc, Balloc. apply run_bind, run_bind. eapply run_freelist; [done| |].
  2: { intros Hg w'. apply run_ret. cbn. by split. }
  intros w1 l free Hi1 Eb El. destruct (pow2_k k Hk) as [E2 _].
  assert (Hl : length l = S _Kmax) by (pose proof (mi_lists _ _ _ _ Hi1) as H; rewrite El in H; apply H).
  destruct (lookup_lt_is_Some_2 l (Z.to_nat k)) as [p Hp]; [rewrite Hl; unfold _Kmax; lia|].
  apply run_bind. eapply run_some; [rewrite (proj2 (Z.ltb_ge k 0)) by lia; exact Hp|]. apply run_bind.
  destruct (Z.eqb_spec p 0) as [->|Hp0]; cbn [negb].
  - (* a new object *)
    rewrite E2. apply run_bind. unfold run_ok at 1, calloc. destruct (gives (callocs w1)) eqn:Eg; cbn.
    2: { split; [done|]. by eexists. }
    destruct (take_new w1 free pows live l k Hi1 El Hk) as (Hwf & Hn & Hok). apply run_bind, run_update, run_ret.
    rewrite (proj2 (Z.eqb_neq _ _)) by lia. apply run_bind. eapply run_deref; [apply written_at|]. apply run_bind, run_update, run_ret.
    rewrite (proj2 (Z.eqb_neq _ _)) by lia. apply run_ret. eapply HQ; [| |apply written_at|by apply wf_reset|done..].
    + apply mp_ok_update; [|by apply wf_reset]. unfold written. cbn. by rewrite El.
    + eapply same_on_trans; [|by apply written_same]. intros q Hq. cbn. rewrite lookup_insert_ne; [by rewrite Eb|]. by intros <-.
  - destruct (take_free w1 free pows live l (Z.to_nat k) p Hi1 El Hp Hp0) as (b & Hb & Hwf & Ekb & Hok).
    apply run_bind. eapply run_deref; [exact Hb|]. apply run_bind. unfold run_ok at 1, set_freelist, modify. apply run_ret.
    rewrite (proj2 (Z.eqb_neq _ _)) by done. apply run_bind. eapply run_deref; [exact Hb|]. apply run_bind, run_update, run_ret.
    rewrite (proj2 (Z.eqb_neq _ _)) by done. apply run_ret. eapply HQ; [|  |apply written_at|by apply wf_reset|cbn; lia|done|done].
    + apply mp_ok_update; [done|by apply wf_reset].
    + eapply same_on_trans; [|apply written_same; by eapply live_not_in]. intros q Hq. cbn. by rewrite Eb.
Qed.

(** An object goes back to its list. *)
Lemma run_Bfree v w pows live (Q : unit -> mp -> Prop) : mp_ok w pows (v :: live) ->
  (forall w', mp_ok w' pows live -> same_on (pows ++ live) w w' -> Q tt w') -> run_ok (Bfree v) w Q.
Proof.
  intros Hok HQ. pose proof (live_not_in _ _ _ _ Hok) as Hnot. destruct (mp_ok_live w pows (v :: live) v Hok) as (Hv & b & Hb & Hwf); [set_solver|].
  unfold Bfree. rewrite (proj2 (Z.eqb_neq _ _)) by done. apply run_bind. eapply run_deref; [done|]. apply run_bind, run_get, run_bind.
  destruct Hok as [free []]. destruct (_freelist w) as [l|] eqn:El; [|by destruct mi_lists0 as (_ & _ & ?)]. destruct mi_lists0 as [Hl Hf].
  eapply run_some; [done|]. pose proof (wf_k _ Hwf) as Hk.
  destruct (lookup_lt_is_Some_2 l (Z.to_nat (_k b))) as [h Hh]; [rewrite Hl; unfold _Kmax; lia|].
  apply run_bind. eapply run_some; [rewrite (proj2 (Z.ltb_ge (_k b) 0)) by lia; exact Hh|]. apply run_bind, run_update.
  unfold run_ok, set_freelist, modify. destruct (Forall2_lookup_l _ _ _ _ _ Hf Hh) as (ps & Hps & Hc).
  apply HQ; [|by apply written_same]. set (k := Z.to_nat (_k b)) in *. exists (<[k := v :: ps]> free).
  destruct (concat_at free k ps Hps) as (rest & E1 & E2).
  assert (Ep : concat (<[k := v :: ps]> free) ++ pows ++ live ≡ₚ concat free ++ pows ++ v :: live).
  { rewrite E1, E2, !app_assoc, <- Permutation_middle. done. }
  assert (Hnv : forall q, q ∈ concat free ++ pows ++ live -> q <> v).
  { intros q Hq ->. rewrite app_assoc, <- Permutation_middle, <- app_assoc in mi_nodup0. apply NoDup_cons in mi_nodup0 as [Hn _]. by apply Hn. }
  assert (Hfr : forall q, q <> v -> <[v := with_next h b]> (bigs w) !! q = bigs w !! q).
  { intros q Hq. by apply lookup_insert_ne. }
  split; cbn [_freelist bigs _p5s callocs written]; try done.
  - split; [by rewrite length_insert|]. apply Forall2_insert.
    + apply Forall2_same_length_lookup in Hf as [Hlen Hf]. apply Forall2_same_length_lookup. split; [done|].
      intros i g qs Hg Hqs. eapply chain_frame; [by eapply Hf|]. intros q Hq. apply Hfr, Hnv. apply elem_of_app. left. by eapply in_concat.
    + cbn. split; [done|]. eexists. split; [apply lookup_insert_eq|]. cbn. eapply chain_frame; [done|].
      intros q Hq. apply Hfr, Hnv. apply elem_of_app. left. by eapply in_concat.
  - intros j qs q Hj Hq. destruct (decide (j = k)) as [->|Hne].
    + rewrite list_lookup_insert_eq in Hj by (by eapply lookup_lt_Some). injection Hj as <-. apply elem_of_cons in Hq as [->|Hq].
      * eexists. split; [apply lookup_insert_eq|]. cbn. unfold k. lia.
      * rewrite Hfr; [by eapply mi_kinds0|]. apply Hnv. apply elem_of_app. left. by eapply in_concat.
    + rewrite list_lookup_insert_ne in Hj by done. rewrite Hfr; [by eapply mi_kinds0|]. apply Hnv. apply elem_of_app. left. by eapply in_concat.
  - by rewrite Ep.
  - intros q. rewrite Ep. intros Hq. destruct (mi_wf0 q Hq) as [H1 (b' & H2 & H3)]. split; [done|]. destruct (decide (q = v)) as [->|Hne].
    + eexists. split; [apply lookup_insert_eq|]. rewrite Hb in H2. injection H2 as <-. destruct H3. by split.
    + exists b'. by rewrite Hfr.
  - eapply chain_frame; [done|]. intros q Hq. apply Hfr, Hnv. set_solver.
  - intros i q Hq. rewrite Hfr; [by eapply mi_pows0|]. apply Hnv. apply list_elem_of_lookup_2 in Hq. set_solver.
Qed.

(** *** Values *)

Lemma used_length b : wf b -> length (used_words b) = Z.to_nat (_wds b).
Proof. intros []. unfold used_words. apply length_take_le. lia. Qed.

Lemma used_ok b : wf b -> words (used_words b).
Proof. intros []. by apply Forall_take. Qed.

Lemma bval_bound b : wf b -> 0 <= bval b < 2 ^ (32 * _wds b).
Proof.
  intros Hb. pose proof (val_bound _ (used_ok b Hb)) as H. rewrite used_length in H by done. destruct Hb. by rewrite Z2Nat.id in H by lia.
Qed.

(** The top word. *)
Lemma bval_top b : wf b -> 1 <= _wds b -> exists t, _x b !! Z.to_nat (_wds b - 1) = Some t /\ in_u 32 t /\
  let low := val (take (Z.to_nat (_wds b - 1)) (_x b)) in
  0 <= low < 2 ^ (32 * (_wds b - 1)) /\ bval b = low + 2 ^ (32 * (_wds b - 1)) * t.
Proof.
  intros [] H1. destruct (lookup_lt_is_Some_2 (_x b) (Z.to_nat (_wds b - 1))) as [t Ht]; [lia|]. exists t. split; [done|].
  split; [by eapply Forall_lookup_1|]. split.
  - pose proof (take_bound (_x b) (Z.to_nat (_wds b - 1)) wf_words0 ltac:(lia)) as H. by rewrite Z2Nat.id in H by lia.
  - unfold bval, used_words. replace (Z.to_nat (_wds b)) with (S (Z.to_nat (_wds b - 1))) by lia. rewrite (take_val _ _ _ Ht), Z2Nat.id by lia. lia.
Qed.

Lemma normal_val b : wf b -> 1 <= _wds b -> (normal b <-> (1 < _wds b -> 2 ^ (32 * (_wds b - 1)) <= bval b)).
Proof.
  intros Hb H1. destruct (bval_top b Hb H1) as (t & Ht & Hr & Hl & E). unfold normal. rewrite Ht. change (default 0 (Some t)) with t. rewrite in_u32 in Hr.
  assert (0 < 2 ^ (32 * (_wds b - 1))) by (apply Z.pow_pos_nonneg; lia). cbn zeta in E. split.
  - intros [_ Hn] Hw. specialize (Hn Hw). rewrite E. nia.
  - intros Hn. split; [done|]. intros Hw ->. specialize (Hn Hw). lia.
Qed.

(** The object at [p] is the number [v], in a block of at most 2^[k] words. *)
Definition is_num (w : mp) (p v k : Z) : Prop :=
  exists b, bigs w !! p = Some b /\ wf b /\ normal b /\ bval b = v /\ _k b <= k.

Lemma is_num_same ps w w' p v k : is_num w p v k -> same_on ps w w' -> p ∈ ps -> is_num w' p v k.
Proof. intros (b & Hb & H) Hs Hp. exists b. by rewrite Hs. Qed.

(** A number of [n] words written to an object. *)
Lemma wf_with_words b n x : wf b -> 0 <= n <= _maxwds b -> length x = length (_x b) -> words x -> wf (with_words n x b).
Proof. intros [] Hn Hl Hx. split; cbn; try done. lia. Qed.

Lemma bval_with_words b n x : bval (with_words n x b) = val (take (Z.to_nat n) x).
Proof. done. Qed.

(** A step with the next write of an object in use. *)
Lemma run_write p b w pows live (Q : unit -> mp -> Prop) : mp_ok w pows (p :: live) -> wf b ->
  (forall w', mp_ok w' pows (p :: live) -> same_on (pows ++ live) w w' -> bigs w' !! p = Some b -> Q tt w') ->
  run_ok (update p b) w Q.
Proof.
  intros Hok Hb HQ. apply run_update, HQ; [by apply mp_ok_update|apply written_same; by eapply live_not_in|apply written_at].
Qed.

Lemma run_set_word p i v b w pows live (Q : unit -> mp -> Prop) : mp_ok w pows (p :: live) -> bigs w !! p = Some b -> wf b ->
  0 <= i < _maxwds b -> in_u 32 v ->
  (forall w', mp_ok w' pows (p :: live) -> same_on (pows ++ live) w w' ->
     bigs w' !! p = Some (with_words (_wds b) (<[Z.to_nat i := v]> (_x b)) b) -> Q tt w') ->
  run_ok (set_word p i v) w Q.
Proof.
  intros Hok Hb Hwf Hi Hv HQ. unfold set_word. apply run_bind. eapply run_deref; [done|]. pose proof Hwf as [].
  rewrite decide_True by lia. eapply run_write; [done| |done]. apply wf_with_words; [done|done|by rewrite length_insert|by apply Forall_insert].
Qed.

Lemma run_set_wds p n b w pows live (Q : unit -> mp -> Prop) : mp_ok w pows (p :: live) -> bigs w !! p = Some b -> wf b -> 0 <= n <= _maxwds b ->
  (forall w', mp_ok w' pows (p :: live) -> same_on (pows ++ live) w w' -> bigs w' !! p = Some (with_words n (_x b) b) -> Q tt w') ->
  run_ok (set_wds p n) w Q.
Proof.
  intros Hok Hb Hwf Hn HQ. unfold set_wds. apply run_bind. eapply run_deref; [done|]. eapply run_write; [done| |done].
  destruct Hwf. by apply wf_with_words.
Qed.

Lemma run_first_words n b w (Q : list Z -> mp -> Prop) : wf b -> 0 <= n <= _maxwds b -> Q (take (Z.to_nat n) (_x b)) w -> run_ok (first_words n b) w Q.
Proof. intros [] Hn HQ. unfold first_words. rewrite decide_True by lia. by apply run_ret. Qed.

Lemma run_Bcopy p q b c w pows live (Q : unit -> mp -> Prop) : mp_ok w pows (p :: live) -> bigs w !! q = Some b -> bigs w !! p = Some c ->
  wf b -> wf c -> _k b <= _k c ->
  (forall w' o, mp_ok w' pows (p :: live) -> same_on (pows ++ live) w w' -> bigs w' !! p = Some o -> wf o ->
     _wds o = _wds b -> _k o = _k c -> used_words o = used_words b -> Q tt w') ->
  run_ok (Bcopy p q) w Q.
Proof.
  intros Hok Hb Hc Wb Wc Hk HQ. unfold Bcopy. apply run_bind. eapply run_deref; [done|]. apply run_bind. eapply run_deref; [done|].
  pose proof Wb as []. pose proof Wc as []. assert (2 ^ _k b <= 2 ^ _k c) by (apply Z.pow_le_mono_r; lia). rewrite decide_True by lia.
  assert (Ht : length (take (Z.to_nat (_wds b)) (_x b)) = Z.to_nat (_wds b)) by (apply length_take_le; lia).
  assert (Hw : wf (Bigint (_next c) (_k c) (_maxwds c) (_sign b) (_wds b) (take (Z.to_nat (_wds b)) (_x b) ++ drop (Z.to_nat (_wds b)) (_x c)))).
  { split; cbn; try done; [rewrite length_app, Ht, length_drop; lia|lia|apply Forall_app; split; [by apply Forall_take|by apply Forall_drop]]. }
  eapply run_write; [done|exact Hw|]. intros w' H1 H2 H3. eapply HQ; [done..|]. unfold used_words. cbn. by rewrite take_app_length' by done.
Qed.

(** *** multadd *)

Definition no_smaller (w : mp) (p : Z) (w' : mp) (p' : Z) : Prop :=
  exists o o', bigs w !! p = Some o /\ bigs w' !! p' = Some o' /\ _k o <= _k o'.

(** The object grows only when the result does not fit. *)
Lemma run_multadd_fit b m a w pows live v k K (Q : Z -> mp -> Prop) : mp_ok w pows (b :: live) -> is_num w b v k -> k <= K <= 30 ->
  (k < K \/ m * v + a < 2 ^ (32 * 2 ^ k)) -> 0 < m < 2 ^ 16 -> 0 <= a < 2 ^ 16 ->
  (forall b' w', mp_ok w' pows (b' :: live) -> same_on (pows ++ live) w w' -> is_num w' b' (m * v + a) K -> no_smaller w b w' b' -> Q b' w') ->
  run_ok (multadd gives b m a) w Q.
Proof.
  intros Hok (o & Ho & Wo & No & <- & Hk) HK Hfit Hm Ha HQ. unfold multadd. apply run_bind. eapply run_deref; [done|]. pose proof No as [H1 _].
  rewrite Z.max_r by lia. pose proof Wo as []. set (n := Z.to_nat (_wds o)).
  destruct (multadd_loop_ok (used_words o) m a [] (drop n (_x o))) as (mid & c & E & Hl & Hws & Hc & Ev); [by apply used_ok|lia|done|].
  rewrite used_length in E, Hl, Ev by done. fold n in E, Hl, Ev. cbn [app length] in E. unfold used_words in E at 1. fold n in E. rewrite take_drop in E.
  apply run_bind. eapply run_some; [exact E|]. cbn [fst snd].
  set (x' := mid ++ drop n (_x o)). assert (Hx' : length x' = length (_x o)) by (unfold x'; rewrite length_app, length_drop; lia).
  assert (Wx' : words x') by (apply Forall_app; split; [done|by apply Forall_drop]).
  assert (Wo' : wf (with_words (_wds o) x' o)) by (apply wf_with_words; [done|lia|done|done]).
  assert (Vo' : bval (with_words (_wds o) x' o) = val mid) by (rewrite bval_with_words; unfold x'; fold n; by rewrite take_app_length' by done).
  fold (bval o) in Ev. replace (Z.of_nat n) with (_wds o) in Ev by (unfold n; lia).
  apply run_bind. eapply run_write; [done|exact Wo'|]. intros w1 Hok1 Hs1 Hb1. set (o1 := with_words (_wds o) x' o) in *.
  destruct (Z.eqb_spec c 0) as [->|Hc0].
  - apply run_ret. apply HQ; [done|done| |by exists o, o1]. exists o1. split; [done|]. split; [done|]. split; [|split; [lia|cbn; lia]].
    apply normal_val; [done|done|]. intros Hw. pose proof (proj1 (normal_val o Wo H1) No Hw) as Nv. rewrite Vo'. cbn [_wds o1 with_words]. change (_wds o1) with (_wds o). pose proof (bval_bound o Wo). nia.
  - (* one word more, in an object that has room for it *)
    assert (Hput : forall b2 o2 w2, mp_ok w2 pows (b2 :: live) -> same_on (pows ++ live) w w2 -> bigs w2 !! b2 = Some o2 -> wf o2 ->
      _wds o2 = _wds o -> used_words o2 = used_words o1 -> _wds o < _maxwds o2 -> _k o <= _k o2 <= K ->
      run_ok (set_word b2 (_wds o) c;; set_wds b2 (_wds o + 1);; mret b2) w2 Q).
    { intros b2 o2 w2 Hok2 Hs2 Hb2 W2 E2 U2 M2 K2. apply run_bind. eapply run_set_word; [done|done|done|lia|rewrite in_u32; lia|].
      intros w3 Hok3 Hs3 Hb3. apply run_bind. eapply run_set_wds; [done|done| |cbn; lia|].
      { apply wf_with_words; [done|destruct W2; lia|by rewrite length_insert|apply Forall_insert; [apply W2|rewrite in_u32; lia]]. }
      intros w4 Hok4 Hs4 Hb4. apply run_ret. apply HQ; [done|by eapply same_on_trans; [|eapply same_on_trans]| |exists o; eexists; split; [done|split; [exact Hb4|cbn; lia]]].
      assert (W4 : wf (with_words (_wds o + 1) (<[Z.to_nat (_wds o) := c]> (_x o2)) o2)).
      { apply wf_with_words; [done|lia|by rewrite length_insert|apply Forall_insert; [apply W2|rewrite in_u32; lia]]. }
      eexists. split; [exact Hb4|]. split; [exact W4|].
      assert (V4 : bval (with_words (_wds o + 1) (<[Z.to_nat (_wds o) := c]> (_x o2)) o2) = m * bval o + a).
      { rewrite bval_with_words. replace (Z.to_nat (_wds o + 1)) with (S n) by (unfold n; lia). fold n.
        destruct W2. rewrite (take_val _ n c) by (apply list_lookup_insert_eq; lia). rewrite take_insert_ge by lia.
        unfold used_words in U2. rewrite E2 in U2. fold n in U2. rewrite U2. unfold o1. cbn [_wds _x with_words]. fold n. unfold x'. rewrite take_app_length' by done.
        replace (Z.of_nat n) with (_wds o) by (unfold n; lia). lia. }
      split; [|split; [done|cbn; lia]]. split; cbn; [lia|]. intros _. replace (Z.to_nat (_wds o + 1 - 1)) with (Z.to_nat (_wds o)) by (f_equal; lia).
      rewrite list_lookup_insert_eq by (destruct W2; lia). done. }
    destruct (Z.leb_spec (_maxwds o) (_wds o)).
    + assert (HkK : _k o + 1 <= K).
      { destruct Hfit as [|Hfit]; [lia|]. destruct (decide (_k o = k)) as [Ek|]; [|lia]. pose proof (val_bound mid Hws) as Hmid.
        assert (2 ^ (32 * 2 ^ k) <= 2 ^ (32 * _wds o)) by (apply Z.pow_le_mono_r; [lia|]; rewrite <- Ek; lia). nia. }
      apply run_bind, run_bind. eapply run_eBalloc; [done|lia|]. intros b2 w2 o2 Hok2 Hs2 Hb2 W2 K2 _ _.
      assert (Hb1' : bigs w2 !! b = Some o1) by (rewrite Hs2; [done|set_solver]).
      apply run_bind. eapply run_Bcopy; [exact Hok2|exact Hb1'|exact Hb2|exact Wo'|exact W2|cbn; lia|]. intros w3 o3 Hok3 Hs3 Hb3 W3 E3 K3 U3.
      apply run_bind. eapply run_Bfree; [eapply mp_ok_perm; [apply perm_swap|exact Hok3]|]. intros w4 Hok4 Hs4. apply run_ret.
      eapply (Hput b2 o3); [done| |rewrite Hs4; [done|set_solver]|done|done|done| |lia].
      * eapply same_on_trans; [exact Hs1|]. eapply same_on_trans; [eapply same_on_sub; [exact Hs2|set_solver]|].
        eapply same_on_trans; [eapply same_on_sub; [exact Hs3|set_solver]|]. eapply same_on_sub; [exact Hs4|set_solver].
      * destruct W3. rewrite wf_max1, K3, K2, Z.pow_add_r by lia. lia.
    + apply run_bind, run_ret. eapply (Hput b o1); try done; cbn; lia.
Qed.

Lemma run_multadd b m a w pows live v k (Q : Z -> mp -> Prop) : mp_ok w pows (b :: live) -> is_num w b v k -> k < 30 ->
  0 < m < 2 ^ 16 -> 0 <= a < 2 ^ 16 ->
  (forall b' w', mp_ok w' pows (b' :: live) -> same_on (pows ++ live) w w' -> is_num w' b' (m * v + a) (k + 1) -> Q b' w') ->
  run_ok (multadd gives b m a) w Q.
Proof. intros Hok Hn Hk Hm Ha HQ. eapply run_multadd_fit; [done|exact Hn| |by left; apply Z.lt_succ_diag_r|done|done|]; [lia|]. intros. by apply HQ. Qed.

(** *** i2b and mult *)

(** One word is written to an object. *)
Lemma run_one_word p v b w pows live (Q : unit -> mp -> Prop) : mp_ok w pows (p :: live) -> bigs w !! p = Some b -> wf b -> in_u 32 v ->
  (forall w' o, mp_ok w' pows (p :: live) -> same_on (pows ++ live) w w' -> bigs w' !! p = Some o -> wf o -> normal o ->
     bval o = v -> _k o = _k b -> _wds o = 1 -> Q tt w') ->
  run_ok (set_word p 0 v;; set_wds p 1) w Q.
Proof.
  intros Hok Hb Wb Hv HQ. pose proof Wb as [Kk Km Kl Kw Kx]. destruct (pow2_k (_k b) Kk) as [_ Hpk].
  apply run_bind. eapply run_set_word; [done|done|done|lia|done|]. intros w2 Hok2 Hs2 Hb2.
  assert (W2 : wf (with_words (_wds b) (<[Z.to_nat 0 := v]> (_x b)) b)) by (apply wf_with_words; [done|done|by rewrite length_insert|by apply Forall_insert]).
  eapply run_set_wds; [done|done|exact W2|cbn; lia|]. intros w3 Hok3 Hs3 Hb3.
  eapply HQ; [done|by eapply same_on_trans|exact Hb3|apply wf_with_words; [done|cbn; lia|done|apply W2]|split; cbn; lia| |done|done].
  rewrite bval_with_words. cbn [_x with_words]. change (Z.to_nat 1) with 1%nat. rewrite (take_val _ 0 v) by (apply list_lookup_insert_eq; lia).
  rewrite take_0. change (2 ^ (32 * Z.of_nat 0)) with 1. cbn [val]. lia.
Qed.

Lemma run_assoc {A B C} (c : M mp A) (m : A -> M mp B) (f : B -> M mp C) w Q :
  run_ok (c ≫= m) w (fun x w' => run_ok (f x) w' Q) -> run_ok (c ≫= fun a => m a ≫= f) w Q.
Proof. unfold run_ok, mbind, M_bind. destruct (c w) as [[a w']|e]; [|done]. by destruct (m a w') as [[x w'']|e]. Qed.

Lemma run_i2b i w pows live (Q : Z -> mp -> Prop) : mp_ok w pows live -> in_u 32 i ->
  (forall p w', mp_ok w' pows (p :: live) -> same_on (pows ++ live) w w' -> is_num w' p i 1 -> Q p w') -> run_ok (i2b gives i) w Q.
Proof.
  intros Hok Hi HQ. unfold i2b. rewrite uwrap_small by done. apply run_bind. eapply run_eBalloc; [done|lia|]. intros p w1 b Hok1 Hs1 Hb1 W1 K1 _ _.
  apply run_assoc. eapply run_one_word; [done|done|done|done|]. intros w2 o Hok2 Hs2 Ho Wo No Vo Ko _. apply run_ret.
  apply HQ; [done|by eapply same_on_trans|]. exists o. repeat split; try done; try apply Wo; try apply No. lia.
Qed.

(** The trimmed words of an object. *)
Lemma trimmed_num o n x v : wf o -> Z.of_nat n <= _maxwds o -> length x = length (_x o) -> words x -> val (take n x) = v -> 0 < v ->
  let b := with_words (Z.of_nat (trim x n)) x o in wf b /\ normal b /\ bval b = v.
Proof.
  intros Wo Hn Hl Hx Hv Hv0 b. pose proof (trim_le x n). pose proof (trim_val x n) as Ht.
  assert (Vb : bval b = v) by (unfold b; rewrite bval_with_words, Nat2Z.id, Ht; done).
  assert (Hne : (trim x n <> 0)%nat) by (intros E; rewrite E, take_0 in Ht; cbn [val] in Ht; lia).
  split; [apply wf_with_words; [done|lia|done|done]|]. split; [|done]. split; cbn; [lia|]. intros _.
  destruct (trim_top x n) as [|Htop]; [done|]. by replace (Z.to_nat (Z.of_nat (trim x n) - 1)) with (trim x n - 1)%nat by lia.
Qed.

Lemma run_mult a b w pows live va vb ka kb (Q : Z -> mp -> Prop) : mp_ok w pows live -> a ∈ pows ++ live -> b ∈ pows ++ live ->
  is_num w a va ka -> is_num w b vb kb -> 0 < va -> 0 < vb -> ka < 30 -> kb < 30 ->
  (forall c w', mp_ok w' pows (c :: live) -> same_on (pows ++ live) w w' -> is_num w' c (va * vb) (Z.max ka kb + 1) -> Q c w') ->
  run_ok (mult gives a b) w Q.
Proof.
  intros Hok Ha Hb (oa & Hoa & Wa & Na & <- & Hka) (ob & Hob & Wb & Nb & <- & Hkb) Hva Hvb Hka30 Hkb30 HQ. unfold mult.
  apply run_bind. eapply run_deref; [done|]. apply run_bind. eapply run_deref; [done|].
  destruct (if _wds oa <? _wds ob then (ob, oa) else (oa, ob)) as [xa xb] eqn:Esw.
  assert (Hsw : wf xa /\ wf xb /\ normal xa /\ normal xb /\ _wds xb <= _wds xa /\ bval xa * bval xb = bval oa * bval ob /\ _k xa <= Z.max ka kb).
  { destruct (Z.ltb_spec (_wds oa) (_wds ob)); injection Esw as <- <-; repeat split; try done; try apply Wa; try apply Wb; try apply Na; try apply Nb; lia. }
  clear Esw. destruct Hsw as (Wxa & Wxb & [Nxa _] & [Nxb _] & Hle & Ev & Hkx). pose proof Wxa as [Kx Mx Lx Dx Ox]. pose proof Wxb as [_ Mb Lb Db Ob].
  set (wc := _wds xa + _wds xb). set (k := if _maxwds xa <? wc then _k xa + 1 else _k xa).
  assert (Hk : 0 <= k <= 30 /\ k <= Z.max ka kb + 1 /\ wc <= 2 ^ k).
  { unfold k. destruct (Z.ltb_spec (_maxwds xa) wc); split; try lia; split; try lia. rewrite Z.pow_add_r by lia. unfold wc in *. lia. }
  destruct Hk as (Hk & Hkm & Hwc). apply run_bind. eapply run_eBalloc; [done|done|]. intros c w1 oc Hok1 Hs1 Hc1 Wc Kc _ _.
  apply run_bind. eapply run_deref; [done|]. pose proof Wc as [_ Mc Lc _ Oc]. rewrite Kc in Mc, Lc.
  apply run_bind. eapply run_first_words; [done|lia|]. apply run_bind. eapply run_first_words; [done|lia|]. apply run_bind. eapply run_first_words; [done|lia|].
  rewrite length_take_le by lia.
  replace (replicate (Z.to_nat wc) 0 ++ drop (Z.to_nat wc) (_x oc)) with
    ([] ++ replicate (Z.to_nat (_wds xa)) 0 ++ replicate (length (take (Z.to_nat (_wds xb)) (_x xb))) 0 ++ drop (Z.to_nat wc) (_x oc)).
  2: { cbn [app]. rewrite app_assoc, length_take_le, <- replicate_add by lia. f_equal. f_equal. unfold wc. lia. }
  destruct (mult_loop_ok (take (Z.to_nat (_wds xa)) (_x xa)) (take (Z.to_nat (_wds xb)) (_x xb))) with (pre := @nil Z) (mid := replicate (Z.to_nat (_wds xa)) 0) (junk := drop (Z.to_nat wc) (_x oc))
    as (res & E & Lr & Wr & Vr).
  { by apply Forall_take. }
  { intros E0. apply (f_equal length) in E0. rewrite length_take_le in E0 by lia. cbn in E0. lia. }
  { by apply Forall_take. }
  { apply Forall_replicate. rewrite in_u32. lia. }
  { rewrite length_replicate, length_take_le by lia. done. }
  rewrite !length_take_le in Lr by lia. cbn [length] in E. apply run_bind. eapply run_some; [exact E|]. cbn [app].
  set (x := res ++ drop (Z.to_nat wc) (_x oc)).
  assert (Hlr : length res = Z.to_nat wc) by (rewrite Lr; unfold wc; lia).
  destruct (trimmed_num oc (Z.to_nat wc) x (bval oa * bval ob)) as (Wn & Nn & Vn).
  { done. }
  { lia. }
  { unfold x. rewrite length_app, length_drop. lia. }
  { apply Forall_app. split; [done|by apply Forall_drop]. }
  { unfold x. rewrite take_app_length', Vr, val_zeros by done. rewrite <- Ev. unfold bval, used_words. lia. }
  { nia. }
  apply run_bind. eapply run_write; [done|exact Wn|]. intros w2 Hok2 Hs2 Hc2. apply run_ret. apply HQ; [done|by eapply same_on_trans|].
  eexists. split; [exact Hc2|]. split; [done|]. split; [done|]. split; [done|]. cbn. lia.
Qed.

(** *** pow5mult *)

Lemma chain_extend m m' p ps q b rs : chain m p (ps ++ [q]) -> (forall x, x ∈ ps -> m' !! x = m !! x) ->
  m' !! q = Some b -> chain m' (_next b) rs -> chain m' p (ps ++ q :: rs).
Proof.
  revert p. induction ps as [|x ps IH]; intros p; cbn.
  - intros (-> & _) _ Hq Hc. split; [done|]. by exists b.
  - intros (-> & o & Ho & Hc) Hf Hq Hr. split; [done|]. exists o. split; [rewrite Hf; [done|set_solver]|]. apply IH; [done| |done|done]. intros y Hy. apply Hf. set_solver.
Qed.

Lemma chain_next m p ps i q o : chain m p ps -> ps !! i = Some q -> m !! q = Some o -> (0 ∉ ps) ->
  (_next o = 0 <-> S i = length ps) /\ (_next o <> 0 -> ps !! S i = Some (_next o)).
Proof.
  revert p i. induction ps as [|x ps IH]; intros p i; [done|]. cbn. intros (-> & b & Hb & Hc) Hi Ho H0. destruct i as [|i]; cbn in Hi.
  - injection Hi as ->. rewrite Hb in Ho. injection Ho as ->. destruct ps as [|y ps]; cbn in Hc |- *; [by rewrite Hc; split|].
    destruct Hc as (<- & _). split; [split; [intros E; exfalso; set_solver|done]|done].
  - destruct (IH _ i Hc Hi Ho) as [H1 H2]; [set_solver|]. split; [rewrite H1; lia|done].
Qed.

Lemma wf_next p b : wf b -> wf (with_next p b).
Proof. intros []. by split. Qed.

Lemma power_next i p b : power_of i b -> power_of i (with_next p b).
Proof. done. Qed.

(** A number in use becomes the next power. *)
Lemma mp_ok_power w pows live p o w' : mp_ok w pows (p :: live) -> bigs w !! p = Some o -> power_of (length pows) o ->
  _freelist w' = _freelist w -> callocs w' = callocs w ->
  bigs w' !! p = Some (with_next 0 o) ->
  (forall q, q <> p -> last pows <> Some q -> bigs w' !! q = bigs w !! q) ->
  (forall q b, last pows = Some q -> bigs w !! q = Some b -> bigs w' !! q = Some (with_next p b)) ->
  (pows = [] -> _p5s w' = p) -> (pows <> [] -> _p5s w' = _p5s w) ->
  mp_ok w' (pows ++ [p]) live.
Proof.
  intros [free []] Ho Hpow Ef Ec Hp Hq Hlast Hp5 Hp5'. exists free.
  assert (Ep : concat free ++ (pows ++ [p]) ++ live ≡ₚ concat free ++ pows ++ p :: live) by (by rewrite <- (app_assoc pows)).
  assert (Hnp : forall q, q ∈ concat free ++ pows ++ live -> q <> p).
  { intros q H ->. rewrite app_assoc, <- Permutation_middle, <- app_assoc in mi_nodup0. apply NoDup_cons in mi_nodup0 as [Hn _]. by apply Hn. }
  assert (Hlp : forall q, last pows = Some q -> q ∈ pows) by (intros q Hl; rewrite last_lookup in Hl; by eapply list_elem_of_lookup_2).
  assert (Hfree : forall q, q ∈ concat free -> bigs w' !! q = bigs w !! q).
  { intros q H. apply Hq; [apply Hnp; set_solver|]. intros Hl%Hlp. apply NoDup_app in mi_nodup0 as (_ & Hd & _). apply (Hd q H). set_solver. }
  assert (Hall : forall q b, q ∈ concat free ++ pows ++ p :: live -> bigs w !! q = Some b -> exists n, bigs w' !! q = Some (with_next n b)).
  { intros q b Hin Hb. destruct (decide (q = p)) as [->|Hne]; [rewrite Ho in Hb; injection Hb as <-; by eexists|].
    destruct (decide (last pows = Some q)) as [Hl|Hl]; [by eexists; apply Hlast|]. exists (_next b). rewrite Hq by done. rewrite Hb. by destruct b. }
  split.
  - rewrite Ef. destruct (_freelist w) as [l|]; [|by destruct mi_lists0 as (_ & _ & ?)]. destruct mi_lists0 as [Hl Hf]. split; [done|].
    apply Forall2_same_length_lookup in Hf as [Hlen Hf]. apply Forall2_same_length_lookup. split; [done|].
    intros i h ps Hh Hps. eapply chain_frame; [by eapply Hf|]. intros q H. apply Hfree. by eapply in_concat.
  - intros k ps q Hk H. rewrite Hfree; [by eapply mi_kinds0|]. by eapply in_concat.
  - by rewrite Ep.
  - intros q H. rewrite Ep in H. rewrite Ec. destruct (mi_wf0 q H) as [H1 (b & H2 & H3)]. split; [done|].
    destruct (Hall q b H H2) as [n Hn]. eexists. split; [exact Hn|]. by apply wf_next.
  - destruct pows as [|x pows _] using rev_ind.
    + rewrite Hp5 by done. cbn. split; [done|]. exists (with_next 0 o). by split.
    + rewrite Hp5' by (by destruct pows). rewrite <- app_assoc. cbn [app].
      destruct (mi_wf0 x) as [_ (b & Hb & _)]; [set_solver|]. eapply (chain_extend _ _ _ _ _ (with_next p b)); [done| | |].
      * intros y Hy. apply Hq; [apply Hnp; set_solver|]. rewrite last_snoc. intros [= ->].
        rewrite <- !app_assoc in mi_nodup0. apply NoDup_app in mi_nodup0 as (_ & _ & Hn). apply NoDup_app in Hn as (_ & Hd & _). apply (Hd y Hy). set_solver.
      * apply Hlast; [by rewrite last_snoc|done].
      * cbn. split; [done|]. exists (with_next 0 o). by split.
  - intros i q Hi. destruct (decide (i < length pows)%nat) as [Hlt|Hge].
    + rewrite lookup_app_l in Hi by done. destruct (mi_pows0 i q Hi) as (b & Hb & Hpw). destruct (Hall q b) as [n Hn]; [apply list_elem_of_lookup_2 in Hi; set_solver|done|].
      exists (with_next n b). split; [done|]. by apply power_next.
    + rewrite lookup_app_r in Hi by lia. apply list_lookup_singleton_Some in Hi as [Hi0 <-]. assert (i = length pows) as -> by lia.
      exists (with_next 0 o). split; [done|]. by apply power_next.
Qed.

Lemma zero_not_pow w pows live : mp_ok w pows live -> 0 ∉ pows.
Proof. intros [free []] H. destruct (mi_wf0 0); [set_solver|lia]. Qed.

Lemma pow_num w pows live i p : mp_ok w pows live -> pows !! i = Some p ->
  p ∈ pows ++ live /\ is_num w p (5 ^ (4 * 2 ^ Z.of_nat i)) (Z.of_nat i + 1).
Proof.
  intros [free []] Hi. assert (Hp : p ∈ pows ++ live) by (apply list_elem_of_lookup_2 in Hi; set_solver). split; [done|].
  destruct (mi_pows0 i p Hi) as (b & Hb & Hv & Hn & Hk). destruct (mi_wf0 p) as [_ (b' & Hb' & Hw)]; [set_solver|]. rewrite Hb in Hb'. injection Hb' as <-. by exists b.
Qed.

Lemma pow5_pos e : 0 < 5 ^ (4 * 2 ^ Z.of_nat e).
Proof. apply Z.pow_pos_nonneg; [lia|]. assert (0 < 2 ^ Z.of_nat e) by (apply Z.pow_pos_nonneg; lia). lia. Qed.

Lemma pow5_square i : 5 ^ (4 * 2 ^ Z.of_nat i) * 5 ^ (4 * 2 ^ Z.of_nat i) = 5 ^ (4 * 2 ^ Z.of_nat (S i)).
Proof.
  assert (0 < 2 ^ Z.of_nat i) by (apply Z.pow_pos_nonneg; lia). rewrite <- Z.pow_add_r by lia. f_equal. rewrite Nat2Z.inj_succ, Z.pow_succ_r by lia. lia.
Qed.

(** The power after the [i]-th, made when it is not there yet. *)
Lemma run_next_power p5 w pows live i (Q : Z -> mp -> Prop) : mp_ok w pows live -> pows !! i = Some p5 -> Z.of_nat i + 1 < 30 ->
  (forall p w' pows', mp_ok w' pows' live -> same_on live w w' -> pows `prefix_of` pows' -> pows' !! S i = Some p -> Q p w') ->
  run_ok (o ← deref p5;
          if _next o =? 0 then
            p51 ← mult gives p5 p5;
            o ← deref p5;
            update p5 (with_next p51 o);;
            o1 ← deref p51;
            update p51 (with_next 0 o1);;
            mret p51
          else mret (_next o)) w Q.
Proof.
  intros Hok Hi Hlt HQ. destruct (pow_num w pows live i p5 Hok Hi) as [Hin Hn]. pose proof Hn as (o & Ho & Wo & _).
  apply run_bind. eapply run_deref; [exact Ho|]. pose proof Hok as [free Hinv].
  destruct (chain_next _ _ _ i p5 o (mi_p5s _ _ _ _ Hinv) Hi Ho) as [Hc1 Hc2]; [by eapply zero_not_pow|].
  destruct (Z.eqb_spec (_next o) 0) as [E0|E0].
  - apply Hc1 in E0. assert (Hlast : last pows = Some p5) by (rewrite last_lookup, <- E0; done).
    apply run_bind. eapply (run_mult p5 p5); [exact Hok|done|done|exact Hn|exact Hn|apply pow5_pos|apply pow5_pos|done|done|].
    intros c w1 Hok1 Hs1 Hc. destruct Hc as (oc & Hoc & Wc & Nc & Vc & Kc). pose proof (live_not_in _ _ _ _ Hok1) as Hnc.
    assert (Hne : p5 <> c) by (by intros ->). assert (Ho1 : bigs w1 !! p5 = Some o) by (rewrite Hs1; done).
    apply run_bind. eapply run_deref; [exact Ho1|]. apply run_bind, run_update, run_bind.
    eapply run_deref; [cbn; rewrite lookup_insert_ne by done; exact Hoc|]. apply run_bind, run_update, run_ret.
    apply (HQ c _ (pows ++ [c])).
    + eapply (mp_ok_power w1 pows live c oc); [exact Hok1|exact Hoc| |done|done|apply written_at| | |by intros ->|done].
      * rewrite <- E0. split; [rewrite Vc; apply pow5_square|]. split; [done|]. lia.
      * intros q Hq Hl. cbn. rewrite lookup_insert_ne, lookup_insert_ne by (congruence || done). done.
      * intros q b Hl Hb. rewrite Hlast in Hl. injection Hl as <-. rewrite Ho1 in Hb. injection Hb as <-. cbn.
        rewrite lookup_insert_ne, lookup_insert_eq by done. done.
    + intros q Hq. cbn. assert (q <> c) by (intros ->; set_solver). assert (q <> p5).
      { intros ->. destruct Hinv. rewrite app_assoc in mi_nodup0. apply NoDup_app in mi_nodup0 as (_ & Hd & _). apply (Hd p5); [apply list_elem_of_lookup_2 in Hi; set_solver|done]. }
      rewrite !lookup_insert_ne by done. apply Hs1. set_solver.
    + by exists [c].
    + rewrite lookup_app_r, E0 by lia. by rewrite Nat.sub_diag.
  - apply run_ret. apply (HQ _ w pows); [done|apply same_on_refl|done|]. by apply Hc2.
Qed.

Lemma is_num_weaken w p v k k' : is_num w p v k -> k <= k' -> is_num w p v k'.
Proof. intros (b & H1 & H2 & H3 & H4 & H5) Hle. exists b. repeat split; try done; try apply H2; try apply H3. lia. Qed.

(** One bit of the exponent. *)
Lemma run_pow5_bit b p5 e w pows live v kb i (Q : Z -> mp -> Prop) : mp_ok w pows (b :: live) -> pows !! i = Some p5 ->
  is_num w b v kb -> 0 < v -> Z.max kb (Z.of_nat i + 1) < 30 ->
  (forall b' w', mp_ok w' pows (b' :: live) -> same_on (pows ++ live) w w' ->
     is_num w' b' (v * 5 ^ (4 * 2 ^ Z.of_nat i * Z.b2z (Z.odd e))) (Z.max kb (Z.of_nat i + 1) + 1) -> Q b' w') ->
  run_ok (if Z.odd e then b1 ← mult gives b p5; Bfree b;; mret b1 else mret b) w Q.
Proof.
  intros Hok Hi Hb Hv Hk HQ. destruct (Z.odd e); cbn [Z.b2z] in HQ.
  - destruct (pow_num w pows (b :: live) i p5 Hok Hi) as [Hin Hp].
    apply run_bind. eapply (run_mult b p5); [exact Hok|set_solver|done|exact Hb|exact Hp|done|apply pow5_pos|lia|lia|].
    intros c w1 Hok1 Hs1 Hc. apply run_bind. eapply run_Bfree; [eapply mp_ok_perm; [apply perm_swap|exact Hok1]|]. intros w2 Hok2 Hs2. apply run_ret.
    apply HQ; [done|eapply same_on_trans; [eapply same_on_sub; [exact Hs1|set_solver]|eapply same_on_sub; [exact Hs2|set_solver]]|].
    rewrite Z.mul_1_r. eapply is_num_same; [|exact Hs2|set_solver]. done.
  - apply run_ret, HQ; [done|apply same_on_refl|]. rewrite Z.mul_0_r, Z.pow_0_r, Z.mul_1_r. eapply is_num_weaken; [done|lia].
Qed.

Lemma run_pow5_loop n : forall fuel b p5 e w pows live v kb i (Q : Z -> mp -> Prop), (n <= fuel)%nat -> 0 < e < 2 ^ Z.of_nat n ->
  mp_ok w pows (b :: live) -> pows !! i = Some p5 -> is_num w b v kb -> 0 < v -> Z.max kb (Z.of_nat i + 1) + Z.of_nat n <= 30 ->
  (forall b' w' pows', mp_ok w' pows' (b' :: live) -> same_on live w w' -> pows `prefix_of` pows' ->
     is_num w' b' (v * 5 ^ (4 * 2 ^ Z.of_nat i * e)) (Z.max kb (Z.of_nat i + 1) + Z.of_nat n) -> Q b' w') ->
  run_ok (pow5_loop gives fuel b p5 e) w Q.
Proof.
  induction n as [|n IH]; intros fuel b p5 e w pows live v kb i Q Hf He Hok Hi Hb Hv Hk HQ; [cbn in He; lia|].
  destruct fuel as [|fuel]; [lia|]. cbn [pow5_loop]. apply run_bind. eapply run_pow5_bit; [done|done|done|done|lia|]. intros b1 w1 Hok1 Hs1 Hb1.
  rewrite Z.shiftr_div_pow2 by lia. change (2 ^ 1) with 2. assert (Ee : e = 2 * (e / 2) + Z.b2z (Z.odd e)) by (rewrite <- Z.div2_div; apply Z.div2_odd).
  assert (Hpi : 0 < 2 ^ Z.of_nat i) by (apply Z.pow_pos_nonneg; lia).
  rewrite Nat2Z.inj_succ, Z.pow_succ_r in He by lia. assert (He2 : 0 <= e / 2 < 2 ^ Z.of_nat n) by (split; [apply Z.div_pos; lia|apply Z.div_lt_upper_bound; lia]).
  destruct (Z.eqb_spec (e / 2) 0) as [E0|E0].
  - apply run_ret. apply (HQ _ _ pows); [done|eapply same_on_sub; [exact Hs1|set_solver]|done|].
    replace (Z.b2z (Z.odd e)) with e in Hb1 by lia. eapply is_num_weaken; [done|lia].
  - apply run_assoc. eapply run_next_power; [exact Hok1|done|lia|]. intros p w2 pows2 Hok2 Hs2 Hpre Hp.
    assert (Hb2 : is_num w2 b1 (v * 5 ^ (4 * 2 ^ Z.of_nat i * Z.b2z (Z.odd e))) (Z.max kb (Z.of_nat i + 1) + 1)) by (eapply is_num_same; [exact Hb1|exact Hs2|set_solver]).
    eapply (IH fuel b1 p (e / 2) w2 pows2 live _ _ (S i)); [lia|lia|done|done|exact Hb2| |lia|].
    { apply Z.mul_pos_pos; [done|]. apply Z.pow_pos_nonneg; [lia|]. destruct (Z.odd e); cbn; lia. }
    intros b' w' pows' Hok' Hs' Hpre' Hn. apply (HQ _ _ pows'); [done| |by etrans|].
    + eapply same_on_trans; [eapply same_on_sub; [exact Hs1|set_solver]|]. eapply same_on_trans; [eapply same_on_sub; [exact Hs2|set_solver]|done].
    + replace (v * 5 ^ (4 * 2 ^ Z.of_nat i * e)) with (v * 5 ^ (4 * 2 ^ Z.of_nat i * Z.b2z (Z.odd e)) * 5 ^ (4 * 2 ^ Z.of_nat (S i) * (e / 2))).
      2: { rewrite <- Z.mul_assoc, <- Z.pow_add_r; [|destruct (Z.odd e); cbn; lia|rewrite Nat2Z.inj_succ, Z.pow_succ_r by lia; nia].
           do 2 f_equal. rewrite Nat2Z.inj_succ, Z.pow_succ_r by lia. nia. }
      eapply is_num_weaken; [exact Hn|lia].
Qed.

Lemma pow_p05 i : 1 <= i <= 3 -> p05 i = 5 ^ i.
Proof. intros Hi. assert (i = 1 \/ i = 2 \/ i = 3) as [->|[->| ->]] by lia; done. Qed.

(** The first power. *)
Lemma run_first_power w pows live (Q : Z -> mp -> Prop) : mp_ok w pows live ->
  (forall p w' pows', mp_ok w' pows' live -> same_on live w w' -> pows `prefix_of` pows' -> pows' !! 0%nat = Some p -> Q p w') ->
  run_ok (w ← get_st;
          if _p5s w =? 0 then
            p ← i2b gives 625;
            set_p5s p;;
            o ← deref p;
            update p (with_next 0 o);;
            mret p
          else mret (_p5s w)) w Q.
Proof.
  intros Hok HQ. apply run_bind, run_get. pose proof Hok as [free Hinv]. pose proof (mi_p5s _ _ _ _ Hinv) as Hc.
  destruct (Z.eqb_spec (_p5s w) 0) as [E0|E0].
  - assert (pows = []) as ->.
    { destruct pows as [|x pows]; [done|]. destruct Hc as [<- _]. exfalso. apply (zero_not_pow _ _ _ Hok). rewrite E0. set_solver. }
    apply run_bind. eapply run_i2b; [done|rewrite in_u32; lia|]. intros p w1 Hok1 Hs1 (o & Ho & Wo & No & Vo & Ko).
    apply run_bind. unfold run_ok at 1, set_p5s, modify. apply run_bind. eapply run_deref; [exact Ho|]. apply run_bind, run_update, run_ret.
    apply (HQ p _ [p]); [|  |by exists [p]|done].
    + eapply (mp_ok_power w1 [] live p o); [exact Hok1|exact Ho| |done|done|apply written_at| |done|done|done].
      * split; [done|]. split; [done|]. cbn. lia.
      * intros q Hq _. cbn. by rewrite lookup_insert_ne.
    + intros q Hq. cbn. rewrite lookup_insert_ne; [by apply Hs1|]. intros <-. pose proof (live_not_in _ _ _ _ Hok1) as Hn. set_solver.
  - apply run_ret. apply (HQ _ w pows); [done|apply same_on_refl|done|]. destruct pows as [|x pows]; [done|]. by destruct Hc as [-> _].
Qed.

Lemma run_pow5mult n fuel b e w pows live v kb (Q : Z -> mp -> Prop) : (n <= fuel)%nat -> 0 <= e < 4 * 2 ^ Z.of_nat n ->
  mp_ok w pows (b :: live) -> is_num w b v kb -> 0 < v -> 0 <= kb -> kb + Z.of_nat n + 1 <= 29 ->
  (forall b' w' pows', mp_ok w' pows' (b' :: live) -> same_on live w w' -> pows `prefix_of` pows' ->
     is_num w' b' (v * 5 ^ e) (kb + Z.of_nat n + 1) -> Q b' w') ->
  run_ok (pow5mult gives fuel b e) w Q.
Proof.
  intros Hf He Hok Hb Hv Hkb0 Hk HQ. unfold pow5mult. change 3 with (Z.ones 2). rewrite Z.land_ones by lia. change (2 ^ 2) with 4.
  pose proof (Z.mod_pos_bound e 4 ltac:(lia)) as Hm. apply run_bind.
  assert (Hstep : forall (Q' : Z -> mp -> Prop), (forall b1 w1, mp_ok w1 pows (b1 :: live) -> same_on (pows ++ live) w w1 -> is_num w1 b1 (v * 5 ^ (e mod 4)) (kb + 1) -> Q' b1 w1) ->
    run_ok (if negb (e mod 4 =? 0) then multadd gives b (p05 (e mod 4)) 0 else mret b) w Q').
  { intros Q' HQ'. destruct (Z.eqb_spec (e mod 4) 0) as [E0|E0]; cbn [negb].
    - apply run_ret, HQ'; [done|apply same_on_refl|]. rewrite E0, Z.pow_0_r, Z.mul_1_r. eapply is_num_weaken; [done|lia].
    - rewrite pow_p05 by lia. assert (0 < 5 ^ (e mod 4) <= 5 ^ 3) by (split; [apply Z.pow_pos_nonneg; lia|apply Z.pow_le_mono_r; lia]).
      eapply run_multadd; [done|done|lia|lia|lia|]. intros b1 w1 H1 H2 H3. apply HQ'; [done|done|]. by rewrite Z.add_0_r, Z.mul_comm in H3. }
  apply Hstep. intros b1 w1 Hok1 Hs1 Hb1. rewrite Z.shiftr_div_pow2 by lia. change (2 ^ 2) with 4. pose proof (Z.div_mod e 4 ltac:(lia)) as Ed.
  destruct (Z.eqb_spec (e / 4) 0) as [E0|E0].
  - apply run_ret. apply (HQ _ _ pows); [done|eapply same_on_sub; [exact Hs1|set_solver]|done|]. rewrite E0 in Ed. replace (e mod 4) with e in Hb1 by lia.
    eapply is_num_weaken; [done|lia].
  - apply run_assoc. eapply run_first_power; [exact Hok1|]. intros p w2 pows2 Hok2 Hs2 Hpre Hp.
    assert (0 <= e / 4 < 2 ^ Z.of_nat n) by (split; [apply Z.div_pos; lia|apply Z.div_lt_upper_bound; lia]).
    eapply (run_pow5_loop n fuel b1 p (e / 4) w2 pows2 live _ (kb + 1) 0); [done|lia|done|done|eapply is_num_same; [exact Hb1|exact Hs2|set_solver]| |lia|].
    { apply Z.mul_pos_pos; [done|]. apply Z.pow_pos_nonneg; lia. }
    intros b' w' pows' Hok' Hs' Hpre' Hn. apply (HQ _ _ pows'); [done| |by etrans|].
    + eapply same_on_trans; [eapply same_on_sub; [exact Hs1|set_solver]|]. eapply same_on_trans; [eapply same_on_sub; [exact Hs2|set_solver]|done].
    + replace (v * 5 ^ e) with (v * 5 ^ (e mod 4) * 5 ^ (4 * 2 ^ Z.of_nat 0 * (e / 4))).
      2: { rewrite <- Z.mul_assoc, <- Z.pow_add_r by lia. do 2 f_equal. change (2 ^ Z.of_nat 0) with 1. lia. }
      eapply is_num_weaken; [exact Hn|lia].
Qed.

(** *** lshift *)

Lemma num_lower b : wf b -> normal b -> 0 < bval b -> 2 ^ (32 * (_wds b - 1)) <= bval b.
Proof.
  intros Hb Hn Hv. pose proof Hn as [H1 _]. destruct (decide (_wds b = 1)) as [->|]; [by apply Zlt_le_succ in Hv|].
  apply (proj1 (normal_val b Hb H1) Hn). lia.
Qed.

Lemma num_intro b : wf b -> 1 <= _wds b -> 2 ^ (32 * (_wds b - 1)) <= bval b -> normal b.
Proof. intros Hb H1 Hv. by apply normal_val. Qed.

Lemma grow_k_ok fuel : forall k n1 K, 0 <= k <= K -> K <= 30 -> n1 <= 2 ^ K -> (Z.to_nat (K - k) <= fuel)%nat ->
  k <= grow_k fuel (2 ^ k) n1 k <= K /\ n1 <= 2 ^ grow_k fuel (2 ^ k) n1 k.
Proof.
  induction fuel as [|fuel IH]; intros k n1 K Hk HK Hn Hf; cbn [grow_k].
  - assert (k = K) as -> by lia. lia.
  - destruct (Z.ltb_spec (2 ^ k) n1) as [Hlt|]; [|lia]. assert (k < K) by (destruct (decide (k = K)) as [->|]; lia).
    replace (s32 (Z.shiftl (2 ^ k) 1)) with (2 ^ (k + 1)).
    + destruct (IH (k + 1) n1 K) as [H1 H2]; lia.
    + destruct (pow2_k (k + 1)) as [E _]; [lia|]. rewrite <- E at 1. rewrite Z.shiftl_1_l, Z.shiftl_mul_pow2, Z.pow_add_r by lia. done.
Qed.

(** The words of the result: [n] zeros, the shifted words, and what is shifted out. *)
Lemma shifted_val n mid z post : let x := replicate n 0 ++ mid ++ z :: post in
  val (take (n + length mid) x) = 2 ^ (32 * Z.of_nat n) * val mid /\
  val (take (S (n + length mid)) x) = 2 ^ (32 * Z.of_nat n) * (val mid + 2 ^ (32 * Z.of_nat (length mid)) * z).
Proof.
  intros x. assert (E1 : val (replicate n 0 ++ mid) = 2 ^ (32 * Z.of_nat n) * val mid) by (rewrite val_app, val_zeros, length_replicate; lia).
  assert (Hx : x = (replicate n 0 ++ mid) ++ z :: post) by (unfold x; by rewrite <- app_assoc).
  assert (Hl : length (replicate n 0 ++ mid) = (n + length mid)%nat) by (by rewrite length_app, length_replicate).
  assert (Ht : take (n + length mid) x = replicate n 0 ++ mid) by (rewrite Hx; by apply take_app_length').
  split; [by rewrite Ht|]. rewrite (take_val x _ z); [|rewrite Hx; by apply lookup_mid_at].
  rewrite Ht, E1, Nat2Z.inj_add, Z.mul_add_distr_l, Z.pow_add_r by lia. lia.
Qed.

Lemma shifted_num o o1 k N mid z post m : wf o -> normal o -> 0 < bval o -> wf o1 -> 32 * Z.of_nat N <= k ->
  Z.of_nat (length mid) = _wds o -> words (mid ++ z :: post) -> length (_x o1) = (N + length mid + S (length post))%nat ->
  (m = Z.of_nat N + _wds o /\ val mid = 2 ^ (k - 32 * Z.of_nat N) * bval o) \/
  (m = Z.of_nat N + _wds o + 1 /\ z <> 0 /\ val mid + 2 ^ (32 * _wds o) * z = 2 ^ (k - 32 * Z.of_nat N) * bval o) ->
  let b := with_words m (replicate N 0 ++ mid ++ z :: post) o1 in wf b /\ normal b /\ bval b = bval o * 2 ^ k.
Proof.
  intros Wo No Hv W1 Hk Lm Wx Lx Hm b. pose proof No as [H1 _]. pose proof W1 as [_ M1 L1 _ X1]. destruct (shifted_val N mid z post) as [V0 V1].
  assert (EN : 2 ^ k = 2 ^ (32 * Z.of_nat N) * 2 ^ (k - 32 * Z.of_nat N)) by (rewrite <- Z.pow_add_r by lia; f_equal; lia).
  assert (Wb : wf b).
  { apply wf_with_words; [done|lia|rewrite !length_app, length_replicate; cbn; lia|]. apply Forall_app. split; [|done]. apply Forall_replicate. by rewrite in_u32. }
  assert (Vb : bval b = bval o * 2 ^ k).
  { unfold b. rewrite bval_with_words. destruct Hm as [[-> Ez]|(-> & _ & Ez)].
    - replace (Z.to_nat _) with (N + length mid)%nat by lia. rewrite V0, EN, Ez. lia.
    - replace (Z.to_nat _) with (S (N + length mid)) by lia. rewrite V1, EN, Lm, Ez. lia. }
  split; [done|]. split; [|done]. apply num_intro; [done|cbn; lia|]. rewrite Vb. unfold b. cbn [_wds with_words]. destruct Hm as [[-> _]|(-> & Hz & Ez)].
  - apply Z.le_trans with (2 ^ (32 * (_wds o - 1)) * 2 ^ k); [|apply Z.mul_le_mono_nonneg_r; [apply Z.pow_nonneg; lia|by apply num_lower]].
    rewrite <- Z.pow_add_r by lia. apply Z.pow_le_mono_r; lia.
  - replace (bval o * 2 ^ k) with (2 ^ (32 * Z.of_nat N) * (val mid + 2 ^ (32 * _wds o) * z)) by (rewrite EN, Ez; lia).
    replace (32 * (Z.of_nat N + _wds o + 1 - 1)) with (32 * Z.of_nat N + 32 * _wds o) by lia. rewrite Z.pow_add_r by lia.
    apply Z.mul_le_mono_nonneg_l; [apply Z.pow_nonneg; lia|]. apply Forall_app in Wx as [Wm Wz]. apply Forall_cons in Wz as [Wz _]. pose proof (val_bound mid Wm).
    rewrite in_u32 in Wz. assert (0 < 2 ^ (32 * _wds o)) by (apply Z.pow_pos_nonneg; lia). nia.
Qed.

Lemma same_on_cons pows live p w w' : same_on (pows ++ p :: live) w w' -> same_on (pows ++ live) w w'.
Proof. intros H. eapply same_on_sub; [done|]. set_solver. Qed.

(** The result [b1] is written and the operand [b] is given back. *)
Lemma run_replace b b1 o w pows live v k (Q : Z -> mp -> Prop) : mp_ok w pows (b1 :: b :: live) -> wf o -> normal o -> bval o = v -> _k o <= k ->
  (forall w', mp_ok w' pows (b1 :: live) -> same_on (pows ++ live) w w' -> is_num w' b1 v k -> bigs w' !! b1 = Some o -> Q b1 w') ->
  run_ok (update b1 o;; Bfree b;; mret b1) w Q.
Proof.
  intros Hok Wo No Vo Ko HQ. apply run_bind. eapply run_write; [done|exact Wo|]. intros w2 Hok2 Hs2 Hb2. apply run_bind.
  eapply run_Bfree; [eapply mp_ok_perm; [apply perm_swap|exact Hok2]|]. intros w3 Hok3 Hs3. apply run_ret.
  assert (Ho : bigs w3 !! b1 = Some o) by (rewrite Hs3; [done|set_solver]). apply HQ; [done| |by exists o|done].
  eapply same_on_trans; [by eapply same_on_cons|by eapply same_on_cons].
Qed.

Lemma run_lshift b k w pows live v kb K (Q : Z -> mp -> Prop) : mp_ok w pows (b :: live) -> is_num w b v kb -> 0 < v ->
  0 <= k -> K <= 30 -> k / 32 + 2 ^ kb + 1 <= 2 ^ K ->
  (forall b' w', mp_ok w' pows (b' :: live) -> same_on (pows ++ live) w w' -> is_num w' b' (v * 2 ^ k) K -> no_smaller w b w' b' -> Q b' w') ->
  run_ok (lshift gives b k) w Q.
Proof.
  intros Hok (o & Ho & Wo & No & <- & Hk) Hv Hk0 HK Hn1 HQ. unfold lshift. apply run_bind. eapply run_deref; [done|]. pose proof No as [H1 _].
  pose proof Wo as [Kk Km Kl Kw Kx]. assert (Hq : 0 <= k / 32) by (apply Z.div_pos; lia). rewrite Z.shiftr_div_pow2 by lia. change (2 ^ 5) with 32.
  change 31 with (Z.ones 5). rewrite Z.land_ones by lia. change (2 ^ 5) with 32. pose proof (Z.mod_pos_bound k 32 ltac:(lia)) as Hm. pose proof (Z.div_mod k 32 ltac:(lia)) as Ek.
  set (n := k / 32) in *. set (n1 := n + _wds o + 1). rewrite Z.max_r by lia.
  assert (Hpk : 2 ^ _k o <= 2 ^ kb) by (apply Z.pow_le_mono_r; lia). assert (HkK : _k o <= K).
  { destruct (decide (_k o <= K)); [done|]. assert (2 ^ K <= 2 ^ _k o) by (apply Z.pow_le_mono_r; lia). lia. }
  destruct (grow_k_ok 32 (_k o) n1 K) as [Hg1 Hg2]; [lia|lia|unfold n1; lia|lia|]. rewrite <- Km in Hg1, Hg2. set (k1 := grow_k 32 (_maxwds o) n1 (_k o)) in *.
  apply run_bind. eapply run_eBalloc; [done|lia|]. intros b1 w1 o1 Hok1 Hs1 Hb1 W1 K1 _ _. pose proof W1 as [_ M1 L1 _ X1]. rewrite K1 in M1, L1.
  apply run_bind. eapply run_deref; [done|]. apply run_bind. eapply run_first_words; [done|unfold n1 in *; lia|]. apply run_bind. eapply run_first_words; [done|lia|].
  rewrite length_take_le by (unfold n1 in *; lia). set (N := Z.to_nat n). set (W := Z.to_nat (_wds o)). set (y := _x o1) in *.
  assert (Lxs : length (take W (_x o)) = W) by (apply length_take_le; unfold W; lia).
  assert (HNW : (S (N + W) <= length y)%nat) by (unfold N, W, n1 in *; lia).
  assert (ENn : Z.of_nat N = n /\ Z.of_nat W = _wds o) by (unfold N, W; lia). destruct ENn as [EN EW]. assert (Er : k - 32 * Z.of_nat N = k mod 32) by lia.
  destruct (drop (N + W) y) as [|t post] eqn:Ed; [apply (f_equal length) in Ed; rewrite length_drop in Ed; cbn in Ed; lia|].
  assert (Lpost : length y = (N + W + S (length post))%nat) by (apply (f_equal length) in Ed; rewrite length_drop in Ed; cbn in Ed; lia).
  assert (Wpost : words (t :: post)) by (rewrite <- Ed; by apply Forall_drop).
  assert (Ey : drop N y = take W (drop N y) ++ t :: post) by (rewrite <- Ed, <- drop_drop; symmetry; apply take_drop).
  assert (Lmid : length (take W (drop N y)) = W) by (apply length_take_le; rewrite length_drop; lia).
  assert (Hend : forall m mid z, length mid = W -> words mid -> in_u 32 z ->
    (m = n + _wds o /\ val mid = 2 ^ (k mod 32) * bval o) \/ (m = n + _wds o + 1 /\ z <> 0 /\ val mid + 2 ^ (32 * _wds o) * z = 2 ^ (k mod 32) * bval o) ->
    run_ok (update b1 (with_words m (replicate N 0 ++ mid ++ z :: post) o1);; Bfree b;; mret b1) w1 Q).
  { intros m mid z Lm Wm Wz Hc. destruct (shifted_num o o1 k N mid z post m) as (Wb & Nb & Vb); [done|done|done|done|lia|lia| |fold y; lia| |].
    - apply Forall_app. split; [done|]. constructor; [done|]. by apply Forall_cons in Wpost as [_ ?].
    - by rewrite Er, EN.
    - eapply run_replace; [exact Hok1|exact Wb|exact Nb|exact Vb|cbn; rewrite K1; apply Hg1|]. intros w2 Hok2 Hs2 Hn2 Hb2. apply HQ; [done| |done|].
      + eapply same_on_trans; [by eapply same_on_cons|done].
      + exists o. eexists. split; [exact Ho|]. split; [exact Hb2|]. cbn. lia. }
  destruct (Z.eqb_spec (k mod 32) 0) as [E0|E0]; cbn [negb].
  - rewrite decide_True by (rewrite Lxs, length_app, length_replicate, length_drop; lia).
    rewrite Lxs. replace (drop (N + W) (replicate N 0 ++ drop N y)) with (t :: post).
    2: { rewrite drop_app_ge, length_replicate, drop_drop by (rewrite length_replicate; lia). by replace (N + (N + W - N))%nat with (N + W)%nat by lia. }
    apply Hend; [done|by apply Forall_take|by apply Forall_cons in Wpost as [? _]|]. left. unfold n1. split; [lia|]. rewrite E0. unfold bval, used_words, W. lia.
  - destruct (lshift_loop_ok (take W (_x o)) (k mod 32) 0 (replicate N 0) (take W (drop N y)) (t :: post)) as (mid & z & E & Lm & Wm & Hz & Ev);
      [by apply Forall_take|lia|lia|split; [lia|apply Z.pow_pos_nonneg; lia]|].
    rewrite length_replicate, <- Ey in E. apply run_bind. eapply run_some; [exact E|]. rewrite Lxs in *.
    rewrite decide_True by (rewrite !length_app, length_replicate; cbn; lia).
    replace (<[(N + W)%nat := z]> (replicate N 0 ++ mid ++ t :: post)) with (replicate N 0 ++ mid ++ z :: post).
    2: { rewrite !app_assoc. symmetry. apply insert_mid_at. rewrite length_app, length_replicate. lia. }
    assert (Hz32 : 2 ^ (k mod 32) <= 2 ^ 32) by (apply Z.pow_le_mono_r; lia).
    rewrite EW, Z.add_0_r in Ev. change (val (take W (_x o))) with (bval o) in Ev.
    apply Hend; [done|done|rewrite in_u32; lia|]. unfold n1. destruct (Z.eqb_spec z 0) as [->|Hz0]; [left; split; [lia|]|right; split; [lia|split; [done|]]]; lia.
Qed.

(** *** cmp and diff *)

Lemma cmp_big_ok a b : wf a -> wf b -> normal a -> normal b -> Z.sgn (cmp_big a b) = Z.sgn (bval a - bval b).
Proof.
  intros Wa Wb Na Nb. pose proof Na as [Ha _]. pose proof Nb as [Hb _]. unfold cmp_big.
  assert (Hlt : forall x y, wf x -> wf y -> normal x -> 1 <= _wds y -> _wds y < _wds x -> bval y < bval x).
  { intros x y Wx Wy Nx Hy Hlt. apply Z.lt_le_trans with (2 ^ (32 * _wds y)); [by apply bval_bound|].
    apply Z.le_trans with (2 ^ (32 * (_wds x - 1))); [apply Z.pow_le_mono_r; lia|]. apply (proj1 (normal_val x Wx ltac:(lia)) Nx). lia. }
  destruct (Z.eqb_spec (_wds a - _wds b) 0) as [E|E]; cbn [negb].
  - assert (Ew : _wds a = _wds b) by lia. rewrite Z.max_r by lia. destruct Wa, Wb. rewrite cmp_loop_ok by (done || lia). unfold bval, used_words. rewrite Ew. apply Z.sgn_sgn.
  - destruct (Z.lt_total (_wds a) (_wds b)) as [H|[H|H]]; [|lia|].
    + pose proof (Hlt b a Wb Wa Nb Ha H). rewrite !Z.sgn_neg by lia. done.
    + pose proof (Hlt a b Wa Wb Na Hb H). rewrite !Z.sgn_pos by lia. done.
Qed.

Lemma run_cmp a b w va vb ka kb (Q : Z -> mp -> Prop) : is_num w a va ka -> is_num w b vb kb ->
  (forall i, Z.sgn i = Z.sgn (va - vb) -> Q i w) -> run_ok (cmp a b) w Q.
Proof.
  intros (oa & Ha & Wa & Na & <- & _) (ob & Hb & Wb & Nb & <- & _) HQ. unfold cmp. apply run_bind. eapply run_deref; [done|].
  apply run_bind. eapply run_deref; [done|]. apply run_ret, HQ. by apply cmp_big_ok.
Qed.

Lemma trim_app x y n : (n <= length x)%nat -> trim (x ++ y) n = trim x n.
Proof. induction n as [|n IH]; intros Hn; cbn; [done|]. rewrite lookup_app_l, IH by lia. done. Qed.

Definition sign_is (w : mp) (p s : Z) : Prop := exists b, bigs w !! p = Some b /\ _sign b = s.

(** The words of the larger less those of the smaller. *)
Lemma run_diff_larger a b i w pows live va vb ka kb (Q : Z -> mp -> Prop) : mp_ok w pows live -> a ∈ pows ++ live -> b ∈ pows ++ live ->
  is_num w a va ka -> is_num w b vb kb -> vb < va -> 0 <= vb ->
  (forall c w', mp_ok w' pows (c :: live) -> same_on (pows ++ live) w w' -> is_num w' c (va - vb) ka -> sign_is w' c i -> Q c w') ->
  run_ok (oa ← deref a;
          c ← eBalloc gives (_k oa);
          ob ← deref b;
          oc ← deref c;
          xa ← first_words (_wds oa) oa;
          xb ← first_words (Z.max 1 (_wds ob)) ob;
          _ ← first_words (_wds oa) oc;
          let res := diff_loop xa xb 0 in
          update c (with_sign i (with_words (Z.of_nat (trim res (length res))) (res ++ drop (length res) (_x oc)) oc));;
          mret c) w Q.
Proof.
  intros Hok Hia Hib (oa & Ha & Wa & Na & <- & Ka) (ob & Hb & Wb & Nb & <- & Kb) Hlt H0 HQ. pose proof Na as [Ha1 _]. pose proof Nb as [Hb1 _].
  apply run_bind. eapply run_deref; [done|]. apply run_bind. eapply run_eBalloc; [done|apply Wa|]. intros c w1 oc Hok1 Hs1 Hc1 Wc Kc _ _.
  apply run_bind. eapply run_deref; [rewrite Hs1; done|]. apply run_bind. eapply run_deref; [done|]. rewrite Z.max_r by lia.
  pose proof Wa as [Ka0 Ma La Da Xa]. pose proof Wb as [_ Mb Lb Db Xb]. pose proof Wc as [_ Mc Lc _ Xc]. rewrite Kc in Mc, Lc.
  apply run_bind. eapply run_first_words; [done|lia|]. apply run_bind. eapply run_first_words; [done|lia|]. apply run_bind. eapply run_first_words; [done|lia|].
  cbn zeta. fold (used_words oa). fold (used_words ob).
  assert (Hle : _wds ob <= _wds oa).
  { destruct (Z.le_gt_cases (_wds ob) (_wds oa)) as [|H]; [done|]. pose proof (cmp_big_ok oa ob Wa Wb Na Nb) as E. unfold cmp_big in E.
    rewrite (proj2 (Z.eqb_neq (_wds oa - _wds ob) 0)) in E by lia. cbn [negb] in E. rewrite Z.sgn_neg, Z.sgn_pos in E by lia. done. }
  destruct (diff_loop_ok (used_words oa) (used_words ob) 0) as (_ & _ & Wr & Lr & _); [by apply used_ok|by apply used_ok|rewrite !used_length by done; lia|by left|].
  pose proof (diff_loop_val (used_words oa) (used_words ob) (used_ok _ Wa) (used_ok _ Wb) ltac:(rewrite !used_length by done; lia)) as Vr.
  change (val (used_words oa)) with (bval oa) in Vr. change (val (used_words ob)) with (bval ob) in Vr. specialize (Vr ltac:(lia)).
  set (res := diff_loop (used_words oa) (used_words ob) 0) in *. rewrite used_length in Lr by done.
  set (x := res ++ drop (length res) (_x oc)). destruct (trimmed_num oc (length res) x (bval oa - bval ob)) as (Wn & Nn & Vn).
  { done. }
  { lia. }
  { unfold x. rewrite length_app, length_drop. lia. }
  { apply Forall_app. split; [done|by apply Forall_drop]. }
  { unfold x. by rewrite take_app_length'. }
  { lia. }
  assert (Et : trim x (length res) = trim res (length res)) by (by apply trim_app). rewrite Et in Wn, Nn, Vn. set (o := with_words _ _ _) in *.
  assert (Ws : wf (with_sign i o)) by (destruct Wn; by split).
  apply run_bind. eapply run_write; [done|exact Ws|]. intros w2 Hok2 Hs2 Hc2. apply run_ret. apply HQ; [done|by eapply same_on_trans| |].
  - eexists. split; [exact Hc2|]. split; [done|]. split; [done|]. split; [done|]. cbn. lia.
  - by eexists.
Qed.

Lemma run_diff a b w pows live va vb ka kb (Q : Z -> mp -> Prop) : mp_ok w pows live -> a ∈ pows ++ live -> b ∈ pows ++ live ->
  is_num w a va ka -> is_num w b vb kb -> 0 <= va -> 0 <= vb -> 0 <= ka -> 0 <= kb ->
  (forall c w', mp_ok w' pows (c :: live) -> same_on (pows ++ live) w w' -> is_num w' c (Z.abs (va - vb)) (Z.max ka kb) ->
     sign_is w' c (if va <? vb then 1 else 0) -> Q c w') ->
  run_ok (diff gives a b) w Q.
Proof.
  intros Hok Hia Hib Ha Hb Hva Hvb Hka Hkb HQ. unfold diff. apply run_bind. eapply run_cmp; [exact Ha|exact Hb|]. intros i Hi.
  destruct (Z.eqb_spec i 0) as [->|Hne].
  - assert (Hd : va - vb = 0) by (clear - Hi; lia). apply run_bind. eapply run_eBalloc; [done|lia|]. intros c w1 oc Hok1 Hs1 Hc1 Wc Kc _ Sc.
    pose proof Wc as [_ Mc Lc _ Xc]. rewrite Kc in Mc, Lc. change (2 ^ 0) with 1 in Mc, Lc.
    apply run_bind. eapply run_set_wds; [done|done|done|lia|]. intros w2 Hok2 Hs2 Hc2.
    assert (W2 : wf (with_words 1 (_x oc) oc)) by (apply wf_with_words; [done|lia|done|done]).
    apply run_bind. eapply run_set_word; [done|exact Hc2|done|cbn; lia|by rewrite in_u32|]. intros w3 Hok3 Hs3 Hc3. apply run_ret.
    apply HQ; [done|by eapply same_on_trans; [|eapply same_on_trans]| |].
    + eexists. split; [exact Hc3|]. split; [apply wf_with_words; [done|cbn; lia|by rewrite length_insert|apply Forall_insert; [done|by rewrite in_u32]]|].
      split; [split; cbn; lia|]. split; [|cbn; lia]. rewrite bval_with_words. cbn [_wds _x with_words]. change (Z.to_nat 1) with 1%nat.
      rewrite (take_val _ 0 0) by (apply list_lookup_insert_eq; lia). rewrite take_0. cbn [val]. rewrite Hd. lia.
    + eexists. split; [exact Hc3|]. cbn. rewrite (proj2 (Z.ltb_ge va vb)) by lia. done.
  - destruct (Z.ltb_spec i 0) as [Hneg|Hpos].
    + assert (va < vb) by (clear - Hi Hneg; lia).
      eapply (run_diff_larger b a 1); [done|done|done|exact Hb|exact Ha|lia|done|]. intros c w' H1 H2 H3 H4. apply HQ; [done|done| |].
      * replace (Z.abs (va - vb)) with (vb - va) by lia. eapply is_num_weaken; [done|lia].
      * by rewrite (proj2 (Z.ltb_lt va vb)) by lia.
    + assert (vb < va) by (clear - Hi Hpos Hne; lia).
      eapply (run_diff_larger a b 0); [done|done|done|exact Ha|exact Hb|lia|done|]. intros c w' H1 H2 H3 H4. apply HQ; [done|done| |].
      * replace (Z.abs (va - vb)) with (va - vb) by lia. eapply is_num_weaken; [done|lia].
      * by rewrite (proj2 (Z.ltb_ge va vb)) by lia.
Qed.
End Proofs.

(** ** The arithmetic *)

(** A state with two numbers in use, [x] at 2 and [y] at 3. *)
Definition no_objects : mp := Mp ∅ None 0 0.
Definition always : nat -> bool := fun _ => true.
Definition two_numbers (x y : Z) : M mp (Z * Z) := a ← i2b always x; b ← i2b always y; mret (a, b).
Definition two_objects (x y : Z) : mp := match two_numbers x y no_objects with Ok (_, w) => w | Err _ => no_objects end.

Lemma no_objects_ok : mp_ok no_objects [] [].
Proof.
  exists []. split; cbn; try done; [constructor|set_solver].
Qed.

Lemma two_objects_ok x y : in_u 32 x -> in_u 32 y -> two_numbers x y no_objects = Ok ((2, 3), two_objects x y) /\
  mp_ok (two_objects x y) [] [3; 2] /\ is_num (two_objects x y) 2 x 1 /\ is_num (two_objects x y) 3 y 1.
Proof.
  intros Hx Hy.
  assert (H : run_ok always (two_numbers x y) no_objects (fun ab w => mp_ok w [] [ab.2; ab.1] /\ is_num w ab.1 x 1 /\ is_num w ab.2 y 1)).
  { unfold two_numbers. apply run_bind. eapply run_i2b; [apply no_objects_ok|done|]. intros a w1 Hok1 _ Hn1.
    apply run_bind. eapply run_i2b; [exact Hok1|done|]. intros b w2 Hok2 Hs2 Hn2. apply run_ret. split; [done|]. split; [|done].
    eapply is_num_same; [done|exact Hs2|set_solver]. }
  unfold run_ok in H. unfold two_objects. destruct (two_numbers x y no_objects) as [[[a b] w]|e] eqn:E; [|by destruct H as (_ & n & ?)].
  assert (Ea : match two_numbers x y no_objects with Ok (ab, _) => ab = (2, 3) | Err _ => True end) by (vm_compute; reflexivity).
  rewrite E in Ea. injection Ea as -> ->. done.
Qed.

(** C27: the multiple-precision arithmetic is that of the integers. For two numbers in use,
    mult gives their product, diff the absolute value of their difference with its sign, cmp
    the sign of that difference, lshift the product with a power of two, and multadd m * a + x;
    each result is in use beside what was in use before (lshift and multadd replace their
    operand), nothing else that is in use or cached changes, the free lists and the cache
    stay well formed, and no word outside an object is read or written. The only other
    outcome is the assertion, and only when an allocation fails. *)
Theorem bigint_arithmetic gives w pows live a b va vb ka kb :
  mp_ok w pows (a :: b :: live) -> is_num w a va ka -> is_num w b vb kb -> 0 < va -> 0 < vb -> 0 <= ka < 30 -> 0 <= kb < 30 ->
  run_ok gives (mult gives a b) w (fun c w' =>
    mp_ok w' pows (c :: a :: b :: live) /\ same_on (pows ++ a :: b :: live) w w' /\ is_num w' c (va * vb) (Z.max ka kb + 1)) /\
  run_ok gives (diff gives a b) w (fun c w' =>
    mp_ok w' pows (c :: a :: b :: live) /\ same_on (pows ++ a :: b :: live) w w' /\
    is_num w' c (Z.abs (va - vb)) (Z.max ka kb) /\ sign_is w' c (if va <? vb then 1 else 0)) /\
  run_ok gives (cmp a b) w (fun i w' => w' = w /\ Z.sgn i = Z.sgn (va - vb)) /\
  (forall k K, 0 <= k -> K <= 30 -> k / 32 + 2 ^ ka + 1 <= 2 ^ K ->
    run_ok gives (lshift gives a k) w (fun c w' =>
      mp_ok w' pows (c :: b :: live) /\ same_on (pows ++ b :: live) w w' /\ is_num w' c (va * 2 ^ k) K)) /\
  (forall m x, 0 < m < 2 ^ 16 -> 0 <= x < 2 ^ 16 ->
    run_ok gives (multadd gives a m x) w (fun c w' =>
      mp_ok w' pows (c :: b :: live) /\ same_on (pows ++ b :: live) w w' /\ is_num w' c (m * va + x) (ka + 1))).
Proof.
  intros Hok Ha Hb Hva Hvb Hka Hkb. split; [|split; [|split; [|split]]].
  - eapply (run_mult gives a b); [exact Hok|set_solver|set_solver|exact Ha|exact Hb|lia..|]. by intros.
  - eapply (run_diff gives a b); [exact Hok|set_solver|set_solver|exact Ha|exact Hb|lia..|]. by intros.
  - eapply run_cmp; [exact Ha|exact Hb|]. by intros.
  - intros k K Hk HK Hn. eapply run_lshift; [exact Hok|exact Ha|done|done|done|done|]. by intros.
  - intros m x Hm Hx. eapply run_multadd; [exact Hok|exact Ha|lia|done|done|]. by intros.
Qed.

Lemma bigint_arithmetic_witness : exists c w', mult always 3 2 (two_objects 70000 0xffffffff) = Ok (c, w') /\
  mp_ok w' [] [c; 3; 2] /\ is_num w' c (0xffffffff * 70000) 2.
Proof.
  destruct (two_objects_ok 70000 0xffffffff) as (_ & Hok & H2 & H3); [by rewrite in_u32|by rewrite in_u32|].
  destruct (bigint_arithmetic always (two_objects 70000 0xffffffff) [] [] 3 2 0xffffffff 70000 1 1 Hok H3 H2 ltac:(lia) ltac:(lia) ltac:(lia) ltac:(lia)) as (Hm & _).
  unfold run_ok in Hm. destruct (mult always 3 2 (two_objects 70000 0xffffffff)) as [[c w']|e].
  - exists c, w'. destruct Hm as (H4 & _ & H5). split; [reflexivity|]. split; [exact H4|exact H5].
  - destruct Hm as (_ & n & Hn). discriminate Hn.
Defined.

(** C28: pow5mult multiplies by a power of five and keeps the cache of powers right. The
    cache is a list whose i-th object is 5^(4 * 2^i), whoever has filled it: the call gives
    v * 5^k with the operand replaced, extends the cache at its end by the powers it had to
    compute and changes no earlier one, ends within one turn per bit of the exponent, and
    leaves the other numbers in use as they were. *)
Theorem pow5mult_cached gives n w pows live b v kb k :
  0 <= k < 4 * 2 ^ Z.of_nat n -> mp_ok w pows (b :: live) -> is_num w b v kb -> 0 < v -> 0 <= kb -> kb + Z.of_nat n + 1 <= 29 ->
  run_ok gives (pow5mult gives n b k) w (fun c w' => exists pows',
    mp_ok w' pows' (c :: live) /\ pows `prefix_of` pows' /\ same_on live w w' /\ is_num w' c (v * 5 ^ k) (kb + Z.of_nat n + 1)).
Proof.
  intros Hk Hok Hb Hv Hkb Hn. eapply run_pow5mult; [reflexivity|exact Hk|exact Hok|exact Hb|done|done|done|].
  intros c w' pows' H1 H2 H3 H4. by exists pows'.
Qed.

Lemma pow5mult_cached_witness : exists c w' pows', pow5mult always 6 3 200 (two_objects 70000 0xffffffff) = Ok (c, w') /\
  mp_ok w' pows' [c; 2] /\ is_num w' c (0xffffffff * 5 ^ 200) 8.
Proof.
  destruct (two_objects_ok 70000 0xffffffff) as (_ & Hok & H2 & H3); [by rewrite in_u32|by rewrite in_u32|].
  pose proof (pow5mult_cached always 6 (two_objects 70000 0xffffffff) [] [2] 3 0xffffffff 1 200 ltac:(cbn; lia) Hok H3 ltac:(lia) ltac:(lia) ltac:(cbn; lia)) as Hm.
  unfold run_ok in Hm. destruct (pow5mult always 6 3 200 (two_objects 70000 0xffffffff)) as [[c w']|e].
  - destruct Hm as (pows' & H4 & _ & _ & H5). exists c, w', pows'. split; [reflexivity|]. split; [exact H4|exact H5].
  - destruct Hm as (_ & n & Hn). discriminate Hn.
Defined.
