(* ===== verification/CBigConv.v ===== *)
(** Conversions between text, doubles and newlib's multiple-precision integers: s2b, hi0bits,
    lo0bits, ulp, b2d, d2b, copybits and any_on of stdlib/mprec.c. A double is its two words,
    word0 with the sign and the exponent, and word1. *)

From S2P Require Import Prelude CBigWords CBig.

(** ** The code *)

Definition Exp_shift : Z := 20.
Definition Exp_msk1 : Z := 0x100000.
Definition Exp_mask : Z := 0x7ff00000.
Definition P : Z := 53.
Definition Bias : Z := 1023.
Definition Exp_1 : Z := 0x3ff00000.
Definition Ebits : Z := 11.
Definition Frac_mask : Z := 0xfffff.
Definition kshift : Z := 5.
Definition kmask : Z := 31.

(** if (!(x & mask)) { k += n; x <<= n; } *)
Definition hi_step (mask n : Z) (kx : Z * Z) : Z * Z :=
  if Z.land kx.2 mask =? 0 then (kx.1 + n, u32 (Z.shiftl kx.2 n)) else kx.

Definition hi0bits (x : Z) : Z :=
  let kx := (0, x) in
  let kx := hi_step 0xffff0000 16 kx in
  let kx := hi_step 0xff000000 8 kx in
  let kx := hi_step 0xf0000000 4 kx in
  let kx := hi_step 0xc0000000 2 kx in
  if Z.land kx.2 0x80000000 =? 0 then
    if Z.land kx.2 0x40000000 =? 0 then 32 else kx.1 + 1
  else kx.1.

(** if (!(x & mask)) { k += n; x >>= n; } *)
Definition lo_step (mask n : Z) (kx : Z * Z) : Z * Z :=
  if Z.land kx.2 mask =? 0 then (kx.1 + n, Z.shiftr kx.2 n) else kx.

(** The count, and what is left in *y. *)
Definition lo0bits (y : Z) : Z * Z :=
  let x := y in
  if negb (Z.land x 7 =? 0) then
    if negb (Z.land x 1 =? 0) then (0, y)
    else if negb (Z.land x 2 =? 0) then (1, Z.shiftr x 1)
    else (2, Z.shiftr x 2)
  else
    let kx := (0, x) in
    let kx := lo_step 0xffff 16 kx in
    let kx := lo_step 0xff 8 kx in
    let kx := lo_step 0xf 4 kx in
    let kx := lo_step 0x3 2 kx in
    if Z.land kx.2 1 =? 0 then
      let x := Z.shiftr kx.2 1 in
      if negb (Z.land (if x =? 0 then 1 else 0) 1 =? 0) then (32, y) else (kx.1 + 1, x)
    else kx.

Definition ulp (word0 : Z) : Z * Z :=
  let L := s32 (u32 (Z.land word0 Exp_mask - (P - 1) * Exp_msk1)) in
  if 0 <? L then (L, 0)
  else
    let L := Z.shiftr (- L) Exp_shift in
    if L <? Exp_shift then (Z.shiftr 0x80000 L, 0)
    else
      let L := L - Exp_shift in
      (0, if 31 <=? L then 1 else Z.shiftl 1 (31 - L)).

(** w = xa > xa0 ? *--xa : 0, with [i] words before xa. *)
Definition word_before (x : list Z) (i : Z) : Z := if 0 <? i then default 0 (x !! Z.to_nat (i - 1)) else 0.

(** The words of the double, and *e. *)
Definition b2d_words (x : list Z) (wds : Z) : Z * Z * Z :=
  let y := word_before x wds in
  let k := hi0bits y in
  let e := 32 - k in
  if k <? Ebits then
    let d0 := Z.lor Exp_1 (Z.shiftr y (Ebits - k)) in
    let w := word_before x (wds - 1) in
    let d1 := Z.lor (u32 (Z.shiftl y (32 - Ebits + k))) (Z.shiftr w (Ebits - k)) in
    (d0, d1, e)
  else
    let z := word_before x (wds - 1) in
    let k := k - Ebits in
    if negb (k =? 0) then
      let d0 := Z.lor (Z.lor Exp_1 (u32 (Z.shiftl y k))) (Z.shiftr z (32 - k)) in
      let y := word_before x (wds - 2) in
      let d1 := Z.lor (u32 (Z.shiftl z k)) (Z.shiftr y (32 - k)) in
      (d0, d1, e)
    else (Z.lor Exp_1 y, z, e).

Definition b2d (a : Z) : M mp (Z * Z * Z) :=
  o ← deref a;
  if decide (1 <= _wds o /\ (Z.to_nat (_wds o) <= length (_x o))%nat) then mret (b2d_words (_x o) (_wds o)) else fail_with Fault.

(** while (x < xe) *c++ = *x++; while (c < ce) *c++ = 0 *)
Definition copybits (c : list Z) (n : Z) (b : _Bigint) : option (list Z) :=
  let ce := Z.shiftr (n - 1) kshift + 1 in
  let xs := take (Z.to_nat (_wds b)) (_x b) in
  let zeros := replicate (Z.to_nat (ce - _wds b)) 0 in
  if decide (Z.to_nat (_wds b) <= length (_x b) /\ length (xs ++ zeros) <= length c)%nat
  then Some (xs ++ zeros ++ drop (length (xs ++ zeros)) c)
  else None.

(** while (x > x0) if ( *--x) return 1 *)
Fixpoint any_below (x : list Z) (n : nat) : Z :=
  match n with
  | O => 0
  | S n => if negb (default 0 (x !! n) =? 0) then 1 else any_below x n
  end.

Definition any_on (b : _Bigint) (k : Z) : Z :=
  let x := _x b in
  let nwds := _wds b in
  let n := Z.shiftr k kshift in
  if nwds <? n then any_below x (Z.to_nat nwds)
  else
    let k := Z.land k kmask in
    let x2 := default 0 (x !! Z.to_nat n) in
    let x1 := u32 (Z.shiftl (Z.shiftr x2 k) k) in
    if (n <? nwds) && negb (k =? 0) && negb (x1 =? x2) then 1
    else any_below x (Z.to_nat n).

Section Code.
Context (gives : nat -> bool).

(** for (k = 0, y = 1; x > y; y <<= 1, k++) is [grow_k] of CBig from 1 and 0. *)

(** do b = multadd (ptr, b, 10, *s++ - '0'), [n] times. *)
Fixpoint digits_loop (n : nat) (s : list Z) (b : Z) : M mp Z :=
  match n with
  | O => mret b
  | S n =>
      c ← lift_opt (head s);
      b ← multadd gives b 10 (c - 48);
      digits_loop n (tail s) b
  end.

Definition s2b (s : list Z) (nd0 nd y9 : Z) : M mp Z :=
  let x := Z.quot (nd + 8) 9 in
  let k := grow_k 32 1 x 0 in
  b ← eBalloc gives k;
  set_word b 0 y9;;
  set_wds b 1;;
  let i := 9 in
  if 9 <? nd0 then
    let s := drop 9 s in
    b ← digits_loop (Z.to_nat (nd0 - i)) s b;
    let s := drop (Z.to_nat (nd0 - i)) s in
    digits_loop (Z.to_nat (nd - nd0)) (drop 1 s) b
  else digits_loop (Z.to_nat (nd - i)) (drop 10 s) b.

(** The object, *e and *bits. *)
Definition d2b (d0 d1 : Z) : M mp (Z * Z * Z) :=
  b ← eBalloc gives 1;
  let z := Z.land d0 Frac_mask in
  let d0 := Z.land d0 0x7fffffff in
  let de := Z.shiftr d0 Exp_shift in
  let z := if negb (de =? 0) then Z.lor z Exp_msk1 else z in
  ki ← (if negb (d1 =? 0) then
          let '(k, y) := lo0bits d1 in
          z ← (if negb (k =? 0) then
                 set_word b 0 (Z.lor y (u32 (Z.shiftl z (32 - k))));;
                 mret (Z.shiftr z k)
               else set_word b 0 y;; mret z);
          set_word b 1 z;;
          let i := if z =? 0 then 1 else 2 in
          set_wds b i;;
          mret (k, i)
        else
          let '(k, z) := lo0bits z in
          set_word b 0 z;;
          set_wds b 1;;
          mret (k + 32, 1));
  let '(k, i) := ki in
  if negb (de =? 0) then mret (b, de - Bias - (P - 1) + k, P - k)
  else
    o ← deref b;
    x ← lift_opt (_x o !! Z.to_nat (i - 1));
    mret (b, de - Bias - (P - 1) + 1 + k, 32 * i - hi0bits x).
End Code.

(** ** Bits *)

(** No bit of the mask of the upper [n] bits is set. *)
Lemma land_high x n : 0 <= n <= 32 -> in_u 32 x -> (Z.land x (Z.ones n * 2 ^ (32 - n)) =? 0) = (x <? 2 ^ (32 - n)).
Proof.
  intros Hn Hx. rewrite in_u32 in Hx. assert (0 < 2 ^ (32 - n)) by (apply Z.pow_pos_nonneg; lia).
  assert (E : Z.land x (Z.ones n * 2 ^ (32 - n)) = (x / 2 ^ (32 - n)) * 2 ^ (32 - n)).
  { rewrite <- Z.shiftl_mul_pow2 by lia.
    apply Z.bits_inj'. intros i Hi. rewrite Z.land_spec, Z.shiftl_spec, <- Z.shiftl_mul_pow2, Z.shiftl_spec by lia.
    destruct (Z.lt_ge_cases i (32 - n)) as [Hlt|Hge].
    - rewrite !(Z.testbit_neg_r _ (i - (32 - n))) by lia. apply andb_false_r.
    - rewrite <- Z.shiftr_div_pow2, Z.shiftr_spec by lia. replace (i - (32 - n) + (32 - n)) with i by lia. rewrite Z.testbit_ones_nonneg by lia.
      destruct (Z.ltb_spec (i - (32 - n)) n); [apply andb_true_r|]. rewrite andb_false_r. symmetry.
      destruct (decide (x = 0)) as [->|]; [apply Z.bits_0|]. apply Z.bits_above_log2; [lia|]. apply Z.log2_lt_pow2; [lia|].
      apply Z.lt_le_trans with (2 ^ 32); [lia|]. apply Z.pow_le_mono_r; lia. }
  rewrite E. destruct (Z.ltb_spec x (2 ^ (32 - n))) as [H1|H1].
  - rewrite Z.div_small by lia. done.
  - apply Z.eqb_neq. pose proof (Z.div_le_mono (2 ^ (32 - n)) x (2 ^ (32 - n)) ltac:(lia) H1) as H2. rewrite Z.div_same in H2 by lia. nia.
Qed.

Lemma hi_step_ok mask n k x c : mask = Z.ones n * 2 ^ (32 - n) -> 0 < n <= 16 -> in_u 32 x -> 0 < x -> 32 - 2 * n <= Z.log2 x ->
  c = k + (31 - Z.log2 x) ->
  exists k' x', hi_step mask n (k, x) = (k', x') /\ in_u 32 x' /\ 0 < x' /\ 32 - n <= Z.log2 x' /\ c = k' + (31 - Z.log2 x').
Proof.
  intros -> Hn Hx H0 Hl ->. unfold hi_step. cbn [fst snd]. rewrite land_high by (done || lia). rewrite in_u32 in Hx.
  destruct (Z.ltb_spec x (2 ^ (32 - n))) as [Hlt|Hge].
  - assert (Hs : 0 <= x * 2 ^ n < 2 ^ 32).
    { replace (2 ^ 32) with (2 ^ (32 - n) * 2 ^ n) by (rewrite <- Z.pow_add_r by lia; f_equal; lia). assert (0 < 2 ^ n) by (apply Z.pow_pos_nonneg; lia). nia. }
    assert (Ex : u32 (Z.shiftl x n) = x * 2 ^ n) by (rewrite Z.shiftl_mul_pow2 by lia; by apply uwrap_small).
    assert (0 < 2 ^ n) by (apply Z.pow_pos_nonneg; lia).
    eexists _, _. split; [reflexivity|]. rewrite Ex, in_u32, Z.log2_mul_pow2 by lia. split; [done|]. split; [nia|]. split; lia.
  - eexists _, _. split; [reflexivity|]. split; [done|]. split; [done|]. split; [|done]. apply Z.log2_le_pow2; lia.
Qed.

Lemma hi0bits_ok x : in_u 32 x -> 0 < x -> hi0bits x = 31 - Z.log2 x.
Proof.
  intros Hx H0. unfold hi0bits. cbv zeta. pose proof (Z.log2_nonneg x).
  destruct (hi_step_ok 0xffff0000 16 0 x (31 - Z.log2 x)) as (k1 & x1 & -> & X1 & P1 & L1 & E1); [reflexivity|lia|done|done|lia|lia|].
  destruct (hi_step_ok 0xff000000 8 k1 x1 (31 - Z.log2 x)) as (k2 & x2 & -> & X2 & P2 & L2 & E2); [reflexivity|lia|done|done|lia|lia|].
  destruct (hi_step_ok 0xf0000000 4 k2 x2 (31 - Z.log2 x)) as (k3 & x3 & -> & X3 & P3 & L3 & E3); [reflexivity|lia|done|done|lia|lia|].
  destruct (hi_step_ok 0xc0000000 2 k3 x3 (31 - Z.log2 x)) as (k4 & x4 & -> & X4 & P4 & L4 & E4); [reflexivity|lia|done|done|lia|lia|].
  cbn [fst snd]. pose proof (land_high x4 1 ltac:(lia) X4) as T. change (Z.ones 1 * 2 ^ (32 - 1)) with 0x80000000 in T. rewrite T.
  rewrite in_u32 in X4. assert (2 ^ 30 <= x4) by (apply Z.log2_le_pow2; lia).
  destruct (Z.ltb_spec x4 (2 ^ (32 - 1))) as [Hlt|Hge].
  - assert (El : Z.log2 x4 = 30) by (apply Z.log2_unique; lia).
    assert (Ht : Z.land x4 0x40000000 =? 0 = false); [|rewrite Ht; lia].
    apply Z.eqb_neq. intros E. apply (f_equal (fun v => Z.testbit v 30)) in E. rewrite Z.land_spec, Z.bits_0 in E.
    change (Z.testbit 0x40000000 30) with true in E. rewrite andb_true_r in E. rewrite <- El in E. by rewrite Z.bit_log2 in E by lia.
  - assert (El : Z.log2 x4 = 31) by (apply Z.log2_unique; lia). lia.
Qed.

Lemma lo_step_ok mask n k x v : mask = Z.ones n -> 0 < n -> 0 < x -> 0 <= k -> x mod 2 ^ (2 * n) <> 0 -> v = x * 2 ^ k ->
  exists k' x', lo_step mask n (k, x) = (k', x') /\ 0 < x' /\ k <= k' /\ x' mod 2 ^ n <> 0 /\ v = x' * 2 ^ k'.
Proof.
  intros -> Hn H0 Hk Hm ->. unfold lo_step. cbn [fst snd]. rewrite Z.land_ones by lia. assert (Hp : 0 < 2 ^ n) by (apply Z.pow_pos_nonneg; lia).
  destruct (Z.eqb_spec (x mod 2 ^ n) 0) as [E|E].
  - eexists _, _. split; [reflexivity|]. rewrite Z.shiftr_div_pow2 by lia. pose proof (Z.div_mod x (2 ^ n) ltac:(lia)) as D. rewrite E, Z.add_0_r in D.
    split; [nia|]. split; [lia|]. split.
    + intros Em. apply Hm. replace (2 * n) with (n + n) by lia. rewrite Z.pow_add_r, Z.rem_mul_r by lia. rewrite E, Em. lia.
    + rewrite D at 1. rewrite Z.pow_add_r by lia. lia.
  - eexists _, _. split; [reflexivity|]. split; [done|]. split; [lia|]. by split.
Qed.

(** The power of two that is taken out. *)
Lemma lo0bits_ok y : in_u 32 y -> 0 < y -> exists k x, lo0bits y = (k, x) /\ 0 <= k < 32 /\ Z.odd x = true /\ in_u 32 x /\ y = x * 2 ^ k.
Proof.
  intros Hy H0. rewrite in_u32 in Hy.
  assert (Hend : forall k x, 0 < x -> 0 <= k -> Z.odd x = true -> y = x * 2 ^ k -> 0 <= k < 32 /\ Z.odd x = true /\ in_u 32 x /\ y = x * 2 ^ k).
  { intros k x Hx Hk Ho E. assert (Hp : 1 <= 2 ^ k) by (assert (0 < 2 ^ k) by (apply Z.pow_pos_nonneg; lia); lia).
    split; [|split; [done|split; [rewrite in_u32; nia|done]]]. split; [done|]. apply (Z.pow_lt_mono_r_iff 2); nia. }
  assert (Hodd : forall x, Z.odd x = true <-> x mod 2 <> 0) by (intros x; rewrite Zodd_mod; pose proof (Z.mod_pos_bound x 2); rewrite Z.eqb_eq; lia).
  unfold lo0bits. cbv zeta. change 7 with (Z.ones 3). change (Z.land y 1) with (Z.land y (Z.ones 1)). rewrite !Z.land_ones by lia. change (2 ^ 3) with 8. change (2 ^ 1) with 2.
  destruct (Z.eqb_spec (y mod 8) 0) as [E8|E8]; cbn [negb].
  2: { destruct (Z.eqb_spec (y mod 2) 0) as [E2|E2]; cbn [negb].
       - assert (E1 : Z.land y 2 =? 0 = (y / 2 mod 2 =? 0)).
         { assert (Hb : Z.land y 2 = (y / 2 mod 2) * 2).
           { apply Z.bits_inj'. intros i Hi. rewrite Z.land_spec. change 2 with (2 ^ 1) at 1 2 4. rewrite Z.pow2_bits_eqb, <- Z.shiftl_mul_pow2 by lia.
             rewrite Z.shiftl_spec, <- Z.land_ones with (n := 1), Z.land_spec by lia. destruct (Z.eqb_spec 1 i) as [<-|Hne].
             - rewrite <- Z.shiftr_div_pow2, Z.shiftr_spec by lia. cbn. by rewrite !andb_true_r.
             - rewrite andb_false_r. destruct (Z.lt_ge_cases i 1); [by rewrite Z.testbit_neg_r by lia|]. rewrite Z.testbit_ones_nonneg by lia.
               destruct (Z.ltb_spec (i - 1) 1); [lia|]. by rewrite andb_false_r. }
           rewrite Hb. destruct (Z.eqb_spec (y / 2 mod 2) 0) as [->|]; [done|]. apply Z.eqb_neq. lia. }
         rewrite E1. destruct (Z.eqb_spec (y / 2 mod 2) 0) as [E3|E3]; cbn [negb].
         + eexists _, _. split; [reflexivity|]. rewrite Z.shiftr_div_pow2 by lia. change (2 ^ 2) with 4.
           apply Hend; [|lia| |]; try apply Hodd; Z.to_euclidean_division_equations; lia.
         + eexists _, _. split; [reflexivity|]. rewrite Z.shiftr_div_pow2 by lia. change (2 ^ 1) with 2.
           apply Hend; [|lia|by apply Hodd|]; Z.to_euclidean_division_equations; lia.
       - eexists _, _. split; [reflexivity|]. apply Hend; [done|lia|by apply Hodd|lia]. }
  destruct (lo_step_ok 0xffff 16 0 y y) as (k1 & x1 & -> & P1 & L1 & M1 & E1); [reflexivity|lia|done|lia|rewrite Z.mod_small; lia|lia|].
  destruct (lo_step_ok 0xff 8 k1 x1 y) as (k2 & x2 & -> & P2 & L2 & M2 & E2); [reflexivity|lia|done|lia|done|done|].
  destruct (lo_step_ok 0xf 4 k2 x2 y) as (k3 & x3 & -> & P3 & L3 & M3 & E3); [reflexivity|lia|done|lia|done|done|].
  destruct (lo_step_ok 0x3 2 k3 x3 y) as (k4 & x4 & -> & P4 & L4 & M4 & E4); [reflexivity|lia|done|lia|done|done|].
  destruct (lo_step_ok 1 1 k4 x4 y) as (k5 & x5 & E & P5 & L5 & M5 & E5); [reflexivity|lia|done|lia|done|done|].
  unfold lo_step in E. cbn [fst snd] in *. destruct (Z.eqb_spec (Z.land x4 1) 0).
  - injection E as <- <-. rewrite (proj2 (Z.eqb_neq (Z.shiftr x4 1) 0)) by lia. cbn. eexists _, _. split; [reflexivity|]. apply Hend; [done|lia|by apply Hodd|done].
  - injection E as <- <-. eexists _, _. split; [reflexivity|]. apply Hend; [done|lia|by apply Hodd|done].
Qed.

(** ** Doubles *)

(** The biased exponent, and the significand in units of its last place. *)
Definition dexp (d0 : Z) : Z := (d0 / 2 ^ 20) mod 2 ^ 11.
Definition frac (d0 d1 : Z) : Z := (d0 mod 2 ^ 20 + (if dexp d0 =? 0 then 0 else 2 ^ 20)) * 2 ^ 32 + d1.

Lemma land_exp d : Z.land d Exp_mask = dexp d * 2 ^ 20.
Proof.
  unfold dexp. rewrite <- Z.shiftl_mul_pow2, <- Z.land_ones, <- Z.shiftr_div_pow2 by lia. apply Z.bits_inj'. intros i Hi.
  change Exp_mask with (Z.shiftl (Z.ones 11) 20). rewrite Z.land_spec, !Z.shiftl_spec by lia. destruct (Z.lt_ge_cases i 20).
  - rewrite !(Z.testbit_neg_r _ (i - 20)) by lia. apply andb_false_r.
  - rewrite Z.land_spec, Z.shiftr_spec by lia. by replace (i - 20 + 20) with i by lia.
Qed.

Definition ulp_ok_at (e : Z) : bool :=
  let '(a0, a1) := ulp (e * 2 ^ 20) in frac a0 a1 * 2 ^ Z.max 1 (dexp a0) =? 2 ^ Z.max 1 e.

(** The unit in the last place, as a double. *)
Lemma ulp_ok d0 a0 a1 : ulp d0 = (a0, a1) -> frac a0 a1 * 2 ^ Z.max 1 (dexp a0) = 2 ^ Z.max 1 (dexp d0).
Proof.
  intros E. assert (Hall : forallb (fun n => ulp_ok_at (Z.of_nat n)) (seq 0 2048) = true) by (vm_compute; reflexivity).
  assert (Hd : 0 <= dexp d0 < 2 ^ 11) by (apply Z.mod_pos_bound; lia).
  rewrite forallb_forall in Hall. specialize (Hall (Z.to_nat (dexp d0))). rewrite in_seq, Z2Nat.id in Hall by lia.
  specialize (Hall ltac:(change (2 ^ 11) with 2048 in Hd; lia)). unfold ulp_ok_at in Hall.
  assert (Eu : ulp (dexp d0 * 2 ^ 20) = ulp d0).
  { assert (Ed : dexp (dexp d0 * 2 ^ 20) = dexp d0) by (unfold dexp at 1; rewrite Z.div_mul by lia; by apply Z.mod_small).
    unfold ulp. by rewrite !land_exp, Ed. }
  rewrite Eu, E in Hall. by apply Z.eqb_eq in Hall.
Qed.

(** ** any_on and copybits *)

Lemma any_below_ok x n : words x -> (n <= length x)%nat -> any_below x n = if val (take n x) =? 0 then 0 else 1.
Proof.
  intros Hx. induction n as [|n IH]; intros Hn; [done|]. cbn [any_below]. destruct (lookup_lt_is_Some_2 x n) as [w Hw]; [lia|].
  pose proof (proj1 (Forall_lookup _ _) Hx n w Hw) as Wr. rewrite in_u32 in Wr. rewrite Hw. change (default 0 (Some w)) with w.
  rewrite (take_val x n w Hw), IH by lia. pose proof (take_bound x n Hx ltac:(lia)) as Hb. assert (0 < 2 ^ (32 * Z.of_nat n)) by (apply Z.pow_pos_nonneg; lia).
  destruct (Z.eqb_spec w 0) as [->|Hw0]; cbn [negb]; [by rewrite Z.mul_0_r, Z.add_0_r|]. rewrite (proj2 (Z.eqb_neq _ 0)) by nia. done.
Qed.

(** Is one of the lower [k] bits set? *)
Lemma any_on_ok b k : wf b -> 0 <= k -> any_on b k = if bval b mod 2 ^ k =? 0 then 0 else 1.
Proof.
  intros [Kk Km Kl Kw Kx] Hk. unfold any_on. rewrite Z.shiftr_div_pow2 by (unfold kshift; lia). change (2 ^ kshift) with 32.
  change kmask with (Z.ones 5). rewrite Z.land_ones by lia. change (2 ^ 5) with 32. pose proof (Z.mod_pos_bound k 32 ltac:(lia)) as Hr. pose proof (Z.div_mod k 32 ltac:(lia)) as Ek.
  assert (0 <= k / 32) by (apply Z.div_pos; lia). pose proof (bval_bound b ltac:(by split)) as Hb. set (n := k / 32) in *. set (r := k mod 32) in *.
  assert (Hpk : 0 < 2 ^ k) by (apply Z.pow_pos_nonneg; lia).
  destruct (Z.ltb_spec (_wds b) n) as [Hlt|Hge].
  { rewrite any_below_ok by (done || lia). fold (used_words b). fold (bval b). rewrite Z.mod_small; [done|]. split; [lia|].
    apply Z.lt_le_trans with (2 ^ (32 * _wds b)); [lia|]. apply Z.pow_le_mono_r; lia. }
  rewrite any_below_ok by (done || lia). destruct (Z.ltb_spec n (_wds b)) as [Hn|Hn]; cbn [andb].
  2: { assert (n = _wds b) as -> by lia. fold (used_words b). fold (bval b). rewrite Z.mod_small; [done|]. split; [lia|].
       apply Z.lt_le_trans with (2 ^ (32 * _wds b)); [lia|]. apply Z.pow_le_mono_r; lia. }
  destruct (lookup_lt_is_Some_2 (_x b) (Z.to_nat n)) as [t Ht]; [lia|]. rewrite Ht. change (default 0 (Some t)) with t.
  pose proof (proj1 (Forall_lookup _ _) Kx _ _ Ht) as Wt. rewrite in_u32 in Wt.
  (* the words below, the word, and the words above *)
  assert (Eb : bval b mod 2 ^ k = val (take (Z.to_nat n) (_x b)) + 2 ^ (32 * n) * (t mod 2 ^ r)).
  { assert (exists h, bval b = val (take (Z.to_nat n) (_x b)) + 2 ^ (32 * n) * (t + 2 ^ 32 * h)) as [h ->].
    { exists (val (drop (S (Z.to_nat n)) (used_words b))). unfold bval. rewrite <- (take_drop (Z.to_nat n) (used_words b)) at 1.
      rewrite val_app, length_take, used_length, Nat.min_l by (lia || by split).
      assert (Hu : used_words b !! Z.to_nat n = Some t) by (unfold used_words; rewrite lookup_take_lt by lia; done).
      rewrite (drop_S _ _ _ Hu). cbn [val]. rewrite Z2Nat.id by lia. unfold used_words. rewrite take_take, Nat.min_l by lia. done. }
    pose proof (take_bound (_x b) (Z.to_nat n) Kx ltac:(lia)) as Hl. rewrite Z2Nat.id in Hl by lia. set (low := val _) in *.
    assert (0 < 2 ^ (32 * n)) by (apply Z.pow_pos_nonneg; lia). assert (0 < 2 ^ r) by (apply Z.pow_pos_nonneg; lia).
    replace (2 ^ k) with (2 ^ (32 * n) * 2 ^ r) by (rewrite <- Z.pow_add_r by lia; f_equal; lia).
    rewrite Z.rem_mul_r by lia. rewrite (Z.mul_comm (2 ^ (32 * n)) (t + _)), Z.mod_add, Z.div_add by lia. rewrite (Z.mod_small low), (Z.div_small low) by lia.
    f_equal. f_equal. rewrite Z.add_0_l. replace (2 ^ 32) with (2 ^ (32 - r) * 2 ^ r) by (rewrite <- Z.pow_add_r by lia; f_equal; lia).
    replace (2 ^ (32 - r) * 2 ^ r * h) with (2 ^ (32 - r) * h * 2 ^ r) by lia. by rewrite Z.mod_add by lia. }
  rewrite Eb. pose proof (take_bound (_x b) (Z.to_nat n) Kx ltac:(lia)) as Hl. rewrite Z2Nat.id in Hl by lia. set (low := val _) in *.
  assert (Hp : 0 < 2 ^ (32 * n)) by (apply Z.pow_pos_nonneg; lia). assert (Hpr : 0 < 2 ^ r) by (apply Z.pow_pos_nonneg; lia). pose proof (Z.mod_pos_bound t (2 ^ r) Hpr) as Hm.
  destruct (Z.eqb_spec r 0) as [E0|E0]; cbn [negb].
  { rewrite E0, Z.pow_0_r, Z.mod_1_r, Z.mul_0_r, Z.add_0_r. done. }
  assert (Ex1 : u32 (Z.shiftl (Z.shiftr t r) r) = t - t mod 2 ^ r).
  { rewrite Z.shiftr_div_pow2, Z.shiftl_mul_pow2 by lia. pose proof (Z.div_mod t (2 ^ r) ltac:(lia)) as D. pose proof (Z.mod_le t (2 ^ r) ltac:(lia) Hpr). rewrite uwrap_small; [lia|]. rewrite in_u32. lia. }
  rewrite Ex1. destruct (Z.eqb_spec (t - t mod 2 ^ r) t) as [Et|Et]; cbn [negb].
  - replace (t mod 2 ^ r) with 0 by lia. by rewrite Z.mul_0_r, Z.add_0_r.
  - assert (H1 : 1 <= t mod 2 ^ r) by lia. assert (H2 : 0 < 2 ^ (32 * n) * (t mod 2 ^ r)) by (apply Z.mul_pos_pos; lia). cbn [andb]. rewrite (proj2 (Z.eqb_neq _ 0)) by lia. done.
Qed.

(** The number, in an array of words that holds [n] bits. *)
Lemma copybits_ok c n b : wf b -> 1 <= n -> _wds b <= (n - 1) / 32 + 1 -> (n - 1) / 32 + 1 <= Z.of_nat (length c) ->
  exists c', copybits c n b = Some c' /\ length c' = length c /\ val (take (Z.to_nat ((n - 1) / 32 + 1)) c') = bval b /\
    drop (Z.to_nat ((n - 1) / 32 + 1)) c' = drop (Z.to_nat ((n - 1) / 32 + 1)) c.
Proof.
  intros Wb Hn Hw Hc. pose proof Wb as [Kk Km Kl Kw Kx]. unfold copybits. rewrite Z.shiftr_div_pow2 by (unfold kshift; lia). change (2 ^ kshift) with 32.
  fold (used_words b). set (ce := (n - 1) / 32 + 1) in *. set (x := used_words b ++ replicate (Z.to_nat (ce - _wds b)) 0).
  assert (Lx : length x = Z.to_nat ce) by (unfold x; rewrite length_app, used_length, length_replicate by done; lia).
  rewrite Lx, decide_True by lia. eexists. split; [reflexivity|]. rewrite app_assoc. fold x.
  split; [rewrite length_app, length_drop; lia|]. rewrite take_app_length', drop_app_length' by done. split; [|done].
  unfold x. rewrite val_app, val_zeros. unfold bval. lia.
Qed.

(** ** s2b *)

Definition decimal (v : Z) (ds : list Z) : Z := fold_left (fun v c => 10 * v + (c - 48)) ds v.

Abbreviation digits := (Forall (fun c : Z => 48 <= c <= 57)).

Lemma decimal_bound ds : forall v, digits ds -> 0 <= v ->
  v * 10 ^ Z.of_nat (length ds) <= decimal v ds < (v + 1) * 10 ^ Z.of_nat (length ds).
Proof.
  induction ds as [|c ds IH]; intros v Hd Hv; [cbn; lia|]. apply Forall_cons in Hd as [Hc Hd]. cbn [decimal fold_left length].
  fold (decimal (10 * v + (c - 48)) ds). specialize (IH (10 * v + (c - 48)) Hd ltac:(lia)). rewrite Nat2Z.inj_succ, Z.pow_succ_r by lia.
  assert (0 < 10 ^ Z.of_nat (length ds)) by (apply Z.pow_pos_nonneg; lia). nia.
Qed.

Lemma decimal_ge ds v : digits ds -> 0 <= v -> v <= decimal v ds.
Proof.
  intros Hd Hv. pose proof (decimal_bound ds v Hd Hv). assert (0 < 10 ^ Z.of_nat (length ds)) by (apply Z.pow_pos_nonneg; lia). nia.
Qed.

Lemma decimal_app v ds es : decimal v (ds ++ es) = decimal (decimal v ds) es.
Proof. apply fold_left_app. Qed.

Section Text.
Context (gives : nat -> bool).

Lemma run_digits n : forall s b w pows live v k (Q : Z -> mp -> Prop), (n <= length s)%nat -> digits (take n s) ->
  mp_ok w pows (b :: live) -> is_num w b v k -> 0 <= v -> k <= 30 -> decimal v (take n s) < 2 ^ (32 * 2 ^ k) ->
  (forall b' w', mp_ok w' pows (b' :: live) -> same_on (pows ++ live) w w' -> is_num w' b' (decimal v (take n s)) k -> Q b' w') ->
  run_ok gives (digits_loop gives n s b) w Q.
Proof.
  induction n as [|n IH]; intros s b w pows live v k Q Hn Hd Hok Hb Hv Hk Hfit HQ; cbn [digits_loop].
  - apply run_ret, HQ; [done|apply same_on_refl|done].
  - destruct s as [|c s]; [cbn in Hn; lia|]. cbn [take head tail] in *. apply Forall_cons in Hd as [Hc Hd]. apply run_bind. eapply run_some; [done|].
    change (decimal v (c :: take n s)) with (decimal (10 * v + (c - 48)) (take n s)) in *. pose proof (decimal_ge (take n s) (10 * v + (c - 48)) Hd ltac:(lia)).
    apply run_bind. eapply (run_multadd_fit gives b 10 (c - 48) w pows live v k k); [done|done|lia|lia|lia|lia|]. intros b1 w1 Hok1 Hs1 Hb1 _.
    eapply (IH s b1 w1 pows live (10 * v + (c - 48)) k); [cbn in Hn; lia|done|done|done|lia|done|done|].
    intros b' w' H1 H2 H3. apply HQ; [done|by eapply same_on_trans|done].
Qed.

(** [D] are the digits, [nd0] of them before the point (or whatever stands there). *)
Lemma run_s2b D c rest nd0 nd w pows live (Q : Z -> mp -> Prop) : digits D -> Z.of_nat (length D) = nd -> 9 <= nd <= 2 ^ 31 - 9 -> 0 <= nd0 <= nd ->
  mp_ok w pows live ->
  (forall b w', mp_ok w' pows (b :: live) -> same_on (pows ++ live) w w' ->
     is_num w' b (decimal 0 D) (grow_k 32 1 ((nd + 8) / 9) 0) -> Q b w') ->
  run_ok gives (s2b gives (take (Z.to_nat nd0) D ++ c :: drop (Z.to_nat nd0) D ++ rest) nd0 nd (decimal 0 (take 9 D))) w Q.
Proof.
  intros HD Hl Hnd Hnd0 Hok HQ. unfold s2b. rewrite Z.quot_div_nonneg by lia. set (x := (nd + 8) / 9). assert (Hx : nd <= 9 * x /\ 1 <= x <= 2 ^ 30) by (unfold x; qlia).
  destruct (grow_k_ok 32 0 x 30) as [Hg1 Hg2]; [lia|lia|lia|lia|]. change (2 ^ 0) with 1 in Hg1, Hg2. set (k := grow_k 32 1 x 0) in *.
  assert (H9 : digits (take 9 D)) by (by apply Forall_take). assert (L9 : length (take 9 D) = 9%nat) by (apply length_take_le; lia).
  pose proof (decimal_bound (take 9 D) 0 H9 ltac:(lia)) as B9. rewrite L9 in B9. change (10 ^ Z.of_nat 9) with 1000000000 in B9.
  assert (Hfit : decimal 0 D < 2 ^ (32 * 2 ^ k)).
  { pose proof (decimal_bound D 0 HD ltac:(lia)) as B. rewrite Hl in B. apply Z.lt_le_trans with (10 ^ nd); [lia|].
    apply Z.le_trans with ((10 ^ 9) ^ x); [rewrite <- Z.pow_mul_r by lia; apply Z.pow_le_mono_r; lia|].
    apply Z.le_trans with ((2 ^ 32) ^ x); [apply Z.pow_le_mono_l; lia|]. rewrite <- Z.pow_mul_r by lia. apply Z.pow_le_mono_r; lia. }
  apply run_bind. eapply run_eBalloc; [done|lia|]. intros b w1 o Hok1 Hs1 Hb1 W1 K1 _ _.
  apply run_assoc. eapply run_one_word; [done|done|done|rewrite in_u32; lia|]. intros w2 o2 Hok2 Hs2 Ho2 Wo2 No2 Vo2 Ko2 _.
  assert (Hn2 : is_num w2 b (decimal 0 (take 9 D)) k) by (exists o2; repeat split; try done; try apply Wo2; try apply No2; lia).
  assert (Hs : same_on (pows ++ live) w w2) by (by eapply same_on_trans). set (n0 := Z.to_nat nd0).
  assert (Lt : length (take n0 D) = n0) by (apply length_take_le; lia).
  destruct (Z.ltb_spec 9 nd0) as [H0|H0].
  - (* digits before the point and after it *)
    set (s := drop 9 (take n0 D ++ c :: drop n0 D ++ rest)).
    assert (Es : s = drop 9 (take n0 D) ++ c :: drop n0 D ++ rest) by (unfold s; rewrite drop_app_le by lia; done).
    assert (Lm : length (drop 9 (take n0 D)) = Z.to_nat (nd0 - 9)) by (rewrite length_drop; lia).
    assert (Et : take (Z.to_nat (nd0 - 9)) s = drop 9 (take n0 D)) by (rewrite Es; by apply take_app_length').
    assert (Ed : decimal (decimal 0 (take 9 D)) (drop 9 (take n0 D)) = decimal 0 (take n0 D)).
    { rewrite <- decimal_app. f_equal. rewrite <- (take_drop 9 (take n0 D)) at 2. by rewrite take_take, Nat.min_l by lia. }
    assert (Ea : decimal (decimal 0 (take n0 D)) (drop n0 D) = decimal 0 D) by (rewrite <- decimal_app; by rewrite take_drop).
    assert (Hle : decimal 0 (take n0 D) <= decimal 0 D).
    { rewrite <- Ea. apply decimal_ge; [by apply Forall_drop|]. apply decimal_ge; [by apply Forall_take|lia]. }
    apply run_bind. eapply run_digits; [rewrite Es, length_app; lia|rewrite Et; by apply Forall_drop, Forall_take|exact Hok2|exact Hn2|lia|lia|rewrite Et, Ed; lia|].
    rewrite Et, Ed. intros b3 w3 Hok3 Hs3 Hn3.
    assert (Er : drop 1 (drop (Z.to_nat (nd0 - 9)) s) = drop n0 D ++ rest) by (rewrite Es, <- Lm, drop_app_length; done).
    assert (Lr : length (drop n0 D) = Z.to_nat (nd - nd0)) by (rewrite length_drop; lia). rewrite Er.
    assert (Et2 : take (Z.to_nat (nd - nd0)) (drop n0 D ++ rest) = drop n0 D) by (by apply take_app_length').
    eapply run_digits; [rewrite length_app; lia|rewrite Et2; by apply Forall_drop|exact Hok3|exact Hn3| |lia|rewrite Et2, Ea; done|].
    { apply decimal_ge; [by apply Forall_take|lia]. }
    rewrite Et2, Ea. intros b4 w4 H1 H2 H3. apply HQ; [done|by eapply same_on_trans; [|eapply same_on_trans]|done].
  - set (s := drop 10 (take n0 D ++ c :: drop n0 D ++ rest)).
    assert (Es : s = drop 9 D ++ rest).
    { unfold s. rewrite drop_app_ge by lia. rewrite Lt. replace (10 - n0)%nat with (S (9 - n0)) by lia. cbn [drop].
      rewrite drop_app_le by (rewrite length_drop; lia). rewrite drop_drop. by replace (n0 + (9 - n0))%nat with 9%nat by lia. }
    assert (Lm : length (drop 9 D) = Z.to_nat (nd - 9)) by (rewrite length_drop; lia).
    assert (Et : take (Z.to_nat (nd - 9)) s = drop 9 D) by (rewrite Es; by apply take_app_length').
    assert (Ed : decimal (decimal 0 (take 9 D)) (drop 9 D) = decimal 0 D) by (rewrite <- decimal_app; by rewrite take_drop).
    eapply run_digits; [rewrite Es, length_app; lia|rewrite Et; by apply Forall_drop|exact Hok2|exact Hn2|lia|lia|rewrite Et, Ed; done|].
    rewrite Et, Ed. intros b3 w3 H1 H2 H3. apply HQ; [done|by eapply same_on_trans|done].
Qed.
End Text.

(** ** d2b and b2d *)

Lemma frac_words d0 : in_u 32 d0 ->
  Z.shiftr (Z.land d0 0x7fffffff) Exp_shift = dexp d0 /\ Z.land d0 Frac_mask = d0 mod 2 ^ 20 /\
  (if negb (dexp d0 =? 0) then Z.lor (d0 mod 2 ^ 20) Exp_msk1 else d0 mod 2 ^ 20) = d0 mod 2 ^ 20 + (if dexp d0 =? 0 then 0 else 2 ^ 20).
Proof.
  intros Hd. rewrite in_u32 in Hd. split; [|split].
  - change 0x7fffffff with (Z.ones 31). rewrite Z.land_ones, Z.shiftr_div_pow2 by (unfold Exp_shift; lia). unfold dexp, Exp_shift.
    change (2 ^ 31) with (2 ^ 20 * 2 ^ 11). rewrite Z.rem_mul_r, (Z.mul_comm (2 ^ 20)), Z.div_add, Z.div_small by (lia || apply Z.mod_pos_bound; lia). done.
  - change Frac_mask with (Z.ones 20). by rewrite Z.land_ones.
  - destruct (Z.eqb_spec (dexp d0) 0); cbn [negb]; [lia|]. rewrite Z.lor_comm, (lor_disjoint _ _ 20); [change Exp_msk1 with (2 ^ 20); lia|lia|apply Z.mod_pos_bound; lia|done].
Qed.

Lemma top_bits o t : wf o -> normal o -> 0 < bval o -> _x o !! Z.to_nat (_wds o - 1) = Some t -> 32 * _wds o - hi0bits t = Z.log2 (bval o) + 1.
Proof.
  intros Wo No Hv Ht. pose proof No as [H1 _]. destruct (bval_top o Wo H1) as (t' & Ht' & Hr & Hl & E). rewrite Ht in Ht'. injection Ht' as <-. cbn zeta in *.
  rewrite in_u32 in Hr. assert (Hp : 0 < 2 ^ (32 * (_wds o - 1))) by (apply Z.pow_pos_nonneg; lia).
  assert (0 < t) by (pose proof (num_lower o Wo No Hv); destruct (decide (t = 0)) as [->|]; lia).
  rewrite hi0bits_ok by done. rewrite E. assert (El : Z.log2 (val (take (Z.to_nat (_wds o - 1)) (_x o)) + 2 ^ (32 * (_wds o - 1)) * t) = 32 * (_wds o - 1) + Z.log2 t); [|lia].
  pose proof (Z.log2_spec t ltac:(lia)) as [L1 L2]. pose proof (Z.log2_nonneg t). apply Z.log2_unique; [lia|]. rewrite Z.pow_add_r by lia. split; [nia|].
  replace (Z.succ (32 * (_wds o - 1) + Z.log2 t)) with (32 * (_wds o - 1) + Z.succ (Z.log2 t)) by lia. rewrite Z.pow_add_r by lia. nia.
Qed.

Section Double.
Context (gives : nat -> bool).

Lemma run_two_words p x0 x1 b w pows live (Q : unit -> mp -> Prop) : mp_ok w pows (p :: live) -> bigs w !! p = Some b -> wf b -> _k b = 1 ->
  in_u 32 x0 -> in_u 32 x1 ->
  (forall w' o, mp_ok w' pows (p :: live) -> same_on (pows ++ live) w w' -> bigs w' !! p = Some o -> wf o -> normal o ->
     bval o = x0 + 2 ^ 32 * x1 -> _k o = 1 -> _wds o = (if x1 =? 0 then 1 else 2) -> Q tt w') ->
  run_ok gives (set_word p 0 x0;; set_word p 1 x1;; set_wds p (if x1 =? 0 then 1 else 2)) w Q.
Proof.
  intros Hok Hb Wb K1 H0 H1 HQ. pose proof Wb as [_ Km Kl Kw Kx]. rewrite K1 in Km, Kl. change (2 ^ 1) with 2 in Km, Kl.
  apply run_bind. eapply run_set_word; [done|done|done|lia|done|]. intros w2 Hok2 Hs2 Hb2. set (o2 := with_words _ _ _) in *.
  assert (W2 : wf o2) by (apply wf_with_words; [done|done|by rewrite length_insert|by apply Forall_insert]).
  apply run_bind. eapply run_set_word; [done|exact Hb2|done|cbn; lia|done|]. intros w3 Hok3 Hs3 Hb3. set (o3 := with_words _ _ o2) in *.
  assert (W3 : wf o3) by (apply wf_with_words; [done|cbn; lia|by rewrite length_insert|apply Forall_insert; [apply W2|done]]).
  eapply run_set_wds; [done|exact Hb3|done|cbn; destruct (x1 =? 0); lia|]. intros w4 Hok4 Hs4 Hb4.
  destruct (_x b) as [|u [|t [|]]] eqn:Ex; cbn in Kl; try lia.
  eapply HQ; [done|by eapply same_on_trans; [|eapply same_on_trans]|exact Hb4| | | |exact K1|done].
  - apply wf_with_words; [done|cbn; destruct (x1 =? 0); lia|done|apply W3].
  - split; cbn [_wds with_words]; [destruct (x1 =? 0); lia|]. destruct (Z.eqb_spec x1 0) as [|Hx]; [lia|]. intros _. unfold o3, o2. cbn. rewrite ?Ex. done.
  - rewrite bval_with_words. assert (E3 : _x o3 = [x0; x1]) by (unfold o3, o2; cbn; by rewrite ?Ex). rewrite E3.
    destruct (Z.eqb_spec x1 0) as [->|Hx]; [change (Z.to_nat 1) with 1%nat|change (Z.to_nat 2) with 2%nat]; cbn [take val]; lia.
Qed.

(** The words of the significand z * 2^32 + d1, with its factors of two taken out. *)
Lemma run_d2b_words z d1 p b w pows live (Q : Z * Z -> mp -> Prop) : mp_ok w pows (p :: live) -> bigs w !! p = Some b -> wf b -> _k b = 1 ->
  0 <= z < 2 ^ 21 -> in_u 32 d1 -> 0 < z * 2 ^ 32 + d1 ->
  (forall k w' o, mp_ok w' pows (p :: live) -> same_on (pows ++ live) w w' -> bigs w' !! p = Some o -> wf o -> normal o -> _k o = 1 ->
     0 <= k -> Z.odd (bval o) = true -> bval o * 2 ^ k = z * 2 ^ 32 + d1 -> Q (k, _wds o) w') ->
  run_ok gives (if negb (d1 =? 0) then
          let '(k, y) := lo0bits d1 in
          z ← (if negb (k =? 0) then
                 set_word p 0 (Z.lor y (u32 (Z.shiftl z (32 - k))));;
                 mret (Z.shiftr z k)
               else set_word p 0 y;; mret z);
          set_word p 1 z;;
          let i := if z =? 0 then 1 else 2 in
          set_wds p i;;
          mret (k, i)
        else
          let '(k, z) := lo0bits z in
          set_word p 0 z;;
          set_wds p 1;;
          mret (k + 32, 1)) w Q.
Proof.
  intros Hok Hb Wb K1 Hz Hd H0 HQ. destruct (Z.eqb_spec d1 0) as [->|Hd0]; cbn [negb].
  - destruct (lo0bits_ok z) as (k & y & -> & Hk & Ho & Hy & E); [rewrite in_u32; lia|lia|].
    apply run_assoc. eapply run_one_word; [done|done|done|done|]. intros w2 o Hok2 Hs2 Hb2 Wo No Vo Ko Do. apply run_ret.
    rewrite <- Do. eapply HQ; [done|done|exact Hb2|done|done|lia|lia|by rewrite Vo|]. rewrite Vo, Z.pow_add_r by lia. lia.
  - rewrite in_u32 in Hd. destruct (lo0bits_ok d1) as (k & y & -> & Hk & Ho & Hy & E); [by rewrite in_u32|lia|]. rewrite in_u32 in Hy.
    assert (Hfin : forall x0 x1, in_u 32 x0 -> in_u 32 x1 -> Z.odd (x0 + 2 ^ 32 * x1) = true -> (x0 + 2 ^ 32 * x1) * 2 ^ k = z * 2 ^ 32 + d1 ->
      run_ok gives (set_word p 0 x0;; set_word p 1 x1;; set_wds p (if x1 =? 0 then 1 else 2);; mret (k, if x1 =? 0 then 1 else 2)) w Q).
    { intros x0 x1 H1 H2 H3 H4. assert (Hgoal : run_ok gives ((set_word p 0 x0;; set_word p 1 x1;; set_wds p (if x1 =? 0 then 1 else 2));; mret (k, if x1 =? 0 then 1 else 2)) w Q).
      { apply run_bind. eapply run_two_words; [done|done|done|done|done|done|]. intros w2 o Hok2 Hs2 Hb2 Wo No Vo Ko Do. apply run_ret. rewrite <- Do.
        eapply HQ; [done|done|exact Hb2|done|done|done|lia|by rewrite Vo|by rewrite Vo]. }
      revert Hgoal. unfold run_ok, mbind, M_bind. destruct (set_word p 0 x0 w) as [[? w1]|]; [|done]. destruct (set_word p 1 x1 w1) as [[? w2]|]; [|done].
      by destruct (set_wds p _ w2) as [[? w3]|]. }
    assert (Hpow : 0 < 2 ^ k) by (apply Z.pow_pos_nonneg; lia).
    destruct (Z.eqb_spec k 0) as [->|Hk0]; cbn [negb].
    + specialize (Hfin y z). cbn [Z.pow] in E. revert Hfin. unfold run_ok, mbind, M_bind, mret, M_ret. intros Hfin.
      destruct (set_word p 0 y w) as [[? w1]|]; apply Hfin; try (rewrite in_u32; lia); try lia; rewrite Z.odd_add_mul_even; done || (by exists (2 ^ 31)).
    + set (x0 := Z.lor y _). set (x1 := Z.shiftr z k). specialize (Hfin x0 x1).
      assert (Hpow2 : 0 < 2 ^ (32 - k)) by (apply Z.pow_pos_nonneg; lia). assert (E32 : 2 ^ 32 = 2 ^ (32 - k) * 2 ^ k) by (rewrite <- Z.pow_add_r by lia; f_equal; lia).
      pose proof (Z.div_mod z (2 ^ k) ltac:(lia)) as Dz. pose proof (Z.mod_pos_bound z (2 ^ k) Hpow) as Mz.
      assert (Hy2 : y < 2 ^ (32 - k)) by nia.
      assert (E0 : x0 = y + 2 ^ (32 - k) * (z mod 2 ^ k)).
      { unfold x0. rewrite shiftl_u32 by lia. replace (32 - (32 - k)) with k by lia. rewrite Z.lor_comm, (lor_disjoint _ _ (32 - k)); [lia|lia|lia|]. rewrite Z.mul_comm. apply Z_mod_mult. }
      assert (E1 : x1 = z / 2 ^ k) by (unfold x1; by rewrite Z.shiftr_div_pow2 by lia).
      assert (0 <= z / 2 ^ k <= z) by (split; [apply Z.div_pos; lia|apply Z.div_le_upper_bound; nia]).
      assert (Hodd : Z.odd (x0 + 2 ^ 32 * x1) = true).
      { replace (x0 + 2 ^ 32 * x1) with (y + 2 * (2 ^ (31 - k) * (z mod 2 ^ k) + 2 ^ 31 * x1)); [rewrite Z.odd_add_mul_2; done|].
        rewrite E0. replace (2 ^ (32 - k)) with (2 * 2 ^ (31 - k)); [lia|]. rewrite <- Z.pow_succ_r by lia. f_equal. lia. }
      clearbody x0 x1. revert Hfin. unfold run_ok, mbind, M_bind, mret, M_ret. intros Hfin.
      destruct (set_word p 0 x0 w) as [[? w1]|]; apply Hfin; try done; try (rewrite in_u32; nia); nia.
Qed.

Lemma frac_log2 d0 d1 : in_u 32 d1 -> dexp d0 <> 0 -> Z.log2 (frac d0 d1) = 52.
Proof.
  intros Hd He. rewrite in_u32 in Hd. unfold frac. rewrite (proj2 (Z.eqb_neq _ _) He). pose proof (Z.mod_pos_bound d0 (2 ^ 20) ltac:(lia)). apply Z.log2_unique; lia.
Qed.

Lemma run_d2b d0 d1 w pows live (Q : Z * Z * Z -> mp -> Prop) : mp_ok w pows live -> in_u 32 d0 -> in_u 32 d1 -> 0 < frac d0 d1 ->
  (forall b w' v k, mp_ok w' pows (b :: live) -> same_on (pows ++ live) w w' -> is_num w' b v 1 -> Z.odd v = true -> 0 <= k ->
     v * 2 ^ k = frac d0 d1 -> Q (b, Z.max 1 (dexp d0) - 1075 + k, Z.log2 v + 1) w') ->
  run_ok gives (d2b gives d0 d1) w Q.
Proof.
  intros Hok H0 H1 Hf HQ. unfold d2b. destruct (frac_words d0 H0) as (E1 & E2 & E3). rewrite E1, E2, E3. clear E1 E2 E3.
  unfold frac in Hf. pose proof (Z.mod_pos_bound d0 (2 ^ 20) ltac:(lia)) as Hm. set (z := d0 mod 2 ^ 20 + _) in *.
  assert (Hz : 0 <= z < 2 ^ 21) by (unfold z; destruct (dexp d0 =? 0); lia).
  apply run_bind. eapply run_eBalloc; [done|lia|]. intros p w1 b Hok1 Hs1 Hb1 W1 K1 _ _.
  apply run_bind. eapply run_d2b_words; [done|done|done|done|done|done|done|]. intros k w2 o Hok2 Hs2 Hb2 Wo No Ko Hk Ho E.
  assert (Hv : 0 < bval o) by (pose proof (bval_bound o Wo); destruct (decide (bval o = 0)) as [E0|]; [rewrite E0 in Ho; done|lia]).
  assert (Hn : is_num w2 p (bval o) 1) by (exists o; repeat split; try done; try apply Wo; try apply No; lia).
  assert (Ef : bval o * 2 ^ k = frac d0 d1) by (rewrite E; done). assert (Hs : same_on (pows ++ live) w w2) by (by eapply same_on_trans).
  assert (He : 0 <= dexp d0 < 2 ^ 11) by (apply Z.mod_pos_bound; lia).
  unfold Bias, P. destruct (Z.eqb_spec (dexp d0) 0) as [Ee|Ee]; cbn [negb].
  - apply run_bind. eapply run_deref; [exact Hb2|]. pose proof No as [Hw _]. destruct (bval_top o Wo Hw) as (t & Ht & _).
    apply run_bind. eapply run_some; [exact Ht|]. apply run_ret. rewrite (top_bits o t Wo No Hv Ht).
    replace (dexp d0 - 1023 - (53 - 1) + 1 + k) with (Z.max 1 (dexp d0) - 1075 + k) by lia. by apply HQ.
  - apply run_ret. replace (dexp d0 - 1023 - (53 - 1) + k) with (Z.max 1 (dexp d0) - 1075 + k) by lia.
    replace (53 - k) with (Z.log2 (bval o) + 1); [by apply HQ|]. pose proof (frac_log2 d0 d1 H1 Ee) as El. rewrite <- Ef, Z.log2_mul_pow2 in El by lia. lia.
Qed.
End Double.

(** A double between 1 and 2 from the significand [m]. *)
Lemma unit_double h d1 : 2 ^ 20 <= h < 2 ^ 21 -> in_u 32 d1 ->
  dexp (Z.lor Exp_1 h) = Bias /\ frac (Z.lor Exp_1 h) d1 = h * 2 ^ 32 + d1 /\ Z.lor Exp_1 h = Exp_1 + h mod 2 ^ 20.
Proof.
  intros Hh Hd. assert (E : Z.lor Exp_1 h = Exp_1 + h mod 2 ^ 20).
  { assert (Eh : h = Z.lor (2 ^ 20) (h mod 2 ^ 20)).
    { rewrite (lor_disjoint (2 ^ 20) _ 20); [|lia|apply Z.mod_pos_bound; lia|done]. pose proof (Z.div_mod h (2 ^ 20) ltac:(lia)) as D. assert (h / 2 ^ 20 = 1) by qlia. lia. }
    rewrite Eh at 1. rewrite Z.lor_assoc. change (Z.lor Exp_1 (2 ^ 20)) with Exp_1. apply (lor_disjoint _ _ 20); [lia|apply Z.mod_pos_bound; lia|done]. }
  rewrite E. change Exp_1 with (1023 * 2 ^ 20). unfold frac, dexp. pose proof (Z.mod_pos_bound h (2 ^ 20) ltac:(lia)) as Hm. rewrite in_u32 in Hd.
  rewrite Z.div_add_l, (Z.div_small (h mod 2 ^ 20)) by lia. change ((1023 + 0) mod 2 ^ 11) with 1023. cbn [Z.eqb].
  rewrite (Z.add_comm (1023 * 2 ^ 20)), Z.mod_add, Z.mod_mod by lia. split; [done|]. split; [|lia]. pose proof (Z.div_mod h (2 ^ 20) ltac:(lia)) as D.
  assert (h / 2 ^ 20 = 1) by qlia. change (Pos.eqb 1023 1) with false. lia.
Qed.

(** Two words, shifted right by [s]. *)
Lemma funnel y w s : 0 <= s <= 32 -> in_u 32 w ->
  (y * 2 ^ 32 + w) / 2 ^ s = y / 2 ^ s * 2 ^ 32 + (2 ^ (32 - s) * (y mod 2 ^ s) + w / 2 ^ s).
Proof.
  intros Hs Hw. rewrite in_u32 in Hw. assert (0 < 2 ^ s) by (apply Z.pow_pos_nonneg; lia).
  assert (E32 : 2 ^ 32 = 2 ^ (32 - s) * 2 ^ s) by (rewrite <- Z.pow_add_r by lia; f_equal; lia).
  pose proof (Z.div_mod y (2 ^ s) ltac:(lia)) as D. rewrite E32 at 1. rewrite Z.mul_assoc, Z.div_add_l by lia.
  rewrite D at 1. rewrite E32. lia.
Qed.

Lemma top_step x n j : words x -> (n <= length x)%nat -> 0 <= j ->
  val (take n x) * 2 ^ (32 * (j + 1)) / 2 ^ (32 * Z.of_nat n) =
  word_before x (Z.of_nat n) * 2 ^ (32 * j) + val (take (n - 1) x) * 2 ^ (32 * j) / 2 ^ (32 * Z.of_nat (n - 1)).
Proof.
  intros Hx Hn Hj. destruct n as [|n]; [by rewrite take_0|]. destruct (lookup_lt_is_Some_2 x n) as [w Hw]; [lia|].
  rewrite (take_val x n w Hw). unfold word_before. rewrite (proj2 (Z.ltb_lt 0 _)) by lia. replace (Z.to_nat (Z.of_nat (S n) - 1)) with n by lia.
  rewrite Hw. change (default 0 (Some w)) with w. replace (S n - 1)%nat with n by lia.
  replace (32 * Z.of_nat (S n)) with (32 * Z.of_nat n + 32) by lia. replace (32 * (j + 1)) with (32 * j + 32) by lia. rewrite !Z.pow_add_r by lia.
  assert (0 < 2 ^ (32 * Z.of_nat n)) by (apply Z.pow_pos_nonneg; lia). rewrite Z.mul_assoc, Z.div_mul_cancel_r by lia.
  rewrite Z.mul_add_distr_r. rewrite (Z.mul_comm (2 ^ (32 * Z.of_nat n)) w), <- Z.mul_assoc, (Z.mul_comm (2 ^ (32 * Z.of_nat n))), Z.mul_assoc, Z.div_add by lia. lia.
Qed.

(** The three words at the top, zeros where there are fewer. *)
Lemma top_three x n : words x -> (n <= length x)%nat ->
  val (take n x) * 2 ^ 96 / 2 ^ (32 * Z.of_nat n) =
  word_before x (Z.of_nat n) * 2 ^ 64 + word_before x (Z.of_nat n - 1) * 2 ^ 32 + word_before x (Z.of_nat n - 2).
Proof.
  intros Hx Hn. pose proof (top_step x n 2 Hx Hn ltac:(lia)) as E1. pose proof (top_step x (n - 1) 1 Hx ltac:(lia) ltac:(lia)) as E2.
  pose proof (top_step x (n - 1 - 1) 0 Hx ltac:(lia) ltac:(lia)) as E3. change (32 * (2 + 1)) with 96 in E1. change (32 * 2) with 64 in E1.
  change (32 * (1 + 1)) with 64 in E2. change (32 * 1) with 32 in E2. change (32 * (0 + 1)) with 32 in E3. change (32 * 0) with 0 in E3.
  rewrite E1, E2, E3. rewrite (Z.div_small (_ * 2 ^ 0)).
  - assert (Hb : forall i j, i = j \/ (i <= 0 /\ j <= 0) -> word_before x i = word_before x j).
    { intros i j [->|[Hi Hj]]; [done|]. unfold word_before. by rewrite !(proj2 (Z.ltb_ge 0 _)). }
    rewrite (Hb (Z.of_nat (n - 1)) (Z.of_nat n - 1)), (Hb (Z.of_nat (n - 1 - 1)) (Z.of_nat n - 2)) by lia. lia.
  - pose proof (take_bound x (n - 1 - 1 - 1) Hx ltac:(lia)). lia.
Qed.

Lemma word_before_range x i : words x -> in_u 32 (word_before x i).
Proof.
  intros Hx. unfold word_before. destruct (0 <? i); [|by rewrite in_u32]. destruct (x !! _) as [w|] eqn:E; [|by rewrite in_u32]. by apply (proj1 (Forall_lookup _ _) Hx _ _ E).
Qed.

(** *y << (32 - s) | w >> s *)
Lemma funnel_words y w s : 0 < s < 32 -> in_u 32 w ->
  let r := Z.lor (u32 (Z.shiftl y (32 - s))) (Z.shiftr w s) in
  (y * 2 ^ 32 + w) / 2 ^ s = y / 2 ^ s * 2 ^ 32 + r /\ 0 <= r < 2 ^ 32.
Proof.
  intros Hs Hw r. rewrite funnel by (done || lia). rewrite in_u32 in Hw. assert (Hp : 0 < 2 ^ s) by (apply Z.pow_pos_nonneg; lia).
  assert (Hp2 : 0 < 2 ^ (32 - s)) by (apply Z.pow_pos_nonneg; lia). assert (E32 : 2 ^ 32 = 2 ^ (32 - s) * 2 ^ s) by (rewrite <- Z.pow_add_r by lia; f_equal; lia).
  assert (Hq : 0 <= w / 2 ^ s < 2 ^ (32 - s)) by (split; [apply Z.div_pos; lia|apply Z.div_lt_upper_bound; lia]). pose proof (Z.mod_pos_bound y (2 ^ s) Hp) as My.
  assert (Er : r = 2 ^ (32 - s) * (y mod 2 ^ s) + w / 2 ^ s).
  { unfold r. rewrite shiftl_u32, Z.shiftr_div_pow2 by lia. replace (32 - (32 - s)) with s by lia.
    apply (lor_disjoint _ _ (32 - s)); [lia|done|]. rewrite Z.mul_comm. apply Z_mod_mult. }
  rewrite Er. split; [done|]. nia.
Qed.

(** The double made from three words, of which the first is not zero: its significand. *)
Lemma b2d_three y z u k m : in_u 32 y -> in_u 32 z -> in_u 32 u -> 0 < y -> k = 31 - Z.log2 y -> m = (y * 2 ^ 64 + z * 2 ^ 32 + u) / 2 ^ (43 - k) ->
  exists h d1, 2 ^ 20 <= h < 2 ^ 21 /\ in_u 32 d1 /\ m = h * 2 ^ 32 + d1 /\
    (if k <? Ebits then
       (Z.lor Exp_1 (Z.shiftr y (Ebits - k)), Z.lor (u32 (Z.shiftl y (32 - Ebits + k))) (Z.shiftr z (Ebits - k)))
     else if negb (k - Ebits =? 0) then
       (Z.lor (Z.lor Exp_1 (u32 (Z.shiftl y (k - Ebits)))) (Z.shiftr z (32 - (k - Ebits))), Z.lor (u32 (Z.shiftl z (k - Ebits))) (Z.shiftr u (32 - (k - Ebits))))
     else (Z.lor Exp_1 y, z)) = (Z.lor Exp_1 h, d1).
Proof.
  intros Yr Zr Ur Hy0 Ek ->. pose proof (Z.log2_nonneg y). pose proof (Z.log2_spec y Hy0) as [L1 L2]. assert (Z.log2 y < 32) by (rewrite in_u32 in Yr; apply Z.log2_lt_pow2; lia).
  assert (E3 : y * 2 ^ 64 + z * 2 ^ 32 + u = (y * 2 ^ 32 + z) * 2 ^ 32 + u) by lia. unfold Ebits. destruct (Z.ltb_spec k 11) as [Hk|Hk].
  - set (s := 11 - k). assert (Hs : 1 <= s <= 11) by (unfold s; lia). replace (32 - 11 + k) with (32 - s) by (unfold s; lia).
    destruct (funnel_words y z s ltac:(lia) Zr) as [Fy Fr]. eexists _, _. split; [|split; [exact Fr|split; [|reflexivity]]].
    + rewrite Z.shiftr_div_pow2 by lia. assert (0 < 2 ^ s) by (apply Z.pow_pos_nonneg; lia).
      split; [apply Z.div_le_lower_bound|apply Z.div_lt_upper_bound]; try lia; rewrite <- Z.pow_add_r by lia.
      * apply Z.le_trans with (2 ^ Z.log2 y); [apply Z.pow_le_mono_r; lia|done].
      * apply Z.lt_le_trans with (2 ^ Z.succ (Z.log2 y)); [done|apply Z.pow_le_mono_r; lia].
    + replace (43 - k) with (32 + s) by (unfold s; lia). rewrite Z.pow_add_r, <- Z.div_div by (lia || (apply Z.pow_nonzero; lia) || (apply Z.pow_pos_nonneg; lia)).
      rewrite in_u32 in Ur. rewrite E3, Z.div_add_l, (Z.div_small u), Z.add_0_r by lia. rewrite Fy, (Z.shiftr_div_pow2 y) by lia. done.
  - destruct (Z.eqb_spec (k - 11) 0) as [E0|E0]; cbn [negb].
    + eexists _, _. split; [|split; [exact Zr|split; [|reflexivity]]].
      * assert (El : Z.log2 y = 20) by lia. rewrite El in L1, L2. done.
      * replace (43 - k) with 32 by lia. rewrite in_u32 in Ur. rewrite E3, Z.div_add_l, (Z.div_small u) by lia. lia.
    + set (s := 32 - (k - 11)). assert (Hs : 12 <= s <= 31) by (unfold s; lia). replace (k - 11) with (32 - s) by (unfold s; lia).
      assert (Hys : y < 2 ^ s) by (apply Z.lt_le_trans with (2 ^ Z.succ (Z.log2 y)); [done|apply Z.pow_le_mono_r; lia]).
      destruct (funnel_words y z s ltac:(lia) Zr) as [Fy Fr]. rewrite (Z.div_small y), Z.mul_0_l, Z.add_0_l in Fy by lia.
      destruct (funnel_words z u s ltac:(lia) Ur) as [Fz Gr]. rewrite <- Z.lor_assoc, <- Fy.
      assert (E32 : 2 ^ 32 = 2 ^ (32 - s) * 2 ^ s) by (rewrite <- Z.pow_add_r by lia; f_equal; lia). assert (Hps : 0 < 2 ^ s) by (apply Z.pow_pos_nonneg; lia).
      eexists _, _. split; [|split; [exact Gr|split; [|reflexivity]]].
      * assert (E52 : 2 ^ s * 2 ^ 20 = 2 ^ (s - 12) * 2 ^ 32) by (rewrite <- !Z.pow_add_r by lia; f_equal; lia).
        assert (E53 : 2 ^ s * 2 ^ 21 = 2 ^ (s - 11) * 2 ^ 32) by (rewrite <- !Z.pow_add_r by lia; f_equal; lia).
        replace (Z.log2 y) with (s - 12) in L1, L2 by (unfold s; lia). replace (Z.succ (s - 12)) with (s - 11) in L2 by lia. rewrite in_u32 in Zr.
        split; [apply Z.div_le_lower_bound; lia|apply Z.div_lt_upper_bound; lia].
      * replace (43 - k) with s by (unfold s; lia). rewrite funnel by (done || lia). rewrite (Z.div_small y), (Z.mod_small y) by lia.
        replace (y * 2 ^ 64 + z * 2 ^ 32 + u) with (y * 2 ^ (32 - s) * 2 ^ 32 * 2 ^ s + (z * 2 ^ 32 + u)) by (replace (2 ^ 64) with (2 ^ 32 * (2 ^ (32 - s) * 2 ^ s)) by (rewrite <- E32; lia); lia).
        rewrite Z.div_add_l by lia. rewrite Fz. lia.
Qed.

(** The leading 53 bits, as a double between 1 and 2. *)
Lemma b2d_words_ok o : wf o -> normal o -> 0 < bval o ->
  exists d0 d1, b2d_words (_x o) (_wds o) = (d0, d1, Z.log2 (bval o) + 1 - 32 * (_wds o - 1)) /\ in_u 32 d1 /\
    d0 = Exp_1 + bval o * 2 ^ 53 / 2 ^ (Z.log2 (bval o) + 1) / 2 ^ 32 mod 2 ^ 20 /\
    dexp d0 = Bias /\ frac d0 d1 = bval o * 2 ^ 53 / 2 ^ (Z.log2 (bval o) + 1).
Proof.
  intros Wo No Hv. pose proof No as [H1 _]. pose proof Wo as [_ Km Kl Kw Kx]. destruct (bval_top o Wo H1) as (y & Hy & Yr & Hl & Ev). cbn zeta in *.
  pose proof (top_bits o y Wo No Hv Hy) as Eb. assert (Ey : word_before (_x o) (_wds o) = y) by (unfold word_before; rewrite (proj2 (Z.ltb_lt 0 _)), Hy by lia; done).
  pose proof (top_three (_x o) (Z.to_nat (_wds o)) Kx ltac:(lia)) as Et. rewrite Z2Nat.id, Ey in Et by lia. fold (used_words o) in Et. fold (bval o) in Et.
  assert (Hy0 : 0 < y) by (rewrite in_u32 in Yr; pose proof (num_lower o Wo No Hv); destruct (decide (y = 0)) as [->|]; lia).
  assert (Ek : hi0bits y = 31 - Z.log2 y) by (by apply hi0bits_ok). assert (Z.log2 y < 32) by (rewrite in_u32 in Yr; apply Z.log2_lt_pow2; lia). pose proof (Z.log2_nonneg y).
  unfold b2d_words. cbv zeta. rewrite Ey. set (k := hi0bits y) in *. assert (EL : Z.log2 (bval o) + 1 = 32 * _wds o - k) by lia. rewrite EL.
  set (m := bval o * 2 ^ 53 / 2 ^ (32 * _wds o - k)).
  assert (Em : m = (y * 2 ^ 64 + word_before (_x o) (_wds o - 1) * 2 ^ 32 + word_before (_x o) (_wds o - 2)) / 2 ^ (43 - k)).
  { rewrite <- Et. rewrite Z.div_div by (apply Z.pow_nonzero || apply Z.pow_pos_nonneg; lia). rewrite <- Z.pow_add_r by lia. unfold m.
    replace (32 * _wds o + (43 - k)) with ((32 * _wds o - k) + 43) by lia. change (2 ^ 96) with (2 ^ 53 * 2 ^ 43). rewrite (Z.pow_add_r 2 _ 43), Z.mul_assoc by lia.
    rewrite Z.div_mul_cancel_r; [done|apply Z.pow_nonzero; lia|lia]. }
  destruct (b2d_three y _ _ k m Yr (word_before_range _ (_wds o - 1) Kx) (word_before_range _ (_wds o - 2) Kx) Hy0 Ek Em) as (h & d1 & Hh & Hd & Eh & E).
  destruct (unit_double h d1 Hh Hd) as (U1 & U2 & U3). exists (Z.lor Exp_1 h), d1. split; [|split; [done|]].
  - replace (32 * _wds o - k - 32 * (_wds o - 1)) with (32 - k) by lia. clear - E.
    destruct (k <? Ebits); [|destruct (negb (k - Ebits =? 0))]; injection E as -> ->; done.
  - rewrite Eh. rewrite in_u32 in Hd. rewrite Z.div_add_l, (Z.div_small d1), Z.add_0_r by lia. done.
Qed.

(** C29: a double and its integer. For every double that is not zero, d2b gives the odd
    integer v and the exponent e with |d| = v * 2^e exactly, and the number of bits of v, for
    normalized and denormalized ones alike; b2d of that integer gives the double between 1
    and 2 with the same significand, shifted to the top when d is denormalized, and the bits
    and the exponent together say where it stood. *)
Theorem double_roundtrip gives w pows live d0 d1 : mp_ok w pows live -> in_u 32 d0 -> in_u 32 d1 -> 0 < frac d0 d1 ->
  run_ok gives (r ← d2b gives d0 d1; c ← b2d r.1.1; mret (r, c)) w (fun r w' => exists b e bits c0 c1 e' v,
    r = ((b, e, bits), (c0, c1, e')) /\ mp_ok w' pows (b :: live) /\ same_on (pows ++ live) w w' /\
    is_num w' b v 1 /\ Z.odd v = true /\ Z.max 1 (dexp d0) - 1075 <= e /\ v * 2 ^ (e - (Z.max 1 (dexp d0) - 1075)) = frac d0 d1 /\
    bits = Z.log2 v + 1 /\ bits + e = Z.log2 (frac d0 d1) + 1 + (Z.max 1 (dexp d0) - 1075) /\
    dexp c0 = Bias /\ frac c0 c1 = frac d0 d1 * 2 ^ (52 - Z.log2 (frac d0 d1))).
Proof.
  intros Hok H0 H1 Hf. apply run_bind. eapply run_d2b; [exact Hok|done|done|done|]. intros b w' v k Hok' Hs' Hn Ho Hk Ev. cbn [fst].
  pose proof Hn as (o & Hb & Wo & No & Vo & _). pose proof No as [Hw _].
  assert (Hv : 0 < v) by (rewrite <- Vo; pose proof (bval_bound o Wo); destruct (decide (bval o = 0)) as [E0|]; [rewrite <- Vo, E0 in Ho; done|lia]).
  destruct (b2d_words_ok o Wo No ltac:(lia)) as (c0 & c1 & E & _ & _ & Ec & Ef). rewrite Vo in *.
  apply run_bind. unfold b2d. apply run_bind. eapply run_deref; [done|]. rewrite decide_True by (destruct Wo; lia). rewrite E. apply run_ret.
  assert (El : Z.log2 (frac d0 d1) = Z.log2 v + k) by (rewrite <- Ev, Z.log2_mul_pow2 by lia; lia).
  assert (Hfb : Z.log2 (frac d0 d1) <= 52).
  { apply Z.lt_succ_r. apply Z.log2_lt_pow2; [done|]. unfold frac. rewrite in_u32 in H1. pose proof (Z.mod_pos_bound d0 (2 ^ 20) ltac:(lia)). change (2 ^ Z.succ 52) with (2 ^ 21 * 2 ^ 32). destruct (dexp d0 =? 0); lia. }
  pose proof (Z.log2_nonneg v). apply run_ret. do 7 eexists. split; [reflexivity|]. split; [done|]. split; [done|]. split; [exact Hn|]. split; [done|]. split; [lia|].
  split; [replace (_ - _) with k by lia; done|]. split; [done|]. split; [lia|]. split; [done|]. rewrite Ef, El, <- Ev.
  replace (2 ^ 53) with (2 ^ (52 - Z.log2 v) * 2 ^ (Z.log2 v + 1)) by (rewrite <- Z.pow_add_r by lia; f_equal; lia).
  rewrite Z.mul_assoc, Z.div_mul by (apply Z.pow_nonzero; lia). rewrite <- Z.mul_assoc, <- Z.pow_add_r by lia. f_equal. f_equal. lia.
Qed.

(** The double 0.1. *)
Lemma double_roundtrip_witness : exists b e bits c w',
  (r ← d2b always 0x3fb99999 0x9999999a; c ← b2d r.1.1; mret (r, c)) no_objects = Ok (((b, e, bits), c), w') /\
  mp_ok w' [] [b] /\ e = -55 /\ bits = 52 /\ (c.1.1, c.1.2) = (0x3ff99999, 0x9999999a).
Proof.
  pose proof (double_roundtrip always no_objects [] [] 0x3fb99999 0x9999999a no_objects_ok ltac:(rewrite in_u32; lia) ltac:(rewrite in_u32; lia) ltac:(vm_compute; reflexivity)) as H.
  assert (Er : match (r ← d2b always 0x3fb99999 0x9999999a; c ← b2d r.1.1; mret (r, c)) no_objects with
    | Ok (((b, e, bits), c), _) => e = -55 /\ bits = 52 /\ (c.1.1, c.1.2) = (0x3ff99999, 0x9999999a) | Err _ => False end) by (vm_compute; repeat split).
  unfold run_ok in H. destruct ((r ← d2b always 0x3fb99999 0x9999999a; c ← b2d r.1.1; mret (r, c)) no_objects) as [[[[[b e] bits] c] w']|err]; [|destruct Er].
  destruct H as (b' & e' & bits' & c0 & c1 & e2 & v & Hr & Hok & _). injection Hr as -> -> -> ->.
  exists b', e', bits', (c0, c1, e2), w'. split; [reflexivity|]. split; [exact Hok|exact Er].
Defined.

(** S2b reads a decimal number exactly: from the first nine digits as a word and the
    text of all of them, with or without a point between them, it makes the integer they
    spell, in an object that is large enough from the start, however many digits there are. *)
Theorem s2b_exact gives w pows live D c rest nd0 nd : digits D -> Z.of_nat (length D) = nd -> 9 <= nd <= 2 ^ 31 - 9 -> 0 <= nd0 <= nd -> mp_ok w pows live ->
  run_ok gives (s2b gives (take (Z.to_nat nd0) D ++ c :: drop (Z.to_nat nd0) D ++ rest) nd0 nd (decimal 0 (take 9 D))) w (fun b w' =>
    mp_ok w' pows (b :: live) /\ same_on (pows ++ live) w w' /\ is_num w' b (decimal 0 D) (grow_k 32 1 ((nd + 8) / 9) 0)).
Proof. intros HD Hl Hnd Hnd0 Hok. eapply run_s2b; [done|done|done|done|done|]. by intros. Qed.

(** 12345.678901234 *)
Lemma s2b_exact_witness : exists b w', s2b always ([49; 50; 51; 52; 53] ++ 46 :: [54; 55; 56; 57; 48; 49; 50; 51; 52] ++ [0]) 5 14 123456789 no_objects = Ok (b, w') /\
  is_num w' b 12345678901234 1.
Proof.
  pose proof (s2b_exact always no_objects [] [] [49; 50; 51; 52; 53; 54; 55; 56; 57; 48; 49; 50; 51; 52] 46 [0] 5 14
    ltac:(repeat constructor; lia) eq_refl ltac:(lia) ltac:(lia) no_objects_ok) as H.
  unfold run_ok in H. change (decimal 0 (take 9 [49; 50; 51; 52; 53; 54; 55; 56; 57; 48; 49; 50; 51; 52])) with 123456789 in H.
  change (take (Z.to_nat 5) _ ++ _) with ([49; 50; 51; 52; 53] ++ 46 :: [54; 55; 56; 57; 48; 49; 50; 51; 52] ++ [0]) in H.
  destruct (s2b always _ 5 14 123456789 no_objects) as [[b w']|e].
  - exists b, w'. split; [reflexivity|]. destruct H as (_ & _ & H). exact H.
  - destruct H as (_ & n & Hn). discriminate Hn.
Defined.
