(* ===== verification/CDtoa.v ===== *)
(** The digits of a double (newlib's stdlib/dtoa.c), from where the number has been set up as
    a quotient of two multiple-precision integers: quorem, which takes out one digit, the
    scaling of the divisor it relies on, the loop over the digits and the rounding. *)

From S2P Require Import Prelude CBigWords CBig CBigConv.

(** ** The code *)

(** quorem: a word of b less [q] times a word of S. *)
Definition quorem_word (si bw q borrow carry : Z) : Z * Z * Z :=
  let ys := u32 (lo16 si * q + carry) in
  let zs := u32 (hi16 si * q + hi16 ys) in
  let carry := hi16 zs in
  let y := s32 (lo16 bw - lo16 ys + borrow) in
  let borrow := Z.shiftr y 16 in
  let z := s32 (hi16 bw - lo16 zs + borrow) in
  let borrow := Z.shiftr z 16 in
  (Storeinc z y, borrow, carry).

(** The second loop, which subtracts S once, is this one with q = 1. *)
Fixpoint quorem_loop (sx bx : list Z) (q borrow carry : Z) : list Z :=
  match sx, bx with
  | si :: sx, bw :: bx =>
      let '(w, borrow, carry) := quorem_word si bw q borrow carry in
      w :: quorem_loop sx bx q borrow carry
  | _, _ => []
  end.

(** while (--bxe > bx && !*bxe) --n *)
Fixpoint lower (x : list Z) (n : nat) : nat :=
  match n with
  | O => O
  | S m => if (0 <? Z.of_nat m) && (default 0 (x !! m) =? 0) then lower x m else n
  end.

(** A subtraction and the count of words after it: the object and n. *)
Definition quorem_sub (ob : _Bigint) (sx bx : list Z) (q : Z) (n : nat) : _Bigint * nat :=
  let x := quorem_loop sx bx q 0 0 ++ drop (length bx) (_x ob) in
  if default 0 (x !! n) =? 0 then
    let n := lower x n in (with_words (Z.of_nat n) x ob, n)
  else (with_words (_wds ob) x ob, n).

Definition quorem (b S_ : Z) : M mp Z :=
  ob ← deref b;
  oS ← deref S_;
  let n := _wds oS in
  if _wds ob <? n then mret 0
  else
    sx ← first_words n oS;
    bx ← first_words n ob;
    let n := Z.to_nat (n - 1) in
    st ← lift_opt (sx !! n);
    bt ← lift_opt (bx !! n);
    if u32 (st + 1) =? 0 then fail_with Fault
    else
      let q := bt / u32 (st + 1) in
      let '(ob, n) := if negb (q =? 0) then quorem_sub ob sx bx q n else (ob, n) in
      update b ob;;
      i ← cmp b S_;
      if 0 <=? i then
        bx ← first_words (_wds oS) ob;
        update b (quorem_sub ob sx bx 1 n).1;;
        mret (u32 (q + 1))
      else mret q.

(** The digits of dtoa, once b and S are ready and when the shortest form is not asked for:
    [n] digits after the first, appended to [s]; the last digit. *)
Fixpoint digit_loop (gives : nat -> bool) (n : nat) (b S_ : Z) (s : list Z) : M mp (Z * Z * list Z) :=
  q ← quorem b S_;
  let dig := q + 48 in
  let s := s ++ [dig] in
  match n with
  | O => mret (b, dig, s)
  | S n =>
      b ← multadd gives b 10 0;
      digit_loop gives n b S_ s
  end.

(** while ( *--s == '9') if (s == s0) { k++; *s++ = '1'; goto ret; } ++*s++, on the digits
    from the last to the first. *)
Fixpoint roundoff (rs : list Z) (k : Z) : option (list Z * Z) :=
  match rs with
  | [] => None
  | c :: rs =>
      if c =? 57 then match rs with [] => Some ([49], k + 1) | _ => roundoff rs k end
      else Some (c + 1 :: rs, k)
  end.

(** while ( *--s == '0'); s++ *)
Fixpoint strip_zeros (rs : list Z) : option (list Z) :=
  match rs with
  | [] => None
  | c :: rs' => if c =? 48 then strip_zeros rs' else Some rs
  end.

(** The loop, the rounding of its last digit, and the end: the digits and *decpt. *)
Definition fixed_digits (gives : nat -> bool) (b S_ ilim k : Z) : M mp (list Z * Z) :=
  r ← digit_loop gives (Z.to_nat (ilim - 1)) b S_ [];
  let '(b, dig, s) := r in
  b ← lshift gives b 1;
  j ← cmp b S_;
  sk ← (if (0 <? j) || ((j =? 0) && Z.odd dig) then
          r ← lift_opt (roundoff (rev s) k);
          mret (rev r.1, r.2)
        else
          rs ← lift_opt (strip_zeros (rev s));
          mret (rev rs, k));
  Bfree S_;;
  Bfree b;;
  mret (sk.1, sk.2 + 1).

(** The shift that gives the divisor's top word 28 bits. *)
Definition scale (bits s2 : Z) : Z :=
  let i := Z.land (bits + s2) 0x1f in
  let i := if negb (i =? 0) then 32 - i else i in
  if 4 <? i then i - 4 else if i <? 4 then i + 28 else 0.

(** dtoa from where b and S hold the number over powers of two and ten to its end, for a
    number of digits, [ilim] >= 1, that is given. *)
Definition dtoa_digits (gives : nat -> bool) (b S_ b2 s2 s5 k : Z) (k_check : bool) (ilim ilim1 : Z) : M mp (list Z * Z) :=
  bits ← (if negb (s5 =? 0) then
            oS ← deref S_;
            top ← lift_opt (_x oS !! Z.to_nat (_wds oS - 1));
            mret (32 - hi0bits top)
          else mret 1);
  let i := scale bits s2 in
  let b2 := b2 + i in
  let s2 := s2 + i in
  b ← (if 0 <? b2 then lshift gives b b2 else mret b);
  S_ ← (if 0 <? s2 then lshift gives S_ s2 else mret S_);
  r ← (if k_check then
         j ← cmp b S_;
         if j <? 0 then
           b ← multadd gives b 10 0;
           mret (b, k - 1, ilim1)
         else mret (b, k, ilim)
       else mret (b, k, ilim));
  let '(b, k, ilim) := r in
  fixed_digits gives b S_ ilim k.

(** ** quorem *)

Lemma quorem_word_ok si bw q borrow carry : in_u 32 si -> in_u 32 bw -> 0 <= q < 2 ^ 16 -> 0 <= carry < 2 ^ 16 -> borrow = 0 \/ borrow = -1 ->
  exists w borrow' carry', quorem_word si bw q borrow carry = (w, borrow', carry') /\ in_u 32 w /\ (borrow' = 0 \/ borrow' = -1) /\ 0 <= carry' < 2 ^ 16 /\
    w + 2 ^ 32 * (borrow' - carry') = bw - q * si + borrow - carry.
Proof.
  intros Hs Hb Hq Hc Hbo. unfold quorem_word. destruct (split16 si) as [Es Hls], (split16 bw) as [Eb Hlb]. pose proof (hi16_range si Hs) as Hhs. pose proof (hi16_range bw Hb) as Hhb.
  rewrite (uwrap_small 32 (lo16 si * q + carry)) by (pose proof (half_product (lo16 si) q carry 0); rewrite in_u32 in *; unfold in_u; lia).
  set (ys := lo16 si * q + carry). assert (Hys : in_u 32 ys) by (pose proof (half_product (lo16 si) q carry 0); rewrite in_u32 in *; unfold ys; lia).
  destruct (split16 ys) as [Ey Hly]. pose proof (hi16_range ys Hys) as Hhy.
  rewrite (uwrap_small 32 (hi16 si * q + hi16 ys)) by (pose proof (half_product (hi16 si) q (hi16 ys) 0); rewrite in_u32 in *; unfold in_u; lia).
  set (zs := hi16 si * q + hi16 ys). assert (Hzs : in_u 32 zs) by (pose proof (half_product (hi16 si) q (hi16 ys) 0); rewrite in_u32 in *; unfold zs; lia).
  destruct (split16 zs) as [Ez Hlz]. pose proof (hi16_range zs Hzs) as Hhz.
  rewrite (swrap_small 32 (lo16 bw - lo16 ys + borrow)) by (unfold in_s; lia). set (y := lo16 bw - lo16 ys + borrow).
  destruct (shiftr_borrow y) as [Hy Ey2]; [unfold y; lia|].
  rewrite (swrap_small 32 (hi16 bw - lo16 zs + Z.shiftr y 16)) by (unfold in_s; lia). set (z := hi16 bw - lo16 zs + Z.shiftr y 16).
  destruct (shiftr_borrow z) as [Hz Ez2]; [unfold z; lia|]. destruct (store_halves z y) as [Est Hst].
  eexists _, _, _. split; [reflexivity|]. split; [done|]. split; [done|]. split; [done|]. rewrite Est.
  assert (D1 : ys = lo16 si * q + carry) by done. assert (D2 : zs = hi16 si * q + hi16 ys) by done.
  assert (D3 : y = lo16 bw - lo16 ys + borrow) by done. assert (D4 : z = hi16 bw - lo16 zs + Z.shiftr y 16) by done.
  clearbody ys zs y z. clear - Es Eb Ey Ez Ey2 Ez2 D1 D2 D3 D4.
  generalize dependent (Z.shiftr y 16). generalize dependent (Z.shiftr z 16). intros z1 Hz1 y1 Hy1 D4.
  assert (Ep : q * si = lo16 si * q + 2 ^ 16 * (hi16 si * q)) by (rewrite Es at 1; lia). lia.
Qed.

Lemma quorem_loop_ok sx : forall bx q borrow carry, words sx -> words bx -> length bx = length sx -> 0 <= q < 2 ^ 16 -> 0 <= carry < 2 ^ 16 -> borrow = 0 \/ borrow = -1 ->
  let res := quorem_loop sx bx q borrow carry in
  exists t, words res /\ length res = length sx /\ val res + 2 ^ (32 * Z.of_nat (length sx)) * t = val bx - q * val sx + borrow - carry.
Proof.
  induction sx as [|si sx IH]; intros bx q borrow carry Hs Hb Hl Hq Hc Hbo; destruct bx as [|bw bx]; try done; cbn [quorem_loop].
  - exists (borrow - carry). split; [constructor|]. split; [done|]. cbn. lia.
  - apply Forall_cons in Hs as [Hsi Hs]. apply Forall_cons in Hb as [Hbw Hb].
    destruct (quorem_word_ok si bw q borrow carry Hsi Hbw Hq Hc Hbo) as (w & bo & ca & -> & Hw & Hbo' & Hca & E).
    destruct (IH bx q bo ca Hs Hb ltac:(cbn in Hl; lia) Hq Hca Hbo') as (t & Hws & Hlen & E2). exists t. split; [by constructor|]. split; [cbn; lia|].
    cbn [val length]. rewrite Nat2Z.inj_succ, Z.mul_succ_r, Z.pow_add_r by lia. lia.
Qed.

Lemma quorem_loop_val sx bx q : words sx -> words bx -> length bx = length sx -> 0 <= q < 2 ^ 16 -> q * val sx <= val bx ->
  words (quorem_loop sx bx q 0 0) /\ length (quorem_loop sx bx q 0 0) = length sx /\ val (quorem_loop sx bx q 0 0) = val bx - q * val sx.
Proof.
  intros Hs Hb Hl Hq Hle. destruct (quorem_loop_ok sx bx q 0 0 Hs Hb Hl Hq ltac:(lia) ltac:(by left)) as (t & Hw & Hlen & E).
  split; [done|]. split; [done|]. pose proof (val_bound _ Hw) as B1. rewrite Hlen in B1. pose proof (val_bound _ Hb) as B2. rewrite Hl in B2. pose proof (val_bound _ Hs).
  set (p := 2 ^ (32 * Z.of_nat (length sx))) in *. clearbody p. assert (t = 0) by nia. lia.
Qed.

Lemma lower_ok x n : (lower x n <= n)%nat /\ val (take (lower x n) x) = val (take n x) /\
  ((1 < lower x n)%nat -> default 0 (x !! (lower x n - 1)%nat) <> 0) /\ ((1 <= n)%nat -> (1 <= lower x n)%nat).
Proof.
  induction n as [|m IH]; cbn [lower]; [split; [lia|split; [done|lia]]|].
  destruct (Z.ltb_spec 0 (Z.of_nat m)) as [Hm|Hm]; cbn [andb].
  - destruct (Z.eqb_spec (default 0 (x !! m)) 0) as [E|E].
    + destruct IH as (I1 & I2 & I3 & I4). split; [lia|]. split; [|split; [done|lia]]. rewrite I2. destruct (x !! m) as [w|] eqn:Ew; cbn in E.
      * rewrite (take_S_r x m w Ew), val_app, E. cbn. lia.
      * apply lookup_ge_None in Ew. by rewrite !take_ge by lia.
    + split; [lia|]. split; [done|]. split; [|lia]. intros _. cbn. by rewrite Nat.sub_0_r.
  - split; [lia|]. split; [done|]. split; [lia|lia].
Qed.

(** A remainder: a number, or zero with no words at all, in an object of two words or more. *)
Definition rem_shape (b : _Bigint) : Prop := (wf b /\ 1 <= _k b) /\ (normal b \/ (_wds b = 0 /\ _x b !! 0%nat = Some 0)).
Definition is_rem (w : mp) (p v k : Z) : Prop := exists b, bigs w !! p = Some b /\ rem_shape b /\ bval b = v /\ _k b <= k.

Lemma quorem_sub_ok ob oS q n o n' : wf ob -> 1 <= _k ob -> wf oS -> _wds ob = _wds oS -> _wds oS = Z.of_nat n + 1 -> 0 <= q < 2 ^ 16 -> q * bval oS <= bval ob ->
  quorem_sub ob (used_words oS) (used_words ob) q n = (o, n') ->
  rem_shape o /\ bval o = bval ob - q * bval oS /\ _k o = _k ob /\ ((_wds o = _wds oS /\ n' = n) \/ _wds o <= Z.of_nat n).
Proof.
  intros Wb Hk1 Ws Ew En Hq Hle. unfold quorem_sub. pose proof Wb as [Kk Km Kl Kw Kx].
  destruct (quorem_loop_val (used_words oS) (used_words ob) q) as (Hr & Lr & Vr); [by apply used_ok|by apply used_ok|by rewrite !used_length, Ew by done|done|done|].
  rewrite !used_length in * by done. set (res := quorem_loop _ _ _ _ _) in *. set (x := res ++ _). replace (Z.to_nat (_wds oS)) with (S n) in Lr by lia.
  assert (Lx : length x = length (_x ob)) by (unfold x; rewrite length_app, length_drop; lia).
  assert (Wx : words x) by (apply Forall_app; split; [done|by apply Forall_drop]).
  assert (Vx : val (take (S n) x) = bval ob - q * bval oS) by (unfold x; rewrite take_app_length' by done; exact Vr).
  destruct (lookup_lt_is_Some_2 x n) as [t Ht]; [lia|]. rewrite Ht. change (default 0 (Some t)) with t. destruct (Z.eqb_spec t 0) as [->|Ht0]; intros [= <- <-].
  - destruct (lower_ok x n) as (I1 & I2 & I3 & I4). assert (Vn : val (take n x) = bval ob - q * bval oS) by (rewrite <- Vx, (take_val x n 0 Ht); lia).
    assert (Wo : wf (with_words (Z.of_nat (lower x n)) x ob)) by (apply wf_with_words; [done|lia|done|done]).
    split; [split; [by split|]|]. { destruct n as [|n]; [by right|]. left. split; cbn [_wds _x with_words]; [lia|]. intros H1. replace (Z.to_nat (Z.of_nat (lower x (S n)) - 1)) with (lower x (S n) - 1)%nat by lia. apply I3. lia. }
    split; [rewrite bval_with_words, Nat2Z.id; lia|]. split; [done|]. right. cbn. lia.
  - assert (Wo : wf (with_words (_wds ob) x ob)) by (apply wf_with_words; [done|lia|done|done]).
    split; [split; [by split|]|]. { left. split; cbn [_wds _x with_words]; [lia|]. intros _. replace (Z.to_nat (_wds ob - 1)) with n by lia. by rewrite Ht. }
    split; [rewrite bval_with_words; replace (Z.to_nat (_wds ob)) with (S n) by lia; done|]. split; [done|]. left. cbn. lia.
Qed.

(** The estimate from the top words is at most one too small. *)
Lemma quorem_estimate B lb ls bt st : 0 < B -> 0 <= lb < B -> 0 <= ls < B -> 0 <= bt -> 11 <= st -> lb + B * bt < 10 * (ls + B * st) ->
  let q := bt / (st + 1) in 0 <= q <= 9 /\ q * (ls + B * st) <= lb + B * bt < (q + 2) * (ls + B * st).
Proof.
  intros HB Hlb Hls Hbt Hst Hlt q. pose proof (Z.div_mod bt (st + 1) ltac:(lia)) as D. pose proof (Z.mod_pos_bound bt (st + 1) ltac:(lia)) as Mo. fold q in D.
  assert (Hq0 : 0 <= q) by (apply Z.div_pos; lia). assert (Hle : q * (ls + B * st) <= lb + B * bt) by nia.
  assert (Hq9 : q <= 9) by nia. split; [lia|]. split; [done|].
  destruct (Z.lt_ge_cases (lb + B * bt) ((q + 2) * (ls + B * st))) as [|Hge]; [done|]. exfalso.
  assert (H1 : (q + 2) * st <= bt) by nia. nia.
Qed.

Lemma cmp_rem o oS : rem_shape o -> wf oS -> normal oS -> 0 < bval oS -> (0 <=? cmp_big o oS) = (bval oS <=? bval o).
Proof.
  intros [[Wo _] [No|[E0 _]]] Ws Ns Hs.
  - pose proof (cmp_big_ok o oS Wo Ws No Ns) as E. destruct (Z.leb_spec 0 (cmp_big o oS)), (Z.leb_spec (bval oS) (bval o)); try done; lia.
  - pose proof Ns as [H1 _]. pose proof (bval_bound o Wo) as B. rewrite E0 in B. change (2 ^ (32 * 0)) with 1 in B.
    unfold cmp_big. rewrite E0, (proj2 (Z.eqb_neq (0 - _wds oS) 0)) by lia. cbn [negb]. rewrite !(proj2 (Z.leb_gt _ _)) by lia. done.
Qed.

(** The divisor's top word leaves room for one more digit, and is not too small for the estimate. *)
Definition divisor (b : _Bigint) : Prop := wf b /\ normal b /\ 11 <= bval b / 2 ^ (32 * (_wds b - 1)) < 2 ^ 28.

Lemma divisor_top oS : divisor oS -> exists st, _x oS !! Z.to_nat (_wds oS - 1) = Some st /\ 11 <= st < 2 ^ 28 /\
  let B := 2 ^ (32 * (_wds oS - 1)) in let ls := val (take (Z.to_nat (_wds oS - 1)) (_x oS)) in 0 < B /\ 0 <= ls < B /\ bval oS = ls + B * st.
Proof.
  intros (Ws & Ns & Ht). pose proof Ns as [H1 _]. destruct (bval_top oS Ws H1) as (st & Hst & _ & Hl & E). cbn zeta in *. exists st. split; [done|].
  assert (HB : 0 < 2 ^ (32 * (_wds oS - 1))) by (apply Z.pow_pos_nonneg; lia). split; [|done].
  rewrite E, Z.mul_comm, Z.div_add, Z.div_small in Ht by lia. done.
Qed.

Lemma first_used o n w gives (Q : list Z -> mp -> Prop) : wf o -> _wds o = n -> Q (used_words o) w -> run_ok gives (first_words n o) w Q.
Proof. intros Wo <- HQ. eapply run_first_words; [done|destruct Wo; lia|done]. Qed.

Lemma run_quorem gives b S_ oS w pows live vb k (Q : Z -> mp -> Prop) : mp_ok w pows (b :: live) -> S_ ∈ pows ++ live -> is_rem w b vb k ->
  bigs w !! S_ = Some oS -> divisor oS -> vb < 10 * bval oS ->
  (forall w', mp_ok w' pows (b :: live) -> same_on (pows ++ live) w w' -> is_rem w' b (vb mod bval oS) k -> Q (vb / bval oS) w') ->
  run_ok gives (quorem b S_) w Q.
Proof.
  intros Hok HS (ob & Hb & Rb & <- & Kb) Hs Hdiv Hlt HQ. destruct (divisor_top oS Hdiv) as (st & Hst & Rst & HB & Hls & EvS). destruct Hdiv as (Ws & Ns & _). pose proof Ns as [H1 _]. pose proof Rb as [[Wb Kb1] Sb].
  set (B := 2 ^ (32 * (_wds oS - 1))) in *. set (ls := val _) in *. assert (HvS : 0 < bval oS) by nia. pose proof (bval_bound ob Wb) as Bb.
  unfold quorem. apply run_bind. eapply run_deref; [done|]. apply run_bind. eapply run_deref; [done|].
  destruct (Z.ltb_spec (_wds ob) (_wds oS)) as [Hw|Hw].
  { assert (bval ob < bval oS).
    { apply Z.lt_le_trans with (2 ^ (32 * _wds ob)); [lia|]. apply Z.le_trans with B; [apply Z.pow_le_mono_r; lia|]. nia. }
    apply run_ret. specialize (HQ w Hok (same_on_refl _ _)). rewrite Z.div_small in HQ by lia. apply HQ. rewrite Z.mod_small by lia. by exists ob. }
  assert (Ew : _wds ob = _wds oS).
  { destruct (decide (_wds ob = _wds oS)) as [|Hne]; [done|]. exfalso. destruct Sb as [Nb|]; [|lia].
    pose proof (proj1 (normal_val ob Wb ltac:(lia)) Nb ltac:(lia)) as Hb2. assert (H2 : 2 ^ 32 * B <= 2 ^ (32 * (_wds ob - 1))).
    { unfold B. rewrite <- Z.pow_add_r by lia. apply Z.pow_le_mono_r; lia. }
    change (2 ^ 32) with 4294967296 in H2. change (2 ^ 28) with 268435456 in Rst. nia. }
  apply run_bind. eapply first_used; [done|done|]. apply run_bind. eapply first_used; [done|done|].
  destruct (bval_top ob Wb ltac:(lia)) as (bt & Hbt & Rbt & Hlb & Evb). cbn zeta in *. rewrite Ew in Hbt, Hlb, Evb. fold B in Hlb, Evb. set (lb := val (take _ (_x ob))) in *.
  rewrite in_u32 in Rbt. assert (Hu : forall o t, wf o -> _wds o = _wds oS -> _x o !! Z.to_nat (_wds oS - 1) = Some t -> used_words o !! Z.to_nat (_wds oS - 1) = Some t).
  { intros o t _ Eo Ht. unfold used_words. by rewrite lookup_take_lt by lia. }
  apply run_bind. eapply run_some; [by apply Hu|]. apply run_bind. eapply run_some; [by apply Hu|].
  rewrite uwrap_small by (unfold in_u; lia). rewrite (proj2 (Z.eqb_neq _ _)) by lia.
  destruct (quorem_estimate B lb ls bt st HB Hlb Hls ltac:(lia) ltac:(lia) ltac:(lia)) as [Hq9 [Hq1 Hq2]]. rewrite <- Evb, <- EvS in Hq1, Hq2. set (q := bt / (st + 1)) in *.
  set (n := Z.to_nat (_wds oS - 1)). destruct (if negb (q =? 0) then quorem_sub ob (used_words oS) (used_words ob) q n else (ob, n)) as [o1 n1] eqn:E1.
  assert (H : rem_shape o1 /\ bval o1 = bval ob - q * bval oS /\ _k o1 = _k ob /\ ((_wds o1 = _wds oS /\ n1 = n) \/ _wds o1 <= Z.of_nat n)).
  { destruct (Z.eqb_spec q 0) as [E0|E0]; cbn [negb] in E1.
    - injection E1 as <- <-. rewrite E0. split; [done|]. split; [lia|]. split; [done|]. by left.
    - eapply quorem_sub_ok; [done|done|done|done|unfold n; lia|lia|lia|done]. }
  clear E1. destruct H as (R1 & V1 & K1 & Hn1). pose proof R1 as [[W1 K11] _].
  apply run_bind. eapply run_write; [done|done|]. intros w1 Hok1 Hs1 Hb1. assert (Hs' : bigs w1 !! S_ = Some oS) by (by rewrite Hs1).
  apply run_bind. unfold cmp. apply run_bind. eapply run_deref; [exact Hb1|]. apply run_bind. eapply run_deref; [exact Hs'|]. apply run_ret.
  rewrite cmp_rem by done. destruct (Z.leb_spec (bval oS) (bval o1)) as [Hge|Hlo].
  - assert (H2 : _wds o1 = _wds oS /\ n1 = n).
    { destruct Hn1 as [|Hn1]; [done|]. exfalso. pose proof (bval_bound o1 W1) as B1. assert (2 ^ (32 * _wds o1) <= B) by (apply Z.pow_le_mono_r; unfold n in Hn1; lia). nia. }
    destruct H2 as [Ew1 ->]. apply run_bind. eapply first_used; [done|done|].
    destruct (quorem_sub o1 (used_words oS) (used_words o1) 1 n) as [o2 n2] eqn:E2. cbn [fst].
    destruct (quorem_sub_ok o1 oS 1 n o2 n2) as (R2 & V2 & K2 & _); [done|done|done|done|unfold n; lia|lia|lia|done|].
    apply run_bind. eapply run_write; [done|apply (proj1 R2)|]. intros w2 Hok2 Hs2 Hb2. apply run_ret. rewrite uwrap_small by (unfold in_u; lia).
    destruct (Z.div_mod_unique (bval oS) (bval ob / bval oS) (q + 1) (bval ob mod bval oS) (bval o2)) as [Eq Er].
    { left. apply Z.mod_pos_bound. done. } { left. lia. } { rewrite <- Z.div_mod by lia. lia. }
    rewrite <- Eq. apply HQ; [done|by eapply same_on_trans|]. exists o2. split; [done|]. split; [done|]. split; [done|]. lia.
  - apply run_ret. pose proof (bval_bound o1 W1) as B1. destruct (Z.div_mod_unique (bval oS) (bval ob / bval oS) q (bval ob mod bval oS) (bval o1)) as [Eq Er].
    { left. apply Z.mod_pos_bound. done. } { left. lia. } { rewrite <- Z.div_mod by lia. lia. }
    rewrite <- Eq. apply HQ; [done|done|]. exists o1. split; [done|]. split; [done|]. split; [done|]. lia.
Qed.

(** ** The digits of dtoa *)

Lemma rem_bound o : rem_shape o -> 0 <= bval o.
Proof. intros [[Wo _] _]. by apply bval_bound. Qed.

(** Zero: the first word is 0, and there is at most one word. *)
Lemma rem_zero o : rem_shape o -> bval o = 0 -> 0 <= _wds o <= 1 /\ exists tl, _x o = 0 :: tl.
Proof.
  intros [[Wo Hk] [No|[E0 Hx]]] Hv; pose proof Wo as [Kk Km Kl Kw Kx].
  - pose proof No as [H1 _]. assert (Hw : _wds o = 1).
    { destruct (decide (_wds o = 1)) as [|]; [done|]. exfalso. pose proof (proj1 (normal_val o Wo H1) No ltac:(lia)) as Hn.
      assert (0 < 2 ^ (32 * (_wds o - 1))) by (apply Z.pow_pos_nonneg; lia). lia. }
    split; [lia|]. unfold bval, used_words in Hv. rewrite Hw in Hv. destruct (_x o) as [|t tl]; [cbn in Kl; lia|]. exists tl. change (Z.to_nat 1) with 1%nat in Hv. cbn [take val] in Hv. rewrite take_0 in Hv. cbn [val] in Hv. f_equal. lia.
  - split; [lia|]. destruct (_x o) as [|t tl]; [done|]. exists tl. injection Hx as ->. done.
Qed.

Lemma rem_pos o : rem_shape o -> 0 < bval o -> normal o.
Proof. intros [_ [No|[E0 _]]] Hv; [done|]. unfold bval, used_words in Hv. rewrite E0, take_0 in Hv. cbn in Hv. lia. Qed.

Section Digits.
Context (gives : nat -> bool).

Lemma run_multadd_rem b w pows live v k (Q : Z -> mp -> Prop) : mp_ok w pows (b :: live) -> is_rem w b v k -> k <= 30 -> 10 * v < 2 ^ (32 * 2 ^ k) ->
  (forall b' w', mp_ok w' pows (b' :: live) -> same_on (pows ++ live) w w' -> is_rem w' b' (10 * v) k -> Q b' w') ->
  run_ok gives (multadd gives b 10 0) w Q.
Proof.
  intros Hok (o & Ho & Ro & <- & Hk) Hk30 Hfit HQ. pose proof (rem_bound o Ro). pose proof Ro as [[Wo Hk1] _]. destruct (decide (bval o = 0)) as [E0|E0].
  - destruct (rem_zero o Ro E0) as (Hw & tl & Ex). unfold multadd. apply run_bind. eapply run_deref; [done|]. rewrite Z.max_l, Ex by lia.
    apply run_bind. eapply run_some; [reflexivity|]. cbn [fst snd]. change (s32 (hi16 (u32 (hi16 0 * 10 + hi16 (u32 (lo16 0 * 10 + 0)))))) with 0. cbn [Z.eqb].
    set (o' := with_words _ _ o). assert (Eo : o' = o) by (destruct o as [nx kk mx sg wd xx]; cbn in Ex; subst xx; reflexivity). rewrite Eo.
    apply run_bind. eapply run_write; [done|done|]. intros w1 Hok1 Hs1 Hb1. apply run_ret, HQ; [done|done|]. exists o. split; [done|]. split; [done|]. lia.
  - assert (Hn : is_num w b (bval o) k) by (exists o; repeat split; try done; try apply Wo; apply (rem_pos o Ro); lia).
    eapply (run_multadd_fit gives b 10 0 w pows live (bval o) k k); [done|exact Hn|lia|right; lia|lia|lia|]. rewrite Z.add_0_r.
    intros b' w' Hok' Hs' (o' & Ho' & Wo' & No' & Vo' & Ko') (x & y & Hx & Hy & Hxy). rewrite Ho in Hx. injection Hx as <-. rewrite Ho' in Hy. injection Hy as <-.
    apply HQ; [done|done|]. exists o'. split; [done|]. split; [split; [split; [done|lia]|by left]|done].
Qed.

Lemma run_double_rem b w pows live v k (Q : Z -> mp -> Prop) : mp_ok w pows (b :: live) -> is_rem w b v k -> k <= 29 ->
  (forall b' w', mp_ok w' pows (b' :: live) -> same_on (pows ++ live) w w' ->
     (exists o, bigs w' !! b' = Some o /\ wf o /\ (normal o \/ _wds o = 0) /\ bval o = 2 * v) -> Q b' w') ->
  run_ok gives (lshift gives b 1) w Q.
Proof.
  intros Hok (o & Ho & Ro & <- & Hk) Hk29 HQ. pose proof (rem_bound o Ro). pose proof Ro as [[Wo Hk1] _]. destruct (decide (bval o = 0)) as [E0|E0].
  - destruct (rem_zero o Ro E0) as (Hw & tl & Ex). pose proof Wo as [Kk Km Kl Kw Kx]. assert (Hm : 2 ^ 1 <= 2 ^ _k o) by (apply Z.pow_le_mono_r; lia). change (2 ^ 1) with 2 in Hm.
    unfold lshift. apply run_bind. eapply run_deref; [done|]. change (Z.shiftr 1 5) with 0. rewrite Z.add_0_l, Z.max_l by lia.
    replace (grow_k 32 (_maxwds o) (_wds o + 1) (_k o)) with (_k o) by (change 32%nat with (S 31); cbn [grow_k]; rewrite (proj2 (Z.ltb_ge _ _)) by lia; done).
    apply run_bind. eapply run_eBalloc; [done|done|]. intros b1 w1 o1 Hok1 Hs1 Hb1 W1 K1 _ _. pose proof W1 as [_ M1 L1 _ X1]. rewrite K1 in M1, L1.
    apply run_bind. eapply run_deref; [done|]. apply run_bind. eapply run_first_words; [done|lia|]. apply run_bind. eapply run_first_words; [done|lia|].
    rewrite Ex. change (Z.to_nat 0) with 0%nat. change (Z.to_nat 1) with 1%nat. rewrite take_0. cbn [take length replicate app drop]. change (Z.land 1 31) with 1. cbn [Z.eqb negb Pos.eqb].
    destruct (_x o1) as [|t0 [|t1 tl1]] eqn:E1; [cbn in L1; lia|cbn in L1; lia|].
    assert (El : lshift_loop [0] 1 (t0 :: t1 :: tl1) 0 0 = Some (0 :: t1 :: tl1, 0)) by reflexivity.
    apply run_bind. eapply run_some; [exact El|]. rewrite take_0. cbn [length]. cbv iota beta. rewrite decide_True by (cbn; lia). change (0 =? 0) with true. cbn iota. replace (_wds o + 1 - 1) with (_wds o) by lia.
    assert (Wx : words (0 :: 0 :: tl1)).
    { apply Forall_cons in X1 as [_ X1]. apply Forall_cons in X1 as [_ X1]. repeat constructor; done || lia. }
    assert (Wn : wf (with_words (_wds o) (0 :: 0 :: tl1) o1)) by (apply wf_with_words; [done|lia|by rewrite E1|done]).
    change (<[(0 + 1)%nat := 0]> (0 :: t1 :: tl1)) with (0 :: 0 :: tl1). apply run_bind. eapply run_write; [done|exact Wn|]. intros w2 Hok2 Hs2 Hb2.
    apply run_bind. eapply run_Bfree; [eapply mp_ok_perm; [apply perm_swap|exact Hok2]|]. intros w3 Hok3 Hs3. apply run_ret. apply HQ; [done| |].
    + eapply same_on_trans; [by eapply same_on_cons|]. eapply same_on_trans; [by eapply same_on_cons|by eapply same_on_cons].
    + eexists. split; [rewrite Hs3; [exact Hb2|set_solver]|]. split; [exact Wn|]. rewrite E0. assert (_wds o = 0 \/ _wds o = 1) as [E|E] by lia; rewrite E.
      * split; [by right|]. done.
      * split; [left; split; cbn; lia|]. done.
  - assert (Hn : is_num w b (bval o) k) by (exists o; repeat split; try done; try apply Wo; apply (rem_pos o Ro); lia).
    eapply (run_lshift gives b 1 w pows live (bval o) k (k + 1)); [done|exact Hn|lia|lia|lia| |].
    { rewrite Z.pow_add_r by lia. change (1 / 32) with 0. change (2 ^ 1) with 2. assert (0 < 2 ^ k) by (apply Z.pow_pos_nonneg; lia). lia. }
    intros b' w' Hok' Hs' (o' & Ho' & Wo' & No' & Vo' & _) _. apply HQ; [done|done|]. exists o'. split; [done|]. split; [done|]. split; [by left|]. rewrite Vo'. change (2 ^ 1) with 2. lia.
Qed.

Lemma decimal_split v ds : decimal v ds = v * 10 ^ Z.of_nat (length ds) + decimal 0 ds.
Proof.
  revert v. induction ds as [|c ds IH]; intros v; [cbn; lia|]. change (decimal v (c :: ds)) with (decimal (10 * v + (c - 48)) ds).
  change (decimal 0 (c :: ds)) with (decimal (10 * 0 + (c - 48)) ds). rewrite (IH (10 * v + _)), (IH (10 * 0 + _)). cbn [length]. rewrite Nat2Z.inj_succ, Z.pow_succ_r by lia. lia.
Qed.

(** One more digit of a quotient. *)
Lemma next_digit v s n : 0 <= v -> 0 < s -> v * 10 ^ Z.of_nat (S n) / s = v / s * 10 ^ Z.of_nat (S n) + 10 * (v mod s) * 10 ^ Z.of_nat n / s /\
  v * 10 ^ Z.of_nat (S n) mod s = 10 * (v mod s) * 10 ^ Z.of_nat n mod s.
Proof.
  intros Hv Hs. pose proof (Z.div_mod v s ltac:(lia)) as D. rewrite Nat2Z.inj_succ, Z.pow_succ_r by lia.
  assert (E : v * (10 * 10 ^ Z.of_nat n) = 10 * (v mod s) * 10 ^ Z.of_nat n + (v / s * (10 * 10 ^ Z.of_nat n)) * s) by (rewrite D at 1; lia).
  rewrite E, Z.div_add, Z.mod_add by lia. lia.
Qed.

Lemma run_digit_loop n : forall b S_ oS s w pows live v k (Q : Z * Z * list Z -> mp -> Prop), mp_ok w pows (b :: live) -> S_ ∈ pows ++ live -> is_rem w b v k ->
  bigs w !! S_ = Some oS -> divisor oS -> k <= 30 -> 0 <= v < 10 * bval oS -> 10 * bval oS <= 2 ^ (32 * 2 ^ k) ->
  (forall b' w' ds dig, mp_ok w' pows (b' :: live) -> same_on (pows ++ live) w w' -> is_rem w' b' (v * 10 ^ Z.of_nat n mod bval oS) k ->
     digits ds -> length ds = S n -> decimal 0 ds = v * 10 ^ Z.of_nat n / bval oS -> Z.odd dig = Z.odd (decimal 0 ds) -> Q (b', dig, s ++ ds) w') ->
  run_ok gives (digit_loop gives n b S_ s) w Q.
Proof.
  induction n as [|n IH]; intros b S_ oS s w pows live v k Q Hok HS Hb Hs Hdiv Hk Hv Hfit HQ; cbn [digit_loop]; apply run_bind;
    (eapply run_quorem; [exact Hok|exact HS|exact Hb|exact Hs|exact Hdiv|lia|]); intros w1 Hok1 Hs1 Hb1;
    assert (Hpos : 0 < bval oS) by lia; assert (Hq : 0 <= v / bval oS <= 9) by (split; [apply Z.div_pos; lia|apply Z.lt_succ_r, Z.div_lt_upper_bound; lia]).
  - apply run_ret. apply HQ; rewrite ?Z.mul_1_r; try done.
    + repeat constructor; lia.
    + cbn [decimal fold_left]. change (10 ^ Z.of_nat 0) with 1. rewrite ?Z.mul_1_r. lia.
    + cbn [decimal fold_left]. rewrite Z.odd_add. replace (10 * 0 + (v / bval oS + 48 - 48)) with (v / bval oS) by lia. by rewrite xorb_false_r.
  - apply run_bind. pose proof (Z.mod_pos_bound v (bval oS) Hpos) as Hm. eapply run_multadd_rem; [exact Hok1|exact Hb1|done|lia|]. intros b2 w2 Hok2 Hs2 Hb2.
    destruct (next_digit v (bval oS) n ltac:(lia) Hpos) as [Eq Er].
    eapply (IH b2 S_ oS _ w2 pows live (10 * (v mod bval oS)) k); [exact Hok2|exact HS|exact Hb2|by rewrite Hs2, Hs1|exact Hdiv|done|lia|done|].
    intros b3 w3 ds dig Hok3 Hs3 Hb3 Hds Lds Vds Odd. rewrite <- app_assoc. cbn [app]. apply HQ; [done|by eapply same_on_trans; [|eapply same_on_trans]|by rewrite Er| |cbn; lia| |].
    + constructor; [lia|done].
    + change (decimal 0 (v / bval oS + 48 :: ds)) with (decimal (10 * 0 + (v / bval oS + 48 - 48)) ds). rewrite decimal_split, Vds, Lds, Eq. lia.
    + rewrite Odd. change (decimal 0 (v / bval oS + 48 :: ds)) with (decimal (10 * 0 + (v / bval oS + 48 - 48)) ds). rewrite (decimal_split (10 * 0 + _)), Z.odd_add, Z.odd_mul, Lds.
      rewrite Nat2Z.inj_succ, Z.pow_succ_r, (Z.odd_mul 10) by lia. cbn [Z.odd andb]. by rewrite andb_false_r, xorb_false_l.
Qed.
End Digits.

(** The nearest integer to a / b, the even one of two. *)
Definition round_even (a b : Z) : Z :=
  let q := a / b in let r := a mod b in if (b <? 2 * r) || ((2 * r =? b) && Z.odd q) then q + 1 else q.

Lemma decimal_snoc ds c : decimal 0 (ds ++ [c]) = 10 * decimal 0 ds + (c - 48).
Proof. by rewrite decimal_app. Qed.

(** The digits [ds] with the first one worth 10^[k] are the number [t] * 10^([k0] - [n]). *)
Definition stands_for (ds : list Z) (k : Z) (t : Z) (n : nat) (k0 : Z) : Prop :=
  decimal 0 ds * 10 ^ (Z.of_nat n + (k - k0)) = t * 10 ^ (Z.of_nat (length ds) - 1).

Lemma roundoff_ok rs : forall n k, length rs = S n -> digits rs -> exists rs' k', roundoff rs k = Some (rs', k') /\ digits rs' /\ rs' <> [] /\
  head rs' <> Some 48 /\ (length rs' <= length rs)%nat /\ k <= k' <= k + 1 /\ stands_for (rev rs') k' (decimal 0 (rev rs) + 1) n k.
Proof.
  induction rs as [|c rs IH]; intros n k Hl Hd; [done|]. apply Forall_cons in Hd as [Hc Hd]. cbn [roundoff rev]. rewrite decimal_snoc. unfold stands_for.
  destruct (Z.eqb_spec c 57) as [->|Hc9].
  - destruct rs as [|d rs].
    + cbn in Hl. assert (n = 0%nat) as -> by lia. exists [49], (k + 1). split; [done|]. split; [repeat constructor; lia|]. split; [done|]. split; [done|]. split; [done|]. split; [lia|].
      replace (Z.of_nat 0 + (k + 1 - k)) with 1 by lia. done.
    + destruct n as [|n]; [done|]. destruct (IH n k ltac:(cbn in *; lia) Hd) as (rs' & k' & -> & D & Hne & H0 & Hlen & Hk & E).
      exists rs', k'. split; [done|]. split; [done|]. split; [done|]. split; [done|]. split; [cbn in *; lia|]. split; [done|]. unfold stands_for in E.
      replace (Z.of_nat (S n) + (k' - k)) with (Z.succ (Z.of_nat n + (k' - k))) by lia. rewrite Z.pow_succ_r by lia. lia.
  - exists (c + 1 :: rs), k. split; [done|]. split; [constructor; [lia|done]|]. split; [done|]. split; [intros [= ?]; lia|]. split; [done|]. split; [lia|].
    cbn [rev]. rewrite decimal_snoc, length_app, length_rev. cbn in Hl |- *. injection Hl as ->. rewrite Z.sub_diag.
    replace (Z.of_nat (n + 1) - 1) with (Z.of_nat n) by lia. rewrite Z.add_0_r. lia.
Qed.

Lemma strip_zeros_ok rs : forall n k, length rs = S n -> digits rs -> 0 < decimal 0 (rev rs) -> exists rs', strip_zeros rs = Some rs' /\ digits rs' /\ rs' <> [] /\
  head rs' <> Some 48 /\ (length rs' <= length rs)%nat /\ stands_for (rev rs') k (decimal 0 (rev rs)) n k.
Proof.
  induction rs as [|c rs IH]; intros n k Hl Hd Hpos; [done|]. pose proof Hd as Hd'. apply Forall_cons in Hd as [Hc Hd]. cbn [strip_zeros rev] in *. rewrite decimal_snoc in Hpos.
  destruct (Z.eqb_spec c 48) as [->|Hc0].
  - destruct rs as [|d rs]; [cbn in Hpos; lia|]. destruct n as [|n]; [done|].
    destruct (IH n k ltac:(cbn in *; lia) Hd ltac:(lia)) as (rs' & E1 & D & Hne & H0 & Hlen & E). exists rs'. split; [exact E1|]. split; [done|]. split; [done|]. split; [done|]. split; [cbn in *; lia|].
    rewrite decimal_snoc. unfold stands_for in *. replace (Z.of_nat (S n) + (k - k)) with (Z.succ (Z.of_nat n + (k - k))) by lia. rewrite Z.pow_succ_r by lia. lia.
  - exists (c :: rs). split; [done|]. split; [done|]. split; [done|]. split; [intros [= ?]; lia|]. split; [done|]. unfold stands_for. cbn [rev]. rewrite length_app, length_rev.
    cbn in Hl |- *. injection Hl as ->. rewrite Z.sub_diag, Z.add_0_r. f_equal. f_equal. lia.
Qed.

Lemma last_rev (rs : list Z) : last (rev rs) = head rs.
Proof. destruct rs as [|c rs]; [done|]. cbn [rev head]. apply last_snoc. Qed.

(** The comparison of twice the remainder decides the rounding. *)
Lemma round_decision o oS t r dig : wf o -> (normal o \/ _wds o = 0) -> wf oS -> normal oS -> bval o = 2 * r -> 0 < bval oS -> Z.odd dig = Z.odd t ->
  ((0 <? cmp_big o oS) || ((cmp_big o oS =? 0) && Z.odd dig)) = ((bval oS <? 2 * r) || ((2 * r =? bval oS) && Z.odd t)).
Proof.
  intros Wo Sh Ws Ns Ev Hs ->. assert (Hsgn : Z.sgn (cmp_big o oS) = Z.sgn (2 * r - bval oS)).
  { destruct Sh as [No|E0]; [rewrite <- Ev; by apply cmp_big_ok|]. pose proof Ns as [H1 _]. pose proof (bval_bound o Wo) as B. rewrite E0 in B. change (2 ^ (32 * 0)) with 1 in B.
    unfold cmp_big. rewrite E0, (proj2 (Z.eqb_neq (0 - _wds oS) 0)) by lia. cbn [negb]. lia. }
  f_equal; [|f_equal].
  - destruct (Z.ltb_spec 0 (cmp_big o oS)), (Z.ltb_spec (bval oS) (2 * r)); try done; lia.
  - destruct (Z.eqb_spec (cmp_big o oS) 0), (Z.eqb_spec (2 * r) (bval oS)); try done; lia.
Qed.

(** The digits and the exponent, from the quotient and the remainder. *)
Lemma run_rounding gives (up : bool) ds n k t w (Q : list Z * Z -> mp -> Prop) : length ds = S n -> digits ds -> decimal 0 ds = t -> 0 < t ->
  (forall es k', digits es -> es <> [] -> last es <> Some 48 -> (length es <= S n)%nat -> k <= k' <= k + 1 -> stands_for es k' (if up then t + 1 else t) n k -> Q (es, k') w) ->
  run_ok gives (if up then
          r ← lift_opt (roundoff (rev ds) k);
          mret (rev r.1, r.2)
        else
          rs ← lift_opt (strip_zeros (rev ds));
          mret (rev rs, k)) w Q.
Proof.
  intros Hl Hd <- Ht HQ. assert (Hr : digits (rev ds)) by (by apply Forall_rev). assert (Hlr : length (rev ds) = S n) by (by rewrite length_rev).
  assert (Hne : forall rs : list Z, rs <> [] -> rev rs <> []) by (intros rs H E; apply H; rewrite <- (rev_involutive rs), E; done).
  destruct up.
  - destruct (roundoff_ok (rev ds) n k Hlr Hr) as (rs & k' & E & D & Hnil & H0 & Hlen & Hk & Hst). rewrite rev_involutive in Hst. rewrite Hlr in Hlen. apply run_bind. eapply run_some; [exact E|]. apply run_ret.
    apply HQ; [by apply Forall_rev|by apply Hne|by rewrite last_rev|cbn; rewrite length_rev; lia|done|done].
  - destruct (strip_zeros_ok (rev ds) n k Hlr Hr) as (rs & E & D & Hnil & H0 & Hlen & Hst); [by rewrite rev_involutive|]. rewrite rev_involutive in Hst. rewrite Hlr in Hlen. apply run_bind. eapply run_some; [exact E|]. apply run_ret.
    apply HQ; [by apply Forall_rev|by apply Hne|by rewrite last_rev|rewrite length_rev; lia|lia|done].
Qed.

Lemma divisor_fits oS kb : divisor oS -> _k oS <= kb -> 10 * bval oS <= 2 ^ (32 * 2 ^ kb).
Proof.
  intros Hdiv Hk. destruct (divisor_top oS Hdiv) as (st & _ & Rst & HB & Hls & EvS). cbn zeta in *. destruct Hdiv as (Ws & [H1 _] & _). destruct Ws.
  apply Z.le_trans with (2 ^ (32 * _wds oS)); [|apply Z.pow_le_mono_r; [lia|]; assert (2 ^ _k oS <= 2 ^ kb) by (apply Z.pow_le_mono_r; lia); lia].
  replace (2 ^ (32 * _wds oS)) with (2 ^ 32 * 2 ^ (32 * (_wds oS - 1))) by (rewrite <- Z.pow_add_r by lia; f_equal; lia). set (B := 2 ^ (32 * (_wds oS - 1))) in *.
  change (2 ^ 32) with 4294967296. change (2 ^ 28) with 268435456 in Rst. nia.
Qed.

(** The number that [fixed_digits] gives. *)
Definition digits_of (k : Z) (n : nat) (t : Z) (r : list Z * Z) : Prop :=
  digits r.1 /\ (1 <= length r.1 <= S n)%nat /\ last r.1 <> Some 48 /\ k + 1 <= r.2 <= k + 2 /\ stands_for r.1 (r.2 - 1) t n k.

Lemma run_fixed_digits gives w pows live b S_ oS vb kb k ilim :
  mp_ok w pows (b :: S_ :: live) -> is_rem w b vb kb -> bigs w !! S_ = Some oS -> divisor oS -> _k oS <= kb <= 29 ->
  bval oS <= vb < 10 * bval oS -> 1 <= ilim ->
  run_ok gives (fixed_digits gives b S_ ilim k) w (fun r w' => mp_ok w' pows live /\ same_on (pows ++ live) w w' /\
    digits_of k (Z.to_nat (ilim - 1)) (round_even (vb * 10 ^ (ilim - 1)) (bval oS)) r).
Proof.
  intros Hok Hb Hs Hdiv Hk Hv Hi. pose proof Hdiv as (Ws & Ns & _).
  pose proof (divisor_fits oS kb Hdiv ltac:(lia)) as Hfit.
  assert (Hpos : 0 < bval oS) by lia.
  set (n := Z.to_nat (ilim - 1)). replace (ilim - 1) with (Z.of_nat n) by (unfold n; lia). assert (Hpow : 0 < 10 ^ Z.of_nat n) by (apply Z.pow_pos_nonneg; lia).
  unfold fixed_digits. fold n. apply run_bind. eapply (run_digit_loop gives n b S_ oS [] w pows (S_ :: live) vb kb); [exact Hok|set_solver|exact Hb|exact Hs|exact Hdiv|lia|lia|done|].
  intros b1 w1 ds dig Hok1 Hs1 Hb1 Hds Lds Vds Odd. cbn [app].
  apply run_bind. eapply run_double_rem; [exact Hok1|exact Hb1|lia|]. intros b2 w2 Hok2 Hs2 (o2 & Ho2 & W2 & S2 & V2).
  assert (Hs' : bigs w2 !! S_ = Some oS) by (rewrite Hs2, Hs1; [done|set_solver|set_solver]).
  apply run_bind. unfold cmp. apply run_bind. eapply run_deref; [exact Ho2|]. apply run_bind. eapply run_deref; [exact Hs'|]. apply run_ret.
  rewrite (round_decision o2 oS (decimal 0 ds) _ dig W2 S2 Ws Ns V2 Hpos Odd), Vds.
  apply run_bind. eapply (run_rounding gives _ ds n k); [done|done|reflexivity| |].
  { rewrite Vds. apply Z.div_str_pos. nia. }
  intros es k' Hes Hne Hlast Hlen Hk' Hst. rewrite Vds in Hst. apply run_bind. eapply run_Bfree; [eapply mp_ok_perm; [apply perm_swap|exact Hok2]|]. intros w3 Hok3 Hs3.
  apply run_bind. eapply run_Bfree; [exact Hok3|]. intros w4 Hok4 Hs4. apply run_ret. split; [done|]. split.
  - eapply same_on_trans; [by eapply same_on_cons|]. eapply same_on_trans; [by eapply same_on_cons|]. eapply same_on_trans; [by eapply same_on_cons|done].
  - split; [done|]. cbn [fst snd]. split; [assert (length es <> 0)%nat by (by destruct es); lia|]. split; [done|]. split; [lia|]. replace (k' + 1 - 1) with k' by lia. exact Hst.
Qed.

Lemma round_even_scale c a b : 0 < c -> 0 < b -> round_even (a * c) (b * c) = round_even a b.
Proof.
  intros Hc Hb. unfold round_even. rewrite Z.div_mul_cancel_r, Z.mul_mod_distr_r by lia.
  replace (b * c <? 2 * (a mod b * c)) with (b <? 2 * (a mod b)) by (destruct (Z.ltb_spec b (2 * (a mod b))), (Z.ltb_spec (b * c) (2 * (a mod b * c))); try done; nia).
  replace (2 * (a mod b * c) =? b * c) with (2 * (a mod b) =? b) by (destruct (Z.eqb_spec (2 * (a mod b)) b), (Z.eqb_spec (2 * (a mod b * c)) (b * c)); try done; nia). done.
Qed.

Lemma scale_ok bits s2 : 0 <= scale bits s2 < 32 /\ (bits + s2 + scale bits s2) mod 32 = 28.
Proof.
  unfold scale. change 0x1f with (Z.ones 5). rewrite Z.land_ones by lia. change (2 ^ 5) with 32. pose proof (Z.mod_pos_bound (bits + s2) 32 ltac:(lia)) as Hm.
  pose proof (Z.div_mod (bits + s2) 32 ltac:(lia)) as D. set (t := (bits + s2) mod 32) in *. set (d := (bits + s2) / 32) in *. clearbody t d.
  assert (Hu : forall i q, t + i = 28 + 32 * q -> (bits + s2 + i) mod 32 = 28) by (intros i q E; symmetry; apply (Z.mod_unique _ _ (d + q)); lia).
  destruct (Z.eqb_spec t 0) as [->|E]; cbn [negb].
  - cbn. split; [lia|]. apply (Hu 28 0). lia.
  - destruct (Z.ltb_spec 4 (32 - t)); [split; [lia|]; apply (Hu _ 0); lia|]. destruct (Z.ltb_spec (32 - t) 4); [split; [lia|]; apply (Hu _ 1); lia|].
    split; [lia|]. apply (Hu _ 0). lia.
Qed.

Lemma divisor_of_bits o : wf o -> normal o -> 0 < bval o -> (Z.log2 (bval o) + 1) mod 32 = 28 -> divisor o.
Proof.
  intros Wo No Hv Hb. split; [done|]. split; [done|]. pose proof No as [H1 _]. destruct (bval_top o Wo H1) as (t & Ht & Hr & Hl & E). cbn zeta in *.
  assert (HB : 0 < 2 ^ (32 * (_wds o - 1))) by (apply Z.pow_pos_nonneg; lia). pose proof (top_bits o t Wo No Hv Ht) as Eb. rewrite in_u32 in Hr.
  assert (Ht0 : 0 < t) by (pose proof (num_lower o Wo No Hv); destruct (decide (t = 0)) as [->|]; lia). rewrite hi0bits_ok in Eb by done.
  assert (Z.log2 t < 32) by (apply Z.log2_lt_pow2; lia). pose proof (Z.log2_nonneg t).
  assert (El : Z.log2 t = 27).
  { replace (Z.log2 (bval o) + 1) with (Z.log2 t + 1 + (_wds o - 1) * 32) in Hb by lia. rewrite Z.mod_add in Hb by lia.
    destruct (decide (Z.log2 t + 1 = 32)) as [E32|]; [rewrite E32 in Hb; done|]. rewrite Z.mod_small in Hb by lia. lia. }
  pose proof (Z.log2_spec t Ht0) as [L1 L2]. rewrite El in L1, L2. rewrite E, Z.mul_comm, Z.div_add, Z.div_small by lia. change (2 ^ Z.succ 27) with (2 ^ 28) in L2. split; [|lia]. change (2 ^ 27) with 134217728 in L1. lia.
Qed.

Lemma rem_num w p v k : is_rem w p v k -> 0 < v -> is_num w p v k.
Proof. intros (o & Ho & Ro & <- & Hk) Hv. exists o. split; [done|]. split; [apply Ro|]. split; [by apply rem_pos|done]. Qed.

Lemma num_rem w p v k w0 p0 v0 k0 : is_num w p v k -> no_smaller w0 p0 w p -> is_rem w0 p0 v0 k0 -> is_rem w p v k.
Proof.
  intros (o & Ho & Wo & No & Vo & Ko) (x & y & Hx & Hy & Hxy) (z & Hz & ((_ & Kz) & _) & _). rewrite Ho in Hy. injection Hy as <-. rewrite Hx in Hz. injection Hz as <-.
  exists o. split; [done|]. split; [split; [split; [done|lia]|by left]|done].
Qed.

Lemma run_opt_lshift gives b sh w pows live v k K (Q : Z -> mp -> Prop) : mp_ok w pows (b :: live) -> is_num w b v k -> 0 < v -> 0 <= sh -> K <= 30 ->
  sh / 32 + 2 ^ k + 1 <= 2 ^ K ->
  (forall b' w', mp_ok w' pows (b' :: live) -> same_on (pows ++ live) w w' -> is_num w' b' (v * 2 ^ sh) K -> no_smaller w b w' b' -> Q b' w') ->
  run_ok gives (if 0 <? sh then lshift gives b sh else mret b) w Q.
Proof.
  intros Hok Hn Hv Hs HK Hfit HQ. destruct (Z.ltb_spec 0 sh) as [H|H]; [eapply run_lshift; [exact Hok|exact Hn|done|done|done|done|done]|].
  assert (sh = 0) as -> by lia. apply run_ret, HQ; [done|apply same_on_refl| |].
  - change (2 ^ 0) with 1. rewrite Z.mul_1_r. eapply is_num_weaken; [exact Hn|]. change (0 / 32) with 0 in Hfit.
    destruct (Z.le_gt_cases k K) as [|Hgt]; [done|]. pose proof Hn as (o & _ & Wo & _ & _ & Ko). destruct Wo. destruct (Z.le_gt_cases 0 K) as [H0|H0].
    + assert (2 ^ K <= 2 ^ k) by (apply Z.pow_le_mono_r; lia). lia.
    + rewrite (Z.pow_neg_r 2 K) in Hfit by done. pose proof (Z.pow_nonneg 2 k ltac:(lia)). lia.
  - destruct Hn as (o & Ho & _). by exists o, o.
Qed.

(** The estimate of the exponent was one too large. *)
Lemma run_k_check gives (k_check : bool) b S_ oS w pows live vb kb k ilim ilim1 (Q : Z * Z * Z -> mp -> Prop) :
  mp_ok w pows (b :: S_ :: live) -> is_rem w b vb kb -> 0 < vb -> bigs w !! S_ = Some oS -> divisor oS -> _k oS <= kb <= 29 ->
  (forall b' w', mp_ok w' pows (b' :: S_ :: live) -> same_on (pows ++ S_ :: live) w w' ->
     is_rem w' b' (if k_check && (vb <? bval oS) then 10 * vb else vb) kb ->
     Q (if k_check && (vb <? bval oS) then (b', k - 1, ilim1) else (b', k, ilim)) w') ->
  run_ok gives (if k_check then
         j ← cmp b S_;
         if j <? 0 then
           b ← multadd gives b 10 0;
           mret (b, k - 1, ilim1)
         else mret (b, k, ilim)
       else mret (b, k, ilim)) w Q.
Proof.
  intros Hok Hb Hv Hs Hdiv Hk HQ. destruct k_check; cbn [andb] in HQ; [|apply run_ret, HQ; [done|apply same_on_refl|done]].
  apply run_bind. eapply (run_cmp gives b S_ w vb (bval oS) kb kb); [by apply rem_num|destruct Hdiv as (? & ? & _); exists oS; split; [done|]; split; [done|]; split; [done|]; split; [done|lia]|].
  intros j Hj. destruct (Z.ltb_spec vb (bval oS)) as [Hlt|Hge].
  - assert (Hneg : j <? 0 = true) by (apply Z.ltb_lt; clear - Hj Hlt; lia). rewrite Hneg. pose proof (divisor_fits oS kb Hdiv ltac:(lia)).
    apply run_bind. eapply run_multadd_rem; [exact Hok|exact Hb|lia|lia|]. intros b' w' Hok' Hs' Hb'. apply run_ret. by apply HQ.
  - assert (Hneg : j <? 0 = false) by (apply Z.ltb_ge; clear - Hj Hge; lia). rewrite Hneg. apply run_ret, HQ; [done|apply same_on_refl|done].
Qed.

(** C26: dtoa's digits are correctly rounded. Let x = b * 2^b2 and y = S * 2^s2 be the number
    over a power of ten that dtoa has set up, with 1 <= x / y < 10, or 1/10 <= x / y < 10 when
    the estimate k of the exponent is to be checked. What follows - the scaling of the
    divisor to a top word of 28 bits, the shifts, the check of k, the loop over quorem and
    multadd, the rounding of the last digit and the release of both numbers - gives a decimal
    number of at most ilim digits without a trailing zero, which is x / y (times ten, with
    k - 1, when k was too large) rounded to ilim significant digits, ties to even; a carry
    out of the first digit goes into the decimal point's place. Each digit is exact although
    quorem estimates it from two words. The other numbers stay, nothing is read or written
    outside an object, and the only failure is that of an allocation. *)
Theorem dtoa_digits_rounded gives w pows live b S_ vb vS kb ks K b2 s2 s5 k (k_check : bool) ilim ilim1 :
  mp_ok w pows (b :: S_ :: live) -> is_rem w b vb kb -> is_num w S_ vS ks -> 0 < vb -> 0 < vS -> (s5 = 0 -> vS = 1) ->
  0 <= b2 -> 0 <= s2 -> (b2 + 31) / 32 + 2 ^ kb + 1 <= 2 ^ K -> (s2 + 31) / 32 + 2 ^ ks + 1 <= 2 ^ K -> K <= 29 -> 1 <= ilim -> 1 <= ilim1 ->
  let x := vb * 2 ^ b2 in let y := vS * 2 ^ s2 in y <= (if k_check then 10 * x else x) -> x < 10 * y ->
  run_ok gives (dtoa_digits gives b S_ b2 s2 s5 k k_check ilim ilim1) w (fun r w' => mp_ok w' pows live /\ same_on (pows ++ live) w w' /\
    let '(x, k, ilim) := if k_check && (x <? y) then (10 * x, k - 1, ilim1) else (x, k, ilim) in
    digits_of k (Z.to_nat (ilim - 1)) (round_even (x * 10 ^ (ilim - 1)) y) r).
Proof.
  intros Hok Hb HS Hvb HvS Hs5 Hb2 Hs2 Hfb Hfs HK Hi Hi1 x y Hlo Hhi. unfold dtoa_digits. apply run_bind.
  assert (Hbits : forall Q : Z -> mp -> Prop, (forall bits, (Z.log2 vS + 1 - bits) mod 32 = 0 -> Q bits w) ->
    run_ok gives (if negb (s5 =? 0) then oS ← deref S_; top ← lift_opt (_x oS !! Z.to_nat (_wds oS - 1)); mret (32 - hi0bits top) else mret 1) w Q).
  { intros Q HQ. destruct (Z.eqb_spec s5 0) as [E0|E0]; cbn [negb]; [apply run_ret, HQ; by rewrite (Hs5 E0)|].
    destruct HS as (oS & HoS & WS & NS & EvS & _). pose proof NS as [H1 _]. destruct (bval_top oS WS H1) as (t & Ht & _).
    apply run_bind. eapply run_deref; [done|]. apply run_bind. eapply run_some; [exact Ht|]. apply run_ret, HQ.
    rewrite <- EvS, <- (top_bits oS t WS NS ltac:(lia) Ht). replace (32 * _wds oS - hi0bits t - (32 - hi0bits t)) with ((_wds oS - 1) * 32) by lia. apply Z_mod_mult. }
  apply Hbits. clear Hbits. intros bits Hbits. destruct (scale_ok bits s2) as [Hi32 Hsc]. set (i := scale bits s2) in *.
  assert (Hdm : forall a, 0 <= a -> (a + i) / 32 <= (a + 31) / 32) by (intros; apply Z.div_le_mono; lia). pose proof (Hdm b2 Hb2). pose proof (Hdm s2 Hs2).
  apply run_bind. eapply (run_opt_lshift gives b (b2 + i) w pows (S_ :: live) vb kb K); [exact Hok|by apply rem_num|done|lia|lia|lia|]. intros b1 w1 Hok1 Hs1 Hn1 Hg1.
  pose proof (num_rem _ _ _ _ _ _ _ _ Hn1 Hg1 Hb) as Hb1.
  apply run_bind. eapply (run_opt_lshift gives S_ (s2 + i) w1 pows (b1 :: live) vS ks K); [eapply mp_ok_perm; [apply perm_swap|exact Hok1]|eapply is_num_same; [exact HS|exact Hs1|set_solver]|done|lia|lia|lia|].
  intros S1 w2 Hok2 Hs2' (oS & HoS & WS & NS & EvS & KS) _.
  assert (Hpi : 0 < 2 ^ i) by (apply Z.pow_pos_nonneg; lia). assert (Ex : vb * 2 ^ (b2 + i) = x * 2 ^ i) by (unfold x; rewrite Z.pow_add_r by lia; lia).
  assert (Ey : bval oS = y * 2 ^ i) by (rewrite EvS; unfold y; rewrite Z.pow_add_r by lia; lia). rewrite Ex in Hb1.
  assert (Hy0 : 0 < y) by (apply Z.mul_pos_pos; [done|apply Z.pow_pos_nonneg; lia]). assert (Hx0 : 0 < x) by (apply Z.mul_pos_pos; [done|apply Z.pow_pos_nonneg; lia]).
  assert (Hdiv : divisor oS).
  { apply divisor_of_bits; [done|done|nia|]. rewrite EvS, Z.log2_mul_pow2 by lia. rewrite <- Hsc. apply Z.mod_divide in Hbits as [q Hq]; [|lia].
    replace (s2 + i + Z.log2 vS + 1) with (bits + s2 + i + q * 32) by lia. apply Z.mod_add. lia. }
  assert (Hb2' : is_rem w2 b1 (x * 2 ^ i) K) by (destruct Hb1 as (o & Ho & R); exists o; rewrite Hs2'; [done|set_solver]).
  apply run_bind. eapply (run_k_check gives k_check b1 S1 oS w2 pows live (x * 2 ^ i) K); [eapply mp_ok_perm; [apply perm_swap|exact Hok2]|exact Hb2'|nia|exact HoS|exact Hdiv|lia|].
  assert (Ec : (x * 2 ^ i <? bval oS) = (x <? y)) by (rewrite Ey; destruct (Z.ltb_spec (x * 2 ^ i) (y * 2 ^ i)), (Z.ltb_spec x y); try done; nia). rewrite Ec.
  intros b3 w3 Hok3 Hs3 Hb3. assert (HoS3 : bigs w3 !! S1 = Some oS) by (rewrite Hs3; [done|set_solver]).
  assert (Hs0 : same_on (pows ++ live) w w3).
  { eapply same_on_trans; [by eapply same_on_cons|]. eapply same_on_trans; [by eapply same_on_cons|by eapply same_on_cons]. }
  assert (Hend : forall x' k' il, is_rem w3 b3 (x' * 2 ^ i) K -> y <= x' < 10 * y -> 1 <= il ->
    run_ok gives (fixed_digits gives b3 S1 il k') w3 (fun r w' => mp_ok w' pows live /\ same_on (pows ++ live) w w' /\
      digits_of k' (Z.to_nat (il - 1)) (round_even (x' * 10 ^ (il - 1)) y) r)).
  { intros x' k' il Hx' Hr Hil. pose proof (run_fixed_digits gives w3 pows live b3 S1 oS (x' * 2 ^ i) K k' il Hok3 Hx' HoS3 Hdiv ltac:(lia)) as Hrun. rewrite Ey in Hrun.
    replace (x' * 2 ^ i * 10 ^ (il - 1)) with (x' * 10 ^ (il - 1) * 2 ^ i) in Hrun by lia. rewrite round_even_scale in Hrun by done. specialize (Hrun ltac:(nia) Hil).
    unfold run_ok in *. destruct (fixed_digits gives b3 S1 il k' w3) as [[r w']|e]; [|done]. destruct Hrun as (R1 & R2 & R3). split; [done|]. split; [by eapply same_on_trans|done]. }
  destruct k_check; cbn [andb] in *; [destruct (Z.ltb_spec x y)|]; apply Hend; try done; try lia. by rewrite <- Z.mul_assoc.
Qed.

(** 355 / 904 to five digits is 0.39270: the estimate of the exponent was too large, the last
    digit is rounded up over a 9, and the zero it leaves is not written. *)
Lemma dtoa_digits_rounded_witness : exists w', dtoa_digits always 3 2 0 3 1 0 true 6 5 (two_objects 113 355) = Ok (([51; 57; 50; 55], 0), w') /\ mp_ok w' [] [].
Proof.
  destruct (two_objects_ok 113 355) as (_ & Hok & H2 & H3); [rewrite in_u32; lia|rewrite in_u32; lia|].
  assert (E3 : bigs (two_objects 113 355) !! 3 = Some (Bigint 0 1 2 0 1 [355; 0])) by (vm_compute; reflexivity).
  assert (Hb : is_rem (two_objects 113 355) 3 355 1).
  { destruct H3 as (o & Ho & Wo & No & Vo & Ko). rewrite E3 in Ho. injection Ho as <-. eexists. split; [exact E3|]. split; [split; [split; [exact Wo|cbn; lia]|left; exact No]|]. split; [exact Vo|cbn; lia]. }
  pose proof (dtoa_digits_rounded always (two_objects 113 355) [] [] 3 2 355 113 1 1 2 0 3 1 0 true 6 5 Hok Hb H2 ltac:(lia) ltac:(lia) ltac:(lia)
    ltac:(lia) ltac:(lia) ltac:(vm_compute; congruence) ltac:(vm_compute; congruence) ltac:(lia) ltac:(lia) ltac:(lia) ltac:(vm_compute; congruence) ltac:(vm_compute; congruence)) as H.
  assert (Er : match dtoa_digits always 3 2 0 3 1 0 true 6 5 (two_objects 113 355) with Ok (r, _) => r = ([51; 57; 50; 55], 0) | Err _ => False end) by (vm_compute; reflexivity).
  unfold run_ok in H. destruct (dtoa_digits always 3 2 0 3 1 0 true 6 5 (two_objects 113 355)) as [[r w']|e]; [|destruct Er].
  subst r. exists w'. split; [reflexivity|]. destruct H as (H & _). exact H.
Defined.
