(* ===== verification/HeapLogic.v ===== *)
(** A separation logic for the guest's C code.

    Assertions are predicates on finite heaps of 64-bit words, closed under
    larger heaps; they form a BI, so that Iris's proof mode works on them.
    Programs are computations of the monad [M] of file Prelude over a word heap
    and a record of further variables; [wp] is total: a program that satisfies
    [wp c g Q] returns, without a fault and without reaching a loop bound, and
    leaves every word it was not given as it was.  The allocator of the guest
    (file Malloc) is verified in it. *)

From iris.proofmode Require Import proofmode.
From S2P Require Import Prelude.

Abbreviation wheap := (gmap Z Z).

(** ** Assertions *)

Record hprop : Type := HProp {
  hholds :> wheap -> Prop;
  hholds_mono : forall h h', hholds h -> h ⊆ h' -> hholds h'
}.

Section Connectives.
#[local] Instance hprop_equiv : Equiv hprop := fun P Q => forall h, P h <-> Q h.
#[local] Instance hprop_equivalence : Equivalence (≡@{hprop}).
Proof.
  split; [by intros P h|intros P Q E h; by symmetry|].
  intros P Q R E1 E2 h. by rewrite (E1 h).
Qed.
Canonical Structure hpropO : ofe := discreteO hprop.

(** A structure, so that the proof mode does not see through it. *)
Record hentails (P Q : hprop) : Prop := HEntails { hentails_at : forall h, P h -> Q h }.

Program Definition hpure (φ : Prop) : hprop := HProp (fun _ => φ) _.
Next Obligation. done. Qed.
Definition hemp : hprop := hpure True.
Program Definition hand (P Q : hprop) : hprop := HProp (fun h => P h /\ Q h) _.
Next Obligation. intros P Q h h' [HP HQ] Hs. split; by eapply hholds_mono. Qed.
Program Definition hor (P Q : hprop) : hprop := HProp (fun h => P h \/ Q h) _.
Next Obligation. intros P Q h h' [HP|HQ] Hs; [left|right]; by eapply hholds_mono. Qed.
Program Definition himpl (P Q : hprop) : hprop :=
  HProp (fun h => forall h', h ⊆ h' -> P h' -> Q h') _.
Next Obligation. intros P Q h h' H Hs h2 Hs2. apply H. by etrans. Qed.
Program Definition hforall {A} (Ψ : A -> hprop) : hprop := HProp (fun h => forall a, Ψ a h) _.
Next Obligation. intros A Ψ h h' H Hs a. by eapply hholds_mono. Qed.
Program Definition hexist {A} (Ψ : A -> hprop) : hprop := HProp (fun h => exists a, Ψ a h) _.
Next Obligation. intros A Ψ h h' [a H] Hs. exists a. by eapply hholds_mono. Qed.
Program Definition hsep (P Q : hprop) : hprop :=
  HProp (fun h => exists h1 h2, h1 ##ₘ h2 /\ h1 ∪ h2 ⊆ h /\ P h1 /\ Q h2) _.
Next Obligation.
  intros P Q h h' (h1 & h2 & Hd & Hu & HP & HQ) Hs. exists h1, h2. split_and!; try done. by etrans.
Qed.
Program Definition hwand (P Q : hprop) : hprop :=
  HProp (fun h => forall h', h ##ₘ h' -> P h' -> Q (h ∪ h')) _.
Next Obligation.
  intros P Q h h' H Hs h2 Hd HP. eapply hholds_mono.
  - apply H; [|exact HP]. by eapply map_disjoint_weaken_l.
  - by apply map_union_mono_r.
Qed.
Definition hpers (P : hprop) : hprop := hpure (hentails hemp P).
Definition hlater (P : hprop) : hprop := P.

(** One word. *)
Program Definition hword (a v : Z) : hprop := HProp (fun h => h !! a = Some v) _.
Next Obligation. intros a v h h1 H Hs. exact (lookup_weaken _ _ _ _ H Hs). Qed.

Lemma hprop_mixin :
  BiMixin hentails hemp hpure hand hor himpl (@hforall) (@hexist) hsep hwand.
Proof.
  split.
  - split; [by intros P; split|]. intros P Q R [H1] [H2]. split. intros h HP. by apply H2, H1.
  - intros P Q. split; [intros E; split; split; intros h; apply E|].
    intros [[H1] [H2]] h. split; [apply H1|apply H2].
  - intros n φ1 φ2 E h. exact E.
  - intros n P P' EP Q Q' EQ h. cbn. by rewrite (EP h) (EQ h).
  - intros n P P' EP Q Q' EQ h. cbn. by rewrite (EP h) (EQ h).
  - intros n P P' EP Q Q' EQ h. cbn. split; intros H h' Hs HP; apply EQ, H, EP; done.
  - intros A n Φ Ψ E h. cbn. split; intros H a; by apply E.
  - intros A n Φ Ψ E h. cbn. split; intros [a H]; exists a; by apply E.
  - intros n P P' EP Q Q' EQ h. cbn.
    split; intros (h1 & h2 & ? & ? & ? & ?); exists h1, h2; split_and!; try done;
      (by apply EP) || (by apply EQ).
  - intros n P P' EP Q Q' EQ h. cbn. split; intros H h' Hd HP; apply EQ, H, EP; done.
  - intros φ P Hφ. by split.
  - intros φ P H. split. intros h Hφ. by apply (H Hφ).
  - intros P Q. by split; intros h [H _].
  - intros P Q. by split; intros h [_ H].
  - intros P Q R [H1] [H2]. split; intros h HP. split; [by apply H1|by apply H2].
  - intros P Q. by split; intros h H; left.
  - intros P Q. by split; intros h H; right.
  - intros P Q R [H1] [H2]. split; intros h [H|H]; [by apply H1|by apply H2].
  - intros P Q R [H]. split; intros h HP h' Hs HQ. apply H. split; [by eapply hholds_mono|done].
  - intros P Q R [H]. split; intros h [HP HQ]. by apply (H h HP h).
  - intros A P Ψ H. split; intros h HP a. by apply H.
  - intros A Ψ a. split; intros h H. apply H.
  - intros A Ψ a. split; intros h H. by exists a.
  - intros A Φ Q H. split; intros h [a Ha]. by apply (H a).
  - intros P P' Q Q' [H1] [H2]. split; intros h (h1 & h2 & ? & ? & ? & ?).
    exists h1, h2. split_and!; auto.
  - intros P. split; intros h HP. exists ∅, h.
    split_and!; try done; [apply map_disjoint_empty_l|]. by rewrite map_empty_union.
  - intros P. split; intros h (h1 & h2 & Hd & Hu & _ & HP). eapply hholds_mono; [done|].
    etrans; [|exact Hu]. by apply map_union_subseteq_r.
  - intros P Q. split; intros h (h1 & h2 & Hd & Hu & HP & HQ). exists h2, h1.
    split_and!; try done. by rewrite map_union_comm.
  - intros P Q R. split; intros h (h12 & h3 & Hd & Hu & (h1 & h2 & Hd' & Hu' & HP & HQ) & HR).
    assert (h1 ⊆ h12) by (etrans; [apply map_union_subseteq_l|done]).
    assert (h2 ⊆ h12) by (etrans; [by apply map_union_subseteq_r|done]).
    exists h1, (h2 ∪ h3). split_and!; [|rewrite (assoc_L _); etrans; [|exact Hu]|done|].
    + apply map_disjoint_union_r_2; [done|]. by eapply map_disjoint_weaken_l.
    + by apply map_union_mono_r.
    + exists h2, h3. split_and!; try done. by eapply map_disjoint_weaken_l.
  - intros P Q R [H]. split; intros h HP h' Hd HQ. apply H. exists h, h'. done.
  - intros P Q R [H]. split; intros h (h1 & h2 & Hd & Hu & HP & HQ).
    eapply hholds_mono; [|exact Hu]. by apply H.
Qed.

Lemma hprop_pers_mixin : BiPersistentlyMixin hentails hemp hand (@hexist) hsep hpers.
Proof.
  eapply bi_persistently_mixin_discrete, hprop_mixin; [by intros n P Q| |by intros P].
  intros A Φ [H]. destruct (H ∅) as [x Hx]; [done|]. exists x. split; intros h _.
  eapply hholds_mono; [exact Hx|]. apply map_empty_subseteq.
Qed.

Lemma hprop_later_mixin :
  BiLaterMixin hentails hpure hor himpl (@hforall) (@hexist) hsep hpers hlater.
Proof. eapply bi_later_mixin_id, hprop_mixin. by intros P. Qed.
End Connectives.

Canonical Structure hpropI : bi :=
  {| bi_ofe_mixin := ofe_mixin_of hprop; bi_cofe_aux := discrete_cofe hprop_equivalence;
     bi_bi_mixin := hprop_mixin; bi_bi_persistently_mixin := hprop_pers_mixin;
     bi_bi_later_mixin := hprop_later_mixin |}.

#[export] Instance hpropI_affine : BiAffine hpropI | 0.
Proof. intros P. split. intros h _. exact I. Qed.
#[export] Instance hpropI_pure_forall : BiPureForall hpropI.
Proof. intros A φ. split. intros h H. exact H. Qed.
#[export] Instance hpropI_later P : Timeless (PROP := hpropI) P.
Proof. split. intros h H. right. exact H. Qed.

Notation "a ↦ v" := (hword a v : hpropI) (at level 20, format "a  ↦  v") : bi_scope.

(** *** Assertions at a heap *)

Lemma entails_at (P Q : hprop) (h : wheap) : (P ⊢ Q) -> P h -> Q h.
Proof. intros [H]. apply H. Qed.

Lemma sep_intro (P Q : hprop) (h1 h2 : wheap) : P h1 -> Q h2 -> h1 ##ₘ h2 -> (P ∗ Q)%I (h1 ∪ h2).
Proof. intros HP HQ Hd. by exists h1, h2. Qed.

Lemma sep_pure_l (φ : Prop) (P : hprop) (h : wheap) : (⌜φ⌝ ∗ P)%I h -> φ /\ P h.
Proof.
  intros H. split.
  - eapply (entails_at _ (⌜φ⌝)%I h); [|exact H]. by iIntros "[$ _]".
  - eapply (entails_at _ P h); [|exact H]. by iIntros "[_ $]".
Qed.

(** ** Words *)

Lemma word_excl a v v' : a ↦ v ∗ a ↦ v' ⊢ False.
Proof.
  split. intros h (h1 & h2 & Hd & _ & H1 & H2). cbn in H1, H2.
  by apply (map_disjoint_spec h1 h2) with (i := a) (x := v) (y := v') in Hd.
Qed.

Lemma word_ne a a' v v' : a ↦ v -∗ a' ↦ v' -∗ ⌜a <> a'⌝.
Proof.
  iIntros "H1 H2" (->). iApply (word_excl a' v v'). iFrame.
Qed.

(** A word with some contents, and [n] words from address [a] on. *)
Definition anyword (a : Z) : hprop := (∃ v, a ↦ v)%I.
Notation "a ↦-" := (anyword a) (at level 20, format "a  ↦-") : bi_scope.

Definition words (a : Z) (n : nat) : hprop := ([∗ list] i ∈ seq 0 n, (a + 8 * Z.of_nat i) ↦-)%I.

Lemma words_app a n m : words a (n + m) ⊣⊢ words a n ∗ words (a + 8 * Z.of_nat n) m.
Proof.
  rewrite /words seq_app big_sepL_app. apply bi.sep_proper; [done|].
  replace (0 + n)%nat with (n + 0)%nat by lia. rewrite -(fmap_add_seq n 0 m) big_sepL_fmap. apply big_sepL_proper. intros k i Hi.
  by replace (a + 8 * Z.of_nat (n + i)) with (a + 8 * Z.of_nat n + 8 * Z.of_nat i) by lia.
Qed.

(** The words from address [a] up to address [b]. *)
Definition cells (a b : Z) : hprop := words a (Z.to_nat ((b - a) / 8)).

Lemma cells_split b a c : a <= b <= c -> (b - a) mod 8 = 0 ->
  cells a c ⊣⊢ cells a b ∗ cells b c.
Proof.
  intros Hb Hm. rewrite /cells.
  assert (H8 : b - a = 8 * ((b - a) / 8)) by (by apply Z_div_exact_2).
  replace (c - a) with ((c - b) + (b - a) / 8 * 8) by lia.
  rewrite Z.div_add // Z.add_comm Z2Nat.inj_add; [|lia|apply Z.div_pos; lia].
  rewrite words_app. apply bi.sep_proper; [done|]. rewrite Z2Nat.id; [|apply Z.div_pos; lia].
  by replace (a + 8 * ((b - a) / 8)) with b by lia.
Qed.

Lemma cells_nil a b : b < a + 8 -> cells a b ⊣⊢ emp.
Proof.
  intros H. rewrite /cells /words. assert ((b - a) / 8 < 1) by (apply Z.div_lt_upper_bound; lia).
  by replace (Z.to_nat ((b - a) / 8)) with 0%nat by lia.
Qed.

Lemma cells_one a : cells a (a + 8) ⊣⊢ a ↦-.
Proof.
  rewrite /cells /words. replace (a + 8 - a) with 8 by lia.
  change (seq 0 (Z.to_nat (8 / 8))) with [0%nat].
  by rewrite big_sepL_singleton Z.mul_0_r Z.add_0_r.
Qed.

(** The first word of a range. *)
Lemma cells_cons a b : a + 8 <= b -> cells a b ⊣⊢ a ↦- ∗ cells (a + 8) b.
Proof. intros H. rewrite (cells_split (a + 8)) ?cells_one //; [lia|]. by replace (a + 8 - a) with 8 by lia. Qed.

(** A range with a word in the middle, and with a word at its end. *)
Lemma cells_glue b a v c : a <= b -> b + 8 <= c -> (b - a) mod 8 = 0 ->
  cells a b -∗ b ↦ v -∗ cells (b + 8) c -∗ cells a c.
Proof.
  iIntros (H1 H2 H3) "Ha Hb Hc". rewrite (cells_split b a c); [|lia|done].
  rewrite (cells_cons b c) //. iFrame.
Qed.

Lemma cells_snoc a b : a <= b -> (b - a) mod 8 = 0 -> cells a (b + 8) ⊣⊢ cells a b ∗ b ↦-.
Proof. intros H1 H2. rewrite (cells_split b) ?cells_one //. lia. Qed.

(** The words of a range are in the heap. *)
Lemma cells_lookup a b x (h : wheap) : cells a b h -> a <= x -> x + 8 <= b -> (x - a) mod 8 = 0 ->
  is_Some (h !! x).
Proof.
  intros H H1 H2 H3. assert (E : cells a b ⊢ x ↦-).
  { rewrite (cells_split x) ?(cells_cons x) //; [|lia]. iIntros "(_ & $ & _)". }
  destruct E as [E]. destruct (E h H) as [v Hv]. by exists v.
Qed.

(** ** Programs *)

Section Programs.
Context {G : Type}.

Abbreviation prog := (M (wheap * G)).

Definition load (a : Z) : prog Z := fun s =>
  match s.1 !! a with Some v => Ok (v, s) | None => Err Fault end.
Definition store (a v : Z) : prog unit := fun s =>
  match s.1 !! a with Some _ => Ok (tt, (<[a := v]> s.1, s.2)) | None => Err Fault end.
Definition getg {A} (f : G -> A) : prog A := fun s => Ok (f s.2, s).
Definition setg (f : G -> G) : prog unit := fun s => Ok (tt, (s.1, f s.2)).
(** A function of the variables alone. *)
Definition callg {A} (f : G -> A * G) : prog A := fun s =>
  let '(a, g) := f s.2 in Ok (a, (s.1, g)).

(** Total correctness with a frame. *)
Program Definition wp {A} (c : prog A) (g : G) (Q : A -> G -> hprop) : hprop :=
  HProp (fun h => forall hf, h ##ₘ hf ->
    exists a g' h', c (h ∪ hf, g) = Ok (a, (h' ∪ hf, g')) /\ h' ##ₘ hf /\ Q a g' h') _.
Next Obligation.
  intros A c g Q h h2 H Hs hf Hd.
  destruct (H ((h2 ∖ h) ∪ hf)) as (a & g' & h' & Hc & Hd' & HQ).
  - apply map_disjoint_union_r_2; [by apply map_disjoint_difference_r1|].
    by eapply map_disjoint_weaken_l.
  - apply map_disjoint_union_r in Hd' as [Hd1 Hd2].
    exists a, g', (h' ∪ (h2 ∖ h)). split_and!.
    + rewrite (assoc_L _) (map_difference_union _ _ Hs) in Hc. by rewrite -(assoc_L _).
    + apply map_disjoint_union_l_2; [done|].
      by apply map_disjoint_difference_l2.
    + eapply hholds_mono; [exact HQ|]. apply map_union_subseteq_l.
Qed.

Lemma wp_wand {A} (c : prog A) g Q R :
  wp c g Q -∗ (∀ a g', Q a g' -∗ R a g') -∗ wp c g R.
Proof.
  apply bi.entails_wand, bi.wand_intro_r. split. intros h (h1 & h2 & Hd & Hu & Hc & HQR).
  apply (hholds_mono _ (h1 ∪ h2)); [|done]. intros hf Hdf.
  apply map_disjoint_union_l in Hdf as [Hdf1 Hdf2].
  destruct (Hc (h2 ∪ hf)) as (a & g' & h' & E & Hd' & HQ); [by apply map_disjoint_union_r_2|].
  apply map_disjoint_union_r in Hd' as [Hd1 Hd2].
  exists a, g', (h' ∪ h2). split_and!.
  - by rewrite -!(assoc_L _).
  - by apply map_disjoint_union_l_2.
  - rewrite map_union_comm //. by apply (HQR a g' h').
Qed.

Lemma wp_ret {A} (a : A) g Q : Q a g ⊢ wp (mret a) g Q.
Proof. split. intros h H hf Hd. by exists a, g, h. Qed.

Lemma wp_bind {A B} (m : prog A) (f : A -> prog B) g Q :
  wp m g (fun a g' => wp (f a) g' Q) ⊢ wp (m ≫= f) g Q.
Proof.
  split. intros h H hf Hd. destruct (H hf Hd) as (a & g' & h' & E & Hd' & HQ).
  destruct (HQ hf Hd') as (b & g2 & h2 & E2 & Hd2 & HQ2).
  exists b, g2, h2. split; [|done]. unfold mbind, M_bind. by rewrite E.
Qed.

Lemma lookup_frame (h1 h2 hf : wheap) a v : h1 ##ₘ h2 -> h1 !! a = Some v ->
  ((h2 ∪ h1) ∪ hf) !! a = Some v.
Proof.
  intros Hd H. apply lookup_union_Some_l, lookup_union_Some_r; [done|exact H].
Qed.

Lemma wp_load a v g Q : a ↦ v -∗ (a ↦ v -∗ Q v g) -∗ wp (load a) g Q.
Proof.
  apply bi.entails_wand, bi.wand_intro_r. split. intros h (h1 & h2 & Hd & Hu & H1 & H2).
  apply (hholds_mono _ (h2 ∪ h1)); [|by rewrite map_union_comm].
  intros hf Hdf. exists v, g, (h2 ∪ h1). split_and!; [|done|by apply H2].
  unfold load; cbn. by rewrite (lookup_frame h1 h2 hf a v).
Qed.

Lemma wp_store a v w g Q : a ↦ v -∗ (a ↦ w -∗ Q tt g) -∗ wp (store a w) g Q.
Proof.
  apply bi.entails_wand, bi.wand_intro_r. split. intros h (h1 & h2 & Hd & Hu & H1 & H2). cbn in H1.
  apply (hholds_mono _ (h2 ∪ h1)); [|by rewrite map_union_comm].
  intros hf Hdf.
  assert (Hn : h2 !! a = None) by (by eapply map_disjoint_Some_l).
  exists tt, g, (h2 ∪ <[a := w]> h1). split_and!.
  - unfold store; cbn. rewrite (lookup_frame h1 h2 hf a v) //.
    by rewrite insert_union_l insert_union_r.
  - apply map_disjoint_union_l in Hdf as [Hf2 Hf1]. apply map_disjoint_union_l_2; [done|].
    apply map_disjoint_insert_l_2; [|done]. by eapply map_disjoint_Some_r.
  - apply H2; [by apply map_disjoint_insert_r_2|]. cbn. by rewrite lookup_insert_eq.
Qed.

Lemma wp_getg {A} (f : G -> A) g Q : Q (f g) g ⊢ wp (getg f) g Q.
Proof. split. intros h H hf Hd. by exists (f g), g, h. Qed.
Lemma wp_setg (f : G -> G) g Q : Q tt (f g) ⊢ wp (setg f) g Q.
Proof. split. intros h H hf Hd. by exists tt, (f g), h. Qed.
Lemma wp_callg {A} (f : G -> A * G) g Q : Q (f g).1 (f g).2 ⊢ wp (callg f) g Q.
Proof.
  split. intros h H hf Hd. exists (f g).1, (f g).2, h. split; [|done].
  unfold callg. cbn. by destruct (f g).
Qed.

(** What [wp] says about a run on a heap with a frame. *)
Lemma wp_sound {A} (c : prog A) g Q (P : hprop) h hf :
  (P ⊢ wp c g Q) -> P h -> h ##ₘ hf ->
  exists a g' h', c (h ∪ hf, g) = Ok (a, (h' ∪ hf, g')) /\ h' ##ₘ hf /\ Q a g' h'.
Proof. intros [H] HP Hd. by apply (H h HP). Qed.

(** A run in a heap a part of which is someone else's: that part stays as it is. *)
Lemma wp_run {A} (P R : hprop) (c : prog A) g Q (h : wheap) :
  (P ⊢ wp c g Q) -> (P ∗ R)%I h ->
  exists a g' h1 h2 h1', h = h1 ∪ h2 /\ h1 ##ₘ h2 /\ R h2 /\
    c (h, g) = Ok (a, (h1' ∪ h2, g')) /\ h1' ##ₘ h2 /\ Q a g' h1'.
Proof.
  intros HP (h1 & h2 & Hd & Hu & H1 & H2).
  assert (Hs : h1 ⊆ h) by (etrans; [apply map_union_subseteq_l|exact Hu]).
  assert (Hs2 : h2 ⊆ h) by (etrans; [by apply map_union_subseteq_r|exact Hu]).
  assert (Hd2 : h1 ##ₘ h ∖ h1) by by apply map_disjoint_difference_r1.
  destruct (wp_sound c g Q P h1 (h ∖ h1) HP H1 Hd2) as (a & g' & h1' & E & Hd' & HQ).
  exists a, g', h1, (h ∖ h1), h1'. rewrite (map_difference_union _ _ Hs) in E |- *. split_and!; try done.
  eapply hholds_mono; [exact H2|]. apply map_subseteq_spec. intros i x Hi.
  apply lookup_difference_Some. split; [by eapply lookup_weaken|].
  by eapply (map_disjoint_Some_r h1 h2).
Qed.
End Programs.

(** ** Symbolic execution *)

Lemma wp_store_any {G} a w (g : G) Q : a ↦- -∗ (a ↦ w -∗ Q tt g) -∗ wp (store a w) g Q.
Proof. iIntros "[%v H] HQ". iApply (wp_store with "H HQ"). Qed.

(** The next statement reads or writes the word of hypothesis [H]. *)
Tactic Notation "wp_load" constr(H) :=
  try iApply wp_bind; iApply (wp_load with H); iIntros H; cbv beta.
Tactic Notation "wp_store" constr(H) :=
  try iApply wp_bind;
  first [iApply (wp_store with H) | iApply (wp_store_any with H)]; iIntros H; cbv beta.
Tactic Notation "wp_getg" := try iApply wp_bind; iApply wp_getg; cbv beta.
Tactic Notation "wp_setg" := try iApply wp_bind; iApply wp_setg; cbv beta.
Tactic Notation "wp_ret" := try iApply wp_bind; iApply wp_ret; cbv beta.
