(* ===== verification/Allocator.v ===== *)
(** What an allocator promises its callers: an interface in the logic of file
    HeapLogic.  The allocator of the guest's C library is an instance (file
    MallocSafe); the routines that allocate are verified against the interface. *)

From iris.proofmode Require Import proofmode.
From S2P Require Import Prelude HeapLogic.

(** A block is its address and the number of bytes that may be used. *)
Definition block_cells (b : Z * Z) : hprop := cells b.1 (b.1 + b.2).

Definition block_ok (bytes : Z) (b : Z * Z) : Prop :=
  0 < b.1 /\ b.1 mod 16 = 0 /\ bytes <= b.2 /\ b.2 mod 8 = 0.

Class Allocator {G : Type} (malloc : Z -> M (wheap * G) Z) (free : Z -> M (wheap * G) unit) (limit : Z) : Type := {
  (** The allocator's own memory while the blocks of a list are out. *)
  heap_inv : list (Z * Z) -> G -> hprop;
  heap_inv_perm : forall l l' g, l ≡ₚ l' -> heap_inv l g ⊢ heap_inv l' g;
  malloc_spec : forall bytes l g Q, 0 <= bytes <= limit ->
    heap_inv l g -∗
    (∀ g', heap_inv l g' -∗ Q 0 g') ∧
    (∀ n g', ⌜block_ok bytes n⌝ -∗ heap_inv (n :: l) g' -∗ block_cells n -∗ Q n.1 g') -∗
    wp (malloc bytes) g Q;
  free_spec : forall b l g Q,
    heap_inv (b :: l) g -∗ block_cells b -∗ (∀ g', heap_inv l g' -∗ Q tt g') -∗ wp (free b.1) g Q;
  free_null : forall g Q, Q tt g ⊢ wp (free 0) g Q
}.

(** ** Programs that use an allocator *)

Section Client.
Context {G : Type} {malloc : Z -> M (wheap * G) Z} {free : Z -> M (wheap * G) unit} {limit : Z}.
Context `{!Allocator malloc free limit}.

(** The heap, the allocator's variables, and the blocks the program holds with
    the sizes it asked for. *)
Definition world : Type := wheap * G * list (Z * Z).

Definition blocks_own (bl : list (Z * Z)) : hprop := ([∗ list] b ∈ bl, block_cells b)%I.

(** Block [b] serves the request [x]. *)
Definition serves (x b : Z * Z) : Prop := x.1 = b.1 /\ block_ok x.2 b.

Definition world_ok (w : world) : Prop :=
  exists bl, Forall2 serves w.2 bl /\ (heap_inv bl w.1.2 ∗ blocks_own bl)%I w.1.1.

(** A word of a block. *)
Definition within (mem n a : Z) : Prop := mem <= a /\ a + 8 <= mem + n /\ (a - mem) mod 8 = 0.

(** The words of the blocks in [l] are as they were. *)
Definition keeps (l : list (Z * Z)) (h h' : wheap) : Prop :=
  forall mem n a, (mem, n) ∈ l -> within mem n a -> h' !! a = h !! a.

Inductive step : world -> world -> Prop :=
| step_malloc h g l bytes mem h' g' :
    0 <= bytes <= limit -> malloc bytes (h, g) = Ok (mem, (h', g')) ->
    step (h, g, l) (h', g', if mem =? 0 then l else (mem, bytes) :: l)
| step_free h g l1 mem n l2 h' g' :
    free mem (h, g) = Ok (tt, (h', g')) -> step (h, g, l1 ++ (mem, n) :: l2) (h', g', l1 ++ l2)
| step_write h g l mem n a v h' g' :
    (mem, n) ∈ l -> within mem n a -> store a v (h, g) = Ok (tt, (h', g')) ->
    step (h, g, l) (h', g', l).

Lemma block_word b n a (h : wheap) : block_ok n b -> within b.1 n a -> block_cells b h -> is_Some (h !! a).
Proof. intros (_ & _ & Hn & _) (H1 & H2 & H3) Hc. eapply cells_lookup; [exact Hc|lia..]. Qed.

Lemma blocks_word bl b n a (h : wheap) : b ∈ bl -> block_ok n b -> within b.1 n a ->
  blocks_own bl h -> is_Some (h !! a).
Proof.
  intros Hb Hok Ha Hc. eapply (block_word b); [done..|].
  apply list_elem_of_lookup in Hb as [i Hi]. assert (E : blocks_own bl ⊢ block_cells b).
  { rewrite /blocks_own (big_sepL_lookup _ _ i) //. }
  destruct E as [E]. by apply E.
Qed.

Lemma serves_elem l bl x : Forall2 serves l bl -> x ∈ l -> exists b, b ∈ bl /\ serves x b.
Proof.
  intros Hl [i Hi]%list_elem_of_lookup. destruct (Forall2_lookup_l _ _ _ _ _ Hl Hi) as (b & Hb & Hs).
  exists b. split; [by eapply list_elem_of_lookup_2|done].
Qed.

(** What the frame of a run holds is kept. *)
Lemma frame_keeps l bl (h1 h2 h1' : wheap) : Forall2 serves l bl -> blocks_own bl h2 ->
  h1 ##ₘ h2 -> h1' ##ₘ h2 -> keeps l (h1 ∪ h2) (h1' ∪ h2).
Proof.
  intros Hl Hc Hd Hd' mem n a Hin Ha. destruct (serves_elem _ _ _ Hl Hin) as (b & Hb & E & Hok).
  cbn in E, Hok. subst mem. destruct (blocks_word _ _ _ _ _ Hb Hok Ha Hc) as [v Hv].
  rewrite !lookup_union_r //; by eapply map_disjoint_Some_r.
Qed.

(** What the heap is left with: the blocks [nb] are new. *)
Definition left_with (bl nb : list (Z * Z)) (g : G) : hprop := (heap_inv (nb ++ bl) g ∗ blocks_own nb)%I.

Lemma left_with_ok l bl nb g (h1 h2 : wheap) : Forall2 serves l (nb ++ bl) ->
  left_with bl nb g h1 -> blocks_own bl h2 -> h1 ##ₘ h2 -> world_ok (h1 ∪ h2, g, l).
Proof.
  intros Hl H1 H2 Hd. exists (nb ++ bl). split; [done|]. cbn.
  eapply entails_at; [|exact (sep_intro _ _ _ _ H1 H2 Hd)].
  iIntros "[[$ H1] H2]". rewrite /blocks_own big_sepL_app. iFrame.
Qed.

Lemma malloc_run bytes h g l : world_ok (h, g, l) -> 0 <= bytes <= limit ->
  exists mem h' g', malloc bytes (h, g) = Ok (mem, (h', g')) /\
    world_ok (h', g', if mem =? 0 then l else (mem, bytes) :: l) /\ keeps l h h'.
Proof.
  intros (bl & Hl & Hh) Hb. cbn in Hl, Hh.
  set (Q := fun mem g' => (∃ nb, ⌜Forall2 serves (if mem =? 0 then [] else [(mem, bytes)]) nb⌝ ∗ left_with bl nb g')%I : hprop).
  destruct (wp_run (heap_inv bl g) (blocks_own bl) (malloc bytes) g Q h)
    as (mem & g' & h1 & h2 & h1' & -> & Hd & Hc & E & Hd' & [nb [Hn HQ]%sep_pure_l]); [|done|].
  { iIntros "H". iApply (malloc_spec with "H"); [done|]. iSplit.
    - iIntros (g') "H". iExists []. iFrame. rewrite /blocks_own. iSplit; [|done]. iPureIntro. constructor.
    - iIntros (b g' Hok) "H Hc". iExists [b]. rewrite /left_with /blocks_own /=. iFrame. iPureIntro.
      destruct Hok as [H0 Hok]. zdecide. by apply Forall2_cons_2; [split; [|split]|apply Forall2_nil_2]. }
  exists mem, (h1' ∪ h2), g'. split; [done|]. split; [|by eapply frame_keeps].
  eapply left_with_ok; [|done..]. destruct (mem =? 0); [by inversion Hn; subst|].
  change ((mem, bytes) :: l) with ([(mem, bytes)] ++ l). by apply Forall2_app.
Qed.

Lemma free_run h g l1 mem n l2 : world_ok (h, g, l1 ++ (mem, n) :: l2) ->
  exists h' g', free mem (h, g) = Ok (tt, (h', g')) /\
    world_ok (h', g', l1 ++ l2) /\ keeps (l1 ++ l2) h h'.
Proof.
  intros (bl & Hl & Hh). cbn in Hl, Hh.
  apply Forall2_app_inv_l in Hl as (bl1 & bl2 & H1 & (b & bl3 & [E Hok] & H3 & ->)%Forall2_cons_inv_l & ->). cbn in E. subst mem.
  assert (Hl : Forall2 serves (l1 ++ l2) (bl1 ++ bl3)) by by apply Forall2_app.
  set (Q := fun (_ : unit) g' => left_with (bl1 ++ bl3) [] g').
  destruct (wp_run (heap_inv (b :: bl1 ++ bl3) g ∗ block_cells b)%I (blocks_own (bl1 ++ bl3)) (free b.1) g Q h)
    as ([] & g' & h1 & h2 & h1' & -> & Hd & Hc & E & Hd' & HQ).
  { iIntros "[H Hc]". iApply (free_spec with "H Hc"). iIntros (g') "H". rewrite /Q /left_with /blocks_own /=. by iFrame. }
  { eapply entails_at; [|exact Hh]. rewrite /blocks_own !big_sepL_app /=. iIntros "(H & $ & $ & $)".
    iApply (heap_inv_perm with "H"). by rewrite Permutation_middle. }
  exists (h1' ∪ h2), g'. split; [done|]. split; [|by eapply frame_keeps].
  by eapply (left_with_ok _ _ []).
Qed.

Lemma write_run h g l mem n a v : world_ok (h, g, l) -> (mem, n) ∈ l -> within mem n a ->
  exists h', store a v (h, g) = Ok (tt, (h', g)) /\ world_ok (h', g, l) /\ h' !! a = Some v.
Proof.
  intros (bl & Hl & Hh) Hin Ha. cbn in Hl, Hh.
  destruct (serves_elem _ _ _ Hl Hin) as (b & Hb & E & Hok). cbn in E. subst mem.
  destruct (wp_run (heap_inv bl g ∗ blocks_own bl)%I emp%I (store a v) g
    (fun _ g' => ⌜g' = g⌝ ∗ heap_inv bl g ∗ (a ↦ v ∗ (a ↦ v -∗ blocks_own bl)))%I h)
    as ([] & g' & h1 & h2 & h1' & -> & Hd & _ & E & Hd' & [-> HQ]%sep_pure_l).
  - apply list_elem_of_lookup in Hb as [i Hi]. destruct Hok as (_ & _ & Hn & _), Ha as (Ha1 & Ha2 & Ha3). cbn in Hn.
    iIntros "[Hi Hc]". rewrite /blocks_own. iDestruct (big_sepL_lookup_acc with "Hc") as "[Hb Hc]"; [done|].
    assert (E : block_cells b ⊣⊢ cells b.1 a ∗ a ↦- ∗ cells (a + 8) (b.1 + b.2)).
    { rewrite /block_cells (cells_split a); [|lia|done]. by rewrite (cells_cons a); [|lia]. }
    rewrite E. iDestruct "Hb" as "(Hb1 & Hw & Hb2)".
    iApply (wp_store_any with "Hw"). iIntros "$". iFrame "Hi". iSplit; [done|]. iIntros "Hw". iApply "Hc".
    iFrame.
  - eapply entails_at; [|exact Hh]. iIntros "[$ $]".
  - exists (h1' ∪ h2). split; [done|]. split.
    + exists bl. split; [done|]. cbn. eapply hholds_mono; [|apply map_union_subseteq_l].
      eapply entails_at; [|exact HQ]. iIntros "($ & Hw & Hc)". by iApply "Hc".
    + apply lookup_union_Some_l. eapply (entails_at _ (a ↦ v)%I); [|exact HQ]. iIntros "(_ & $ & _)".
Qed.

(** Every step of a program keeps the heap in order. *)
Lemma step_ok w w' : world_ok w -> step w w' -> world_ok w'.
Proof.
  intros Hw Hs. destruct Hs as [h g l bytes mem h' g' Hb E|h g l1 mem n l2 h' g' E|h g l mem n a v h' g' Hin Ha E].
  - destruct (malloc_run bytes h g l Hw Hb) as (mem2 & h2 & g2 & E2 & Hok & _). rewrite E2 in E. by simplify_eq.
  - destruct (free_run _ _ _ _ _ _ Hw) as (h2 & g2 & E2 & Hok & _). rewrite E2 in E. by simplify_eq.
  - destruct (write_run _ _ _ _ _ _ v Hw Hin Ha) as (h2 & E2 & Hok & _). rewrite E2 in E. by simplify_eq.
Qed.

(** Two blocks do not overlap. *)
Lemma cells_disjoint a b c d : a mod 16 = 0 -> c mod 16 = 0 -> b mod 8 = 0 -> d mod 8 = 0 ->
  cells a b -∗ cells c d -∗ ⌜forall x, ~ (a <= x < b /\ c <= x < d)⌝.
Proof.
  iIntros (Ha Hc Hb Hd) "H1 H2".
  destruct (decide (Z.max a c < Z.min b d)) as [Hlt|]; [|iPureIntro; intros x Hx; lia]. iExFalso.
  set (m := Z.max a c) in *.
  assert (Hm : a <= m /\ c <= m /\ m + 8 <= b /\ m + 8 <= d /\ (m - a) mod 8 = 0 /\ (m - c) mod 8 = 0).
  { unfold m. destruct (Z.max_spec a c) as [[? ->]|[? ->]]; Z.to_euclidean_division_equations; lia. }
  destruct Hm as (? & ? & ? & ? & ? & ?). clearbody m.
  rewrite (cells_split m a b); [|lia|done]. rewrite (cells_cons m b); [|lia].
  rewrite (cells_split m c d); [|lia|done]. rewrite (cells_cons m d); [|lia].
  iDestruct "H1" as "(_ & [%v H1] & _)". iDestruct "H2" as "(_ & [%w H2] & _)". iApply (word_excl m). iFrame.
Qed.

Definition disjoint_blocks (l : list (Z * Z)) : Prop :=
  forall i j x y a, l !! i = Some x -> l !! j = Some y -> i <> j ->
    ~ (x.1 <= a < x.1 + x.2 /\ y.1 <= a < y.1 + y.2).

Lemma world_disjoint w : world_ok w -> disjoint_blocks w.2.
Proof.
  intros (bl & Hl & Hh) i j x y a Hx Hy Hij [Ha1 Ha2].
  destruct (Forall2_lookup_l _ _ _ _ _ Hl Hx) as (b & Hb & Eb & Hb1 & Hb2 & Hb3 & Hb4).
  destruct (Forall2_lookup_l _ _ _ _ _ Hl Hy) as (c & Hc & Ec & Hc1 & Hc2 & Hc3 & Hc4).
  enough (blocks_own bl ⊢ ⌜forall a, ~ (b.1 <= a < b.1 + b.2 /\ c.1 <= a < c.1 + c.2)⌝) as He.
  { assert (Hd : (⌜forall a, ~ (b.1 <= a < b.1 + b.2 /\ c.1 <= a < c.1 + c.2)⌝ : hprop)%I w.1.1).
    { eapply entails_at; [|exact Hh]. iIntros "[_ H]". by iApply He. }
    apply (Hd a). lia. }
  rewrite /blocks_own. iIntros "H". iDestruct (big_sepL_delete _ _ i with "H") as "[H1 H]"; [exact Hb|].
  iDestruct (big_sepL_delete _ _ j with "H") as "[H2 _]"; [exact Hc|]. case_decide; [lia|].
  iApply (cells_disjoint with "H1 H2"); Z.to_euclidean_division_equations; lia.
Qed.
End Client.
