(* ===== verification/Malloc.v ===== *)
(** The allocator of the guest's C library: libc/newlib/libc/stdlib/mallocr.c, as
    the x86-64 build of the virtine library compiles it (SIZE_SZ = 8,
    MALLOC_ALIGNMENT = 16, MALLOC_ALIGN = 8, no mmap, MORECORE = _sbrk_r).

    Memory is a heap of 64-bit words (file HeapLogic) in which chunk headers, the
    free lists and the array av_ of bin headers live; the other static variables
    are the record [mvars], which holds the state of the system-call layer (file
    GuestSys) as well, since MORECORE is its sbrk.  The lock around each routine
    is empty in a program without threads.  Sizes are computed modulo 2^64 and
    [long] differences are signed; a chunk pointer outside memory faults. *)

From S2P Require Import Prelude Kvm HeapLogic GuestSys.

Section Malloc.
Context {X : Type}.
(** Where the linker puts malloc_av_. *)
Context (av : Z).

(** ** Static variables *)

(** struct mallinfo; its field arena is sbrked_mem below, the others stay 0. *)
Record mallinfo : Type := Mallinfo {
  ordblks : Z;
  uordblks : Z;
  fordblks : Z;
  keepcost : Z
}.

Record mvars : Type := MVars {
  sbrk_base : Z;
  sbrked_mem : Z;          (* current_mallinfo.arena *)
  max_sbrked_mem : Z;
  max_total_mem : Z;
  trim_threshold : Z;
  top_pad : Z;
  current_mallinfo : mallinfo;
  msys : @gsys X           (* errno and the break *)
}.

Definition initial_mvars (s : @gsys X) : mvars :=
  MVars (u64 (-1)) 0 0 0 (128 * 1024) 0 (Mallinfo 0 0 0 0) s.

Definition with_base (b : Z) (g : mvars) : mvars :=
  MVars b (sbrked_mem g) (max_sbrked_mem g) (max_total_mem g) (trim_threshold g) (top_pad g)
    (current_mallinfo g) (msys g).
Definition with_sbrked (n : Z) (g : mvars) : mvars :=
  MVars (sbrk_base g) n (max_sbrked_mem g) (max_total_mem g) (trim_threshold g) (top_pad g)
    (current_mallinfo g) (msys g).
Definition with_max (n t : Z) (g : mvars) : mvars :=
  MVars (sbrk_base g) (sbrked_mem g) n t (trim_threshold g) (top_pad g) (current_mallinfo g) (msys g).
Definition with_tuning (t p : Z) (g : mvars) : mvars :=
  MVars (sbrk_base g) (sbrked_mem g) (max_sbrked_mem g) (max_total_mem g) t p (current_mallinfo g) (msys g).
Definition with_info (i : mallinfo) (g : mvars) : mvars :=
  MVars (sbrk_base g) (sbrked_mem g) (max_sbrked_mem g) (max_total_mem g) (trim_threshold g)
    (top_pad g) i (msys g).
Definition with_sys (s : @gsys X) (g : mvars) : mvars :=
  MVars (sbrk_base g) (sbrked_mem g) (max_sbrked_mem g) (max_total_mem g) (trim_threshold g)
    (top_pad g) (current_mallinfo g) s.

Abbreviation prog := (M (wheap * mvars)).

(** ** Sizes and alignment *)

Definition SIZE_SZ : Z := 8.
Definition MALLOC_ALIGNMENT : Z := 16.
Definition MALLOC_ALIGN_MASK : Z := 15.
Definition MINSIZE : Z := 32.
Definition INT_MAX : Z := 2 ^ 31 - 1.
Definition malloc_getpagesize : Z := 4096.
Definition PREV_INUSE : Z := 1.
Definition SIZE_BITS : Z := 3.
Definition MORECORE_FAILURE : Z := u64 (-1).

Definition chunk2mem (p : Z) : Z := p + 2 * SIZE_SZ.
Definition mem2chunk (m : Z) : Z := m - 2 * SIZE_SZ.

Definition request2size (req : Z) : Z :=
  if u64 (req + (SIZE_SZ + MALLOC_ALIGN_MASK)) <? MINSIZE + MALLOC_ALIGN_MASK
  then Z.land (MINSIZE + MALLOC_ALIGN_MASK) (Z.lnot MALLOC_ALIGN_MASK)
  else Z.land (u64 (req + (SIZE_SZ + MALLOC_ALIGN_MASK))) (Z.lnot MALLOC_ALIGN_MASK).

Definition long_sub_size_t (x y : Z) : Z := s64 (x - y).

(** ** struct malloc_chunk: the addresses of its fields *)

Definition prev_size_ (p : Z) : Z := p.
Definition size_ (p : Z) : Z := p + 8.
Definition fd_ (p : Z) : Z := p + 16.
Definition bk_ (p : Z) : Z := p + 24.

Definition chunk_at_offset (p s : Z) : Z := p + s.

Definition chunksize (p : Z) : prog Z :=
  v ← load (size_ p); mret (Z.land v (Z.lnot SIZE_BITS)).
Definition set_head (p s : Z) : prog unit := store (size_ p) s.
Definition set_head_size (p s : Z) : prog unit :=
  v ← load (size_ p); store (size_ p) (Z.lor (Z.land v PREV_INUSE) s).
Definition set_foot (p s : Z) : prog unit := store (prev_size_ (p + s)) s.
Definition next_chunk (p : Z) : prog Z :=
  v ← load (size_ p); mret (p + Z.land v (Z.lnot PREV_INUSE)).
Definition prev_chunk (p : Z) : prog Z := v ← load (prev_size_ p); mret (p - v).
Definition prev_inuse (p : Z) : prog bool :=
  v ← load (size_ p); mret (negb (Z.land v PREV_INUSE =? 0)).
Definition inuse_bit_at_offset (p s : Z) : prog bool :=
  v ← load (size_ (p + s)); mret (negb (Z.land v PREV_INUSE =? 0)).
Definition inuse (p : Z) : prog bool :=
  v ← load (size_ p); inuse_bit_at_offset p (Z.land v (Z.lnot PREV_INUSE)).
Definition set_inuse_bit_at_offset (p s : Z) : prog unit :=
  v ← load (size_ (p + s)); store (size_ (p + s)) (Z.lor v PREV_INUSE).

(** ** Bins *)

Definition NAV : Z := 128.
Definition bin_at (i : Z) : Z := av + 8 * (2 * i + 2) - 2 * SIZE_SZ.
Definition next_bin (b : Z) : Z := b + 16.
Definition prev_bin (b : Z) : Z := b - 16.
Definition initial_top : Z := bin_at 0.
Definition last_remainder : Z := bin_at 1.
Definition first (b : Z) : prog Z := load (fd_ b).
Definition last (b : Z) : prog Z := load (bk_ b).
Definition get_top : prog Z := load (fd_ (bin_at 0)).
Definition set_top (p : Z) : prog unit := store (fd_ (bin_at 0)) p.

Definition MAX_SMALLBIN_SIZE : Z := 512.
Definition SMALLBIN_WIDTH : Z := 8.
Definition BINBLOCKWIDTH : Z := 4.

Definition bin_index (sz : Z) : Z :=
  if Z.shiftr sz 9 =? 0 then Z.shiftr sz 3
  else if Z.shiftr sz 9 <=? 4 then 56 + Z.shiftr sz 6
  else if Z.shiftr sz 9 <=? 20 then 91 + Z.shiftr sz 9
  else if Z.shiftr sz 9 <=? 84 then 110 + Z.shiftr sz 12
  else if Z.shiftr sz 9 <=? 340 then 119 + Z.shiftr sz 15
  else if Z.shiftr sz 9 <=? 1364 then 124 + Z.shiftr sz 18
  else 126.
Definition smallbin_index (sz : Z) : Z := Z.shiftr sz 3.
Definition is_small_request (nb : Z) : bool := nb <? MAX_SMALLBIN_SIZE - SMALLBIN_WIDTH.

Definition get_binblocks : prog Z := load (size_ (bin_at 0)).
Definition set_binblocks (v : Z) : prog unit := store (size_ (bin_at 0)) v.
Definition idx2binblock (ix : Z) : Z := Z.shiftl 1 (ix / BINBLOCKWIDTH).
Definition mark_binblock (ii : Z) : prog unit :=
  b ← get_binblocks; set_binblocks (Z.lor b (idx2binblock ii)).

(** ** Linking *)

(** The scan of frontlink for its place in a bin of large chunks. *)
Fixpoint frontlink_scan (fuel : nat) (BK S FD : Z) : prog Z :=
  if FD =? BK then mret FD
  else
    sz ← chunksize FD;
    if S <? sz then
      match fuel with
      | O => fail_with OutOfFuel
      | Datatypes.S fuel => FD ← load (fd_ FD); frontlink_scan fuel BK S FD
      end
    else mret FD.

Definition frontlink (fuel : nat) (P S : Z) : prog unit :=
  if S <? MAX_SMALLBIN_SIZE then
    let idx := smallbin_index S in
    mark_binblock idx;;
    let BK := bin_at idx in
    FD ← load (fd_ BK);
    store (bk_ P) BK;;
    store (fd_ P) FD;;
    store (fd_ BK) P;;
    store (bk_ FD) P
  else
    let idx := bin_index S in
    let BK := bin_at idx in
    FD ← load (fd_ BK);
    '(BK, FD) ← (if FD =? BK then mark_binblock idx;; mret (BK, FD)
                 else
                   FD ← frontlink_scan fuel BK S FD;
                   BK ← load (bk_ FD);
                   mret (BK, FD));
    store (bk_ P) BK;;
    store (fd_ P) FD;;
    store (fd_ BK) P;;
    store (bk_ FD) P.

Definition unlink (P : Z) : prog unit :=
  BK ← load (bk_ P);
  FD ← load (fd_ P);
  store (bk_ FD) BK;;
  store (fd_ BK) FD.

Definition link_last_remainder (P : Z) : prog unit :=
  store (bk_ last_remainder) P;;
  store (fd_ last_remainder) P;;
  store (bk_ P) last_remainder;;
  store (fd_ P) last_remainder.

Definition clear_last_remainder : prog unit :=
  store (bk_ last_remainder) last_remainder;;
  store (fd_ last_remainder) last_remainder.

(** ** MORECORE: _sbrk_r, which passes its argument to a function of an int

    The variable errno that _sbrk_r clears is its own, not the program's errno. *)

Definition sys_sbrk (incr : Z) (g : mvars) : Z * mvars :=
  let '(p, s) := sbrk (s32 incr) (msys g) in (p, with_sys s g).
Definition MORECORE (size : Z) : prog Z := callg (sys_sbrk size).

Definition set_ENOMEM : prog unit := setg (fun g => with_sys (set_errno ENOMEM (msys g)) g).

(** ** malloc_trim *)

Definition malloc_trim (pad : Z) : prog Z :=
  let pagesz := malloc_getpagesize in
  top ← get_top;
  top_size ← chunksize top;
  let extra := s64 ((u64 (top_size - pad - MINSIZE + (pagesz - 1)) / pagesz - 1) * pagesz) in
  if extra <? pagesz then mret 0
  else
    current_brk ← MORECORE 0;
    if negb (current_brk =? top + top_size) then mret 0
    else
      new_brk ← MORECORE (- extra);
      if new_brk =? MORECORE_FAILURE then
        current_brk ← MORECORE 0;
        let top_size := s64 (current_brk - top) in
        (if MINSIZE <=? top_size then
           setg (fun g => with_sbrked (u64 (current_brk - sbrk_base g)) g);;
           set_head top (Z.lor top_size PREV_INUSE)
         else mret tt);;
        mret 0
      else
        set_head top (Z.lor (top_size - extra) PREV_INUSE);;
        setg (fun g => with_sbrked (u64 (sbrked_mem g - extra)) g);;
        mret 1.

(** ** free *)

(** next is top: merge with it. *)
Definition free_into_top (p hd sz nextsz : Z) : prog unit :=
  let sz := u64 (sz + nextsz) in
  '(p, sz) ← (if Z.land hd PREV_INUSE =? 0 then
                prevsz ← load (prev_size_ p);
                let p := p - prevsz in
                unlink p;;
                mret (p, u64 (sz + prevsz))
              else mret (p, sz));
  set_head p (Z.lor sz PREV_INUSE);;
  set_top p;;
  trim ← getg trim_threshold;
  pad ← getg top_pad;
  if trim <=? sz then _ ← malloc_trim pad; mret tt else mret tt.

(** consolidate backward; the last result tells whether the chunk is the last
    remainder and stays it *)
Definition free_backward (p hd sz : Z) : prog (Z * Z * bool) :=
  if Z.land hd PREV_INUSE =? 0 then
    prevsz ← load (prev_size_ p);
    let p := p - prevsz in
    let sz := u64 (sz + prevsz) in
    fd ← load (fd_ p);
    if fd =? last_remainder then mret (p, sz, true)
    else unlink p;; mret (p, sz, false)
  else mret (p, sz, false).

(** consolidate forward *)
Definition free_forward (p sz next nextsz : Z) (islr : bool) : prog (Z * bool) :=
  used ← inuse_bit_at_offset next nextsz;
  if negb used then
    let sz := u64 (sz + nextsz) in
    fd ← load (fd_ next);
    if negb islr && (fd =? last_remainder) then
      link_last_remainder p;; mret (sz, true)
    else unlink next;; mret (sz, islr)
  else mret (sz, islr).

Definition free (fuel : nat) (mem : Z) : prog unit :=
  if mem =? 0 then mret tt
  else
    let p := mem2chunk mem in
    hd ← load (size_ p);
    let sz := Z.land hd (Z.lnot PREV_INUSE) in
    let next := chunk_at_offset p sz in
    nextsz ← chunksize next;
    top ← get_top;
    if next =? top then free_into_top p hd sz nextsz
    else
      set_head next nextsz;;
      '(p, sz, islr) ← free_backward p hd sz;
      '(sz, islr) ← free_forward p sz next nextsz islr;
      set_head p (Z.lor sz PREV_INUSE);;
      set_foot p sz;;
      if negb islr then frontlink fuel p sz else mret tt.

(** cfree *)
Definition cfree (fuel : nat) (mem : Z) : prog unit := free fuel mem.

(** ** malloc *)

Definition page_mask_up (n : Z) : Z :=
  Z.land (u64 (n + (malloc_getpagesize - 1))) (Z.lnot (malloc_getpagesize - 1)).

Definition update_max : prog unit :=
  setg (fun g =>
    with_max (if max_sbrked_mem g <? sbrked_mem g then sbrked_mem g else max_sbrked_mem g)
             (if max_total_mem g <? sbrked_mem g then sbrked_mem g else max_total_mem g) g).

(** The branch for new space that does not continue the old top. *)
Definition extend_elsewhere (fuel : nat) (old_top old_top_size old_end sbrk_size brk : Z)
    : prog unit :=
  let pagesz := malloc_getpagesize in
  setg (fun g => if sbrk_base g =? u64 (-1) then with_base brk g
                 else with_sbrked (u64 (sbrked_mem g + (brk - old_end))) g);;
  let front_misalign := Z.land (chunk2mem brk) MALLOC_ALIGN_MASK in
  let '(correction, brk) :=
    if 0 <? front_misalign
    then (MALLOC_ALIGNMENT - front_misalign, brk + (MALLOC_ALIGNMENT - front_misalign))
    else (0, brk) in
  let correction :=
    u64 (correction + (pagesz - Z.land (u64 (brk + sbrk_size)) (pagesz - 1))) in
  let correction := Z.land correction (pagesz - 1) in
  new_brk ← MORECORE correction;
  let '(correction, new_brk) :=
    if new_brk =? MORECORE_FAILURE
    then (0, brk + sbrk_size -
             (if 0 <? front_misalign then MALLOC_ALIGNMENT - front_misalign else 0))
    else (correction, new_brk) in
  setg (fun g => with_sbrked (u64 (sbrked_mem g + correction)) g);;
  set_top brk;;
  let top_size := u64 (new_brk - brk + correction) in
  set_head brk (Z.lor top_size PREV_INUSE);;
  if negb (old_top =? initial_top) then
    if old_top_size <? MINSIZE then set_head brk PREV_INUSE
    else
      let old_top_size := Z.land (old_top_size - 3 * SIZE_SZ) (Z.lnot MALLOC_ALIGN_MASK) in
      set_head_size old_top old_top_size;;
      store (size_ (old_top + old_top_size)) (Z.lor SIZE_SZ PREV_INUSE);;
      store (size_ (old_top + (old_top_size + SIZE_SZ))) (Z.lor SIZE_SZ PREV_INUSE);;
      (if MINSIZE <=? old_top_size then free fuel (chunk2mem old_top) else mret tt);;
      update_max
  else update_max.

Definition malloc_extend_top (fuel : nat) (nb : Z) : prog unit :=
  let pagesz := malloc_getpagesize in
  old_top ← get_top;
  old_top_size ← chunksize old_top;
  let old_end := old_top + old_top_size in
  pad ← getg top_pad;
  base ← getg sbrk_base;
  let sbrk_size := u64 (nb + pad + MINSIZE) in
  let sbrk_size := if negb (base =? u64 (-1)) then page_mask_up sbrk_size else sbrk_size in
  brk ← MORECORE sbrk_size;
  if (brk =? MORECORE_FAILURE) || ((brk <? old_end) && negb (old_top =? initial_top))
  then mret tt
  else
    setg (fun g => with_sbrked (u64 (sbrked_mem g + sbrk_size)) g);;
    if (brk =? old_end) && (Z.land old_end (pagesz - 1) =? 0) then
      let top_size := u64 (sbrk_size + old_top_size) in
      set_head old_top (Z.lor top_size PREV_INUSE);;
      update_max
    else extend_elsewhere fuel old_top old_top_size old_end sbrk_size brk.

(** Where the search of malloc stands: a result, or the bin to go on from. *)
Inductive searched : Type := Taken (mem : Z) | Resume (idx : Z).

(** Take a free chunk whole. *)
Definition take_chunk (victim victim_size : Z) : prog Z :=
  unlink victim;;
  set_inuse_bit_at_offset victim victim_size;;
  mret (chunk2mem victim).

(** The scan of the request's own bin, for large requests. *)
Fixpoint exact_scan (fuel : nat) (nb idx bin victim : Z) : prog searched :=
  if victim =? bin then mret (Resume (idx + 1))
  else
    match fuel with
    | O => fail_with OutOfFuel
    | S fuel =>
        victim_size ← chunksize victim;
        let remainder_size := long_sub_size_t victim_size nb in
        if MINSIZE <=? remainder_size then mret (Resume (idx - 1 + 1))
        else if 0 <=? remainder_size then mem ← take_chunk victim victim_size; mret (Taken mem)
        else victim ← load (bk_ victim); exact_scan fuel nb idx bin victim
    end.

(** Check for exact match in a bin *)
Definition exact_fit (fuel : nat) (nb : Z) : prog searched :=
  if is_small_request nb then
    let idx := smallbin_index nb in
    let q := bin_at idx in
    victim ← last q;
    '(q, victim) ← (if victim =? q then
                      let q := next_bin q in
                      victim ← last q; mret (q, victim)
                    else mret (q, victim));
    if negb (victim =? q) then
      victim_size ← chunksize victim;
      mem ← take_chunk victim victim_size;
      mret (Taken mem)
    else mret (Resume (idx + 2))
  else
    let idx := bin_index nb in
    let bin := bin_at idx in
    victim ← last bin;
    exact_scan fuel nb idx bin victim.

(** Split a chunk: its front is returned, the rest is the last remainder. *)
Definition set_remainder (remainder remainder_size : Z) : prog unit :=
  link_last_remainder remainder;;
  set_head remainder (Z.lor remainder_size PREV_INUSE);;
  set_foot remainder remainder_size.

(** Try to use the last split-off remainder *)
Definition use_last_remainder (fuel : nat) (nb : Z) : prog (option Z) :=
  victim ← load (fd_ last_remainder);
  if victim =? last_remainder then mret None
  else
    victim_size ← chunksize victim;
    let remainder_size := long_sub_size_t victim_size nb in
    if MINSIZE <=? remainder_size then
      let remainder := chunk_at_offset victim nb in
      set_head victim (Z.lor nb PREV_INUSE);;
      set_remainder remainder remainder_size;;
      mret (Some (chunk2mem victim))
    else
      clear_last_remainder;;
      if 0 <=? remainder_size then
        set_inuse_bit_at_offset victim victim_size;;
        mret (Some (chunk2mem victim))
      else
        frontlink fuel victim victim_size;;
        mret None.

(** Find and use first big enough chunk of a bin *)
Fixpoint scan_bin (fuel : nat) (nb bin victim : Z) : prog (option Z) :=
  if victim =? bin then mret None
  else
    match fuel with
    | O => fail_with OutOfFuel
    | S fuel =>
        victim_size ← chunksize victim;
        let remainder_size := long_sub_size_t victim_size nb in
        if MINSIZE <=? remainder_size then
          let remainder := chunk_at_offset victim nb in
          set_head victim (Z.lor nb PREV_INUSE);;
          unlink victim;;
          set_remainder remainder remainder_size;;
          mret (Some (chunk2mem victim))
        else if 0 <=? remainder_size then
          set_inuse_bit_at_offset victim victim_size;;
          unlink victim;;
          mret (Some (chunk2mem victim))
        else victim ← load (bk_ victim); scan_bin fuel nb bin victim
    end.

(** For each bin in this block: the do-while loop runs at most BINBLOCKWIDTH times. *)
Fixpoint scan_block (n : nat) (fuel : nat) (nb bin idx : Z) : prog searched :=
  match n with
  | O => fail_with OutOfFuel
  | S n =>
      victim ← last bin;
      r ← scan_bin fuel nb bin victim;
      match r with
      | Some mem => mret (Taken mem)
      | None =>
          let bin := next_bin bin in
          let idx := idx + 1 in
          if negb (Z.land idx (BINBLOCKWIDTH - 1) =? 0) then scan_block n fuel nb bin idx
          else mret (Resume idx)
      end
  end.

(** Clear out the block bit, backtracking over empty bins of a partial block. *)
Fixpoint clear_block (n : nat) (block q startidx : Z) : prog unit :=
  match n with
  | O => fail_with OutOfFuel
  | S n =>
      if Z.land startidx (BINBLOCKWIDTH - 1) =? 0 then
        b ← get_binblocks; set_binblocks (Z.land b (Z.lnot block))
      else
        let startidx := startidx - 1 in
        let q := prev_bin q in
        f ← first q;
        if f =? q then clear_block n block q startidx else mret tt
  end.

(** Get to the next marked block. *)
Fixpoint next_block (n : nat) (binblocks block idx : Z) : prog (Z * Z) :=
  if Z.land block binblocks =? 0 then
    match n with
    | O => fail_with OutOfFuel
    | S n => next_block n binblocks (u64 (Z.shiftl block 1)) (idx + BINBLOCKWIDTH)
    end
  else mret (block, idx).

(** For each possibly nonempty block; [n] bounds the number of blocks. *)
Fixpoint search_blocks (n : nat) (fuel : nat) (nb block idx : Z) : prog (option Z) :=
  match n with
  | O => fail_with OutOfFuel
  | S n =>
      let startidx := idx in
      let q := bin_at idx in
      r ← scan_block 4 fuel nb q idx;
      match r with
      | Taken mem => mret (Some mem)
      | Resume idx =>
          clear_block 4 block q startidx;;
          let block := u64 (Z.shiftl block 1) in
          binblocks ← get_binblocks;
          if (block <=? binblocks) && negb (block =? 0) then
            '(block, idx) ← next_block 64 binblocks block idx;
            search_blocks n fuel nb block idx
          else mret None
      end
  end.

Definition search_bins (fuel : nat) (nb idx : Z) : prog (option Z) :=
  let block := idx2binblock idx in
  binblocks ← get_binblocks;
  if block <=? binblocks then
    '(block, idx) ←
      (if Z.land block binblocks =? 0 then
         next_block 64 binblocks (u64 (Z.shiftl block 1))
           (Z.land idx (Z.lnot (BINBLOCKWIDTH - 1)) + BINBLOCKWIDTH)
       else mret (block, idx));
    search_blocks 64 fuel nb block idx
  else mret None.

(** Try to use top chunk *)
Definition use_top (fuel : nat) (nb : Z) : prog Z :=
  top ← get_top;
  tsz ← chunksize top;
  let remainder_size := long_sub_size_t tsz nb in
  enough ← (if (tsz <? nb) || (remainder_size <? MINSIZE) then
              malloc_extend_top fuel nb;;
              top ← get_top;
              tsz ← chunksize top;
              let remainder_size := long_sub_size_t tsz nb in
              if (tsz <? nb) || (remainder_size <? MINSIZE) then mret None
              else mret (Some remainder_size)
            else mret (Some remainder_size));
  match enough with
  | None => mret 0
  | Some remainder_size =>
      victim ← get_top;
      set_head victim (Z.lor nb PREV_INUSE);;
      let top := chunk_at_offset victim nb in
      set_top top;;
      set_head top (Z.lor remainder_size PREV_INUSE);;
      mret (chunk2mem victim)
  end.

Definition malloc (fuel : nat) (bytes : Z) : prog Z :=
  let nb := request2size bytes in
  if (INT_MAX <? nb) || (nb <? bytes) then set_ENOMEM;; mret 0
  else
    r ← exact_fit fuel nb;
    match r with
    | Taken mem => mret mem
    | Resume idx =>
        r ← use_last_remainder fuel nb;
        match r with
        | Some mem => mret mem
        | None =>
            r ← search_bins fuel nb idx;
            match r with
            | Some mem => mret mem
            | None => use_top fuel nb
            end
        end
    end.

(** ** realloc *)

(** MALLOC_COPY and MALLOC_ZERO on whole words.  Up to nine words are copied one
    by one as here; more by memmove, upwards as well, since the destination never
    lies inside the source above its start. *)
Fixpoint copy_words (n : nat) (dest src : Z) : prog unit :=
  match n with
  | O => mret tt
  | S n => v ← load src; store dest v;; copy_words n (dest + 8) (src + 8)
  end.
Definition MALLOC_COPY (dest src nbytes : Z) : prog unit :=
  copy_words (Z.to_nat (nbytes / SIZE_SZ)) dest src.

Fixpoint zero_words (n : nat) (dest : Z) : prog unit :=
  match n with
  | O => mret tt
  | S n => store dest 0;; zero_words n (dest + 8)
  end.
Definition MALLOC_ZERO (charp nbytes : Z) : prog unit :=
  zero_words (Z.to_nat (nbytes / SIZE_SZ)) charp.

(** split: split off extra room in old or expanded chunk *)
Definition realloc_split (fuel : nat) (newp newsize nb : Z) : prog Z :=
  let remainder_size := long_sub_size_t newsize nb in
  (if MINSIZE <=? remainder_size then
     let remainder := chunk_at_offset newp nb in
     set_head_size newp nb;;
     set_head remainder (Z.lor remainder_size PREV_INUSE);;
     set_inuse_bit_at_offset remainder remainder_size;;
     free fuel (chunk2mem remainder)
   else
     set_head_size newp newsize;;
     set_inuse_bit_at_offset newp newsize);;
  mret (chunk2mem newp).

(** What an attempt to grow the chunk in place leads to. *)
Inductive grown : Type :=
| Returned (mem : Z)                 (* return mem *)
| GotoSplit (newp newsize : Z)       (* goto split *)
| GoOn (next nextsize : Z).          (* go on with these values *)

(** Try expanding forward *)
Definition realloc_forward (oldp oldsize nb : Z) : prog grown :=
  let next := chunk_at_offset oldp oldsize in
  top ← get_top;
  usable ← (if next =? top then mret true else u ← inuse next; mret (negb u));
  if (usable : bool) then
    nextsize ← chunksize next;
    if next =? top then
      if s64 (nb + MINSIZE) <=? s64 (nextsize + oldsize) then
        let newsize := u64 (oldsize + nextsize) in
        let top := chunk_at_offset oldp nb in
        set_top top;;
        set_head top (Z.lor (newsize - nb) PREV_INUSE);;
        set_head_size oldp nb;;
        mret (Returned (chunk2mem oldp))
      else mret (GoOn next nextsize)
    else if s64 nb <=? s64 (nextsize + oldsize) then
      unlink next;;
      mret (GotoSplit oldp (u64 (oldsize + nextsize)))
    else mret (GoOn next nextsize)
  else mret (GoOn 0 0).

(** Try shifting backwards. *)
Definition realloc_backward (oldmem oldp oldsize nb next nextsize : Z) : prog grown :=
  pinuse ← prev_inuse oldp;
  if (pinuse : bool) then mret (GoOn next nextsize)
  else
    prev ← prev_chunk oldp;
    prevsize ← chunksize prev;
    top ← get_top;
    if negb (next =? 0) && (next =? top) &&
       (s64 (nb + MINSIZE) <=? s64 (nextsize + prevsize + oldsize)) then
      unlink prev;;
      let newsize := u64 (oldsize + (prevsize + nextsize)) in
      let newmem := chunk2mem prev in
      MALLOC_COPY newmem oldmem (oldsize - SIZE_SZ);;
      let top := chunk_at_offset prev nb in
      set_top top;;
      set_head top (Z.lor (newsize - nb) PREV_INUSE);;
      set_head_size prev nb;;
      mret (Returned newmem)
    else if negb (next =? 0) && negb (next =? top) &&
            (s64 nb <=? s64 (nextsize + prevsize + oldsize)) then
      unlink next;;
      unlink prev;;
      MALLOC_COPY (chunk2mem prev) oldmem (oldsize - SIZE_SZ);;
      mret (GotoSplit prev (u64 (oldsize + (nextsize + prevsize))))
    else if negb (prev =? 0) && (s64 nb <=? s64 (prevsize + oldsize)) then
      unlink prev;;
      MALLOC_COPY (chunk2mem prev) oldmem (oldsize - SIZE_SZ);;
      mret (GotoSplit prev (u64 (oldsize + prevsize)))
    else mret (GoOn next nextsize).

(** Must allocate *)
Definition realloc_move (fuel : nat) (oldmem oldp oldsize bytes nb : Z) : prog Z :=
  newmem ← malloc fuel bytes;
  if newmem =? 0 then mret 0
  else
    let newp := mem2chunk newmem in
    nxt ← next_chunk oldp;
    if newp =? nxt then
      sz ← chunksize newp;
      realloc_split fuel oldp (u64 (oldsize + sz)) nb
    else
      MALLOC_COPY newmem oldmem (oldsize - SIZE_SZ);;
      free fuel oldmem;;
      mret newmem.

Definition realloc (fuel : nat) (oldmem bytes : Z) : prog Z :=
  if oldmem =? 0 then malloc fuel bytes
  else
    let oldp := mem2chunk oldmem in
    oldsize ← chunksize oldp;
    let nb := request2size bytes in
    if (INT_MAX <? nb) || (nb <? bytes) then set_ENOMEM;; mret 0
    else if s64 oldsize <? s64 nb then
      r ← realloc_forward oldp oldsize nb;
      match r with
      | Returned mem => mret mem
      | GotoSplit newp newsize => realloc_split fuel newp newsize nb
      | GoOn next nextsize =>
          r ← realloc_backward oldmem oldp oldsize nb next nextsize;
          match r with
          | Returned mem => mret mem
          | GotoSplit newp newsize => realloc_split fuel newp newsize nb
          | GoOn _ _ => realloc_move fuel oldmem oldp oldsize bytes nb
          end
      end
    else realloc_split fuel oldp oldsize nb.

(** ** memalign, valloc, pvalloc, calloc *)

(** Give back the leader of a misaligned chunk. *)
Definition memalign_lead (fuel : nat) (m p alignment : Z) : prog Z :=
  if m mod alignment =? 0 then mret p
  else
    let brk := mem2chunk (Z.land (u64 (m + alignment - 1)) (- alignment)) in
    let brk := if s64 (brk - p) <? MINSIZE then brk + alignment else brk in
    let newp := brk in
    let leadsize := u64 (brk - p) in
    psz ← chunksize p;
    let newsize := u64 (psz - leadsize) in
    set_head newp (Z.lor newsize PREV_INUSE);;
    set_inuse_bit_at_offset newp newsize;;
    set_head_size p leadsize;;
    free fuel (chunk2mem p);;
    mret newp.

(** Also give back spare room at the end. *)
Definition memalign_tail (fuel : nat) (p nb : Z) : prog Z :=
  psz ← chunksize p;
  let remainder_size := long_sub_size_t psz nb in
  (if MINSIZE <=? remainder_size then
     let remainder := chunk_at_offset p nb in
     set_head remainder (Z.lor remainder_size PREV_INUSE);;
     set_head_size p nb;;
     free fuel (chunk2mem remainder)
   else mret tt);;
  mret (chunk2mem p).

Definition memalign (fuel : nat) (alignment bytes : Z) : prog Z :=
  if alignment <=? MALLOC_ALIGNMENT then malloc fuel bytes
  else
    let alignment := if alignment <? MINSIZE then MINSIZE else alignment in
    let nb := request2size bytes in
    if (INT_MAX <? nb) || (nb <? bytes) then set_ENOMEM;; mret 0
    else
      m ← malloc fuel (u64 (nb + alignment + MINSIZE));
      if m =? 0 then mret 0
      else
        p ← memalign_lead fuel m (mem2chunk m) alignment;
        memalign_tail fuel p nb.

Definition valloc (fuel : nat) (bytes : Z) : prog Z := memalign fuel malloc_getpagesize bytes.
Definition pvalloc (fuel : nat) (bytes : Z) : prog Z :=
  memalign fuel malloc_getpagesize (page_mask_up bytes).

Definition calloc (fuel : nat) (n elem_size : Z) : prog Z :=
  let sz := u64 (n * elem_size) in
  mem ← malloc fuel sz;
  if mem =? 0 then mret 0
  else
    let p := mem2chunk mem in
    csz ← chunksize p;
    MALLOC_ZERO mem (csz - SIZE_SZ);;
    mret mem.

(** ** Queries and tuning *)

Definition malloc_usable_size (mem : Z) : prog Z :=
  if mem =? 0 then mret 0
  else
    let p := mem2chunk mem in
    v ← load (size_ p);
    if Z.land v 2 =? 0 then
      u ← inuse p;
      if (u : bool) then sz ← chunksize p; mret (u64 (sz - SIZE_SZ)) else mret 0
    else sz ← chunksize p; mret (u64 (sz - 2 * SIZE_SZ)).

(** The free chunks of a bin: their bytes and number added to [avail] and [navail]. *)
Fixpoint count_bin (fuel : nat) (b p avail navail : Z) : prog (Z * Z) :=
  if p =? b then mret (avail, navail)
  else
    match fuel with
    | O => fail_with OutOfFuel
    | S fuel =>
        sz ← chunksize p;
        p ← load (bk_ p);
        count_bin fuel b p (u64 (avail + sz)) (s32 (navail + 1))
    end.

(** for (i = 1; i < NAV; ++i), with [n] bins left *)
Fixpoint count_bins (n fuel : nat) (i avail navail : Z) : prog (Z * Z) :=
  match n with
  | O => mret (avail, navail)
  | S n =>
      let b := bin_at i in
      p ← last b;
      '(avail, navail) ← count_bin fuel b p avail navail;
      count_bins n fuel (i + 1) avail navail
  end.

Definition malloc_update_mallinfo (fuel : nat) : prog unit :=
  top ← get_top;
  avail ← chunksize top;
  let navail := if s64 MINSIZE <=? s64 avail then 1 else 0 in
  '(avail, navail) ← count_bins 127 fuel 1 avail navail;
  top ← get_top;
  keep ← chunksize top;
  setg (fun g => with_info (Mallinfo (u64 navail) (u64 (sbrked_mem g - avail)) avail keep) g).

(** mallinfo: the field arena, and the others. *)
Definition get_mallinfo (fuel : nat) : prog (Z * mallinfo) :=
  malloc_update_mallinfo fuel;;
  getg (fun g => (sbrked_mem g, current_mallinfo g)).

Definition M_TRIM_THRESHOLD : Z := -1.
Definition M_TOP_PAD : Z := -2.
Definition M_MMAP_THRESHOLD : Z := -3.
Definition M_MMAP_MAX : Z := -4.

Definition mallopt (param_number value : Z) : prog Z :=
  if param_number =? M_TRIM_THRESHOLD then
    setg (fun g => with_tuning (u64 value) (top_pad g) g);; mret 1
  else if param_number =? M_TOP_PAD then
    setg (fun g => with_tuning (trim_threshold g) (u64 value) g);; mret 1
  else if param_number =? M_MMAP_THRESHOLD then mret 1
  else if param_number =? M_MMAP_MAX then mret (if value =? 0 then 1 else 0)
  else mret 0.

End Malloc.
