(* ===== verification/MallocLocal.v ===== *)
(** The allocator in a guest with less memory than the heap may take.  sbrk of the guest's
    library gives out addresses up to 4 MB whatever the size of the virtine's memory; where
    words of the heap are missing, a call of the allocator either does what it does with
    the whole heap or faults: [local]. *)

From S2P Require Import Prelude Kvm HeapLogic GuestSys Malloc.

Section Local.
Context {G : Type}.
Abbreviation prog := (M (wheap * G)).

(** With the words [h0] of [h], the computation [c] has the outcome it has with all of
    them, on the words there are, unless it faults. *)
Definition local {A} (c : prog A) : Prop := forall h0 h g, h0 ⊆ h ->
  match c (h0, g) with
  | Ok (a, (h0', g')) => dom h0' = dom h0 /\ exists h', c (h, g) = Ok (a, (h', g')) /\ h0' ⊆ h'
  | Err Fault => True
  | Err e => c (h, g) = Err e
  end.

Lemma local_ret {A} (a : A) : local (mret a).
Proof. intros h0 h g Hs. cbn. split; [done|]. by exists h. Qed.

Lemma local_fail {A} e : local (fail_with e : prog A).
Proof. intros h0 h g Hs. cbn. by destruct e. Qed.

Lemma local_bind {A B} (c : prog A) (k : A -> prog B) : local c -> (forall a, local (k a)) -> local (c ≫= k).
Proof.
  intros Hc Hk h0 h g Hs. specialize (Hc h0 h g Hs). unfold_M.
  destruct (c (h0, g)) as [[a [h1 g1]]|e].
  - destruct Hc as (Hd & h' & -> & Hs'). specialize (Hk a h1 h' g1 Hs').
    destruct (k a (h1, g1)) as [[b [h2 g2]]|e]; [|by destruct e]. destruct Hk as (Hd2 & Hk). split; [congruence|done].
  - destruct e; try done; by rewrite Hc.
Qed.

Lemma local_load a : local (load a).
Proof.
  intros h0 h g Hs. unfold load. cbn. destruct (h0 !! a) as [v|] eqn:E; [|done].
  rewrite (lookup_weaken _ _ _ _ E Hs). split; [done|]. by exists h.
Qed.

Lemma local_store a v : local (store a v).
Proof.
  intros h0 h g Hs. unfold store. cbn. destruct (h0 !! a) as [x|] eqn:E; [|done].
  rewrite (lookup_weaken _ _ _ _ E Hs). split; [by rewrite dom_insert_lookup_L|].
  eexists. split; [done|]. by apply insert_mono.
Qed.

Lemma local_getg {A} (f : G -> A) : local (getg f).
Proof. intros h0 h g Hs. cbn. split; [done|]. by exists h. Qed.
Lemma local_setg f : local (setg f).
Proof. intros h0 h g Hs. cbn. split; [done|]. by exists h. Qed.
Lemma local_callg {A} (f : G -> A * G) : local (callg f).
Proof. intros h0 h g Hs. unfold callg. cbn. destruct (f g). split; [done|]. by exists h. Qed.

(** A call that returns with the whole heap. *)
Lemma local_outcome {A} (c : prog A) h0 h g a h' g' : local c -> h0 ⊆ h -> c (h, g) = Ok (a, (h', g')) ->
  c (h0, g) = Err Fault \/
  exists h0', c (h0, g) = Ok (a, (h0', g')) /\ h0' ⊆ h' /\ dom h0' = dom h0.
Proof.
  intros Hc Hs E. specialize (Hc h0 h g Hs). rewrite E in Hc.
  destruct (c (h0, g)) as [[b [h1 g1]]|e]; [|left; by destruct e].
  destruct Hc as (Hd & h2 & [= <- <- <-] & Hs'). right. by exists h1.
Qed.
End Local.

Create HintDb local_calls.
#[export] Hint Resolve local_ret local_fail local_load local_store local_getg local_setg local_callg : local_calls.

(** Follow a computation down to its accesses. *)
Ltac local_step :=
  match goal with
  | |- local (_ ≫= _) => apply local_bind; [|intros ?]
  | |- local (if ?b then _ else _) => destruct b
  | |- local (let '(_, _) := ?p in _) => destruct p
  | |- local (match ?x with _ => _ end) => destruct x
  | |- local _ => solve [auto with local_calls]
  | |- forall _, _ => intros ?
  end.
Ltac solve_local := repeat local_step.

Section MallocLocal.
Context {X : Type} (av : Z).
Abbreviation is_local c := (local (G := @mvars X) c).

Lemma local_mark ii : is_local (mark_binblock av ii).
Proof. unfold mark_binblock, get_binblocks, set_binblocks. solve_local. Qed.

Lemma local_frontlink_scan fuel BK S FD : is_local (frontlink_scan fuel BK S FD).
Proof. revert FD. induction fuel as [|fuel IH]; intros FD; cbn; unfold chunksize; solve_local. Qed.

Lemma local_frontlink fuel P S : is_local (frontlink av fuel P S).
Proof. unfold frontlink. solve_local; auto using local_mark, local_frontlink_scan. Qed.

Lemma local_unlink P : is_local (unlink P).
Proof. unfold unlink. solve_local. Qed.

Lemma local_link_last_remainder P : is_local (link_last_remainder av P).
Proof. unfold link_last_remainder. solve_local. Qed.

Lemma local_trim pad : is_local (malloc_trim av pad).
Proof. unfold malloc_trim, get_top, chunksize, MORECORE, set_head. solve_local. Qed.
End MallocLocal.

#[export] Hint Resolve local_mark local_frontlink local_unlink local_link_last_remainder local_trim : local_calls.

Section CallsLocal.
Context {X : Type} (av : Z).
Abbreviation is_local c := (local (G := @mvars X) c).

Lemma local_free fuel mem : is_local (free av fuel mem).
Proof.
  unfold free, free_into_top, free_backward, free_forward, get_top, set_top, chunksize, set_head, set_foot,
    inuse_bit_at_offset. solve_local.
Qed.
#[local] Hint Resolve local_free : local_calls.

Lemma local_extend_top fuel nb : is_local (malloc_extend_top av fuel nb).
Proof.
  unfold malloc_extend_top, extend_elsewhere, update_max, get_top, set_top, chunksize, set_head, set_head_size, MORECORE. solve_local.
Qed.
#[local] Hint Resolve local_extend_top : local_calls.

Lemma local_take_chunk victim size : is_local (take_chunk victim size).
Proof. unfold take_chunk, set_inuse_bit_at_offset. solve_local. Qed.
#[local] Hint Resolve local_take_chunk : local_calls.

Lemma local_exact_scan fuel nb idx bin victim : is_local (exact_scan fuel nb idx bin victim).
Proof. revert victim. induction fuel as [|fuel IH]; intros victim; cbn; unfold chunksize; solve_local. Qed.
#[local] Hint Resolve local_exact_scan : local_calls.

Lemma local_exact_fit fuel nb : is_local (exact_fit av fuel nb).
Proof. unfold exact_fit, last, chunksize. solve_local. Qed.

Lemma local_use_last_remainder fuel nb : is_local (use_last_remainder av fuel nb).
Proof.
  unfold use_last_remainder, set_remainder, clear_last_remainder, set_head, set_foot, set_inuse_bit_at_offset, chunksize. solve_local.
Qed.

Lemma local_scan_bin fuel nb bin victim : is_local (scan_bin av fuel nb bin victim).
Proof.
  revert victim. induction fuel as [|fuel IH]; intros victim; cbn;
    unfold set_remainder, set_head, set_foot, set_inuse_bit_at_offset, chunksize; solve_local.
Qed.
#[local] Hint Resolve local_scan_bin : local_calls.

Lemma local_scan_block n fuel nb bin idx : is_local (scan_block av n fuel nb bin idx).
Proof. revert bin idx. induction n as [|n IH]; intros bin idx; cbn; unfold last; solve_local. Qed.

Lemma local_clear_block n block q startidx : is_local (clear_block av n block q startidx).
Proof.
  revert q startidx. induction n as [|n IH]; intros q startidx; cbn; unfold get_binblocks, set_binblocks, first; solve_local.
Qed.

Lemma local_next_block n binblocks block idx : is_local (next_block n binblocks block idx).
Proof. revert block idx. induction n as [|n IH]; intros block idx; cbn; solve_local. Qed.
#[local] Hint Resolve local_scan_block local_clear_block local_next_block : local_calls.

Lemma local_search_blocks n fuel nb block idx : is_local (search_blocks av n fuel nb block idx).
Proof.
  revert block idx. induction n as [|n IH]; intros block idx; cbn [search_blocks]; unfold get_binblocks; solve_local.
Qed.
#[local] Hint Resolve local_search_blocks : local_calls.

Lemma local_search_bins fuel nb idx : is_local (search_bins av fuel nb idx).
Proof. unfold search_bins, get_binblocks. solve_local. Qed.

Lemma local_use_top fuel nb : is_local (use_top av fuel nb).
Proof. unfold use_top, get_top, set_top, set_head, chunksize. solve_local. Qed.
#[local] Hint Resolve local_exact_fit local_use_last_remainder local_search_bins local_use_top : local_calls.

Lemma local_malloc fuel bytes : is_local (malloc av fuel bytes).
Proof. unfold malloc, set_ENOMEM. solve_local. Qed.
#[local] Hint Resolve local_malloc : local_calls.

Lemma local_copy_words n dest src : is_local (copy_words n dest src).
Proof. revert dest src. induction n as [|n IH]; intros dest src; cbn; solve_local. Qed.

Lemma local_zero_words n dest : is_local (zero_words n dest).
Proof. revert dest. induction n as [|n IH]; intros dest; cbn; solve_local. Qed.
#[local] Hint Resolve local_copy_words local_zero_words : local_calls.

Lemma local_realloc_split fuel newp newsize nb : is_local (realloc_split av fuel newp newsize nb).
Proof. unfold realloc_split, set_head_size, set_head, set_inuse_bit_at_offset. solve_local. Qed.

Lemma local_realloc_forward oldp oldsize nb : is_local (realloc_forward av oldp oldsize nb).
Proof.
  unfold realloc_forward, get_top, set_top, set_head, set_head_size, chunksize, inuse, inuse_bit_at_offset. solve_local.
Qed.

Lemma local_realloc_backward oldmem oldp oldsize nb next nextsize :
  is_local (realloc_backward av oldmem oldp oldsize nb next nextsize).
Proof.
  unfold realloc_backward, prev_inuse, prev_chunk, get_top, set_top, set_head, set_head_size, chunksize, MALLOC_COPY. solve_local.
Qed.
#[local] Hint Resolve local_realloc_split local_realloc_forward local_realloc_backward : local_calls.

Lemma local_realloc fuel oldmem bytes : is_local (realloc av fuel oldmem bytes).
Proof. unfold realloc, realloc_move, set_ENOMEM, next_chunk, chunksize, MALLOC_COPY. solve_local. Qed.

Lemma local_memalign fuel alignment bytes : is_local (memalign av fuel alignment bytes).
Proof.
  unfold memalign, memalign_lead, memalign_tail, set_ENOMEM, chunksize, set_head, set_head_size, set_inuse_bit_at_offset. solve_local.
Qed.

Lemma local_calloc fuel n elem_size : is_local (calloc av fuel n elem_size).
Proof. unfold calloc, chunksize, MALLOC_ZERO. solve_local. Qed.
End CallsLocal.

#[export] Hint Resolve local_free local_malloc local_realloc local_memalign local_calloc : local_calls.
