(* ===== verification/MallocInv.v ===== *)
(** The shape of the allocator's memory: free lists, the row of chunks, bins.

    Assertions of the logic of file HeapLogic about the data structures of file
    Malloc, and the specifications of the linking macros. *)

From iris.proofmode Require Import proofmode.
From S2P Require Import Prelude HeapLogic GuestSys Malloc.

(** Linear arithmetic with remainders by constants. *)
Ltac mlia := Z.to_euclidean_division_equations; lia.

(** Split the conjunctions that are written out in the goal. *)
Ltac conjs := repeat match goal with |- _ /\ _ => split end.

(** Case analysis on an integer test of the goal. *)
Ltac zcase :=
  match goal with
  | |- context [?a =? ?b] => destruct (a =? b) eqn:?
  | |- context [?a <=? ?b] => destruct (a <=? b) eqn:?
  | |- context [?a <? ?b] => destruct (a <? b) eqn:?
  end.

(** Facts about the quotients of [sz] for lia. *)
Ltac quotients sz :=
  repeat match goal with
  | |- context [sz / ?n] =>
      lazymatch goal with
      | _ : sz = n * (sz / n) + sz mod n |- _ => fail
      | _ => pose proof (Z.div_mod sz n ltac:(lia)); pose proof (Z.mod_pos_bound sz n ltac:(lia));
             let q := fresh "q" in set (q := sz / n) in *; clearbody q
      end
  end.

(** ** Doubly linked lists *)

(** One link: the forward pointer of [y] and the backward pointer of [z]. *)
Definition edge (y z : Z) : hprop := (fd_ y ↦ z ∗ bk_ z ↦ y)%I.

(** The links of a walk from [y] along [l]. *)
Fixpoint path (y : Z) (l : list Z) : hprop :=
  match l with
  | [] => emp
  | z :: l => edge y z ∗ path z l
  end%I.

Definition ring (b : Z) (xs : list Z) : hprop := path b (xs ++ [b]).

(** The end of a walk. *)
Fixpoint lastd (y : Z) (l : list Z) : Z :=
  match l with
  | [] => y
  | x :: l => lastd x l
  end.

Lemma lastd_snoc y l x : lastd y (l ++ [x]) = x.
Proof. revert y. induction l as [|z l IH]; intros y; [done|]. apply IH. Qed.

Lemma path_app y l1 l2 : path y (l1 ++ l2) ⊣⊢ path y l1 ∗ path (lastd y l1) l2.
Proof.
  revert y. induction l1 as [|x l1 IH]; intros y; cbn; [by rewrite bi.emp_sep|].
  by rewrite IH bi.sep_assoc.
Qed.

(** A ring without the link between its two parts. *)
Definition cut (b : Z) (l1 l2 : list Z) : hprop :=
  (path b l1 ∗ path (hd b l2) (tl (l2 ++ [b])))%I.

Lemma ring_cut b l1 l2 :
  ring b (l1 ++ l2) ⊣⊢ edge (lastd b l1) (hd b l2) ∗ cut b l1 l2.
Proof.
  rewrite /ring /cut -app_assoc path_app. destruct l2 as [|x l2]; cbn; iSplit; iIntros "(?&?&?)"; iFrame.
Qed.

(** A ring with [x] between the two parts. *)
Lemma ring_mid b l1 x l2 :
  ring b (l1 ++ x :: l2) ⊣⊢ edge (lastd b l1) x ∗ edge x (hd b l2) ∗ cut b l1 l2.
Proof.
  rewrite /ring /cut -app_assoc path_app. destruct l2 as [|y l2]; cbn; iSplit; iIntros "(?&?&?&?)"; iFrame.
Qed.

(** Reading the links of a node and of the header. *)
Lemma ring_fd b l1 x l2 :
  ring b (l1 ++ x :: l2) ⊢ fd_ x ↦ hd b l2 ∗ (fd_ x ↦ hd b l2 -∗ ring b (l1 ++ x :: l2)).
Proof. rewrite ring_mid. iIntros "(He & ($ & Hb) & Hc)". iIntros "H". iFrame. Qed.

Lemma ring_bk b l1 x l2 :
  ring b (l1 ++ x :: l2) ⊢ bk_ x ↦ lastd b l1 ∗ (bk_ x ↦ lastd b l1 -∗ ring b (l1 ++ x :: l2)).
Proof. rewrite ring_mid. iIntros "((Hf & $) & He & Hc)". iIntros "H". iFrame. Qed.

Lemma ring_first b xs : ring b xs ⊢ fd_ b ↦ hd b xs ∗ (fd_ b ↦ hd b xs -∗ ring b xs).
Proof. rewrite (ring_cut b [] xs). iIntros "(($ & Hb) & Hc)". iIntros "H". iFrame. Qed.

Lemma ring_last b xs : ring b xs ⊢ bk_ b ↦ lastd b xs ∗ (bk_ b ↦ lastd b xs -∗ ring b xs).
Proof.
  assert (ring b xs ⊣⊢ edge (lastd b xs) b ∗ cut b xs []) as E.
  { rewrite -{1}(app_nil_r xs). apply ring_cut. }
  rewrite E. iIntros "((Hf & $) & Hc)". iIntros "H". iFrame.
Qed.

(** No node is the header. *)
Lemma ring_ne b xs x : x ∈ xs -> ring b xs -∗ ⌜x <> b⌝.
Proof.
  intros (l1 & l2 & ->)%list_elem_of_split. rewrite /ring path_app.
  rewrite path_app. iIntros "[[_ [[_ H1] _]] [[_ H2] _]]" (->).
  iApply (word_excl (bk_ b)). iFrame.
Qed.

Section Links.
Context {X : Type}.
Implicit Types (g : @mvars X).

(** The four stores that put [P] between its neighbours. *)
Definition link_between (P BK FD : Z) : M (wheap * @mvars X) unit :=
  store (bk_ P) BK;; store (fd_ P) FD;; store (fd_ BK) P;; store (bk_ FD) P.

Lemma wp_unlink b l1 x l2 g Q :
  ring b (l1 ++ x :: l2) -∗ (fd_ x ↦- ∗ bk_ x ↦- ∗ ring b (l1 ++ l2) -∗ Q tt g) -∗
  wp (unlink x) g Q.
Proof.
  rewrite ring_mid ring_cut /unlink. iIntros "((Hbf & Hxb) & (Hxf & Hfb) & Hcut) HQ".
  wp_load "Hxb". wp_load "Hxf". wp_store "Hfb". wp_store "Hbf".
  iApply "HQ". iSplitL "Hxf"; [by iExists _|]. iSplitL "Hxb"; [by iExists _|]. iFrame.
Qed.

Lemma wp_link_between b l1 x l2 g Q :
  fd_ x ↦- -∗ bk_ x ↦- -∗ ring b (l1 ++ l2) -∗ (ring b (l1 ++ x :: l2) -∗ Q tt g) -∗
  wp (link_between x (lastd b l1) (hd b l2)) g Q.
Proof.
  rewrite ring_mid ring_cut /link_between. iIntros "Hxf Hxb ((Hbf & Hfb) & Hcut) HQ".
  wp_store "Hxb". wp_store "Hxf". wp_store "Hbf". wp_store "Hfb".
  iApply "HQ". iFrame.
Qed.

Lemma wp_chunksize p v g Q :
  size_ p ↦ v -∗ (size_ p ↦ v -∗ Q (Z.land v (Z.lnot SIZE_BITS)) g) -∗ wp (chunksize p) g Q.
Proof. iIntros "H HQ". rewrite /chunksize. wp_load "H". wp_ret. by iApply "HQ". Qed.

Lemma wp_set_inuse p s v g Q :
  size_ (p + s) ↦ v -∗ (size_ (p + s) ↦ Z.lor v PREV_INUSE -∗ Q tt g) -∗
  wp (set_inuse_bit_at_offset p s) g Q.
Proof.
  iIntros "H HQ". rewrite /set_inuse_bit_at_offset. wp_load "H". wp_store "H". by iApply "HQ".
Qed.
End Links.

(** ** Headers *)

(** The size field of a chunk after a chunk in use or not. *)
Definition header (sz : Z) (pu : bool) : Z := sz + Z.b2z pu.
Definition size_ok (sz : Z) : Prop := 32 <= sz < 2 ^ 62 /\ sz mod 16 = 0.

Lemma land_lnot_ones x n : 0 <= n -> Z.land x (Z.lnot (Z.ones n)) = x - x mod 2 ^ n.
Proof.
  intros H. rewrite -Z.ldiff_land Z.ldiff_ones_r // Z.shiftl_mul_pow2 // Z.shiftr_div_pow2 //.
  pose proof (Z.div_mod x (2 ^ n) ltac:(apply Z.pow_nonzero; lia)). lia.
Qed.

Lemma mod_16_div sz n : sz mod 16 = 0 -> (n = 2 \/ n = 4) -> sz mod n = 0.
Proof. intros H [-> | ->]; apply Z.mod_divide; try done; apply Z.mod_divide in H as [k ->]; try done; [exists (8 * k)|exists (4 * k)]; lia. Qed.

Lemma header_mod sz pu n : sz mod 16 = 0 -> (n = 2 \/ n = 4) -> header sz pu mod n = Z.b2z pu.
Proof.
  intros H Hn. rewrite /header -Zplus_mod_idemp_l (mod_16_div _ n H Hn) Z.add_0_l Z.mod_small //.
  destruct pu, Hn as [-> | ->]; cbn; lia.
Qed.

Lemma header_size sz pu : sz mod 16 = 0 -> Z.land (header sz pu) (Z.lnot SIZE_BITS) = sz.
Proof.
  intros H. change SIZE_BITS with (Z.ones 2). rewrite land_lnot_ones; [|lia].
  change (2 ^ 2) with 4. rewrite header_mod //; [|by right]. rewrite /header. lia.
Qed.

Lemma header_size1 sz pu : sz mod 16 = 0 -> Z.land (header sz pu) (Z.lnot PREV_INUSE) = sz.
Proof.
  intros H. change PREV_INUSE with (Z.ones 1). rewrite land_lnot_ones; [|lia].
  change (2 ^ 1) with 2. rewrite header_mod //; [|by left]. rewrite /header. lia.
Qed.

Lemma header_bit sz pu : sz mod 16 = 0 -> Z.land (header sz pu) PREV_INUSE = Z.b2z pu.
Proof.
  intros H. change PREV_INUSE with (Z.ones 1). rewrite Z.land_ones; [|lia].
  change (2 ^ 1) with 2. by apply header_mod; [|left].
Qed.

Lemma header_bit_test sz pu : sz mod 16 = 0 -> (Z.land (header sz pu) PREV_INUSE =? 0) = negb pu.
Proof. intros H. rewrite header_bit //. by destruct pu. Qed.

Lemma header_set sz pu : sz mod 16 = 0 -> Z.lor (header sz pu) PREV_INUSE = header sz true.
Proof.
  intros H. pose proof (Z.add_lor_land (header sz pu) PREV_INUSE) as E.
  rewrite (header_bit _ _ H) in E. rewrite /header /PREV_INUSE in E |- *. cbn in *. lia.
Qed.

Lemma header_true sz : sz mod 16 = 0 -> Z.lor sz PREV_INUSE = header sz true.
Proof. intros H. rewrite -(header_set sz false H) /header Z.add_0_r //. Qed.

Lemma header_resize sz pu s : sz mod 16 = 0 -> s mod 16 = 0 ->
  Z.lor (Z.land (header sz pu) PREV_INUSE) s = header s pu.
Proof.
  intros H Hs. rewrite header_bit // Z.lor_comm. destruct pu; [by apply (header_true s)|].
  rewrite /header Z.lor_0_r Z.add_0_r //.
Qed.

(** ** The row of chunks *)

(** A chunk is its size and whether it is in use.  A chunk in use owns its
    header only: its memory, up to the word after it, is the program's.  A free
    chunk owns its footer too and all but its links, which its list owns. *)
Definition chunk (p : Z) (pu : bool) (sz : Z) (u : bool) : hprop :=
  (⌜size_ok sz⌝ ∗ size_ p ↦ header sz pu ∗
   if u then emp else ⌜pu = true⌝ ∗ cells (p + 32) (p + sz) ∗ (p + sz) ↦ sz)%I.

Fixpoint seg (p : Z) (pu : bool) (cs : list (Z * bool)) : hprop :=
  match cs with
  | [] => emp
  | (sz, u) :: cs => chunk p pu sz u ∗ seg (p + sz) u cs
  end%I.

Fixpoint total (cs : list (Z * bool)) : Z :=
  match cs with
  | [] => 0
  | (sz, _) :: cs => sz + total cs
  end.

(** Whether the last chunk of the row is in use. *)
Fixpoint lastu (pu : bool) (cs : list (Z * bool)) : bool :=
  match cs with
  | [] => pu
  | (_, u) :: cs => lastu u cs
  end.

(** Address and size of the chunks in state [u]. *)
Fixpoint chunks_in (u : bool) (p : Z) (cs : list (Z * bool)) : list (Z * Z) :=
  match cs with
  | [] => []
  | (sz, u') :: cs => (if Bool.eqb u u' then [(p, sz)] else []) ++ chunks_in u (p + sz) cs
  end.

Abbreviation frees := (chunks_in false).
Abbreviation useds := (chunks_in true).

Lemma total_app cs1 cs2 : total (cs1 ++ cs2) = total cs1 + total cs2.
Proof. induction cs1 as [|[sz u] cs1 IH]; cbn; [done|lia]. Qed.

Lemma lastu_app pu cs1 cs2 : lastu pu (cs1 ++ cs2) = lastu (lastu pu cs1) cs2.
Proof. revert pu. induction cs1 as [|[sz u] cs1 IH]; intros pu; [done|]. apply IH. Qed.

Lemma chunks_in_app u p cs1 cs2 :
  chunks_in u p (cs1 ++ cs2) = chunks_in u p cs1 ++ chunks_in u (p + total cs1) cs2.
Proof.
  revert p. induction cs1 as [|[sz u'] cs1 IH]; intros p; cbn; [by rewrite Z.add_0_r|].
  by rewrite IH app_assoc Z.add_assoc.
Qed.

Lemma seg_app p pu cs1 cs2 :
  seg p pu (cs1 ++ cs2) ⊣⊢ seg p pu cs1 ∗ seg (p + total cs1) (lastu pu cs1) cs2.
Proof.
  revert p pu. induction cs1 as [|[sz u] cs1 IH]; intros p pu; cbn.
  - by rewrite bi.emp_sep Z.add_0_r.
  - by rewrite IH bi.sep_assoc Z.add_assoc.
Qed.

Lemma seg_cons p pu sz u cs : seg p pu ((sz, u) :: cs) ⊣⊢ chunk p pu sz u ∗ seg (p + sz) u cs.
Proof. done. Qed.

(** A row taken apart around one chunk. *)
Lemma seg_mid p pu cs1 sz u cs2 :
  seg p pu (cs1 ++ (sz, u) :: cs2) ⊣⊢
  seg p pu cs1 ∗ chunk (p + total cs1) (lastu pu cs1) sz u ∗ seg (p + total cs1 + sz) u cs2.
Proof. by rewrite seg_app seg_cons. Qed.

Lemma chunks_in_elem u p cs x sz : (x, sz) ∈ chunks_in u p cs ->
  exists cs1 cs2, cs = cs1 ++ (sz, u) :: cs2 /\ x = p + total cs1.
Proof.
  revert p. induction cs as [|[sz' u'] cs IH]; intros p; cbn; [by intros ?%elem_of_nil|].
  intros [H|(cs1 & cs2 & -> & ->)%IH]%elem_of_app.
  - destruct (Bool.eqb u u') eqn:E; [|by apply elem_of_nil in H].
    apply Bool.eqb_prop in E as ->. apply list_elem_of_singleton in H as [= -> ->].
    exists [], cs. cbn. split; [done|lia].
  - exists ((sz', u') :: cs1), cs2. cbn. split; [done|lia].
Qed.

Definition sizes_ok (cs : list (Z * bool)) : Prop := Forall (fun c => size_ok c.1) cs.

Lemma seg_sizes p pu cs : seg p pu cs -∗ ⌜sizes_ok cs⌝.
Proof.
  iIntros "H". iInduction cs as [|[sz u] cs] "IH" forall (p pu); cbn.
  - iPureIntro. constructor.
  - iDestruct "H" as "((% & _) & H)". iDestruct ("IH" with "H") as %?.
    iPureIntro. by constructor.
Qed.

Lemma total_nonneg cs : sizes_ok cs -> 0 <= total cs.
Proof. induction 1 as [|[sz u] cs H _ IH]; cbn in *; [done|]. unfold size_ok in H. lia. Qed.

Lemma total_mod cs : sizes_ok cs -> total cs mod 16 = 0.
Proof.
  induction 1 as [|[sz u] cs [_ H] _ IH]; cbn in *; [done|].
  by rewrite -Zplus_mod_idemp_l H -Zplus_mod_idemp_r IH.
Qed.

Lemma chunks_in_length u p cs : sizes_ok cs -> 32 * Z.of_nat (length (chunks_in u p cs)) <= total cs.
Proof.
  intros H. revert p. induction H as [|[sz u'] cs [H _] _ IH]; intros p; cbn in *; [done|].
  specialize (IH (p + sz)). rewrite length_app. destruct (Bool.eqb u u'); cbn; lia.
Qed.

(** *** Access to headers *)

(** The header of a free chunk can be read. *)
Lemma seg_read_free p cs x sz : (x, sz) ∈ frees p cs ->
  forall pu, seg p pu cs ⊢ ⌜size_ok sz⌝ ∗ size_ x ↦ header sz true ∗ (size_ x ↦ header sz true -∗ seg p pu cs).
Proof.
  intros (cs1 & cs2 & -> & ->)%chunks_in_elem pu. rewrite seg_mid.
  iIntros "(H1 & (%Hsz & Hh & %Hpu & Hc) & H2)". rewrite Hpu. iFrame "Hh". iSplit; [done|].
  iIntros "Hh". iFrame. auto.
Qed.

(** The chunk after a free one is in use; its bit can be set. *)
Lemma seg_set_inuse p cs : lastu false cs = true -> seg p false cs ⊢
  ∃ s, ⌜size_ok s⌝ ∗ size_ p ↦ header s false ∗ (size_ p ↦ header s true -∗ seg p true cs).
Proof.
  destruct cs as [|[s u] cs]; [done|]. intros _. rewrite !seg_cons.
  iIntros "((%Hs & Hh & Hu) & Hseg)". destruct u; [|by iDestruct "Hu" as (?) "_"].
  iExists s. iFrame. auto.
Qed.

(** The header after a row, or of its first chunk, can be read. *)
Lemma seg_read_next p pu cs tsz : lastu pu cs = true -> size_ok tsz ->
  seg p pu cs ∗ size_ (p + total cs) ↦ header tsz true ⊢
  ∃ s, ⌜size_ok s⌝ ∗ size_ p ↦ header s pu ∗
    (size_ p ↦ header s pu -∗ seg p pu cs ∗ size_ (p + total cs) ↦ header tsz true).
Proof.
  destruct cs as [|[s u] cs]; cbn.
  - intros -> Ht. rewrite Z.add_0_r. iIntros "[_ H]". iExists tsz. iFrame. iSplit; [done|].
    by iIntros "$".
  - intros _ _. iIntros "[((%Hs & Hh & Hu) & Hseg) Ht]". iExists s. iFrame. auto.
Qed.

(** ** Bins *)

Section Bins.
Context (av : Z).

(** The free lists: [bs] gives for each bin the chunks in it, address and size,
    from the front; bin 0 is no list and bin 1 holds the last remainder. *)
Definition bins (bs : list (list (Z * Z))) : hprop :=
  ([∗ list] i ↦ xs ∈ bs, if decide (i = 0%nat) then emp else ring (bin_at av (Z.of_nat i)) xs.*1)%I.

Record bins_ok (bb : Z) (bs : list (list (Z * Z))) : Prop := BinsOk {
  bo_length : length bs = 128%nat;
  bo_zero : bs !! 0%nat = Some [];
  bo_last : exists l, bs !! 1%nat = Some l /\ (length l <= 1)%nat;
  bo_index : forall i xs x, bs !! i = Some xs -> (2 <= i)%nat -> x ∈ xs ->
    bin_index x.2 = Z.of_nat i;
  bo_marked : forall i xs, bs !! i = Some xs -> (2 <= i)%nat -> xs <> [] ->
    Z.testbit bb (Z.of_nat i / 4) = true;
  bo_range : 0 <= bb < 2 ^ 32
}.

Lemma bins_acc bs i xs : bs !! i = Some xs -> i <> 0%nat ->
  bins bs ⊢ ring (bin_at av (Z.of_nat i)) xs.*1 ∗
            (∀ ys, ring (bin_at av (Z.of_nat i)) ys.*1 -∗ bins (<[i := ys]> bs)).
Proof.
  intros Hi H0. rewrite /bins. iIntros "H".
  iDestruct (big_sepL_insert_acc with "H") as "[H Hclose]"; [done|].
  rewrite decide_False //. iFrame. iIntros (ys) "Hr". iApply "Hclose".
  by rewrite decide_False.
Qed.

Lemma concat_insert {A} (bs : list (list A)) i xs ys : bs !! i = Some xs ->
  concat (<[i := ys]> bs) ++ xs ≡ₚ concat bs ++ ys.
Proof.
  revert i. induction bs as [|z bs IH]; intros [|i] Hi; try done; cbn in *.
  - injection Hi as ->. rewrite (Permutation_app_comm (ys ++ concat bs) xs) -app_assoc.
    apply Permutation_app_head, Permutation_app_comm.
  - by rewrite -!app_assoc IH.
Qed.

(** *** Adding and removing chunks *)

Lemma concat_remove {A} (bs : list (list A)) i l1 x l2 : bs !! i = Some (l1 ++ x :: l2) ->
  concat bs ≡ₚ x :: concat (<[i := l1 ++ l2]> bs).
Proof.
  intros H. apply (Permutation_app_inv_r (l1 ++ l2)).
  rewrite -(concat_insert bs i _ (l1 ++ l2) H). rewrite -Permutation_middle.
  by rewrite -Permutation_middle.
Qed.

Lemma concat_add {A} (bs : list (list A)) i l1 x l2 : bs !! i = Some (l1 ++ l2) ->
  concat (<[i := l1 ++ x :: l2]> bs) ≡ₚ x :: concat bs.
Proof.
  intros H. apply (Permutation_app_inv_r (l1 ++ l2)).
  rewrite (concat_insert bs i _ _ H). rewrite -Permutation_middle.
  by rewrite -Permutation_middle.
Qed.

Lemma concat_split {A} (bs : list (list A)) i xs : bs !! i = Some xs ->
  concat bs ≡ₚ xs ++ concat (<[i := []]> bs).
Proof.
  intros H. pose proof (concat_insert bs i xs [] H) as E. rewrite app_nil_r in E.
  by rewrite -E Permutation_app_comm.
Qed.

Lemma elem_concat {A} (bs : list (list A)) x : x ∈ concat bs ->
  exists i l1 l2, bs !! i = Some (l1 ++ x :: l2).
Proof.
  induction bs as [|xs bs IH]; cbn; [by intros ?%elem_of_nil|].
  intros [(l1 & l2 & ->)%list_elem_of_split|(i & l1 & l2 & H)%IH]%elem_of_app.
  - by exists 0%nat, l1, l2.
  - by exists (S i), l1, l2.
Qed.

Lemma bins_ok_remove bb bs i l1 x l2 : bins_ok bb bs -> bs !! i = Some (l1 ++ x :: l2) ->
  bins_ok bb (<[i := l1 ++ l2]> bs).
Proof.
  intros [] Hi. assert (Hlt := lookup_lt_Some _ _ _ Hi).
  destruct (decide (i = 0%nat)) as [->|H0]; [rewrite Hi in bo_zero0; by destruct l1|].
  split; try done.
  - by rewrite length_insert.
  - by rewrite list_lookup_insert_ne.
  - destruct bo_last0 as (l & Hl & Hlen). destruct (decide (i = 1%nat)) as [->|].
    + exists (l1 ++ l2). rewrite list_lookup_insert_eq //. split; [done|].
      rewrite Hi in Hl. injection Hl as <-. rewrite !length_app /= in Hlen |- *. lia.
    + exists l. by rewrite list_lookup_insert_ne.
  - intros j xs y Hj Hj2 Hy. destruct (decide (i = j)) as [->|].
    + rewrite list_lookup_insert_eq // in Hj. injection Hj as <-.
      eapply (bo_index0 j); [done|done|]. set_solver.
    + rewrite list_lookup_insert_ne // in Hj. by eapply bo_index0.
  - intros j xs Hj Hj2 Hne. destruct (decide (i = j)) as [->|].
    + eapply (bo_marked0 j); [done|done|]. by destruct l1.
    + rewrite list_lookup_insert_ne // in Hj. by eapply bo_marked0.
Qed.

Lemma bins_ok_add bb bb' bs i l1 x l2 : bins_ok bb bs -> bs !! i = Some (l1 ++ l2) ->
  (2 <= i)%nat -> bin_index x.2 = Z.of_nat i ->
  (forall n, Z.testbit bb n = true -> Z.testbit bb' n = true) ->
  Z.testbit bb' (Z.of_nat i / 4) = true -> 0 <= bb' < 2 ^ 32 ->
  bins_ok bb' (<[i := l1 ++ x :: l2]> bs).
Proof.
  intros [] Hi H2 Hx Hsub Hbit Hr. assert (Hlt := lookup_lt_Some _ _ _ Hi). split; try done.
  - by rewrite length_insert.
  - rewrite list_lookup_insert_ne //. lia.
  - destruct bo_last0 as (l & Hl & Hlen). exists l. rewrite list_lookup_insert_ne //. lia.
  - intros j xs y Hj Hj2 Hy. destruct (decide (i = j)) as [->|].
    + rewrite list_lookup_insert_eq // in Hj. injection Hj as <-.
      apply elem_of_app in Hy as [Hy|[->|Hy]%elem_of_cons]; [|done|];
        (eapply (bo_index0 j); [done|done|set_solver]).
    + rewrite list_lookup_insert_ne // in Hj. by eapply bo_index0.
  - intros j xs Hj Hj2 Hne. destruct (decide (i = j)) as [->|]; [done|].
    rewrite list_lookup_insert_ne // in Hj. by eapply Hsub, bo_marked0.
Qed.

Lemma bins_ok_last bb bs l : bins_ok bb bs -> (length l <= 1)%nat -> bins_ok bb (<[1%nat := l]> bs).
Proof.
  intros [] Hl. assert (1 < length bs)%nat by lia. split; try done.
  - by rewrite length_insert.
  - by rewrite list_lookup_insert_ne.
  - exists l. by rewrite list_lookup_insert_eq.
  - intros j xs x Hj Hj2. rewrite list_lookup_insert_ne in Hj; [|lia]. by eapply bo_index0.
  - intros j xs Hj Hj2. rewrite list_lookup_insert_ne in Hj; [|lia]. by eapply bo_marked0.
Qed.

(** The thresholds of bin_index. *)
Lemma bin_index_eq sz : 0 <= sz -> bin_index sz =
  if sz <? 512 then sz / 8 else if sz <? 2560 then 56 + sz / 64
  else if sz <? 10752 then 91 + sz / 512 else if sz <? 43520 then 110 + sz / 4096
  else if sz <? 174592 then 119 + sz / 32768 else if sz <? 698880 then 124 + sz / 262144
  else 126.
Proof.
  intros H. rewrite /bin_index !Z.shiftr_div_pow2 //.
  change (2 ^ 9) with 512. change (2 ^ 3) with 8. change (2 ^ 6) with 64.
  change (2 ^ 12) with 4096. change (2 ^ 15) with 32768. change (2 ^ 18) with 262144.
  assert (E := Z.div_mod sz 512 ltac:(lia)). assert (Hm := Z.mod_pos_bound sz 512 ltac:(lia)).
  repeat (zcase; zbool); done || lia.
Qed.

Lemma bin_index_small sz : 0 <= sz < 512 -> bin_index sz = sz / 8.
Proof. intros H. rewrite bin_index_eq; [|lia]. zdecide. done. Qed.

Lemma bin_index_range sz : size_ok sz -> 4 <= bin_index sz <= 126.
Proof.
  intros [H _]. rewrite bin_index_eq; [|lia].
  repeat (zcase; zbool); quotients sz; lia.
Qed.

Lemma bin_index_mono a b : 0 <= a <= b -> bin_index a <= bin_index b.
Proof.
  intros H. rewrite !bin_index_eq; try lia.
  repeat (zcase; zbool); try lia; quotients a; quotients b; lia.
Qed.
End Bins.
