(* ===== verification/MallocFree.v ===== *)
(** Releasing memory: the specifications of frontlink, malloc_trim and free of file
    Malloc, in the logic of file HeapLogic. *)

From iris.proofmode Require Import proofmode.
From S2P Require Import Prelude Kvm HeapLogic GuestSys Malloc MallocInv.

Lemma lor_below a b n : 0 <= n -> 0 <= a < 2 ^ n -> 0 <= b < 2 ^ n -> Z.lor a b < 2 ^ n.
Proof.
  intros Hn Ha Hb. apply Z.bounded_iff_bits_nonneg; [lia|apply Z.lor_nonneg; lia|].
  intros l Hl. rewrite Z.lor_spec.
  assert (Z.testbit a l = false) as -> by (apply (Z.bounded_iff_bits_nonneg n); lia).
  apply (Z.bounded_iff_bits_nonneg n); lia.
Qed.

(** ** The break *)

Abbreviation brk g := (heapend (msys g)).

Section Break.
Context {X : Type}.
Implicit Types (g : @mvars X).

Definition move_brk (n : Z) g : mvars := with_sys (set_heapend (brk g + n) (msys g)) g.

Lemma sys_sbrk_ok n g : - 2 ^ 31 <= n < 2 ^ 31 -> 0 < brk g -> 0 <= brk g + n <= eheap ->
  brk g <= eheap -> sys_sbrk n g = (brk g, move_brk n g).
Proof.
  intros Hn Hb Hn2 Hb2. assert (eheap < 2 ^ 63) by done. rewrite /sys_sbrk swrap_small //.
  rewrite /sbrk /sbrk_raw uwrap_small; [|rewrite /in_u; lia]. zdecide.
  rewrite swrap_small //; [|rewrite /in_s; lia]. by zdecide.
Qed.

Lemma sys_sbrk_fail n g : eheap < u64 (brk g + s32 n) ->
  sys_sbrk n g = (0, with_sys (set_errno ENOMEM (msys g)) g).
Proof. intros H. rewrite /sys_sbrk /sbrk /sbrk_raw. by zdecide. Qed.

Lemma move_brk_0 g : move_brk 0 g = g.
Proof. destruct g as [????? ? ? []]. rewrite /move_brk /with_sys /set_heapend /=. by rewrite Z.add_0_r. Qed.

(** ** The arena *)

Record arena_ok g (base : Z) (cs : list (Z * bool)) (tsz : Z) (bs : list (list (Z * Z))) (bb : Z)
    : Prop := ArenaOk {
  ao_last : lastu true cs = true;
  ao_top : size_ok tsz;
  ao_base : 0 < base /\ base mod 16 = 0;
  ao_end : base + total cs + tsz = brk g;
  ao_page : brk g mod 4096 = 0 /\ brk g <= eheap;
  ao_sbrk_base : 0 <= sbrk_base g <= base;
  ao_sbrked : sbrked_mem g = brk g - sbrk_base g;
  ao_pad : 0 <= top_pad g <= 2 ^ 30;
  ao_bins : bins_ok bb bs;
  ao_perm : concat bs ≡ₚ frees base cs
}.

(** The allocator's memory: the bins, the row of chunks [cs] from [base] on, the
    top chunk of size [tsz], and the space sbrk has not given out yet. *)
Definition arena (av : Z) g (base : Z) (cs : list (Z * bool)) (tsz : Z)
    (bs : list (list (Z * Z))) : hprop :=
  (∃ bb, ⌜arena_ok g base cs tsz bs bb⌝ ∗
     fd_ (bin_at av 0) ↦ (base + total cs) ∗ size_ (bin_at av 0) ↦ bb ∗ bins av bs ∗
     seg base true cs ∗
     size_ (base + total cs) ↦ header tsz true ∗
     cells (base + total cs + 16) (base + total cs + tsz) ∗
     cells (brk g) eheap)%I.

(** ** malloc_trim *)

Lemma trim_extra t pad : 0 <= pad <= 2 ^ 30 -> 32 <= t < 2 ^ 62 ->
  s64 ((u64 (t - pad - MINSIZE + (malloc_getpagesize - 1)) / malloc_getpagesize - 1) * malloc_getpagesize)
  = ((t - pad - 32 + 4095) / 4096 - 1) * 4096.
Proof.
  intros Hp Ht. rewrite /MINSIZE /malloc_getpagesize. set (y := t - pad - 32 + (4096 - 1)).
  assert (E : u64 y / 4096 = y / 4096 + (if y <? 0 then 2 ^ 52 else 0)).
  { rewrite /uwrap. zcase; zbool.
    - rewrite -(Z_mod_plus_full y 1) Z.mod_small; [|lia].
      replace (y + 1 * 2 ^ 64) with (y + 2 ^ 52 * 4096) by lia. by rewrite Z.div_add.
    - rewrite Z.mod_small; [|lia]. lia. }
  replace (t - pad - 32 + 4095) with y by lia. rewrite E.
  assert (D := Z.div_mod y 4096 ltac:(lia)). assert (Hm := Z.mod_pos_bound y 4096 ltac:(lia)).
  rewrite /swrap. zcase; zbool.
  - rewrite -(Z_mod_plus_full _ (-1)) Z.mod_small; lia.
  - rewrite Z.mod_small; lia.
Qed.
End Break.

Section Free.
Context {X : Type} (av : Z).
Implicit Types (g : @mvars X).

(** ** frontlink *)

(** [R] lets one read the headers of the chunks [l]. *)
Definition readable (R : hprop) (l : list (Z * Z)) : Prop :=
  forall x sz, (x, sz) ∈ l ->
    R ⊢ ⌜size_ok sz⌝ ∗ size_ x ↦ header sz true ∗ (size_ x ↦ header sz true -∗ R).

Lemma readable_perm R l l' : readable R l -> l ≡ₚ l' -> readable R l'.
Proof. intros H E x sz Hx. apply H. by rewrite E. Qed.

Lemma readable_sep R1 R2 l1 l2 : readable R1 l1 -> readable R2 l2 -> readable (R1 ∗ R2)%I (l1 ++ l2).
Proof.
  intros H1 H2 x sz [H|H]%elem_of_app; iIntros "[HR1 HR2]".
  - iDestruct (H1 _ _ H with "HR1") as "($ & $ & Hc)". iIntros "Hh". iFrame. by iApply "Hc".
  - iDestruct (H2 _ _ H with "HR2") as "($ & $ & Hc)". iIntros "Hh". iFrame. by iApply "Hc".
Qed.

Lemma wp_mark_binblock bb i g Q : 0 <= bb < 2 ^ 32 -> 0 <= i < 128 ->
  size_ (bin_at av 0) ↦ bb -∗
  (∀ bb', ⌜0 <= bb' < 2 ^ 32 /\ Z.testbit bb' (i / 4) = true /\
           forall n, Z.testbit bb n = true -> Z.testbit bb' n = true⌝ -∗
     size_ (bin_at av 0) ↦ bb' -∗ Q tt g) -∗
  wp (mark_binblock av i) g Q.
Proof.
  iIntros (Hbb Hi) "H HQ". rewrite /mark_binblock /get_binblocks /set_binblocks.
  wp_load "H". wp_store "H". iApply ("HQ" with "[%] H").
  assert (H4 : 0 <= i / 4 < 32) by (split; [apply Z.div_pos|apply Z.div_lt_upper_bound]; lia).
  assert (E : forall n, 0 <= n -> Z.testbit (idx2binblock i) n = (n =? i / 4)).
  { intros n Hn. rewrite /idx2binblock /BINBLOCKWIDTH Z.shiftl_1_l Z.pow2_bits_eqb; [|lia].
    apply Z.eqb_sym. }
  assert (E2 : 0 <= idx2binblock i < 2 ^ 32).
  { rewrite /idx2binblock /BINBLOCKWIDTH Z.shiftl_1_l. split; [lia|].
    apply Z.pow_lt_mono_r; lia. }
  split_and!.
  - apply Z.lor_nonneg. lia.
  - by apply lor_below.
  - rewrite Z.lor_spec E; [|lia]. by rewrite Z.eqb_refl orb_true_r.
  - intros n Hn. by rewrite Z.lor_spec Hn.
Qed.

Lemma wp_frontlink_scan R b sz fuel l1 l2 g Q : readable R (l1 ++ l2) -> (length l2 <= fuel)%nat ->
  R -∗ ring b (l1 ++ l2).*1 -∗
  (∀ l1' l2', ⌜l1' ++ l2' = l1 ++ l2⌝ -∗ R -∗ ring b (l1 ++ l2).*1 -∗ Q (hd b l2'.*1) g) -∗
  wp (frontlink_scan fuel b sz (hd b l2.*1)) g Q.
Proof.
  iIntros (Hr Hlen) "HR Hring HQ".
  iInduction fuel as [|fuel] "IH" forall (l1 l2 Hr Hlen); destruct l2 as [|[x xs] l2]; cbn [frontlink_scan hd fmap list_fmap fst].
  1, 3: rewrite Z.eqb_refl; wp_ret; by iApply ("HQ" $! l1 [] with "[//] HR Hring").
  - cbn in Hlen. lia.
  - iDestruct (ring_ne b _ x with "Hring") as %Hne; [apply list_elem_of_fmap; exists (x, xs); set_solver|].
    zdecide. iDestruct (Hr x xs with "HR") as "(%Hok & Hh & HR)"; [set_solver|].
    iApply wp_bind. iApply (wp_chunksize with "Hh"). iIntros "Hh". iDestruct ("HR" with "Hh") as "HR".
    rewrite header_size; [|apply Hok]. destruct (sz <? xs).
    + assert ((l1 ++ (x, xs) :: l2).*1 = l1.*1 ++ x :: l2.*1) as E by by rewrite fmap_app.
      iEval (rewrite E) in "Hring". iDestruct (ring_fd with "Hring") as "[Hf Hring]".
      wp_load "Hf". iDestruct ("Hring" with "Hf") as "Hring". iEval (rewrite -E) in "Hring".
      replace (l1 ++ (x, xs) :: l2) with ((l1 ++ [(x, xs)]) ++ l2) in * by by rewrite -app_assoc.
      iApply ("IH" $! (l1 ++ [(x, xs)]) l2 with "[//] [%] HR Hring HQ"). cbn in Hlen; lia.
    + wp_ret. iApply ("HQ" $! l1 ((x, xs) :: l2) with "[//] HR Hring").
Qed.

(** The result of putting a chunk into its bin. *)
Definition linked (bs : list (list (Z * Z))) (x : Z * Z) (bb' : Z) (bs' : list (list (Z * Z))) : Prop :=
  bins_ok bb' bs' /\ exists i l1 l2, bs !! i = Some (l1 ++ l2) /\ (2 <= i)%nat /\
    bin_index x.2 = Z.of_nat i /\ bs' = <[i := l1 ++ x :: l2]> bs.

Lemma linked_perm bs x bb' bs' : linked bs x bb' bs' -> concat bs' ≡ₚ x :: concat bs.
Proof. intros (_ & i & l1 & l2 & Hi & _ & _ & ->). by apply concat_add. Qed.

(** The ring of one bin with a node added. *)
Lemma wp_link_bin bs i l1 p sz l2 g Q : bs !! i = Some (l1 ++ l2) -> i <> 0%nat ->
  bins av bs -∗ fd_ p ↦- -∗ bk_ p ↦- -∗ (bins av (<[i := l1 ++ (p, sz) :: l2]> bs) -∗ Q tt g) -∗
  wp (link_between p (lastd (bin_at av (Z.of_nat i)) l1.*1) (hd (bin_at av (Z.of_nat i)) l2.*1)) g Q.
Proof.
  iIntros (Hi H0) "Hbins Hf Hb HQ". iDestruct (bins_acc av bs i with "Hbins") as "[Hring Hclose]"; try done.
  rewrite fmap_app. iApply (wp_link_between with "Hf Hb Hring"). iIntros "Hring".
  iApply "HQ". iApply "Hclose". by rewrite fmap_app.
Qed.

Lemma bins_read_first bs i xs : bs !! i = Some xs -> i <> 0%nat ->
  bins av bs ⊢ fd_ (bin_at av (Z.of_nat i)) ↦ hd (bin_at av (Z.of_nat i)) xs.*1 ∗
    (fd_ (bin_at av (Z.of_nat i)) ↦ hd (bin_at av (Z.of_nat i)) xs.*1 -∗ bins av bs).
Proof.
  iIntros (Hi H0) "H". iDestruct (bins_acc av bs i with "H") as "[Hring Hclose]"; try done.
  iDestruct (ring_first with "Hring") as "[$ Hring]". iIntros "Hf".
  iDestruct ("Hclose" with "[Hring Hf]") as "H"; [by iApply "Hring"|].
  by rewrite list_insert_id.
Qed.

Lemma wp_frontlink R fuel p sz bb bs g Q :
  size_ok sz -> bins_ok bb bs -> readable R (concat bs) -> (length (concat bs) <= fuel)%nat ->
  R -∗ bins av bs -∗ size_ (bin_at av 0) ↦ bb -∗ fd_ p ↦- -∗ bk_ p ↦- -∗
  (∀ bb' bs', ⌜linked bs (p, sz) bb' bs'⌝ -∗ R -∗ bins av bs' -∗ size_ (bin_at av 0) ↦ bb' -∗
     Q tt g) -∗
  wp (frontlink av fuel p sz) g Q.
Proof.
  iIntros (Hsz Hok Hr Hfuel) "HR Hbins Hbb Hf Hb HQ".
  pose proof (bin_index_range sz Hsz) as Hidx. set (i := Z.to_nat (bin_index sz)).
  assert (Hi : Z.of_nat i = bin_index sz) by lia.
  destruct (lookup_lt_is_Some_2 bs i) as [xs Hxs]; [rewrite (bo_length _ _ Hok); lia|].
  pose proof (concat_split bs i xs Hxs) as Hsplit.
  assert (Hrxs : readable R xs).
  { intros x s Hx. apply Hr. rewrite Hsplit. set_solver. }
  assert (Hlen : (length xs <= fuel)%nat).
  { rewrite Hsplit length_app in Hfuel. lia. }
  assert (Hpost : forall bb' l1 l2, l1 ++ l2 = xs -> 0 <= bb' < 2 ^ 32 ->
    Z.testbit bb' (bin_index sz / 4) = true -> (forall n, Z.testbit bb n = true -> Z.testbit bb' n = true) ->
    linked bs (p, sz) bb' (<[i := l1 ++ (p, sz) :: l2]> bs)).
  { intros bb' l1 l2 <- Hbb' Hbit Hsub. split.
    - eapply bins_ok_add; try done; [lia|by rewrite Hi].
    - exists i, l1, l2. split_and!; try done. lia. }
  rewrite /frontlink. destruct (sz <? MAX_SMALLBIN_SIZE) eqn:Esmall; zbool.
  - rewrite /MAX_SMALLBIN_SIZE in Esmall. assert (32 <= sz) by apply Hsz.
    assert (smallbin_index sz = bin_index sz) as ->.
    { rewrite bin_index_small; [|lia]. by rewrite /smallbin_index Z.shiftr_div_pow2. }
    iApply wp_bind. iApply (wp_mark_binblock with "Hbb"); [apply Hok|lia|].
    iIntros (bb' (Hbb' & Hbit & Hsub)) "Hbb". rewrite -Hi.
    iDestruct (bins_read_first bs i with "Hbins") as "[Hfst Hbins]"; [done|lia|].
    wp_load "Hfst". iDestruct ("Hbins" with "Hfst") as "Hbins".
    iApply (wp_link_bin bs i [] p sz xs with "Hbins Hf Hb"); [done|lia|].
    iIntros "Hbins". iApply ("HQ" with "[%] HR Hbins Hbb"). by apply Hpost.
  - rewrite -Hi.
    iDestruct (bins_read_first bs i with "Hbins") as "[Hfst Hbins]"; [done|lia|].
    wp_load "Hfst". iDestruct ("Hbins" with "Hfst") as "Hbins".
    iApply wp_bind. iDestruct (bins_acc av bs i with "Hbins") as "[Hring Hclose]"; [done|lia|].
    destruct xs as [|[x xsz] xs].
    + cbn [hd fmap list_fmap]. rewrite Z.eqb_refl.
      iApply wp_bind. iApply (wp_mark_binblock with "Hbb"); [apply Hok|lia|].
      iIntros (bb' (Hbb' & Hbit & Hsub)) "Hbb". wp_ret.
      iDestruct ("Hclose" $! [] with "Hring") as "Hbins". rewrite list_insert_id //.
      iApply (wp_link_bin bs i [] p sz [] with "Hbins Hf Hb"); [done|lia|].
      iIntros "Hbins". iApply ("HQ" with "[%] HR Hbins Hbb"). apply Hpost; try done. by rewrite -Hi.
    + iDestruct (ring_ne _ _ x with "Hring") as %Hne; [set_solver|].
      cbn [hd fmap list_fmap fst]. zdecide. iApply wp_bind.
      iApply (wp_frontlink_scan R _ sz fuel [] ((x, xsz) :: xs) with "HR Hring"); [done|done|].
      iIntros (l1 l2 E) "HR Hring". cbn [app] in E |- *. rewrite -E fmap_app ring_cut.
      iDestruct "Hring" as "[[He1 He2] Hc]". wp_load "He2". wp_ret.
      iDestruct ("Hclose" $! (l1 ++ l2) with "[He1 He2 Hc]") as "Hbins".
      { rewrite fmap_app ring_cut. iFrame. }
      rewrite list_insert_id; [|by rewrite E].
      iApply (wp_link_bin bs i l1 p sz l2 with "Hbins Hf Hb"); [by rewrite E|lia|].
      iIntros "Hbins". iApply ("HQ" with "[%] HR Hbins Hbb").
      apply Hpost; try done; [apply Hok|]. rewrite -Hi. by eapply (bo_marked _ _ Hok i); [done|lia|].
Qed.

(** ** malloc_trim *)

Lemma wp_malloc_trim base cs tsz bs g Q :
  arena av g base cs tsz bs -∗
  (∀ r g' tsz', arena av g' base cs tsz' bs -∗ Q r g') -∗
  wp (malloc_trim av (top_pad g)) g Q.
Proof.
  iIntros "(%bb & %Hok & Htop & Hbb & Hbins & Hseg & Hh & Hc & Hres) HQ". pose proof Hok as [].
  rewrite /malloc_trim /get_top. wp_load "Htop". iApply wp_bind.
  iApply (wp_chunksize with "Hh"). iIntros "Hh". destruct ao_top0 as [Hsz Hm].
  rewrite header_size // trim_extra //.
  set (extra := ((tsz - top_pad g - 32 + 4095) / 4096 - 1) * 4096).
  destruct (extra <? malloc_getpagesize) eqn:Ee.
  { wp_ret. iApply ("HQ" $! 0 g tsz). iExists bb. by iFrame. }
  zbool. rewrite /malloc_getpagesize in Ee.
  assert (Hextra : extra mod 4096 = 0) by apply Z_mod_mult.
  assert (Hlt : extra <= tsz - 33).
  { pose proof (Z.mul_div_le (tsz - top_pad g - 32 + 4095) 4096 ltac:(lia)). unfold extra. lia. }
  clearbody extra. iDestruct (seg_sizes with "Hseg") as %Hcs. pose proof (total_nonneg _ Hcs) as Ht0.
  assert (eheap = 2 ^ 22) as Heh by done.
  iApply wp_bind. iApply wp_callg. rewrite sys_sbrk_ok; [|lia..]. cbn [fst snd]. rewrite move_brk_0 ao_end0.
  rewrite Z.eqb_refl. cbn [negb]. iApply wp_bind. iApply wp_callg. rewrite sys_sbrk_ok; [|lia..].
  cbn [fst snd]. assert (E : (brk g =? MORECORE_FAILURE) = false).
  { apply Z.eqb_neq. change MORECORE_FAILURE with (2 ^ 64 - 1). lia. }
  rewrite E. rewrite /set_head. wp_store "Hh". wp_setg. wp_ret.
  rewrite header_true; [|mlia].
  iApply ("HQ" $! 1 _ (tsz - extra)). iExists bb.
  rewrite (cells_split (base + total cs + (tsz - extra)) _ (brk g)); [|lia|mlia].
  iDestruct "Hc" as "[Hc1 Hc2]".
  iFrame "Htop Hbb Hbins Hseg Hh Hc1". iSplit.
  - iPureIntro. split; cbn; try done; try lia; [split; [lia|mlia]|mlia|].
    rewrite uwrap_small; [lia|rewrite /in_u; lia].
  - cbn. rewrite (cells_split (brk g) (brk g + - extra) eheap); [|lia|mlia].
    replace (base + total cs + (tsz - extra)) with (brk g + - extra) by lia. iFrame.
Qed.

(** ** Taking chunks out of their bins *)

Lemma wp_unlink_bin bs i l1 x sz l2 g Q : bs !! i = Some (l1 ++ (x, sz) :: l2) -> i <> 0%nat ->
  bins av bs -∗ (fd_ x ↦- -∗ bk_ x ↦- -∗ bins av (<[i := l1 ++ l2]> bs) -∗ Q tt g) -∗
  wp (unlink x) g Q.
Proof.
  iIntros (Hi H0) "Hbins HQ". iDestruct (bins_acc av bs i with "Hbins") as "[Hring Hclose]"; try done.
  rewrite fmap_app fmap_cons. iApply (wp_unlink with "Hring"). iIntros "(Hf & Hb & Hring)".
  iApply ("HQ" with "Hf Hb"). iApply "Hclose". by rewrite fmap_app.
Qed.

(** A free chunk is in some bin. *)
Lemma free_in_bin bb bs x sz rest : bins_ok bb bs -> concat bs ≡ₚ (x, sz) :: rest ->
  exists i l1 l2, bs !! i = Some (l1 ++ (x, sz) :: l2) /\ i <> 0%nat /\
    concat (<[i := l1 ++ l2]> bs) ≡ₚ rest /\ bins_ok bb (<[i := l1 ++ l2]> bs).
Proof.
  intros Hok Hp. destruct (elem_concat bs (x, sz)) as (i & l1 & l2 & Hi); [rewrite Hp; set_solver|].
  exists i, l1, l2. split_and!; [done| | |by eapply bins_ok_remove].
  - intros ->. rewrite (bo_zero _ _ Hok) in Hi. by destruct l1.
  - apply (Permutation_cons_inv (a := (x, sz))). by rewrite -Hp (concat_remove bs i).
Qed.

Lemma bin_at_inj i j : bin_at av i = bin_at av j -> i = j.
Proof. rewrite /bin_at /SIZE_SZ. lia. Qed.

(** Only the last remainder's forward link is the header of its bin. *)
Lemma bins_fd_last bb bs i l1 x l2 : bins_ok bb bs -> bs !! i = Some (l1 ++ x :: l2) -> i <> 0%nat ->
  bins av bs -∗ ⌜(hd (bin_at av (Z.of_nat i)) l2.*1 =? last_remainder av) = bool_decide (i = 1%nat)⌝.
Proof.
  iIntros (Hok Hi H0) "Hbins". destruct (bo_last _ _ Hok) as (l & Hl & Hlen).
  case_bool_decide as H1.
  - subst i. rewrite Hi in Hl. injection Hl as <-. rewrite length_app /= in Hlen.
    destruct l2; [|cbn in Hlen; lia]. iPureIntro. apply Z.eqb_refl.
  - destruct l2 as [|[y ys] l2]; cbn.
    + iPureIntro. apply Z.eqb_neq. intros E%bin_at_inj. lia.
    + rewrite /bins (big_sepL_delete _ _ i) // decide_False //. iDestruct "Hbins" as "[Hi Hbins]".
      iDestruct (big_sepL_lookup _ _ 1%nat with "Hbins") as "H1"; [exact Hl|]. cbn.
      rewrite decide_False; [|lia].
      rewrite fmap_app fmap_cons fmap_cons ring_mid. cbn. iDestruct "Hi" as "(_ & [_ Hy] & _)".
      iDestruct (ring_last with "H1") as "[H1 _]".
      iDestruct (word_ne with "Hy H1") as %Hne. iPureIntro. apply Z.eqb_neq.
      intros ->. by apply Hne.
Qed.

(** The last chunk of a row that is free. *)
Lemma lastu_false cs : lastu true cs = false -> exists cs0 sz, cs = cs0 ++ [(sz, false)].
Proof.
  destruct cs as [|[sz u] cs0 _] using rev_ind; [done|]. rewrite lastu_app. cbn. intros ->. eauto.
Qed.

(** ** free *)

(** A block being released, from [p] up to [e] and the word there: the links of
    the last remainder stay with its bin. *)
Definition hole (p e : Z) (islr : bool) : hprop :=
  (size_ p ↦- ∗ (if islr then emp else fd_ p ↦- ∗ bk_ p ↦-) ∗ cells (p + 32) (e + 8))%I.

(** The memory of a chunk in use. *)
Lemma hole_intro p sz v : size_ok sz ->
  size_ p ↦ v -∗ cells (p + 16) (p + sz + 8) -∗ hole p (p + sz) false.
Proof.
  iIntros ([Hs _]) "Hh Hc". rewrite /hole. iSplitL "Hh"; [by iExists v|].
  rewrite (cells_cons (p + 16)); [|lia]. rewrite (cells_cons (p + 16 + 8)); [|lia].
  replace (p + 16 + 8) with (p + 24) by lia. replace (p + 24 + 8) with (p + 32) by lia.
  iDestruct "Hc" as "($ & $ & $)".
Qed.

(** Two adjacent blocks are one. *)
Lemma hole_join q p e b v : q + 32 <= p -> p + 32 <= e -> (p - q) mod 16 = 0 ->
  size_ q ↦- -∗ (if b : bool then emp else fd_ q ↦- ∗ bk_ q ↦-) -∗
  cells (q + 32) p -∗ p ↦ v -∗ hole p e false -∗ hole q e b.
Proof.
  iIntros (H1 H2 H3) "Hq Hl Hc Hp (Hs & (Hf & Hb) & Hc2)". rewrite /hole. iFrame "Hq Hl".
  iApply (cells_glue p with "Hc Hp"); [lia|lia|mlia|].
  rewrite (cells_cons (p + 8)); [|lia]. rewrite (cells_cons (p + 8 + 8)); [|lia].
  rewrite (cells_cons (p + 8 + 8 + 8)); [|lia].
  replace (p + 8 + 8) with (p + 16) by lia. replace (p + 16 + 8) with (p + 24) by lia.
  replace (p + 24 + 8) with (p + 32) by lia. iFrame.
Qed.

(** What the bins hold while a block is released. *)
Definition bins_mid (bb : Z) (bs : list (list (Z * Z))) (p : Z) (islr : bool) (fr : list (Z * Z)) : Prop :=
  bins_ok bb bs /\
  if islr then exists s, bs !! 1%nat = Some [(p, s)] /\ concat bs ≡ₚ (p, s) :: fr
  else concat bs ≡ₚ fr.

(** The block now ends a row [cs0] whose last chunk is in use. *)
Definition backward_done (base : Z) (cs1 : list (Z * bool)) (sz bb : Z) (fr2 : list (Z * Z))
    (cs0 : list (Z * bool)) (sz' : Z) (islr : bool) (bs' : list (list (Z * Z))) : Prop :=
  lastu true cs0 = true /\ total cs0 + sz' = total cs1 + sz /\ size_ok sz' /\
  useds base cs0 = useds base cs1 /\
  bins_mid bb bs' (base + total cs0) islr (frees base cs0 ++ fr2).

Lemma wp_free_backward base cs1 sz bb bs fr2 g Q :
  let p := base + total cs1 in
  size_ok sz -> total cs1 + sz < 2 ^ 60 -> bins_mid bb bs p false (frees base cs1 ++ fr2) ->
  seg base true cs1 -∗ bins av bs -∗ hole p (p + sz) false -∗
  (∀ cs0 sz' islr bs', ⌜backward_done base cs1 sz bb fr2 cs0 sz' islr bs'⌝ -∗
     seg base true cs0 -∗ bins av bs' -∗ hole (base + total cs0) (p + sz) islr -∗
     Q (base + total cs0, sz', islr) g) -∗
  wp (free_backward av p (header sz (lastu true cs1)) sz) g Q.
Proof.
  iIntros (p Hsz Hbound [Hok Hperm]) "Hseg Hbins Hhole HQ". rewrite /free_backward header_bit_test; [|apply Hsz].
  destruct (lastu true cs1) eqn:Eu; cbn [negb].
  { wp_ret. iApply ("HQ" $! cs1 sz false bs with "[%] Hseg Hbins Hhole"). by split_and!. }
  destruct (lastu_false _ Eu) as (cs0 & psz & ->). rewrite seg_mid.
  iDestruct "Hseg" as "(Hseg & (%Hpsz & Hh & %Hpu & Hc & Hfoot) & _)".
  set (q := base + total cs0). assert (Hp : q + psz = p) by (rewrite /p total_app /= /q; lia).
  rewrite Hp. rewrite total_app /= in Hbound. iDestruct (seg_sizes with "Hseg") as %Hcs.
  pose proof (total_nonneg _ Hcs). destruct Hpsz as [Hp1 Hp2], Hsz as [Hs1 Hs2].
  wp_load "Hfoot". replace (p - psz) with q by lia. rewrite uwrap_small; [|rewrite /in_u; lia].
  rewrite chunks_in_app /= -app_assoc in Hperm. fold q in Hperm.
  rewrite -Permutation_middle in Hperm.
  destruct (free_in_bin _ _ _ _ _ Hok Hperm) as (i & l1 & l2 & Hi & H0 & Hperm' & Hok').
  iDestruct (bins_fd_last with "Hbins") as %Elr; [done..|].
  iDestruct (bins_acc av bs i with "Hbins") as "[Hring Hclose]"; [done..|].
  assert (E : (l1 ++ (q, psz) :: l2).*1 = l1.*1 ++ q :: l2.*1) by by rewrite fmap_app.
  rewrite E. iDestruct (ring_fd with "Hring") as "[Hf Hring]". wp_load "Hf".
  iDestruct ("Hring" with "Hf") as "Hring". iEval (rewrite -E) in "Hring".
  iDestruct ("Hclose" with "Hring") as "Hbins". rewrite list_insert_id // Elr.
  assert (Hfin : lastu true cs0 = true /\ total cs0 + (sz + psz) = total (cs0 ++ [(psz, false)]) + sz /\
    size_ok (sz + psz) /\ useds base cs0 = useds base (cs0 ++ [(psz, false)])).
  { split_and!; [done|rewrite total_app /=; lia|split; [lia|mlia]|].
    rewrite chunks_in_app /=. by rewrite app_nil_r. }
  destruct Hfin as (F1 & F2 & F3 & F4). iAssert (size_ q ↦-)%I with "[Hh]" as "Hh"; [by iExists _|].
  case_bool_decide as H1.
  - subst i. wp_ret. iApply ("HQ" $! cs0 (sz + psz) true bs with "[%] Hseg Hbins").
    + split_and!; try done. split; [done|]. exists psz.
      destruct (bo_last _ _ Hok) as (l & Hl & Hlen). rewrite Hi in Hl. injection Hl as <-.
      rewrite length_app /= in Hlen. destruct l1, l2; cbn in Hlen; try lia. done.
    + iApply (hole_join q p _ true with "Hh [//] Hc Hfoot Hhole"); [lia|lia|mlia].
  - iApply wp_bind. iApply (wp_unlink_bin with "Hbins"); [done..|]. iIntros "Hf Hb Hbins". wp_ret.
    iApply ("HQ" $! cs0 (sz + psz) false with "[%] Hseg Hbins").
    + by split_and!.
    + iApply (hole_join q p _ false with "Hh [$Hf $Hb] Hc Hfoot Hhole"); [lia|lia|mlia].
Qed.

(** A released block grows by the free chunk after it. *)
Lemma hole_grow p e b v nsz w : p + 32 <= e -> (e - p) mod 16 = 0 -> size_ok nsz ->
  hole p e b -∗ size_ e ↦ v -∗ fd_ e ↦- -∗ bk_ e ↦- -∗ cells (e + 32) (e + nsz) -∗ (e + nsz) ↦ w -∗
  hole p (e + nsz) b.
Proof.
  iIntros (H1 H2 [Hs Hm]) "(Hs & Hl & Hc) Hh Hf Hb Hc2 Hfoot". rewrite /hole. iFrame "Hs Hl".
  rewrite (cells_split (e + 8) _ (e + nsz + 8)); [|lia|mlia]. iFrame "Hc".
  rewrite (cells_cons (e + 8)); [|lia]. rewrite (cells_cons (e + 8 + 8)); [|lia].
  rewrite (cells_cons (e + 8 + 8 + 8)); [|lia].
  replace (e + 8 + 8) with (e + 16) by lia. replace (e + 16 + 8) with (e + 24) by lia.
  replace (e + 24 + 8) with (e + 32) by lia. rewrite cells_snoc; [|lia|mlia]. iFrame.
Qed.

(** The links of the chunks that were in a bin. *)
Definition links (l : list (Z * Z)) : hprop := ([∗ list] x ∈ l, fd_ x.1 ↦- ∗ bk_ x.1 ↦-)%I.

(** The words of the last remainder's list. *)
Lemma bins_open_last bs l : bs !! 1%nat = Some l -> (length l <= 1)%nat ->
  bins av bs ⊢ fd_ (last_remainder av) ↦- ∗ bk_ (last_remainder av) ↦- ∗ links l ∗
    (∀ ys, ring (last_remainder av) ys.*1 -∗ bins av (<[1%nat := ys]> bs)).
Proof.
  iIntros (Hl Hlen) "Hbins".
  iDestruct (bins_acc av bs 1 with "Hbins") as "[Hring Hclose]"; [done..|].
  change (bin_at av (Z.of_nat 1)) with (last_remainder av). iFrame "Hclose".
  destruct l as [|[x s] [|]]; cbn in Hlen |- *; [|idtac|lia]; rewrite /ring /links /=.
  - iDestruct "Hring" as "[[H1 H2] _]". iSplitL "H1"; [by iExists _|]. iSplitL; [by iExists _|done].
  - iDestruct "Hring" as "([H1 H2] & [H3 H4] & _)".
    iSplitL "H1"; [by iExists _|]. iSplitL "H4"; [by iExists _|]. iSplit; [|done].
    iSplitL "H3"; by iExists _.
Qed.

Lemma wp_link_last bs l p sz g Q : bs !! 1%nat = Some l -> (length l <= 1)%nat ->
  bins av bs -∗ fd_ p ↦- -∗ bk_ p ↦- -∗
  (bins av (<[1%nat := [(p, sz)]]> bs) -∗ links l -∗ Q tt g) -∗
  wp (link_last_remainder av p) g Q.
Proof.
  iIntros (Hl Hlen) "Hbins Hf Hb HQ".
  iDestruct (bins_open_last with "Hbins") as "(Hlf & Hlb & Hl & Hclose)"; [done..|].
  rewrite /link_last_remainder. wp_store "Hlb". wp_store "Hlf". wp_store "Hb". wp_store "Hf".
  iApply ("HQ" with "[-Hl] Hl"). iApply ("Hclose" $! [(p, sz)]).
  rewrite /ring /= /edge. iFrame.
Qed.

Lemma wp_clear_last bs l g Q : bs !! 1%nat = Some l -> (length l <= 1)%nat ->
  bins av bs -∗ (bins av (<[1%nat := []]> bs) -∗ links l -∗ Q tt g) -∗
  wp (clear_last_remainder av) g Q.
Proof.
  iIntros (Hl Hlen) "Hbins HQ".
  iDestruct (bins_open_last with "Hbins") as "(Hlf & Hlb & Hl & Hclose)"; [done..|].
  rewrite /clear_last_remainder. wp_store "Hlb". wp_store "Hlf".
  iApply ("HQ" with "[-Hl] Hl"). iApply ("Hclose" $! []). rewrite /ring /= /edge. iFrame.
Qed.

(** The block now borders a row [cs'] whose first chunk is in use. *)
Definition forward_done (p sz nsz : Z) (nu : bool) (cs3 : list (Z * bool)) (bb : Z) (fr1 : list (Z * Z))
    (sz' : Z) (islr' : bool) (bs' : list (list (Z * Z))) (cs' : list (Z * bool)) : Prop :=
  lastu false cs' = true /\ sz' + total cs' = sz + nsz + total cs3 /\ size_ok sz' /\
  useds (p + sz') cs' = useds (p + sz) ((nsz, nu) :: cs3) /\
  bins_mid bb bs' p islr' (fr1 ++ frees (p + sz') cs').

(** The free chunk after the block is in some bin; taking it out, or replacing
    the last remainder by the block, leaves the bins as they should be. *)
Lemma mid_free bb bs p islr fr1 e nsz fr3 :
  bins_mid bb bs p islr (fr1 ++ (e, nsz) :: fr3) -> p <> e ->
  exists i l1 l2, bs !! i = Some (l1 ++ (e, nsz) :: l2) /\ i <> 0%nat /\
    ((i = 1%nat -> islr = true) -> bins_mid bb (<[i := l1 ++ l2]> bs) p islr (fr1 ++ fr3)) /\
    (i = 1%nat -> islr = false -> l1 = [] /\ l2 = [] /\
       bins_mid bb (<[1%nat := [(p, 0)]]> bs) p true (fr1 ++ fr3)).
Proof.
  intros [Hok Hmid] Hne.
  assert (exists rest, concat bs ≡ₚ (e, nsz) :: rest) as [r Hr].
  { destruct islr; [destruct Hmid as (s & _ & Hp); exists ((p, s) :: fr1 ++ fr3)|exists (fr1 ++ fr3)].
    - rewrite Hp -Permutation_middle. constructor.
    - by rewrite Hmid -Permutation_middle. }
  destruct (free_in_bin _ _ _ _ _ Hok Hr) as (i & l1 & l2 & Hi & H0 & Hr' & Hok').
  exists i, l1, l2. split_and!; [done|done| |].
  - intros Hi1. split; [done|]. destruct islr.
    + destruct Hmid as (s & Hl & Hp). exists s. split.
      * rewrite list_lookup_insert_ne //. intros ->. rewrite Hl in Hi.
        destruct l1 as [|? []]; try done. by injection Hi as ? _.
      * rewrite Hr'. apply (Permutation_cons_inv (a := (e, nsz))).
        rewrite -Hr Hp -Permutation_middle. constructor.
    + rewrite Hr'. apply (Permutation_cons_inv (a := (e, nsz))). by rewrite -Hr Hmid -Permutation_middle.
  - intros -> ->. destruct (bo_last _ _ Hok) as (l & Hl & Hlen). rewrite Hi in Hl. injection Hl as <-.
    rewrite length_app /= in Hlen. destruct l1, l2; cbn in Hlen; try lia. split_and!; try done.
    split; [apply bins_ok_last; [done|cbn; lia]|]. exists 0. split.
    + rewrite list_lookup_insert_eq //. rewrite (bo_length _ _ Hok). lia.
    + apply (Permutation_app_inv_r [(e, nsz)]). rewrite (concat_insert bs 1 [(e, nsz)]) // Hmid.
      rewrite (Permutation_app_comm (fr1 ++ _) [(p, 0)]). apply Permutation_skip.
      change (fr1 ++ (e, nsz) :: fr3 ≡ₚ (fr1 ++ fr3) ++ [(e, nsz)]).
      rewrite (Permutation_app_comm (fr1 ++ fr3) [(e, nsz)]). symmetry. apply (Permutation_middle fr1 fr3).
Qed.

Lemma wp_free_forward p sz islr nsz nu cs3 tsz bb bs fr1 g Q :
  let e := p + sz in
  size_ok sz -> size_ok nsz -> size_ok tsz -> sz + nsz < 2 ^ 60 -> lastu nu cs3 = true ->
  bins_mid bb bs p islr (fr1 ++ frees e ((nsz, nu) :: cs3)) ->
  hole p e islr -∗ bins av bs -∗ size_ e ↦ header nsz false -∗
  (if nu then emp else cells (e + 32) (e + nsz) ∗ (e + nsz) ↦ nsz) -∗
  seg (e + nsz) nu cs3 -∗ size_ (e + nsz + total cs3) ↦ header tsz true -∗
  (∀ sz' islr' bs' cs', ⌜forward_done p sz nsz nu cs3 bb fr1 sz' islr' bs' cs'⌝ -∗
     hole p (p + sz') islr' -∗ bins av bs' -∗ seg (p + sz') false cs' -∗
     size_ (p + sz' + total cs') ↦ header tsz true -∗ Q (sz', islr') g) -∗
  wp (free_forward av p sz e nsz islr) g Q.
Proof.
  iIntros (e Hsz Hnsz Htsz Hbound Hlast [Hok Hmid]) "Hhole Hbins Hh Hn Hseg Htop HQ".
  rewrite /free_forward /inuse_bit_at_offset. iApply wp_bind.
  iDestruct (seg_read_next with "[$Hseg $Htop]") as (s) "(%Hs & Hnx & Hclose)"; [done..|].
  wp_load "Hnx". iDestruct ("Hclose" with "Hnx") as "[Hseg Htop]". wp_ret.
  rewrite header_bit_test; [|apply Hs]. rewrite negb_involutive. destruct nu; cbn [negb].
  { wp_ret. iApply ("HQ" $! sz islr bs ((nsz, true) :: cs3) with "[%] Hhole Hbins [Hh Hseg]").
    - split; [done|]. split; [cbn; lia|]. by split_and!.
    - cbn. iFrame. auto.
    - cbn. by replace (p + sz + (nsz + total cs3)) with (e + nsz + total cs3) by lia. }
  iDestruct "Hn" as "[Hc Hfoot]". destruct Hsz as [Hs1 Hs2]. pose proof Hnsz as [Hn1 Hn2].
  assert (Hfin : forall islr' bs', bins_mid bb bs' p islr' (fr1 ++ frees (e + nsz) cs3) ->
    forward_done p sz nsz false cs3 bb fr1 (sz + nsz) islr' bs' cs3).
  { intros islr' bs' H. split; [done|]. split; [lia|]. split; [split; [lia|mlia]|].
    rewrite Z.add_assoc. by split. }
  replace (e + nsz) with (p + (sz + nsz)) by lia.
  destruct (mid_free bb bs p islr fr1 e nsz (frees (e + nsz) cs3)) as (i & l1 & l2 & Hi & H0 & Hmid' & Hlr); [done|lia|].
  iDestruct (bins_fd_last with "Hbins") as %Elr; [done..|].
  iDestruct (bins_acc av bs i with "Hbins") as "[Hring Hclose]"; [done..|].
  assert (E : (l1 ++ (e, nsz) :: l2).*1 = l1.*1 ++ e :: l2.*1) by by rewrite fmap_app.
  rewrite E. iDestruct (ring_fd with "Hring") as "[Hf Hring]". wp_load "Hf".
  iDestruct ("Hring" with "Hf") as "Hring". iEval (rewrite -E) in "Hring".
  iDestruct ("Hclose" with "Hring") as "Hbins". rewrite list_insert_id // Elr uwrap_small; [|rewrite /in_u; lia].
  destruct (negb islr && bool_decide (i = 1%nat)) eqn:Ecase.
  - apply andb_true_iff in Ecase as [Eil ->%bool_decide_eq_true]. apply negb_true_iff in Eil as ->.
    destruct (Hlr eq_refl eq_refl) as (-> & -> & Hlast1). iDestruct "Hhole" as "(Hs & (Hf & Hb) & Hc2)".
    iApply wp_bind. iApply (wp_link_last bs [(e, nsz)] p 0 with "Hbins Hf Hb"); [done|cbn; lia|].
    iIntros "Hbins [[Hf Hb] _]". wp_ret.
    iApply ("HQ" $! (sz + nsz) true with "[%] [-Hbins Hseg Htop] Hbins Hseg Htop"); [by apply Hfin|].
    replace (p + (sz + nsz)) with (e + nsz) by lia.
    iApply (hole_grow p e true with "[$Hs $Hc2] Hh Hf Hb Hc Hfoot"); [lia|mlia|done].
  - iApply wp_bind. iApply (wp_unlink_bin with "Hbins"); [done..|]. iIntros "Hf Hb Hbins". wp_ret.
    iApply ("HQ" $! (sz + nsz) islr with "[%] [-Hbins Hseg Htop] Hbins Hseg Htop").
    + apply Hfin, Hmid'. intros ->. destruct islr; [done|]. cbn in Ecase. by rewrite bool_decide_eq_false in Ecase.
    + replace (p + (sz + nsz)) with (e + nsz) by lia.
      iApply (hole_grow p e islr with "Hhole Hh Hf Hb Hc Hfoot"); [lia|mlia|done].
Qed.

(** A released block before the top chunk becomes part of it. *)
Lemma hole_top q e v tsz : q + 32 <= e -> (e - q) mod 16 = 0 -> size_ok tsz ->
  hole q e false -∗ size_ e ↦ v -∗ cells (e + 16) (e + tsz) -∗
  size_ q ↦- ∗ cells (q + 16) (e + tsz).
Proof.
  iIntros (H1 H2 [Ht _]) "($ & (Hf & Hb) & Hc) Hh Hc2".
  rewrite (cells_cons (q + 16)); [|lia]. rewrite (cells_cons (q + 16 + 8)); [|lia].
  replace (q + 16 + 8) with (q + 24) by lia. replace (q + 24 + 8) with (q + 32) by lia.
  iFrame "Hf Hb". rewrite /size_.
  iApply (cells_glue (e + 8) with "Hc Hh"); [lia|lia|mlia|].
  by replace (e + 8 + 8) with (e + 16) by lia.
Qed.

(** The new top chunk, before trimming. *)
Lemma wp_top_merged base cs0 tsz bs bb v g Q :
  arena_ok g base cs0 tsz bs bb ->
  fd_ (bin_at av 0) ↦ v -∗ size_ (bin_at av 0) ↦ bb -∗ bins av bs -∗ seg base true cs0 -∗
  size_ (base + total cs0) ↦- -∗ cells (base + total cs0 + 16) (base + total cs0 + tsz) -∗
  cells (brk g) eheap -∗
  (∀ g' tsz', arena av g' base cs0 tsz' bs -∗ Q tt g') -∗
  wp (set_head (base + total cs0) (Z.lor tsz PREV_INUSE);;
      set_top av (base + total cs0);;
      trim ← getg trim_threshold;
      pad ← getg top_pad;
      if trim <=? tsz then _ ← malloc_trim av pad; mret tt else mret tt) g Q.
Proof.
  iIntros (Hok) "Htop Hbb Hbins Hseg Hh Hc Hres HQ". rewrite /set_head /set_top.
  wp_store "Hh". wp_store "Htop". wp_getg. wp_getg. rewrite header_true; [|apply Hok].
  iAssert (arena av g base cs0 tsz bs) with "[-HQ]" as "Ha"; [iExists bb; by iFrame|].
  destruct (_ <=? _).
  - iApply wp_bind. iApply (wp_malloc_trim with "Ha"). iIntros (r g' tsz') "Ha". wp_ret.
    by iApply "HQ".
  - wp_ret. by iApply "HQ".
Qed.

(** The arena after the chunk before top became part of it. *)
Lemma arena_ok_merged g base cs0 cs tsz tsz' bs bb bs' :
  arena_ok g base cs tsz bs bb -> lastu true cs0 = true -> total cs0 + tsz' = total cs + tsz ->
  size_ok tsz' -> bins_ok bb bs' -> concat bs' ≡ₚ frees base cs0 -> arena_ok g base cs0 tsz' bs' bb.
Proof. intros [] ? ? ? ? ?. split; try done. lia. Qed.

Lemma wp_free_into_top base cs1 sz tsz bs bb g Q :
  let p := base + total cs1 in
  arena_ok g base (cs1 ++ [(sz, true)]) tsz bs bb -> size_ok sz ->
  fd_ (bin_at av 0) ↦ (p + sz) -∗ size_ (bin_at av 0) ↦ bb -∗ bins av bs -∗ seg base true cs1 -∗
  hole p (p + sz) false -∗ size_ (p + sz) ↦ header tsz true -∗
  cells (p + sz + 16) (p + sz + tsz) -∗ cells (brk g) eheap -∗
  (∀ g' cs' tsz' bs', ⌜useds base cs' = useds base cs1⌝ -∗ arena av g' base cs' tsz' bs' -∗ Q tt g') -∗
  wp (free_into_top av p (header sz (lastu true cs1)) sz tsz) g Q.
Proof.
  iIntros (p Hok Hsz) "Htop Hbb Hbins Hseg Hhole Hh Hc Hres HQ". pose proof Hok as [].
  pose proof Hsz as [Hs1 Hs2]. pose proof ao_top0 as [Ht1 Ht2].
  iDestruct (seg_sizes with "Hseg") as %Hcs. pose proof (total_nonneg _ Hcs) as Ht0.
  assert (Heh : eheap = 2 ^ 22) by done. rewrite total_app /= in ao_end0.
  rewrite chunks_in_app /= app_nil_r in ao_perm0.
  rewrite /free_into_top header_bit_test // uwrap_small; [|rewrite /in_u; lia].
  destruct (lastu true cs1) eqn:Eu; cbn [negb].
  - wp_ret. iDestruct (hole_top with "Hhole Hh Hc") as "[Hh Hc]"; [lia|mlia|done|].
    replace (p + sz + tsz) with (p + (sz + tsz)) by lia.
    iApply (wp_top_merged with "Htop Hbb Hbins Hseg Hh Hc Hres").
    + eapply arena_ok_merged; try done; [rewrite total_app /=; lia|split; [lia|mlia]].
    + iIntros (g' tsz') "Ha". by iApply ("HQ" $! g' cs1).
  - destruct (lastu_false _ Eu) as (cs0 & psz & ->). rewrite seg_mid.
    iDestruct "Hseg" as "(Hseg & (%Hpsz & Hqh & %Hpu & Hqc & Hfoot) & _)".
    set (q := base + total cs0). assert (Hp : q + psz = p) by (rewrite /p total_app /= /q; lia).
    rewrite Hp. rewrite total_app /= in Ht0 ao_end0. apply Forall_app in Hcs as [Hcs0 _].
    pose proof (total_nonneg _ Hcs0). destruct Hpsz as [Hp1 Hp2].
    iApply wp_bind. wp_load "Hfoot". replace (p - psz) with q by lia.
    rewrite chunks_in_app /= in ao_perm0. fold q in ao_perm0. rewrite -Permutation_middle app_nil_r in ao_perm0.
    destruct (free_in_bin _ _ _ _ _ ao_bins0 ao_perm0) as (i & l1 & l2 & Hi & H0 & Hperm' & Hok').
    iApply wp_bind. iApply (wp_unlink_bin with "Hbins"); [done..|]. iIntros "Hf Hb Hbins". wp_ret.
    iAssert (size_ q ↦-)%I with "[Hqh]" as "Hqh"; [by iExists _|].
    iDestruct (hole_join q p _ false with "Hqh [$Hf $Hb] Hqc Hfoot Hhole") as "Hhole"; [lia|lia|mlia|].
    iDestruct (hole_top with "Hhole Hh Hc") as "[Hh Hc]"; [lia|mlia|done|].
    rewrite uwrap_small; [|rewrite /in_u; lia].
    replace (p + sz + tsz) with (q + (sz + tsz + psz)) by lia.
    iApply (wp_top_merged with "Htop Hbb Hbins Hseg Hh Hc Hres").
    + eapply arena_ok_merged; try done; [rewrite !total_app /=; lia|split; [lia|mlia]].
    + iIntros (g' tsz') "Ha". iApply ("HQ" $! g' cs0 with "[%] Ha").
      rewrite chunks_in_app /=. by rewrite app_nil_r.
Qed.

(** The released block is put into its bin, or stays the last remainder. *)
Lemma wp_free_finish fuel base cs0 sz cs3 islr tsz bb bs g Q :
  let p := base + total cs0 in
  let cs := cs0 ++ (sz, false) :: cs3 in
  lastu true cs0 = true -> size_ok sz ->
  bins_mid bb bs p islr (frees base cs0 ++ frees (p + sz) cs3) -> (length (concat bs) <= fuel)%nat ->
  (forall bs' bb', bins_ok bb' bs' -> concat bs' ≡ₚ frees base cs -> arena_ok g base cs tsz bs' bb') ->
  hole p (p + sz) islr -∗ bins av bs -∗ seg base true cs0 -∗ seg (p + sz) false cs3 -∗
  size_ (bin_at av 0) ↦ bb -∗ fd_ (bin_at av 0) ↦ (base + total cs) -∗
  size_ (base + total cs) ↦ header tsz true -∗
  cells (base + total cs + 16) (base + total cs + tsz) -∗ cells (brk g) eheap -∗
  (∀ bs', arena av g base cs tsz bs' -∗ Q tt g) -∗
  wp (set_head p (Z.lor sz PREV_INUSE);; set_foot p sz;;
      if negb islr then frontlink av fuel p sz else mret tt) g Q.
Proof.
  iIntros (p cs Hl Hsz [Hok Hmid] Hfuel Har) "(Hh & Hl & Hc) Hbins Hs0 Hs3 Hbb Htop Hth Htc Hres HQ".
  assert (Hfr : frees base cs ≡ₚ (p, sz) :: frees base cs0 ++ frees (p + sz) cs3).
  { rewrite /cs chunks_in_app /=. by rewrite -Permutation_middle. }
  assert (Hm8 : sz mod 8 = 0) by (destruct Hsz; mlia). destruct Hsz as [Hs1 Hs2].
  rewrite /set_head /set_foot. wp_store "Hh". rewrite header_true //.
  rewrite (cells_snoc (p + 32) (p + sz)); [|lia|mlia]. iDestruct "Hc" as "[Hc Hfoot]". wp_store "Hfoot".
  iAssert (∀ bs' bb', ⌜bins_ok bb' bs' /\ concat bs' ≡ₚ frees base cs⌝ -∗
    seg base true cs0 ∗ seg (p + sz) false cs3 -∗ bins av bs' -∗ size_ (bin_at av 0) ↦ bb' -∗
    Q tt g)%I with "[-Hbins Hs0 Hs3 Hbb Hl]" as "Hend".
  { iIntros (bs' bb' [Hok' Hp']) "[Hs0 Hs3] Hbins Hbb". iApply "HQ". iExists bb'.
    iSplit; [iPureIntro; by apply Har|]. iFrame. rewrite /cs seg_mid Hl. iFrame. auto. }
  destruct islr; cbn [negb].
  - wp_ret. destruct Hmid as (s & Hlast & Hp).
    iDestruct (bins_acc av bs 1 with "Hbins") as "[Hring Hclose]"; [done..|].
    iApply ("Hend" $! (<[1%nat := [(p, sz)]]> bs) bb with "[%] [$Hs0 $Hs3] [Hring Hclose] Hbb").
    + split; [apply bins_ok_last; [done|cbn; lia]|]. apply (Permutation_app_inv_r [(p, s)]).
      rewrite (concat_insert bs 1 [(p, s)]) // Hp Hfr. rewrite (Permutation_app_comm _ [(p, sz)]).
      rewrite (Permutation_app_comm _ [(p, s)]). constructor.
    + by iApply ("Hclose" $! [(p, sz)]).
  - iDestruct "Hl" as "[Hf Hb]".
    iApply (wp_frontlink (seg base true cs0 ∗ seg (p + sz) false cs3)%I fuel p sz bb bs
              with "[$Hs0 $Hs3] Hbins Hbb Hf Hb"); [done..| |done|].
    + eapply readable_perm; [|exact (symmetry Hmid)].
      apply readable_sep; intros x s Hx; by apply seg_read_free.
    + iIntros (bb' bs' Hlink) "Hs Hbins Hbb". iApply ("Hend" with "[%] Hs Hbins Hbb").
      split; [apply Hlink|]. by rewrite (linked_perm _ _ _ _ Hlink) Hmid Hfr.
Qed.

(** The loop bound that is enough for every scan of a bin: a chunk has at least
    32 bytes and all of them lie below the end of the heap. *)
Definition fuel_ok (fuel : nat) : Prop := eheap <= 32 * Z.of_nat fuel.

Lemma fuel_bins fuel g base cs tsz bs bb : fuel_ok fuel -> arena_ok g base cs tsz bs bb ->
  sizes_ok cs -> (length (concat bs) <= fuel)%nat.
Proof.
  intros Hf [] Hcs. rewrite ao_perm0. pose proof (chunks_in_length false base cs Hcs).
  destruct ao_top0. unfold fuel_ok in Hf. lia.
Qed.

Lemma bins_mid_length bb bs p islr fr n : bins_mid bb bs p islr fr -> (length fr + 1 <= n)%nat ->
  (length (concat bs) <= n)%nat.
Proof.
  intros [_ H] Hn. destruct islr; [destruct H as (s & _ & H)|]; rewrite H; cbn; lia.
Qed.

Theorem wp_free fuel base cs1 sz cs2 tsz bs g Q :
  let p := base + total cs1 in
  fuel_ok fuel ->
  arena av g base (cs1 ++ (sz, true) :: cs2) tsz bs -∗ cells (p + 16) (p + sz + 8) -∗
  (∀ g' cs' tsz' bs', ⌜useds base cs' = useds base cs1 ++ useds (p + sz) cs2⌝ -∗
     arena av g' base cs' tsz' bs' -∗ Q tt g') -∗
  wp (free av fuel (chunk2mem p)) g Q.
Proof.
  iIntros (p Hfuel) "(%bb & %Hok & Htop & Hbb & Hbins & Hseg & Hth & Htc & Hres) Hdata HQ".
  pose proof Hok as []. iDestruct (seg_sizes with "Hseg") as %Hcs.
  pose proof (fuel_bins _ _ _ _ _ _ _ Hfuel Hok Hcs) as Hlen.
  apply Forall_app in Hcs as [Hcs1 [Hsz Hcs2]%Forall_cons]. cbn in Hsz.
  pose proof (total_nonneg _ Hcs1). pose proof (total_nonneg _ Hcs2). pose proof Hsz as [Hs1 Hs2].
  pose proof ao_top0 as [Ht1 Ht2]. rewrite total_app /= in ao_end0. rewrite total_app /=.
  assert (Heh : eheap = 2 ^ 22) by done. rewrite lastu_app /= in ao_last0.
  replace (base + (total cs1 + (sz + total cs2))) with (p + sz + total cs2) in * by lia.
  rewrite seg_mid. iDestruct "Hseg" as "(Hseg1 & (_ & Hh & _) & Hseg2)". fold p.
  rewrite /free /chunk2mem /mem2chunk /SIZE_SZ. replace (p + 2 * 8 - 2 * 8) with p by lia. zdecide.
  wp_load "Hh". rewrite header_size1 //. rewrite /chunk_at_offset.
  iDestruct (hole_intro with "Hh Hdata") as "Hhole"; [done|].
  destruct cs2 as [|[nsz nu] cs3]; cbn [total seg] in *.
  - rewrite Z.add_0_r. iApply wp_bind. iApply (wp_chunksize with "Hth"). iIntros "Hth".
    rewrite header_size // /get_top. wp_load "Htop". rewrite Z.eqb_refl.
    iApply (wp_free_into_top with "Htop Hbb Hbins Hseg1 Hhole Hth Htc Hres"); [done..|].
    iIntros (g' cs' tsz' bs' E) "Ha". iApply ("HQ" with "[%] Ha"). by rewrite E app_nil_r.
  - iDestruct "Hseg2" as "[(%Hnsz & Hnh & Hn) Hseg3]". pose proof Hnsz as [Hn1 Hn2].
    apply Forall_cons in Hcs2 as [_ Hcs3]. pose proof (total_nonneg _ Hcs3).
    iApply wp_bind. iApply (wp_chunksize with "Hnh"). iIntros "Hnh".
    rewrite header_size // /get_top. wp_load "Htop". zdecide. rewrite /set_head. wp_store "Hnh".
    iApply wp_bind. rewrite chunks_in_app /= in ao_perm0. fold p in ao_perm0.
    iApply (wp_free_backward with "Hseg1 Hbins Hhole"); [done|lia|split; done|].
    iIntros (cs0 sz' islr bs' (B1 & B2 & B3 & B4 & B5)) "Hseg0 Hbins Hhole".
    iDestruct (seg_sizes with "Hseg0") as %Hcs0. pose proof (total_nonneg _ Hcs0).
    assert (Ee : p + sz = base + total cs0 + sz') by lia. rewrite Ee. iApply wp_bind.
    rewrite Ee in B5.
    iApply (wp_free_forward _ sz' islr nsz nu cs3 tsz bb bs' (frees base cs0) with "Hhole Hbins [Hnh] [Hn] Hseg3 [Hth]"); try done.
    + lia.
    + rewrite /header /= Z.add_0_r. done.
    + destruct nu; [done|]. iDestruct "Hn" as "(_ & $ & $)".
    + iEval (rewrite -Z.add_assoc). done.
    + iIntros (sz2 islr2 bs2 cs4 (F1 & F2 & F3 & F4 & F5)) "Hhole Hbins Hseg4 Hth".
      iDestruct (seg_sizes with "Hseg4") as %Hcs4.
      assert (Htot : base + total cs0 + sz2 + total cs4 = p + sz + (nsz + total cs3)) by lia.
      rewrite -Ee -Htot. destruct F3 as [F31 F32].
      iApply (wp_free_finish fuel base cs0 sz2 cs4 islr2 tsz bb bs2 with
        "Hhole Hbins Hseg0 Hseg4 Hbb [Htop] [Hth] [Htc] Hres"); try done.
      * pose proof (chunks_in_length false base _ Hcs0).
        pose proof (chunks_in_length false (base + total cs0 + sz2) _ Hcs4).
        apply (bins_mid_length _ _ _ _ _ _ F5). rewrite length_app. unfold fuel_ok in Hfuel. lia.
      * intros bs3 bb3 Hb3 Hp3. split; try done; [by rewrite lastu_app|rewrite total_app /=; lia].
      * rewrite total_app /= !Z.add_assoc. done.
      * rewrite total_app /= !Z.add_assoc. done.
      * rewrite total_app /= !Z.add_assoc. done.
      * iIntros (bs3) "Ha". iApply ("HQ" with "[%] Ha").
        rewrite chunks_in_app /= F4 B4 Ee. done.
Qed.
End Free.
