(* ===== verification/MallocAlloc.v ===== *)
(** Handing out memory: the specification of malloc of file Malloc, in the logic of
    file HeapLogic. *)

From iris.proofmode Require Import proofmode.
From S2P Require Import Prelude Kvm HeapLogic GuestSys Malloc MallocInv MallocFree.

Section Alloc.
Context {X : Type} (av : Z).
Implicit Types (g : @mvars X).

(** ** The arena without the top chunk *)

Record pool_ok (base : Z) (cs : list (Z * bool)) (bs : list (list (Z * Z))) (bb : Z) : Prop := PoolOk {
  po_last : lastu true cs = true;
  po_bins : bins_ok bb bs;
  po_perm : concat bs ≡ₚ frees base cs
}.

Definition pool (base : Z) (cs : list (Z * bool)) (bs : list (list (Z * Z))) : hprop :=
  (∃ bb, ⌜pool_ok base cs bs bb⌝ ∗ size_ (bin_at av 0) ↦ bb ∗ bins av bs ∗ seg base true cs)%I.

Record top_ok g (base top tsz : Z) : Prop := TopOk {
  to_size : size_ok tsz;
  to_base : 0 < base /\ base mod 16 = 0;
  to_end : top + tsz = brk g;
  to_page : brk g mod 4096 = 0 /\ brk g <= eheap;
  to_sbrk_base : 0 <= sbrk_base g <= base;
  to_sbrked : sbrked_mem g = brk g - sbrk_base g;
  to_pad : 0 <= top_pad g <= 2 ^ 30
}.

Definition topchunk g (base top tsz : Z) : hprop :=
  (⌜top_ok g base top tsz⌝ ∗ fd_ (bin_at av 0) ↦ top ∗ size_ top ↦ header tsz true ∗
   cells (top + 16) (top + tsz) ∗ cells (brk g) eheap)%I.

Lemma arena_pool g base cs tsz bs :
  arena av g base cs tsz bs ⊣⊢ pool base cs bs ∗ topchunk g base (base + total cs) tsz.
Proof.
  iSplit.
  - iIntros "(%bb & %Hok & Htop & Hbb & Hbins & Hseg & Hh & Hc & Hres)". destruct Hok.
    iSplitL "Hbb Hbins Hseg".
    + iExists bb. iFrame. by iPureIntro.
    + iFrame. by iPureIntro.
  - iIntros "[(%bb & %Hok & Hbb & Hbins & Hseg) (%Ht & Htop & Hh & Hc & Hres)]". destruct Hok, Ht.
    iExists bb. iFrame. by iPureIntro.
Qed.

(** ** Taking a free chunk *)

(** What an allocation from the row gives: the memory of a chunk of about the
    size asked for, which is now in use. *)
Record taken (base : Z) (cs : list (Z * bool)) (nb v vsz : Z) (cs' : list (Z * bool)) : Prop := Taken_ {
  tk_size : nb <= vsz < nb + 32;
  tk_total : total cs' = total cs;
  tk_last : lastu true cs' = true;
  tk_useds : useds base cs' ≡ₚ (v, vsz) :: useds base cs
}.

Definition got (base : Z) (cs : list (Z * bool)) (nb mem : Z) : hprop :=
  (∃ v vsz cs' bs', ⌜mem = chunk2mem v /\ taken base cs nb v vsz cs'⌝ ∗
     pool base cs' bs' ∗ cells (v + 16) (v + vsz + 8))%I.

Lemma lastu_nonempty b cs : lastu false cs = true -> lastu b cs = true.
Proof. by destruct cs as [|[sz u] cs]. Qed.

(** The words of a free chunk are its user's. *)
Lemma chunk_cells v sz : size_ok sz ->
  fd_ v ↦- -∗ bk_ v ↦- -∗ cells (v + 32) (v + sz) -∗ (v + sz) ↦- -∗ cells (v + 16) (v + sz + 8).
Proof.
  iIntros ([H1 H2]) "Hf Hb Hc Hw". rewrite (cells_cons (v + 16)); [|lia].
  rewrite (cells_cons (v + 16 + 8)); [|lia].
  replace (v + 16 + 8) with (v + 24) by lia. replace (v + 24 + 8) with (v + 32) by lia.
  iFrame "Hf Hb". rewrite cells_snoc; [|lia|mlia]. iFrame.
Qed.

(** The row with a free chunk taken whole. *)
Lemma row_take base cs v vsz : (v, vsz) ∈ frees base cs -> lastu true cs = true ->
  seg base true cs ⊢ ∃ s cs', ⌜size_ok s /\ size_ok vsz /\ total cs' = total cs /\
      lastu true cs' = true /\ useds base cs' ≡ₚ (v, vsz) :: useds base cs /\
      frees base cs ≡ₚ (v, vsz) :: frees base cs'⌝ ∗
    size_ (v + vsz) ↦ header s false ∗
    (size_ (v + vsz) ↦ header s true -∗ fd_ v ↦- -∗ bk_ v ↦- -∗
       seg base true cs' ∗ cells (v + 16) (v + vsz + 8)).
Proof.
  intros (cs1 & cs2 & -> & ->)%chunks_in_elem Hl. rewrite seg_mid. set (v := base + total cs1).
  iIntros "(H1 & (%Hsz & Hh & %Hpu & Hc & Hfoot) & H2)". rewrite lastu_app /= in Hl.
  iDestruct (seg_set_inuse with "H2") as (s) "(%Hs & Hn & H2)"; [done|].
  iExists s, (cs1 ++ (vsz, true) :: cs2). iFrame "Hn". iSplit.
  - iPureIntro. rewrite !total_app !chunks_in_app /= lastu_app. conjs; try done.
    + cbn. by apply lastu_nonempty.
    + by rewrite -Permutation_middle.
    + by rewrite -Permutation_middle.
  - iIntros "Hn Hf Hb". iDestruct ("H2" with "Hn") as "H2".
    iSplitR "Hf Hb Hc Hfoot".
    + rewrite seg_mid. iFrame. auto.
    + iApply (chunk_cells with "Hf Hb Hc"); [done|]. by iExists _.
Qed.

(** The row with the front of a free chunk taken and the rest left free. *)
Lemma row_split base cs v vsz nb : (v, vsz) ∈ frees base cs -> size_ok nb -> nb + 32 <= vsz ->
  lastu true cs = true ->
  let rem := v + nb in
  seg base true cs ⊢ ∃ cs', ⌜size_ok vsz /\ size_ok (vsz - nb) /\ total cs' = total cs /\
      lastu true cs' = true /\ useds base cs' ≡ₚ (v, nb) :: useds base cs /\
      exists fr, frees base cs ≡ₚ (v, vsz) :: fr /\ frees base cs' ≡ₚ (rem, vsz - nb) :: fr⌝ ∗
    size_ v ↦ header vsz true ∗ size_ rem ↦- ∗ fd_ rem ↦- ∗ bk_ rem ↦- ∗ (rem + (vsz - nb)) ↦- ∗
    (size_ v ↦ header nb true -∗ size_ rem ↦ header (vsz - nb) true -∗
       (rem + (vsz - nb)) ↦ (vsz - nb) -∗ fd_ v ↦- -∗ bk_ v ↦- -∗
       seg base true cs' ∗ cells (v + 16) (v + nb + 8)).
Proof.
  intros (cs1 & cs2 & -> & ->)%chunks_in_elem Hnb Hle Hl rem. rewrite seg_mid. set (v := base + total cs1) in *.
  iIntros "(H1 & (%Hsz & Hh & %Hpu & Hc & Hfoot) & H2)". rewrite lastu_app /= in Hl.
  pose proof Hnb as [Hn1 Hn2]. pose proof Hsz as [Hs1 Hs2].
  assert (Hrem : size_ok (vsz - nb)) by (split; [lia|mlia]).
  iExists (cs1 ++ (nb, true) :: (vsz - nb, false) :: cs2). rewrite Hpu.
  replace (rem + (vsz - nb)) with (v + vsz) by lia. iSplit.
  { iPureIntro. rewrite !total_app !chunks_in_app /= lastu_app /=. fold v.
    replace (v + nb + (vsz - nb)) with (v + vsz) by lia. conjs; try done; [lia| |].
    - by rewrite -Permutation_middle.
    - exists (frees base cs1 ++ frees (v + vsz) cs2). by rewrite -!Permutation_middle. }
  rewrite (cells_split (rem + 8) (v + 32)); [|lia|mlia]. iDestruct "Hc" as "[Hu Hc]".
  rewrite (cells_cons (rem + 8)); [|lia]. rewrite (cells_cons (rem + 8 + 8)); [|lia].
  rewrite (cells_cons (rem + 8 + 8 + 8)); [|lia].
  replace (rem + 8 + 8) with (rem + 16) by lia. replace (rem + 16 + 8) with (rem + 24) by lia.
  replace (rem + 24 + 8) with (rem + 32) by lia. iDestruct "Hc" as "($ & $ & $ & Hc)".
  iFrame "Hh". iSplitL "Hfoot"; [by iExists _|].
  iIntros "Hh Hrh Hfoot Hf Hb". iSplitR "Hf Hb Hu".
  - rewrite seg_mid seg_cons /chunk. fold v rem. replace (rem + (vsz - nb)) with (v + vsz) by lia. rewrite Hpu.
    iFrame. auto.
  - rewrite (cells_cons (v + 16)); [|lia]. rewrite (cells_cons (v + 16 + 8)); [|lia].
    replace (v + 16 + 8) with (v + 24) by lia. replace (v + 24 + 8) with (v + 32) by lia. iFrame.
Qed.

Lemma bin_free base cs bs bb i l1 v vsz l2 : pool_ok base cs bs bb ->
  bs !! i = Some (l1 ++ (v, vsz) :: l2) -> (v, vsz) ∈ frees base cs /\ i <> 0%nat.
Proof.
  intros [] Hi. split.
  - rewrite -po_perm0 (concat_split bs i) //. set_solver.
  - intros ->. rewrite (bo_zero _ _ po_bins0) in Hi. by destruct l1.
Qed.

(** Take a chunk of about the right size out of its bin; the bit of the chunk
    after it is set before or after. *)
Lemma pool_take base cs bs i l1 v vsz l2 nb : bs !! i = Some (l1 ++ (v, vsz) :: l2) ->
  nb <= vsz < nb + 32 ->
  pool base cs bs ⊢ ∃ s, ⌜size_ok s /\ i <> 0%nat⌝ ∗ size_ (v + vsz) ↦ header s false ∗ bins av bs ∗
    (size_ (v + vsz) ↦ header s true -∗ fd_ v ↦- -∗ bk_ v ↦- -∗ bins av (<[i := l1 ++ l2]> bs) -∗
       got base cs nb (chunk2mem v)).
Proof.
  iIntros (Hi Hsz) "(%bb & %Hok & Hbb & Hbins & Hseg)". pose proof Hok as [].
  destruct (bin_free _ _ _ _ _ _ _ _ _ Hok Hi) as [Hfree H0].
  iDestruct (row_take with "Hseg") as (s cs') "(%H & Hn & Hseg)"; [done..|].
  destruct H as (Hs & Hv & Ht & Hl & Hu & Hf). iExists s. iFrame "Hn Hbins". iSplit; [done|].
  iIntros "Hn Hf Hb Hbins". iDestruct ("Hseg" with "Hn Hf Hb") as "[Hseg Hc]".
  iExists v, vsz, cs', (<[i := l1 ++ l2]> bs). iFrame. iSplit; [done|]. iPureIntro.
  split; [done|by eapply bins_ok_remove|].
  apply (Permutation_cons_inv (a := (v, vsz))). by rewrite -Hf -po_perm0 (concat_remove bs i).
Qed.

Lemma wp_take_chunk base cs bs i l1 v vsz l2 nb g Q : bs !! i = Some (l1 ++ (v, vsz) :: l2) ->
  nb <= vsz < nb + 32 ->
  pool base cs bs -∗ (got base cs nb (chunk2mem v) -∗ Q (chunk2mem v) g) -∗
  wp (take_chunk v vsz) g Q.
Proof.
  iIntros (Hi Hsz) "Hp HQ". iDestruct (pool_take with "Hp") as (s [Hs H0]) "(Hn & Hbins & Hc)"; [done..|].
  rewrite /take_chunk. iApply wp_bind. iApply (wp_unlink_bin with "Hbins"); [done..|].
  iIntros "Hf Hb Hbins". iApply wp_bind. iApply (wp_set_inuse with "Hn"). iIntros "Hn".
  rewrite header_set; [|apply Hs]. wp_ret. iApply "HQ". iApply ("Hc" with "Hn Hf Hb Hbins").
Qed.

(** ** The search *)

(** No chunk of a bin before [idx] is big enough. *)
Definition below (bs : list (list (Z * Z))) (nb idx : Z) : Prop :=
  forall i xs x, bs !! i = Some xs -> (2 <= i)%nat -> Z.of_nat i < idx -> x ∈ xs -> x.2 < nb.

(** The chunks from bin [idx] on are big enough, or one in that bin is. *)
Definition above (bs : list (list (Z * Z))) (nb idx : Z) : Prop :=
  bin_index nb < idx \/
  (idx = bin_index nb /\ exists xs x, bs !! Z.to_nat idx = Some xs /\ x ∈ xs /\ nb <= x.2).

Record resume_ok (bs : list (list (Z * Z))) (nb idx : Z) : Prop := ResumeOk {
  ro_range : 6 <= idx <= 127;
  ro_below : below bs nb idx;
  ro_above : above bs nb idx
}.

(** What a stage of the search leaves behind. *)
Definition stage base cs bs nb (r : searched) : hprop :=
  match r with
  | Taken mem => got base cs nb mem
  | Resume idx => ⌜resume_ok bs nb idx⌝ ∗ pool base cs bs
  end%I.

Lemma below_start bb bs nb idx : bins_ok bb bs -> 0 <= nb -> (forall x, x ∈ concat bs -> 0 <= x.2) ->
  idx <= bin_index nb -> below bs nb idx.
Proof.
  intros Hok Hnb Hpos Hle i xs x Hi Hi2 Hlt Hx. pose proof (bo_index _ _ Hok i xs x Hi Hi2 Hx) as E.
  destruct (Z_lt_le_dec x.2 nb); [done|]. pose proof (bin_index_mono nb x.2 ltac:(lia)). lia.
Qed.

Lemma pool_sizes base cs bs : pool base cs bs -∗ ⌜forall x, x ∈ concat bs -> size_ok x.2⌝.
Proof.
  iIntros "(%bb & %Hok & _ & _ & Hseg)". iDestruct (seg_sizes with "Hseg") as %Hcs. iPureIntro.
  intros [x sz] Hx. rewrite (po_perm _ _ _ _ Hok) in Hx.
  apply chunks_in_elem in Hx as (cs1 & cs2 & -> & _). apply Forall_app in Hcs as [_ Hcs].
  by apply Forall_cons in Hcs as [H _].
Qed.

(** Reading the header of a chunk in a bin, and the links of the bin. *)
Lemma pool_read base cs bs i l1 v vsz l2 : bs !! i = Some (l1 ++ (v, vsz) :: l2) ->
  pool base cs bs ⊢ ⌜size_ok vsz⌝ ∗ size_ v ↦ header vsz true ∗ (size_ v ↦ header vsz true -∗ pool base cs bs).
Proof.
  iIntros (Hi) "(%bb & %Hok & Hbb & Hbins & Hseg)".
  destruct (bin_free _ _ _ _ _ _ _ _ _ Hok Hi) as [Hfree _].
  iDestruct (seg_read_free _ _ _ _ Hfree with "Hseg") as "($ & $ & Hc)".
  iIntros "Hh". iExists bb. iFrame. iSplit; [done|]. by iApply "Hc".
Qed.

Lemma pool_ring base cs bs i xs : bs !! i = Some xs -> i <> 0%nat ->
  pool base cs bs ⊢ ring (bin_at av (Z.of_nat i)) xs.*1 ∗
    (ring (bin_at av (Z.of_nat i)) xs.*1 -∗ pool base cs bs).
Proof.
  iIntros (Hi H0) "(%bb & %Hok & Hbb & Hbins & Hseg)".
  iDestruct (bins_acc with "Hbins") as "[$ Hc]"; [done..|]. iIntros "Hr".
  iExists bb. iFrame. iSplit; [done|]. iDestruct ("Hc" with "Hr") as "H". by rewrite list_insert_id.
Qed.

Lemma wp_last_bin base cs bs i xs g Q : bs !! i = Some xs -> i <> 0%nat ->
  pool base cs bs -∗
  (pool base cs bs -∗ Q (lastd (bin_at av (Z.of_nat i)) xs.*1) g) -∗
  wp (last (bin_at av (Z.of_nat i))) g Q.
Proof.
  iIntros (Hi H0) "Hp HQ". iDestruct (pool_ring with "Hp") as "[Hr Hp]"; [done..|].
  iDestruct (ring_last with "Hr") as "[Hl Hr]". rewrite /last. wp_load "Hl".
  iApply "HQ". iApply "Hp". by iApply "Hr".
Qed.

Lemma pool_ne base cs bs i xs x : bs !! i = Some xs -> i <> 0%nat -> x ∈ xs ->
  pool base cs bs -∗ ⌜x.1 <> bin_at av (Z.of_nat i)⌝.
Proof.
  iIntros (Hi H0 Hx) "Hp". iDestruct (pool_ring with "Hp") as "[Hr _]"; [done..|].
  iApply (ring_ne with "Hr"). apply list_elem_of_fmap. eauto.
Qed.

Lemma long_sub_eq x y : size_ok x -> size_ok y -> long_sub_size_t x y = x - y.
Proof. intros [H1 _] [H2 _]. rewrite /long_sub_size_t swrap_small //. rewrite /in_s. lia. Qed.

(** Step back from the last of the chunks not seen yet. *)
Lemma wp_step_back base cs bs i l1 v vsz l2 g Q : bs !! i = Some (l1 ++ (v, vsz) :: l2) -> i <> 0%nat ->
  pool base cs bs -∗ (pool base cs bs -∗ Q (lastd (bin_at av (Z.of_nat i)) l1.*1) g) -∗
  wp (load (bk_ v)) g Q.
Proof.
  iIntros (Hi H0) "Hp HQ". iDestruct (pool_ring with "Hp") as "[Hr Hp]"; [done..|].
  assert (E : (l1 ++ (v, vsz) :: l2).*1 = l1.*1 ++ v :: l2.*1) by by rewrite fmap_app. rewrite E.
  iDestruct (ring_bk with "Hr") as "[Hb Hr]". wp_load "Hb". iApply "HQ". iApply "Hp". by iApply "Hr".
Qed.

Lemma wp_pool_chunksize base cs bs i l1 v vsz l2 g Q : bs !! i = Some (l1 ++ (v, vsz) :: l2) ->
  pool base cs bs -∗ (⌜size_ok vsz⌝ -∗ pool base cs bs -∗ Q vsz g) -∗ wp (chunksize v) g Q.
Proof.
  iIntros (Hi) "Hp HQ". iDestruct (pool_read with "Hp") as "(%Hsz & Hh & Hp)"; [done|].
  iApply (wp_chunksize with "Hh"). iIntros "Hh". rewrite header_size; [|apply Hsz].
  iApply ("HQ" with "[//]"). by iApply "Hp".
Qed.

(** Where the search goes on after the request's own bin. *)
Lemma resume_own base cs bs nb idx : size_ok nb -> 6 <= bin_index nb ->
  (idx = bin_index nb /\ (exists xs x, bs !! Z.to_nat (bin_index nb) = Some xs /\ x ∈ xs /\ nb <= x.2)) \/
  (idx = bin_index nb + 1 /\
   forall xs x, bs !! Z.to_nat (bin_index nb) = Some xs -> x ∈ xs -> x.2 < nb) ->
  pool base cs bs -∗ ⌜resume_ok bs nb idx⌝.
Proof.
  iIntros (Hnb H6 Hcase) "Hp". iDestruct (pool_sizes with "Hp") as %Hsz.
  iDestruct "Hp" as "(%bb & %Hok & _)". iPureIntro. pose proof (bin_index_range nb Hnb).
  assert (Hpos : forall x, x ∈ concat bs -> 0 <= x.2) by (intros x Hx; destruct (Hsz x Hx); lia).
  pose proof (below_start bb bs nb (bin_index nb) (po_bins _ _ _ _ Hok) ltac:(destruct Hnb; lia) Hpos ltac:(lia)) as Hb.
  destruct Hcase as [(-> & Hex)|(-> & Hall)].
  - split; [lia|done|]. right. done.
  - split; [lia| |left; lia]. intros i xs x Hi Hi2 Hlt Hx.
    destruct (decide (Z.of_nat i = bin_index nb)) as [E|]; [|apply (Hb i xs x); [done..|lia|done]].
    apply (Hall xs x); [|done]. by rewrite -E Nat2Z.id.
Qed.

Lemma wp_exact_scan fuel base cs bs nb i l1 l2 g Q : size_ok nb -> 6 <= bin_index nb ->
  i = Z.to_nat (bin_index nb) -> bs !! i = Some (l1 ++ l2) -> (length l1 <= fuel)%nat ->
  (forall x, x ∈ l2 -> x.2 < nb) ->
  pool base cs bs -∗ (∀ r, stage base cs bs nb r -∗ Q r g) -∗
  wp (exact_scan fuel nb (Z.of_nat i) (bin_at av (Z.of_nat i)) (lastd (bin_at av (Z.of_nat i)) l1.*1)) g Q.
Proof.
  intros Hnb H6 Hi. iIntros (Hbs Hlen Hl2) "Hp HQ". pose proof (bin_index_range nb Hnb).
  assert (Hi0 : i <> 0%nat) by lia. assert (HiZ : Z.of_nat i = bin_index nb) by lia.
  iInduction fuel as [|fuel] "IH" forall (l1 l2 Hbs Hlen Hl2);
    (destruct l1 as [|[v vsz] l1 _] using rev_ind;
      [cbn [exact_scan fmap list_fmap lastd]; rewrite Z.eqb_refl; wp_ret; iApply "HQ";
       iDestruct (resume_own base cs bs nb (Z.of_nat i + 1) with "Hp") as %Hr;
         [done|done| |iFrame; by iPureIntro];
       right; split; [lia|]; intros xs x Hxs Hx; rewrite -Hi Hbs in Hxs; injection Hxs as <-; auto|]).
  { rewrite length_app /= in Hlen. lia. }
  rewrite -app_assoc /= in Hbs. rewrite fmap_app /= lastd_snoc /=.
  iDestruct (pool_ne _ _ _ _ _ (v, vsz) with "Hp") as %Hne; [done..|set_solver|]. cbn in Hne. zdecide.
  iApply wp_bind. iApply (wp_pool_chunksize with "Hp"); [done|]. iIntros (Hv) "Hp". rewrite long_sub_eq //.
  rewrite /MINSIZE. zcase; zbool.
  - wp_ret. iApply "HQ". iDestruct (resume_own base cs bs nb (Z.of_nat i - 1 + 1) with "Hp") as %Hr; [done|done| |iFrame; by iPureIntro].
    left. split; [lia|]. rewrite -Hi. exists (l1 ++ (v, vsz) :: l2), (v, vsz).
    split; [done|]. split; [set_solver|cbn; lia].
  - zcase; zbool.
    + iApply wp_bind. iApply (wp_take_chunk _ _ _ _ _ _ _ _ nb with "Hp"); [done|lia|]. iIntros "Hgot". wp_ret. by iApply "HQ".
    + iApply wp_bind. iApply (wp_step_back with "Hp"); [done..|]. iIntros "Hp".
      iApply ("IH" $! l1 ((v, vsz) :: l2) with "[//] [%] [%] Hp HQ").
      * rewrite length_app /= in Hlen. lia.
      * intros x [->|Hx]%elem_of_cons; [cbn; lia|auto].
Qed.

(** The chunks of a small bin have the bin's size. *)
Lemma small_bin_size bb bs i xs x : bins_ok bb bs -> bs !! i = Some xs -> (2 <= i < 64)%nat ->
  x ∈ xs -> size_ok x.2 -> 8 * Z.of_nat i <= x.2 < 8 * Z.of_nat i + 8.
Proof.
  intros Hok Hi Hr Hx [Hs _]. pose proof (bo_index _ _ Hok i xs x Hi ltac:(lia) Hx) as E.
  destruct (Z_lt_le_dec x.2 512).
  - rewrite bin_index_small in E; [|lia]. rewrite -E. pose proof (Z.div_mod x.2 8 ltac:(lia)).
    pose proof (Z.mod_pos_bound x.2 8 ltac:(lia)). lia.
  - pose proof (bin_index_mono 512 x.2 ltac:(lia)) as Hm. change (bin_index 512) with 64 in Hm. lia.
Qed.

(** The last chunk of a small bin is taken. *)
Lemma wp_small_take base cs bs i xs nb g Q : bs !! i = Some xs -> (2 <= i < 64)%nat -> xs <> [] ->
  nb <= 8 * Z.of_nat i <= nb + 8 ->
  pool base cs bs -∗ (∀ r, stage base cs bs nb r -∗ Q r g) -∗
  wp (victim_size ← chunksize (lastd (bin_at av (Z.of_nat i)) xs.*1);
      mem ← take_chunk (lastd (bin_at av (Z.of_nat i)) xs.*1) victim_size;
      mret (Taken mem)) g Q.
Proof.
  iIntros (Hi Hr Hne Hnb) "Hp HQ". destruct xs as [|[v vsz] l1 _] using rev_ind; [done|].
  iDestruct (pool_sizes with "Hp") as %Hsz. iAssert (⌜exists bb, bins_ok bb bs⌝)%I as %[bb Hok].
  { iDestruct "Hp" as "(%bb & %Hok & _)". iPureIntro. exists bb. apply Hok. }
  assert (Hv : 8 * Z.of_nat i <= vsz < 8 * Z.of_nat i + 8).
  { eapply (small_bin_size _ _ _ _ (v, vsz)); [done..|set_solver|].
    apply Hsz. rewrite (concat_split bs i) //. set_solver. }
  rewrite fmap_app /= lastd_snoc. iApply wp_bind. iApply (wp_pool_chunksize with "Hp"); [done|].
  iIntros (_) "Hp". iApply wp_bind. iApply (wp_take_chunk _ _ _ _ _ _ _ _ nb with "Hp"); [done|lia|].
  iIntros "Hg". wp_ret. by iApply "HQ".
Qed.

Lemma lastd_bin base cs bs i xs : bs !! i = Some xs -> i <> 0%nat ->
  pool base cs bs -∗
  ⌜(lastd (bin_at av (Z.of_nat i)) xs.*1 =? bin_at av (Z.of_nat i)) = bool_decide (xs = [])⌝.
Proof.
  iIntros (Hi H0) "Hp". destruct xs as [|[v vsz] l1 _] using rev_ind.
  - iPureIntro. apply Z.eqb_refl.
  - iDestruct (pool_ne _ _ _ i _ (v, vsz) with "Hp") as %Hne; [exact Hi|done|set_solver|].
    iPureIntro. rewrite fmap_app /= lastd_snoc. rewrite bool_decide_eq_false_2; [|by destruct l1].
    by apply Z.eqb_neq.
Qed.

Lemma pool_bins base cs bs : pool base cs bs -∗ ⌜exists bb, bins_ok bb bs⌝.
Proof. iIntros "(%bb & %Hok & _)". iPureIntro. exists bb. apply Hok. Qed.

Lemma next_bin_at i : next_bin (bin_at av i) = bin_at av (i + 1).
Proof. rewrite /next_bin /bin_at. lia. Qed.

Lemma prev_bin_at i : prev_bin (bin_at av i) = bin_at av (i - 1).
Proof. rewrite /prev_bin /bin_at. lia. Qed.

Lemma wp_exact_fit fuel base cs bs nb g Q : size_ok nb -> (length (concat bs) <= fuel)%nat ->
  pool base cs bs -∗ (∀ r, stage base cs bs nb r -∗ Q r g) -∗ wp (exact_fit av fuel nb) g Q.
Proof.
  iIntros (Hnb Hfuel) "Hp HQ". iDestruct (pool_bins with "Hp") as %[bb Hok].
  pose proof (bo_length _ _ Hok) as Hl. pose proof Hnb as [Hn1 Hn2].
  rewrite /exact_fit /is_small_request /MAX_SMALLBIN_SIZE /SMALLBIN_WIDTH. zcase; zbool.
  - assert (Hidx : smallbin_index nb = nb / 8) by by rewrite /smallbin_index Z.shiftr_div_pow2.
    set (i := Z.to_nat (nb / 8)). assert (Hi : 8 * Z.of_nat i = nb) by (rewrite /i; mlia).
    assert (Hir : (4 <= i < 63)%nat) by lia. assert (Hsi : smallbin_index nb = Z.of_nat i) by (rewrite Hidx; mlia).
    rewrite Hsi. destruct (lookup_lt_is_Some_2 bs i) as [xs Hxs]; [lia|].
    destruct (lookup_lt_is_Some_2 bs (S i)) as [ys Hys]; [lia|].
    iApply wp_bind. iApply (wp_last_bin with "Hp"); [done|lia|]. iIntros "Hp".
    iDestruct (lastd_bin with "Hp") as %E; [exact Hxs|lia|]. rewrite E.
    iApply wp_bind. case_bool_decide as Hemp.
    + rewrite next_bin_at. replace (Z.of_nat i + 1) with (Z.of_nat (S i)) by lia.
      iApply wp_bind. iApply (wp_last_bin with "Hp"); [done|lia|]. iIntros "Hp". wp_ret.
      iDestruct (lastd_bin with "Hp") as %E2; [exact Hys|lia|]. rewrite E2.
      case_bool_decide as Hemp2; cbn [negb].
      * wp_ret. iApply "HQ". iDestruct (pool_sizes with "Hp") as %Hsz. iFrame. iPureIntro.
        assert (Hbi : bin_index nb = Z.of_nat i) by (rewrite bin_index_small; lia).
        split; [lia| |left; lia]. intros j zs x Hj Hj2 Hlt Hx.
        destruct (decide (j = i)) as [->|]; [rewrite Hxs in Hj; injection Hj as <-; set_solver|].
        destruct (decide (j = S i)) as [->|]; [rewrite Hys in Hj; injection Hj as <-; set_solver|].
        eapply (below_start bb bs nb (Z.of_nat i)); try done; [lia| |lia|lia].
        intros y Hy. destruct (Hsz y Hy). lia.
      * iApply (wp_small_take with "Hp HQ"); [done|lia|done|lia].
    + wp_ret. rewrite E. cbn [negb].
      iApply (wp_small_take with "Hp HQ"); [done|lia|done|lia].
  - pose proof (bin_index_range nb Hnb) as Hr. pose proof (bin_index_mono 504 nb ltac:(lia)) as Hm.
    change (bin_index 504) with 63 in Hm. set (i := Z.to_nat (bin_index nb)).
    assert (Hi : bin_index nb = Z.of_nat i) by lia. rewrite Hi.
    destruct (lookup_lt_is_Some_2 bs i) as [xs Hxs]; [lia|].
    iApply wp_bind. iApply (wp_last_bin with "Hp"); [done|lia|]. iIntros "Hp".
    rewrite -{1}(app_nil_r xs) in Hxs.
    iApply (wp_exact_scan fuel base cs bs nb i xs [] with "Hp HQ"); [done|lia|done|done| |set_solver].
    rewrite (concat_split bs i _ Hxs) !length_app in Hfuel. lia.
Qed.

(** ** The last remainder *)

(** The remainder of a split is the last remainder. *)
Lemma concat_last (bs : list (list (Z * Z))) l x : bs !! 1%nat = Some l ->
  concat (<[1%nat := [x]]> bs) ++ l ≡ₚ x :: concat bs.
Proof. intros H. rewrite (concat_insert bs 1 l) //. by rewrite Permutation_app_comm. Qed.

Lemma wp_set_remainder bs l rem rsz g Q : bs !! 1%nat = Some l -> (length l <= 1)%nat -> size_ok rsz ->
  bins av bs -∗ size_ rem ↦- -∗ fd_ rem ↦- -∗ bk_ rem ↦- -∗ (rem + rsz) ↦- -∗
  (bins av (<[1%nat := [(rem, rsz)]]> bs) -∗ links l -∗ size_ rem ↦ header rsz true -∗
     (rem + rsz) ↦ rsz -∗ Q tt g) -∗
  wp (set_remainder av rem rsz) g Q.
Proof.
  iIntros (Hl Hlen Hsz) "Hbins Hh Hf Hb Hfoot HQ". rewrite /set_remainder /set_head /set_foot.
  iApply wp_bind. iApply (wp_link_last with "Hbins Hf Hb"); [done..|]. iIntros "Hbins Hl".
  wp_store "Hh". wp_store "Hfoot". rewrite header_true; [|apply Hsz].
  iApply ("HQ" with "Hbins Hl Hh Hfoot").
Qed.

Definition remainder_stage base cs nb idx (r : option Z) : hprop :=
  match r with
  | Some mem => got base cs nb mem
  | None => ∃ bs', ⌜resume_ok bs' nb idx /\ bs' !! 1%nat = Some []⌝ ∗ pool base cs bs'
  end%I.

(** The too small remainder goes into its bin. *)
Lemma resume_linked bb bs nb idx v vsz bb' bs' : bins_ok bb bs -> resume_ok bs nb idx -> vsz < nb ->
  linked (<[1%nat := []]> bs) (v, vsz) bb' bs' -> resume_ok bs' nb idx /\ bs' !! 1%nat = Some [].
Proof.
  intros Hok [Hr Hb Ha] Hlt (_ & i & l1 & l2 & Hi & Hi2 & Hidx & ->).
  pose proof (bo_length _ _ Hok) as Hl. cbn in Hidx.
  rewrite list_lookup_insert_ne in Hi; [|lia]. assert (Hilt := lookup_lt_Some _ _ _ Hi).
  assert (Hlook : forall j xs, (2 <= j)%nat ->
    <[i := l1 ++ (v, vsz) :: l2]> (<[1%nat := []]> bs) !! j = Some xs ->
    exists ys, bs !! j = Some ys /\ (forall x, x ∈ xs -> x ∈ ys \/ x = (v, vsz)) /\ forall x, x ∈ ys -> x ∈ xs).
  { intros j xs Hj Hxs. destruct (decide (i = j)) as [->|].
    - rewrite list_lookup_insert_eq in Hxs; [|by rewrite length_insert]. injection Hxs as <-.
      exists (l1 ++ l2). split; [done|]. split; set_solver.
    - rewrite !list_lookup_insert_ne in Hxs; [|lia..]. exists xs. split; [done|]. by split; auto. }
  split; [split; [done| |]|].
  - intros j xs x Hj Hj2 Hjlt Hx. destruct (Hlook j xs Hj2 Hj) as (ys & Hys & H1 & _).
    destruct (H1 x Hx) as [Hx'| ->]; [by eapply (Hb j)|cbn; lia].
  - destruct Ha as [Ha|(E & xs & x & Hxs & Hx & Hge)]; [by left|]. right. split; [done|].
    assert (Hj2 : (2 <= Z.to_nat idx)%nat) by lia.
    destruct (lookup_lt_is_Some_2 (<[i := l1 ++ (v, vsz) :: l2]> (<[1%nat := []]> bs)) (Z.to_nat idx)) as [zs Hzs].
    { rewrite !length_insert. by eapply lookup_lt_Some. }
    destruct (Hlook _ _ Hj2 Hzs) as (ys & Hys & _ & H2). rewrite Hys in Hxs. injection Hxs as ->. exists zs, x. auto.
  - rewrite list_lookup_insert_ne; [|lia]. rewrite list_lookup_insert_eq //. lia.
Qed.

(** The victim is split: it leaves bin [i], and its rest is the last remainder. *)
Lemma pool_split base cs bs i l1 v vsz l2 nb : bs !! i = Some (l1 ++ (v, vsz) :: l2) ->
  size_ok nb -> nb + 32 <= vsz ->
  let rem := v + nb in
  pool base cs bs ⊢ ⌜size_ok (vsz - nb) /\ i <> 0%nat⌝ ∗ bins av bs ∗
    size_ v ↦ header vsz true ∗ size_ rem ↦- ∗ fd_ rem ↦- ∗ bk_ rem ↦- ∗ (rem + (vsz - nb)) ↦- ∗
    (∀ bs', ⌜(forall bb, bins_ok bb bs -> bins_ok bb bs') /\
             (v, vsz) :: concat bs' ≡ₚ (rem, vsz - nb) :: concat bs⌝ -∗
       bins av bs' -∗ size_ v ↦ header nb true -∗ size_ rem ↦ header (vsz - nb) true -∗
       (rem + (vsz - nb)) ↦ (vsz - nb) -∗ fd_ v ↦- -∗ bk_ v ↦- -∗ got base cs nb (chunk2mem v)).
Proof.
  iIntros (Hi Hnb Hle rem) "(%bb & %Hok & Hbb & Hbins & Hseg)". pose proof Hok as [].
  destruct (bin_free _ _ _ _ _ _ _ _ _ Hok Hi) as [Hfree H0].
  iDestruct (row_split with "Hseg") as (cs') "(%H & Hh & Hrh & Hrf & Hrb & Hfoot & Hseg)"; [done..|].
  destruct H as (Hv & Hrem & Ht & Hl & Hu & fr & Hf1 & Hf2). iFrame "Hbins Hh Hrh Hrf Hrb Hfoot".
  iSplit; [done|]. iIntros (bs' [Hb Hp]) "Hbins Hh Hrh Hfoot Hf Hb".
  iDestruct ("Hseg" with "Hh Hrh Hfoot Hf Hb") as "[Hseg Hc]".
  iExists v, nb, cs', bs'. iFrame. iSplit.
  - iPureIntro. split; [done|]. split; [lia|done|done|done].
  - iPureIntro. split; [done|by apply Hb|]. apply (Permutation_cons_inv (a := (v, vsz))).
    rewrite Hp Hf2 po_perm0 Hf1. constructor.
Qed.

Lemma wp_use_last_remainder fuel base cs bs nb idx g Q :
  size_ok nb -> (length (concat bs) <= fuel)%nat -> resume_ok bs nb idx ->
  pool base cs bs -∗ (∀ r, remainder_stage base cs nb idx r -∗ Q r g) -∗
  wp (use_last_remainder av fuel nb) g Q.
Proof.
  iIntros (Hnb Hfuel Hres) "Hp HQ". iDestruct (pool_bins with "Hp") as %[bb0 Hok0].
  pose proof (bo_length _ _ Hok0) as Hl128.
  destruct (bo_last _ _ Hok0) as (l & Hl & Hlen). rewrite /use_last_remainder.
  iDestruct (pool_ring base cs bs 1 with "Hp") as "[Hr Hp]"; [done..|].
  change (bin_at av (Z.of_nat 1)) with (last_remainder av).
  iDestruct (ring_first with "Hr") as "[Hf Hr]". wp_load "Hf". iDestruct ("Hr" with "Hf") as "Hr".
  iDestruct ("Hp" with "Hr") as "Hp".
  destruct l as [|[v vsz] [|]]; cbn in Hlen; [|idtac|lia].
  { cbn [hd fmap list_fmap]. rewrite Z.eqb_refl. wp_ret. iApply "HQ". iExists bs. by iFrame. }
  iDestruct (pool_ne _ _ _ 1 _ (v, vsz) with "Hp") as %Hne; [exact Hl|done|set_solver|].
  cbn [hd fmap list_fmap fst] in Hne |- *. change (bin_at av (Z.of_nat 1)) with (last_remainder av) in Hne. zdecide.
  iApply wp_bind. iApply (wp_pool_chunksize _ _ _ 1 [] v vsz [] with "Hp"); [done|]. iIntros (Hv) "Hp".
  rewrite long_sub_eq // /MINSIZE. zcase; zbool.
  - rewrite /chunk_at_offset.
    iDestruct (pool_split _ _ _ 1 [] v vsz [] nb with "Hp") as "([%Hrem _] & Hbins & Hh & Hrh & Hrf & Hrb & Hfoot & Hend)"; [done|done|lia|].
    rewrite /set_head. wp_store "Hh". iApply wp_bind.
    iApply (wp_set_remainder with "Hbins Hrh Hrf Hrb Hfoot"); [done|cbn; lia|done|].
    iIntros "Hbins [[Hf Hb] _] Hrh Hfoot". wp_ret. iApply "HQ". rewrite header_true; [|apply Hnb].
    iApply ("Hend" with "[%] Hbins Hh Hrh Hfoot Hf Hb"). split.
    + intros bb Hok. apply bins_ok_last; [done|cbn; lia].
    + rewrite -(concat_last bs [(v, vsz)]) //. by rewrite Permutation_app_comm.
  - zcase; zbool.
    + iDestruct (pool_take _ _ _ 1 [] v vsz [] nb with "Hp") as (s [Hs _]) "(Hn & Hbins & Hend)"; [done|lia|].
      iApply wp_bind. iApply (wp_clear_last with "Hbins"); [done|cbn; lia|]. iIntros "Hbins [[Hf Hb] _]".
      iApply wp_bind. iApply (wp_set_inuse with "Hn"). iIntros "Hn". rewrite header_set; [|apply Hs].
      wp_ret. iApply "HQ". iApply ("Hend" with "Hn Hf Hb Hbins").
    + assert (Hlt : vsz < nb) by lia.
      iDestruct "Hp" as "(%bb & %Hok & Hbb & Hbins & Hseg)". destruct Hok as [Hlast Hok Hperm].
      iApply wp_bind. iApply (wp_clear_last with "Hbins"); [done|cbn; lia|]. iIntros "Hbins [[Hf Hb] _]".
      pose proof (concat_insert bs 1 [(v, vsz)] [] Hl) as Hc. rewrite app_nil_r Permutation_app_comm in Hc.
      iApply wp_bind. iApply (wp_frontlink av (seg base true cs) fuel v vsz bb with "Hseg Hbins Hbb Hf Hb").
      * done.
      * apply bins_ok_last; [done|cbn; lia].
      * intros x s Hx. apply seg_read_free. rewrite -Hperm -Hc. by apply elem_of_cons; right.
      * rewrite -Hc /= in Hfuel. lia.
      * iIntros (bb' bs' Hlink) "Hseg Hbins Hbb". wp_ret. iApply "HQ".
        destruct (resume_linked _ _ _ _ _ _ _ _ Hok Hres Hlt Hlink) as [Hres' H1].
        iExists bs'. iSplit; [done|]. iExists bb'. iFrame. iPureIntro. split; [done|apply Hlink|].
        by rewrite (linked_perm _ _ _ _ Hlink) -Hperm -Hc.
Qed.

(** ** The bins of larger chunks *)

Definition bin_stage base cs bs nb (xs : list (Z * Z)) (r : option Z) : hprop :=
  match r with
  | Some mem => got base cs nb mem
  | None => ⌜forall x, x ∈ xs -> x.2 < nb⌝ ∗ pool base cs bs
  end%I.

Lemma wp_scan_bin fuel base cs bs nb i l1 l2 g Q : size_ok nb -> (2 <= i)%nat ->
  bs !! 1%nat = Some [] -> bs !! i = Some (l1 ++ l2) -> (length l1 <= fuel)%nat ->
  (forall x, x ∈ l2 -> x.2 < nb) ->
  pool base cs bs -∗ (∀ r, bin_stage base cs bs nb (l1 ++ l2) r -∗ Q r g) -∗
  wp (scan_bin av fuel nb (bin_at av (Z.of_nat i)) (lastd (bin_at av (Z.of_nat i)) l1.*1)) g Q.
Proof.
  iIntros (Hnb Hi2 H1 Hbs Hlen Hl2) "Hp HQ". assert (Hi0 : i <> 0%nat) by lia.
  iInduction fuel as [|fuel] "IH" forall (l1 l2 Hbs Hlen Hl2);
    (destruct l1 as [|[v vsz] l1 _] using rev_ind;
      [cbn [scan_bin fmap list_fmap lastd app]; rewrite Z.eqb_refl; wp_ret; iApply "HQ"; by iFrame|]).
  { rewrite length_app /= in Hlen. lia. }
  rewrite -app_assoc /= in Hbs |- *. rewrite fmap_app /= lastd_snoc /=.
  iDestruct (pool_ne _ _ _ i _ (v, vsz) with "Hp") as %Hne; [exact Hbs|done|set_solver|]. cbn in Hne. zdecide.
  iApply wp_bind. iApply (wp_pool_chunksize with "Hp"); [done|]. iIntros (Hv) "Hp". rewrite long_sub_eq //.
  rewrite /MINSIZE. zcase; zbool.
  - rewrite /chunk_at_offset.
    iDestruct (pool_split _ _ _ i l1 v vsz l2 nb with "Hp")
      as "([%Hrem _] & Hbins & Hh & Hrh & Hrf & Hrb & Hfoot & Hend)"; [done|done|lia|].
    rewrite /set_head. wp_store "Hh". iApply wp_bind.
    iApply (wp_unlink_bin with "Hbins"); [done..|]. iIntros "Hf Hb Hbins". iApply wp_bind.
    assert (Hlt := lookup_lt_Some _ _ _ Hbs).
    assert (H1' : <[i := l1 ++ l2]> bs !! 1%nat = Some []) by (rewrite list_lookup_insert_ne //; lia).
    iApply (wp_set_remainder with "Hbins Hrh Hrf Hrb Hfoot"); [done|cbn; lia|done|].
    iIntros "Hbins _ Hrh Hfoot". wp_ret. iApply "HQ". rewrite header_true; [|apply Hnb].
    iApply ("Hend" with "[%] Hbins Hh Hrh Hfoot Hf Hb"). split.
    + intros bb Hok. apply bins_ok_last; [by eapply bins_ok_remove|cbn; lia].
    + rewrite (concat_remove bs i _ _ _ Hbs). rewrite -(app_nil_r (concat (<[1%nat := _]> _))).
      rewrite (concat_last _ []) //. constructor.
  - zcase; zbool.
    + iDestruct (pool_take _ _ _ i l1 v vsz l2 nb with "Hp") as (s [Hs _]) "(Hn & Hbins & Hend)"; [done|lia|].
      iApply wp_bind. iApply (wp_set_inuse with "Hn"). iIntros "Hn". rewrite header_set; [|apply Hs].
      iApply wp_bind. iApply (wp_unlink_bin with "Hbins"); [done..|]. iIntros "Hf Hb Hbins".
      wp_ret. iApply "HQ". iApply ("Hend" with "Hn Hf Hb Hbins").
    + iApply wp_bind. iApply (wp_step_back with "Hp"); [done..|]. iIntros "Hp".
      iApply ("IH" $! l1 ((v, vsz) :: l2) with "[//] [%] [%] Hp HQ").
      * rewrite length_app /= in Hlen. lia.
      * intros x [->|Hx]%elem_of_cons; [cbn; lia|auto].
Qed.
End Alloc.
