(* ===== verification/MallocSearch.v ===== *)
(** The search of malloc through the bins, the top chunk and its growth, and the
    specification of malloc as a whole. *)

From iris.proofmode Require Import proofmode.
From S2P Require Import Prelude Kvm HeapLogic GuestSys Malloc MallocInv MallocFree MallocAlloc.

Section Search.
Context {X : Type} (av : Z).
Implicit Types (g : @mvars X).
#[local] Notation pool := (MallocAlloc.pool av).
#[local] Notation got := (MallocAlloc.got av).
#[local] Notation topchunk := (MallocAlloc.topchunk av).

(** All chunks of the bins from [lo] up to [hi] are too small. *)
Definition small_between (bs : list (list (Z * Z))) (nb lo hi : Z) : Prop :=
  forall i xs x, bs !! i = Some xs -> lo <= Z.of_nat i < hi -> x ∈ xs -> x.2 < nb.

Definition block_end (idx : Z) : Z := 4 * (idx / 4) + 4.

Definition block_stage base cs bs nb idx (r : searched) : hprop :=
  match r with
  | Taken mem => got base cs nb mem
  | Resume idx' => ⌜idx' = block_end idx /\ small_between bs nb idx idx'⌝ ∗ pool base cs bs
  end%I.

Lemma land_3 x : Z.land x (BINBLOCKWIDTH - 1) = x mod 4.
Proof. change (BINBLOCKWIDTH - 1) with (Z.ones 2). by rewrite Z.land_ones. Qed.

Lemma wp_scan_block n fuel base cs bs nb idx g Q : size_ok nb -> 2 <= idx <= 127 ->
  bs !! 1%nat = Some [] -> (length (concat bs) <= fuel)%nat -> 4 - idx mod 4 <= Z.of_nat n ->
  pool base cs bs -∗ (∀ r, block_stage base cs bs nb idx r -∗ Q r g) -∗
  wp (scan_block av n fuel nb (bin_at av idx) idx) g Q.
Proof.
  iIntros (Hnb Hidx H1 Hfuel Hn) "Hp HQ". iDestruct (pool_bins with "Hp") as %[bb Hok].
  pose proof (bo_length _ _ Hok) as Hl.
  iInduction n as [|n] "IH" forall (idx Hidx Hn Q); [exfalso; mlia|]. cbn [scan_block].
  destruct (lookup_lt_is_Some_2 bs (Z.to_nat idx)) as [xs Hxs]; [lia|].
  assert (E : idx = Z.of_nat (Z.to_nat idx)) by lia. rewrite E.
  iApply wp_bind. iApply (wp_last_bin with "Hp"); [done|lia|]. iIntros "Hp". iApply wp_bind.
  rewrite -{1}(app_nil_r xs) in Hxs.
  iApply (wp_scan_bin av fuel base cs bs nb (Z.to_nat idx) xs [] with "Hp"); [done|lia|done|done| |set_solver|].
  { rewrite (concat_split bs _ _ Hxs) !length_app in Hfuel. lia. }
  rewrite app_nil_r. iIntros ([mem|]) "Hr"; [wp_ret; by iApply "HQ"|]. iDestruct "Hr" as "[%Hsm Hp]".
  rewrite -E land_3 next_bin_at. rewrite app_nil_r in Hxs. zcase; zbool; cbn [negb].
  - wp_ret. iApply "HQ". iFrame. iPureIntro. split; [rewrite /block_end; mlia|]. intros i ys x Hi Hr Hx.
    assert (i = Z.to_nat idx) as -> by mlia. rewrite Hxs in Hi. injection Hi as <-. by apply Hsm.
  - iApply ("IH" with "[%] [%] Hp"); [mlia|mlia|]. iIntros ([mem|idx']) "Hr"; [by iApply "HQ"|].
    iDestruct "Hr" as "[[%Hi' %Hsm'] Hp]". iApply "HQ". iFrame. iPureIntro. rewrite /block_end in Hi' |- *. split; [mlia|].
    intros i ys x Hi Hr Hx. destruct (decide (i = Z.to_nat idx)) as [->|].
    + rewrite Hxs in Hi. injection Hi as <-. by apply Hsm.
    + eapply Hsm'; [done|lia|done].
Qed.

(** *** Blocks of bins *)

(** The bins from [lo] up to [hi] are empty. *)
Definition empty_between (bs : list (list (Z * Z))) (lo hi : Z) : Prop :=
  forall i xs, bs !! i = Some xs -> lo <= Z.of_nat i < hi -> xs = [].

Lemma empty_small bs nb lo hi : empty_between bs lo hi -> small_between bs nb lo hi.
Proof. intros H i xs x Hi Hr Hx. rewrite (H i xs Hi Hr) in Hx. by apply elem_of_nil in Hx. Qed.

(** Where all chunks are big enough, a scan that finds nothing saw empty bins. *)
Lemma small_empty bb bs nb idx hi : bins_ok bb bs -> (forall x, x ∈ concat bs -> size_ok x.2) ->
  size_ok nb -> resume_ok bs nb idx -> idx < hi -> small_between bs nb idx hi -> empty_between bs idx hi.
Proof.
  intros Hok Hsz [Hnb _] [Hr _ Ha] Hhi Hsm i [|x xs] Hi Hir; [done|exfalso].
  assert (Hx : x ∈ x :: xs) by set_solver. pose proof (Hsm i _ x Hi Hir Hx) as Hlt.
  pose proof (bo_index _ _ Hok i _ x Hi ltac:(lia) Hx) as E.
  assert (Hxs : size_ok x.2) by (apply Hsz; rewrite (concat_split bs i) //; set_solver). destruct Hxs as [Hxs _].
  destruct Ha as [Ha|(Ei & ys & y & Hy & Hyin & Hge)].
  - pose proof (bin_index_mono x.2 nb ltac:(lia)). lia.
  - pose proof (Hsm _ ys y Hy ltac:(lia) Hyin). lia.
Qed.

Lemma below_extend bs nb idx idx' : below bs nb idx -> small_between bs nb idx idx' -> below bs nb idx'.
Proof.
  intros Hb Hsm i xs x Hi Hi2 Hlt Hx. destruct (Z_lt_le_dec (Z.of_nat i) idx); [by eapply Hb|].
  by apply (Hsm i xs x Hi).
Qed.

Lemma resume_extend bs nb idx idx' : resume_ok bs nb idx -> small_between bs nb idx idx' ->
  idx < idx' <= 127 -> resume_ok bs nb idx'.
Proof.
  intros [Hr Hb Ha] Hsm Hlt. split; [lia|by eapply below_extend|].
  left. destruct Ha as [|[]]; lia.
Qed.

Lemma below_all bb bs nb : bins_ok bb bs -> bs !! 1%nat = Some [] -> below bs nb 128 ->
  forall x, x ∈ concat bs -> x.2 < nb.
Proof.
  intros Hok H1 Hb x (i & l1 & l2 & Hi)%elem_concat. pose proof (bo_length _ _ Hok) as Hl.
  assert (Hlt := lookup_lt_Some _ _ _ Hi). destruct i as [|[|i]].
  - rewrite (bo_zero _ _ Hok) in Hi. by destruct l1.
  - rewrite H1 in Hi. by destruct l1.
  - apply (Hb _ _ x Hi); [lia|lia|set_solver].
Qed.

(** *** The bits of binblocks *)

Lemma land_bit k bb : 0 <= k -> (Z.land (2 ^ k) bb =? 0) = negb (Z.testbit bb k).
Proof.
  intros Hk. destruct (Z.testbit bb k) eqn:E; cbn.
  - apply Z.eqb_neq. intros H. apply (f_equal (fun z => Z.testbit z k)) in H.
    rewrite Z.land_spec Z.pow2_bits_true // E Z.bits_0 in H. done.
  - apply Z.eqb_eq, Z.bits_inj'. intros n Hn. rewrite Z.land_spec Z.bits_0 Z.pow2_bits_eqb //.
    destruct (k =? n) eqn:En; [|done]. apply Z.eqb_eq in En as <-. done.
Qed.

Lemma unmarked_empty bb bs k : bins_ok bb bs -> 1 <= k -> Z.testbit bb k = false ->
  empty_between bs (4 * k) (4 * k + 4).
Proof.
  intros Hok Hk Hb i xs Hi Hr. destruct xs; [done|]. exfalso.
  assert (Z.of_nat i / 4 = k) as E by mlia.
  pose proof (bo_marked _ _ Hok i _ Hi ltac:(lia) ltac:(done)) as H. rewrite E Hb in H. done.
Qed.

Lemma empty_above bb bs k hi : bins_ok bb bs -> 1 <= k -> bb < 2 ^ k -> empty_between bs (4 * k) hi.
Proof.
  intros Hok Hk Hb i xs Hi Hr. destruct xs; [done|]. exfalso.
  pose proof (bo_marked _ _ Hok i _ Hi ltac:(lia) ltac:(done)) as H.
  pose proof (bo_range _ _ Hok) as Hbr.
  rewrite (proj1 (Z.bounded_iff_bits_nonneg k bb ltac:(lia) ltac:(lia)) ltac:(lia)) in H; [done|mlia].
Qed.

Lemma shift_block k : 0 <= k < 63 -> u64 (Z.shiftl (2 ^ k) 1) = 2 ^ (k + 1).
Proof.
  intros Hk. rewrite Z.shiftl_mul_pow2 // -Z.pow_add_r; [|lia..]. apply uwrap_small. split.
  - apply Z.pow_nonneg. lia.
  - apply Z.pow_lt_mono_r; lia.
Qed.

(** The next marked block. *)
Lemma wp_next_block n bb k m g Q : 0 <= bb < 2 ^ 32 -> 0 <= k <= m -> Z.testbit bb m = true ->
  m - k <= Z.of_nat n ->
  (∀ m', ⌜k <= m' <= 31 /\ Z.testbit bb m' = true /\ forall j, k <= j < m' -> Z.testbit bb j = false⌝ -∗
     Q (2 ^ m', 4 * m') g) -∗
  wp (next_block n bb (2 ^ k) (4 * k)) g Q.
Proof.
  iIntros (Hbb Hk Hm Hn) "HQ".
  assert (Hm31 : m <= 31).
  { destruct (Z_le_gt_dec m 31); [done|]. rewrite (proj1 (Z.bounded_iff_bits_nonneg 32 bb ltac:(lia) ltac:(lia)) ltac:(lia)) in Hm; [done|lia]. }
  iInduction n as [|n] "IH" forall (k Hk Hn); cbn [next_block]; rewrite land_bit; try lia;
    destruct (Z.testbit bb k) eqn:E; cbn [negb].
  - wp_ret. iApply "HQ". iPureIntro. split; [lia|]. split; [done|lia].
  - assert (k = m) as -> by lia. congruence.
  - wp_ret. iApply "HQ". iPureIntro. split; [lia|]. split; [done|lia].
  - assert (k <> m) by (intros ->; congruence).
    rewrite shift_block; [|lia]. replace (4 * k + BINBLOCKWIDTH) with (4 * (k + 1)) by (rewrite /BINBLOCKWIDTH; lia).
    iApply ("IH" with "[%] [%]"); [lia|lia|]. iIntros (m' (Hr & Hb & Hj)). iApply "HQ". iPureIntro.
    split; [lia|]. split; [done|]. intros j Hjr. destruct (decide (j = k)) as [->|]; [done|]. apply Hj. lia.
Qed.

(** Clearing the bit of a block whose bins are all empty. *)
Lemma bins_ok_clear bb bs k : bins_ok bb bs -> 1 <= k -> empty_between bs (4 * k) (4 * k + 4) ->
  bins_ok (Z.land bb (Z.lnot (2 ^ k))) bs.
Proof.
  intros [? ? ? ? Hmarked Hrange] Hk He. split; try done.
  - intros i xs Hi Hi2 Hne. rewrite Z.land_spec (Hmarked _ _ Hi Hi2 Hne) Z.lnot_spec; [|mlia].
    rewrite Z.pow2_bits_eqb; [|lia]. destruct (k =? Z.of_nat i / 4) eqn:E; [|done].
    apply Z.eqb_eq in E. destruct Hne. apply (He i xs Hi). mlia.
  - rewrite -Z.ldiff_land. split; [apply Z.ldiff_nonneg; lia|].
    apply Z.bounded_iff_bits_nonneg; [lia|apply Z.ldiff_nonneg; lia|]. intros l Hl.
    rewrite Z.ldiff_spec (proj1 (Z.bounded_iff_bits_nonneg 32 bb ltac:(lia) ltac:(lia)) ltac:(lia)) //.
Qed.

Lemma wp_clear_block n base cs bs start idx g Q : 4 <= start <= idx -> start / 4 = idx / 4 -> idx <= 127 ->
  start mod 4 < Z.of_nat n -> empty_between bs start (block_end idx) ->
  pool base cs bs -∗ (pool base cs bs -∗ Q tt g) -∗
  wp (clear_block av n (2 ^ (idx / 4)) (bin_at av start) start) g Q.
Proof.
  iIntros (Hs Hb Hidx Hn He) "Hp HQ".
  iInduction n as [|n] "IH" forall (start Hs Hb Hn He); [exfalso; mlia|]. cbn [clear_block].
  rewrite land_3. zcase; zbool.
  - rewrite /get_binblocks /set_binblocks. iDestruct "Hp" as "(%bb & %Hok & Hbb & Hbins & Hseg)".
    wp_load "Hbb". wp_store "Hbb". iApply "HQ". iExists _. iFrame. iPureIntro. destruct Hok. split; try done.
    apply bins_ok_clear; [done|mlia|]. rewrite /block_end in He.
    intros i xs Hi Hr. apply (He i xs Hi). mlia.
  - rewrite prev_bin_at /first.
    iDestruct (pool_bins with "Hp") as %[bb Hok]. pose proof (bo_length _ _ Hok) as Hl.
    destruct (lookup_lt_is_Some_2 bs (Z.to_nat (start - 1))) as [xs Hxs]; [lia|].
    assert (E : start - 1 = Z.of_nat (Z.to_nat (start - 1))) by mlia.
    iDestruct (pool_ring with "Hp") as "[Hr Hp]"; [exact Hxs|mlia|]. rewrite -E.
    iDestruct (ring_first with "Hr") as "[Hf Hr]". wp_load "Hf".
    iDestruct ("Hr" with "Hf") as "Hr". iDestruct ("Hp" with "Hr") as "Hp".
    zcase; zbool; [|wp_ret; by iApply "HQ"].
    destruct xs as [|x xs].
    + iApply ("IH" with "[%] [%] [%] [%] Hp HQ"); [mlia..|]. intros i ys Hi Hr.
      destruct (decide (Z.of_nat i = start - 1)) as [Ei|]; [|apply (He i ys Hi); lia].
      rewrite E in Ei. apply Nat2Z.inj in Ei as ->. rewrite Hxs in Hi. by injection Hi as <-.
    + iDestruct (pool_ne av _ _ _ _ _ x with "Hp") as %Hne; [exact Hxs|mlia|set_solver|].
      rewrite -E in Hne. done.
Qed.

(** What the search of all bins leaves behind. *)
Definition search_stage base cs nb (r : option Z) : hprop :=
  match r with
  | Some mem => got base cs nb mem
  | None => ∃ bs, ⌜forall x, x ∈ concat bs -> x.2 < nb⌝ ∗ pool base cs bs
  end%I.

Lemma unmarked_small bb bs nb k m : bins_ok bb bs -> 1 <= k ->
  (forall j, k <= j < m -> Z.testbit bb j = false) -> small_between bs nb (4 * k) (4 * m).
Proof.
  intros Hok Hk Hj i xs x Hi Hr Hx.
  pose proof (unmarked_empty bb bs (Z.of_nat i / 4) Hok ltac:(mlia) ltac:(apply Hj; mlia) i xs Hi ltac:(mlia)) as ->.
  by apply elem_of_nil in Hx.
Qed.

Lemma wp_search_blocks n fuel base cs bs nb idx g Q : size_ok nb -> bs !! 1%nat = Some [] ->
  (length (concat bs) <= fuel)%nat -> resume_ok bs nb idx -> 32 - idx / 4 <= Z.of_nat n ->
  pool base cs bs -∗ (∀ r, search_stage base cs nb r -∗ Q r g) -∗
  wp (search_blocks av n fuel nb (2 ^ (idx / 4)) idx) g Q.
Proof.
  iIntros (Hnb H1 Hfuel Hres Hn) "Hp HQ".
  iDestruct (pool_sizes with "Hp") as %Hsz.
  iInduction n as [|n] "IH" forall (idx Hres Hn); [exfalso; destruct Hres; mlia|]. cbn [search_blocks].
  pose proof (ro_range _ _ _ Hres) as Hr. iApply wp_bind.
  iApply (wp_scan_block with "Hp"); [done|lia|done|done|mlia|].
  iIntros ([mem|idx']) "Hs"; [wp_ret; by iApply "HQ"|]. iDestruct "Hs" as "[[-> %Hsm] Hp]".
  iDestruct (pool_bins with "Hp") as %[bb0 Hok0].
  assert (Hend : block_end idx = 4 * (idx / 4 + 1)) by (rewrite /block_end; lia).
  pose proof (small_empty bb0 bs nb idx (block_end idx) Hok0 Hsz Hnb Hres ltac:(rewrite /block_end; mlia) Hsm) as He.
  iApply wp_bind. iApply (wp_clear_block with "Hp"); [lia|done|lia|mlia|done|]. iIntros "Hp".
  iDestruct "Hp" as "(%bb & %Hok & Hbb & Hbins & Hseg)". pose proof (po_bins _ _ _ _ Hok) as Hbok.
  pose proof (bo_range _ _ Hbok) as Hbr. rewrite /get_binblocks. wp_load "Hbb".
  iAssert (pool base cs bs) with "[Hbb Hbins Hseg]" as "Hp"; [iExists bb; by iFrame|].
  rewrite shift_block; [|mlia]. assert (Hk1 : 0 < 2 ^ (idx / 4 + 1)) by (apply Z.pow_pos_nonneg; mlia).
  replace (2 ^ (idx / 4 + 1) =? 0) with false by (symmetry; apply Z.eqb_neq; lia).
  rewrite andb_true_r. zcase; zbool.
  - rewrite Hend. iApply wp_bind. assert (Hb0 : 0 < bb) by (eapply Z.lt_le_trans; done).
    assert (Hlog : idx / 4 + 1 <= Z.log2 bb).
    { apply Z.log2_le_pow2 in Heqb; lia. }
    iApply (wp_next_block _ _ _ (Z.log2 bb)); [done|mlia|by apply Z.bit_log2| |].
    { assert (Z.log2 bb < 32) by (apply Z.log2_lt_pow2; lia). mlia. }
    iIntros (m (Hm & Hbit & Hj)).
    assert (Hres' : resume_ok bs nb (4 * m)).
    { eapply resume_extend; [done| |mlia]. intros i xs x Hi Hir Hx.
      destruct (Z_lt_le_dec (Z.of_nat i) (block_end idx)); [apply (Hsm i xs x Hi); [lia|done]|].
      eapply (unmarked_small bb bs nb (idx / 4 + 1) m); [done|mlia|done|done|lia|done]. }
    assert (E : 2 ^ m = 2 ^ (4 * m / 4)) by (f_equal; mlia). rewrite E.
    iApply ("IH" with "[%] [%] Hp HQ"); [done|mlia].
  - wp_ret. iApply "HQ". iExists bs. iFrame. iPureIntro. eapply below_all; [done..|].
    apply (below_extend bs nb idx); [apply Hres|]. intros i xs x Hi Hir Hx.
    destruct (Z_lt_le_dec (Z.of_nat i) (block_end idx)); [apply (Hsm i xs x Hi); [lia|done]|].
    rewrite (empty_above bb bs (idx / 4 + 1) 128 Hbok ltac:(mlia) ltac:(lia) i xs Hi ltac:(lia)) in Hx.
    by apply elem_of_nil in Hx.
Qed.

Lemma wp_search_bins fuel base cs bs nb idx g Q : size_ok nb -> bs !! 1%nat = Some [] ->
  (length (concat bs) <= fuel)%nat -> resume_ok bs nb idx ->
  pool base cs bs -∗ (∀ r, search_stage base cs nb r -∗ Q r g) -∗
  wp (search_bins av fuel nb idx) g Q.
Proof.
  iIntros (Hnb H1 Hfuel Hres) "Hp HQ". pose proof (ro_range _ _ _ Hres) as Hr.
  iDestruct "Hp" as "(%bb & %Hok & Hbb & Hbins & Hseg)". pose proof (po_bins _ _ _ _ Hok) as Hbok.
  pose proof (bo_range _ _ Hbok) as Hbr. rewrite /search_bins /get_binblocks. wp_load "Hbb".
  iAssert (pool base cs bs) with "[Hbb Hbins Hseg]" as "Hp"; [iExists bb; by iFrame|].
  assert (Eb : idx2binblock idx = 2 ^ (idx / 4)).
  { rewrite /idx2binblock /BINBLOCKWIDTH Z.shiftl_mul_pow2; [apply Z.mul_1_l|mlia]. }
  rewrite Eb. assert (Hk1 : 0 < 2 ^ (idx / 4)) by (apply Z.pow_pos_nonneg; mlia).
  destruct (2 ^ (idx / 4) <=? bb) eqn:Heqb; zbool.
  - assert (Hb0 : 0 < bb) by (eapply Z.lt_le_trans; done).
    rewrite land_bit; [|mlia]. iApply wp_bind. destruct (Z.testbit bb (idx / 4)) eqn:Hbit; cbn [negb].
    + wp_ret. iApply (wp_search_blocks with "Hp HQ"); [done..|mlia].
    + assert (Hlog : idx / 4 + 1 <= Z.log2 bb).
      { apply Z.log2_le_pow2 in Heqb; [|lia]. destruct (decide (Z.log2 bb = idx / 4)) as [E|]; [|lia].
        rewrite -E Z.bit_log2 in Hbit; done. }
      assert (Ei : Z.land idx (Z.lnot (BINBLOCKWIDTH - 1)) + BINBLOCKWIDTH = 4 * (idx / 4 + 1)).
      { change (BINBLOCKWIDTH - 1) with (Z.ones 2). rewrite land_lnot_ones // /BINBLOCKWIDTH.
        change (2 ^ 2) with 4. mlia. }
      rewrite Ei shift_block; [|mlia].
      iApply (wp_next_block _ _ _ (Z.log2 bb)); [done|mlia|by apply Z.bit_log2| |].
      { assert (Z.log2 bb < 32) by (apply Z.log2_lt_pow2; lia). mlia. }
      iIntros (m (Hm & Hmb & Hj)).
      assert (Hres' : resume_ok bs nb (4 * m)).
      { eapply resume_extend; [done| |mlia]. intros i xs x Hi Hir Hx.
        eapply (unmarked_small bb bs nb (idx / 4) m); [done|mlia| |done|mlia|done].
        intros j Hjr. destruct (decide (j = idx / 4)) as [->|]; [done|]. apply Hj. lia. }
      assert (E : 2 ^ m = 2 ^ (4 * m / 4)) by (f_equal; mlia). rewrite E.
      iApply (wp_search_blocks with "Hp HQ"); [done..|mlia].
  - wp_ret. iApply "HQ". iExists bs. iFrame. iPureIntro. eapply below_all; [done..|].
    apply (below_extend bs nb idx); [apply Hres|]. intros i xs x Hi Hir Hx.
    rewrite (empty_above bb bs (idx / 4) 128 Hbok ltac:(mlia) ltac:(lia) i xs Hi ltac:(mlia)) in Hx.
    by apply elem_of_nil in Hx.
Qed.

(** ** The top chunk *)

(** What the heap grows by when [nb] bytes are wanted of the top chunk. *)
Definition top_growth (g : @mvars X) (nb : Z) : Z := page_mask_up (nb + top_pad g + MINSIZE).

Lemma page_mask_up_eq n : 0 <= n < 2 ^ 63 -> page_mask_up n = 4096 * ((n + 4095) / 4096).
Proof.
  intros H. rewrite /page_mask_up /malloc_getpagesize uwrap_small; [|rewrite /in_u; lia].
  change (4096 - 1) with (Z.ones 12). rewrite land_lnot_ones //. change (2 ^ 12) with 4096.
  change (Z.ones 12) with 4095. mlia.
Qed.

(** sbrk takes an int: a size that does not fit one fails, as do sizes that
    do not fit the heap. *)
Lemma sys_sbrk_grow n g : 0 <= n < 2 ^ 32 - 2 ^ 23 -> 0 < brk g <= eheap ->
  sys_sbrk n g = if brk g + n <=? eheap then (brk g, move_brk n g)
                 else (0, with_sys (set_errno ENOMEM (msys g)) g).
Proof.
  intros Hn Hb. assert (eheap = 2 ^ 22) as Heh by done. zcase; zbool.
  - apply sys_sbrk_ok; lia.
  - apply sys_sbrk_fail. destruct (Z_lt_le_dec n (2 ^ 31)).
    + rewrite swrap_small; [|rewrite /in_s; lia..]. rewrite uwrap_small; [lia|rewrite /in_u; lia].
    + assert (s32 n = n - 2 ^ 32) as ->.
      { rewrite /swrap. replace (n + 2 ^ (32 - 1)) with (n - 2 ^ 31 + 1 * 2 ^ 32) by lia.
        rewrite Z_mod_plus_full Z.mod_small; lia. }
      rewrite /uwrap -(Z_mod_plus_full _ 1) Z.mod_small; lia.
Qed.

Definition grown_top (g : @mvars X) (nb tsz tsz' : Z) : Prop :=
  nb + 32 <= tsz' \/ tsz' = tsz /\ eheap < brk g + top_growth g nb.

Lemma wp_malloc_extend_top fuel base cs bs tsz nb g Q : size_ok nb -> nb <= INT_MAX ->
  let top := base + total cs in
  pool base cs bs -∗ topchunk g base top tsz -∗
  (∀ g' tsz', ⌜grown_top g nb tsz tsz'⌝ -∗ pool base cs bs -∗ topchunk g' base top tsz' -∗ Q tt g') -∗
  wp (malloc_extend_top av fuel nb) g Q.
Proof.
  iIntros (Hnb Hmax top) "(%bb & %Hok & Hbb & Hbins & Hseg) (%Ht & Htop & Hh & Hc & Hres) HQ".
  iDestruct (seg_sizes with "Hseg") as %Hcs. pose proof (total_nonneg _ Hcs) as Ht0.
  pose proof Ht as [Hts [Hb1 Hb2] He [Hp1 Hp2] Hsb Hsm Hpad]. destruct Hnb as [Hn1 Hn2]. destruct Hts as [Ht1 Ht2].
  rewrite /INT_MAX in Hmax. assert (eheap = 2 ^ 22) as Heh by done.
  iDestruct (word_ne with "Hh Hbb") as %Hne.
  rewrite /malloc_extend_top /get_top. wp_load "Htop". iApply wp_bind.
  iApply (wp_chunksize with "Hh"). iIntros "Hh". rewrite header_size //. wp_getg. wp_getg.
  assert (Hg : u64 (nb + top_pad g + MINSIZE) = nb + top_pad g + MINSIZE).
  { apply uwrap_small. rewrite /in_u /MINSIZE. lia. }
  rewrite Hg. fold (top_growth g nb). change (u64 (-1)) with (2 ^ 64 - 1). zdecide. cbn [negb].
  assert (Hgr : top_growth g nb = 4096 * ((nb + top_pad g + 32 + 4095) / 4096)).
  { rewrite /top_growth /MINSIZE page_mask_up_eq //. lia. }
  assert (Hgb : nb + top_pad g + 32 <= top_growth g nb < nb + top_pad g + 32 + 4096) by (rewrite Hgr; mlia).
  assert (Hgm : top_growth g nb mod 4096 = 0) by (rewrite Hgr Z.mul_comm; apply Z_mod_mult).
  assert (Hbrk : brk g = top + tsz) by lia.
  remember (top_growth g nb) as G eqn:HG. rewrite He.
  iApply wp_bind. iApply wp_callg. rewrite sys_sbrk_grow; [|lia..].
  change MORECORE_FAILURE with (2 ^ 64 - 1). destruct (brk g + G <=? eheap) eqn:Hfit; zbool; cbn [fst snd].
  - zdecide. cbn [orb andb]. wp_setg. rewrite ?Z.eqb_refl. change (malloc_getpagesize - 1) with (Z.ones 12).
    rewrite Z.land_ones //. change (2 ^ 12) with 4096. rewrite Hp1. cbn [andb].
    rewrite uwrap_small; [|rewrite /in_u; lia]. rewrite /set_head. wp_store "Hh". rewrite header_true; [|mlia].
    iApply wp_setg. iApply ("HQ" $! _ (G + tsz) with "[%] [Hbb Hbins Hseg] [-]").
    + left. lia.
    + iExists bb. by iFrame.
    + rewrite /MallocAlloc.topchunk. iFrame "Htop Hh". cbn. iSplit.
      * iPureIntro. split; cbn; try done; try lia; [split; [lia|mlia]|split; [mlia|lia]|].
        rewrite Hsm uwrap_small; [lia|rewrite /in_u; lia].
      * rewrite (cells_split (brk g + G) (brk g) eheap); [|lia|mlia]. iDestruct "Hres" as "[Hn $]".
        replace (top + (G + tsz)) with (brk g + G) by lia.
        rewrite (cells_split (brk g) (top + 16) (brk g + G)); [|lia|mlia]. iFrame.
  - rewrite (_ : (0 <? brk g) = true); [|apply Z.ltb_lt; lia].
    rewrite (_ : (top =? initial_top av) = false); [|apply Z.eqb_neq; rewrite /initial_top; intros E; by apply Hne; rewrite E].
    cbn [andb orb negb Z.eqb]. wp_ret. iApply ("HQ" $! _ tsz with "[%] [Hbb Hbins Hseg] [-]").
    + right. split; [done|]. rewrite -HG. lia.
    + iExists bb. by iFrame.
    + rewrite /MallocAlloc.topchunk He. iFrame. iPureIntro. by destruct Ht; split.
Qed.

(** *** Taking memory from the top chunk *)

Lemma top_split g base top tsz nb : size_ok nb -> nb + 32 <= tsz ->
  let rem := top + nb in
  topchunk g base top tsz ⊢ ∃ v, ⌜v = top⌝ ∗
    fd_ (bin_at av 0) ↦ v ∗ size_ top ↦ header tsz true ∗ size_ rem ↦- ∗ cells (top + 16) (top + nb + 8) ∗
    (fd_ (bin_at av 0) ↦ rem -∗ size_ rem ↦ header (tsz - nb) true -∗ topchunk g base rem (tsz - nb)).
Proof.
  iIntros ([Hn1 Hn2] Hle rem) "(%Ht & Htop & Hh & Hc & Hres)". pose proof Ht as [Hts].
  destruct Hts as [Ht1 Ht2]. iExists top. iFrame "Htop Hh". iSplit; [done|].
  rewrite (cells_split (top + nb + 8) (top + 16)); [|lia|mlia]. iDestruct "Hc" as "[$ Hc]".
  rewrite (cells_cons (top + nb + 8)); [|lia]. rewrite /size_. iDestruct "Hc" as "[$ Hc]".
  iIntros "Htop Hh". rewrite /MallocAlloc.topchunk. iFrame "Htop Hh Hres".
  replace (rem + (tsz - nb)) with (top + tsz) by lia.
  replace (top + nb + 8 + 8) with (rem + 16) by lia. iFrame "Hc".
  iPureIntro. destruct Ht. split; try done; [split; [lia|mlia]|lia].
Qed.

(** What malloc promises: the null pointer only when no free chunk is big enough
    and the heap cannot grow; otherwise a block for the request. *)
Definition no_memory (g : @mvars X) (base : Z) (cs : list (Z * bool)) (tsz nb : Z) : Prop :=
  (forall x, x ∈ frees base cs -> x.2 < nb) /\ tsz < nb + 32 /\ eheap < brk g + top_growth g nb.

Definition allocated (base : Z) (cs : list (Z * bool)) (nb v vsz : Z) (cs' : list (Z * bool)) : Prop :=
  nb <= vsz < nb + 32 /\ useds base cs' ≡ₚ (v, vsz) :: useds base cs.

Definition block_post base cs nb (mem : Z) (g' : @mvars X) : hprop :=
  (∃ v vsz cs' tsz' bs', ⌜mem = chunk2mem v /\ allocated base cs nb v vsz cs'⌝ ∗
      arena av g' base cs' tsz' bs' ∗ cells (v + 16) (v + vsz + 8))%I.

Definition alloc_post (g : @mvars X) base cs tsz nb (mem : Z) (g' : @mvars X) : hprop :=
  ((⌜mem = 0 /\ no_memory g base cs tsz nb⌝ ∗ ∃ bs', arena av g' base cs tsz bs') ∨
   block_post base cs nb mem g')%I.

Lemma wp_take_top base cs bs tsz nb g Q : size_ok nb -> nb + 32 <= tsz ->
  let top := base + total cs in
  pool base cs bs -∗ topchunk g base top tsz -∗
  (∀ mem g', block_post base cs nb mem g' -∗ Q mem g') -∗
  wp (victim ← get_top av;
      set_head victim (Z.lor nb PREV_INUSE);;
      let top := chunk_at_offset victim nb in
      set_top av top;;
      set_head top (Z.lor (tsz - nb) PREV_INUSE);;
      mret (chunk2mem victim)) g Q.
Proof.
  iIntros (Hnb Hle top) "Hp Ht HQ". iAssert (⌜size_ok tsz⌝)%I as %Htsz.
  { iDestruct "Ht" as (Ht) "_". iPureIntro. apply Ht. }
  iDestruct (top_split _ _ _ _ nb with "Ht") as (v ->) "(Htop & Hh & Hrh & Hc & Hend)"; [done..|].
  rewrite /get_top /set_head /set_top /chunk_at_offset. wp_load "Htop". wp_store "Hh". wp_store "Htop".
  wp_store "Hrh". wp_ret. rewrite !header_true; [|destruct Htsz, Hnb; mlia|apply Hnb].
  iDestruct ("Hend" with "Htop Hrh") as "Ht". iApply "HQ".
  iExists top, nb, (cs ++ [(nb, true)]), (tsz - nb), bs. iFrame "Hc". iSplit.
  - iPureIntro. split; [done|]. split; [lia|]. rewrite chunks_in_app /=. by rewrite Permutation_app_comm.
  - rewrite arena_pool. rewrite total_app /= Z.add_0_r Z.add_assoc. iFrame "Ht".
    iDestruct "Hp" as "(%bb & %Hok & Hbb & Hbins & Hseg)". iExists bb. iFrame "Hbb Hbins". destruct Hok. iSplit.
    + iPureIntro. split; [by rewrite lastu_app|done|]. by rewrite chunks_in_app /= app_nil_r.
    + rewrite seg_app /= /chunk po_last. iFrame. auto.
Qed.

Lemma short_top tsz nb : size_ok tsz -> size_ok nb ->
  (tsz <? nb) || (long_sub_size_t tsz nb <? MINSIZE) = (tsz <? nb + 32).
Proof.
  intros Ht Hn. rewrite long_sub_eq // /MINSIZE. destruct Hn as [Hn _].
  destruct (Z.ltb_spec tsz nb), (Z.ltb_spec (tsz - nb) 32), (Z.ltb_spec tsz (nb + 32)); done || lia.
Qed.

Lemma topchunk_size g base top tsz : topchunk g base top tsz -∗ ⌜size_ok tsz⌝.
Proof. iIntros "(%Ht & _)". iPureIntro. apply Ht. Qed.

Lemma wp_top_size {A} g base top tsz (k : Z -> M (wheap * @mvars X) A) Q :
  topchunk g base top tsz -∗ (⌜size_ok tsz⌝ -∗ topchunk g base top tsz -∗ wp (k tsz) g Q) -∗
  wp (top ← get_top av; tsz ← chunksize top; k tsz) g Q.
Proof.
  iIntros "Ht HQ". iDestruct (topchunk_size with "Ht") as %Hs.
  iDestruct "Ht" as "(%Ht & Htop & Hh & Hc & Hres)". rewrite /get_top. wp_load "Htop".
  iApply wp_bind. iApply (wp_chunksize with "Hh"). iIntros "Hh". rewrite header_size; [|apply Hs].
  iApply "HQ"; [done|]. by iFrame.
Qed.

Lemma wp_use_top fuel base cs bs tsz nb g Q : size_ok nb -> nb <= INT_MAX ->
  (forall x, x ∈ concat bs -> x.2 < nb) ->
  pool base cs bs -∗ topchunk g base (base + total cs) tsz -∗
  (∀ mem g', alloc_post g base cs tsz nb mem g' -∗ Q mem g') -∗
  wp (use_top av fuel nb) g Q.
Proof.
  iIntros (Hnb Hmax Hsm) "Hp Ht HQ". rewrite /use_top.
  iApply (wp_top_size with "Ht"). iIntros (Hts) "Ht". rewrite short_top //. iApply wp_bind.
  destruct (tsz <? nb + 32) eqn:Hshort; zbool.
  - iApply wp_bind. iApply (wp_malloc_extend_top with "Hp Ht"); [done..|].
    iIntros (g' tsz' Hgrow) "Hp Ht". iApply (wp_top_size with "Ht"). iIntros (Hts') "Ht". rewrite short_top //.
    destruct (tsz' <? nb + 32) eqn:Hshort'; zbool; wp_ret.
    + destruct Hgrow as [|[-> Hfull]]; [lia|]. wp_ret. iApply "HQ". iLeft. iSplit.
      * iAssert (⌜concat bs ≡ₚ frees base cs⌝)%I as %Hperm.
        { iDestruct "Hp" as "(%bb & %Hok & _)". iPureIntro. apply Hok. }
        iPureIntro. split; [done|]. split; [|done]. intros x Hx. apply Hsm. by rewrite Hperm.
      * iExists bs. rewrite arena_pool. iFrame.
    + rewrite long_sub_eq //. iApply (wp_take_top with "Hp Ht"); [done..|].
      iIntros (mem g2) "H". iApply "HQ". by iRight.
  - wp_ret. rewrite long_sub_eq //. iApply (wp_take_top with "Hp Ht"); [done..|].
      iIntros (mem g2) "H". iApply "HQ". by iRight.
Qed.

(** ** malloc *)

Lemma request2size_eq bytes : 0 <= bytes < 2 ^ 64 - 23 ->
  request2size bytes = Z.max 32 (16 * ((bytes + 23) / 16)).
Proof.
  intros H. rewrite /request2size /SIZE_SZ /MALLOC_ALIGN_MASK /MINSIZE.
  rewrite uwrap_small; [|rewrite /in_u; lia]. zcase; zbool.
  - change (Z.land (32 + 15) (Z.lnot 15)) with 32. mlia.
  - change 15 with (Z.ones 4) at 2. rewrite land_lnot_ones //. change (2 ^ 4) with 16. mlia.
Qed.

(** The largest size malloc accepts. *)
Definition max_request : Z := 2 ^ 31 - 24.

Lemma request_fits bytes : in_u 64 bytes ->
  (INT_MAX <? request2size bytes) || (request2size bytes <? bytes) = (max_request <? bytes).
Proof.
  rewrite /in_u /max_request /INT_MAX. intros H. destruct (Z_lt_le_dec bytes (2 ^ 64 - 23)).
  - rewrite request2size_eq; [|lia].
    destruct (Z.ltb_spec (2 ^ 31 - 1) (Z.max 32 (16 * ((bytes + 23) / 16)))),
      (Z.ltb_spec (Z.max 32 (16 * ((bytes + 23) / 16))) bytes), (Z.ltb_spec (2 ^ 31 - 24) bytes); cbn; try done; mlia.
  - assert (request2size bytes = 32) as ->.
    { rewrite /request2size /SIZE_SZ /MALLOC_ALIGN_MASK /MINSIZE /uwrap.
      rewrite -(Z_mod_plus_full _ (-1)) Z.mod_small; [|lia]. zdecide. done. }
    zdecide. done.
Qed.

Lemma request_size_ok bytes : 0 <= bytes <= max_request ->
  size_ok (request2size bytes) /\ request2size bytes <= INT_MAX /\ bytes + 8 <= request2size bytes.
Proof.
  rewrite /max_request /INT_MAX. intros H. rewrite request2size_eq; [|lia].
  split; [split|]; [|apply Z.max_case_strong; intros _; [done|rewrite Z.mul_comm; apply Z_mod_mult]|]; mlia.
Qed.

Lemma pool_fuel fuel g base cs bs tsz : fuel_ok fuel ->
  pool base cs bs -∗ topchunk g base (base + total cs) tsz -∗ ⌜(length (concat bs) <= fuel)%nat⌝.
Proof.
  iIntros (Hf) "Hp Ht". iAssert (arena av g base cs tsz bs) with "[Hp Ht]" as "(%bb & %Hok & _ & _ & _ & Hseg & _)".
  { rewrite arena_pool. iFrame. }
  iDestruct (seg_sizes with "Hseg") as %Hcs. iPureIntro. by eapply fuel_bins.
Qed.

Lemma got_post g g0 base cs nb mem tsz tsz0 :
  got base cs nb mem -∗ topchunk g base (base + total cs) tsz -∗ alloc_post g0 base cs tsz0 nb mem g.
Proof.
  iIntros "(%v & %vsz & %cs' & %bs' & [-> %Ht] & Hp & Hc) Ht". destruct Ht as [Hsz Htot Hl Hu].
  iRight. iExists v, vsz, cs', tsz, bs'. iFrame "Hc". rewrite arena_pool Htot. iFrame. iPureIntro. done.
Qed.

Theorem wp_malloc fuel base cs tsz bs bytes g Q : fuel_ok fuel -> 0 <= bytes <= max_request ->
  arena av g base cs tsz bs -∗
  (∀ mem g', alloc_post g base cs tsz (request2size bytes) mem g' -∗ Q mem g') -∗
  wp (malloc av fuel bytes) g Q.
Proof.
  iIntros (Hf Hb) "Ha HQ". rewrite arena_pool. iDestruct "Ha" as "[Hp Ht]".
  destruct (request_size_ok bytes Hb) as (Hnb & Hmax & _).
  rewrite /malloc request_fits; [|rewrite /in_u /max_request in Hb |- *; lia]. zdecide. 
  set (nb := request2size bytes) in *. iDestruct (pool_fuel with "Hp Ht") as %Hlen; [done|].
  iApply wp_bind. iApply (wp_exact_fit with "Hp"); [done..|].
  iIntros ([mem|idx]) "Hs"; [wp_ret; iApply "HQ"; iApply (got_post with "Hs Ht")|].
  iDestruct "Hs" as "[%Hres Hp]". iApply wp_bind. iApply (wp_use_last_remainder with "Hp"); [done..|].
  iIntros ([mem|]) "Hs"; [wp_ret; iApply "HQ"; iApply (got_post with "Hs Ht")|].
  iDestruct "Hs" as (bs' [Hres' H1]) "Hp". iDestruct (pool_fuel with "Hp Ht") as %Hlen'; [done|].
  iApply wp_bind. iApply (wp_search_bins with "Hp"); [done..|].
  iIntros ([mem|]) "Hs"; [wp_ret; iApply "HQ"; iApply (got_post with "Hs Ht")|].
  iDestruct "Hs" as (bs2 Hsm) "Hp". iApply (wp_use_top with "Hp Ht HQ"); done.
Qed.
End Search.
