(* ===== verification/MallocFirst.v ===== *)
(** The first call of malloc: from the memory as the loader leaves it, where the
    header of bin 0 stands for the top chunk, to an allocator that is set up. *)

From iris.proofmode Require Import proofmode.
From S2P Require Import Prelude Kvm HeapLogic GuestSys Malloc MallocInv MallocFree MallocAlloc MallocSearch.

Section First.
Context {X : Type} (av : Z).
Implicit Types (g : @mvars X).

Definition empty_bins : list (list (Z * Z)) := replicate 128 [].

Lemma empty_bins_lookup i : (i < 128)%nat -> empty_bins !! i = Some [].
Proof. intros H. by apply lookup_replicate_2. Qed.

Lemma empty_bins_ok : bins_ok 0 empty_bins.
Proof.
  split; try done.
  - exists []. split; [done|cbn; lia].
  - intros i xs x Hi _ Hx. apply lookup_replicate in Hi as [-> _]. by apply elem_of_nil in Hx.
  - intros i xs Hi _ Hne. by apply lookup_replicate in Hi as [-> _].
Qed.

(** The variables before the first call. *)
Record fresh_ok g : Prop := FreshOk {
  fo_brk : 0 < brk g <= eheap;
  fo_word : brk g mod 8 = 0;
  fo_base : sbrk_base g = u64 (-1);
  fo_sbrked : sbrked_mem g = 0;
  fo_pad : 0 <= top_pad g <= 2 ^ 30
}.

Definition fresh g : hprop :=
  (⌜fresh_ok g⌝ ∗ fd_ (bin_at av 0) ↦ bin_at av 0 ∗ size_ (bin_at av 0) ↦ 0 ∗ bins av empty_bins ∗
   cells (brk g) eheap)%I.

(** Searching the empty bins. *)
Lemma wp_last_empty i g Q : (1 <= i < 128)%nat ->
  bins av empty_bins -∗ (bins av empty_bins -∗ Q (bin_at av (Z.of_nat i)) g) -∗
  wp (last (bin_at av (Z.of_nat i))) g Q.
Proof.
  iIntros (Hi) "Hb HQ". assert (Hl := empty_bins_lookup i ltac:(lia)).
  iDestruct (bins_acc with "Hb") as "[Hr Hc]"; [exact Hl|lia|].
  iDestruct (ring_last with "Hr") as "[Hw Hr]". rewrite /last. wp_load "Hw". cbn [fmap list_fmap lastd].
  iApply "HQ". iDestruct ("Hc" $! [] with "[Hr Hw]") as "H"; [by iApply "Hr"|]. by rewrite list_insert_id.
Qed.

Lemma wp_exact_fit_empty fuel nb g Q : size_ok nb ->
  bins av empty_bins -∗
  (∀ idx, ⌜6 <= idx <= 127⌝ -∗ bins av empty_bins -∗ Q (Resume idx) g) -∗
  wp (exact_fit av fuel nb) g Q.
Proof.
  iIntros (Hnb) "Hb HQ". pose proof (bin_index_range nb Hnb) as Hr. pose proof Hnb as [Hn1 Hn2].
  rewrite /exact_fit /is_small_request /MAX_SMALLBIN_SIZE /SMALLBIN_WIDTH. zcase; zbool.
  - assert (E : smallbin_index nb = Z.of_nat (Z.to_nat (nb / 8))).
    { rewrite /smallbin_index Z.shiftr_div_pow2 //. change (2 ^ 3) with 8. mlia. }
    rewrite E. iApply wp_bind. iApply (wp_last_empty with "Hb"); [mlia|]. iIntros "Hb".
    rewrite Z.eqb_refl. iApply wp_bind. rewrite next_bin_at.
    replace (Z.of_nat (Z.to_nat (nb / 8)) + 1) with (Z.of_nat (S (Z.to_nat (nb / 8)))) by lia.
    iApply wp_bind. iApply (wp_last_empty with "Hb"); [mlia|]. iIntros "Hb". wp_ret.
    rewrite Z.eqb_refl. cbn [negb]. wp_ret. iApply ("HQ" with "[%] Hb"). mlia.
  - pose proof (bin_index_mono 504 nb ltac:(lia)) as Hm. change (bin_index 504) with 63 in Hm.
    replace (bin_index nb) with (Z.of_nat (Z.to_nat (bin_index nb))) by lia.
    iApply wp_bind. iApply (wp_last_empty with "Hb"); [lia|]. iIntros "Hb".
    assert (E : forall i b, exact_scan (X := X) fuel nb i b b = mret (Resume (i + 1))).
    { intros i b. destruct fuel; cbn [exact_scan]; by rewrite Z.eqb_refl. }
    rewrite E. wp_ret. iApply ("HQ" with "[%] Hb"). lia.
Qed.

Lemma wp_remainder_empty fuel nb g Q :
  bins av empty_bins -∗ (bins av empty_bins -∗ Q None g) -∗ wp (use_last_remainder av fuel nb) g Q.
Proof.
  iIntros "Hb HQ". rewrite /use_last_remainder.
  iDestruct (bins_read_first av _ 1 with "Hb") as "[Hf Hb]"; [by apply empty_bins_lookup; lia|done|].
  change (bin_at av (Z.of_nat 1)) with (last_remainder av). wp_load "Hf". cbn [hd fmap list_fmap].
  rewrite Z.eqb_refl. wp_ret. iApply "HQ". iApply ("Hb" with "Hf").
Qed.

Lemma wp_search_empty fuel nb idx g Q : 6 <= idx <= 127 ->
  size_ (bin_at av 0) ↦ 0 -∗ (size_ (bin_at av 0) ↦ 0 -∗ Q None g) -∗ wp (search_bins av fuel nb idx) g Q.
Proof.
  iIntros (Hidx) "Hb HQ". rewrite /search_bins /get_binblocks. wp_load "Hb".
  assert (0 < idx2binblock idx).
  { rewrite /idx2binblock /BINBLOCKWIDTH Z.shiftl_mul_pow2; [|mlia].
    rewrite Z.mul_1_l. apply Z.pow_pos_nonneg; mlia. }
  destruct (idx2binblock idx <=? 0) eqn:E; zbool; [lia|]. wp_ret. by iApply "HQ".
Qed.

(** ** Setting up the top chunk *)

(** Where the first chunk starts, and the end of its last page. *)
Definition first_chunk (b : Z) : Z := 16 * ((b + 15) / 16).
Definition page_end (e : Z) : Z := 4096 * ((e + 4095) / 4096).

Lemma first_align b :
  (if 0 <? Z.land (chunk2mem b) MALLOC_ALIGN_MASK
   then (MALLOC_ALIGNMENT - Z.land (chunk2mem b) MALLOC_ALIGN_MASK,
         b + (MALLOC_ALIGNMENT - Z.land (chunk2mem b) MALLOC_ALIGN_MASK))
   else (0, b)) = (first_chunk b - b, first_chunk b).
Proof.
  rewrite /chunk2mem /SIZE_SZ /MALLOC_ALIGNMENT /first_chunk. change MALLOC_ALIGN_MASK with (Z.ones 4).
  rewrite Z.land_ones //. change (2 ^ 4) with 16.
  destruct (0 <? (b + 2 * 8) mod 16) eqn:E; zbool; f_equal; mlia.
Qed.

Lemma first_correction b n : 0 <= b -> 0 <= n -> b + n < 2 ^ 60 ->
  Z.land (u64 (first_chunk b - b +
    (malloc_getpagesize - Z.land (u64 (first_chunk b + n)) (malloc_getpagesize - 1)))) (malloc_getpagesize - 1)
  = page_end (b + n) - (b + n).
Proof.
  intros Hb Hn Hs. rewrite /malloc_getpagesize. change (4096 - 1) with (Z.ones 12). rewrite !Z.land_ones //.
  change (2 ^ 12) with 4096. rewrite /first_chunk /page_end.
  rewrite (uwrap_small _ (16 * ((b + 15) / 16) + n)); [|rewrite /in_u; mlia].
  rewrite uwrap_small; [|rewrite /in_u; mlia]. mlia.
Qed.

(** The first request fits the heap. *)
Definition first_fits g (nb : Z) : Prop := brk g + nb + top_pad g + 32 <= eheap.

Lemma cells_excl a b c v : a <= c -> c + 8 <= b -> (c - a) mod 8 = 0 ->
  cells a b -∗ c ↦ v -∗ False.
Proof.
  iIntros (H1 H2 H3) "Hc Hv". rewrite (cells_split c); [|lia|done]. rewrite (cells_cons c); [|lia].
  iDestruct "Hc" as "(_ & [%w Hw] & _)". iApply (word_excl c). iFrame.
Qed.

Lemma wp_first_elsewhere fuel b n old_end g Q :
  0 < b -> b mod 8 = 0 -> 64 <= n -> b + n <= eheap -> brk g = b + n -> sbrk_base g = u64 (-1) ->
  sbrked_mem g = n -> 0 <= top_pad g <= 2 ^ 30 ->
  fd_ (bin_at av 0) ↦- -∗ cells b eheap -∗
  (∀ g', topchunk av g' (first_chunk b) (first_chunk b) (page_end (b + n) - first_chunk b) -∗ Q tt g') -∗
  wp (extend_elsewhere av fuel (bin_at av 0) 0 old_end n b) g Q.
Proof.
  iIntros (Hb Hb8 Hn Hfit Hbrk Hbase Hsb Hpad) "Htop Hres HQ". assert (eheap = 2 ^ 22) as Heh by done.
  assert (Hc : b <= first_chunk b < b + 16 /\ first_chunk b mod 16 = 0) by (rewrite /first_chunk; mlia).
  assert (Hp : b + n <= page_end (b + n) <= eheap /\ page_end (b + n) mod 4096 = 0) by (rewrite /page_end; mlia).
  rewrite /extend_elsewhere. wp_setg. rewrite Hbase Z.eqb_refl first_align. cbv iota beta.
  rewrite first_correction; [|lia..]. iApply wp_bind. iApply wp_callg.
  set (c := first_chunk b) in *. set (e := page_end (b + n)) in *. clearbody c e.
  rewrite sys_sbrk_grow; cbn; [|lia..]. rewrite Hbrk. replace (b + n + (e - (b + n))) with e by lia. zdecide. cbn [fst snd].
  change MORECORE_FAILURE with (2 ^ 64 - 1). zdecide. wp_setg. rewrite /set_top /set_head. wp_store "Htop".
  rewrite (cells_split c b eheap); [|lia|mlia]. rewrite (cells_cons c); [|lia]. rewrite (cells_cons (c + 8)); [|lia].
  rewrite (cells_split e (c + 8 + 8) eheap); [|lia|mlia]. iDestruct "Hres" as "(_ & _ & Hh & Hc & Hres)".
  change (c + 8) with (size_ c). wp_store "Hh". rewrite /initial_top Z.eqb_refl. cbn [negb].
  rewrite /update_max. iApply wp_setg. iApply "HQ". rewrite /topchunk. cbn [msys with_max with_sbrked with_base with_sys].
  iFrame "Htop". replace (size_ c + 8) with (c + 16) by (rewrite /size_; lia). replace (c + (e - c)) with e by lia.
  rewrite uwrap_small; [|rewrite /in_u; lia]. replace (b + n - c + (e - (b + n))) with (e - c) by lia.
  rewrite header_true; [|mlia]. iFrame "Hh Hc". cbn. rewrite Hbrk. replace (b + n + (e - (b + n))) with e by lia. iFrame "Hres".
  iPureIntro. split; cbn; try lia; [split; [lia|mlia]|split; [mlia|lia]|].
  rewrite Hsb !uwrap_small; rewrite /in_u; lia.
Qed.

Lemma wp_first_extend fuel nb g Q : size_ok nb -> nb <= INT_MAX -> first_fits g nb ->
  fresh g -∗
  (∀ g' tsz, ⌜nb + 32 <= tsz⌝ -∗ pool av (first_chunk (brk g)) [] empty_bins -∗
     topchunk av g' (first_chunk (brk g)) (first_chunk (brk g)) tsz -∗ Q tt g') -∗
  wp (malloc_extend_top av fuel nb) g Q.
Proof.
  iIntros (Hnb Hmax Hfit) "(%Hok & Htop & Hbb & Hbins & Hres) HQ". destruct Hok as [Hb Hb8 Hbase Hsb Hpad].
  destruct Hnb as [Hn1 Hn2]. rewrite /INT_MAX /first_fits in Hmax, Hfit. assert (eheap = 2 ^ 22) as Heh by done.
  rewrite /malloc_extend_top /get_top. wp_load "Htop". iApply wp_bind.
  iApply (wp_chunksize with "Hbb"). iIntros "Hbb". rewrite Z.land_0_l. wp_getg. wp_getg. rewrite Hbase Z.eqb_refl. cbn [negb].
  rewrite (uwrap_small _ (nb + top_pad g + MINSIZE)); [|rewrite /in_u /MINSIZE; lia]. set (n := nb + top_pad g + MINSIZE).
  assert (Hn : n = nb + top_pad g + 32) by done. clearbody n.
  iApply wp_bind. iApply wp_callg. rewrite sys_sbrk_grow; [|lia..]. zdecide. cbn [fst snd].
  change MORECORE_FAILURE with (2 ^ 64 - 1). zdecide. cbn [orb]. rewrite /initial_top Z.eqb_refl andb_false_r.
  wp_setg. iAssert (⌜brk g <> bin_at av 0⌝)%I as %Hne.
  { iIntros (E). iApply (cells_excl (brk g) eheap (size_ (bin_at av 0)) with "Hres Hbb");
      rewrite /size_ -E; [lia|lia|mlia]. }
  rewrite Z.add_0_r. zdecide. cbn [andb].
  iApply (wp_first_elsewhere with "[Htop] Hres"); [lia|done|lia|lia|done|done| |done|by iExists _|].
  { cbn. rewrite Hsb uwrap_small; [lia|rewrite /in_u; lia]. }
  iIntros (g') "Ht". iApply ("HQ" with "[%] [Hbb Hbins] Ht").
  - rewrite /page_end /first_chunk. mlia.
  - iExists 0. iFrame "Hbb Hbins". iPureIntro. by split; [|apply empty_bins_ok|].
Qed.

Theorem wp_malloc_first fuel bytes g Q : 0 <= bytes <= max_request -> first_fits g (request2size bytes) ->
  fresh g -∗
  (∀ mem g', block_post av (first_chunk (brk g)) [] (request2size bytes) mem g' -∗ Q mem g') -∗
  wp (malloc av fuel bytes) g Q.
Proof.
  iIntros (Hb Hfit) "(%Hok & Htop & Hbb & Hbins & Hres) HQ".
  destruct (request_size_ok bytes Hb) as (Hnb & Hmax & _).
  rewrite /malloc request_fits; [|rewrite /in_u /max_request in Hb |- *; lia]. zdecide.
  set (nb := request2size bytes) in *. iApply wp_bind. iApply (wp_exact_fit_empty with "Hbins"); [done|].
  iIntros (idx Hidx) "Hbins". iApply wp_bind. iApply (wp_remainder_empty with "Hbins"). iIntros "Hbins".
  iApply wp_bind. iApply (wp_search_empty with "Hbb"); [done|]. iIntros "Hbb".
  rewrite /use_top /get_top. wp_load "Htop". iApply wp_bind. iApply (wp_chunksize with "Hbb"). iIntros "Hbb".
  rewrite Z.land_0_l. assert (0 <? nb = true) as -> by (destruct Hnb; apply Z.ltb_lt; lia). cbn [orb].
  iApply wp_bind. iApply wp_bind. iApply (wp_first_extend with "[$Htop $Hbb $Hbins $Hres //]"); [done..|].
  iIntros (g' tsz Htsz) "Hp Ht". iApply (wp_top_size with "Ht"). iIntros (Hts) "Ht". rewrite short_top //. zdecide.
  wp_ret. rewrite long_sub_eq //. set (b := first_chunk (brk g)).
  assert (E : b = b + total []) by (cbn; lia). rewrite {4}E.
  iApply (wp_take_top with "Hp Ht HQ"); done.
Qed.

(** ** The memory as the loader leaves it *)

(** malloc_av_ with its initial values, and memory from the end of the image up to
    the 4 MB that sbrk gives out.  Virtines of this repository have less; what then
    happens is in file MallocLocal. *)
Record boots (h : wheap) g : Prop := Boots {
  bt_vars : fresh_ok g;
  bt_binblocks : h !! size_ (bin_at av 0) = Some 0;
  bt_bins : forall i, 0 <= i < 128 ->
    h !! fd_ (bin_at av i) = Some (bin_at av i) /\ h !! bk_ (bin_at av i) = Some (bin_at av i);
  bt_heap : forall x, brk g <= x -> x + 8 <= eheap -> (x - brk g) mod 8 = 0 -> is_Some (h !! x);
  bt_apart : av + 8 * 258 <= brk g \/ eheap <= av
}.

Lemma words_own (l : list (Z * Z)) (h : wheap) : NoDup l.*1 -> (forall x, x ∈ l -> h !! x.1 = Some x.2) ->
  ([∗ list] x ∈ l, x.1 ↦ x.2)%I h.
Proof.
  revert h. induction l as [|[a v] l IH]; intros h Hnd Hl; cbn in *.
  - exact I.
  - apply NoDup_cons in Hnd as [Ha Hnd]. exists {[a := v]}, (delete a h).
    assert (Hav : h !! a = Some v) by (apply (Hl (a, v)); set_solver).
    split; [apply map_disjoint_singleton_l_2, lookup_delete_eq|]. split; [|split].
    + rewrite -insert_union_singleton_l insert_delete_id //.
    + cbn. by rewrite lookup_singleton_eq.
    + apply IH; [done|]. intros x Hx. rewrite lookup_delete_ne; [apply Hl; set_solver|].
      intros ->. apply Ha, list_elem_of_fmap. eauto.
Qed.

(** The words of malloc_av_ after the first: their offsets, and which bin's header
    they point to; the second word is the bitmap of the blocks. *)
Definition av_offsets : list (Z * Z) :=
  [(16, 0); (24, 0); (8, -1)] ++ (seq 1 127 ≫= fun i => [(16 + 16 * Z.of_nat i, Z.of_nat i); (24 + 16 * Z.of_nat i, Z.of_nat i)]).
Definition av_word (x : Z * Z) : Z * Z := (av + x.1, if x.2 =? -1 then 0 else bin_at av x.2).

Lemma av_offsets_nodup : NoDup av_offsets.*1.
Proof. apply (bool_decide_unpack _). vm_compute. exact I. Qed.

Lemma empty_bins_seq (Φ : nat -> hprop) n m :
  ([∗ list] i ↦ _ ∈ replicate n ([] : list (Z * Z)), Φ (m + i)%nat)%I ⊣⊢ ([∗ list] i ∈ seq m n, Φ i)%I.
Proof.
  revert m. induction n as [|n IH]; intros m; [done|]. cbn. rewrite Nat.add_0_r. f_equiv.
  rewrite -IH. apply big_sepL_proper. intros k y _. by rewrite Nat.add_succ_r.
Qed.

Lemma av_word_lookup h g y : boots h g -> y ∈ av_offsets -> h !! (av_word y).1 = Some (av_word y).2.
Proof.
  intros [] Hy. unfold av_offsets in Hy. rewrite /av_word.
  apply elem_of_app in Hy as [Hy|(i & Hy & Hi%elem_of_seq)%list_elem_of_bind].
  - destruct (bt_bins0 0 ltac:(lia)) as [Hf Hb].
    apply elem_of_cons in Hy as [->|[-> | ->%list_elem_of_singleton]%elem_of_cons]; cbn.
    + rewrite -Hf. f_equal. rewrite /fd_ /bin_at /SIZE_SZ. lia.
    + rewrite -Hb. f_equal. rewrite /bk_ /bin_at /SIZE_SZ. lia.
    + rewrite -bt_binblocks0. f_equal. rewrite /size_ /bin_at /SIZE_SZ. lia.
  - destruct (bt_bins0 (Z.of_nat i) ltac:(lia)) as [Hf Hb].
    apply elem_of_cons in Hy as [-> | ->%list_elem_of_singleton]; cbn [fst snd]; zdecide;
      [rewrite -Hf|rewrite -Hb]; f_equal; rewrite /fd_ /bk_ /bin_at /SIZE_SZ; lia.
Qed.

Lemma av_offsets_range y : y ∈ av_offsets -> 8 <= y.1 < 8 * 258 /\ y.1 mod 8 = 0.
Proof.
  intros Hy. unfold av_offsets in Hy.
  apply elem_of_app in Hy as [Hy|(i & Hy & Hi%elem_of_seq)%list_elem_of_bind].
  - rewrite !elem_of_cons elem_of_nil in Hy. destruct Hy as [->|[->|[->|[]]]]; done.
  - rewrite !elem_of_cons elem_of_nil in Hy. destruct Hy as [->|[->|[]]]; cbn [fst snd]; mlia.
Qed.

Lemma boot_nodup b n (f : nat -> Z) : av + 8 * 258 <= b \/ b + 8 * Z.of_nat n <= av ->
  NoDup ((av_word <$> av_offsets) ++ ((fun i => (b + 8 * Z.of_nat i, f i)) <$> seq 0 n)).*1.
Proof.
  intros Hap. rewrite fmap_app -!list_fmap_compose. apply NoDup_app. split; [|split].
  - rewrite (list_fmap_compose fst (fun o => av + o)). apply NoDup_fmap_2; [|apply av_offsets_nodup].
    intros x y. lia.
  - intros x (y & -> & Hy%av_offsets_range)%list_elem_of_fmap (i & E & Hi%elem_of_seq)%list_elem_of_fmap.
    cbn in E. lia.
  - apply NoDup_fmap_2; [intros x y; cbn; lia|apply NoDup_seq].
Qed.

Lemma own_bins n :
  ([∗ list] y ∈ seq 1 n ≫= fun i => [(16 + 16 * Z.of_nat i, Z.of_nat i); (24 + 16 * Z.of_nat i, Z.of_nat i)],
     (av_word y).1 ↦ (av_word y).2) ⊢ bins av (replicate (S n) []).
Proof.
  set (Φ := fun i : nat => (if decide (i = 0%nat) then emp else ring (bin_at av (Z.of_nat i)) [])%I : hprop).
  assert (E : ([∗ list] i ∈ seq 0 (S n), Φ i) ⊢ bins av (replicate (S n) [])).
  { rewrite -empty_bins_seq. apply big_sepL_mono. intros k xs [-> _]%lookup_replicate. done. }
  rewrite -E big_sepL_bind /Φ.
  change (seq 0 (S n)) with (0%nat :: seq 1 n). rewrite big_sepL_cons. iIntros "H". iSplit; [done|].
  iApply (big_sepL_mono with "H"). intros k i Hi. apply list_elem_of_lookup_2, elem_of_seq in Hi.
  rewrite decide_False; [|lia]. rewrite /ring /= /edge /av_word. cbn [fst snd]. zdecide.
  replace (fd_ (bin_at av (Z.of_nat i))) with (av + (16 + 16 * Z.of_nat i)) by (rewrite /fd_ /bin_at /SIZE_SZ; lia).
  replace (bk_ (bin_at av (Z.of_nat i))) with (av + (24 + 16 * Z.of_nat i)) by (rewrite /bk_ /bin_at /SIZE_SZ; lia).
  iIntros "($ & $ & _)".
Qed.

Lemma boots_fresh h g : boots h g -> fresh g h.
Proof.
  intros Hboots. pose proof Hboots as [Hv Hbb Hbins Hheap Hap].
  set (cell := fun i : nat => (brk g + 8 * Z.of_nat i, default 0 (h !! (brk g + 8 * Z.of_nat i)))).
  set (l := (av_word <$> av_offsets) ++ (cell <$> seq 0 (Z.to_nat ((eheap - brk g) / 8)))).
  assert (Hl : ([∗ list] x ∈ l, x.1 ↦ x.2)%I h).
  { apply words_own; [apply boot_nodup; destruct Hv; mlia|]. intros x [Hx|Hx]%elem_of_app; apply list_elem_of_fmap in Hx.
    - destruct Hx as (y & -> & Hy). by apply (av_word_lookup h g).
    - destruct Hx as (i & -> & Hi%elem_of_seq). unfold cell. cbn.
      destruct (Hheap (brk g + 8 * Z.of_nat i)) as [v ->]; [lia|mlia|mlia|done]. }
  assert (E : (([∗ list] x ∈ av_word <$> av_offsets, x.1 ↦ x.2) ∗
      ([∗ list] x ∈ cell <$> seq 0 (Z.to_nat ((eheap - brk g) / 8)), x.1 ↦ x.2)) ⊢ fresh g).
  { rewrite /av_offsets fmap_app big_sepL_app !big_sepL_fmap own_bins 3!big_sepL_cons.
    iIntros "[[(Htop & _ & Hbb & _) Hbins] Hcells]". rewrite /fresh. iSplit; [by iPureIntro|].
    cbn [av_word fst snd Z.eqb].
    replace (fd_ (bin_at av 0)) with (av + 16) by (rewrite /fd_ /bin_at /SIZE_SZ; lia).
    replace (size_ (bin_at av 0)) with (av + 8) by (rewrite /size_ /bin_at /SIZE_SZ; lia).
    iFrame "Htop Hbb". iSplitL "Hbins"; [iExact "Hbins"|]. rewrite /cells /words.
    iApply (big_sepL_mono with "Hcells"). intros k i _. iIntros "H". by iExists _. }
  eapply entails_at; [exact E|]. eapply entails_at; [|exact Hl]. unfold l. by rewrite big_sepL_app.
Qed.

(** Such a memory: zero words from the break on. *)
Definition boot_heap (start : Z) : wheap :=
  list_to_map ((av_word <$> av_offsets) ++
    ((fun i => (start + 8 * Z.of_nat i, 0)) <$> seq 0 (Z.to_nat ((eheap - start) / 8)))).

Lemma boot_heap_lookup start x : av + 8 * 258 <= start \/ eheap <= av -> start <= eheap ->
  x ∈ (av_word <$> av_offsets) ++
    ((fun i => (start + 8 * Z.of_nat i, 0)) <$> seq 0 (Z.to_nat ((eheap - start) / 8))) ->
  boot_heap start !! x.1 = Some x.2.
Proof.
  intros Hap Hs Hx. apply elem_of_list_to_map_1; [apply (boot_nodup _ _ (fun _ => 0)); mlia|]. by destruct x.
Qed.

Lemma av_offsets_in i : (i < 128)%nat ->
  (8, -1) ∈ av_offsets /\ (16 + 16 * Z.of_nat i, Z.of_nat i) ∈ av_offsets /\
  (24 + 16 * Z.of_nat i, Z.of_nat i) ∈ av_offsets.
Proof.
  intros Hi. split; [apply elem_of_app; left; do 2 apply list_elem_of_further; apply list_elem_of_here|].
  destruct i as [|i].
  - split; apply elem_of_app; left; [apply list_elem_of_here|apply list_elem_of_further, list_elem_of_here].
  - split; apply elem_of_app; right; apply list_elem_of_bind; exists (S i); (split; [|apply elem_of_seq; lia]);
      [apply list_elem_of_here|apply list_elem_of_further, list_elem_of_here].
Qed.

Lemma boot_heap_boots g : fresh_ok g -> av + 8 * 258 <= brk g \/ eheap <= av -> boots (boot_heap (brk g)) g.
Proof.
  intros Hok Hap. pose proof Hok as [[Hb He] _ _ _ _].
  assert (Hav : forall y, y ∈ av_offsets -> boot_heap (brk g) !! (av_word y).1 = Some (av_word y).2).
  { intros y Hy. apply boot_heap_lookup; [done..|]. apply elem_of_app. left. apply list_elem_of_fmap. eauto. }
  split; try done.
  - rewrite -(Hav (8, -1)); [|by apply (av_offsets_in 0); lia]. f_equal. rewrite /size_ /bin_at /SIZE_SZ /=. lia.
  - intros i Hi. destruct (av_offsets_in (Z.to_nat i)) as (_ & H1%Hav & H2%Hav); [lia|].
    rewrite Z2Nat.id in H1, H2; [|lia..].
    rewrite /av_word /= in H1, H2. destruct (Z.eqb_spec i (-1)); [lia|].
    split; [rewrite -H1|rewrite -H2]; f_equal; rewrite /fd_ /bk_ /bin_at /SIZE_SZ /=; lia.
  - intros x H1 H2 H3. exists 0. apply (boot_heap_lookup (brk g) (x, 0)); [done..|]. apply elem_of_app. right.
    apply list_elem_of_fmap. exists (Z.to_nat ((x - brk g) / 8)). split; [f_equal; mlia|apply elem_of_seq; mlia].
Qed.
End First.
