(* ===== verification/MallocSafe.v ===== *)
(** The allocator of the guest's C library is an instance of the interface of file
    Allocator; why malloc gives nothing when it does; the first call. *)

From iris.proofmode Require Import proofmode.
From S2P Require Import Prelude Kvm HeapLogic Allocator GuestSys Malloc MallocInv MallocFree MallocAlloc.
From S2P Require Import MallocSearch MallocFirst.

Section Safe.
Context {X : Type} (av : Z) (fuel : nat) (base : Z).
Implicit Types (g : @mvars X).

(** ** The instance *)

(** The block of a chunk. *)
Definition block_of (c : Z * Z) : Z * Z := (c.1 + 16, c.2 - 8).

(** The first chunk is at [base]. *)
Definition malloc_inv (l : list (Z * Z)) g : hprop :=
  (∃ cs tsz bs, ⌜l ≡ₚ block_of <$> useds base cs⌝ ∗ arena av g base cs tsz bs)%I.

Lemma used_chunk g cs tsz bs v vsz : (v, vsz) ∈ useds base cs ->
  arena av g base cs tsz bs -∗
  ⌜size_ok vsz /\ 0 < base <= v /\ sbrk_base g <= base /\ v mod 16 = 0 /\ v + vsz + 32 <= brk g <= eheap⌝.
Proof.
  intros (cs1 & cs2 & -> & ->)%chunks_in_elem. iIntros "(%bb & %Hok & _ & _ & _ & Hseg & _)".
  iDestruct (seg_sizes with "Hseg") as %Hcs. iPureIntro. destruct Hok.
  apply Forall_app in Hcs as [H1 [H2 H3]%Forall_cons]. cbn in H2.
  pose proof (total_nonneg _ H1). pose proof (total_mod _ H1). pose proof (total_nonneg _ H3).
  rewrite total_app /= in ao_end. destruct ao_top as [Ht _]. conjs; try done; try lia; mlia.
Qed.

Lemma block_of_ok g cs tsz bs v vsz bytes : (v, vsz) ∈ useds base cs -> bytes + 8 <= vsz ->
  arena av g base cs tsz bs -∗ ⌜block_ok bytes (block_of (v, vsz))⌝.
Proof.
  iIntros (Hv Hb) "Ha". iDestruct (used_chunk with "Ha") as %([H1 H2] & H3 & _ & H4 & _); [done|].
  iPureIntro. rewrite /block_ok /=. conjs; try lia; mlia.
Qed.

Lemma block_post_inv cs bytes nb mem g l : bytes + 8 <= nb -> l ≡ₚ block_of <$> useds base cs ->
  block_post av base cs nb mem g ⊢
  ∃ b, ⌜mem = b.1 /\ block_ok bytes b⌝ ∗ malloc_inv (b :: l) g ∗ block_cells b.
Proof.
  iIntros (Hnb Hl) "(%v & %vsz & %cs' & %tsz' & %bs' & [-> [%Hsz %Hu]] & Ha & Hc)".
  iDestruct (block_of_ok _ _ _ _ v vsz bytes with "Ha") as %Hok; [rewrite Hu; set_solver|lia|].
  iExists (block_of (v, vsz)). iSplit; [done|]. iSplitR "Hc".
  - iExists cs', tsz', bs'. iFrame. iPureIntro. by rewrite Hu Hl.
  - rewrite /block_cells /=. replace (v + 16 + (vsz - 8)) with (v + vsz + 8) by lia. done.
Qed.

Lemma malloc_inv_perm l l' g : l ≡ₚ l' -> malloc_inv l g ⊢ malloc_inv l' g.
Proof. iIntros (E) "(%cs & %tsz & %bs & %H & Ha)". iExists cs, tsz, bs. iFrame. by rewrite -E. Qed.

Context (Hfuel : fuel_ok fuel).

Lemma wp_malloc_inv bytes l g Q : 0 <= bytes <= max_request ->
  malloc_inv l g -∗
  (∀ g', malloc_inv l g' -∗ Q 0 g') ∧
  (∀ b g', ⌜block_ok bytes b⌝ -∗ malloc_inv (b :: l) g' -∗ block_cells b -∗ Q b.1 g') -∗
  wp (malloc av fuel bytes) g Q.
Proof.
  iIntros (Hb) "(%cs & %tsz & %bs & %Hl & Ha) HQ". destruct (request_size_ok bytes Hb) as (_ & _ & Hnb).
  iApply (wp_malloc with "Ha"); [done..|]. iIntros (mem g') "[[[-> _] Ha]|Hp]".
  - iDestruct "Ha" as (bs') "Ha". iApply "HQ". iExists cs, tsz, bs'. by iFrame.
  - iDestruct (block_post_inv with "Hp") as (b [-> Hok]) "[Hi Hc]"; [done..|]. by iApply ("HQ" with "[%] Hi Hc").
Qed.

(** Larger requests are refused. *)
Lemma inv_errno e l g : malloc_inv l g ⊢ malloc_inv l (with_sys (set_errno e (msys g)) g).
Proof.
  iIntros "(%cs & %tsz & %bs & %Hl & (%bb & %Hok & H))". iExists cs, tsz, bs. iSplit; [done|]. iExists bb. iFrame "H".
  iPureIntro. destruct Hok. by split.
Qed.

Lemma wp_malloc_any bytes l g Q : in_u 64 bytes ->
  malloc_inv l g -∗
  (∀ g', malloc_inv l g' -∗ Q 0 g') ∧
  (∀ b g', ⌜block_ok bytes b⌝ -∗ malloc_inv (b :: l) g' -∗ block_cells b -∗ Q b.1 g') -∗
  wp (malloc av fuel bytes) g Q.
Proof.
  iIntros (Hb) "Hi HQ". destruct (Z_lt_le_dec max_request bytes) as [Hlt|Hle].
  - rewrite /malloc request_fits //. zdecide. rewrite /set_ENOMEM. wp_setg. wp_ret. iDestruct "HQ" as "[HQ _]".
    iApply "HQ". by iApply inv_errno.
  - iApply (wp_malloc_inv with "Hi HQ"). destruct Hb. lia.
Qed.

Lemma wp_free_inv b l g Q :
  malloc_inv (b :: l) g -∗ block_cells b -∗ (∀ g', malloc_inv l g' -∗ Q tt g') -∗
  wp (free av fuel b.1) g Q.
Proof.
  iIntros "(%cs & %tsz & %bs & %Hl & Ha) Hc HQ".
  assert (Hb : b ∈ block_of <$> useds base cs) by (rewrite -Hl; set_solver).
  apply list_elem_of_fmap in Hb as ([v vsz] & -> & (cs1 & cs2 & -> & ->)%chunks_in_elem).
  rewrite /block_cells /=. replace (base + total cs1 + 16 + (vsz - 8)) with (base + total cs1 + vsz + 8) by lia.
  iApply (wp_free with "Ha Hc"); [done|]. iIntros (g' cs' tsz' bs' E) "Ha". iApply "HQ".
  iExists cs', tsz', bs'. iFrame. iPureIntro. rewrite E. rewrite chunks_in_app /= !fmap_app /= in Hl.
  apply (Permutation_cons_inv (a := block_of (base + total cs1, vsz))).
  rewrite Hl fmap_app. by rewrite Permutation_middle.
Qed.

#[export] Program Instance mallocr_allocator : Allocator (malloc av fuel) (free av fuel) max_request := {
  heap_inv := malloc_inv
}.
Next Obligation. exact malloc_inv_perm. Qed.
Next Obligation. exact wp_malloc_inv. Qed.
Next Obligation. exact wp_free_inv. Qed.
Next Obligation. intros g Q. iIntros "HQ". rewrite /free /=. by wp_ret. Qed.
End Safe.

(** ** Gaps *)

(** No two free chunks are neighbours. *)
Fixpoint coalesced (pu : bool) (cs : list (Z * bool)) : Prop :=
  match cs with
  | [] => True
  | (_, u) :: cs => (u = false -> pu = true) /\ coalesced u cs
  end.

Lemma seg_coalesced p pu cs : seg p pu cs -∗ ⌜coalesced pu cs⌝.
Proof.
  iIntros "H". iInduction cs as [|[sz u] cs] "IH" forall (p pu); cbn; [done|].
  iDestruct "H" as "[(_ & _ & Hu) H]". iDestruct ("IH" with "H") as %Hc. iSplit; [|done].
  destruct u; [by iPureIntro|]. iDestruct "Hu" as (->) "_". by iPureIntro.
Qed.

(** The chunk [c] and the range of [n] bytes at [a] overlap. *)
Definition meets (a n : Z) (c : Z * Z) : Prop := a < c.1 + c.2 /\ c.1 < a + n.

(** When all free chunks are smaller than [n], every range of [n] bytes meets a
    chunk in use. *)
Lemma row_full n p pu cs : sizes_ok cs -> coalesced pu cs -> (forall x, x ∈ frees p cs -> x.2 < n) -> 0 < n ->
  forall a, p <= a -> a + n <= p + total cs -> exists c, c ∈ useds p cs /\ meets a n c.
Proof.
  intros Hs. revert p pu. induction Hs as [|[sz u] cs [Hsz _] Hcs IH]; intros p pu Hco Hf Hn a Ha Hend; cbn in *; [lia|].
  destruct Hco as [Hpu Hco]. destruct (Z_lt_le_dec a (p + sz)) as [Hlt|Hge].
  - destruct u; cbn in *.
    + exists (p, sz). split; [set_solver|]. split; cbn; lia.
    + assert (sz < n) by (apply (Hf (p, sz)); set_solver).
      destruct cs as [|[sz2 u2] cs]; cbn in Hend, Hco |- *; [lia|]. destruct u2; [|by destruct Hco as [Hco _]; specialize (Hco eq_refl)].
      exists (p + sz, sz2). apply Forall_cons in Hcs as [[Hs2 _] _]. cbn in Hs2. split; [set_solver|]. split; cbn; lia.
  - destruct (IH (p + sz) u Hco) with (a := a) as (c & Hc & Hm); [|done|lia|lia|].
    + intros x Hx. apply Hf. set_solver.
    + exists c. split; [set_solver|done].
Qed.

(** Why malloc gave nothing: below some top every range of the size needed meets
    a chunk of a block that is out, what lies above it is too small, and the heap
    cannot grow by what would be needed. *)
Definition exhausted {X} (g : @mvars X) (base : Z) (chunks : list (Z * Z)) (nb : Z) : Prop :=
  exists top, base <= top /\
    (forall a, base <= a -> a + nb <= top -> exists c, c ∈ chunks /\ meets a nb c) /\
    brk g < top + nb + 32 /\ eheap < brk g + top_growth g nb.

Lemma no_memory_exhausted {X} av (g : @mvars X) base cs tsz bs nb : 0 < nb ->
  arena av g base cs tsz bs -∗
  ⌜no_memory g base cs tsz nb -> exhausted g base (useds base cs) nb /\ (useds base cs = [] -> brk g < base + nb + 32)⌝.
Proof.
  iIntros (Hnb) "(%bb & %Hok & _ & _ & _ & Hseg & _)".
  iDestruct (seg_sizes with "Hseg") as %Hcs. iDestruct (seg_coalesced with "Hseg") as %Hco. iPureIntro.
  intros (Hf & Ht & Hg). destruct Hok. split.
  - exists (base + total cs). pose proof (total_nonneg _ Hcs). conjs; [lia| |lia|done].
    intros a Ha Hend. by eapply row_full.
  - intros Hu. destruct cs as [|[sz [|]] cs]; [cbn in ao_end; lia|by cbn in Hu|]. cbn in Hco, ao_last, Hu.
    destruct cs as [|[sz2 [|]] cs]; [done|done|]. destruct Hco as (_ & Hco & _). by specialize (Hco eq_refl).
Qed.

(** ** Programs from the first call on *)

Section Runs.
Context {X : Type} (av : Z) (fuel : nat) (Hfuel : fuel_ok fuel).
Implicit Types (g : @mvars X).

#[local] Instance allocator_at base : Allocator (malloc (X := X) av fuel) (free av fuel) max_request :=
  mallocr_allocator av fuel base Hfuel.

(** The first call succeeds. *)
Lemma first_run h g bytes : boots av h g -> 0 <= bytes <= max_request -> first_fits g (request2size bytes) ->
  exists mem h' g', malloc av fuel bytes (h, g) = Ok (mem, (h', g')) /\ mem <> 0 /\
    world_ok (Allocator0 := allocator_at (first_chunk (brk g))) (h', g', [(mem, bytes)]).
Proof.
  intros Hf%boots_fresh Hb Hfit. destruct (request_size_ok bytes Hb) as (_ & _ & Hnb).
  set (Q := fun mem g' => (∃ b, ⌜mem <> 0 /\ mem = b.1 /\ block_ok bytes b⌝ ∗
     (malloc_inv av (first_chunk (brk g)) [b] g' ∗ blocks_own [b]))%I : hprop).
  destruct (wp_run (fresh av g) emp%I (malloc av fuel bytes) g Q h)
    as (mem & g' & h1 & h2 & h1' & -> & Hd & _ & E & Hd' & [b [(H0 & -> & Hok) HQ]%sep_pure_l]).
  - iIntros "H". iApply (wp_malloc_first with "H"); [done..|]. iIntros (mem g') "Hp".
    iDestruct (block_post_inv _ _ _ bytes _ _ _ [] with "Hp") as (b [-> Hok]) "[Hi Hc]"; [done..|].
    iExists b. rewrite /blocks_own /=. iFrame. iPureIntro. conjs; try done. destruct Hok. lia.
  - eapply entails_at; [|exact Hf]. iIntros "$".
  - exists b.1, (h1' ∪ h2), g'. split; [done|]. split; [done|]. exists [b]. split.
    + apply Forall2_cons_2; [by split|apply Forall2_nil_2].
    + cbn. eapply hholds_mono; [exact HQ|apply map_union_subseteq_l].
Qed.

(** Where the blocks lie. *)
Lemma inv_bounds base l g b : b ∈ l ->
  malloc_inv av base l g -∗ ⌜base + 16 <= b.1 /\ b.1 + b.2 <= brk g <= eheap⌝.
Proof.
  iIntros (Hb) "(%cs & %tsz & %bs & %Hl & Ha)". rewrite Hl in Hb. apply list_elem_of_fmap in Hb as ([v vsz] & -> & Hv).
  iDestruct (used_chunk with "Ha") as %(H1 & H2 & H3 & H4 & H5); [done|]. iPureIntro. cbn. lia.
Qed.

(** The chunk of a block. *)
Definition chunk_of (b : Z * Z) : Z * Z := (b.1 - 16, b.2 + 8).

Lemma null_run base h g l bytes h' g' : world_ok (Allocator0 := allocator_at base) (h, g, l) ->
  0 <= bytes <= max_request -> malloc av fuel bytes (h, g) = Ok (0, (h', g')) ->
  exists bl, Forall2 serves l bl /\ exhausted g base (chunk_of <$> bl) (request2size bytes) /\
    (l = [] -> brk g < base + request2size bytes + 32).
Proof.
  intros (bl & Hl & Hh) Hb E. cbn in Hl, Hh. exists bl. split; [done|]. destruct (request_size_ok bytes Hb) as ([Hn _] & _ & Hnb).
  set (φ := exhausted g base (chunk_of <$> bl) (request2size bytes) /\ (l = [] -> brk g < base + request2size bytes + 32)).
  destruct (wp_run (malloc_inv av base bl g) (blocks_own bl) (malloc av fuel bytes) g (fun mem _ => ⌜mem = 0 -> φ⌝)%I h)
    as (mem & g2 & h1 & h2 & h1' & -> & _ & _ & E2 & _ & HQ); [|done|].
  - iIntros "(%cs & %tsz & %bs & %Hbl & Ha)".
    iDestruct (no_memory_exhausted _ _ _ _ _ _ (request2size bytes) with "Ha") as %Hex; [lia|].
    iApply (wp_malloc with "Ha"); [done..|]. iIntros (mem g2) "[[[-> %Hno] _]|Hp]".
    + iPureIntro. intros _. destruct (Hex Hno) as [(top & Ht1 & Ht2 & Ht3 & Ht4) Hex2]. split.
      * exists top. conjs; try done. intros a Ha1 Ha2. destruct (Ht2 a Ha1 Ha2) as (c & Hc & Hm).
        exists c. split; [|done]. rewrite Hbl -list_fmap_compose. apply list_elem_of_fmap. exists c. split; [|done].
        destruct c. unfold chunk_of, block_of. cbn. f_equal; lia.
      * intros ->. apply Forall2_nil_inv_l in Hl as ->. apply Permutation_nil_l in Hbl.
        apply Hex2. by symmetry in Hbl; apply fmap_nil_inv in Hbl.
    + iDestruct (block_post_inv with "Hp") as (b [-> Hok]) "_"; [done..|]. iPureIntro. intros H0. destruct Hok. lia.
  - rewrite E in E2. injection E2 as <- _ _. by apply HQ.
Qed.
End Runs.

(** ** Runs on a small heap *)

Definition demo_av : Z := 0x1000.
Definition demo_start : Z := eheap - 8192 + 8.
Definition demo_fuel : nat := Z.to_nat (eheap / 32).
Definition demo_vars : @mvars unit := initial_mvars (GSys 0 demo_start tt).

Section After.
Context {A : Type} (c : M (wheap * @mvars unit) A).

Definition after (s : wheap * @mvars unit) : wheap * @mvars unit :=
  match c s with Ok (_, s') => s' | Err _ => s end.
Definition result (s : wheap * @mvars unit) : option A :=
  match c s with Ok (a, _) => Some a | Err _ => None end.

Lemma after_run s a : result s = Some a -> c s = Ok (a, ((after s).1, (after s).2)).
Proof. rewrite /result /after. destruct (c s) as [[b [h g]]|]; [|done]. by intros [= ->]. Qed.
End After.

Lemma same_run {A} (c : M (wheap * @mvars unit) A) s a h g a' h' g' :
  c s = Ok (a, (h, g)) -> c s = Ok (a', (h', g')) -> a = a' /\ h = h' /\ g = g'.
Proof. by intros -> [= -> -> ->]. Qed.

Lemma demo_fuel_ok : fuel_ok demo_fuel.
Proof. by rewrite /fuel_ok /demo_fuel Z2Nat.id. Qed.

Lemma demo_boots : boots demo_av (boot_heap demo_av demo_start) demo_vars.
Proof. apply (boot_heap_boots demo_av demo_vars); [by split|by left]. Qed.

Lemma small_request bytes : 0 <= bytes <= 100000 -> 0 <= bytes <= max_request.
Proof. rewrite /max_request. lia. Qed.

(** ** A first request that does not fit *)

(** sbrk gives the null pointer when it fails, but malloc compares with -1: the
    null pointer is taken for the start of new memory. *)
Definition low_memory : wheap := list_to_map ((fun i => (8 * Z.of_nat i, 0)) <$> seq 0 32).
Definition big1 := after (malloc demo_av demo_fuel 5000000) (low_memory ∪ boot_heap demo_av demo_start, demo_vars).

(** Sbrk reports failure by the null pointer and malloc expects -1, so a
    first request larger than the heap sets up the top chunk at address 0: it
    returns null, but the next request is given memory at address 16, over the
    program itself. *)
Theorem malloc_first_too_big :
  result (malloc demo_av demo_fuel 5000000) (low_memory ∪ boot_heap demo_av demo_start, demo_vars) = Some 0 /\
  result (malloc demo_av demo_fuel 100) big1 = Some 16.
Proof. split; vm_compute; reflexivity. Qed.
