(* ===== verification/MallocResize.v ===== *)
(** realloc and calloc (newlib/libc/stdlib/mallocr.c, file Malloc): the memory they leave, and
    the contents they keep.

    The contents of a block are a list of words.  realloc shrinks or grows a chunk in
    place, moves it down into a free chunk before it, or takes a new block; in each
    case the words of the old block, as far as the new one reaches, are at the start of
    the new one. *)

From iris.proofmode Require Import proofmode.
From S2P Require Import Prelude Kvm HeapLogic Allocator GuestSys Malloc MallocInv MallocFree MallocAlloc.
From S2P Require Import MallocSearch MallocFirst MallocSafe.

(** ** Words with their contents *)

Definition array (a : Z) (vs : list Z) : hprop := ([∗ list] i ↦ v ∈ vs, (a + 8 * Z.of_nat i) ↦ v)%I.

Lemma array_nil a : array a [] ⊣⊢ emp.
Proof. done. Qed.

Lemma array_cons a v vs : array a (v :: vs) ⊣⊢ a ↦ v ∗ array (a + 8) vs.
Proof.
  rewrite /array big_sepL_cons Z.mul_0_r Z.add_0_r. apply bi.sep_proper; [done|]. apply big_sepL_proper. intros k x _.
  by replace (a + 8 * Z.of_nat (S k)) with (a + 8 + 8 * Z.of_nat k) by lia.
Qed.

Lemma array_app a vs ws : array a (vs ++ ws) ⊣⊢ array a vs ∗ array (a + 8 * Z.of_nat (length vs)) ws.
Proof.
  revert a. induction vs as [|v vs IH]; intros a; cbn [app length].
  - by rewrite array_nil bi.emp_sep Z.mul_0_r Z.add_0_r.
  - rewrite !array_cons IH bi.sep_assoc. by replace (a + 8 + 8 * Z.of_nat (length vs)) with (a + 8 * Z.of_nat (S (length vs))) by lia.
Qed.

Lemma array_cells a vs b : b = a + 8 * Z.of_nat (length vs) -> array a vs ⊢ cells a b.
Proof.
  intros ->. revert a. induction vs as [|v vs IH]; intros a; cbn [length].
  - rewrite cells_nil; [done|lia].
  - rewrite array_cons cells_cons; [|lia]. iIntros "[Hv Hs]". iSplitL "Hv"; [by iExists v|].
    replace (a + 8 * Z.of_nat (S (length vs))) with (a + 8 + 8 * Z.of_nat (length vs)) by lia. by iApply IH.
Qed.

Lemma cells_array n a b : b = a + 8 * Z.of_nat n -> cells a b ⊢ ∃ vs, ⌜length vs = n⌝ ∗ array a vs.
Proof.
  intros ->. revert a. induction n as [|n IH]; intros a.
  - iIntros "_". iExists []. rewrite array_nil. iSplit; [done|done].
  - rewrite cells_cons; [|lia]. replace (a + 8 * Z.of_nat (S n)) with (a + 8 + 8 * Z.of_nat n) by lia. rewrite IH.
    iIntros "[[%v Hv] (%vs & %Hl & Hs)]". iExists (v :: vs). rewrite array_cons. iFrame. iPureIntro. cbn. lia.
Qed.

(** ** Copying and clearing *)

Section Words.
Context {X : Type}.
Implicit Types (g : @mvars X).

(** A copy to other words. *)
Lemma wp_copy_apart vs : forall d s g Q, 
  array s vs -∗ cells d (d + 8 * Z.of_nat (length vs)) -∗ (array s vs -∗ array d vs -∗ Q tt g) -∗
  wp (copy_words (length vs) d s) g Q.
Proof.
  induction vs as [|v vs IH]; iIntros (d s g Q) "Hs Hd HQ"; cbn [length copy_words].
  - wp_ret. iApply ("HQ" with "Hs"). by rewrite array_nil.
  - rewrite !array_cons cells_cons; [|lia]. iDestruct "Hs" as "[Hv Hs]". iDestruct "Hd" as "[Hw Hd]".
    wp_load "Hv". wp_store "Hw". replace (d + 8 * Z.of_nat (S (length vs))) with (d + 8 + 8 * Z.of_nat (length vs)) by lia.
    iApply (IH with "Hs Hd"). iIntros "Hs Hd". iApply ("HQ" with "[$Hv $Hs] [$Hw $Hd]").
Qed.

(** A copy down over the words before it. *)
Lemma wp_copy_down vs : forall d k g Q, 0 < k ->
  cells d (d + 8 * k) -∗ array (d + 8 * k) vs -∗
  (array d vs -∗ cells (d + 8 * Z.of_nat (length vs)) (d + 8 * Z.of_nat (length vs) + 8 * k) -∗ Q tt g) -∗
  wp (copy_words (length vs) d (d + 8 * k)) g Q.
Proof.
  induction vs as [|v vs IH]; iIntros (d k g Q Hk) "Hd Hs HQ"; cbn [length copy_words].
  - wp_ret. iApply "HQ"; [by rewrite array_nil|]. by rewrite Z.mul_0_r Z.add_0_r.
  - rewrite array_cons cells_cons; [|lia]. iDestruct "Hs" as "[Hv Hs]". iDestruct "Hd" as "[Hw Hd]".
    wp_load "Hv". wp_store "Hw". replace (d + 8 * k + 8) with (d + 8 + 8 * k) by lia.
    iApply (IH (d + 8) k with "[Hd Hv] Hs"); [done| |].
    + replace (d + 8 + 8 * k) with (d + 8 * k + 8) by lia. rewrite cells_snoc; [|lia|mlia]. iFrame.
    + iIntros "Hd Hc". iApply ("HQ" with "[Hw Hd]"); [rewrite array_cons; iFrame|].
      by replace (d + 8 * Z.of_nat (S (length vs))) with (d + 8 + 8 * Z.of_nat (length vs)) by lia.
Qed.

Lemma wp_zero_words n : forall d g Q, cells d (d + 8 * Z.of_nat n) -∗ (array d (replicate n 0) -∗ Q tt g) -∗ wp (zero_words n d) g Q.
Proof.
  induction n as [|n IH]; iIntros (d g Q) "Hd HQ"; cbn [zero_words replicate].
  - wp_ret. iApply "HQ". by rewrite array_nil.
  - rewrite cells_cons; [|lia]. iDestruct "Hd" as "[Hw Hd]". wp_store "Hw".
    replace (d + 8 * Z.of_nat (S n)) with (d + 8 + 8 * Z.of_nat n) by lia. iApply (IH with "Hd"). iIntros "Hd". iApply "HQ".
    rewrite array_cons. iFrame.
Qed.
End Words.

(** ** A chunk being resized *)

Section Resize.
Context {X : Type} (av : Z).
Implicit Types (g : @mvars X).

(** The arena around a chunk in use at [base + total cs1], of size [s], whose own header
    says [w] and after which the bit of the next chunk says [nu]. *)
Definition limbo g (base : Z) (cs1 : list (Z * bool)) (s w : Z) (nu : bool) (cs2 : list (Z * bool)) (tsz : Z) (bs : list (list (Z * Z))) : hprop :=
  let p := base + total cs1 in
  (∃ bb, ⌜arena_ok g base (cs1 ++ (s, true) :: cs2) tsz bs bb /\ size_ok s /\ w mod 16 = 0 /\ (nu = false -> cs2 <> [])⌝ ∗
     fd_ (bin_at av 0) ↦ (p + s + total cs2) ∗ size_ (bin_at av 0) ↦ bb ∗ bins av bs ∗
     seg base true cs1 ∗ size_ p ↦ header w (lastu true cs1) ∗ seg (p + s) nu cs2 ∗
     size_ (p + s + total cs2) ↦ header tsz true ∗
     cells (p + s + total cs2 + 16) (p + s + total cs2 + tsz) ∗
     cells (brk g) eheap)%I.

Lemma arena_limbo g base cs1 s cs2 tsz bs :
  arena av g base (cs1 ++ (s, true) :: cs2) tsz bs ⊣⊢ limbo g base cs1 s s true cs2 tsz bs.
Proof.
  assert (E : base + total (cs1 ++ (s, true) :: cs2) = base + total cs1 + s + total cs2) by (rewrite total_app /=; lia).
  rewrite /arena /limbo E. iSplit.
  - iIntros "(%bb & %Hok & Htop & Hbb & Hb & Hseg & Ht)". iExists bb. rewrite seg_mid.
    iDestruct "Hseg" as "($ & (%Hs & $ & _) & $)". iFrame. iPureIntro. destruct Hs. by conjs.
  - iIntros "(%bb & (%Hok & %Hs & _) & Htop & Hbb & Hb & H1 & Hh & H2 & Ht)". iExists bb. rewrite seg_mid /chunk. iFrame. by iPureIntro.
Qed.

(** The bit of the next chunk. *)
Lemma limbo_next g base cs1 s w nu cs2 tsz bs :
  let p := base + total cs1 in
  limbo g base cs1 s w nu cs2 tsz bs ⊢ ∃ s', ⌜size_ok s'⌝ ∗ size_ (p + s) ↦ header s' nu ∗
    (size_ (p + s) ↦ header s' true -∗ limbo g base cs1 s w true cs2 tsz bs).
Proof.
  intros p. iIntros "(%bb & %H & Htop & Hbb & Hb & H1 & Hh & H2 & Ht & Hc & Hr)". destruct H as (Hok & Hs & Hw & Hnu). fold p.
  destruct cs2 as [|[s' u] cs2].
  - destruct nu; [|by specialize (Hnu eq_refl)]. iExists tsz. cbn [total]. rewrite Z.add_0_r. fold p. iFrame "Ht".
    iSplit; [iPureIntro; apply Hok|]. iIntros "Ht". iExists bb. cbn [total]. rewrite Z.add_0_r. fold p. iFrame. by iPureIntro.
  - rewrite seg_cons. iDestruct "H2" as "[(%Hs' & Hn & Hu) H2]". iExists s'. iFrame "Hn". iSplit; [done|]. iIntros "Hn".
    iExists bb. iFrame "Htop Hbb Hb H1 Hh Ht Hc Hr". rewrite seg_cons /chunk. iFrame "Hn H2". iSplit; [by iPureIntro|]. iSplit; [done|].
    destruct u; [done|]. iDestruct "Hu" as "(_ & $)". done.
Qed.

(** The chunk's own header. *)
Lemma limbo_header g base cs1 s w nu cs2 tsz bs :
  let p := base + total cs1 in
  limbo g base cs1 s w nu cs2 tsz bs ⊢ ⌜w mod 16 = 0⌝ ∗ size_ p ↦ header w (lastu true cs1) ∗
    (∀ w', ⌜w' mod 16 = 0⌝ -∗ size_ p ↦ header w' (lastu true cs1) -∗ limbo g base cs1 s w' nu cs2 tsz bs).
Proof.
  intros p. iIntros "(%bb & %H & Htop & Hbb & Hb & H1 & $ & H2 & Ht & Hc & Hr)". destruct H as (Hok & Hs & Hw & Hnu).
  iSplit; [done|]. iIntros (w' Hw') "Hh". iExists bb. iFrame. by iPureIntro.
Qed.

Lemma limbo_sizes g base cs1 s w nu cs2 tsz bs :
  limbo g base cs1 s w nu cs2 tsz bs -∗ ⌜size_ok s /\ size_ok tsz /\ sizes_ok cs1 /\ sizes_ok cs2 /\ 0 < base /\ base mod 16 = 0 /\
    (base + total cs1 + s + total cs2 + tsz)%Z = brk g /\ brk g <= eheap⌝.
Proof.
  iIntros "(%bb & %H & Htop & Hbb & Hb & H1 & _ & H2 & _)". destruct H as (Hok & Hs & _).
  iDestruct (seg_sizes with "H1") as %?. iDestruct (seg_sizes with "H2") as %?. iPureIntro. destruct Hok. rewrite total_app /= in ao_end.
  conjs; try done; try apply ao_base; [lia|apply ao_page].
Qed.

(** A chunk of the row in two, both in use. *)
Lemma limbo_cut g base cs1 s nb cs2 tsz bs : size_ok nb -> size_ok (s - nb) ->
  let p := base + total cs1 in
  limbo g base cs1 s nb true cs2 tsz bs -∗ size_ (p + nb) ↦ header (s - nb) true -∗
  arena av g base ((cs1 ++ [(nb, true)]) ++ (s - nb, true) :: cs2) tsz bs.
Proof.
  iIntros (Hnb Hr p) "(%bb & %H & Htop & Hbb & Hb & H1 & Hh & H2 & Ht & Hc & Hres) Hn". destruct H as (Hok & Hs & Hw & Hnu).
  assert (E : base + total ((cs1 ++ [(nb, true)]) ++ (s - nb, true) :: cs2) = p + s + total cs2).
  { rewrite !total_app /= /p. lia. }
  rewrite /arena E. iExists bb. iFrame "Htop Hbb Hb Ht Hc Hres". iSplit.
  - iPureIntro. destruct Hok. split; try done.
    + move: ao_last. by rewrite !lastu_app.
    + rewrite total_app /= in ao_end. lia.
    + rewrite ao_perm !chunks_in_app /= !total_app /=. rewrite app_nil_r.
      by replace (base + (total cs1 + (nb + 0)) + (s - nb)) with (base + total cs1 + s) by lia.
  - rewrite -app_assoc /= seg_mid seg_cons. fold p. iFrame "H1". rewrite /chunk. iFrame "Hh Hn".
    replace (p + nb + (s - nb)) with (p + s) by lia. iFrame "H2". by iPureIntro.
Qed.

(** The words of a chunk of size [s], and of its front of size [nb]. *)
Definition data_len (s : Z) : nat := Z.to_nat ((s - 8) / 8).

Lemma data_len_eq s : size_ok s -> 8 * Z.of_nat (data_len s) = s - 8.
Proof. intros [H1 H2]. rewrite /data_len Z2Nat.id; [mlia|]. apply Z.div_pos; lia. Qed.

Lemma data_split p s nb vs : size_ok s -> size_ok nb -> nb + 32 <= s -> length vs = data_len s ->
  array (p + 16) vs ⊢ array (p + 16) (take (data_len nb) vs) ∗ size_ (p + nb) ↦- ∗ cells (p + nb + 16) (p + s + 8).
Proof.
  intros Hs Hnb Hle Hl. pose proof (data_len_eq _ Hs) as L1. pose proof (data_len_eq _ Hnb) as L2.
  rewrite -{1}(take_drop (data_len nb) vs) array_app. iIntros "[$ H]". rewrite length_take_le; [|lia].
  rewrite (array_cells _ _ (p + s + 8)); [|rewrite length_drop; lia]. rewrite L2.
  replace (p + 16 + (nb - 8)) with (p + nb + 8) by lia. rewrite cells_cons; [|lia]. by replace (p + nb + 8 + 8) with (p + nb + 16) by lia.
Qed.

(** split: what is too much of the chunk is released. *)
Lemma wp_realloc_split fuel base cs1 s w nu cs2 tsz bs nb vs g Q :
  let p := base + total cs1 in
  fuel_ok fuel -> size_ok nb -> nb <= s -> length vs = data_len s ->
  limbo g base cs1 s w nu cs2 tsz bs -∗ array (p + 16) vs -∗
  (∀ g' cs' tsz' bs' qsz, ⌜size_ok qsz /\ nb <= qsz <= s /\ useds base cs' = useds base cs1 ++ (p, qsz) :: useds (p + s) cs2⌝ -∗
     arena av g' base cs' tsz' bs' -∗ array (p + 16) (take (data_len qsz) vs) -∗ Q (chunk2mem p) g') -∗
  wp (realloc_split av fuel p s nb) g Q.
Proof.
  iIntros (p Hf Hnb Hle Hl) "Hl Hd HQ". iDestruct (limbo_sizes with "Hl") as %(Hs & _). rewrite /realloc_split long_sub_eq //.
  rewrite /MINSIZE /set_head_size /set_head /chunk_at_offset.
  iDestruct (limbo_header with "Hl") as "(%Hw & Hh & Hl)". fold p. destruct (32 <=? s - nb) eqn:E; zbool.
  - assert (Hr : size_ok (s - nb)) by (destruct Hs, Hnb; split; [lia|mlia]).
    rewrite (data_split p s nb) //; [|lia]. iDestruct "Hd" as "(Hd & Hn & Hc)".
    iApply wp_bind. iApply wp_bind. wp_load "Hh". wp_store "Hh". wp_store "Hn". rewrite header_resize //; [|apply Hnb]. rewrite header_true; [|apply Hr].
    iDestruct ("Hl" with "[%] Hh") as "Hl"; [apply Hnb|].
    iDestruct (limbo_next with "Hl") as (s') "(%Hs' & Hx & Hl)". fold p. iApply wp_bind.
    replace (p + s) with (p + nb + (s - nb)) by lia.
    iApply (wp_set_inuse with "Hx"). iIntros "Hx". rewrite header_set; [|apply Hs'].
    replace (p + nb + (s - nb)) with (p + s) by lia. iDestruct ("Hl" with "Hx") as "Hl".
    iDestruct (limbo_cut with "Hl Hn") as "Ha"; [done..|].
    assert (Et : base + total (cs1 ++ [(nb, true)]) = p + nb) by (rewrite total_app /= /p; lia).
    rewrite -Et. iApply (wp_free with "Ha [Hc]"); [done| |].
    + rewrite Et. by replace (p + nb + (s - nb) + 8) with (p + s + 8) by lia.
    + iIntros (g' cs' tsz' bs' Eu) "Ha". wp_ret. iApply ("HQ" with "[%] Ha Hd"). split; [done|]. split; [lia|].
      rewrite Eu Et chunks_in_app /= -app_assoc. by replace (p + nb + (s - nb)) with (p + s) by lia.
  - iApply wp_bind. iApply wp_bind. wp_load "Hh". wp_store "Hh". rewrite header_resize //; [|apply Hs].
    iDestruct ("Hl" with "[%] Hh") as "Hl"; [apply Hs|].
    iDestruct (limbo_next with "Hl") as (s') "(%Hs' & Hx & Hl)". fold p.
    iApply (wp_set_inuse with "Hx"). iIntros "Hx". rewrite header_set; [|apply Hs']. iDestruct ("Hl" with "Hx") as "Hl".
    rewrite -arena_limbo. wp_ret. iApply ("HQ" $! g _ tsz bs s with "[%] Hl").
    + split; [done|]. split; [lia|]. by rewrite chunks_in_app.
    + rewrite take_ge; [done|lia].
Qed.

(** *** Taking the neighbours in *)

Lemma cells_words a b k : b = a + 8 * Z.of_nat k -> cells a b ⊢ ∃ ys, ⌜length ys = k⌝ ∗ array a ys.
Proof. apply cells_array. Qed.

(** The free chunk after it. *)
Lemma wp_absorb_next base cs1 s w nsz cs3 tsz bs vs g Q :
  let p := base + total cs1 in
  length vs = data_len s ->
  limbo g base cs1 s w true ((nsz, false) :: cs3) tsz bs -∗ array (p + 16) vs -∗
  (∀ bs' ys, ⌜size_ok (s + nsz) /\ length (vs ++ ys) = data_len (s + nsz)⌝ -∗
     limbo g base cs1 (s + nsz) w false cs3 tsz bs' -∗ array (p + 16) (vs ++ ys) -∗ Q tt g) -∗
  wp (unlink (p + s)) g Q.
Proof.
  iIntros (p Hl) "Hl Hd HQ". iDestruct (limbo_sizes with "Hl") as %(Hs & Ht & Hc1 & [Hn Hc3]%Forall_cons & Hb & _ & Hend & Hbrk).
  cbn [fst] in Hn. cbn [total] in Hend. pose proof (total_nonneg _ Hc1). pose proof (total_nonneg _ Hc3).
  pose proof (data_len_eq _ Hs) as L1. assert (Hsn : size_ok (s + nsz)).
  { assert (eheap = 2 ^ 22) by done. destruct Hs, Hn, Ht. split; [lia|mlia]. }
  pose proof (data_len_eq _ Hsn) as L2.
  iDestruct "Hl" as "(%bb & %H' & Htop & Hbb & Hb & H1 & Hh & H2 & Htt)". destruct H' as (Hok & _ & Hw & Hnu). fold p.
  pose proof Hok as []. rewrite chunks_in_app /= in ao_perm. fold p in ao_perm. rewrite -Permutation_middle in ao_perm.
  destruct (free_in_bin _ _ _ _ _ ao_bins ao_perm) as (i & l1 & l2 & Hi & Hi0 & Hp' & Hok').
  rewrite seg_cons. iDestruct "H2" as "[(_ & Hnh & _ & Hnc & Hnf) H2]".
  iApply (wp_unlink_bin with "Hb"); [done..|]. iIntros "Hf Hbk Hb".
  pose proof Hn as [Hn1 Hn2].
  iAssert (cells (p + s + 8) (p + (s + nsz) + 8)) with "[Hnh Hf Hbk Hnc Hnf]" as "Hc".
  { rewrite (cells_cons (p + s + 8)); [|lia]. iSplitL "Hnh"; [by iExists _|]. replace (p + s + 8 + 8) with (p + s + 16) by lia.
    replace (p + (s + nsz) + 8) with (p + s + nsz + 8) by lia. iApply (chunk_cells with "Hf Hbk Hnc"); [done|]. by iExists _. }
  iDestruct (cells_words _ _ (data_len (s + nsz) - data_len s) with "Hc") as (ys Hys) "Hys"; [lia|].
  iApply ("HQ" $! (<[i := l1 ++ l2]> bs) ys with "[%] [-Hd Hys]").
  - split; [done|]. rewrite length_app. lia.
  - rewrite /limbo -/p. replace (p + s + total ((nsz, false) :: cs3)) with (p + (s + nsz) + total cs3) by (cbn; lia).
    replace (p + s + nsz) with (p + (s + nsz)) by lia. iExists bb. iFrame. iPureIntro.
    rewrite lastu_app /= in ao_last. split; [|split; [done|split; [done|]]].
    + split; try done.
      * rewrite lastu_app /=. by apply lastu_nonempty.
      * rewrite total_app /=. lia.
      * rewrite chunks_in_app /=. fold p. by replace (p + (s + nsz)) with (p + s + nsz) by lia.
    + intros _ ->. done.
  - rewrite array_app Hl. iFrame "Hd". by replace (p + 16 + 8 * Z.of_nat (data_len s)) with (p + s + 8) by lia.
Qed.

(** The free chunk before it. *)
Lemma wp_absorb_prev base cs0 psz s w nu cs2 tsz bs g Q :
  let q := base + total cs0 in let p := q + psz in
  limbo g base (cs0 ++ [(psz, false)]) s w nu cs2 tsz bs -∗
  (∀ bs', ⌜size_ok psz /\ size_ok (psz + s)⌝ -∗ limbo g base cs0 (psz + s) psz nu cs2 tsz bs' -∗ cells (q + 16) (p + 16) -∗ Q tt g) -∗
  wp (unlink q) g Q.
Proof.
  iIntros (q p) "Hl HQ". iDestruct (limbo_sizes with "Hl") as %(Hs & Ht & Hc1 & Hc2 & Hb & _ & Hend & Hbrk).
  apply Forall_app in Hc1 as [Hc0 [Hpz _]%Forall_cons]. cbn [fst] in Hpz. rewrite total_app /= in Hend.
  pose proof (total_nonneg _ Hc0). pose proof (total_nonneg _ Hc2).
  assert (Hsn : size_ok (psz + s)).
  { assert (eheap = 2 ^ 22) by done. destruct Hs, Hpz, Ht. split; [lia|mlia]. }
  iDestruct "Hl" as "(%bb & %H' & Htop & Hbb & Hb & H1 & Hh & H2 & Htt)". destruct H' as (Hok & _ & Hw & Hnu).
  pose proof Hok as []. rewrite -app_assoc chunks_in_app /= in ao_perm. fold q in ao_perm. rewrite -Permutation_middle in ao_perm.
  destruct (free_in_bin _ _ _ _ _ ao_bins ao_perm) as (i & l1 & l2 & Hi & Hi0 & Hp' & Hok').
  assert (Ep : base + total (cs0 ++ [(psz, false)]) = p) by (rewrite total_app /= /p /q; lia). rewrite Ep.
  rewrite seg_app /=. iDestruct "H1" as "[H1 [(_ & Hqh & %Hpu & Hqc & Hqf) _]]". fold q. rewrite Hpu.
  iApply (wp_unlink_bin with "Hb"); [done..|]. iIntros "Hf Hbk Hb".
  iApply ("HQ" $! (<[i := l1 ++ l2]> bs) with "[//] [-Hh Hf Hbk Hqc Hqf]").
  - rewrite /limbo -/q. replace (q + (psz + s)) with (p + s) by lia. rewrite Hpu. iExists bb. iFrame. iPureIntro.
    split; [|split; [done|split; [apply Hpz|done]]]. split; try done.
    + rewrite -app_assoc /= lastu_app /= in ao_last. by rewrite lastu_app.
    + rewrite -app_assoc total_app /= in ao_end. rewrite total_app /=. lia.
    + rewrite chunks_in_app /=. fold q. by replace (q + (psz + s)) with (q + psz + s) by lia.
  - pose proof Hpz as [Hp1 Hp2]. fold p. replace (p + 16) with (p + 8 + 8) by lia. rewrite (cells_snoc (q + 16) (p + 8)); [|lia|mlia].
    iSplitR "Hh"; [|by iExists _]. iApply (chunk_cells with "Hf Hbk Hqc"); [done|]. by iExists _.
Qed.

(** *** The contents kept *)

(** The words of [vs] are at the start of [ws], as far as it reaches. *)
Definition keeps_words (vs ws : list Z) : Prop := take (length ws) vs = take (length vs) ws.

Lemma keeps_take vs ys n : keeps_words vs (take n (vs ++ ys)).
Proof.
  rewrite /keeps_words take_take Nat.min_comm -take_take take_app_length length_take length_app.
  destruct (decide (n <= length vs)%nat); [by rewrite Nat.min_l; [|lia]|]. rewrite !take_ge //; lia.
Qed.

(** The chunk grows into the top chunk behind it. *)
Lemma wp_grow_top {A} base cs1 s w tsz bs nb vs (r : A) g Q :
  let p := base + total cs1 in
  size_ok nb -> nb + 32 <= s + tsz -> length vs = data_len s ->
  limbo g base cs1 s w true [] tsz bs -∗ array (p + 16) vs -∗
  (∀ ys, arena av g base (cs1 ++ [(nb, true)]) (s + tsz - nb) bs -∗ array (p + 16) (take (data_len nb) (vs ++ ys)) -∗
     ⌜(data_len nb <= length (vs ++ ys))%nat⌝ -∗ Q r g) -∗
  wp (set_top av (p + nb);; set_head (p + nb) (Z.lor (s + tsz - nb) PREV_INUSE);; set_head_size p nb;; mret r) g Q.
Proof.
  iIntros (p Hnb Hle Hl) "Hl Hd HQ". iDestruct (limbo_sizes with "Hl") as %(Hs & Ht & Hc1 & _ & Hb & Hb16 & Hend & Hbrk).
  assert (Htn : size_ok (s + tsz - nb)).
  { pose proof (total_nonneg _ Hc1). assert (eheap = 2 ^ 22) by done. cbn in Hend. destruct Hs, Hnb, Ht. split; [lia|mlia]. }
  iDestruct "Hl" as "(%bb & %H' & Htop & Hbb & Hb & H1 & Hh & _ & Hth & Htc & Hres)". destruct H' as (Hok & _ & Hw & _).
  cbn [total]. rewrite Z.add_0_r -/p. cbn [total] in Hend. rewrite Z.add_0_r -/p in Hend.
  pose proof (data_len_eq _ Hs) as L1. pose proof (data_len_eq _ Hnb) as L2. pose proof Hs as [Hs1 Hs2]. pose proof Hnb as [Hn1 Hn2]. pose proof Ht as [Ht1 Ht2].
  iAssert (cells (p + s + 8) (p + s + tsz)) with "[Hth Htc]" as "Hc".
  { rewrite (cells_cons (p + s + 8)); [|lia]. iSplitL "Hth"; [by iExists _|]. by replace (p + s + 8 + 8) with (p + s + 16) by lia. }
  assert (Hk : p + s + tsz = p + s + 8 + 8 * Z.of_nat (Z.to_nat ((tsz - 8) / 8))) by (rewrite Z2Nat.id; [mlia|apply Z.div_pos; lia]).
  iDestruct (cells_words _ _ _ with "Hc") as (ys Hys) "Hys"; [exact Hk|].
  iAssert (array (p + 16) (vs ++ ys)) with "[Hd Hys]" as "Hd".
  { rewrite array_app Hl. iFrame "Hd". by replace (p + 16 + 8 * Z.of_nat (data_len s)) with (p + s + 8) by lia. }
  assert (Hlen : 8 * Z.of_nat (length (vs ++ ys)) = s + tsz - 16).
  { rewrite length_app Hys. lia. }
  iEval (rewrite -(take_drop (data_len nb) (vs ++ ys)) array_app) in "Hd". iDestruct "Hd" as "[Hd Hx]".
  rewrite length_take_le; [|lia]. rewrite L2. replace (p + 16 + (nb - 8)) with (p + nb + 8) by lia.
  iDestruct (array_cells _ _ (p + s + tsz) with "Hx") as "Hx"; [rewrite length_drop; lia|]. rewrite (cells_cons (p + nb + 8)); [|lia]. iDestruct "Hx" as "[Hn Hx]".
  rewrite /set_top /set_head /set_head_size. wp_store "Htop". rewrite /size_. wp_store "Hn". iApply wp_bind. wp_load "Hh". wp_store "Hh". wp_ret.
  rewrite header_resize // header_true; [|apply Htn].
  iApply ("HQ" $! ys with "[-Hd] Hd"); [|iPureIntro; lia].
  assert (Et : base + total (cs1 ++ [(nb, true)]) = p + nb) by (rewrite total_app /= /p; lia).
  rewrite /arena Et. iExists bb. iFrame "Htop Hbb Hb Hres Hn". replace (p + nb + (s + tsz - nb)) with (p + s + tsz) by lia.
  replace (p + nb + 16) with (p + nb + 8 + 8) by lia. iFrame "Hx". rewrite seg_app /= /chunk -/p. iFrame "H1 Hh". iPureIntro.
  split; [|done]. destruct Hok. split; try done.
  - by rewrite lastu_app.
  - rewrite total_app /=. rewrite /p in Hend. lia.
  - by rewrite ao_perm !chunks_in_app.
Qed.

(** The contents move down. *)
Lemma wp_move_down q psz s n vs g Q : size_ok psz -> size_ok s -> length vs = data_len s -> n = s - 8 ->
  cells (q + 16) (q + psz + 16) -∗ array (q + psz + 16) vs -∗
  (∀ ys, ⌜length ys = Z.to_nat (psz / 8)⌝ -∗ array (q + 16) (vs ++ ys) -∗ Q tt g) -∗
  wp (MALLOC_COPY (X := X) (q + 16) (q + psz + 16) n) g Q.
Proof.
  iIntros ([Hp1 Hp2] Hs Hl ->) "Hc Hd HQ". rewrite /MALLOC_COPY /SIZE_SZ. fold (data_len s). rewrite -Hl.
  pose proof (data_len_eq _ Hs) as L1.
  replace (q + psz + 16) with (q + 16 + 8 * (psz / 8)) by mlia.
  iApply (wp_copy_down with "Hc Hd"); [mlia|]. iIntros "Hd Hc".
  iDestruct (cells_words _ _ (Z.to_nat (psz / 8)) with "Hc") as (ys Hys) "Hys"; [rewrite Z2Nat.id; [lia|apply Z.div_pos; lia]|].
  iApply ("HQ" with "[//]"). rewrite array_app. iFrame.
Qed.

(** ** The outcomes *)

(** The block of a request of [nb] bytes at [mem], beside the chunks [us], with the
    contents of [vs]. *)
Definition resized (base : Z) (us : list (Z * Z)) (nb : Z) (vs : list Z) (mem : Z) g : hprop :=
  (∃ q qsz cs tsz bs ws, ⌜mem = chunk2mem q /\ nb <= qsz /\ useds base cs ≡ₚ (q, qsz) :: us /\
      length ws = data_len qsz /\ keeps_words vs ws⌝ ∗
   arena av g base cs tsz bs ∗ array (q + 16) ws)%I.

(** A chunk at [q] of [s] bytes that is to be split. *)
Definition pending (base : Z) (us : list (Z * Z)) (nb : Z) (vs : list Z) (q s : Z) g : hprop :=
  (∃ cs1 cs2 w nu tsz bs ys, ⌜q = (base + total cs1)%Z /\ nb <= s /\ length (vs ++ ys) = data_len s /\
      useds base cs1 ++ useds (q + s) cs2 ≡ₚ us⌝ ∗
   limbo g base cs1 s w nu cs2 tsz bs ∗ array (q + 16) (vs ++ ys))%I.

Lemma wp_split_pending fuel base us nb vs q s g Q : fuel_ok fuel -> size_ok nb ->
  pending base us nb vs q s g -∗ (∀ mem g', resized base us nb vs mem g' -∗ Q mem g') -∗
  wp (realloc_split av fuel q s nb) g Q.
Proof.
  iIntros (Hf Hnb) "(%cs1 & %cs2 & %w & %nu & %tsz & %bs & %ys & (-> & %Hle & %Hl & %Hu) & Hl & Hd) HQ".
  iDestruct (limbo_sizes with "Hl") as %(Hs & _).
  iApply (wp_realloc_split with "Hl Hd"); [done..|]. iIntros (g' cs' tsz' bs' qsz (Hq & Hqs & Eu)) "Ha Hd". iApply "HQ".
  iExists _, qsz, cs', tsz', bs', _. iFrame. iPureIntro. pose proof (data_len_eq _ Hs). pose proof (data_len_eq _ Hq).
  split; [done|]. split; [lia|]. split; [by rewrite Eu -Permutation_middle Hu|]. split; [apply length_take_le; lia|apply keeps_take].
Qed.

Lemma s64_fits x : - 2 ^ 63 <= x < 2 ^ 63 -> s64 x = x.
Proof. intros H. apply swrap_small; [lia|]. rewrite /in_s. lia. Qed.

(** What the next chunk is, as far as it could be used. *)
Definition next_free (p : Z) (cs2 : list (Z * bool)) (tsz : Z) : Z * Z :=
  match cs2 with
  | [] => (p, tsz)
  | (nsz, false) :: _ => (p, nsz)
  | (_, true) :: _ => (0, 0)
  end.

Definition grown_post (base : Z) (cs1 : list (Z * bool)) (s : Z) (cs2 : list (Z * bool)) (tsz : Z) (bs : list (list (Z * Z))) (nb : Z) (vs : list Z) (info : Z * Z) (r : grown) g : hprop :=
  let p := base + total cs1 in let us := useds base cs1 ++ useds (p + s) cs2 in
  match r with
  | Returned mem => resized base us nb vs mem g
  | GotoSplit q s' => pending base us nb vs q s' g
  | GoOn next nextsize => ⌜(next, nextsize) = info⌝ ∗ limbo g base cs1 s s true cs2 tsz bs ∗ array (p + 16) vs
  end%I.

(** Is the next chunk in use? *)
Lemma wp_inuse_next base cs1 s w nsz u cs3 tsz bs g Q :
  let p := base + total cs1 in
  limbo g base cs1 s w true ((nsz, u) :: cs3) tsz bs -∗
  (limbo g base cs1 s w true ((nsz, u) :: cs3) tsz bs -∗ Q u g) -∗ wp (inuse (p + s)) g Q.
Proof.
  iIntros (p) "(%bb & %H & Htop & Hbb & Hb & H1 & Hh & H2 & Hth & Htc & Hr) HQ". destruct H as (Hok & Hs & Hw & Hnu). fold p.
  pose proof Hok as []. rewrite lastu_app /= in ao_last. rewrite seg_cons. iDestruct "H2" as "[(%Hn & Hnh & Hu) H2]".
  rewrite /inuse /inuse_bit_at_offset. wp_load "Hnh". rewrite header_size1; [|apply Hn].
  iDestruct (seg_read_next _ _ _ tsz with "[$H2 Hth]") as (x) "(%Hx & Hx & H2)"; [done..| |].
  { by replace (p + s + nsz + total cs3) with (p + s + total ((nsz, u) :: cs3)) by (cbn; lia). }
  wp_load "Hx". wp_ret. rewrite header_bit_test; [|apply Hx]. rewrite negb_involutive. iDestruct ("H2" with "Hx") as "[H2 Hth]".
  iApply "HQ". iExists bb. fold p. rewrite seg_cons.
  replace (p + s + nsz + total cs3) with (p + s + total ((nsz, u) :: cs3)) by (cbn; lia). iFrame. by iPureIntro.
Qed.

Lemma wp_limbo_top {A} base cs1 s w nu cs2 tsz bs (k : Z -> M (wheap * @mvars X) A) g Q :
  let p := base + total cs1 in
  limbo g base cs1 s w nu cs2 tsz bs -∗
  (limbo g base cs1 s w nu cs2 tsz bs -∗ wp (k (p + s + total cs2)) g Q) -∗ wp (get_top av ≫= k) g Q.
Proof.
  iIntros (p) "(%bb & %H & Htop & Hl) HQ". rewrite /get_top. wp_load "Htop". iApply "HQ". iExists bb. iFrame. by iPureIntro.
Qed.

(** The size of the next chunk, or of the top chunk when there is none. *)
Lemma wp_next_size base cs1 s w cs2 tsz bs g Q :
  let p := base + total cs1 in
  limbo g base cs1 s w true cs2 tsz bs -∗
  (limbo g base cs1 s w true cs2 tsz bs -∗ Q (match cs2 with [] => tsz | (nsz, _) :: _ => nsz end) g) -∗ wp (chunksize (p + s)) g Q.
Proof.
  iIntros (p) "(%bb & %H & Htop & Hbb & Hb & H1 & Hh & H2 & Hth & Htc & Hr) HQ". destruct H as (Hok & Hs & Hw & Hnu). fold p.
  pose proof Hok as []. destruct cs2 as [|[nsz u] cs3].
  - cbn [total]. rewrite Z.add_0_r. iApply (wp_chunksize with "Hth"). iIntros "Hth". rewrite header_size; [|apply ao_top].
    iApply "HQ". iExists bb. cbn [total]. rewrite Z.add_0_r. fold p. iFrame. by iPureIntro.
  - rewrite seg_cons. iDestruct "H2" as "[(%Hn & Hnh & Hu) H2]". iApply (wp_chunksize with "Hnh"). iIntros "Hnh".
    rewrite header_size; [|apply Hn]. iApply "HQ". iExists bb. rewrite seg_cons. fold p. iFrame. by iPureIntro.
Qed.

Lemma wp_realloc_forward base cs1 s cs2 tsz bs nb vs g Q :
  let p := base + total cs1 in
  size_ok nb -> nb <= INT_MAX -> length vs = data_len s ->
  limbo g base cs1 s s true cs2 tsz bs -∗ array (p + 16) vs -∗
  (∀ r, grown_post base cs1 s cs2 tsz bs nb vs (next_free (p + s) cs2 tsz) r g -∗ Q r g) -∗
  wp (realloc_forward av p s nb) g Q.
Proof.
  iIntros (p Hnb Hmax Hl) "Hl Hd HQ". iDestruct (limbo_sizes with "Hl") as %(Hs & Ht & Hc1 & Hc2 & Hb & Hb16 & Hend & Hbrk).
  pose proof (total_nonneg _ Hc1). pose proof Hs as [Hs1 Hs2]. pose proof Ht as [Ht1 Ht2]. pose proof Hnb as [Hn1 Hn2].
  assert (eheap = 2 ^ 22) by done. rewrite /INT_MAX in Hmax. fold p in Hend.
  rewrite /realloc_forward /chunk_at_offset. iApply (wp_limbo_top with "Hl"). iIntros "Hl". fold p.
  destruct cs2 as [|[nsz u] cs3]; cbn [total] in Hend |- *.
  - rewrite Z.add_0_r Z.eqb_refl. iApply wp_bind. wp_ret. iApply wp_bind. iApply (wp_next_size with "Hl"). iIntros "Hl".
    rewrite /MINSIZE !s64_fits; [|lia..]. destruct (nb + 32 <=? tsz + s) eqn:E; zbool.
    + rewrite uwrap_small; [|rewrite /in_u; lia]. iApply (wp_grow_top with "Hl Hd"); [done|lia|done|]. iIntros (ys) "Ha Hd %Hlen". iApply "HQ".
      iExists p, nb, _, _, _, _. iFrame. iPureIntro. split; [done|]. split; [done|]. split; [rewrite chunks_in_app /= app_nil_r; by rewrite Permutation_app_comm|].
      split; [by apply length_take_le|apply keeps_take].
    + wp_ret. iApply "HQ". rewrite /grown_post. by iFrame.
  - apply Forall_cons in Hc2 as [[Hz1 Hz2] Hc3]. cbn in Hz1, Hz2. pose proof (total_nonneg _ Hc3).
    assert (Hne : (p + s =? p + s + (nsz + total cs3)) = false) by (apply Z.eqb_neq; lia). rewrite Hne.
    iApply wp_bind. iApply wp_bind. iApply (wp_inuse_next with "Hl"). iIntros "Hl". wp_ret. destruct u; cbn [negb].
    + wp_ret. iApply "HQ". rewrite /grown_post. by iFrame.
    + iApply wp_bind. iApply (wp_next_size with "Hl"). iIntros "Hl". rewrite !s64_fits; [|lia..]. destruct (nb <=? nsz + s) eqn:E; zbool.
      * rewrite uwrap_small; [|rewrite /in_u; lia]. iApply wp_bind. iApply (wp_absorb_next with "Hl Hd"); [done|]. iIntros (bs' ys [Hsn Hln]) "Hl Hd".
        wp_ret. iApply "HQ". iExists cs1, cs3, s, false, tsz, bs', ys. iFrame. iPureIntro. split; [done|]. split; [lia|]. split; [done|].
        fold p. cbn. by replace (p + (s + nsz)) with (p + s + nsz) by lia.
      * wp_ret. iApply "HQ". rewrite /grown_post. by iFrame.
Qed.

(** *** Shifting backwards *)

(** The free chunk before it is taken in and the contents move to its start. *)
Lemma wp_absorb_move {A} base cs0 psz so s w nu cs2 tsz bs vs ys (k : M (wheap * @mvars X) A) g Q :
  let q := base + total cs0 in
  size_ok so -> length vs = data_len so -> length (vs ++ ys) = data_len s ->
  limbo g base (cs0 ++ [(psz, false)]) s w nu cs2 tsz bs -∗ array (q + psz + 16) (vs ++ ys) -∗
  (∀ bs' zs, ⌜length (vs ++ zs) = data_len (psz + s)⌝ -∗ limbo g base cs0 (psz + s) psz nu cs2 tsz bs' -∗
     array (q + 16) (vs ++ zs) -∗ wp k g Q) -∗
  wp (unlink q;; MALLOC_COPY (chunk2mem q) (q + psz + 16) (so - SIZE_SZ);; k) g Q.
Proof.
  iIntros (q Hso Hl Hly) "Hl Hd HQ". iDestruct (limbo_sizes with "Hl") as %(Hs & _). iApply wp_bind.
  iApply (wp_absorb_prev with "Hl"). iIntros (bs' [Hp Hps]) "Hl Hc". fold q. rewrite array_app. iDestruct "Hd" as "[Hd Hy]".
  iApply wp_bind. rewrite /chunk2mem. change (q + 2 * SIZE_SZ) with (q + 16).
  iApply (wp_move_down q psz so with "Hc Hd"); [done..|]. iIntros (zs Hz) "Hd".
  pose proof (data_len_eq _ Hs). pose proof (data_len_eq _ Hps). pose proof (data_len_eq _ Hso). pose proof Hp as [Hp1 Hp2].
  assert (Hzl : 8 * Z.of_nat (length zs) = psz) by (rewrite Hz Z2Nat.id; [mlia|apply Z.div_pos; lia]).
  iApply ("HQ" $! bs' (zs ++ ys) with "[%] Hl").
  - rewrite !length_app in Hly |- *. lia.
  - rewrite app_assoc. iEval (rewrite (array_app _ (vs ++ zs) ys)). iFrame "Hd". rewrite length_app.
    by replace (q + 16 + 8 * Z.of_nat (length vs + length zs)) with (q + psz + 16 + 8 * Z.of_nat (length vs)) by lia.
Qed.

Lemma wp_prev base cs0 psz s w nu cs2 tsz bs g (Q : Z -> @mvars X -> hprop) :
  let q := base + total cs0 in
  limbo g base (cs0 ++ [(psz, false)]) s w nu cs2 tsz bs -∗
  (limbo g base (cs0 ++ [(psz, false)]) s w nu cs2 tsz bs -∗ Q q g) -∗ wp (prev_chunk (q + psz)) g Q.
Proof.
  iIntros (q) "(%bb & %H & Htop & Hbb & Hb & H1 & Hl) HQ". rewrite seg_app /=. iDestruct "H1" as "[H1 [(%Hp & Hh & %Hpu & Hc & Hf) _]]".
  fold q. rewrite /prev_chunk /prev_size_. wp_load "Hf". wp_ret. replace (q + psz - psz) with q by lia. iApply "HQ". iExists bb. rewrite seg_app /= /chunk.
  iFrame. by iPureIntro.
Qed.

Lemma wp_prev_size base cs0 psz s w nu cs2 tsz bs g (Q : Z -> @mvars X -> hprop) :
  let q := base + total cs0 in
  limbo g base (cs0 ++ [(psz, false)]) s w nu cs2 tsz bs -∗
  (limbo g base (cs0 ++ [(psz, false)]) s w nu cs2 tsz bs -∗ Q psz g) -∗ wp (chunksize q) g Q.
Proof.
  iIntros (q) "(%bb & %H & Htop & Hbb & Hb & H1 & Hl) HQ". rewrite seg_app /=. iDestruct "H1" as "[H1 [(%Hp & Hh & %Hpu & Hc & Hf) _]]".
  fold q. iApply (wp_chunksize with "Hh"). iIntros "Hh". rewrite header_size; [|apply Hp]. iApply "HQ". iExists bb. rewrite seg_app /= /chunk.
  iFrame. by iPureIntro.
Qed.

(** Only the chunk before it is used. *)
Lemma wp_shift base cs0 psz s cs2 tsz bs nb vs info g Q :
  let q := base + total cs0 in let cs1 := cs0 ++ [(psz, false)] in
  0 < q -> size_ok nb -> nb <= INT_MAX -> size_ok psz -> size_ok s -> length vs = data_len s ->
  limbo g base cs1 s s true cs2 tsz bs -∗ array (q + psz + 16) vs -∗
  (∀ r, grown_post base cs1 s cs2 tsz bs nb vs info r g -∗ Q r g) -∗
  wp (if negb (q =? 0) && (s64 nb <=? s64 (psz + s)) then
        unlink q;;
        MALLOC_COPY (chunk2mem q) (q + psz + 16) (s - SIZE_SZ);;
        mret (GotoSplit q (u64 (s + psz)))
      else mret (GoOn info.1 info.2)) g Q.
Proof.
  iIntros (q cs1 Hq Hnb Hmax Hp Hs Hl) "Hl Hd HQ". iDestruct (limbo_sizes with "Hl") as %(_ & Ht & Hc1 & Hc2 & Hb & _ & Hend & Hbrk).
  pose proof Hp as [Hp1 Hp2]. pose proof Hs as [Hs1 Hs2]. pose proof Ht as [Ht1 Ht2]. pose proof Hnb as [Hn1 Hn2]. rewrite /INT_MAX in Hmax.
  pose proof (total_nonneg _ Hc1). pose proof (total_nonneg _ Hc2). assert (eheap = 2 ^ 22) by done.
  assert (E1 : base + total cs1 = q + psz) by (rewrite /cs1 total_app /= /q; lia).
  assert (Eu : useds base cs0 = useds base cs1) by (rewrite /cs1 chunks_in_app /= app_nil_r //). rewrite total_app /= in Hend.
  replace (q =? 0) with false by (symmetry; apply Z.eqb_neq; lia). rewrite !s64_fits; [|lia..]. cbn [negb andb].
  destruct (nb <=? psz + s) eqn:E; zbool.
  - iApply (wp_absorb_move _ cs0 psz s s _ _ _ _ _ vs [] with "Hl [Hd]"); [done|done|by rewrite app_nil_r|by rewrite app_nil_r|].
    iIntros (bs' zs Hz) "Hl Hd". wp_ret. iApply "HQ". rewrite uwrap_small; [|rewrite /in_u; lia]. replace (s + psz) with (psz + s) by lia.
    iExists cs0, cs2, psz, true, tsz, bs', zs. iFrame. iPureIntro. split; [done|]. split; [lia|]. split; [done|].
    rewrite E1 Eu. by replace (q + (psz + s)) with (q + psz + s) by lia.
  - wp_ret. iApply "HQ". rewrite /grown_post E1. iFrame. by destruct info.
Qed.

Lemma wp_realloc_backward base cs1 s cs2 tsz bs nb vs g Q :
  let p := base + total cs1 in let info := next_free (p + s) cs2 tsz in
  size_ok nb -> nb <= INT_MAX -> length vs = data_len s ->
  limbo g base cs1 s s true cs2 tsz bs -∗ array (p + 16) vs -∗
  (∀ r, grown_post base cs1 s cs2 tsz bs nb vs info r g -∗ Q r g) -∗
  wp (realloc_backward av (chunk2mem p) p s nb info.1 info.2) g Q.
Proof.
  iIntros (p info Hnb Hmax Hl) "Hl Hd HQ". iDestruct (limbo_sizes with "Hl") as %(Hs & Ht & Hc1 & Hc2 & Hb & Hb16 & Hend & Hbrk).
  pose proof Hs as [Hs1 Hs2]. pose proof Ht as [Ht1 Ht2]. pose proof Hnb as [Hn1 Hn2].
  assert (eheap = 2 ^ 22) by done. pose proof Hmax as Hmax'. rewrite /INT_MAX in Hmax'. fold p in Hend.
  rewrite /realloc_backward /prev_inuse. iDestruct (limbo_header with "Hl") as "(_ & Hh & Hl)". fold p. iApply wp_bind. wp_load "Hh". wp_ret.
  iDestruct ("Hl" $! s with "[//] Hh") as "Hl". rewrite header_bit_test // negb_involutive. destruct (lastu true cs1) eqn:Eu.
  { wp_ret. iApply "HQ". rewrite /grown_post. iFrame. by destruct info. }
  destruct (lastu_false _ Eu) as (cs0 & psz & ->). apply Forall_app in Hc1 as [Hc0 [Hz _]%Forall_cons]. cbn in Hz. pose proof Hz as [Hz1 Hz2].
  pose proof (total_nonneg _ Hc0). pose proof (total_nonneg _ Hc2).
  set (q := base + total cs0). assert (Ep : p = q + psz) by (rewrite /p total_app /= /q; lia). clearbody p. subst p.
  iApply wp_bind. iApply (wp_prev with "Hl"). iIntros "Hl". iApply wp_bind. iApply (wp_prev_size with "Hl"). iIntros "Hl". fold q.
  iApply (wp_limbo_top with "Hl"). iIntros "Hl". replace (base + total (cs0 ++ [(psz, false)])) with (q + psz) by (rewrite total_app /= /q; lia).
  change (chunk2mem (q + psz)) with (q + psz + 16). assert (Hq : 0 < q) by lia.
  pose proof (wp_shift base cs0 psz s cs2 tsz bs nb vs info g Q Hq Hnb Hmax Hz Hs Hl) as Hshift. fold q in Hshift.
  destruct cs2 as [|[nsz [|]] cs3]; cbn [next_free fst snd] in info; rewrite /info; cbn [fst snd].
  - cbn [total] in Hend |- *. rewrite Z.add_0_r Z.eqb_refl. replace (q + psz + s =? 0) with false by (symmetry; apply Z.eqb_neq; lia).
    rewrite /MINSIZE. cbn [negb andb]. destruct (s64 (nb + 32) <=? s64 (tsz + psz + s)) eqn:E; [|iApply (Hshift with "Hl Hd HQ")].
    rewrite !s64_fits in E; [|lia..]. zbool.
    iApply (wp_absorb_move _ cs0 psz s s _ _ _ _ _ vs [] with "Hl [Hd]"); [done|done|by rewrite app_nil_r|by rewrite app_nil_r|]. iIntros (bs' zs Hzl) "Hl Hd". fold q.
    rewrite uwrap_small; [|rewrite /in_u; lia]. replace (s + (psz + tsz) - nb) with (psz + s + tsz - nb) by lia.
    iApply (wp_grow_top with "Hl Hd"); [done|lia|done|]. iIntros (ys) "Ha Hd %Hlen". iApply "HQ".
    iExists q, nb, _, _, _, _. iFrame. iPureIntro. split; [done|]. split; [done|]. split; [|split; [by apply length_take_le|rewrite -app_assoc; apply keeps_take]].
    rewrite !chunks_in_app /= !app_nil_r. by rewrite Permutation_app_comm.
  - cbn [negb andb]. iApply (Hshift with "Hl Hd HQ").
  - cbn [total] in Hend |- *. apply Forall_cons in Hc2 as [Hn Hc3]. cbn in Hn. pose proof Hn as [Hm1 Hm2]. pose proof (total_nonneg _ Hc3).
    replace (q + psz + s =? 0) with false by (symmetry; apply Z.eqb_neq; lia).
    replace (q + psz + s =? q + psz + s + (nsz + total cs3)) with false by (symmetry; apply Z.eqb_neq; lia). cbn [negb andb].
    destruct (s64 nb <=? s64 (nsz + psz + s)) eqn:E; [|iApply (Hshift with "Hl Hd HQ")].
    rewrite !s64_fits in E; [|lia..]. zbool. iApply wp_bind.
    replace (q + psz) with (base + total (cs0 ++ [(psz, false)])) by (rewrite total_app /= /q; lia).
    iApply (wp_absorb_next with "Hl Hd"); [done|]. iIntros (bs1 ys [Hsn Hly]) "Hl Hd".
    replace (base + total (cs0 ++ [(psz, false)])) with (q + psz) by (rewrite total_app /= /q; lia).
    iApply (wp_absorb_move with "Hl Hd"); [done..|]. iIntros (bs' zs Hzl) "Hl Hd". fold q. wp_ret. iApply "HQ".
    rewrite uwrap_small; [|rewrite /in_u; lia]. replace (s + (nsz + psz)) with (psz + (s + nsz)) by lia.
    iExists cs0, cs3, psz, false, tsz, bs', zs. iFrame. iPureIntro. split; [done|]. split; [lia|]. split; [done|].
    rewrite chunks_in_app /= app_nil_r total_app /=. by replace (q + (psz + (s + nsz))) with (base + (total cs0 + (psz + 0)) + s + nsz) by lia.
Qed.

(** *** Moving *)

(** The chunk of a block that is out. *)
Lemma row_used_next base cs1 s cs2 vsz : sizes_ok (cs1 ++ (s, true) :: cs2) ->
  let p := base + total cs1 in (p + s, vsz) ∈ useds base (cs1 ++ (s, true) :: cs2) ->
  exists cs3, cs2 = (vsz, true) :: cs3.
Proof.
  intros Hc p. apply Forall_app in Hc as [H1 [[Hs _] H2]%Forall_cons]. cbn in Hs.
  rewrite chunks_in_app /= -/p elem_of_app elem_of_cons. intros [H|[[= H _]|H]].
  - exfalso. apply chunks_in_elem in H as (ca & cb & -> & E). apply Forall_app in H1 as [Ha [[Hv _] Hb]%Forall_cons]. cbn in Hv.
    pose proof (total_nonneg _ Ha). pose proof (total_nonneg _ Hb). rewrite /p total_app /= in E. lia.
  - lia.
  - apply chunks_in_elem in H as (ca & cb & -> & E). destruct ca as [|[x u] ca]; [by exists cb|].
    apply Forall_app in H2 as [[[Hx _] Ha]%Forall_cons _]. cbn in Hx, E. pose proof (total_nonneg _ Ha). lia.
Qed.

Lemma limbo_merge base cs1 s w vsz cs3 tsz bs vs g :
  let p := base + total cs1 in let v := p + s in
  length vs = data_len s ->
  limbo g base cs1 s w true ((vsz, true) :: cs3) tsz bs -∗ array (p + 16) vs -∗ cells (v + 16) (v + vsz + 8) -∗
  ∃ ys, ⌜size_ok vsz /\ length (vs ++ ys) = data_len (s + vsz)⌝ ∗ limbo g base cs1 (s + vsz) w true cs3 tsz bs ∗ array (p + 16) (vs ++ ys).
Proof.
  iIntros (p v Hl) "Hl Hd Hc". iDestruct (limbo_sizes with "Hl") as %(Hs & Ht & Hc1 & [Hn Hc3]%Forall_cons & Hb & _ & Hend & Hbrk).
  cbn in Hn. cbn [total] in Hend. pose proof (total_nonneg _ Hc1). pose proof (total_nonneg _ Hc3). pose proof Hn as [Hn1 Hn2]. pose proof Hs as [Hs1 Hs2].
  assert (Hsn : size_ok (s + vsz)).
  { assert (eheap = 2 ^ 22) by done. destruct Ht. split; [lia|mlia]. }
  pose proof (data_len_eq _ Hs) as L1. pose proof (data_len_eq _ Hsn) as L2.
  iDestruct "Hl" as "(%bb & %H' & Htop & Hbb & Hb & H1 & Hh & H2 & Htt)". destruct H' as (Hok & _ & Hw & Hnu). fold p v.
  rewrite seg_cons. iDestruct "H2" as "[(_ & Hnh & _) H2]".
  iAssert (cells (v + 8) (v + vsz + 8)) with "[Hnh Hc]" as "Hc".
  { rewrite (cells_cons (v + 8)); [|lia]. iSplitL "Hnh"; [by iExists _|]. by replace (v + 8 + 8) with (v + 16) by lia. }
  iDestruct (cells_words _ _ (data_len (s + vsz) - data_len s) with "Hc") as (ys Hys) "Hys"; [lia|].
  iExists ys. iSplit; [iPureIntro; rewrite length_app; split; [done|lia]|]. iSplitR "Hd Hys".
  - rewrite /limbo -/p. replace (v + total ((vsz, true) :: cs3)) with (p + (s + vsz) + total cs3) by (cbn; lia).
    replace (v + vsz) with (p + (s + vsz)) by lia. iExists bb. iFrame. iPureIntro. destruct Hok. conjs; try done.
    split; try done.
    + move: ao_last. by rewrite !lastu_app.
    + rewrite total_app /= in ao_end. rewrite total_app /=. lia.
    + rewrite ao_perm !chunks_in_app /= -/p. by replace (p + (s + vsz)) with (p + s + vsz) by lia.
  - rewrite array_app Hl. iFrame "Hd". by replace (p + 16 + 8 * Z.of_nat (data_len s)) with (v + 8) by lia.
Qed.

Definition realloc_post (base : Z) (cs1 : list (Z * bool)) (s : Z) (cs2 : list (Z * bool)) (nb : Z) (vs : list Z) (mem : Z) g : hprop :=
  let p := base + total cs1 in
  ((⌜mem = 0⌝ ∗ (∃ tsz bs, arena av g base (cs1 ++ (s, true) :: cs2) tsz bs) ∗ array (p + 16) vs) ∨
   resized base (useds base cs1 ++ useds (p + s) cs2) nb vs mem g)%I.

Lemma wp_realloc_move fuel base cs1 s cs2 tsz bs bytes vs g Q :
  let p := base + total cs1 in let nb := request2size bytes in
  fuel_ok fuel -> 0 <= bytes <= max_request -> s < nb -> length vs = data_len s ->
  arena av g base (cs1 ++ (s, true) :: cs2) tsz bs -∗ array (p + 16) vs -∗
  (∀ mem g', realloc_post base cs1 s cs2 nb vs mem g' -∗ Q mem g') -∗
  wp (realloc_move av fuel (chunk2mem p) p s bytes nb) g Q.
Proof.
  iIntros (p nb Hf Hb Hlt Hl) "Ha Hd HQ". destruct (request_size_ok bytes Hb) as (Hnb & Hmax & _). fold nb in Hnb.
  rewrite /realloc_move. iApply wp_bind. iApply (wp_malloc with "Ha"); [done..|]. iIntros (mem g1) "[[[-> _] [%bs' Ha]]|Hp]".
  { cbn [Z.eqb]. wp_ret. iApply "HQ". iLeft. iSplit; [done|]. iFrame. }
  iDestruct "Hp" as (v vsz cs' tsz' bs') "([-> [%Hvs %Hu]] & Ha & Hc)". fold nb in Hvs.
  iDestruct (used_chunk _ _ _ _ _ _ v vsz with "Ha") as %([Hv1 Hv2] & Hv3 & _ & Hv4 & Hv5); [rewrite Hu; set_solver|].
  assert (Hv0 : (chunk2mem v =? 0) = false) by (apply Z.eqb_neq; rewrite /chunk2mem /SIZE_SZ; lia). rewrite Hv0.
  assert (Hin : (p, s) ∈ useds base cs').
  { rewrite Hu chunks_in_app /=. set_solver. }
  apply chunks_in_elem in Hin as (ca & cb & -> & Ep).
  assert (Hus : useds base ca ++ useds (p + s) cb ≡ₚ (v, vsz) :: useds base cs1 ++ useds (p + s) cs2).
  { rewrite !chunks_in_app /= -Ep in Hu. fold p in Hu. apply (Permutation_cons_inv (a := (p, s))).
    rewrite Permutation_middle Hu. rewrite -Permutation_middle. apply perm_swap. }
  rewrite arena_limbo. iDestruct (limbo_sizes with "Ha") as %(Hs & _ & Hca & Hcb & _).
  iDestruct (limbo_header with "Ha") as "(_ & Hh & Ha)". rewrite -Ep /next_chunk. iApply wp_bind. wp_load "Hh". wp_ret.
  rewrite header_size1; [|apply Hs]. iDestruct ("Ha" $! s with "[%] Hh") as "Ha"; [apply Hs|].
  change (mem2chunk (chunk2mem v)) with (v + 16 - 16). replace (v + 16 - 16) with v by lia. destruct (v =? p + s) eqn:E; zbool.
  - subst v. destruct (row_used_next base ca s cb vsz) as (cs3 & ->); [by apply Forall_app; split; [|constructor]|rewrite -Ep Hu; set_solver|].
    iApply wp_bind. iEval (rewrite Ep). iApply (wp_next_size with "Ha"). iIntros "Ha". rewrite -Ep.
    iDestruct (limbo_merge with "Ha [Hd] [Hc]") as (ys [Hvz Hly]) "[Ha Hd]"; [exact Hl|by rewrite -Ep|by rewrite -Ep|].
    assert (Hbig : s + vsz < 2 ^ 64) by (destruct Hs; lia).
    rewrite uwrap_small; [|rewrite /in_u; destruct Hs; lia].
    iApply (wp_split_pending fuel base (useds base cs1 ++ useds (p + s) cs2) nb vs p (s + vsz) with "[Ha Hd]"); [done..| |].
    + iExists ca, cs3, s, true, tsz', bs', ys. rewrite -Ep. iFrame. iPureIntro. split; [done|]. split; [destruct Hs; lia|]. split; [done|].
      apply (Permutation_cons_inv (a := (p + s, vsz))). rewrite -Hus /=. rewrite -Permutation_middle.
      by replace (p + (s + vsz)) with (p + s + vsz) by lia.
    + iIntros (mem g2) "Hr". iApply "HQ". by iRight.
  - pose proof (data_len_eq _ Hs) as L1.
    iAssert (cells (v + 16) (v + 16 + 8 * Z.of_nat (length vs)) ∗ cells (v + 16 + 8 * Z.of_nat (length vs)) (v + vsz + 8))%I with "[Hc]" as "[Hc Hc2]".
    { rewrite -cells_split //; [lia|]. replace (v + 16 + 8 * Z.of_nat (length vs) - (v + 16)) with (Z.of_nat (length vs) * 8) by lia. apply Z_mod_mult. }
    rewrite /MALLOC_COPY /SIZE_SZ. fold (data_len s). rewrite -Hl. iApply wp_bind. change (chunk2mem v) with (v + 16). change (chunk2mem p) with (p + 16).
    iApply (wp_copy_apart with "Hd Hc"). iIntros "Hd Hv". rewrite -arena_limbo.
    iDestruct (array_cells _ _ (p + s + 8) with "Hd") as "Hd"; [lia|]. change (p + 16) with (chunk2mem p). iApply wp_bind.
    replace (chunk2mem p) with (chunk2mem (base + total ca)) by (by rewrite -Ep).
    iApply (wp_free with "Ha [Hd]"); [done|by rewrite -Ep|].
    iIntros (g2 cs2' tsz2 bs2 Eu) "Ha". wp_ret. iApply "HQ". iRight.
    assert (Hvz : size_ok vsz) by done. pose proof (data_len_eq _ Hvz) as L2.
    iDestruct (cells_words _ _ (data_len vsz - data_len s) with "Hc2") as (ys Hys) "Hys"; [lia|].
    iExists v, vsz, cs2', tsz2, bs2, (vs ++ ys). iFrame "Ha". iSplit.
    + iPureIntro. split; [done|]. split; [lia|]. split; [by rewrite Eu -Ep|]. rewrite length_app. split; [lia|].
      rewrite /keeps_words take_app_length take_ge //. rewrite length_app. lia.
    + rewrite array_app. iFrame.
Qed.

Theorem wp_realloc fuel base cs1 s cs2 tsz bs bytes vs g Q :
  let p := base + total cs1 in let nb := request2size bytes in
  fuel_ok fuel -> 0 <= bytes <= max_request -> length vs = data_len s ->
  arena av g base (cs1 ++ (s, true) :: cs2) tsz bs -∗ array (p + 16) vs -∗
  (∀ mem g', realloc_post base cs1 s cs2 nb vs mem g' -∗ Q mem g') -∗
  wp (realloc av fuel (chunk2mem p) bytes) g Q.
Proof.
  iIntros (p nb Hf Hb Hl) "Ha Hd HQ". destruct (request_size_ok bytes Hb) as (Hnb & Hmax & _). fold nb in Hnb, Hmax.
  rewrite arena_limbo. iDestruct (limbo_sizes with "Ha") as %(Hs & _ & Hc1 & _ & Hbase & _). pose proof (total_nonneg _ Hc1).
  assert (Hp0 : (chunk2mem p =? 0) = false) by (apply Z.eqb_neq; rewrite /chunk2mem /SIZE_SZ /p; lia). rewrite /realloc Hp0.
  change (mem2chunk (chunk2mem p)) with (p + 16 - 16). replace (p + 16 - 16) with p by lia.
  iDestruct (limbo_header with "Ha") as "(_ & Hh & Ha)". fold p. iApply wp_bind. iApply (wp_chunksize with "Hh"). iIntros "Hh".
  rewrite header_size; [|apply Hs]. iDestruct ("Ha" $! s with "[%] Hh") as "Ha"; [apply Hs|]. fold nb.
  pose proof (request_fits bytes) as Hfit. fold nb in Hfit. rewrite Hfit; [|rewrite /in_u /max_request in Hb |- *; lia].
  zdecide. pose proof Hs as [Hs1 Hs2]. pose proof Hnb as [Hn1 Hn2].
  rewrite !s64_fits; [|lia..]. set (us := useds base cs1 ++ useds (p + s) cs2).
  assert (Hfin : forall q s' g', pending base us nb vs q s' g' -∗ (∀ mem g', realloc_post base cs1 s cs2 nb vs mem g' -∗ Q mem g') -∗
    wp (realloc_split av fuel q s' nb) g' Q).
  { iIntros (q s' g') "Hp HQ". iApply (wp_split_pending with "Hp"); [done..|]. iIntros (mem g2) "Hr". iApply "HQ". by iRight. }
  destruct (s <? nb) eqn:E; zbool.
  - iApply wp_bind. iApply (wp_realloc_forward with "Ha Hd"); [done..|]. iIntros (r) "Hr". destruct r as [mem|q s'|next nextsize]; cbn [grown_post].
    + wp_ret. iApply "HQ". by iRight.
    + iApply (Hfin with "Hr HQ").
    + iDestruct "Hr" as "(%Hi & Ha & Hd)". iApply wp_bind. set (info := next_free _ _ _) in Hi. replace next with info.1 by (by rewrite -Hi). replace nextsize with info.2 by (by rewrite -Hi).
      iApply (wp_realloc_backward with "Ha Hd"); [done..|]. iIntros (r) "Hr". destruct r as [mem|q s'|next' nextsize']; cbn [grown_post].
      * wp_ret. iApply "HQ". by iRight.
      * iApply (Hfin with "Hr HQ").
      * iDestruct "Hr" as "(_ & Ha & Hd)". rewrite -arena_limbo. iApply (wp_realloc_move with "Ha Hd HQ"); done.
  - iApply (Hfin with "[Ha Hd] HQ"). iExists cs1, cs2, s, true, tsz, bs, []. rewrite app_nil_r. iFrame. iPureIntro. by split_and!.
Qed.
End Resize.

(** ** Blocks and their contents *)

Definition block_words (b : Z * Z) (vs : list Z) : hprop := (⌜(8 * Z.of_nat (length vs))%Z = b.2⌝ ∗ array b.1 vs)%I.

Lemma block_words_cells b vs : block_words b vs ⊢ block_cells b.
Proof. iIntros "[%Hl H]". iApply (array_cells with "H"). lia. Qed.

Lemma block_cells_words b : 0 <= b.2 -> b.2 mod 8 = 0 -> block_cells b ⊢ ∃ vs, block_words b vs.
Proof.
  intros Hb Hm. rewrite /block_cells (cells_array (Z.to_nat (b.2 / 8))); [|mlia].
  iIntros "(%vs & %Hl & H)". iExists vs. iFrame. iPureIntro. mlia.
Qed.

Lemma array_at a vs i v (h : wheap) : vs !! i = Some v -> array a vs h -> h !! (a + 8 * Z.of_nat i) = Some v.
Proof. intros Hi. apply (entails_at _ ((a + 8 * Z.of_nat i) ↦ v)%I). rewrite /array. by iIntros "H"; iDestruct (big_sepL_lookup with "H") as "H". Qed.

Section Blocks.
Context {X : Type} (av base : Z).
Implicit Types (g : @mvars X).

Lemma inv_split b l g : malloc_inv av base (b :: l) g ⊢ ∃ cs1 s cs2 tsz bs,
  ⌜b = block_of ((base + total cs1)%Z, s) /\ size_ok s /\ l ≡ₚ block_of <$> useds base cs1 ++ useds (base + total cs1 + s)%Z cs2⌝ ∗
  arena av g base (cs1 ++ (s, true) :: cs2) tsz bs.
Proof.
  iIntros "(%cs & %tsz & %bs & %Hl & Ha)". assert (Hb : b ∈ block_of <$> useds base cs) by (rewrite -Hl; set_solver).
  apply list_elem_of_fmap in Hb as ([v s] & -> & (cs1 & cs2 & -> & ->)%chunks_in_elem).
  iDestruct (used_chunk _ _ _ _ _ _ (base + total cs1) s with "Ha") as %[Hs _].
  { rewrite chunks_in_app /=. set_solver. }
  iExists cs1, s, cs2, tsz, bs. iFrame. iPureIntro. split; [done|]. split; [done|].
  rewrite chunks_in_app /= !fmap_app /= -Permutation_middle in Hl. rewrite fmap_app. by apply Permutation_cons_inv in Hl.
Qed.

(** What is known of a block. *)
Lemma inv_block b l g : malloc_inv av base (b :: l) g -∗ ⌜(0 < b.1 /\ b.1 + b.2 <= eheap)%Z /\ b.1 mod 16 = 0 /\ size_ok (b.2 + 8)⌝.
Proof.
  iIntros "Hi". iDestruct (inv_split with "Hi") as (cs1 s cs2 tsz bs (-> & Hs & Hl)) "Ha".
  iDestruct (used_chunk _ _ _ _ _ _ (base + total cs1) s with "Ha") as %([Hs1 Hs2] & H1 & H2 & H3 & H4).
  { rewrite chunks_in_app /=. set_solver. }
  iPureIntro. cbn. replace (s - 8 + 8) with s by lia. conjs; try lia; [mlia|done].
Qed.

Lemma wp_block_size b l g Q : malloc_inv av base (b :: l) g -∗ (malloc_inv av base (b :: l) g -∗ Q (b.2 + 8) g) -∗
  wp (chunksize (mem2chunk b.1)) g Q.
Proof.
  iIntros "Hi HQ". iDestruct (inv_split with "Hi") as (cs1 s cs2 tsz bs (-> & Hs & Hl)) "Ha".
  rewrite arena_limbo. iDestruct (limbo_header with "Ha") as "(_ & Hh & Ha)".
  change (mem2chunk (block_of (base + total cs1, s)).1) with (base + total cs1 + 16 - 16).
  replace (base + total cs1 + 16 - 16) with (base + total cs1) by lia.
  iApply (wp_chunksize with "Hh"). iIntros "Hh". rewrite header_size; [|apply Hs].
  iDestruct ("Ha" $! s with "[%] Hh") as "Ha"; [apply Hs|]. rewrite -arena_limbo.
  cbn [block_of snd]. replace (s - 8 + 8) with s by lia. iApply "HQ".
  iExists _, tsz, bs. iFrame. iPureIntro. rewrite chunks_in_app /= !fmap_app /= -Permutation_middle. by rewrite Hl fmap_app.
Qed.

Context (fuel : nat) (Hfuel : fuel_ok fuel).

(** calloc gives a block of zeros. *)
Lemma wp_calloc_inv n elem_size l g Q :
  malloc_inv av base l g -∗
  (∀ g', malloc_inv av base l g' -∗ Q 0 g') ∧
  (∀ b g' k, ⌜block_ok (u64 (n * elem_size)) b⌝ -∗ malloc_inv av base (b :: l) g' -∗ block_words b (replicate k 0) -∗ Q b.1 g') -∗
  wp (calloc av fuel n elem_size) g Q.
Proof.
  iIntros "Hi HQ". rewrite /calloc. iApply wp_bind. iApply (wp_malloc_any with "Hi"); [done|by apply uwrap_range|]. iSplit.
  - iIntros (g') "Hi". wp_ret. iDestruct "HQ" as "[HQ _]". by iApply "HQ".
  - iIntros (b g' Hok) "Hi Hc". pose proof Hok as (H0 & _ & Hb & Hm8). destruct (uwrap_range 64 (n * elem_size)) as [Hu _]; [done|]. replace (b.1 =? 0) with false by (symmetry; apply Z.eqb_neq; lia).
    iApply wp_bind. iApply (wp_block_size with "Hi"). iIntros "Hi". rewrite /MALLOC_ZERO /SIZE_SZ. replace (b.2 + 8 - 8) with b.2 by lia.
    iApply wp_bind. iApply (wp_zero_words with "[Hc]").
    { rewrite /block_cells. by replace (b.1 + 8 * Z.of_nat (Z.to_nat (b.2 / 8))) with (b.1 + b.2) by mlia. }
    iIntros "Hw". wp_ret. iDestruct "HQ" as "[_ HQ]". iApply ("HQ" with "[//] Hi"). iFrame. iPureIntro. rewrite length_replicate. mlia.
Qed.

Lemma wp_realloc_big b l bytes g Q : in_u 64 bytes -> max_request < bytes ->
  malloc_inv av base (b :: l) g -∗ (∀ g', malloc_inv av base (b :: l) g' -∗ Q 0 g') -∗ wp (realloc av fuel b.1 bytes) g Q.
Proof.
  iIntros (Hb Hlt) "Hi HQ". iDestruct (inv_block with "Hi") as %([H0 _] & _). rewrite /realloc. zdecide. iApply wp_bind.
  iApply (wp_block_size with "Hi"). iIntros "Hi". rewrite request_fits //. zdecide. rewrite /set_ENOMEM. wp_setg. wp_ret.
  iApply "HQ". by iApply inv_errno.
Qed.

(** realloc keeps the words of the block. *)
Lemma wp_realloc_inv b l bytes vs g Q : in_u 64 bytes ->
  malloc_inv av base (b :: l) g -∗ block_words b vs -∗
  (∀ g', malloc_inv av base (b :: l) g' -∗ block_words b vs -∗ Q 0 g') ∧
  (∀ c ws g', ⌜block_ok bytes c /\ keeps_words vs ws⌝ -∗ malloc_inv av base (c :: l) g' -∗ block_words c ws -∗ Q c.1 g') -∗
  wp (realloc av fuel b.1 bytes) g Q.
Proof.
  iIntros (H64) "Hi Hd HQ". destruct (Z_lt_le_dec max_request bytes) as [Hlt|Hle].
  { iDestruct "HQ" as "[HQ _]". iApply (wp_realloc_big with "Hi"); [done..|]. iIntros (g') "Hi". by iApply ("HQ" with "Hi Hd"). }
  assert (Hb : 0 <= bytes <= max_request) by (destruct H64; lia). iDestruct "Hd" as "[%Hvs Hd]". iDestruct (inv_split with "Hi") as (cs1 s cs2 tsz bs (-> & Hs & Hl)) "Ha".
  cbn [block_of fst snd] in Hvs |- *. pose proof (data_len_eq _ Hs) as L. destruct (request_size_ok bytes Hb) as (_ & _ & Hnb).
  change (base + total cs1 + 16) with (chunk2mem (base + total cs1)).
  iApply (wp_realloc av fuel base cs1 s cs2 tsz bs bytes vs with "Ha Hd"); [done|done|lia|]. iIntros (mem g') "[(-> & (%tsz' & %bs' & Ha) & Hd)|Hr]".
  - iDestruct "HQ" as "[HQ _]". iApply ("HQ" with "[Ha]"); [|by iFrame].
    iExists _, tsz', bs'. iFrame. iPureIntro. rewrite chunks_in_app /= !fmap_app /= -Permutation_middle. by rewrite Hl fmap_app.
  - iDestruct "HQ" as "[_ HQ]". iDestruct "Hr" as (q qsz cs tsz' bs' ws (-> & Hq & Hu & Hw & Hk)) "[Ha Hd]".
    iDestruct (used_chunk _ _ _ _ _ _ q qsz with "Ha") as %[Hqs _]; [rewrite Hu; set_solver|]. pose proof (data_len_eq _ Hqs) as L2.
    iDestruct (block_of_ok _ _ _ _ _ _ q qsz bytes with "Ha") as %Hok; [rewrite Hu; set_solver|lia|].
    iApply ("HQ" $! (block_of (q, qsz)) ws with "[//] [Ha]").
    + iExists cs, tsz', bs'. iFrame. iPureIntro. by rewrite Hu fmap_cons Hl.
    + iFrame. iPureIntro. cbn. lia.
Qed.
End Blocks.
