(* ===== verification/MallocAlign.v ===== *)
(** memalign, valloc and pvalloc (newlib/libc/stdlib/mallocr.c, file Malloc): the block they
    give is aligned, and what they take too much before and behind it is given back. *)

From iris.proofmode Require Import proofmode.
From S2P Require Import Prelude Kvm HeapLogic Allocator GuestSys Malloc MallocInv MallocFree MallocAlloc.
From S2P Require Import MallocSearch MallocFirst MallocSafe MallocResize.

(** ** The spot in the chunk *)

(** The first address at or above [m] that is a multiple of [a]. *)
Lemma align_up k m : 0 <= k -> 0 <= m -> m + 2 ^ k <= 2 ^ 64 -> m mod 2 ^ k <> 0 ->
  Z.land (u64 (m + 2 ^ k - 1)) (- 2 ^ k) = m - m mod 2 ^ k + 2 ^ k.
Proof.
  intros Hk Hm Hle Hr. assert (0 < 2 ^ k) by (apply Z.pow_pos_nonneg; lia).
  replace (- 2 ^ k) with (Z.lnot (Z.ones k)) by (rewrite Z.ones_equiv; unfold Z.lnot; lia).
  rewrite land_lnot_ones // uwrap_small; [|rewrite /in_u; lia].
  pose proof (Z.div_mod m (2 ^ k) ltac:(lia)) as E. pose proof (Z.mod_pos_bound m (2 ^ k) ltac:(lia)) as Hb.
  assert (E2 : (m + 2 ^ k - 1) mod 2 ^ k = m mod 2 ^ k - 1); [|lia].
  symmetry. apply (Z.mod_unique_pos _ _ (m / 2 ^ k + 1)); lia.
Qed.

Lemma pow_mod16 k : 4 <= k -> 2 ^ k mod 16 = 0.
Proof. intros Hk. replace k with (k - 4 + 4) by lia. rewrite Z.pow_add_r; [|lia..]. apply Z_mod_mult. Qed.

Lemma mod_pow16 k m : 4 <= k -> m mod 16 = 0 -> (m mod 2 ^ k) mod 16 = 0.
Proof.
  intros Hk Hm. pose proof (pow_mod16 k Hk). rewrite (Z.mod_eq m (2 ^ k)); [|apply Z.pow_nonzero; lia].
  rewrite Zminus_mod Hm Z.mul_comm -Zmult_mod_idemp_r H Z.mul_0_r. done.
Qed.

(** ** Cutting a block *)

Section Align.
Context {X : Type} (av : Z) (fuel : nat) (Hfuel : fuel_ok fuel) (base : Z).
Implicit Types (g : @mvars X).

Lemma cut_cells p s nb : size_ok s -> size_ok nb -> nb + 32 <= s ->
  cells (p + 16) (p + s + 8) ⊣⊢ cells (p + 16) (p + nb + 8) ∗ size_ (p + nb) ↦- ∗ cells (p + nb + 16) (p + s + 8).
Proof.
  intros [H1 H2] [H3 H4] Hle. rewrite (cells_split (p + nb + 8) (p + 16)); [|lia|mlia]. rewrite (cells_cons (p + nb + 8)); [|lia].
  by replace (p + nb + 8 + 8) with (p + nb + 16) by lia.
Qed.

(** Give back the leader: [lead] bytes of the chunk. *)
Lemma wp_give_lead {A} b l lead newsize (c : M (wheap * @mvars X) A) g Q : size_ok lead -> lead + 32 <= b.2 + 8 -> newsize = b.2 + 8 - lead ->
  malloc_inv av base (b :: l) g -∗ block_cells b -∗
  (∀ g', malloc_inv av base ((b.1 + lead, b.2 - lead) :: l) g' -∗ block_cells (b.1 + lead, b.2 - lead) -∗ wp c g' Q) -∗
  wp (set_head (b.1 - 16 + lead) (Z.lor newsize PREV_INUSE);;
      set_inuse_bit_at_offset (b.1 - 16 + lead) newsize;;
      set_head_size (b.1 - 16) lead;;
      free av fuel (chunk2mem (b.1 - 16));; c) g Q.
Proof.
  iIntros (Hlead Hle ->) "Hi Hc HQ". iDestruct (inv_split with "Hi") as (cs1 s cs2 tsz bs (-> & Hs & Hl)) "Ha".
  rewrite /block_cells. cbn [block_of fst snd] in Hle |- *. set (p := base + total cs1).
  replace (p + 16 - 16) with p by lia. replace (s - 8 + 8 - lead) with (s - lead) by lia. replace (p + 16 + (s - 8)) with (p + s + 8) by lia.
  assert (Hr : size_ok (s - lead)) by (destruct Hs, Hlead; split; [lia|mlia]).
  rewrite (cut_cells p s lead) //; [|lia]. iDestruct "Hc" as "(Hc & Hn & Hc2)". rewrite arena_limbo /set_head /set_head_size.
  wp_store "Hn". rewrite header_true; [|apply Hr].
  iDestruct (limbo_next with "Ha") as (s') "(%Hs' & Hx & Ha)". fold p. iApply wp_bind.
  replace (p + s) with (p + lead + (s - lead)) by lia.
  iApply (wp_set_inuse with "Hx"). iIntros "Hx". rewrite header_set; [|apply Hs'].
  replace (p + lead + (s - lead)) with (p + s) by lia. iDestruct ("Ha" with "Hx") as "Ha".
  iDestruct (limbo_header with "Ha") as "(%Hw & Hh & Ha)". fold p. iApply wp_bind. wp_load "Hh". wp_store "Hh".
  rewrite header_resize //; [|apply Hlead].
  iDestruct ("Ha" with "[%] Hh") as "Ha"; [apply Hlead|]. iDestruct (limbo_cut with "Ha Hn") as "Ha"; [done..|].
  rewrite -app_assoc /=. iApply wp_bind. iApply (wp_free with "Ha Hc"); [done|]. iIntros (g' cs' tsz' bs' Eu) "Ha".
  iApply ("HQ" with "[Ha] [Hc2]").
  - iExists cs', tsz', bs'. iFrame. iPureIntro. rewrite Eu /= !fmap_app /= -Permutation_middle Hl fmap_app. fold p.
    replace (p + lead + (s - lead)) with (p + s) by lia. rewrite /block_of /=.
    by replace (p + 16 + lead, s - 8 - lead) with (p + lead + 16, s - lead - 8) by (f_equal; lia).
  - replace (p + 16 + lead) with (p + lead + 16) by lia. by replace (p + lead + 16 + (s - 8 - lead)) with (p + s + 8) by lia.
Qed.

(** Where the leader ends. *)
Definition lead_of (k m : Z) : Z :=
  let lead := 2 ^ k - m mod 2 ^ k in if lead <? MINSIZE then lead + 2 ^ k else lead.

Lemma lead_of_ok k m : 5 <= k <= 31 -> m mod 16 = 0 -> m mod 2 ^ k <> 0 ->
  size_ok (lead_of k m) /\ lead_of k m <= 2 ^ k + 16 /\ (m + lead_of k m) mod 2 ^ k = 0.
Proof.
  intros Hk Hm Hr. assert (Hk32 : 2 ^ 5 <= 2 ^ k <= 2 ^ 31) by (split; apply Z.pow_le_mono_r; lia).
  pose proof (mod_pow16 k m ltac:(lia) Hm) as H16. pose proof (pow_mod16 k ltac:(lia)) as Hp.
  pose proof (Z.div_mod m (2 ^ k) ltac:(lia)) as E. pose proof (Z.mod_pos_bound m (2 ^ k) ltac:(lia)) as Hb.
  rewrite /lead_of /MINSIZE /size_ok. set (a := 2 ^ k) in *. set (r := m mod a) in *. set (q := m / a) in *. clearbody a r q.
  destruct (a - r <? 32) eqn:El; zbool.
  - conjs; [lia|lia|mlia|mlia|]. replace (m + (a - r + a)) with ((q + 2) * a) by lia. apply Z_mod_mult.
  - conjs; [lia|lia|mlia|lia|]. replace (m + (a - r)) with ((q + 1) * a) by lia. apply Z_mod_mult.
Qed.

Lemma wp_memalign_lead b l k nb g Q : 5 <= k <= 31 -> size_ok nb -> 0 < b.1 < eheap -> b.1 mod 16 = 0 -> b.2 < 2 ^ 62 -> b.2 mod 16 = 8 ->
  nb + 2 ^ k + 32 <= b.2 ->
  malloc_inv av base (b :: l) g -∗ block_cells b -∗
  (∀ c g', ⌜nb <= c.2 + 8 /\ c.1 mod 2 ^ k = 0⌝ -∗ malloc_inv av base (c :: l) g' -∗ block_cells c -∗ Q (c.1 - 16) g') -∗
  wp (memalign_lead av fuel b.1 (b.1 - 16) (2 ^ k)) g Q.
Proof.
  iIntros (Hk Hnb Hb Hm Hb2 Hb3 Hle) "Hi Hc HQ". assert (Hk32 : 2 ^ 5 <= 2 ^ k <= 2 ^ 31) by (split; apply Z.pow_le_mono_r; lia).
  assert (Hheap : eheap = 2 ^ 22) by done. pose proof Hnb as [Hnb1 Hnb2].
  rewrite /memalign_lead. destruct (b.1 mod 2 ^ k =? 0) eqn:E; zbool.
  - wp_ret. iApply ("HQ" $! b with "[%] Hi Hc"). lia.
  - destruct (lead_of_ok k b.1 Hk Hm E) as (Hlead & Hmax & Hal). pose proof Hlead as [Hl1 Hl2].
    rewrite align_up //; [|lia..]. change (mem2chunk (b.1 - b.1 mod 2 ^ k + 2 ^ k)) with (b.1 - b.1 mod 2 ^ k + 2 ^ k - 16).
    pose proof (Z.mod_pos_bound b.1 (2 ^ k) ltac:(lia)) as Hb0.
    replace (b.1 - b.1 mod 2 ^ k + 2 ^ k - 16 - (b.1 - 16)) with (2 ^ k - b.1 mod 2 ^ k) by lia.
    rewrite s64_fits; [|lia].
    replace (if 2 ^ k - b.1 mod 2 ^ k <? MINSIZE then b.1 - b.1 mod 2 ^ k + 2 ^ k - 16 + 2 ^ k else b.1 - b.1 mod 2 ^ k + 2 ^ k - 16)
      with (b.1 - 16 + lead_of k b.1) by (rewrite /lead_of; destruct (_ <? MINSIZE); lia).
    replace (b.1 - 16 + lead_of k b.1 - (b.1 - 16)) with (lead_of k b.1) by lia. rewrite (uwrap_small 64 (lead_of k b.1)); [|rewrite /in_u; lia].
    change (b.1 - 16) with (mem2chunk b.1). iApply wp_bind. iApply (wp_block_size with "Hi"). iIntros "Hi". change (mem2chunk b.1) with (b.1 - 16).
    rewrite uwrap_small; [|rewrite /in_u; lia].
    iApply (wp_give_lead with "Hi Hc"); [done|mlia|lia|]. iIntros (g') "Hi Hc". wp_ret.
    replace (b.1 - 16 + lead_of k b.1) with (b.1 + lead_of k b.1 - 16) by lia. iApply ("HQ" with "[%] Hi Hc"). cbn. split; [mlia|done].
Qed.

(** Give back spare room at the end. *)
Lemma wp_memalign_tail b l nb g Q : size_ok nb -> nb <= b.2 + 8 ->
  malloc_inv av base (b :: l) g -∗ block_cells b -∗
  (∀ n g', ⌜nb <= n + 8⌝ -∗ malloc_inv av base ((b.1, n) :: l) g' -∗ block_cells (b.1, n) -∗ Q b.1 g') -∗
  wp (memalign_tail av fuel (b.1 - 16) nb) g Q.
Proof.
  iIntros (Hnb Hle) "Hi Hc HQ". rewrite /memalign_tail. change (b.1 - 16) with (mem2chunk b.1). iApply wp_bind.
  iApply (wp_block_size with "Hi"). iIntros "Hi". iDestruct (inv_split with "Hi") as (cs1 s cs2 tsz bs (-> & Hs & Hl)) "Ha".
  rewrite /block_cells. cbn [block_of fst snd] in Hle |- *. set (p := base + total cs1). change (mem2chunk (p + 16)) with (p + 16 - 16).
  replace (p + 16 - 16) with p by lia. replace (s - 8 + 8) with s by lia. change (chunk2mem p) with (p + 16). replace (p + 16 + (s - 8)) with (p + s + 8) by lia.
  rewrite long_sub_eq // /MINSIZE. destruct (32 <=? s - nb) eqn:E; zbool.
  - assert (Hr : size_ok (s - nb)) by (destruct Hs, Hnb; split; [lia|mlia]).
    rewrite (cut_cells p s nb) //; [|lia]. iDestruct "Hc" as "(Hc & Hn & Hc2)".
    rewrite arena_limbo. iDestruct (limbo_header with "Ha") as "(%Hw & Hh & Ha)". fold p. rewrite /set_head /set_head_size /chunk_at_offset.
    iApply wp_bind. wp_store "Hn". iApply wp_bind. wp_load "Hh". wp_store "Hh".
    rewrite header_resize //; [|apply Hnb]. rewrite header_true; [|apply Hr].
    iDestruct ("Ha" with "[%] Hh") as "Ha"; [apply Hnb|]. iDestruct (limbo_cut with "Ha Hn") as "Ha"; [done..|].
    assert (Et : base + total (cs1 ++ [(nb, true)]) = p + nb) by (rewrite total_app /= /p; lia).
    rewrite -Et. iApply (wp_free with "Ha [Hc2]"); [done| |].
    + rewrite Et. by replace (p + nb + (s - nb) + 8) with (p + s + 8) by lia.
    + iIntros (g' cs' tsz' bs' Eu) "Ha". wp_ret. iApply ("HQ" $! (nb - 8) with "[%] [Ha] [Hc]"); [lia| |].
      * iExists cs', tsz', bs'. iFrame. iPureIntro. rewrite Eu Et chunks_in_app /= -app_assoc !fmap_app /= -Permutation_middle Hl fmap_app.
        by replace (p + nb + (s - nb)) with (p + s) by lia.
      * rewrite /block_cells /=. rewrite Et. by replace (p + 16 + (nb - 8)) with (p + nb + 8) by lia.
  - wp_ret. wp_ret. iApply ("HQ" $! (s - 8) with "[%] [Ha] [Hc]"); [lia| |].
    + iExists _, tsz, bs. iFrame. iPureIntro. rewrite chunks_in_app /= !fmap_app /= -Permutation_middle. by rewrite Hl fmap_app.
    + rewrite /block_cells /=. by replace (p + 16 + (s - 8)) with (p + s + 8) by lia.
Qed.
(** memalign gives a block that is aligned. *)
Lemma wp_memalign_inv k bytes l g Q : 0 <= k < 64 -> in_u 64 bytes ->
  malloc_inv av base l g -∗
  (∀ g', malloc_inv av base l g' -∗ Q 0 g') ∧
  (∀ b g', ⌜block_ok bytes b /\ b.1 mod 2 ^ k = 0⌝ -∗ malloc_inv av base (b :: l) g' -∗ block_cells b -∗ Q b.1 g') -∗
  wp (memalign av fuel (2 ^ k) bytes) g Q.
Proof.
  iIntros (Hk Hb) "Hi HQ". rewrite /memalign /MALLOC_ALIGNMENT. destruct (2 ^ k <=? 16) eqn:E; zbool.
  - assert (Hk4 : k <= 4) by (apply (Z.pow_le_mono_r_iff 2); lia). iApply (wp_malloc_any with "Hi"); [done..|]. iSplit.
    + by iDestruct "HQ" as "[HQ _]".
    + iDestruct "HQ" as "[_ HQ]". iIntros (b g' Hok) "Hi Hc". iApply ("HQ" with "[%] Hi Hc"). split; [done|].
      destruct Hok as (_ & Hm & _). apply Z.mod_divide in Hm as [q ->]; [|done]. apply Z.mod_divide; [lia|]. apply Z.divide_mul_r. change 16 with (2 ^ 4).
      exists (2 ^ (4 - k)). rewrite -Z.pow_add_r; [|lia..]. f_equal. lia.
  - assert (Hk5 : 5 <= k) by (assert (4 < k); [apply (Z.pow_lt_mono_r_iff 2); lia|lia]).
    assert (Hp : 2 ^ 5 <= 2 ^ k <= 2 ^ 63) by (split; apply Z.pow_le_mono_r; lia).
    replace (if 2 ^ k <? MINSIZE then MINSIZE else 2 ^ k) with (2 ^ k) by (rewrite /MINSIZE; destruct (2 ^ k <? 32) eqn:E2; zbool; lia).
    rewrite request_fits //. destruct (max_request <? bytes) eqn:Em; zbool.
    { rewrite /set_ENOMEM. wp_setg. wp_ret. iDestruct "HQ" as "[HQ _]". iApply "HQ". by iApply inv_errno. }
    destruct (request_size_ok bytes) as (Hnb & Hmax & Hreq); [destruct Hb; lia|]. set (nb := request2size bytes) in *.
    rewrite /MINSIZE. rewrite /INT_MAX in Hmax. pose proof Hnb as [Hn1 Hn2]. rewrite uwrap_small; [|rewrite /in_u; lia]. iApply wp_bind.
    iApply (wp_malloc_any with "Hi"); [done|rewrite /in_u; lia|]. iSplit.
    + iIntros (g') "Hi". wp_ret. iDestruct "HQ" as "[HQ _]". by iApply "HQ".
    + iDestruct "HQ" as "[_ HQ]". iIntros (b g' (Hb0 & Hb1 & Hb2 & Hb3)) "Hi Hc". replace (b.1 =? 0) with false by (symmetry; apply Z.eqb_neq; lia).
      iDestruct (inv_block with "Hi") as %([Hbr1 Hbr2] & _ & [Hs1 Hs2]). assert (Hheap : eheap = 2 ^ 22) by done. change (mem2chunk b.1) with (b.1 - 16).
      assert (Hk31 : k <= 31) by (apply (Z.pow_le_mono_r_iff 2); lia).
      iApply wp_bind. iApply (wp_memalign_lead with "Hi Hc"); [done|done|lia|done|lia|mlia|lia|]. iIntros (c g1 [Hc1 Hc2]) "Hi Hc".
      iApply (wp_memalign_tail with "Hi Hc"); [done|done|]. iIntros (n g2 Hn) "Hi Hc".
      iDestruct (inv_block with "Hi") as %([Hcr _] & Hc16 & [Hc3 Hc4]). cbn in Hcr, Hc16, Hc3, Hc4.
      iApply ("HQ" $! (c.1, n) with "[%] Hi Hc"). rewrite /block_ok /=. conjs; try done; try lia. mlia.
Qed.
End Align.
