(* ===== verification/MallocRuns.v ===== *)
(** Programs that use the allocator of the guest's C library, from the first call on: the
    steps of such a program (malloc, free, realloc, calloc, memalign, and writes to its own
    blocks) are a relation on the heap, the allocator's variables and the list of blocks
    that are out.  Every such program runs safely. *)

From iris.proofmode Require Import proofmode.
From S2P Require Import Prelude Kvm HeapLogic Allocator GuestSys Malloc MallocInv MallocFree MallocAlloc.
From S2P Require Import MallocSearch MallocFirst MallocSafe MallocResize MallocAlign MallocLocal.

Section Runs.
Context {X : Type} (av : Z) (fuel : nat).
Implicit Types (g : @mvars X).

Abbreviation mworld := (@world (@mvars X)).
Abbreviation mstep := (step (G := @mvars X) (malloc := malloc av fuel) (free := free av fuel) (limit := max_request)).

(** A step of a program: the steps of file Allocator, and the other calls that give or
    move a block. *)
Inductive program_step : mworld -> mworld -> Prop :=
| step_base w w' : mstep w w' -> program_step w w'
| step_realloc h g l1 mem n l2 bytes r h' g' :
    in_u 64 bytes -> realloc av fuel mem bytes (h, g) = Ok (r, (h', g')) ->
    program_step (h, g, l1 ++ (mem, n) :: l2) (h', g', if r =? 0 then l1 ++ (mem, n) :: l2 else (r, bytes) :: l1 ++ l2)
| step_calloc h g l n elem_size r h' g' :
    in_u 64 (n * elem_size) -> calloc av fuel n elem_size (h, g) = Ok (r, (h', g')) ->
    program_step (h, g, l) (h', g', if r =? 0 then l else (r, n * elem_size) :: l)
| step_memalign h g l k bytes r h' g' :
    0 <= k < 64 -> in_u 64 bytes -> memalign av fuel (2 ^ k) bytes (h, g) = Ok (r, (h', g')) ->
    program_step (h, g, l) (h', g', if r =? 0 then l else (r, bytes) :: l).

(** The states of a program whose first request fits the heap; [start] is the break it
    starts with. *)
Inductive reachable (start : Z) : mworld -> Prop :=
| reach_first h g bytes mem h' g' :
    boots av h g -> brk g = start -> 0 <= bytes <= max_request -> first_fits g (request2size bytes) ->
    malloc av fuel bytes (h, g) = Ok (mem, (h', g')) -> reachable start (h', g', [(mem, bytes)])
| reach_step w w' : reachable start w -> program_step w w' -> reachable start w'.

Context (Hfuel : fuel_ok fuel).

Section Calls.
Context (base : Z).

#[local] Instance runs_allocator : Allocator (malloc (X := X) av fuel) (free av fuel) max_request :=
  mallocr_allocator av fuel base Hfuel.

Lemma world_perm h g l l' : l ≡ₚ l' -> world_ok (h, g, l) -> world_ok (h, g, l').
Proof.
  intros Hp (bl & Hl & Hh). cbn in Hl, Hh. destruct (Permutation_Forall2 Hp Hl) as (bl' & Hp' & Hl'). exists bl'. split; [done|]. cbn.
  eapply entails_at; [|exact Hh]. iIntros "[Hi Hc]". iSplitL "Hi"; [by iApply (malloc_inv_perm with "Hi")|]. rewrite /blocks_own. by rewrite Hp'.
Qed.

(** A call that gives a new block, of which [R] is known. *)
Lemma new_block_run (c : M (wheap * @mvars X) Z) bytes (R : Z * Z -> hprop) h g l :
  (forall b, R b ⊢ block_cells b) ->
  (forall bl Q, malloc_inv av base bl g -∗
     (∀ g', malloc_inv av base bl g' -∗ Q 0 g') ∧
     (∀ b g', ⌜block_ok bytes b⌝ -∗ malloc_inv av base (b :: bl) g' -∗ R b -∗ Q b.1 g') -∗ wp c g Q) ->
  world_ok (h, g, l) ->
  exists r h' g', c (h, g) = Ok (r, (h', g')) /\ keeps l h h' /\
    world_ok (h', g', if r =? 0 then l else (r, bytes) :: l) /\
    (r <> 0 -> exists n, block_ok bytes (r, n) /\ R (r, n) h').
Proof.
  intros HR Hc (bl & Hl & Hh). cbn in Hl, Hh.
  set (Q := fun r g' => (⌜r = 0⌝ ∗ malloc_inv av base bl g' ∨
    ∃ n, ⌜block_ok bytes (r, n)⌝ ∗ malloc_inv av base ((r, n) :: bl) g' ∗ R (r, n))%I : hprop).
  destruct (wp_run (malloc_inv av base bl g) (blocks_own bl) c g Q h)
    as (r & g' & h1 & h2 & h1' & -> & Hd & Hc2 & E & Hd' & HQ); [|done|].
  { iIntros "Hi". iApply (Hc with "Hi"). iSplit.
    - iIntros (g') "Hi". iLeft. by iFrame.
    - iIntros ([a n] g' Hok) "Hi HR". iRight. iExists n. by iFrame. }
  exists r, (h1' ∪ h2), g'. split; [done|]. split; [by eapply frame_keeps|]. destruct HQ as [[-> HQ]%sep_pure_l|[n [Hok HQ]%sep_pure_l]].
  - split; [|done]. cbn. apply (left_with_ok l bl [] g' h1' h2); [done| |done|done].
    eapply entails_at; [|exact HQ]. rewrite /left_with /blocks_own /=. iIntros "$".
  - assert (Hr : r <> 0) by (destruct Hok as [Hok _]; cbn in Hok; lia). apply Z.eqb_neq in Hr as Hr2. rewrite Hr2. split.
    + apply (left_with_ok _ bl [(r, n)] g' h1' h2); [by apply Forall2_cons_2| |done|done].
      eapply entails_at; [|exact HQ]. rewrite /left_with /blocks_own /=. iIntros "[$ HR]". iSplitL; [by iApply HR|done].
    + intros _. exists n. split; [done|]. eapply hholds_mono; [|apply map_union_subseteq_l]. eapply entails_at; [|exact HQ]. iIntros "[_ $]".
Qed.

(** The words that hold the bytes of a block are zero. *)
Definition zeroed (mem n : Z) (h : wheap) : Prop := forall k, 0 <= k < n -> k mod 8 = 0 -> h !! (mem + k) = Some 0.

Lemma calloc_run n elem_size h g l : world_ok (h, g, l) ->
  exists r h' g', calloc av fuel n elem_size (h, g) = Ok (r, (h', g')) /\ keeps l h h' /\
    world_ok (h', g', if r =? 0 then l else (r, u64 (n * elem_size)) :: l) /\ (r <> 0 -> zeroed r (u64 (n * elem_size)) h').
Proof.
  intros Hw. destruct (new_block_run (calloc av fuel n elem_size) (u64 (n * elem_size)) (fun b => ∃ k, block_words b (replicate k 0))%I h g l)
    as (r & h' & g' & E & Hk & Hok & Hz); [| |done|].
  - intros b. iIntros "[%k H]". by iApply block_words_cells.
  - intros bl Q. iIntros "Hi HQ". iApply (wp_calloc_inv with "Hi"); [done|]. iSplit; [by iDestruct "HQ" as "[$ _]"|].
    iDestruct "HQ" as "[_ HQ]". iIntros (b g' k Hok) "Hi Hw". iApply ("HQ" with "[//] Hi"). by iExists k.
  - exists r, h', g'. split; [done|]. split; [done|]. split; [done|]. intros Hr. destruct (Hz Hr) as (m & (_ & _ & Hm1 & Hm2) & [k [Hk2 Ha]%sep_pure_l]).
    cbn in Hm1, Hm2, Hk2, Ha. rewrite length_replicate in Hk2. intros j Hj Hj8.
    replace j with (8 * Z.of_nat (Z.to_nat (j / 8))) by mlia. eapply array_at; [|exact Ha]. apply lookup_replicate. split; [done|]. mlia.
Qed.

Lemma memalign_run k bytes h g l : world_ok (h, g, l) -> 0 <= k < 64 -> in_u 64 bytes ->
  exists r h' g', memalign av fuel (2 ^ k) bytes (h, g) = Ok (r, (h', g')) /\ keeps l h h' /\
    world_ok (h', g', if r =? 0 then l else (r, bytes) :: l) /\ (r <> 0 -> r mod 2 ^ k = 0).
Proof.
  intros Hw Hk Hb. destruct (new_block_run (memalign av fuel (2 ^ k) bytes) bytes (fun b => ⌜b.1 mod 2 ^ k = 0⌝ ∗ block_cells b)%I h g l)
    as (r & h' & g' & E & Hk2 & Hok & Hz); [| |done|].
  - intros b. iIntros "[_ $]".
  - intros bl Q. iIntros "Hi HQ". iApply (wp_memalign_inv with "Hi"); [done..|]. iSplit; [by iDestruct "HQ" as "[$ _]"|].
    iDestruct "HQ" as "[_ HQ]". iIntros (b g' [Hok Hm]) "Hi Hc". iApply ("HQ" with "[//] Hi"). by iFrame.
  - exists r, h', g'. split; [done|]. split; [done|]. split; [done|]. intros Hr. destruct (Hz Hr) as (m & _ & [Hm _]%sep_pure_l). done.
Qed.
(** The words that hold the first [n] bytes at [mem] before are those at [r] after. *)
Definition carried (mem r n : Z) (h h' : wheap) : Prop :=
  forall k, 0 <= k < n -> k mod 8 = 0 -> h' !! (r + k) = h !! (mem + k).

Lemma keeps_words_at vs ws i : keeps_words vs ws -> (i < length vs)%nat -> (i < length ws)%nat -> ws !! i = vs !! i.
Proof. intros H Hv Hw. rewrite -(lookup_take_lt ws (length vs)) // -H lookup_take_lt //. Qed.

(** Two blocks whose words agree as far as both reach. *)
Lemma words_carried b c vs ws n (h h' : wheap) : keeps_words vs ws -> n <= b.2 -> n <= c.2 -> b.2 mod 8 = 0 -> c.2 mod 8 = 0 ->
  block_words b vs h -> block_words c ws h' -> carried b.1 c.1 n h h'.
Proof.
  intros Hk Hb Hc Hb8 Hc8 [Hv Hvs]%sep_pure_l [Hw Hws]%sep_pure_l k Hkn Hk8. cbn in Hv, Hw.
  set (i := Z.to_nat (k / 8)). assert (Ei : k = 8 * Z.of_nat i) by (unfold i; mlia). rewrite Ei.
  destruct (lookup_lt_is_Some_2 vs i) as [v Hi]; [mlia|]. rewrite (array_at _ _ _ _ _ Hi Hvs).
  apply (array_at _ ws); [|done]. rewrite (keeps_words_at vs) //; mlia.
Qed.

Lemma realloc_run h g l1 mem n l2 bytes : world_ok (h, g, l1 ++ (mem, n) :: l2) -> in_u 64 bytes ->
  exists r h' g', realloc av fuel mem bytes (h, g) = Ok (r, (h', g')) /\ keeps (l1 ++ l2) h h' /\
    world_ok (h', g', if r =? 0 then l1 ++ (mem, n) :: l2 else (r, bytes) :: l1 ++ l2) /\
    (if r =? 0 then carried mem mem n h h' else carried mem r (Z.min n bytes) h h').
Proof.
  intros Hw Hb. apply (world_perm _ _ _ ((mem, n) :: l1 ++ l2)) in Hw; [|by rewrite Permutation_middle].
  destruct Hw as (bl0 & (b & bl & [Eb Hokb] & Hl & ->)%Forall2_cons_inv_l & Hh). cbn in Eb, Hokb, Hh. subst mem.
  assert (Hh' : (∃ vs, malloc_inv av base (b :: bl) g ∗ block_words b vs ∗ blocks_own bl)%I h).
  { eapply entails_at; [|exact Hh]. rewrite /blocks_own /=. iIntros "(Hi & Hc & $)".
    iDestruct (inv_block with "Hi") as %(_ & _ & [Hs1 Hs2]). iFrame "Hi". iApply (block_cells_words with "Hc"); [lia|mlia]. }
  destruct Hh' as [vs Hvs]. clear Hh.
  set (Q := fun r g' => (⌜r = 0⌝ ∗ malloc_inv av base (b :: bl) g' ∗ block_words b vs ∨
    ∃ m ws, ⌜block_ok bytes (r, m) /\ keeps_words vs ws⌝ ∗ malloc_inv av base ((r, m) :: bl) g' ∗ block_words (r, m) ws)%I : hprop).
  assert (Hold : block_words b vs h) by (eapply entails_at; [|exact Hvs]; iIntros "(_ & $ & _)").
  destruct (wp_run (malloc_inv av base (b :: bl) g ∗ block_words b vs)%I (blocks_own bl) (realloc av fuel b.1 bytes) g Q h)
    as (r & g' & h1 & h2 & h1' & -> & Hd & Hc2 & E & Hd' & HQ).
  { iIntros "[Hi Hw]". iApply (wp_realloc_inv with "Hi Hw"); [done..|]. iSplit.
    - iIntros (g') "Hi Hw". iLeft. by iFrame.
    - iIntros ([a m] ws g' Hok) "Hi Hw". iRight. iExists m, ws. by iFrame. }
  { eapply entails_at; [|exact Hvs]. iIntros "($ & $ & $)". }
  destruct Hokb as (Hb0 & Hb1 & Hb2 & Hb3).
  exists r, (h1' ∪ h2), g'. split; [done|]. split; [by eapply frame_keeps|]. destruct HQ as [[-> HQ]%sep_pure_l|[m [ws [[Hok Hkw] HQ]%sep_pure_l]]].
  - cbn. split.
    + eapply world_perm; [apply Permutation_middle|]. apply (left_with_ok _ bl [b] g' h1' h2); [by apply Forall2_cons_2; [split|]| |done|done].
      eapply entails_at; [|exact HQ]. rewrite /left_with /blocks_own /=. iIntros "[$ Hw]". iSplitL; [by iApply block_words_cells|done].
    + eapply words_carried; [reflexivity|exact Hb2|exact Hb2|done|done|exact Hold|].
      eapply hholds_mono; [|apply map_union_subseteq_l]. eapply entails_at; [|exact HQ]. iIntros "[_ $]".
  - pose proof Hok as (Hr0 & _ & Hm & Hm8). cbn in Hr0, Hm, Hm8. zdecide. split.
    + apply (left_with_ok _ bl [(r, m)] g' h1' h2); [by apply Forall2_cons_2; [split|]| |done|done].
      eapply entails_at; [|exact HQ]. rewrite /left_with /blocks_own /=. iIntros "[$ Hw]". iSplitL; [by iApply block_words_cells|done].
    + eapply (words_carried b (r, m)); [exact Hkw|lia|cbn; lia|done|done|exact Hold|].
      eapply hholds_mono; [|apply map_union_subseteq_l]. eapply entails_at; [|exact HQ]. iIntros "[_ $]".
Qed.

Lemma program_step_ok w w' : world_ok w -> program_step w w' -> world_ok w'.
Proof.
  intros Hw Hs. destruct Hs as [w w' Hs|h g l1 mem n l2 bytes r h' g' Hb E|h g l n elem_size r h' g' Hb E|h g l k bytes r h' g' Hk Hb E].
  - by eapply step_ok.
  - destruct (realloc_run _ _ _ _ _ _ bytes Hw Hb) as (r2 & h2 & g2 & E2 & _ & Hok & _). rewrite E2 in E. by simplify_eq.
  - destruct (calloc_run n elem_size _ _ _ Hw) as (r2 & h2 & g2 & E2 & _ & Hok & _). rewrite uwrap_small // in Hok. rewrite E2 in E. by simplify_eq.
  - destruct (memalign_run k bytes _ _ _ Hw Hk Hb) as (r2 & h2 & g2 & E2 & _ & Hok & _). rewrite E2 in E. by simplify_eq.
Qed.
End Calls.

#[local] Instance allocator_from base : Allocator (malloc (X := X) av fuel) (free av fuel) max_request :=
  mallocr_allocator av fuel base Hfuel.

Lemma runs_ok start w : reachable start w -> world_ok (Allocator0 := allocator_from (first_chunk start)) w.
Proof.
  induction 1 as [h g bytes mem h' g' Hf <- Hb Hfit E|w w' _ IH Hs].
  - destruct (first_run av fuel Hfuel h g bytes Hf Hb Hfit) as (mem2 & h2 & g2 & E2 & _ & Hok). rewrite E2 in E. by simplify_eq.
  - by eapply program_step_ok.
Qed.

(** C20: in every state of a program that allocates, resizes, releases and writes its
    blocks, the blocks it holds do not overlap, start at multiples of 16, and lie
    between the start of the heap and the break, which stays below the limit. *)
Theorem malloc_blocks_safe start h g l : reachable start (h, g, l) ->
  disjoint_blocks l /\
  forall mem n, (mem, n) ∈ l ->
    mem mod 16 = 0 /\ start + 16 <= mem /\ mem + n <= brk g /\ brk g <= eheap.
Proof.
  intros Hr. pose proof (runs_ok _ _ Hr) as Hok. split; [by apply world_disjoint in Hok|].
  intros mem n Hin. destruct Hok as (bl & Hl & Hh). cbn in Hl, Hh.
  destruct (serves_elem _ _ _ Hl Hin) as (b & Hb & E & _ & Hm & Hn & _). cbn in E, Hn. subst mem.
  assert (Hbd : (⌜first_chunk start + 16 <= b.1 /\ b.1 + b.2 <= brk g <= eheap⌝ : hprop)%I h).
  { eapply entails_at; [|exact Hh]. iIntros "[H _]". by iApply (inv_bounds with "H"). }
  destruct Hbd as (H1 & H2 & H3). split; [done|]. unfold first_chunk in H1. split; [mlia|]. lia.
Qed.

(** A call returns in a guest whose memory is [h]; in one with the words [h0] only, it
    returns the same and leaves the same words, or it faults. *)
Definition returns_or_faults {A} (c : M (wheap * @mvars X) A) (h h0 : wheap) g : Prop :=
  exists r h' g', c (h, g) = Ok (r, (h', g')) /\
    (c (h0, g) = Err Fault \/
     exists h0', c (h0, g) = Ok (r, (h0', g')) /\ h0' ⊆ h' /\ dom h0' = dom h0).

Lemma local_returns {A} (c : M (wheap * @mvars X) A) h h0 g : local c -> h0 ⊆ h ->
  (exists r, c (h, g) = Ok r) -> returns_or_faults c h h0 g.
Proof. intros Hc Hs [[r [h' g']] E]. exists r, h', g'. split; [done|]. by eapply local_outcome. Qed.

(** C22: in every such state malloc, calloc and memalign return for every size, and free
    and realloc for every block the program holds, after at most [fuel] steps in any
    free list, when the guest's memory reaches the 4 MB that sbrk gives out.  In a guest
    with less memory (the words [h0] of [h]) each call does the same on the words there
    are, or faults because it accesses one of the others; it never runs on. *)
Theorem allocator_total start h g l h0 : reachable start (h, g, l) -> h0 ⊆ h ->
  (forall bytes, in_u 64 bytes -> returns_or_faults (malloc av fuel bytes) h h0 g) /\
  (forall n elem_size, returns_or_faults (calloc av fuel n elem_size) h h0 g) /\
  (forall k bytes, 0 <= k < 64 -> in_u 64 bytes -> returns_or_faults (memalign av fuel (2 ^ k) bytes) h h0 g) /\
  (forall mem n, (mem, n) ∈ l ->
     returns_or_faults (free av fuel mem) h h0 g /\
     (forall bytes, in_u 64 bytes -> returns_or_faults (realloc av fuel mem bytes) h h0 g)).
Proof.
  intros Hr%runs_ok Hs. conjs.
  - intros bytes Hb. apply local_returns; [auto with local_calls|done|]. destruct (Z_le_gt_dec bytes max_request) as [Hle|Hgt].
    + destruct (malloc_run bytes h g l Hr) as (mem & h' & g' & E & _); [unfold in_u in Hb; lia|eauto].
    + rewrite /malloc request_fits //. zdecide. eexists. reflexivity.
  - intros n e. apply local_returns; [auto with local_calls|done|]. destruct (calloc_run _ n e _ _ _ Hr) as (r & h' & g' & E & _). eauto.
  - intros k bytes Hk Hb. apply local_returns; [auto with local_calls|done|].
    destruct (memalign_run _ k bytes _ _ _ Hr Hk Hb) as (r & h' & g' & E & _). eauto.
  - intros mem n (l1 & l2 & ->)%list_elem_of_split. split.
    + apply local_returns; [auto with local_calls|done|]. destruct (free_run _ _ _ _ _ _ Hr) as (h' & g' & E & _). eauto.
    + intros bytes Hb. apply local_returns; [auto with local_calls|done|].
      destruct (realloc_run _ _ _ _ _ _ _ bytes Hr Hb) as (r & h' & g' & E & _). eauto.
Qed.

(** C21: no call changes a word of a block the program holds and does not release or
    resize by it. *)
Theorem allocator_keeps_blocks start h g l : reachable start (h, g, l) ->
  (forall bytes mem h' g', 0 <= bytes <= max_request -> malloc av fuel bytes (h, g) = Ok (mem, (h', g')) ->
     keeps l h h') /\
  (forall n elem_size r h' g', calloc av fuel n elem_size (h, g) = Ok (r, (h', g')) -> keeps l h h') /\
  (forall k bytes r h' g', 0 <= k < 64 -> in_u 64 bytes -> memalign av fuel (2 ^ k) bytes (h, g) = Ok (r, (h', g')) ->
     keeps l h h') /\
  (forall l1 mem n l2, l = l1 ++ (mem, n) :: l2 ->
     (forall h' g', free av fuel mem (h, g) = Ok (tt, (h', g')) -> keeps (l1 ++ l2) h h') /\
     (forall bytes r h' g', in_u 64 bytes -> realloc av fuel mem bytes (h, g) = Ok (r, (h', g')) -> keeps (l1 ++ l2) h h')).
Proof.
  intros Hr%runs_ok. conjs.
  - intros bytes mem h' g' Hb E. destruct (malloc_run bytes h g l Hr Hb) as (mem2 & h2 & g2 & E2 & _ & Hk).
    rewrite E2 in E. by simplify_eq.
  - intros n e r h' g' E. destruct (calloc_run _ n e _ _ _ Hr) as (r2 & h2 & g2 & E2 & Hk & _). rewrite E2 in E. by simplify_eq.
  - intros k bytes r h' g' Hk Hb E. destruct (memalign_run _ k bytes _ _ _ Hr Hk Hb) as (r2 & h2 & g2 & E2 & Hk2 & _). rewrite E2 in E. by simplify_eq.
  - intros l1 mem n l2 ->. split.
    + intros h' g' E. destruct (free_run _ _ _ _ _ _ Hr) as (h2 & g2 & E2 & _ & Hk). rewrite E2 in E. by simplify_eq.
    + intros bytes r h' g' Hb E. destruct (realloc_run _ _ _ _ _ _ _ bytes Hr Hb) as (r2 & h2 & g2 & E2 & Hk & _). rewrite E2 in E. by simplify_eq.
Qed.

(** C23: realloc keeps the contents: when it gives a block, the words that hold the first
    bytes of the old one, as far as both reach, are at the start of the new one, wherever
    it lies; when it gives none, the old block and its contents are still there. *)
Theorem realloc_contents start h g l1 mem n l2 bytes : reachable start (h, g, l1 ++ (mem, n) :: l2) -> in_u 64 bytes ->
  exists r h' g', realloc av fuel mem bytes (h, g) = Ok (r, (h', g')) /\
    if r =? 0 then reachable start (h', g', l1 ++ (mem, n) :: l2) /\ carried mem mem n h h'
    else reachable start (h', g', (r, bytes) :: l1 ++ l2) /\ carried mem r (Z.min n bytes) h h'.
Proof.
  intros Hr Hb. destruct (realloc_run _ _ _ _ _ _ _ bytes (runs_ok _ _ Hr) Hb) as (r & h' & g' & E & _ & _ & Hc).
  exists r, h', g'. split; [done|]. pose proof (reach_step _ _ _ Hr (step_realloc _ _ _ _ n _ _ _ _ _ Hb E)) as Hr'. by destruct (r =? 0).
Qed.

(** C24: a block that calloc gives is zero, in every word that holds a byte of the product
    of its arguments, taken modulo the width of a size; one that memalign gives starts at
    a multiple of the alignment asked for. *)
Theorem calloc_memalign_blocks start h g l : reachable start (h, g, l) ->
  (forall n elem_size r h' g', calloc av fuel n elem_size (h, g) = Ok (r, (h', g')) -> r <> 0 ->
     zeroed r (u64 (n * elem_size)) h') /\
  (forall k bytes r h' g', 0 <= k < 64 -> in_u 64 bytes -> memalign av fuel (2 ^ k) bytes (h, g) = Ok (r, (h', g')) -> r <> 0 ->
     r mod 2 ^ k = 0).
Proof.
  intros Hr%runs_ok. split.
  - intros n e r h' g' E. destruct (calloc_run _ n e _ _ _ Hr) as (r2 & h2 & g2 & E2 & _ & _ & Hz). rewrite E2 in E. by simplify_eq.
  - intros k bytes r h' g' Hk Hb E. destruct (memalign_run _ k bytes _ _ _ Hr Hk Hb) as (r2 & h2 & g2 & E2 & _ & _ & Hz). rewrite E2 in E. by simplify_eq.
Qed.

(** C25: malloc gives nothing only when it must: when it returns the null pointer
    for a size it accepts, every stretch of the size needed below the top chunk
    meets a block that is out, the top chunk is too small, and the heap cannot grow
    by what would be needed. *)
Theorem malloc_null_exhausted start h g l bytes h' g' : reachable start (h, g, l) ->
  0 <= bytes <= max_request -> malloc av fuel bytes (h, g) = Ok (0, (h', g')) ->
  exists bl, Forall2 serves l bl /\
    exhausted g (first_chunk start) (chunk_of <$> bl) (request2size bytes).
Proof.
  intros Hr%runs_ok Hb E. destruct (null_run av fuel Hfuel _ _ _ _ _ _ _ Hr Hb E) as (bl & H1 & H2 & _). by exists bl.
Qed.

(** When a program has released all its blocks, the free memory is one piece
    again: malloc fails only when the whole heap is too small. *)
Theorem malloc_after_free_all start h g bytes h' g' : reachable start (h, g, []) ->
  0 <= bytes <= max_request -> malloc av fuel bytes (h, g) = Ok (0, (h', g')) ->
  brk g < first_chunk start + request2size bytes + 32 /\ eheap < brk g + top_growth g (request2size bytes).
Proof.
  intros Hr%runs_ok Hb E. destruct (null_run av fuel Hfuel _ _ _ _ _ _ _ Hr Hb E) as (bl & H1 & (top & _ & _ & _ & H2) & H3).
  split; [by apply H3|done].
Qed.
End Runs.

(** ** Runs on a small heap *)

(** Two blocks are taken and released. *)
Definition demo1 := after (malloc demo_av demo_fuel 100) (boot_heap demo_av demo_start, demo_vars).
Definition demo2 := after (malloc demo_av demo_fuel 50) (demo1.1, demo1.2).
Definition demo3 := after (free demo_av demo_fuel (demo_start + 136)) (demo2.1, demo2.2).
Definition demo4 := after (free demo_av demo_fuel (demo_start + 24)) (demo3.1, demo3.2).

Lemma demo1_run : malloc demo_av demo_fuel 100 (boot_heap demo_av demo_start, demo_vars) = Ok (demo_start + 24, (demo1.1, demo1.2)).
Proof.
  unfold demo1. assert (E : result (malloc demo_av demo_fuel 100) (boot_heap demo_av demo_start, demo_vars) = Some (demo_start + 24)) by (vm_compute; reflexivity).
  exact (after_run _ _ _ E).
Qed.
Lemma demo2_run : malloc demo_av demo_fuel 50 (demo1.1, demo1.2) = Ok (demo_start + 136, (demo2.1, demo2.2)).
Proof.
  unfold demo2. assert (E : result (malloc demo_av demo_fuel 50) (demo1.1, demo1.2) = Some (demo_start + 136)) by (vm_compute; reflexivity).
  exact (after_run _ _ _ E).
Qed.
Lemma demo3_run : free demo_av demo_fuel (demo_start + 136) (demo2.1, demo2.2) = Ok (tt, (demo3.1, demo3.2)).
Proof.
  unfold demo3. assert (E : result (free demo_av demo_fuel (demo_start + 136)) (demo2.1, demo2.2) = Some (tt)) by (vm_compute; reflexivity).
  exact (after_run _ _ _ E).
Qed.
Lemma demo4_run : free demo_av demo_fuel (demo_start + 24) (demo3.1, demo3.2) = Ok (tt, (demo4.1, demo4.2)).
Proof.
  unfold demo4. assert (E : result (free demo_av demo_fuel (demo_start + 24)) (demo3.1, demo3.2) = Some (tt)) by (vm_compute; reflexivity).
  exact (after_run _ _ _ E).
Qed.

Lemma demo_fits : first_fits demo_vars (request2size 100).
Proof. vm_compute. intros [=]. Qed.

Lemma demo2_reachable : reachable demo_av demo_fuel demo_start
  (demo2.1, demo2.2, [(demo_start + 136, 50); (demo_start + 24, 100)]).
Proof.
  pose proof (reach_first demo_av demo_fuel demo_start _ _ 100 _ _ _ demo_boots eq_refl
    (small_request 100 ltac:(lia)) demo_fits demo1_run) as H1.
  pose proof (step_malloc (free := free demo_av demo_fuel) _ _ [(demo_start + 24, 100)] 50 _ _ _
    (small_request 50 ltac:(lia)) demo2_run) as H2.
  change (demo_start + 136 =? 0) with false in H2. exact (reach_step _ _ _ _ _ H1 (step_base _ _ _ _ H2)).
Qed.

Lemma demo4_reachable : reachable demo_av demo_fuel demo_start (demo4.1, demo4.2, []).
Proof.
  eapply reach_step; [eapply reach_step; [exact demo2_reachable|]|].
  - exact (step_base _ _ _ _ (step_free _ _ [] _ _ _ _ _ demo3_run)).
  - exact (step_base _ _ _ _ (step_free _ _ [] _ _ [] _ _ demo4_run)).
Qed.

Lemma malloc_blocks_safe_witness :
  disjoint_blocks [(demo_start + 136, 50); (demo_start + 24, 100)] /\ (demo_start + 136) mod 16 = 0.
Proof.
  destruct (malloc_blocks_safe demo_av demo_fuel demo_fuel_ok _ _ _ _ demo2_reachable) as [H1 H2].
  split; [exact H1|]. exact (proj1 (H2 (demo_start + 136) 50 (list_elem_of_here _ _))).
Defined.

(** The same program in a guest whose memory ends 4 KB below the limit. *)
Definition small_guest : wheap := filter (fun x => x.1 < eheap - 4096) demo2.1.

Lemma allocator_total_witness :
  returns_or_faults (free demo_av demo_fuel (demo_start + 24)) demo2.1 small_guest demo2.2 /\
  returns_or_faults (malloc demo_av demo_fuel 4000) demo2.1 small_guest demo2.2.
Proof.
  destruct (allocator_total demo_av demo_fuel demo_fuel_ok _ _ _ _ small_guest demo2_reachable (map_filter_subseteq _ _))
    as (Hm & _ & _ & H).
  split; [exact (proj1 (H (demo_start + 24) 100 (list_elem_of_further _ _ _ (list_elem_of_here _ _))))|].
  apply Hm. rewrite /in_u. lia.
Defined.

(** There, the second call faults: sbrk has given it memory that the guest does not have. *)
Theorem malloc_beyond_memory :
  match malloc demo_av demo_fuel 4000 (demo2.1, demo2.2) with Ok (mem, _) => negb (mem =? 0) | _ => false end = true /\
  match malloc demo_av demo_fuel 4000 (small_guest, demo2.2) with Err Fault => true | _ => false end = true.
Proof. split; vm_compute; reflexivity. Qed.

Lemma allocator_keeps_blocks_witness : keeps [(demo_start + 24, 100)] demo2.1 demo3.1.
Proof.
  destruct (allocator_keeps_blocks demo_av demo_fuel demo_fuel_ok _ _ _ _ demo2_reachable) as (_ & _ & _ & H).
  exact (proj1 (H [] (demo_start + 136) 50 _ eq_refl) _ _ demo3_run).
Defined.

(** The first block is asked to grow; the second is in its way. *)
Definition demo5 := after (realloc demo_av demo_fuel (demo_start + 24) 300) (demo2.1, demo2.2).

Lemma demo5_run : realloc demo_av demo_fuel (demo_start + 24) 300 (demo2.1, demo2.2) = Ok (demo_start + 200, (demo5.1, demo5.2)).
Proof.
  unfold demo5. assert (E : result (realloc demo_av demo_fuel (demo_start + 24) 300) (demo2.1, demo2.2) = Some (demo_start + 200)) by (vm_compute; reflexivity).
  exact (after_run _ _ _ E).
Qed.

Lemma realloc_contents_witness : reachable demo_av demo_fuel demo_start
    (demo5.1, demo5.2, [(demo_start + 200, 300); (demo_start + 136, 50)]) /\
  carried (demo_start + 24) (demo_start + 200) 100 demo2.1 demo5.1.
Proof.
  destruct (realloc_contents demo_av demo_fuel demo_fuel_ok _ _ _ [(demo_start + 136, 50)] (demo_start + 24) 100 [] 300 demo2_reachable ltac:(rewrite /in_u; lia))
    as (r & h' & g' & E & H).
  destruct (same_run _ _ _ _ _ _ _ _ demo5_run E) as (<- & <- & <-).
  change (demo_start + 200 =? 0) with false in H. change (Z.min 100 300) with 100 in H. exact H.
Defined.

(** A block of zeros, and one at a multiple of 256. *)
Definition demo6 := after (calloc demo_av demo_fuel 10 8) (demo2.1, demo2.2).

Lemma demo6_run : calloc demo_av demo_fuel 10 8 (demo2.1, demo2.2) = Ok (demo_start + 200, (demo6.1, demo6.2)).
Proof.
  unfold demo6. assert (E : result (calloc demo_av demo_fuel 10 8) (demo2.1, demo2.2) = Some (demo_start + 200)) by (vm_compute; reflexivity).
  exact (after_run _ _ _ E).
Qed.

Definition demo7 := after (memalign demo_av demo_fuel (2 ^ 8) 40) (demo2.1, demo2.2).

Lemma demo7_run : memalign demo_av demo_fuel (2 ^ 8) 40 (demo2.1, demo2.2) = Ok (demo_start + 248, (demo7.1, demo7.2)).
Proof.
  unfold demo7. assert (E : result (memalign demo_av demo_fuel (2 ^ 8) 40) (demo2.1, demo2.2) = Some (demo_start + 248)) by (vm_compute; reflexivity).
  exact (after_run _ _ _ E).
Qed.

Lemma calloc_memalign_blocks_witness : zeroed (demo_start + 200) 80 demo6.1 /\ (demo_start + 248) mod 2 ^ 8 = 0.
Proof.
  destruct (calloc_memalign_blocks demo_av demo_fuel demo_fuel_ok _ _ _ _ demo2_reachable) as [H1 H2]. split.
  - exact (H1 10 8 _ _ _ demo6_run ltac:(discriminate)).
  - exact (H2 8 40 _ _ _ ltac:(lia) ltac:(rewrite /in_u; lia) demo7_run ltac:(discriminate)).
Defined.

(** calloc does not check the product for overflow: 2^61 elements of 8 bytes are a request
    of 0 bytes, which is granted. *)
Theorem calloc_overflow : result (calloc demo_av demo_fuel (2 ^ 61) 8) (demo2.1, demo2.2) = Some (demo_start + 200).
Proof. vm_compute. reflexivity. Qed.

Lemma demo_too_big : exists h' g', malloc demo_av demo_fuel 100000 (demo2.1, demo2.2) = Ok (0, (h', g')).
Proof.
  assert (E : result (malloc demo_av demo_fuel 100000) (demo2.1, demo2.2) = Some 0) by (vm_compute; reflexivity).
  eexists _, _. exact (after_run _ _ _ E).
Qed.

Lemma malloc_null_exhausted_witness : exists bl,
  Forall2 serves [(demo_start + 136, 50); (demo_start + 24, 100)] bl /\
  exhausted demo2.2 (first_chunk demo_start) (chunk_of <$> bl) (request2size 100000).
Proof.
  destruct demo_too_big as (h' & g' & E).
  exact (malloc_null_exhausted demo_av demo_fuel demo_fuel_ok _ _ _ _ _ _ _ demo2_reachable (small_request 100000 ltac:(lia)) E).
Defined.

Lemma demo_empty_too_big : exists h' g', malloc demo_av demo_fuel 100000 (demo4.1, demo4.2) = Ok (0, (h', g')).
Proof.
  assert (E : result (malloc demo_av demo_fuel 100000) (demo4.1, demo4.2) = Some 0) by (vm_compute; reflexivity).
  eexists _, _. exact (after_run _ _ _ E).
Qed.

Lemma malloc_after_free_all_witness : brk demo4.2 < first_chunk demo_start + request2size 100000 + 32.
Proof.
  destruct demo_empty_too_big as (h' & g' & E).
  apply (malloc_after_free_all demo_av demo_fuel demo_fuel_ok _ _ _ _ _ _ demo4_reachable (small_request 100000 ltac:(lia)) E).
Defined.

