(* ===== verification/CTree.v ===== *)
(** Binary search trees of the C library: newlib/libc/search/tsearch.c, tfind.c,
    tdelete.c, tdestroy.c and twalk.c.

    A node_t is three words: the key, llink and rlink.  The tree's memory comes from
    an allocator, known only by its interface [Allocator]; the comparison function
    is a parameter, as in [CSort].  The actions twalk and tdestroy call are the user's: the
    model returns the calls made, in order. *)

From stdpp Require Import sorting.
From iris.proofmode Require Import proofmode.
From S2P Require Import Prelude Kvm HeapLogic Allocator CSort GuestSys Malloc MallocSearch MallocFirst MallocSafe.

Inductive VISIT : Type := preorder | postorder | endorder | leaf.

Definition sizeof_node : Z := 24.

Section Tree.
Context {G : Type} (malloc : Z -> M (wheap * G) Z) (free : Z -> M (wheap * G) unit).
Context (compar : Z -> Z -> Z).

Abbreviation prog := (M (wheap * G)).

(** ** The functions *)

Definition key_of (p : Z) : prog Z := load p.
Definition llink (p : Z) : Z := p + 8.
Definition rlink (p : Z) : Z := p + 16.

(** The loop of tsearch and tfind: the node found, or the null link reached. *)
Fixpoint search_loop (fuel : nat) (vkey rootp : Z) : prog (Z + Z) :=
  match fuel with
  | O => fail_with OutOfFuel
  | S fuel =>
      p ← load rootp;
      if p =? 0 then mret (inr rootp)
      else
        k ← key_of p;
        let r := compar vkey k in
        if r =? 0 then mret (inl p)
        else search_loop fuel vkey (if r <? 0 then llink p else rlink p)
  end.

Definition tsearch (fuel : nat) (vkey rootp : Z) : prog Z :=
  if rootp =? 0 then mret 0
  else
    found ← search_loop fuel vkey rootp;
    match found with
    | inl p => mret p
    | inr rootp =>
        q ← malloc sizeof_node;
        (if negb (q =? 0) then
           store rootp q;;
           store q vkey;;
           store (rlink q) 0;;
           store (llink q) 0
         else mret tt);;
        mret q
    end.

Definition tfind (fuel : nat) (vkey rootp : Z) : prog Z :=
  if rootp =? 0 then mret 0
  else
    found ← search_loop fuel vkey rootp;
    match found with inl p => mret p | inr _ => mret 0 end.

(** The loop of tdelete: the parent and the link to the node, or none.  [p] is the
    last node passed. *)
Fixpoint delete_loop (fuel : nat) (vkey p rootp : Z) : prog (option (Z * Z)) :=
  match fuel with
  | O => fail_with OutOfFuel
  | S fuel =>
      n ← load rootp;
      k ← key_of n;
      let cmp := compar vkey k in
      if cmp =? 0 then mret (Some (p, rootp))
      else
        let rootp := if cmp <? 0 then llink n else rlink n in
        next ← load rootp;
        if next =? 0 then mret None else delete_loop fuel vkey n rootp
  end.

(** for (q = r->llink; q->llink != NULL; q = r->llink) r = q; *)
Fixpoint successor_loop (fuel : nat) (r : Z) : prog (Z * Z) :=
  match fuel with
  | O => fail_with OutOfFuel
  | S fuel =>
      q ← load (llink r);
      ql ← load (llink q);
      if ql =? 0 then mret (r, q) else successor_loop fuel q
  end.

(** What takes the place of the node [n]: D1 to D3. *)
Definition replacement (fuel : nat) (n : Z) : prog Z :=
  r ← load (rlink n);
  q ← load (llink n);
  if q =? 0 then mret r
  else if r =? 0 then mret q
  else
    rl ← load (llink r);
    if rl =? 0 then
      store (llink r) q;;
      mret r
    else
      '(r, q) ← successor_loop fuel r;
      qr ← load (rlink q);
      store (llink r) qr;;
      nl ← load (llink n);
      store (llink q) nl;;
      nr ← load (rlink n);
      store (rlink q) nr;;
      mret q.

Definition tdelete (fuel : nat) (vkey rootp : Z) : prog Z :=
  if rootp =? 0 then mret 0
  else
    p ← load rootp;
    if p =? 0 then mret 0
    else
      found ← delete_loop fuel vkey p rootp;
      match found with
      | None => mret 0
      | Some (p, rootp) =>
          n ← load rootp;
          q ← replacement fuel n;
          free n;;
          store rootp q;;
          mret p
      end.

(** trecurse of tdestroy.c: the keys free_action is called with *)
Fixpoint destroy_recurse (fuel : nat) (root : Z) : prog (list Z) :=
  match fuel with
  | O => fail_with OutOfFuel
  | S fuel =>
      l ← load (llink root);
      ls ← (if negb (l =? 0) then destroy_recurse fuel l else mret []);
      r ← load (rlink root);
      rs ← (if negb (r =? 0) then destroy_recurse fuel r else mret []);
      k ← key_of root;
      free root;;
      mret (ls ++ rs ++ [k])
  end.

Definition tdestroy (fuel : nat) (root : Z) : prog (list Z) :=
  if negb (root =? 0) then destroy_recurse fuel root else mret [].

(** trecurse of twalk.c: the calls of action *)
Fixpoint walk_recurse (fuel : nat) (root level : Z) : prog (list (Z * VISIT * Z)) :=
  match fuel with
  | O => fail_with OutOfFuel
  | S fuel =>
      l ← load (llink root);
      is_leaf ← (if l =? 0 then r ← load (rlink root); mret (r =? 0) else mret false);
      if (is_leaf : bool) then mret [(root, leaf, level)]
      else
        l ← load (llink root);
        ls ← (if negb (l =? 0) then walk_recurse fuel l (level + 1) else mret []);
        r ← load (rlink root);
        rs ← (if negb (r =? 0) then walk_recurse fuel r (level + 1) else mret []);
        mret ([(root, preorder, level)] ++ ls ++ [(root, postorder, level)] ++ rs ++ [(root, endorder, level)])
  end.

(** [action] tells whether the action is not null. *)
Definition twalk (fuel : nat) (vroot : Z) (action : bool) : prog (list (Z * VISIT * Z)) :=
  if negb (vroot =? 0) && action then walk_recurse fuel vroot 0 else mret [].
End Tree.

(** ** Trees *)

(** A node is its block with the key and the subtrees. *)
Inductive tree : Type := Leaf | Node (b : Z * Z) (k : Z) (l r : tree).

Definition root (t : tree) : Z := match t with Leaf => 0 | Node b _ _ _ => b.1 end.

Fixpoint height (t : tree) : nat := match t with Leaf => 0 | Node _ _ l r => S (Nat.max (height l) (height r)) end.

(** The nodes in order. *)
Fixpoint nodes (t : tree) : list (Z * Z * Z) :=
  match t with Leaf => [] | Node b k l r => nodes l ++ (b, k) :: nodes r end.
Definition keys (t : tree) : list Z := (nodes t).*2.
Definition blocks (t : tree) : list (Z * Z) := (nodes t).*1.

Section Functional.
Context (compar : Z -> Z -> Z).

Fixpoint tree_find (vkey : Z) (t : tree) : Z :=
  match t with
  | Leaf => 0
  | Node b k l r => if compar vkey k =? 0 then b.1 else if compar vkey k <? 0 then tree_find vkey l else tree_find vkey r
  end.

Fixpoint tree_insert (vkey : Z) (q : Z * Z) (t : tree) : tree :=
  match t with
  | Leaf => Node q vkey Leaf Leaf
  | Node b k l r =>
      if compar vkey k =? 0 then t
      else if compar vkey k <? 0 then Node b k (tree_insert vkey q l) r else Node b k l (tree_insert vkey q r)
  end.

(** The first node and the rest. *)
Fixpoint split_min (b : Z * Z) (k : Z) (l r : tree) : (Z * Z * Z) * tree :=
  match l with
  | Leaf => ((b, k), r)
  | Node b' k' l' r' => let '(m, l'') := split_min b' k' l' r' in (m, Node b k l'' r)
  end.

(** What takes the place of a node with these subtrees. *)
Definition tree_join (l r : tree) : tree :=
  match l, r with
  | Leaf, _ => r
  | _, Leaf => l
  | _, Node b k rl rr => let '((mb, mk), r') := split_min b k rl rr in Node mb mk l r'
  end.

(** The tree without the node of the key, its block, and the node tdelete returns. *)
Fixpoint tree_delete (vkey p : Z) (t : tree) : option ((Z * Z) * Z * tree) :=
  match t with
  | Leaf => None
  | Node b k l r =>
      if compar vkey k =? 0 then Some (b, p, tree_join l r)
      else if compar vkey k <? 0 then
        match tree_delete vkey b.1 l with Some (d, q, l') => Some (d, q, Node b k l' r) | None => None end
      else
        match tree_delete vkey b.1 r with Some (d, q, r') => Some (d, q, Node b k l r') | None => None end
  end.
End Functional.

Fixpoint visits (t : tree) (level : Z) : list (Z * VISIT * Z) :=
  match t with
  | Leaf => []
  | Node b _ Leaf Leaf => [(b.1, leaf, level)]
  | Node b _ l r =>
      [(b.1, preorder, level)] ++ visits l (level + 1) ++ [(b.1, postorder, level)] ++ visits r (level + 1) ++ [(b.1, endorder, level)]
  end.

Fixpoint postorder_keys (t : tree) : list Z :=
  match t with Leaf => [] | Node _ k l r => postorder_keys l ++ postorder_keys r ++ [k] end.

(** ** Trees in memory *)

Definition node_ok (b : Z * Z) : Prop := 0 < b.1 /\ b.1 mod 16 = 0 /\ sizeof_node <= b.2 /\ b.2 mod 8 = 0.

Definition node_own (b : Z * Z) (k lp rp : Z) : hprop :=
  (⌜node_ok b⌝ ∗ b.1 ↦ k ∗ llink b.1 ↦ lp ∗ rlink b.1 ↦ rp ∗ cells (b.1 + 24) (b.1 + b.2))%I.

Fixpoint tree_own (t : tree) : hprop :=
  match t with
  | Leaf => emp
  | Node b k l r => node_own b k (root l) (root r) ∗ tree_own l ∗ tree_own r
  end%I.

(** A link to a tree. *)
Definition link (s : Z) (t : tree) : hprop := (s ↦ root t ∗ tree_own t)%I.

(** A fresh block is a node once it is written, and a node is a block again. *)
Lemma block_node b : node_ok b -> block_cells b ⊣⊢ b.1 ↦- ∗ llink b.1 ↦- ∗ rlink b.1 ↦- ∗ cells (b.1 + 24) (b.1 + b.2).
Proof.
  intros (H0 & H1 & H2 & H3). unfold sizeof_node in H2. rewrite /block_cells /llink /rlink.
  rewrite cells_cons; [|lia]. rewrite (cells_cons (b.1 + 8)); [|lia]. rewrite (cells_cons (b.1 + 8 + 8)); [|lia].
  by replace (b.1 + 8 + 8) with (b.1 + 16) by lia; replace (b.1 + 16 + 8) with (b.1 + 24) by lia.
Qed.

Lemma node_block b k lp rp : node_own b k lp rp ⊢ block_cells b.
Proof.
  iIntros "(%Hok & H1 & H2 & H3 & Hc)". rewrite block_node //. iFrame "Hc".
  iSplitL "H1"; [by iExists k|]. iSplitL "H2"; [by iExists lp|by iExists rp].
Qed.

Lemma tree_root t : tree_own t ⊢ ⌜(root t =? 0) = match t with Leaf => true | Node _ _ _ _ => false end⌝.
Proof.
  destruct t as [|b k l r]; [by iIntros "_"|]. iIntros "[(%Hok & _) _]". iPureIntro. destruct Hok as [Hok _]. cbn. by zdecide.
Qed.

Section Proofs.
Context {G : Type} {malloc : Z -> M (wheap * G) Z} {free : Z -> M (wheap * G) unit} {limit : Z}.
Context `{!Allocator malloc free limit} (Hlimit : sizeof_node <= limit).
Context (compar : Z -> Z -> Z).

(** *** Searching *)

(** The null link [s'] of the tree at [s] where the key belongs. *)
Definition place (vkey s : Z) (t : tree) (s' : Z) : hprop :=
  (s' ↦ 0 ∗ ((s' ↦ 0 -∗ link s t) ∧
    (∀ q, s' ↦ q.1 -∗ node_own q vkey 0 0 -∗ link s (tree_insert compar vkey q t))))%I.

Lemma wp_search_loop vkey t : forall fuel s (g : G) Q, (height t < fuel)%nat ->
  link s t -∗
  ((⌜tree_find compar vkey t <> 0⌝ -∗ link s t -∗ Q (inl (tree_find compar vkey t)) g) ∧
   (∀ s', ⌜tree_find compar vkey t = 0⌝ -∗ place vkey s t s' -∗ Q (inr s') g)) -∗
  wp (search_loop compar fuel vkey s) g Q.
Proof.
  induction t as [|b k l IHl r IHr]; intros [|fuel] s g Q Hf; [cbn in Hf; lia| |cbn in Hf; lia|];
    iIntros "[Hs Ht] HQ"; cbn [search_loop root].
  - wp_load "Hs". cbn [Z.eqb]. wp_ret. iDestruct "HQ" as "[_ HQ]". iApply "HQ"; [done|]. iFrame "Hs". iSplit.
    + iIntros "Hs". iFrame.
    + iIntros (q) "Hs Hq". cbn. rewrite /link /=. by iFrame.
  - iDestruct "Ht" as "[(%Hok & Hk & Hl & Hr & Hc) [Htl Htr]]". wp_load "Hs".
    assert (Hb : (b.1 =? 0) = false) by (destruct Hok; apply Z.eqb_neq; lia). rewrite Hb.
    rewrite /key_of. wp_load "Hk". cbn [tree_find].
    destruct (compar vkey k =? 0) eqn:E0; [|destruct (compar vkey k <? 0) eqn:E1].
    + wp_ret. iDestruct "HQ" as "[HQ _]". iApply "HQ"; [iPureIntro; lia|]. rewrite /link /=. by iFrame.
    + iApply (IHl with "[Hl Htl]"); [cbn in Hf; lia|by iFrame|]. iSplit.
      * iDestruct "HQ" as "[HQ _]". iIntros "%Hne [Hl Htl]". iApply "HQ"; [done|]. rewrite /link /=. by iFrame.
      * iDestruct "HQ" as "[_ HQ]". iIntros (s') "%He [Hs' Hp]". iApply "HQ"; [done|]. rewrite /place /=. rewrite E0 E1. iFrame "Hs'". iSplit.
        -- iDestruct "Hp" as "[Hp _]". iIntros "Hs'". iDestruct ("Hp" with "Hs'") as "[Hl Htl]". rewrite /link /=. by iFrame.
        -- iDestruct "Hp" as "[_ Hp]". iIntros (q) "Hs' Hq". iDestruct ("Hp" with "Hs' Hq") as "[Hl Htl]". rewrite /link /=. by iFrame.
    + iApply (IHr with "[Hr Htr]"); [cbn in Hf; lia|by iFrame|]. iSplit.
      * iDestruct "HQ" as "[HQ _]". iIntros "%Hne [Hr Htr]". iApply "HQ"; [done|]. rewrite /link /=. by iFrame.
      * iDestruct "HQ" as "[_ HQ]". iIntros (s') "%He [Hs' Hp]". iApply "HQ"; [done|]. rewrite /place /=. rewrite E0 E1. iFrame "Hs'". iSplit.
        -- iDestruct "Hp" as "[Hp _]". iIntros "Hs'". iDestruct ("Hp" with "Hs'") as "[Hr Htr]". rewrite /link /=. by iFrame.
        -- iDestruct "Hp" as "[_ Hp]". iIntros (q) "Hs' Hq". iDestruct ("Hp" with "Hs' Hq") as "[Hr Htr]". rewrite /link /=. by iFrame.
Qed.

Lemma wp_tfind fuel vkey s t (g : G) Q : s <> 0 -> (height t < fuel)%nat ->
  link s t -∗ (link s t -∗ Q (tree_find compar vkey t) g) -∗ wp (tfind compar fuel vkey s) g Q.
Proof.
  iIntros (Hs Hf) "Ht HQ". rewrite /tfind. replace (s =? 0) with false by (symmetry; by apply Z.eqb_neq).
  iApply wp_bind. iApply (wp_search_loop with "Ht"); [done|]. iSplit.
  - iIntros "%Hne Ht". wp_ret. by iApply "HQ".
  - iIntros (s') "%He [Hs' [Hp _]]". wp_ret. rewrite He. iApply "HQ". by iApply "Hp".
Qed.

(** The key is found, or there is no memory, or it is added. *)
Lemma wp_tsearch fuel vkey s t l (g : G) Q : s <> 0 -> (height t < fuel)%nat ->
  heap_inv l g -∗ link s t -∗
  ((⌜tree_find compar vkey t <> 0⌝ -∗ heap_inv l g -∗ link s t -∗ Q (tree_find compar vkey t) g) ∧
   (∀ g', ⌜tree_find compar vkey t = 0⌝ -∗ heap_inv l g' -∗ link s t -∗ Q 0 g') ∧
   (∀ q g', ⌜tree_find compar vkey t = 0 /\ node_ok q⌝ -∗ heap_inv (q :: l) g' -∗ link s (tree_insert compar vkey q t) -∗ Q q.1 g')) -∗
  wp (tsearch malloc compar fuel vkey s) g Q.
Proof.
  iIntros (Hs Hf) "Hi Ht HQ". rewrite /tsearch. replace (s =? 0) with false by (symmetry; by apply Z.eqb_neq).
  iApply wp_bind. iApply (wp_search_loop with "Ht"); [done|]. iSplit.
  - iIntros "%Hne Ht". wp_ret. iDestruct "HQ" as "[HQ _]". by iApply ("HQ" with "[//] Hi").
  - iIntros (s') "%He [Hs' Hp]". iApply wp_bind. iApply (malloc_spec with "Hi"); [unfold sizeof_node in *; lia|]. iSplit.
    + iIntros (g') "Hi". cbn [Z.eqb negb]. iApply wp_bind. iApply wp_ret. wp_ret.
      iDestruct "HQ" as "[_ [HQ _]]". iApply ("HQ" with "[//] Hi"). iDestruct "Hp" as "[Hp _]". by iApply "Hp".
    + iIntros (q g' Hq) "Hi Hc".
      assert (Hok : node_ok q) by (destruct Hq as (? & ? & ? & ?); split; [done|]; done).
      assert (Hq0 : (q.1 =? 0) = false) by (destruct Hok; apply Z.eqb_neq; lia). rewrite Hq0 /=.
      rewrite block_node //. iDestruct "Hc" as "(Hk & Hl & Hr & Hc)".
      iApply wp_bind. wp_store "Hs'". wp_store "Hk". wp_store "Hr". wp_store "Hl". wp_ret.
      iDestruct "HQ" as "[_ [_ HQ]]". iApply ("HQ" with "[//] Hi"). iDestruct "Hp" as "[_ Hp]". iApply ("Hp" with "Hs'").
      rewrite /node_own. by iFrame.
Qed.

(** *** Deleting *)

Lemma wp_delete_loop vkey t : forall fuel s p (g : G) Q, (height t <= fuel)%nat -> t <> Leaf ->
  link s t -∗
  match tree_delete compar vkey p t with
  | None => link s t -∗ Q None g
  | Some (d, pp, t') =>
      ∀ s' k l r, s' ↦ d.1 -∗ node_own d k (root l) (root r) -∗ tree_own l -∗ tree_own r -∗
        (link s' (tree_join l r) -∗ link s t') -∗ ⌜(height r <= fuel)%nat⌝ -∗ Q (Some (pp, s')) g
  end -∗
  wp (delete_loop compar fuel vkey p s) g Q.
Proof.
  induction t as [|b k l IHl r IHr]; intros [|fuel] s p g Q Hf Hne; try done; [cbn in Hf; lia|].
  iIntros "[Hs [(%Hok & Hk & Hl & Hr & Hc) [Htl Htr]]] HQ". cbn [delete_loop tree_delete root].
  wp_load "Hs". rewrite /key_of. wp_load "Hk".
  destruct (compar vkey k =? 0) eqn:E0; [|destruct (compar vkey k <? 0) eqn:E1].
  - wp_ret. iApply ("HQ" with "Hs [Hk Hl Hr Hc] Htl Htr"); [rewrite /node_own; by iFrame|by iIntros "$"|].
    iPureIntro. cbn in Hf. lia.
  - wp_load "Hl". iDestruct (tree_root with "Htl") as %Hroot. destruct l as [|lb lk ll lr].
    + cbn. wp_ret. iApply "HQ". rewrite /link /=. by iFrame.
    + rewrite Hroot. iApply (IHl with "[Hl Htl]"); [cbn in Hf |- *; lia|done|by iFrame|].
      destruct (tree_delete compar vkey b.1 _) as [[[d pp] t']|].
      * iIntros (s' k' l' r') "Hs' Hn Hl' Hr' Hw %Hh". iApply ("HQ" with "Hs' Hn Hl' Hr' [-]"); [|iPureIntro; lia].
        iIntros "Hj". iDestruct ("Hw" with "Hj") as "[Hl Ht']". rewrite /link /=. by iFrame.
      * iIntros "[Hl Htl]". iApply "HQ". rewrite /link /=. by iFrame.
  - wp_load "Hr". iDestruct (tree_root with "Htr") as %Hroot. destruct r as [|rb rk rl rr].
    + cbn. wp_ret. iApply "HQ". rewrite /link /=. by iFrame.
    + rewrite Hroot. iApply (IHr with "[Hr Htr]"); [cbn in Hf |- *; lia|done|by iFrame|].
      destruct (tree_delete compar vkey b.1 _) as [[[d pp] t']|].
      * iIntros (s' k' l' r') "Hs' Hn Hl' Hr' Hw %Hh". iApply ("HQ" with "Hs' Hn Hl' Hr' [-]"); [|iPureIntro; lia].
        iIntros "Hj". iDestruct ("Hw" with "Hj") as "[Hr Ht']". rewrite /link /=. by iFrame.
      * iIntros "[Hr Htr]". iApply "HQ". rewrite /link /=. by iFrame.
Qed.

(** Down the left links from [r0]: the node with no left link is the first one. *)
Lemma wp_successor_loop : forall fuel r0 b k l r (g : G) Q, (height (Node b k l r) <= fuel)%nat ->
  link (llink r0) (Node b k l r) -∗
  (∀ r' mr, let '((mb, mk), rest) := split_min b k l r in
     llink r' ↦ mb.1 -∗ node_own mb mk 0 (root mr) -∗ (llink r' ↦ root mr -∗ link (llink r0) rest) -∗ Q (r', mb.1) g) -∗
  wp (successor_loop fuel r0) g Q.
Proof.
  induction fuel as [|fuel IH]; intros r0 b k l r g Q Hf; [cbn in Hf; lia|].
  iIntros "[Hs [(%Hok & Hk & Hl & Hr & Hc) [Htl Htr]]] HQ". cbn [successor_loop root].
  wp_load "Hs". wp_load "Hl". iDestruct (tree_root with "Htl") as %Hroot. destruct l as [|b' k' l' r'].
  - cbn [root Z.eqb]. wp_ret. iApply ("HQ" $! r0 r with "Hs [Hk Hl Hr Hc]"); [rewrite /node_own; by iFrame|].
    iIntros "Hs". rewrite /link. by iFrame.
  - rewrite Hroot. iApply (IH with "[Hl Htl]"); [|by iFrame|]; [cbn in Hf |- *; lia|].
    iIntros (r1 mr). cbn [split_min]. destruct (split_min b' k' l' r') as [[mb mk] rest].
    iIntros "Hs1 Hn Hw". iApply ("HQ" with "Hs1 Hn"). iIntros "Hs1". iDestruct ("Hw" with "Hs1") as "[Hl Hrest]".
    rewrite /link /=. by iFrame.
Qed.

(** The node that takes the place of [b]. *)
Lemma wp_replacement fuel b k l r (g : G) Q : (height r <= fuel)%nat ->
  node_own b k (root l) (root r) -∗ tree_own l -∗ tree_own r -∗
  (node_own b k (root l) (root r) -∗ tree_own (tree_join l r) -∗ Q (root (tree_join l r)) g) -∗
  wp (replacement fuel b.1) g Q.
Proof.
  iIntros (Hf) "(%Hok & Hk & Hl & Hr & Hc) Htl Htr HQ". rewrite /replacement. wp_load "Hr". wp_load "Hl".
  iDestruct (tree_root with "Htl") as %Rl. iDestruct (tree_root with "Htr") as %Rr. rewrite Rl.
  destruct l as [|lb lk ll lr].
  { wp_ret. iApply ("HQ" with "[Hk Hl Hr Hc] Htr"). rewrite /node_own. by iFrame. }
  rewrite Rr. destruct r as [|rb rk rl rr].
  { wp_ret. iApply ("HQ" with "[Hk Hl Hr Hc] Htl"). rewrite /node_own. by iFrame. }
  cbn [tree_own root]. iDestruct "Htr" as "[(%Hokr & Hrk & Hrl & Hrr & Hrc) [Htrl Htrr]]".
  wp_load "Hrl". iDestruct (tree_root with "Htrl") as %Rrl. rewrite Rrl. destruct rl as [|b2 k2 l2 r2].
  - wp_store "Hrl". wp_ret. cbn. iApply ("HQ" with "[Hk Hl Hr Hc]"); rewrite /node_own; by iFrame.
  - iApply wp_bind. iApply (wp_successor_loop with "[Hrl Htrl]"); [|by iFrame|]; [cbn in Hf |- *; lia|].
    iIntros (r' mr). cbn [tree_join split_min]. destruct (split_min b2 k2 l2 r2) as [[mb mk] rest].
    iIntros "Hs (%Hokm & Hmk & Hml & Hmr & Hmc) Hw". wp_load "Hmr". wp_store "Hs". wp_load "Hl". wp_store "Hml".
    wp_load "Hr". wp_store "Hmr". wp_ret. iDestruct ("Hw" with "Hs") as "[Hrl Hrest]".
    iApply ("HQ" with "[Hk Hl Hr Hc]"); [rewrite /node_own; by iFrame|]. cbn. rewrite /node_own. by iFrame.
Qed.

Lemma wp_tdelete fuel vkey s t l (g : G) Q : s <> 0 -> (height t <= fuel)%nat ->
  (forall p d q t', tree_delete compar vkey p t = Some (d, q, t') -> blocks t ≡ₚ d :: blocks t') ->
  heap_inv (blocks t ++ l) g -∗ link s t -∗
  match tree_delete compar vkey (root t) t with
  | None => heap_inv (blocks t ++ l) g -∗ link s t -∗ Q 0 g
  | Some (d, p, t') => ∀ g', heap_inv (blocks t' ++ l) g' -∗ link s t' -∗ Q p g'
  end -∗
  wp (tdelete free compar fuel vkey s) g Q.
Proof.
  iIntros (Hs Hf Hperm) "Hi Ht HQ". rewrite /tdelete. replace (s =? 0) with false by (symmetry; by apply Z.eqb_neq).
  iDestruct "Ht" as "[Hs Ht]". wp_load "Hs". iDestruct (tree_root with "Ht") as %Hroot. rewrite Hroot.
  destruct t as [|b k lt rt]; [wp_ret; cbn; iApply ("HQ" with "Hi"); by iFrame|].
  specialize (Hperm (root (Node b k lt rt))). set (t := Node b k lt rt) in *.
  iApply wp_bind. iApply (wp_delete_loop with "[Hs Ht]"); [exact Hf|done|by iFrame|].
  destruct (tree_delete compar vkey (root t) t) as [[[d p] t']|] eqn:E.
  - iIntros (s' k' l' r') "Hs' Hn Hl' Hr' Hw %Hh". wp_load "Hs'". iApply wp_bind.
    iApply (wp_replacement with "Hn Hl' Hr'"); [done|]. iIntros "Hn Hj".
    iDestruct (heap_inv_perm _ (d :: blocks t' ++ l) with "Hi") as "Hi"; [by rewrite (Hperm d p t')|].
    iDestruct (node_block with "Hn") as "Hn". iApply wp_bind. iApply (free_spec with "Hi Hn"). iIntros (g') "Hi".
    wp_store "Hs'". wp_ret. iApply ("HQ" with "Hi"). iApply "Hw". rewrite /link. by iFrame.
  - iIntros "Ht". wp_ret. iApply ("HQ" with "Hi Ht").
Qed.

(** *** All nodes *)

Lemma wp_destroy fuel : forall t l (g : G) Q, (height t <= fuel)%nat ->
  heap_inv (blocks t ++ l) g -∗ tree_own t -∗
  (∀ g', heap_inv l g' -∗ Q (postorder_keys t) g') -∗ wp (tdestroy free fuel (root t)) g Q.
Proof.
  induction fuel as [|fuel IH]; iIntros (t l g Q Hf) "Hi Ht HQ"; rewrite /tdestroy;
    iDestruct (tree_root with "Ht") as %Hroot; rewrite Hroot; destruct t as [|b k lt rt];
    cbn [negb]; try (wp_ret; by iApply "HQ"); [cbn in Hf; lia|].
  cbn [destroy_recurse root]. iDestruct "Ht" as "[(%Hok & Hk & Hl & Hr & Hc) [Htl Htr]]".
  wp_load "Hl". iApply wp_bind. fold (tdestroy free fuel (root lt)).
  iDestruct (heap_inv_perm _ (blocks lt ++ blocks rt ++ b :: l) with "Hi") as "Hi".
  { rewrite /blocks /= fmap_app /=. rewrite -!app_assoc /=. apply Permutation_app_head. by rewrite Permutation_middle. }
  iApply (IH lt (blocks rt ++ b :: l) with "Hi Htl"); [cbn in Hf; lia|]. iIntros (g1) "Hi". wp_load "Hr".
  iApply wp_bind. fold (tdestroy free fuel (root rt)).
  iApply (IH rt (b :: l) with "Hi Htr"); [cbn in Hf; lia|]. iIntros (g2) "Hi". rewrite /key_of. wp_load "Hk".
  iDestruct (node_block b k (root lt) (root rt) with "[Hk Hl Hr Hc]") as "Hb"; [rewrite /node_own; by iFrame|].
  iApply wp_bind. iApply (free_spec with "Hi Hb"). iIntros (g3) "Hi". wp_ret. by iApply "HQ".
Qed.

Lemma wp_walk fuel : forall t level (g : G) Q, (height t <= fuel)%nat -> t <> Leaf ->
  tree_own t -∗ (tree_own t -∗ Q (visits t level) g) -∗ wp (walk_recurse fuel (root t) level) g Q.
Proof.
  induction fuel as [|fuel IH]; iIntros (t level g Q Hf Hne) "Ht HQ"; destruct t as [|b k l r]; try done; [cbn in Hf; lia|].
  cbn [walk_recurse root]. iDestruct "Ht" as "[(%Hok & Hk & Hl & Hr & Hc) [Htl Htr]]".
  iDestruct (tree_root with "Htl") as %Rl. iDestruct (tree_root with "Htr") as %Rr.
  wp_load "Hl". rewrite Rl. iApply wp_bind.
  iAssert (wp (if match l with Leaf => true | Node _ _ _ _ => false end then r0 ← load (rlink b.1); mret (r0 =? 0) else mret false) g
    (fun x g' => ⌜x = match l, r with Leaf, Leaf => true | _, _ => false end /\ g' = g⌝ ∗ rlink b.1 ↦ root r))%I with "[Hr]" as "Hw".
  { destruct l; [wp_load "Hr"; rewrite Rr|]; wp_ret; iFrame; by destruct r. }
  iApply (wp_wand with "Hw"). iIntros (x g') "[[-> ->] Hr]".
  assert (Hsub : forall u (lv : Z) Q', (height u <= fuel)%nat -> (root u =? 0) = match u with Leaf => true | Node _ _ _ _ => false end ->
    tree_own u -∗ (tree_own u -∗ Q' (visits u lv) g) -∗ wp (if negb (root u =? 0) then walk_recurse fuel (root u) lv else mret []) g Q').
  { iIntros (u lv Q' Hu Ru) "Hu HQ'". rewrite Ru. destruct u as [|ub uk ul ur]; [wp_ret; by iApply "HQ'"|].
    iApply (IH with "Hu HQ'"); done. }
  assert (Hlr : (height l <= fuel)%nat /\ (height r <= fuel)%nat) by (cbn in Hf; lia). destruct Hlr as [Hhl Hhr].
  destruct (match l, r with Leaf, Leaf => true | _, _ => false end) eqn:Eleaf.
  - destruct l, r; try done. wp_ret. iApply "HQ". cbn. rewrite /node_own. by iFrame.
  - wp_load "Hl". iApply wp_bind. iApply (Hsub with "Htl"); [done..|]. iIntros "Htl". wp_load "Hr".
    iApply wp_bind. iApply (Hsub with "Htr"); [done..|]. iIntros "Htr". wp_ret.
    replace (_ ++ _) with (visits (Node b k l r) level) by (by destruct l, r).
    iApply "HQ". cbn [tree_own]. rewrite /node_own. by iFrame.
Qed.
End Proofs.

(** ** Order *)

Section Order.
Context (compar : Z -> Z -> Z) `{!Comparator compar}.

Definition below (x y : Z * Z * Z) : Prop := compar x.2 y.2 < 0.
Definition ordered (ns : list (Z * Z * Z)) : Prop := StronglySorted below ns.
Definition addressed (t : tree) : Prop := Forall (fun n => n.1.1 <> 0) (nodes t).

Lemma cmp_lt_trans x y z : compar x y < 0 -> compar y z < 0 -> compar x z < 0.
Proof.
  intros H1 H2. assert (H3 : compar x z <= 0) by (apply (cmp_trans x y z); lia).
  destruct (decide (compar x z = 0)) as [E|]; [|lia].
  assert (H4 : compar z x <= 0). { destruct (Z.le_gt_cases (compar z x) 0) as [|H]; [done|]. apply cmp_flip in H. lia. }
  assert (H5 : compar y x <= 0) by (apply (cmp_trans y z x); lia). apply cmp_flip in H1. lia.
Qed.

Lemma cmp_eq_lt x y z : compar x y = 0 -> compar y z < 0 -> compar x z < 0.
Proof.
  intros E H2. assert (H3 : compar x z <= 0) by (apply (cmp_trans x y z); lia).
  destruct (decide (compar x z = 0)) as [E2|]; [|lia].
  assert (H4 : compar z x <= 0). { destruct (Z.le_gt_cases (compar z x) 0) as [|H]; [done|]. apply cmp_flip in H. lia. }
  assert (H5 : compar z y <= 0) by (apply (cmp_trans z x y); lia). apply cmp_flip in H2. lia.
Qed.

Lemma ordered_app l x r : ordered (l ++ x :: r) <->
  ordered l /\ ordered r /\ Forall (fun y => below y x) l /\ Forall (below x) r /\ Forall (fun y => Forall (below y) r) l.
Proof.
  unfold ordered. rewrite StronglySorted_app StronglySorted_cons. setoid_rewrite Forall_forall.
  setoid_rewrite elem_of_cons. split.
  - intros (Hc & Hl & Hr1 & Hr2). split; [done|]. split; [done|]. split; [intros y Hy; apply Hc; tauto|]. split; [done|].
    intros y Hy. apply Forall_forall. intros z Hz. apply Hc; tauto.
  - intros (Hl & Hr & H1 & H2 & H3). split; [|done]. intros y z Hy [->|Hz]; [by apply H1|].
    specialize (H3 y Hy). rewrite Forall_forall in H3. by apply H3.
Qed.

Lemma ordered_node b k l r : ordered (nodes (Node b k l r)) ->
  ordered (nodes l) /\ ordered (nodes r) /\ Forall (fun y => compar y.2 k < 0) (nodes l) /\ Forall (fun y => compar k y.2 < 0) (nodes r).
Proof. cbn [nodes]. rewrite ordered_app. intros (? & ? & ? & ? & _). done. Qed.

(** *** Searching *)

Lemma tree_find_spec vkey t : ordered (nodes t) -> addressed t ->
  (tree_find compar vkey t <> 0 -> exists b k, (b, k) ∈ nodes t /\ compar vkey k = 0 /\ tree_find compar vkey t = b.1) /\
  (tree_find compar vkey t = 0 -> forall b k, (b, k) ∈ nodes t -> compar vkey k <> 0).
Proof.
  induction t as [|b k l IHl r IHr]; intros Ho Ha.
  - split; [done|]. intros _ b k Hin. by apply elem_of_nil in Hin.
  - apply ordered_node in Ho as (Hol & Hor & Hl & Hr). unfold addressed in Ha. cbn [nodes] in Ha.
    apply Forall_app in Ha as [Hal [Hab Har]%Forall_cons]. rewrite -> Forall_forall in Hl, Hr.
    cbn [tree_find nodes]. setoid_rewrite elem_of_app. setoid_rewrite elem_of_cons.
    destruct (compar vkey k =? 0) eqn:E0; [|destruct (compar vkey k <? 0) eqn:E1]; zbool.
    + split; [|done]. intros _. exists b, k. tauto.
    + destruct (IHl Hol Hal) as [F1 F2]. split.
      * intros Hne. destruct (F1 Hne) as (b' & k' & Hin & ?). exists b', k'. tauto.
      * intros He b' k' [Hin|[[= -> ->]|Hin]]; [by eapply F2|done|]. specialize (Hr _ Hin). cbn in Hr.
        pose proof (cmp_lt_trans _ _ _ E1 Hr). lia.
    + assert (Hgt : compar k vkey < 0) by (apply cmp_flip; lia). destruct (IHr Hor Har) as [F1 F2]. split.
      * intros Hne. destruct (F1 Hne) as (b' & k' & Hin & ?). exists b', k'. tauto.
      * intros He b' k' [Hin|[[= -> ->]|Hin]]; [|done|by eapply F2]. specialize (Hl _ Hin). cbn in Hl.
        pose proof (cmp_lt_trans _ _ _ Hl Hgt) as H. apply cmp_flip in H. lia.
Qed.

(** A new key goes where the order wants it. *)
Lemma tree_insert_spec vkey q t : ordered (nodes t) -> (forall b k, (b, k) ∈ nodes t -> compar vkey k <> 0) ->
  exists n1 n2, nodes t = n1 ++ n2 /\ nodes (tree_insert compar vkey q t) = n1 ++ (q, vkey) :: n2 /\
    Forall (fun y => compar y.2 vkey < 0) n1 /\ Forall (fun y => compar vkey y.2 < 0) n2.
Proof.
  induction t as [|b k l IHl r IHr]; intros Ho Hne.
  - exists [], []. repeat split; constructor.
  - apply ordered_node in Ho as (Hol & Hor & Hl & Hr). cbn [nodes] in Hne.
    setoid_rewrite elem_of_app in Hne. setoid_rewrite elem_of_cons in Hne.
    assert (Hk : compar vkey k <> 0) by (apply (Hne b k); tauto). cbn [tree_insert].
    replace (compar vkey k =? 0) with false by (symmetry; by apply Z.eqb_neq). cbn [nodes].
    destruct (compar vkey k <? 0) eqn:E1; zbool.
    + destruct IHl as (n1 & n2 & E & Ei & F1 & F2); [done|intros b' k' Hin; apply (Hne b' k'); tauto|].
      exists n1, (n2 ++ (b, k) :: nodes r). cbn [nodes]. rewrite E Ei -!app_assoc. split; [done|]. split; [done|]. split; [done|].
      apply Forall_app. split; [done|]. constructor; [done|]. eapply Forall_impl; [exact Hr|]. intros y Hy. exact (cmp_lt_trans _ _ _ E1 Hy).
    + destruct IHr as (n1 & n2 & E & Ei & F1 & F2); [done|intros b' k' Hin; apply (Hne b' k'); tauto|].
      assert (Hgt : compar k vkey < 0) by (apply cmp_flip; lia).
      exists (nodes l ++ (b, k) :: n1), n2. cbn [nodes]. rewrite E Ei -!app_assoc. split; [done|]. split; [done|]. split; [|done].
      apply Forall_app. split; [|constructor; done]. eapply Forall_impl; [exact Hl|]. intros y Hy. exact (cmp_lt_trans _ _ _ Hy Hgt).
Qed.

Lemma ordered_sub n1 n2 : ordered (n1 ++ n2) <-> ordered n1 /\ ordered n2 /\ Forall (fun y => Forall (below y) n2) n1.
Proof.
  unfold ordered. rewrite StronglySorted_app. setoid_rewrite Forall_forall. split.
  - intros (Hc & ? & ?). split; [done|]. split; [done|]. intros y Hy. apply Forall_forall. intros z Hz. by apply Hc.
  - intros (? & ? & H). split; [|done]. intros y z Hy Hz. specialize (H y Hy). rewrite Forall_forall in H. by apply H.
Qed.

Lemma ordered_insert n1 q vkey n2 : ordered (n1 ++ n2) -> Forall (fun y => compar y.2 vkey < 0) n1 ->
  Forall (fun y => compar vkey y.2 < 0) n2 -> ordered (n1 ++ (q, vkey) :: n2).
Proof. intros (H1 & H2 & H3)%ordered_sub F1 F2. by apply ordered_app. Qed.

Lemma ordered_delete n1 x n2 : ordered (n1 ++ x :: n2) -> ordered (n1 ++ n2).
Proof. intros (H1 & H2 & _ & _ & H3)%ordered_app. by apply ordered_sub. Qed.

(** *** Deleting *)

Lemma split_min_nodes l : forall b k r m rest, split_min b k l r = (m, rest) -> nodes (Node b k l r) = m :: nodes rest.
Proof.
  induction l as [|b' k' l' IHl r' _]; intros b k r m rest H; cbn [split_min] in H.
  - by injection H as <- <-.
  - destruct (split_min b' k' l' r') as [m' rest'] eqn:E. injection H as <- <-.
    cbn [nodes] in *. by rewrite (IHl _ _ _ _ _ E).
Qed.

Lemma tree_join_nodes l r : nodes (tree_join l r) = nodes l ++ nodes r.
Proof.
  destruct l as [|lb lk ll lr]; [done|]. destruct r as [|rb rk rl rr]; [by rewrite app_nil_r|].
  cbn [tree_join]. destruct (split_min rb rk rl rr) as [[mb mk] rest] eqn:E. by rewrite (split_min_nodes _ _ _ _ _ _ E).
Qed.

Lemma tree_delete_spec vkey t : forall p d q t', tree_delete compar vkey p t = Some (d, q, t') ->
  exists n1 k n2, nodes t = n1 ++ (d, k) :: n2 /\ nodes t' = n1 ++ n2 /\ compar vkey k = 0 /\ (q = p \/ exists n, n ∈ nodes t /\ q = n.1.1).
Proof.
  induction t as [|b k l IHl r IHr]; intros p d q t' H; cbn [tree_delete] in H; [done|].
  destruct (compar vkey k =? 0) eqn:E0; [|destruct (compar vkey k <? 0) eqn:E1]; zbool.
  - injection H as <- <- <-. exists (nodes l), k, (nodes r). rewrite tree_join_nodes. split; [done|]. split; [done|]. split; [done|]. by left.
  - destruct (tree_delete compar vkey b.1 l) as [[[d' q'] l']|] eqn:E; [|done]. injection H as <- <- <-.
    destruct (IHl _ _ _ _ E) as (n1 & k' & n2 & En & En' & Hk & Hq). exists n1, k', (n2 ++ (b, k) :: nodes r).
    cbn [nodes]. split; [by rewrite En -!app_assoc|]. split; [by rewrite En' -!app_assoc|]. split; [done|]. right.
    setoid_rewrite elem_of_app. setoid_rewrite elem_of_cons.
    destruct Hq as [->|(n & Hn & ->)]; [exists (b, k)|exists n]; (split; [tauto|done]).
  - destruct (tree_delete compar vkey b.1 r) as [[[d' q'] r']|] eqn:E; [|done]. injection H as <- <- <-.
    destruct (IHr _ _ _ _ E) as (n1 & k' & n2 & En & En' & Hk & Hq). exists (nodes l ++ (b, k) :: n1), k', n2.
    cbn [nodes]. split; [by rewrite En -!app_assoc|]. split; [by rewrite En' -!app_assoc|]. split; [done|]. right.
    setoid_rewrite elem_of_app. setoid_rewrite elem_of_cons.
    destruct Hq as [->|(n & Hn & ->)]; [exists (b, k)|exists n]; (split; [tauto|done]).
Qed.

Lemma tree_delete_none vkey t : ordered (nodes t) -> forall p, tree_delete compar vkey p t = None ->
  forall b k, (b, k) ∈ nodes t -> compar vkey k <> 0.
Proof.
  induction t as [|b k l IHl r IHr]; intros Ho p H b' k' Hin; [by apply elem_of_nil in Hin|].
  apply ordered_node in Ho as (Hol & Hor & Hl & Hr). rewrite -> Forall_forall in Hl, Hr. cbn [tree_delete nodes] in *.
  apply elem_of_app in Hin. rewrite elem_of_cons in Hin.
  destruct (compar vkey k =? 0) eqn:E0; [done|]. destruct (compar vkey k <? 0) eqn:E1; zbool.
  - destruct (tree_delete compar vkey b.1 l) as [[[d' q'] l']|] eqn:E; [done|].
    destruct Hin as [Hin|[[= -> ->]|Hin]]; [by eapply IHl|done|]. specialize (Hr _ Hin). cbn in Hr.
    pose proof (cmp_lt_trans _ _ _ E1 Hr). lia.
  - destruct (tree_delete compar vkey b.1 r) as [[[d' q'] r']|] eqn:E; [done|].
    assert (Hgt : compar k vkey < 0) by (apply cmp_flip; lia).
    destruct Hin as [Hin|[[= -> ->]|Hin]]; [|done|by eapply IHr]. specialize (Hl _ Hin). cbn in Hl.
    pose proof (cmp_lt_trans _ _ _ Hl Hgt) as Hlt. apply cmp_flip in Hlt. lia.
Qed.
End Order.


(** ** The table a tree is *)

(** The abstract table is the list of its nodes in order, each with its block and
    its key.  [represents s R l ns w]: in the state [w] the tree at the link [s] has
    the nodes [ns]; [l] are the other blocks that are out and [R] is the rest of
    the memory. *)
Section Table.
Context {G : Type} {malloc : Z -> M (wheap * G) Z} {free : Z -> M (wheap * G) unit} {limit : Z}.
Context `{!Allocator malloc free limit} (Hlimit : sizeof_node <= limit).
Context (compar : Z -> Z -> Z) `{!Comparator compar}.

Definition represents (s : Z) (R : hprop) (l : list (Z * Z)) (ns : list (Z * Z * Z)) (w : wheap * G) : Prop :=
  ordered compar ns /\ exists t, nodes t = ns /\ (heap_inv (blocks t ++ l) w.2 ∗ link s t ∗ R)%I w.1.

Inductive table_op : Type := Search (vkey : Z) | Find (vkey : Z) | Delete (vkey : Z).

Definition run_op (fuel : nat) (s : Z) (o : table_op) : M (wheap * G) Z :=
  match o with
  | Search vkey => tsearch malloc compar fuel vkey s
  | Find vkey => tfind compar fuel vkey s
  | Delete vkey => tdelete free compar fuel vkey s
  end.

Definition absent (vkey : Z) (ns : list (Z * Z * Z)) : Prop := forall b k, (b, k) ∈ ns -> compar vkey k <> 0.
Definition finds (vkey : Z) (ns : list (Z * Z * Z)) (r : Z) : Prop :=
  (exists b k, (b, k) ∈ ns /\ compar vkey k = 0 /\ r = b.1 /\ r <> 0) \/ (absent vkey ns /\ r = 0).

(** What an operation may do to the table.  Search leaves a table without the key
    as it is only when there is no memory, and then returns the null pointer. *)
Definition op_spec (o : table_op) (ns : list (Z * Z * Z)) (r : Z) (ns' : list (Z * Z * Z)) : Prop :=
  match o with
  | Find vkey => finds vkey ns r /\ ns' = ns
  | Search vkey =>
      (finds vkey ns r /\ ns' = ns) \/
      (absent vkey ns /\ exists q n1 n2, node_ok q /\ r = q.1 /\ ns = n1 ++ n2 /\ ns' = n1 ++ (q, vkey) :: n2)
  | Delete vkey =>
      (absent vkey ns /\ r = 0 /\ ns' = ns) \/
      (exists n1 d k n2, compar vkey k = 0 /\ ns = n1 ++ (d, k) :: n2 /\ ns' = n1 ++ n2 /\ r ∈ (ns.*1).*1)
  end.

Lemma height_length t : (height t <= length (nodes t))%nat.
Proof. induction t as [|b k l IHl r IHr]; [done|]. cbn. rewrite length_app /=. lia. Qed.

Lemma tree_addressed t : tree_own t ⊢ ⌜addressed t⌝.
Proof.
  unfold addressed. induction t as [|b k l IHl r IHr]; cbn; [by iIntros "_"|].
  rewrite IHl IHr. iIntros "[(%Hok & _) [%Hl %Hr]]". iPureIntro. apply Forall_app. split; [done|]. constructor; [|done].
  destruct Hok. cbn. lia.
Qed.

Lemma find_finds vkey t : ordered compar (nodes t) -> addressed t -> finds vkey (nodes t) (tree_find compar vkey t).
Proof.
  intros Ho Ha. destruct (tree_find_spec compar vkey t Ho Ha) as [H1 H2].
  destruct (decide (tree_find compar vkey t = 0)) as [E|E]; [right; split; [exact (H2 E)|done]|left].
  destruct (H1 E) as (b & k & ? & ? & Er). exists b, k. by rewrite Er in E |- *.
Qed.

(** Every operation, on the tree. *)
Lemma wp_op fuel s o t l (g : G) : s <> 0 -> (height t < fuel)%nat -> ordered compar (nodes t) ->
  heap_inv (blocks t ++ l) g ∗ link s t ⊢
  wp (run_op fuel s o) g (fun r g' => ∃ t', ⌜op_spec o (nodes t) r (nodes t') /\ ordered compar (nodes t')⌝ ∗
    heap_inv (blocks t' ++ l) g' ∗ link s t').
Proof.
  iIntros (Hs Hf Ho) "[Hi [Hs Ht]]". iDestruct (tree_addressed with "Ht") as %Ha.
  iAssert (link s t) with "[$Hs $Ht]" as "Ht". pose proof (fun v => find_finds v t Ho Ha) as Hfind.
  destruct o as [vkey|vkey|vkey]; cbn [run_op op_spec].
  - iApply (wp_tsearch with "Hi Ht"); [done..|]. repeat iSplit.
    + iIntros "_ Hi Ht". iExists t. iFrame. iPureIntro. split; [|done]. by left.
    + iIntros (g' He) "Hi Ht". iExists t. iFrame. iPureIntro. split; [|done]. left. split; [|done]. by rewrite -He.
    + iIntros (q g' [He Hq]) "Hi Ht". specialize (Hfind vkey).
      assert (Hab : absent vkey (nodes t)) by (destruct Hfind as [(? & ? & _ & _ & _ & ?)|[? _]]; done).
      destruct (tree_insert_spec compar vkey q t Ho Hab) as (n1 & n2 & En & Ei & F1 & F2).
      iExists (tree_insert compar vkey q t). iFrame "Ht". iSplit.
      * iPureIntro. rewrite Ei. split; [|apply ordered_insert; [by rewrite -En|done..]].
        right. split; [done|]. by exists q, n1, n2.
      * iApply (heap_inv_perm with "Hi"). rewrite /blocks Ei En !fmap_app /=. by rewrite -!app_assoc /= -Permutation_middle.
  - iApply (wp_tfind with "Ht"); [done..|]. iIntros "Ht". iExists t. by iFrame.
  - iApply (wp_tdelete with "Hi Ht"); [done|lia| |].
    { intros p d q t' E. destruct (tree_delete_spec compar vkey t p d q t' E) as (n1 & k & n2 & En & En' & _).
      rewrite /blocks En En' !fmap_app /=. by rewrite -Permutation_middle. }
    destruct (tree_delete compar vkey (root t) t) as [[[d p] t']|] eqn:E.
    + iIntros (g') "Hi Ht". iExists t'. iFrame. iPureIntro.
      destruct (tree_delete_spec compar vkey t _ d p t' E) as (n1 & k & n2 & En & En' & Hk & Hp). rewrite En'.
      split; [|by rewrite En in Ho; apply ordered_delete in Ho]. right. exists n1, d, k, n2. split; [done|]. split; [done|]. split; [done|].
      rewrite -list_fmap_compose. apply list_elem_of_fmap. destruct Hp as [->|(n & Hn & ->)]; [|by exists n].
      destruct t as [|b' k' l' r']; [done|]. exists (b', k'). split; [done|]. cbn. apply elem_of_app. right. by left.
    + iIntros "Hi Ht". iExists t. iFrame. iPureIntro. split; [|done]. left. split; [|done].
      intros b k. by eapply tree_delete_none.
Qed.

Lemma op_refines fuel s R l ns o w : s <> 0 -> (length ns < fuel)%nat ->
  represents s R l ns w ->
  exists r ns' w', run_op fuel s o w = Ok (r, w') /\ op_spec o ns r ns' /\ represents s R l ns' w'.
Proof.
  intros Hs Hf (Ho & t & <- & Hh). destruct w as [h g]. cbn in Hh.
  pose proof (height_length t).
  destruct (wp_run _ R _ _ _ h (wp_op fuel s o t l g Hs ltac:(lia) Ho))
    as (r & g' & h1 & h2 & h1' & -> & Hd & HR & E & Hd' & [t' [[Hop Ho'] HQ]%sep_pure_l]).
  { eapply entails_at; [|exact Hh]. iIntros "($ & $ & $)". }
  exists r, (nodes t'), (h1' ∪ h2, g'). split; [done|]. split; [done|]. split; [done|]. exists t'. split; [done|]. cbn.
  eapply entails_at; [|exact (sep_intro _ _ _ _ HQ HR Hd')]. iIntros "[[$ $] $]".
Qed.

(** A program's operations on the table, one after the other. *)
Fixpoint run_ops (fuel : nat) (s : Z) (os : list table_op) : M (wheap * G) (list Z) :=
  match os with
  | [] => mret []
  | o :: os => r ← run_op fuel s o; rs ← run_ops fuel s os; mret (r :: rs)
  end.

Inductive ops_spec : list table_op -> list (Z * Z * Z) -> list Z -> list (Z * Z * Z) -> Prop :=
| ops_nil ns : ops_spec [] ns [] ns
| ops_cons o os ns r ns1 rs ns2 : op_spec o ns r ns1 -> ops_spec os ns1 rs ns2 -> ops_spec (o :: os) ns (r :: rs) ns2.

Lemma op_spec_length o ns r ns' : op_spec o ns r ns' -> (length ns' <= S (length ns))%nat.
Proof.
  destruct o; cbn.
  - intros [[_ ->]|(_ & q & n1 & n2 & _ & _ & -> & ->)]; [lia|]. rewrite !length_app /=. lia.
  - intros [_ ->]. lia.
  - intros [(_ & _ & ->)|(n1 & d & k & n2 & _ & -> & -> & _)]; [lia|]. rewrite !length_app /=. lia.
Qed.

Lemma ops_spec_length os ns rs ns' : ops_spec os ns rs ns' -> (length ns' <= length ns + length os)%nat.
Proof. induction 1 as [|o os ns r ns1 rs ns2 H _ IH]; cbn; [lia|]. apply op_spec_length in H. lia. Qed.

Lemma ops_refine fuel s R l ns os w : s <> 0 -> (length ns + length os <= fuel)%nat ->
  represents s R l ns w ->
  exists rs ns' w', run_ops fuel s os w = Ok (rs, w') /\ ops_spec os ns rs ns' /\ represents s R l ns' w'.
Proof.
  intros Hs. revert ns w. induction os as [|o os IH]; cbn; intros ns w Hf Hw.
  - exists [], ns, w. split; [done|]. split; [constructor|done].
  - destruct (op_refines fuel s R l ns o w Hs ltac:(lia) Hw) as (r & ns1 & w1 & E1 & Hop & Hw1).
    pose proof (op_spec_length _ _ _ _ Hop).
    destruct (IH ns1 w1 ltac:(lia) Hw1) as (rs & ns2 & w2 & E2 & Hops & Hw2).
    exists (r :: rs), ns2, w2. split; [cbv [mbind M_bind]; by rewrite E1 E2|]. split; [by econstructor|done].
Qed.


(** *** Traversals *)

(** The nodes of the calls of a kind; a leaf has one call, that counts as each kind. *)
Definition visited (kind : VISIT) (vs : list (Z * VISIT * Z)) : list Z :=
  omap (fun '(p, v, _) => match v, kind with
    | leaf, _ | preorder, preorder | postorder, postorder | endorder, endorder => Some p
    | _, _ => None end) vs.

Lemma visited_app kind vs1 vs2 : visited kind (vs1 ++ vs2) = visited kind vs1 ++ visited kind vs2.
Proof. apply omap_app. Qed.

Lemma visits_inner b k l r level : ~ (l = Leaf /\ r = Leaf) -> visits (Node b k l r) level =
  [(b.1, preorder, level)] ++ visits l (level + 1) ++ [(b.1, postorder, level)] ++ visits r (level + 1) ++ [(b.1, endorder, level)].
Proof. intros H. destruct l, r; try done. by destruct H. Qed.

(** The calls between those of the subtrees come in the order of the keys. *)
Lemma visits_inorder t : forall level, visited postorder (visits t level) = ((nodes t).*1).*1.
Proof.
  induction t as [|b k l IHl r IHr]; intros level; [done|].
  assert (D : (l = Leaf /\ r = Leaf) \/ ~ (l = Leaf /\ r = Leaf)) by (destruct l, r; (by left) || (right; by intros [??])).
  destruct D as [[-> ->]|D]; [done|]. rewrite visits_inner // !visited_app IHl IHr /= !fmap_app /=. by rewrite app_nil_r.
Qed.

(** Every node has its calls of each kind. *)
Lemma visits_all kind t : kind <> leaf -> forall level, visited kind (visits t level) ≡ₚ ((nodes t).*1).*1.
Proof.
  intros Hk. induction t as [|b k l IHl r IHr]; intros level; [done|].
  assert (D : (l = Leaf /\ r = Leaf) \/ ~ (l = Leaf /\ r = Leaf)) by (destruct l, r; (by left) || (right; by intros [??])).
  destruct D as [[-> ->]|D]; [done|]. rewrite visits_inner // !visited_app IHl IHr /= !fmap_app /=.
  destruct kind; try done; cbn; rewrite ?app_nil_r; [by rewrite Permutation_middle|done|].
  apply Permutation_app_head. by rewrite -Permutation_cons_append.
Qed.

Lemma postorder_keys_all t : postorder_keys t ≡ₚ (nodes t).*2.
Proof.
  induction t as [|b k l IHl r IHr]; [done|]. cbn. rewrite fmap_app IHl IHr /=. apply Permutation_app_head.
  by rewrite -Permutation_cons_append.
Qed.

Lemma wp_walk_inv fuel s R l t (h : wheap) (g : G) : (length (nodes t) <= fuel)%nat -> ordered compar (nodes t) ->
  (heap_inv (blocks t ++ l) g ∗ link s t ∗ R)%I h ->
  exists w', twalk fuel (root t) true (h, g) = Ok (visits t 0, w') /\ represents s R l (nodes t) w'.
Proof.
  intros Hf Ho Hh. pose proof (height_length t).
  destruct (wp_run (tree_own t) (heap_inv (blocks t ++ l) g ∗ s ↦ root t ∗ R)%I (twalk fuel (root t) true) g
    (fun vs g' => ⌜vs = visits t 0 /\ g' = g⌝ ∗ tree_own t)%I h)
    as (vs & g' & h1 & h2 & h1' & -> & Hd & HR & E & Hd' & [[-> ->] HQ]%sep_pure_l).
  - iIntros "Ht". iDestruct (tree_root with "Ht") as %Hroot. rewrite /twalk Hroot. destruct t as [|b k lt rt]; [wp_ret; by iFrame|].
    iApply (wp_walk with "Ht"); [lia|done|]. iIntros "Ht". by iFrame.
  - eapply entails_at; [|exact Hh]. iIntros "($ & [$ $] & $)".
  - eexists. split; [exact E|]. split; [done|]. exists t. split; [done|]. cbn.
    eapply entails_at; [|exact (sep_intro _ _ _ _ HQ HR Hd')]. iIntros "($ & $ & $ & $)".
Qed.

(** Twalk calls the action on the nodes in the order of their keys, with
    preorder, postorder and endorder calls for every node but one call for a leaf, and
    leaves the tree as it is; tdestroy calls the action on every key once and
    gives all the memory of the tree back. *)
Theorem search_tree_traversals fuel s R l ns w r : (length ns <= fuel)%nat ->
  represents s R l ns w -> w.1 !! s = Some r ->
  (exists vs w', twalk fuel r true w = Ok (vs, w') /\ represents s R l ns w' /\
     visited postorder vs = (ns.*1).*1 /\ visited preorder vs ≡ₚ (ns.*1).*1 /\ visited endorder vs ≡ₚ (ns.*1).*1) /\
  (exists ks w', tdestroy free fuel r w = Ok (ks, w') /\ ks ≡ₚ ns.*2 /\ (heap_inv l w'.2 ∗ R)%I w'.1).
Proof.
  intros Hf (Ho & t & <- & Hh) Hr. destruct w as [h g]. cbn in Hh, Hr. pose proof (height_length t).
  assert (E : h !! s = Some (root t)) by (eapply (entails_at _ (s ↦ root t)%I); [|exact Hh]; iIntros "(_ & [$ _] & _)").
  rewrite E in Hr. injection Hr as <-. split.
  - destruct (wp_walk_inv fuel s R l t h g Hf Ho Hh) as (w' & Ew & Hw'). exists (visits t 0), w'.
    split; [done|]. split; [done|]. rewrite visits_inorder !visits_all //.
  - destruct (wp_run (heap_inv (blocks t ++ l) g ∗ tree_own t)%I R (tdestroy free fuel (root t)) g
      (fun ks g' => ⌜ks = postorder_keys t⌝ ∗ heap_inv l g')%I h)
      as (ks & g' & h1 & h2 & h1' & -> & Hd & HR & Ed & Hd' & [-> HQ]%sep_pure_l).
    + iIntros "[Hi Ht]". iApply (wp_destroy with "Hi Ht"); [lia|]. iIntros (g') "Hi". by iFrame.
    + eapply entails_at; [|exact Hh]. iIntros "($ & [_ $] & $)".
    + eexists _, _. split; [exact Ed|]. split; [apply postorder_keys_all|]. cbn. exact (sep_intro _ _ _ _ HQ HR Hd').
Qed.

(** A program that holds a block of at least a word has an empty table there once
    it has cleared the word. *)
Lemma table_start h g s n bl : world_ok (h, g, (s, n) :: bl) -> 8 <= n ->
  exists h' R l, store s 0 (h, g) = Ok (tt, (h', g)) /\ represents s R l [] (h', g) /\ s <> 0 /\
    (forall h2 g2, (heap_inv l g2 ∗ s ↦- ∗ R)%I h2 -> world_ok (h2, g2, (s, n) :: bl)).
Proof.
  intros (bs & Hl & Hh) Hn. cbn in Hl, Hh. apply Forall2_cons_inv_l in Hl as (b & bs' & [E Hok] & Hl & ->). cbn in E, Hok. subst s.
  assert (Hc : block_cells b ⊣⊢ b.1 ↦- ∗ cells (b.1 + 8) (b.1 + b.2)).
  { rewrite /block_cells cells_cons //. destruct Hok as (_ & _ & ? & _). lia. }
  set (R := (cells (b.1 + 8) (b.1 + b.2) ∗ blocks_own bs')%I : hprop).
  destruct (wp_run (heap_inv (b :: bs') g ∗ b.1 ↦-)%I R (store b.1 0) g (fun _ g' => ⌜g' = g⌝ ∗ heap_inv (b :: bs') g ∗ b.1 ↦ 0)%I h)
    as ([] & g' & h1 & h2 & h1' & -> & Hd & HR & Es & Hd' & [-> HQ]%sep_pure_l).
  - iIntros "[Hi Hb]". iApply (wp_store_any with "Hb"). iIntros "$". by iFrame.
  - eapply entails_at; [|exact Hh]. rewrite /blocks_own /= Hc /R. iIntros "($ & [$ $] & $)".
  - exists (h1' ∪ h2), R, (b :: bs'). split; [exact Es|]. split; [|split].
    + split; [constructor|]. exists Leaf. split; [done|]. cbn. eapply entails_at; [|exact (sep_intro _ _ _ _ HQ HR Hd')].
      rewrite /link /=. iIntros "[[$ $] $]".
    + destruct Hok. lia.
    + intros h3 g3 H3. exists (b :: bs'). split; [by constructor|]. cbn. eapply entails_at; [|exact H3].
      rewrite /blocks_own /= Hc /R. iIntros "($ & $ & $ & $)".
Qed.
End Table.

(** ** A table in a small heap *)

Section Demo.
#[local] Instance demo_allocator : Allocator (Malloc.malloc (X := unit) demo_av demo_fuel) (Malloc.free demo_av demo_fuel) max_request :=
  mallocr_allocator demo_av demo_fuel (first_chunk demo_start) demo_fuel_ok.

(** A block of one word for the link; five, three and nine are added, five is looked
    up, removed and looked up again. *)
Definition demo_link : Z := demo_start + 24.
Definition demo_block := after (Malloc.malloc demo_av demo_fuel 8) (boot_heap demo_av demo_start, demo_vars).
Definition demo_empty := after (store demo_link 0) (demo_block.1, demo_block.2).
Definition demo_ops : list table_op := [Search 5; Search 3; Search 9; Find 5; Delete 5; Find 5].
Definition demo_table_ops := run_ops (malloc := Malloc.malloc (X := unit) demo_av demo_fuel) (free := Malloc.free demo_av demo_fuel) Z.sub 9 demo_link.
Definition demo_results : list Z := (fun x => demo_start + x) <$> [56; 88; 120; 56; 56; - demo_start].

Definition demo_full := after (demo_table_ops demo_ops) (demo_empty.1, demo_empty.2).

Lemma demo_block_run : Malloc.malloc demo_av demo_fuel 8 (boot_heap demo_av demo_start, demo_vars) = Ok (demo_link, (demo_block.1, demo_block.2)).
Proof.
  unfold demo_block. assert (E : result (Malloc.malloc demo_av demo_fuel 8) (boot_heap demo_av demo_start, demo_vars) = Some demo_link) by (vm_compute; reflexivity).
  exact (after_run _ _ _ E).
Qed.
Lemma demo_table_run : demo_table_ops demo_ops (demo_empty.1, demo_empty.2) = Ok (demo_results, (demo_full.1, demo_full.2)).
Proof.
  unfold demo_full. assert (E : result (demo_table_ops demo_ops) (demo_empty.1, demo_empty.2) = Some demo_results) by (vm_compute; reflexivity).
  exact (after_run _ _ _ E).
Qed.

Lemma after_is {A} (c : M (wheap * @mvars unit) A) s a h g : c s = Ok (a, (h, g)) -> (h, g) = ((after c s).1, (after c s).2).
Proof. rewrite /after. by intros ->. Qed.

Lemma result_ok {A} (c : M (wheap * @mvars unit) A) s a w : c s = Ok (a, w) -> forall b, result c s = Some b -> b = a.
Proof. rewrite /result. intros -> b [= ->]. done. Qed.

Lemma demo_table_start : exists R l, represents Z.sub demo_link R l [] (demo_empty.1, demo_empty.2).
Proof.
  destruct (first_run demo_av demo_fuel demo_fuel_ok _ _ 8 demo_boots (small_request 8 ltac:(lia))) as (mem & h & g & E & _ & Hok).
  { vm_compute. intros [=]. }
  destruct (same_run _ _ _ _ _ _ _ _ demo_block_run E) as (<- & <- & <-).
  destruct (table_start Z.sub _ _ _ _ _ Hok) as (h' & R & l & Es & Hr & _); [lia|]. exists R, l.
  unfold demo_empty. pose proof (after_is _ _ _ _ _ Es) as E'. revert E'. generalize (after (store demo_link 0) (demo_block.1, demo_block.2)).
  intros w <-. exact Hr.
Qed.

Lemma sizeof_node_fits : sizeof_node <= max_request.
Proof. rewrite /sizeof_node /max_request. lia. Qed.


(** Two nodes are left, the later one at the root. *)
Definition demo_root : Z := demo_start + 120.
Definition demo_walked : list (Z * VISIT * Z) :=
  [(demo_root, preorder, 0); (demo_start + 88, leaf, 1); (demo_root, postorder, 0); (demo_root, endorder, 0)].

Lemma demo_walk_run : result (twalk 9 demo_root true) (demo_full.1, demo_full.2) = Some demo_walked.
Proof. vm_compute. reflexivity. Qed.

Lemma demo_full_root : (demo_full.1, demo_full.2).1 !! demo_link = Some demo_root.
Proof. vm_compute. reflexivity. Qed.

Lemma demo_full_table : exists R l ns, (length ns <= 6)%nat /\ represents Z.sub demo_link R l ns (demo_full.1, demo_full.2).
Proof.
  destruct demo_table_start as (R & l & Hr).
  destruct (ops_refine sizeof_node_fits Z.sub 9 demo_link R l [] demo_ops _ ltac:(done) ltac:(cbn; lia) Hr)
    as (rs & ns & [h g] & E & Hs & Hw).
  destruct (same_run _ _ _ _ _ _ _ _ demo_table_run E) as (<- & <- & <-). exists R, l, ns. split; [|exact Hw].
  apply ops_spec_length in Hs. exact Hs.
Qed.

Lemma search_tree_traversals_witness : exists (l : list (Z * Z)) (ns : list (Z * Z * Z)),
  visited postorder demo_walked = (ns.*1).*1 /\
  exists ks w, tdestroy (Malloc.free demo_av demo_fuel) 9 demo_root (demo_full.1, demo_full.2) = Ok (ks, w) /\ ks ≡ₚ ns.*2 /\ heap_inv l w.2 w.1.
Proof.
  destruct demo_full_table as (R & l & ns & Hn & Hr). exists l, ns.
  destruct (search_tree_traversals Z.sub 9 demo_link R l ns _ demo_root ltac:(lia) Hr demo_full_root)
    as [(vs & [h g] & E & _ & Hv & _) (ks & w & Ed & Hk & Hh)]. split.
  - rewrite -Hv. f_equal. apply (result_ok _ _ _ _ E). exact demo_walk_run.
  - exists ks, w. split; [exact Ed|]. split; [exact Hk|]. eapply entails_at; [|exact Hh]. iIntros "[$ _]".
Defined.
End Demo.
